(* ===== verification/_CoqProject ===== *)
-Q . S2P
Prelude.v
Text.v
Ids.v
Paths.v
Canonical.v
WorkflowMachine.v
TaskMachine.v
Requests.v
Goals.v
Dag.v
Verdicts.v
Candidates.v
Routing.v
Plans.v
Redaction.v
Ledger.v
History.v
Frames.v
Auth.v
Scheduler.v
Policy.v
Admission.v
Database.v
StoreCommands.v
StoreLeases.v
StoreCandidates.v
StoreDocuments.v
StoreLedger.v
StoreGoals.v
StoreRun.v
StoreSample.v
StoreGuarantees.v
FileSystem.v
Freeze.v
Delivery.v
DeliverySlots.v
DeliverySafety.v
DeliveryRuns.v
VerificationPlans.v
VerificationRuns.v
Services.v
Lifecycle.v
Controls.v
DaemonSteps.v
DaemonRuns.v
DaemonCalls.v
DaemonSafety.v
DaemonSample.v
CodeGraph.v
Extract.v
Inventory.v
CodeStore.v
CodeIndex.v
Memory.v
Intake.v
Worktrees.v
