(* ===== verification/Prelude.v ===== *)
(** * A verification of the workflow engine

    The program is a daemon, [workflowd], that takes a coding request from intake
    to delivery through a fixed sequence of gates, with the crates it is made of.
    This library models the crates' logic as functions of the kernel and proves
    what makes it correct. Every definition has the name of the function or type
    it translates; its file says which source it is.

    ** The parts and how they interact

    - workflow-core holds the values and their rules, without effects: a workflow
      is a state machine ([WorkflowMachine.v]); its tasks are another, with
      execution leases ([TaskMachine.v]), ordered by a graph ([Dag.v]); a
      request ([Requests.v]) and a goal ([Goals.v]) are what is asked for; a plan
      ([Plans.v]) answers it; evidence, verdicts and reviews ([Verdicts.v]) judge
      a candidate ([Candidates.v]); [Routing.v] picks the mode. All digests are
      built by one hasher ([Canonical.v]) over the values of [Ids.v] and the
      path rules of [Paths.v].
    - workflow-ledger records what happened: redacted events ([Redaction.v]), a
      hash chain ([Ledger.v]), signed checkpoints and queries ([History.v]).
    - workflow-ipc frames messages and authenticates clients ([Frames.v],
      [Auth.v]).
    - workflow-store persists all of it in SQLite. [Database.v] has the tables of
      the migrations and the transactions; [StoreCommands.v], [StoreLeases.v],
      [StoreCandidates.v], [StoreDocuments.v], [StoreLedger.v] and [StoreGoals.v]
      the operations, which call those of workflow-core on what they load.
      [StoreRun.v] closes them under every sequence of calls,
      [StoreGuarantees.v] states what that promises a caller, [StoreSample.v] is
      a store in use for its examples.
    - workflowd schedules ([Scheduler.v], [Policy.v], [Admission.v]) and delivers:
      [FileSystem.v] models the repository, [Freeze.v] makes a candidate of a
      worktree, [Delivery.v] applies an approved candidate to the user's
      repository with a journal, a rollback and a recovery. [DeliverySlots.v]
      and [DeliverySafety.v] prove that protocol, [DeliveryRuns.v] runs it.
      [VerificationPlans.v] discovers the gates of a worktree,
      [VerificationRuns.v] runs them.
    - the daemon itself: [Services.v] has its state (a store and a clock) and
      the services its handlers share (audit, routing evidence, the essentiality
      policy, repair); [Lifecycle.v] the handlers of lifecycle.rs, [Controls.v]
      those of control.rs, goal.rs and history.rs. [DaemonSteps.v] has the
      steps they share as calls of the store. [DaemonRuns.v] serves any sequence
      of requests and shows that it is a sequence of calls of the store, so that
      [StoreGuarantees.v] is about the daemon; [DaemonCalls.v] says which calls,
      with which arguments, each request may make, and which may make none;
      [DaemonSafety.v] has what only the handlers together guarantee;
      [DaemonSample.v] is a daemon in use for its examples.
    - workflow-code-intel indexes the sources. [CodeGraph.v] has the graph of
      facts, its validation, reconciliation and queries; [Extract.v] the parser
      runtime, the adapters of the languages and the facts they take from a
      syntax tree; [Inventory.v] which files a project has and how their manifest
      changes; [CodeStore.v] the tables they are stored in; [CodeIndex.v] the
      run that brings them together, and the service of the daemon around it.
    - workflow-memory keeps what a project learned: [Memory.v] has its entries,
      their tables, the search within budgets and the daemon's operations.
    - at the edges of the daemon, [Intake.v] has the exact bytes of a request and
      [Worktrees.v] the directories and Git commands of its worktrees.

    [Prelude.v], this file, has what they share: results and options as monads,
    a state-and-error monad, checked machine integers, the order of
    keys, generic lemmas and the tactics. [Text.v] has Rust's string
    operations.

    ** How code becomes definitions

    A [Result] is [Result]; a method with [&mut self] that can fail is a function
    of the state-and-error monad, which keeps the state an error leaves behind.
    A panic (an index, an [expect], an overflow in a checked operation) is [None]
    or an error of its own. Machine integers are [Z] or [N] with their bounds
    checked, wrapped or saturated as the source does. A [BTreeMap] or a table is
    a [gmap]; an ordered iteration is a sort of its keys. A store call is a
    function on the tables that leaves them as they were when it fails (a
    transaction). The daemon's environment may let any call of the store fail at
    any time, which is also where the process may end; a handler that lets go of
    the store while it works is two functions, with any requests in between. A
    call that changes the file system asks an oracle, a list that
    says of each operation in turn whether it goes through, fails or is the last
    one of the process; an exhausted oracle lets everything through. So a theorem
    over every oracle is over every fault and every interruption.

    What is not in the repository is a class or an argument: SHA-256 ([Sha256]),
    HMAC, Ed25519, RFC 3339 ([Rfc3339]), serde_json ([ToJson], [Persist] and the
    like), Git ([Git]), the platform ([Platform]), fresh identifiers, random
    bytes, the clock, the samples of the machine's resources, the reads of a
    stream, the tree a grammar gives for a text ([Grammars]), the walk of the
    ignore crate, the classes of Unicode, the ranking of a full-text search. Where a theorem needs the documented behaviour of one of them (a
    decoder inverts its encoder), it is a hypothesis, and its witness gives a
    function that has it. Collision resistance is never assumed: a theorem on a
    digest says what the digests are, or has as its other case an explicit
    collision between the messages that were hashed.

    ** Fuel

    A recursion that is not structural has fuel with a proof that it does not run
    out: the decoder of [Frames.v] takes the length of its input, since every
    turn consumes some; the searches of [Dag.v] the number of tasks, which also
    shows termination; the paging of [History.v] one page per entry and one more;
    the loop of [Scheduler.pop] the number of projects; the walks of [Extract.v]
    the nodes of the tree; the searches of [CodeGraph.v] the nodes and edges that
    are left. The theorems say that the
    functions return, not only what holds if they do.

    ** The theorems

    The properties of the library, [C1] to [C40], are numbered by importance; a
    comment at each states it. In groups:

    - delivery: all or nothing, up to the digests of contents and the executable
      bits, under any faults and interruptions; what an unrelated journal does;
      what freezing guarantees to the delivery; two behaviours that are wrong
      (missing directories, the marker's sync);
    - the daemon: what is delivered was approved, through any requests; every
      request makes only its own calls of the store, and none if it is of another
      project; what a verification that passes has run and scanned; two ways a
      workflow is stuck;
    - state machines: no workflow completes without its gates, the repair budget,
      a path to completion from everywhere, a table that says of every command
      what it needs, does, reports and answers; invariants and
      transitions of tasks and goals;
    - the store: idempotency, replay of the journal, reservations, leases, byte
      exact candidates, an append-only ledger, documents bound to what they are
      about, failed calls without effect;
    - the graph: validation decides validity, topological order, disjoint writes
      of ready tasks, no stall;
    - digests and the ledger: what they bind, tamper evidence, redaction, paging;
    - IPC: what chunking changes and what not, round trip, replay of challenges;
    - scheduling: bounds, priorities, fairness, debug and release builds;
    - code intelligence: a shortest path is found if there is one; extraction
      takes every fact of the tree and no other; a stored partition loads as it
      was; a manifest update has what changed in content; an incremental run gives
      the index of the whole project, where metadata tells changed files and the
      code's deletions stay apart;
    - memory: the tables refine a map of entries under interleaved calls; what a
      search recalls is current and grounded; what was removed stays away.

    A theorem with hypotheses has a witness next to it, a closed statement that
    applies it to a concrete run.

    ** What is not modelled

    - What a power failure leaves of data that was not synchronised; faults of
      reads; symbolic links inside the repository's paths (a delivery refuses
      them); the Windows branches. The safety theorem of the delivery is for a
      candidate none of whose paths is below another one; it takes
      synchronisations that may be cut short but not fail, which
      [marker_sync_failure_wedges] shows to be needed.
    - SQLite itself: opening, migrating, backing up, errors of the disk; the two
      processes of [workflowd] share a store through its transactions only.
    - Code that only calls the operating system: sockets and pipes, the
      credential and key files, processes, containers, file watching, sampling.
    - What the tree-sitter grammars make of a source, which are not in the
      repository; the threads of the indexer, whose answers come in any order.
    - The answers the daemon sends, as JSON, and the arms of lifecycle.rs that
      only forward (health, the code index, the memory, the worktree). *)
From stdpp Require Export base decidable gmap strings list fin_maps fin_sets sorting sets.
From Stdlib Require Export Lia.
From Stdlib Require Import Strings.Byte.

Set Default Goal Selector "!".

(** * Results and the state-with-error monad *)

(** Rust's [Result<A, E>]. *)
Inductive result (E A : Type) : Type :=
| Ok (a : A)
| Err (e : E).
Arguments Ok {E A} a.
Arguments Err {E A} e.

#[export] Instance result_ret {E} : MRet (result E) := λ A a, Ok a.
#[export] Instance result_bind {E} : MBind (result E) := λ A B f r,
  match r with Ok a => f a | Err e => Err e end.
#[export] Instance result_eq_dec {E A} `{EqDecision E, EqDecision A} :
  EqDecision (result E A).
Proof. solve_decision. Defined.

(** [expr?] in a function that returns [result] is stdpp's bind,
    [x ← expr; k]. *)

(** [Option::ok_or]. *)
Definition ok_or {E A} (e : E) (o : option A) : result E A :=
  match o with Some a => Ok a | None => Err e end.

(** An [if c { return Err(e) }] guard. *)
Definition reject_if {E} (c : bool) (e : E) : result E unit :=
  if c then Err e else Ok tt.

(** [Result::map_err]. *)
Definition map_err {E F A} (f : E → F) (r : result E A) : result F A :=
  match r with Ok a => Ok a | Err e => Err (f e) end.

(** [for x in xs { f(x)? }] : the first error ends the loop. *)
Fixpoint try_for_each {E A} (f : A → result E unit) (xs : list A) : result E unit :=
  match xs with
  | [] => Ok tt
  | x :: xs' => match f x with Ok _ => try_for_each f xs' | Err e => Err e end
  end.

(** [try_fold] : a loop that threads an accumulator and stops at the first error. *)
Fixpoint try_fold {E A B} (f : B → A → result E B) (b : B) (xs : list A) : result E B :=
  match xs with
  | [] => Ok b
  | x :: xs' => match f b x with Ok b' => try_fold f b' xs' | Err e => Err e end
  end.

(** [xs.map(f).collect::<Result<Vec<_>, _>>()]. *)
Fixpoint try_map {E A B} (f : A → result E B) (xs : list A) : result E (list B) :=
  match xs with
  | [] => Ok []
  | x :: xs' => y ← f x; ys ← try_map f xs'; Ok (y :: ys)
  end.

Definition is_ok {E A} (r : result E A) : bool :=
  match r with Ok _ => true | Err _ => false end.

(** A method with a [&mut self] receiver that returns a [Result]: the state it
    leaves behind is kept on the error path too, as the receiver of the Rust
    method is. *)
Definition method (S E A : Type) : Type := S → S * result E A.

#[export] Instance method_ret {S E} : MRet (method S E) := λ A a s, (s, Ok a).
#[export] Instance method_bind {S E} : MBind (method S E) := λ A B f m s,
  match m s with
  | (s', Ok a) => f a s'
  | (s', Err e) => (s', Err e)
  end.

Definition m_throw {S E A} (e : E) : method S E A := λ s, (s, Err e).
Definition m_get {S E} : method S E S := λ s, (s, Ok s).
Definition m_modify {S E} (f : S → S) : method S E unit := λ s, (f s, Ok tt).
Definition m_lift {S E A} (r : result E A) : method S E A := λ s, (s, r).

(** [for x in xs { f(x)? }] over a method. *)
Fixpoint m_for_each {S E A} (f : A → method S E unit) (xs : list A) : method S E unit :=
  match xs with
  | [] => mret tt
  | x :: xs' => _ ← f x; m_for_each f xs'
  end.

(** [xs.map(f).collect::<Result<_, _>>()] over a method. *)
Fixpoint m_map {S E A B} (f : A → method S E B) (xs : list A) : method S E (list B) :=
  match xs with
  | [] => mret []
  | x :: xs' => y ← f x; ys ← m_map f xs'; mret (y :: ys)
  end.

(** * Machine integers *)

(** The maxima of the integer types the program uses, and [checked_add] and
    [saturating_add] at a given maximum. *)
Definition u8_max : N := 255.
Definition u16_max : N := 65535.
Definition u32_max : N := 4294967295.
Definition u64_max : N := 18446744073709551615.
Definition i64_max : Z := 9223372036854775807.
Definition i64_min : Z := -9223372036854775808.

Definition checked_add (max a b : N) : option N :=
  if (a + b <=? max)%N then Some (a + b)%N else None.
Definition saturating_add (max a b : N) : N := N.min max (a + b).
Definition i64_checked_add (a b : Z) : option Z :=
  if (i64_min <=? a + b)%Z && (a + b <=? i64_max)%Z then Some (a + b)%Z else None.

Arguments checked_add : simpl never.
Arguments saturating_add : simpl never.
Arguments i64_checked_add : simpl never.

(** [u64::try_from(len)] of a collection's length. *)
Definition u64_try_from (n : nat) : option N :=
  if (N.of_nat n <=? u64_max)%N then Some (N.of_nat n) else None.

(** * Ordered keys: [BTreeMap] and [BTreeSet] iteration *)

(** Rust's [Ord]: a decidable total order whose equality is the type's. *)
Class Ordered (K : Type) := {
  key_le : relation K;
  #[global] key_le_dec :: RelDecision key_le;
  #[global] key_le_po :: PartialOrder key_le;
  #[global] key_le_total :: Total key_le;
}.

#[export] Instance N_ordered : Ordered N := {| key_le := N.le |}.
#[export] Instance nat_ordered : Ordered nat := {| key_le := Nat.le |}.
#[export] Instance Z_ordered : Ordered Z := {| key_le := Z.le |}.
#[export] Instance string_ordered : Ordered string := {| key_le := String.le |}.

Definition entry_le {K V} `{Ordered K} (p q : K * V) : Prop := key_le p.1 q.1.
#[export] Instance entry_le_dec {K V} `{Ordered K} : RelDecision (@entry_le K V _) :=
  λ p q, key_le_dec p.1 q.1.

(** The entries of a [BTreeMap] in iteration order: ascending keys. *)
Definition btree_iter {K V} `{Countable K, Ordered K} (m : gmap K V) : list (K * V) :=
  merge_sort entry_le (map_to_list m).
Definition btree_keys {K V} `{Countable K, Ordered K} (m : gmap K V) : list K :=
  (btree_iter m).*1.
Definition btree_values {K V} `{Countable K, Ordered K} (m : gmap K V) : list V :=
  (btree_iter m).*2.

(** [sort_unstable]: equal elements of an [Ord] type are the same, so any sort
    gives this list. *)
Definition sort_unstable {K} `{Ordered K} (l : list K) : list K := merge_sort key_le l.

(** The elements of a [BTreeSet] in iteration order. *)
Definition bset_iter {K} `{Countable K, Ordered K} (s : gset K) : list K :=
  merge_sort key_le (elements s).

(** A derived [Ord]: the position of the constructor. *)
Section index_order.
Context {A : Type} (f : A → nat) `{!Inj (=) (=) f}.
Definition index_le (a b : A) : Prop := f a ≤ f b.
#[global] Instance index_le_dec : RelDecision index_le := λ a b, decide (f a ≤ f b).
#[global] Instance index_le_po : PartialOrder index_le.
Proof.
  unfold index_le. split; [split|].
  - by intros a.
  - intros a b c ??. lia.
  - intros a b ??. apply (inj f). lia.
Qed.
#[global] Instance index_le_total : Total index_le.
Proof. intros a b. unfold index_le. lia. Qed.
Definition ordered_by_index : Ordered A := {| key_le := index_le |}.
End index_order.

(** [BTreeSet::pop_first]. *)
Definition bset_pop_first {K} `{Countable K, Ordered K} (s : gset K) : option (K * gset K) :=
  match bset_iter s with
  | [] => None
  | k :: _ => Some (k, s ∖ {[k]})
  end.

(** The derived [Ord] of a pair. *)
Section pair_order.
Context {A B : Type} `{Ordered A, Ordered B}.
Definition pair_le (p q : A * B) : Prop :=
  key_le p.1 q.1 ∧ (p.1 = q.1 → key_le p.2 q.2).
#[global] Instance pair_le_dec `{EqDecision A} : RelDecision pair_le.
Proof. intros p q. unfold pair_le. apply _. Defined.
#[global] Instance pair_le_po : PartialOrder pair_le.
Proof.
  split; [split|].
  - intros p. split; [reflexivity|]. intros _. reflexivity.
  - intros p q r [Hpq Hpq'] [Hqr Hqr']. split; [by trans q.1|]. intros Heq.
    assert (p.1 = q.1) as He by (apply (anti_symm key_le); [done|by rewrite Heq]).
    trans q.2; [auto|]. apply Hqr'. congruence.
  - intros [a b] [a' b'] [Hpq Hpq'] [Hqr Hqr']; simpl in *.
    assert (a = a') as -> by by apply (anti_symm key_le). f_equal. apply (anti_symm key_le); auto.
Qed.
#[global] Instance pair_le_total `{EqDecision A} : Total pair_le.
Proof.
  intros [a b] [a' b']. unfold pair_le; simpl. destruct (decide (a = a')) as [<-|Hne].
  - destruct (total key_le b b'); [left|right]; split; auto; reflexivity.
  - destruct (total key_le a a'); [left|right]; split; try done; congruence.
Qed.
#[global] Instance pair_ordered `{EqDecision A} : Ordered (A * B) := {| key_le := pair_le |}.
End pair_order.

(** * Byte budgets *)

(** [take_while] over sizes with the bytes taken so far ([None] is an item that
    cannot be written, of size [usize::MAX]); a sum stays below the budget. *)
Fixpoint take_within {A} (size : A → option N) (max bytes : N) (l : list A) : list A * N :=
  match l with
  | [] => ([], bytes)
  | x :: l =>
      let n := default u64_max (size x) in
      if (max <? saturating_add u64_max bytes n)%N then ([], bytes)
      else let '(taken, total) := take_within size max ((bytes + n) mod 2 ^ 64) l in (x :: taken, total)
  end.

(** * Fixed-width values *)

(** [[u8; n]] arrays with their derived [Ord], [Uuid]s and digests are held as
    their big-endian value, bounded by [2 ^ bits]. *)
Record word (bits : N) : Type := Word {
  word_val : N;
  word_ok : (word_val <? 2 ^ bits)%N = true;
}.
Arguments Word {bits} _ _.
Arguments word_val {bits} _.
Arguments word_ok {bits} _.

Lemma word_of_bound (bits n : N) : (n mod 2 ^ bits <? 2 ^ bits)%N = true.
Proof. apply N.ltb_lt, N.mod_lt, N.pow_nonzero. lia. Qed.

(** The value reduced to the width. *)
Definition word_of (bits n : N) : word bits := Word (n mod 2 ^ bits) (word_of_bound bits n).

Lemma word_eq {bits} (a b : word bits) : word_val a = word_val b → a = b.
Proof.
  destruct a as [a Ha], b as [b Hb]; simpl; intros ->. f_equal.
  apply (Eqdep_dec.UIP_dec Bool.bool_dec).
Qed.

#[export] Instance word_val_inj {bits} : Inj (=) (=) (@word_val bits).
Proof. intros a b. apply word_eq. Qed.

#[export] Instance word_eq_dec bits : EqDecision (word bits).
Proof.
  refine (λ a b, match decide (word_val a = word_val b) with
    left H => left (word_eq a b H) | right H => right _ end).
  by intros ->.
Defined.

#[export] Instance word_countable bits : Countable (word bits).
Proof.
  refine (inj_countable' word_val (word_of bits) _).
  intros a. apply word_eq; simpl. apply N.mod_small, N.ltb_lt, word_ok.
Defined.

Definition word_le {bits} (a b : word bits) : Prop := (word_val a ≤ word_val b)%N.
#[export] Instance word_le_dec bits : RelDecision (@word_le bits) :=
  λ a b, decide (word_val a ≤ word_val b)%N.
#[export] Instance word_le_po bits : PartialOrder (@word_le bits).
Proof.
  split; [split|].
  - intros a. unfold word_le. lia.
  - intros a b c. unfold word_le. lia.
  - intros a b ??. apply word_eq. unfold word_le in *. lia.
Qed.
#[export] Instance word_le_total bits : Total (@word_le bits).
Proof. intros a b. unfold word_le. lia. Qed.
#[export] Instance word_ordered bits : Ordered (word bits) := {| key_le := word_le |}.

(** * Tactics *)

(** Split every conditional or match the goal or a hypothesis computes with. *)
Ltac split_matches :=
  repeat (case_match || case_decide || case_bool_decide); simplify_eq/=.

(** Run the binds of the two monads. *)
Ltac run_method :=
  cbv [mbind method_bind mret method_ret m_get m_modify m_lift m_throw
       result_bind result_ret option_bind option_ret reject_if];
  cbv beta iota zeta.
Tactic Notation "run_method" "in" hyp(H) :=
  cbv [mbind method_bind mret method_ret m_get m_modify m_lift m_throw
       result_bind result_ret option_bind option_ret reject_if] in H;
  cbv beta iota zeta in H.

(** Turn boolean tests into propositions. *)
Ltac to_prop :=
  repeat match goal with
  | H : andb _ _ = true |- _ => apply andb_true_iff in H; destruct H
  | H : orb _ _ = false |- _ => apply orb_false_iff in H; destruct H
  | H : negb _ = true |- _ => apply negb_true_iff in H
  | H : negb _ = false |- _ => apply negb_false_iff in H
  | H : (_ <=? _)%N = true |- _ => apply N.leb_le in H
  | H : (_ <=? _)%N = false |- _ => apply N.leb_gt in H
  | H : (_ <? _)%N = true |- _ => apply N.ltb_lt in H
  | H : (_ <? _)%N = false |- _ => apply N.ltb_ge in H
  | H : (_ =? _)%N = true |- _ => apply N.eqb_eq in H
  | H : (_ =? _)%N = false |- _ => apply N.eqb_neq in H
  | H : (_ <=? _)%Z = true |- _ => apply Z.leb_le in H
  | H : (_ <=? _)%Z = false |- _ => apply Z.leb_gt in H
  | H : (_ <? _)%Z = true |- _ => apply Z.ltb_lt in H
  | H : (_ <? _)%Z = false |- _ => apply Z.ltb_ge in H
  | H : bool_decide _ = true |- _ => apply bool_decide_eq_true in H
  | H : bool_decide _ = false |- _ => apply bool_decide_eq_false in H
  end.

Create HintDb cycle discriminated.
Create Rewrite HintDb cycle_rw.

(** * Lemmas on results *)

Lemma result_bind_ok {E A B} (f : A → result E B) (r : result E A) b :
  r ≫= f = Ok b ↔ ∃ a, r = Ok a ∧ f a = Ok b.
Proof. destruct r; naive_solver. Qed.

Lemma result_bind_err {E A B} (f : A → result E B) (r : result E A) e :
  r ≫= f = Err e ↔ r = Err e ∨ ∃ a, r = Ok a ∧ f a = Err e.
Proof. destruct r; naive_solver. Qed.

#[export] Instance Ok_inj {E A} : Inj (=) (=) (@Ok E A).
Proof. by intros a b [= ->]. Qed.

(** A check followed by the rest of a function. *)
Lemma result_then_ok {E B} (k : result E B) (r : result E unit) b :
  (r ≫= λ _, k) = Ok b ↔ r = Ok tt ∧ k = Ok b.
Proof. destruct r as [[]|]; simpl; split; [by intros|by intros [_ ?]|done|by intros [? _]]. Qed.

Lemma ok_or_ok {E A} (e : E) (o : option A) a : ok_or e o = Ok a ↔ o = Some a.
Proof. destruct o; naive_solver. Qed.

Lemma reject_if_ok {E} (c : bool) (e : E) u : reject_if c e = Ok u ↔ c = false.
Proof. destruct u, c; naive_solver. Qed.

Lemma map_err_ok {E F A} (f : E → F) (r : result E A) a :
  map_err f r = Ok a ↔ r = Ok a.
Proof. destruct r; naive_solver. Qed.

(** A loop over an image of the accumulator. *)
Lemma try_fold_image {E A B B'} (h : B → B') (f : B → A → result E B) (f' : B' → A → result E B') xs b :
  (∀ b x, f' (h b) x = match f b x with Ok b' => Ok (h b') | Err e => Err e end) →
  try_fold f' (h b) xs = match try_fold f b xs with Ok b' => Ok (h b') | Err e => Err e end.
Proof.
  intros Hh. revert b. induction xs as [|x xs IH]; intros b; simpl; [done|].
  rewrite Hh. by destruct (f b x).
Qed.

Lemma try_for_each_ok {E A} (f : A → result E unit) xs u :
  try_for_each f xs = Ok u ↔ Forall (λ x, f x = Ok tt) xs.
Proof.
  destruct u. induction xs as [|x xs IH]; simpl; [by split|].
  rewrite Forall_cons, <-IH. destruct (f x) as [[]|]; naive_solver.
Qed.

Lemma try_map_ok {E A B} (f : A → result E B) xs ys :
  try_map f xs = Ok ys ↔ Forall2 (λ x y, f x = Ok y) xs ys.
Proof.
  revert ys. induction xs as [|x xs IH]; intros ys; simpl.
  - split; [intros [= <-]; constructor|]. by intros ->%Forall2_nil_inv_l.
  - rewrite result_bind_ok. setoid_rewrite result_bind_ok. setoid_rewrite IH. split.
    + intros (y&?&ys'&?&[= <-]). by constructor.
    + intros (y&ys'&?&?&->)%Forall2_cons_inv_l. eauto.
Qed.

(** The error of a loop is the one its first failing element gives. *)
Lemma try_for_each_err {E A} (f : A → result E unit) xs e :
  try_for_each f xs = Err e ↔
  ∃ pre x post, xs = pre ++ x :: post ∧ Forall (λ y, f y = Ok tt) pre ∧ f x = Err e.
Proof.
  induction xs as [|x xs IH]; simpl.
  { split; [done|]. intros ([]&?&?&?&?); naive_solver. }
  destruct (f x) as [[]|e'] eqn:Hx.
  - rewrite IH. split.
    + intros (pre&y&post&->&?&?). exists (x :: pre), y, post. by repeat constructor.
    + intros ([|z pre]&y&post&?&Hpre&?); simplify_eq/=; [congruence|].
      inversion Hpre; subst. eauto 10.
  - split.
    + intros [= ->]. by exists [], x, xs.
    + intros ([|z pre]&y&post&?&Hpre&?); simplify_eq/=; [congruence|].
      inversion Hpre; congruence.
Qed.

Lemma checked_add_some max a b c :
  checked_add max a b = Some c ↔ c = (a + b)%N ∧ (a + b ≤ max)%N.
Proof. unfold checked_add. split_matches; to_prop; naive_solver lia. Qed.

Lemma checked_add_fits max a b : (a + b ≤ max)%N → checked_add max a b = Some (a + b)%N.
Proof. intros. by apply checked_add_some. Qed.

Lemma checked_add_none max a b : checked_add max a b = None ↔ (max < a + b)%N.
Proof. unfold checked_add. split_matches; to_prop; naive_solver lia. Qed.

Lemma i64_checked_add_some a b c :
  i64_checked_add a b = Some c ↔ c = (a + b)%Z ∧ (i64_min ≤ a + b ≤ i64_max)%Z.
Proof.
  unfold i64_checked_add.
  destruct (i64_min <=? a + b)%Z eqn:?, (a + b <=? i64_max)%Z eqn:?; simpl;
    to_prop; naive_solver lia.
Qed.

#[export] Hint Rewrite @result_bind_ok @ok_or_ok @reject_if_ok @map_err_ok
  @try_for_each_ok checked_add_some i64_checked_add_some : cycle_rw.

(** What a budget takes: a prefix whose sizes add up to at most the budget, as
    long as the next item fits. *)
Lemma take_within_spec {A} (size : A → option N) max l bytes :
  (bytes ≤ max < u64_max)%N →
  let '(taken, total) := take_within size max bytes l in
  ∃ rest, l = taken ++ rest ∧ (total ≤ max)%N ∧
    total = (bytes + foldr (λ x n, default u64_max (size x) + n) 0 taken)%N ∧
    match rest with [] => True | x :: _ => (max < total + default u64_max (size x))%N end.
Proof.
  revert bytes. induction l as [|x l IH]; intros bytes Hmax; simpl.
  { exists []. repeat split; lia. }
  unfold saturating_add.
  destruct (max <? N.min u64_max (bytes + default u64_max (size x)))%N eqn:Hfits; to_prop.
  - exists (x :: l). repeat split; simpl; lia.
  - assert (bytes + default u64_max (size x) ≤ max)%N as Hle by lia.
    rewrite N.mod_small by (unfold u64_max in *; lia).
    specialize (IH (bytes + default u64_max (size x))%N ltac:(lia)).
    destruct (take_within size max _ l) as [taken total].
    destruct IH as (rest&->&Htotal&->&Hrest). exists rest. simpl.
    split; [done|]. split; [lia|]. split; [lia|done].
Qed.

(** * Lemmas on methods *)

(** How a method that returned [Ok] got there, one step at a time. *)
Section methods.
Context {S E : Type}.
Implicit Types s : S.

Lemma method_bind_ok {A B} (f : A → method S E B) (m : method S E A) s s' b :
  (m ≫= f) s = (s', Ok b) ↔ ∃ s1 a, m s = (s1, Ok a) ∧ f a s1 = (s', Ok b).
Proof. unfold mbind, method_bind. destruct (m s) as [s1 [a|e]]; naive_solver. Qed.

Lemma method_bind_err {A B} (f : A → method S E B) (m : method S E A) s s' e :
  (m ≫= f) s = (s', Err e) ↔
  m s = (s', Err e) ∨ ∃ s1 a, m s = (s1, Ok a) ∧ f a s1 = (s', Err e).
Proof. unfold mbind, method_bind. destruct (m s) as [s1 [a|e']]; naive_solver. Qed.

Lemma method_bind_run {A B} (f : A → method S E B) (m : method S E A) s s1 a :
  m s = (s1, Ok a) → (m ≫= f) s = f a s1.
Proof. unfold mbind, method_bind. by intros ->. Qed.

Lemma method_ret_ok {A} (a b : A) s s' : (mret a : method S E A) s = (s', Ok b) ↔ s' = s ∧ b = a.
Proof. unfold mret, method_ret. naive_solver. Qed.

Lemma m_get_ok s s' a : (m_get : method S E S) s = (s', Ok a) ↔ s' = s ∧ a = s.
Proof. unfold m_get. naive_solver. Qed.

Lemma m_modify_ok (f : S → S) s s' u : (m_modify f : method S E unit) s = (s', Ok u) ↔ s' = f s.
Proof. unfold m_modify. destruct u. naive_solver. Qed.

Lemma m_lift_ok {A} (r : result E A) s s' a : m_lift r s = (s', Ok a) ↔ s' = s ∧ r = Ok a.
Proof. unfold m_lift. naive_solver. Qed.

Lemma m_throw_ok {A} (e : E) s s' (a : A) : m_throw e s = (s', Ok a) ↔ False.
Proof. unfold m_throw. naive_solver. Qed.

(** The body's state is unchanged by a loop none of whose rounds changes it. *)
Lemma m_map_ok {A B} (f : A → method S E B) xs s s' ys :
  (∀ x s s' y, f x s = (s', Ok y) → s' = s) →
  m_map f xs s = (s', Ok ys) → s' = s ∧ Forall2 (λ x y, f x s = (s, Ok y)) xs ys.
Proof.
  intros Hf. revert s s' ys. induction xs as [|x xs IH]; intros s s' ys; simpl.
  { intros [-> ->]%method_ret_ok. by split. }
  intros (s1&y&Hy&(s2&ys'&Hys&[-> ->]%method_ret_ok)%method_bind_ok)%method_bind_ok.
  pose proof (Hf _ _ _ _ Hy) as ->. apply IH in Hys as [-> Hall]. split; [done|by constructor].
Qed.
End methods.

(** * What a method preserves *)

(** However a method ends, [R] relates the state before to the state after: for
    a preorder, such as that a part of the state is unchanged or only grows, or
    that an invariant is kept, it is enough that each step does. *)
Definition preserves {S E A} (R : relation S) (m : method S E A) : Prop := ∀ s, R s (m s).1.

(** The preorder of the states with the same part [f]. *)
Definition same {S X} (f : S → X) : relation S := λ s s', f s' = f s.
#[export] Instance same_preorder {S X} (f : S → X) : PreOrder (same f).
Proof. split; unfold same; [by intros s|]. intros s1 s2 s3. congruence. Qed.

Section preserves.
Context {S E : Type} (R : relation S) `{!PreOrder R}.

Lemma preserves_ret {A} (a : A) : preserves R (mret a : method S E A).
Proof. intros s. simpl. done. Qed.
Lemma preserves_get : preserves R (m_get : method S E S).
Proof. intros s. simpl. done. Qed.
Lemma preserves_lift {A} (r : result E A) : preserves R (m_lift r : method S E A).
Proof. intros s. simpl. done. Qed.
Lemma preserves_throw {A} (e : E) : preserves R (m_throw e : method S E A).
Proof. intros s. simpl. done. Qed.
Lemma preserves_modify (f : S → S) : (∀ s, R s (f s)) → preserves R (m_modify f : method S E unit).
Proof. intros Hf s. apply Hf. Qed.
Lemma preserves_bind {A B} (m : method S E A) (f : A → method S E B) :
  preserves R m → (∀ a, preserves R (f a)) → preserves R (m ≫= f).
Proof.
  intros Hm Hf s. specialize (Hm s). unfold mbind, method_bind.
  destruct (m s) as [s1 [a|e]]; [|done]. simpl in *. etrans; [exact Hm|]. apply Hf.
Qed.
Lemma preserves_for_each {A} (f : A → method S E unit) xs :
  (∀ x, preserves R (f x)) → preserves R (m_for_each f xs).
Proof.
  intros Hf. induction xs as [|x xs IH]; simpl; [apply preserves_ret|].
  apply preserves_bind; [apply Hf|]. intros _. exact IH.
Qed.
Lemma preserves_map {A B} (f : A → method S E B) xs :
  (∀ x, preserves R (f x)) → preserves R (m_map f xs).
Proof.
  intros Hf. induction xs as [|x xs IH]; simpl; [apply preserves_ret|].
  apply preserves_bind; [apply Hf|]. intros y. apply preserves_bind; [exact IH|].
  intros ys. apply preserves_ret.
Qed.
End preserves.

Create HintDb keeps discriminated.
#[export] Hint Resolve preserves_ret preserves_get preserves_lift preserves_throw : keeps.

(** Walks through a method's steps; what is left are its assignments. *)
Ltac solve_preserves :=
  repeat first
    [ apply preserves_bind; [typeclasses eauto| |intros ?]
    | solve [eauto with keeps typeclass_instances]
    | apply preserves_for_each; [typeclasses eauto|intros ?]
    | apply preserves_map; [typeclasses eauto|intros ?]
    | apply preserves_modify; intros ?; try reflexivity
    | progress cbv beta
    | case_match ].

(** Reads every step of a successful method off its equation. *)
Ltac inv_step :=
  match goal with
  | H : (_ ≫= _) _ = (_, Ok _) |- _ => apply method_bind_ok in H as (?&?&?&?)
  | H : (mret _) _ = (_, Ok _) |- _ => apply method_ret_ok in H as [? ?]
  | H : m_get _ = (_, Ok _) |- _ => apply m_get_ok in H as [? ?]
  | H : m_modify _ _ = (_, Ok _) |- _ => apply m_modify_ok in H
  | H : m_lift _ _ = (_, Ok _) |- _ => apply m_lift_ok in H as [? ?]
  | H : m_throw _ _ = (_, Ok _) |- _ => by apply m_throw_ok in H
  | H : reject_if _ _ = Ok _ |- _ => apply reject_if_ok in H
  | H : ok_or _ _ = Ok _ |- _ => apply ok_or_ok in H
  | H : map_err _ _ = Ok _ |- _ => apply map_err_ok in H
  end.
Ltac inv_method := repeat (inv_step; subst; cbv beta in * ).

(** * Loops that index a list by a key *)

Definition index_by {K A} `{Countable K} (key : A → K) (m : gmap K A) (xs : list A) : gmap K A :=
  foldl (λ m x, <[key x := x]> m) m xs.

Section index.
Context {K A E : Type} `{Countable K} (key : A → K).

(** A loop that inserts each element under its key, stopping at a key that is
    there already or at an element that fails its checks. *)
Lemma try_fold_index (f : gmap K A → A → result E (gmap K A)) (P : A → Prop) :
  (∀ m x m', f m x = Ok m' ↔ m !! key x = None ∧ P x ∧ m' = <[key x := x]> m) →
  ∀ xs m0 m, try_fold f m0 xs = Ok m ↔
    NoDup (key <$> xs) ∧ Forall (λ x, m0 !! key x = None) xs ∧ Forall P xs ∧
    m = index_by key m0 xs.
Proof.
  intros Hf xs. induction xs as [|x xs IH]; intros m0 m; simpl.
  { split; [intros [= <-]; by repeat constructor|]. by intros (_&_&_&->). }
  rewrite NoDup_cons, !Forall_cons. destruct (f m0 x) as [m1|e] eqn:Hx.
  - apply Hf in Hx as (Hnone&HP&->). rewrite IH, !Forall_forall. split.
    + intros (?&Hall&?&->). split_and!; try done.
      * intros (y&Heq&Hin)%list_elem_of_fmap. specialize (Hall y Hin).
        by rewrite Heq, lookup_insert_eq in Hall.
      * intros y Hin. specialize (Hall y Hin). by apply lookup_insert_None in Hall as [? _].
    + intros ([Hnot ?]&[_ Hall]&[_ ?]&->). split_and!; try done. intros y Hin.
      apply lookup_insert_None. split; [by apply Hall|]. intros Heq. apply Hnot.
      rewrite Heq. by apply list_elem_of_fmap_2.
  - split; [done|]. intros (_&[Hnone _]&[HP _]&_).
    assert (f m0 x = Ok (<[key x:=x]> m0)); [|congruence]. by apply Hf.
Qed.

Lemma index_by_keyed m0 xs :
  (∀ k x, m0 !! k = Some x → key x = k) →
  ∀ k x, index_by key m0 xs !! k = Some x → key x = k.
Proof.
  revert m0. induction xs as [|y xs IH]; intros m0 Hk; simpl; [done|].
  apply IH. intros k x [[<- <-]|[_ ?]]%lookup_insert_Some; [done|by apply Hk].
Qed.

Lemma index_by_lookup xs k x :
  NoDup (key <$> xs) → index_by key ∅ xs !! k = Some x ↔ x ∈ xs ∧ key x = k.
Proof.
  intros Hnd.
  enough (∀ m0, Forall (λ x, m0 !! key x = None) xs →
    index_by key m0 xs !! k = Some x ↔ m0 !! k = Some x ∨ (x ∈ xs ∧ key x = k)) as Hgen.
  { rewrite Hgen, lookup_empty; [naive_solver|]. apply Forall_forall. intros. apply lookup_empty. }
  induction xs as [|y xs IH]; intros m0 Hnone; simpl.
  { rewrite elem_of_nil. tauto. }
  apply NoDup_cons in Hnd as [Hy Hnd]. apply Forall_cons in Hnone as [Hm Hnone].
  rewrite IH; [|done|].
  - rewrite elem_of_cons, lookup_insert_Some. split.
    + intros [[[<- <-]|[? ?]]|[? ?]]; auto.
    + intros [Hk|[[->|?] <-]]; auto. left. right. split; [|done]. intros <-. congruence.
  - apply Forall_forall. intros z Hz. eapply Forall_forall in Hnone; [|exact Hz].
    apply lookup_insert_None. split; [done|]. intros Heq. apply Hy. rewrite Heq.
    by apply list_elem_of_fmap_2.
Qed.

Lemma index_by_dom xs k : NoDup (key <$> xs) → is_Some (index_by key ∅ xs !! k) ↔ k ∈ key <$> xs.
Proof.
  intros Hnd. rewrite list_elem_of_fmap. split.
  - intros [x [Hx <-]%index_by_lookup]; [eauto|done].
  - intros (x&->&Hx). exists x. by apply index_by_lookup.
Qed.
End index.

(** * Lemmas on lists *)

Lemma Forall2_eq {A} (l k : list A) : Forall2 (=) l k → l = k.
Proof. induction 1; congruence. Qed.

Lemma NoDup_fmap_filter {A B} (f : A → B) (P : A → Prop) `{∀ x, Decision (P x)} (l : list A) :
  NoDup (f <$> l) → NoDup (f <$> filter P l).
Proof.
  induction l as [|x l IH]; [done|]. rewrite filter_cons, fmap_cons.
  intros [Hx Hl]%NoDup_cons. case_decide; [|by apply IH].
  apply NoDup_cons. split; [|by apply IH].
  intros (y&Hy&[_ Hin]%list_elem_of_filter)%list_elem_of_fmap. apply Hx.
  rewrite Hy. by apply list_elem_of_fmap_2.
Qed.

Lemma list_filter_all {A} (P : A → Prop) `{∀ x, Decision (P x)} (l : list A) :
  Forall P l → filter P l = l.
Proof. induction 1; [done|]. rewrite filter_cons_True by done. by f_equal. Qed.
Lemma list_filter_none {A} (P : A → Prop) `{∀ x, Decision (P x)} (l : list A) :
  Forall (λ x, ¬ P x) l → filter P l = [].
Proof. induction 1; [done|]. by rewrite filter_cons_False. Qed.

(** * Lemmas on ordered iteration *)

#[export] Instance entry_le_total {K V} `{Ordered K} : Total (@entry_le K V _).
Proof. intros p q. apply (total key_le). Qed.
#[export] Instance entry_le_trans {K V} `{Ordered K} : Transitive (@entry_le K V _).
Proof. intros p q r. unfold entry_le. apply transitivity. Qed.

Section sorting.
Context {K : Type} `{Ordered K}.
Implicit Types l k : list K.

Lemma sort_unstable_perm l : sort_unstable l ≡ₚ l.
Proof. apply merge_sort_Permutation. Qed.

Lemma sort_unstable_sorted l : StronglySorted key_le (sort_unstable l).
Proof. apply StronglySorted_merge_sort; apply _. Qed.

(** Sorting forgets the order of the input. *)
Lemma sort_unstable_perm_eq l k : l ≡ₚ k → sort_unstable l = sort_unstable k.
Proof.
  intros Hp. apply (StronglySorted_unique key_le); [apply sort_unstable_sorted..|].
  by rewrite !sort_unstable_perm.
Qed.

Lemma sort_unstable_idemp l : sort_unstable (sort_unstable l) = sort_unstable l.
Proof. apply sort_unstable_perm_eq, sort_unstable_perm. Qed.
End sorting.

(** A list sorted by distinct keys is determined by its elements. *)
Lemma sorted_by_key_unique {A K} `{Ordered K} (key : A → K) (l k : list A) :
  NoDup (key <$> l) → l ≡ₚ k →
  StronglySorted (λ x y, key_le (key x) (key y)) l →
  StronglySorted (λ x y, key_le (key x) (key y)) k → l = k.
Proof.
  revert k. induction l as [|f fs IH]; intros gs Hnd Hperm Hf Hg.
  { by apply Permutation_nil_l in Hperm. }
  destruct gs as [|g gs]; [by apply Permutation_nil_r in Hperm|].
  apply StronglySorted_inv in Hf as [Hf Hfle]. apply StronglySorted_inv in Hg as [Hg Hgle].
  rewrite fmap_cons in Hnd. apply NoDup_cons in Hnd as [Hfn Hnd].
  assert (f = g) as ->.
  { assert (f ∈ g :: gs) as [?|Hin]%elem_of_cons by (rewrite <-Hperm; by left); [done|].
    assert (g ∈ f :: fs) as [->|Hgf]%elem_of_cons by (rewrite Hperm; by left); [done|].
    eapply Forall_forall in Hgle; [|exact Hin]. eapply Forall_forall in Hfle; [|exact Hgf].
    destruct Hfn. rewrite (anti_symm key_le _ _ Hfle Hgle). by apply list_elem_of_fmap_2. }
  f_equal. apply IH; try done. by apply Permutation_cons_inv in Hperm.
Qed.

Section btree.
Context {K V : Type} `{Countable K, Ordered K}.
Implicit Types (m : gmap K V) (s : gset K).

Lemma btree_iter_perm m : btree_iter m ≡ₚ map_to_list m.
Proof. apply merge_sort_Permutation. Qed.

Lemma elem_of_btree_iter m k v : (k, v) ∈ btree_iter m ↔ m !! k = Some v.
Proof. by rewrite btree_iter_perm, elem_of_map_to_list. Qed.

Lemma elem_of_btree_keys m k : k ∈ btree_keys m ↔ is_Some (m !! k).
Proof.
  unfold btree_keys. rewrite list_elem_of_fmap. split.
  - intros ([k' v]&->&Hin). exists v. by apply elem_of_btree_iter.
  - intros [v Hv]. exists (k, v). by rewrite elem_of_btree_iter.
Qed.

Lemma elem_of_btree_values m v : v ∈ btree_values m ↔ ∃ k, m !! k = Some v.
Proof.
  unfold btree_values. rewrite list_elem_of_fmap. split.
  - intros ([k v']&->&Hin). exists k. by apply elem_of_btree_iter.
  - intros [k Hv]. exists (k, v). by rewrite elem_of_btree_iter.
Qed.

Lemma btree_keys_perm m : btree_keys m ≡ₚ (map_to_list m).*1.
Proof. unfold btree_keys. by rewrite btree_iter_perm. Qed.

Lemma NoDup_btree_keys m : NoDup (btree_keys m).
Proof. rewrite btree_keys_perm. apply NoDup_fst_map_to_list. Qed.

Lemma length_btree_keys m : length (btree_keys m) = size m.
Proof. by rewrite btree_keys_perm, length_fmap, length_map_to_list. Qed.

Lemma btree_iter_sorted m : StronglySorted entry_le (btree_iter m).
Proof. apply StronglySorted_merge_sort; apply _. Qed.

Lemma btree_keys_sorted m : StronglySorted key_le (btree_keys m).
Proof.
  unfold btree_keys. induction (btree_iter_sorted m) as [|p l Hl IH Hp]; simpl; [constructor|].
  constructor; [done|]. by apply Forall_fmap.
Qed.

Lemma elem_of_bset_iter s k : k ∈ bset_iter s ↔ k ∈ s.
Proof. unfold bset_iter. by rewrite merge_sort_Permutation, elem_of_elements. Qed.

Lemma bset_iter_inj s t : bset_iter s = bset_iter t → s = t.
Proof. intros H'. apply set_eq. intros k. by rewrite <-!elem_of_bset_iter, H'. Qed.

Lemma NoDup_bset_iter s : NoDup (bset_iter s).
Proof. unfold bset_iter. rewrite merge_sort_Permutation. apply NoDup_elements. Qed.

Lemma bset_pop_first_none s : bset_pop_first s = None ↔ s = ∅.
Proof.
  unfold bset_pop_first. split.
  - destruct (bset_iter s) as [|k l] eqn:Hs; [|done]. intros _. apply elem_of_equiv_empty_L.
    intros k Hk. apply elem_of_bset_iter in Hk. rewrite Hs in Hk. by apply elem_of_nil in Hk.
  - intros ->. destruct (bset_iter ∅) as [|k l] eqn:Hs; [done|].
    assert (k ∈ (∅ : gset K)) as []%not_elem_of_empty.
    apply elem_of_bset_iter. rewrite Hs. apply elem_of_cons. by left.
Qed.

Lemma bset_pop_first_some s k s' :
  bset_pop_first s = Some (k, s') → k ∈ s ∧ s' = s ∖ {[k]} ∧ ∀ j, j ∈ s → key_le k j.
Proof.
  unfold bset_pop_first. destruct (bset_iter s) as [|k' l] eqn:Hs; [done|].
  intros [= -> <-]. assert (StronglySorted key_le (k :: l)) as Hsort.
  { rewrite <-Hs. apply StronglySorted_merge_sort; apply _. }
  assert (∀ j, j ∈ s ↔ j ∈ k :: l) as Hel by (intros j; by rewrite <-Hs, elem_of_bset_iter).
  split_and!; [apply Hel; by left|done|].
  intros j [->|Hj]%Hel%elem_of_cons; [done|].
  inversion Hsort as [|?? _ Hall]; subst. by eapply Forall_forall in Hall.
Qed.

End btree.
