(* ===== verification/Text.v ===== *)
(** The string operations the program takes from Rust's standard library, on
    UTF-8 text held as its bytes: [str::trim], [to_ascii_lowercase], [split],
    [strip_prefix], [starts_with], [ends_with], [contains], [find], [rsplit_once],
    [lines], [chars().take(n)], [str::from_utf8], and the
    lemmas the components share about them. A Rust [char] test on whitespace
    is a test on the UTF-8 encoding of the Unicode [White_Space] characters;
    UTF-8 is self-synchronising, so scanning bytes finds the same characters. *)
From Stdlib Require Import Ascii String.
From S2P Require Import Prelude.

Open Scope stdpp_scope.

(** * Bytes of a string *)

Definition code (a : ascii) : N := N_of_ascii a.

(** [str::len]: the length in bytes. *)
Definition str_len (s : string) : N := N.of_nat (String.length s).

Fixpoint str_chars (s : string) : list ascii :=
  match s with EmptyString => [] | String a s' => a :: str_chars s' end.
Fixpoint chars_str (l : list ascii) : string :=
  match l with [] => EmptyString | a :: l' => String a (chars_str l') end.

(** [bytes().all(p)] and [bytes().any(p)]. *)
Fixpoint str_all (p : ascii → bool) (s : string) : bool :=
  match s with EmptyString => true | String a s' => p a && str_all p s' end.
Fixpoint str_any (p : ascii → bool) (s : string) : bool :=
  match s with EmptyString => false | String a s' => p a || str_any p s' end.

Definition in_range (lo hi : N) (a : ascii) : bool :=
  (lo <=? code a)%N && (code a <=? hi)%N.
Definition is_ascii_digit (a : ascii) : bool := in_range 48 57 a.
Definition is_ascii_uppercase (a : ascii) : bool := in_range 65 90 a.
Definition is_ascii_lowercase (a : ascii) : bool := in_range 97 122 a.
Definition is_ascii_alphanumeric (a : ascii) : bool :=
  is_ascii_digit a || is_ascii_uppercase a || is_ascii_lowercase a.

Definition ascii_lower (a : ascii) : ascii :=
  if is_ascii_uppercase a then ascii_of_N (code a + 32) else a.
Fixpoint to_ascii_lowercase (s : string) : string :=
  match s with
  | EmptyString => EmptyString
  | String a s' => String (ascii_lower a) (to_ascii_lowercase s')
  end.

(** * Whitespace *)

(** The encodings of the [White_Space] characters: one byte (TAB to CR and
    SPACE), two bytes (U+0085, U+00A0), three bytes (U+1680, U+2000 to U+200A,
    U+2028, U+2029, U+202F, U+205F, U+3000). *)
Definition ws1 (a : ascii) : bool := in_range 9 13 a || (code a =? 32)%N.
Definition ws2 (a b : ascii) : bool :=
  (code a =? 194)%N && ((code b =? 133)%N || (code b =? 160)%N).
Definition ws3 (a b c : ascii) : bool :=
  ((code a =? 225)%N && (code b =? 154)%N && (code c =? 128)%N)
  || ((code a =? 226)%N && (code b =? 128)%N
      && (in_range 128 138 c || (code c =? 168)%N || (code c =? 169)%N || (code c =? 175)%N))
  || ((code a =? 226)%N && (code b =? 129)%N && (code c =? 159)%N)
  || ((code a =? 227)%N && (code b =? 128)%N && (code c =? 128)%N).

Fixpoint trim_front (l : list ascii) : list ascii :=
  match l with
  | [] => []
  | a :: l1 =>
      if ws1 a then trim_front l1 else
      match l1 with
      | [] => l
      | b :: l2 =>
          if ws2 a b then trim_front l2 else
          match l2 with
          | [] => l
          | c :: l3 => if ws3 a b c then trim_front l3 else l
          end
      end
  end.

(** The same from the end, on the reversed bytes. *)
Fixpoint trim_back_rev (l : list ascii) : list ascii :=
  match l with
  | [] => []
  | a :: l1 =>
      if ws1 a then trim_back_rev l1 else
      match l1 with
      | [] => l
      | b :: l2 =>
          if ws2 b a then trim_back_rev l2 else
          match l2 with
          | [] => l
          | c :: l3 => if ws3 c b a then trim_back_rev l3 else l
          end
      end
  end.

Definition trim (s : string) : string :=
  chars_str (reverse (trim_back_rev (reverse (trim_front (str_chars s))))).

(** [value.trim().is_empty()]. *)
Definition is_blank (s : string) : bool :=
  match trim s with EmptyString => true | String _ _ => false end.

(** [char::is_whitespace] at the front of the remaining text. *)
Definition starts_whitespace (s : string) : bool :=
  match s with
  | EmptyString => false
  | String a s1 =>
      ws1 a || match s1 with
      | EmptyString => false
      | String b s2 =>
          ws2 a b || match s2 with EmptyString => false | String c _ => ws3 a b c end
      end
  end.

(** * Searching and splitting *)

Fixpoint strip_prefix (p s : string) : option string :=
  match p, s with
  | EmptyString, _ => Some s
  | String a p', String b s' => if ascii_dec a b then strip_prefix p' s' else None
  | String _ _, EmptyString => None
  end.

Definition starts_with (p s : string) : bool :=
  match strip_prefix p s with Some _ => true | None => false end.

Fixpoint contains_str (p s : string) : bool :=
  starts_with p s || match s with EmptyString => false | String _ s' => contains_str p s' end.

Fixpoint ends_with (p s : string) : bool :=
  bool_decide (p = s) || match s with EmptyString => false | String _ s' => ends_with p s' end.

Definition contains_char (c : ascii) (s : string) : bool :=
  str_any (λ a, if ascii_dec a c then true else false) s.

(** [value.find(p)]: the text that follows the first occurrence of [p]. *)
Fixpoint after_first (p s : string) : option string :=
  match strip_prefix p s with
  | Some rest => Some rest
  | None => match s with EmptyString => None | String _ s' => after_first p s' end
  end.

(** [value.split(sep)] on the bytes a predicate selects: never empty. *)
Fixpoint split_on (sep : ascii → bool) (s : string) : list string :=
  match s with
  | EmptyString => [EmptyString]
  | String a s' =>
      if sep a then EmptyString :: split_on sep s'
      else match split_on sep s' with
           | [] => [String a EmptyString]
           | w :: ws => String a w :: ws
           end
  end.

Definition is_char (c : ascii) (a : ascii) : bool := if ascii_dec a c then true else false.
Definition slash : ascii := "047".
Definition backslash : ascii := "092".
Definition colon : ascii := "058".
Definition dot : ascii := "046".
Definition nul : ascii := "000".

(** [split(sep).next()]: the text before the first separator. *)
Fixpoint before_first (sep : ascii → bool) (s : string) : string :=
  match s with
  | EmptyString => EmptyString
  | String a s' => if sep a then EmptyString else String a (before_first sep s')
  end.

(** [str::replace] of backslashes by slashes. *)
Fixpoint forward_slashes (s : string) : string :=
  match s with
  | EmptyString => EmptyString
  | String a s' => String (if is_char backslash a then slash else a) (forward_slashes s')
  end.

(** [value.replace(c, with)]. *)
Fixpoint replace_char (c : ascii) (by_text : string) (s : string) : string :=
  match s with
  | EmptyString => EmptyString
  | String a s' =>
      if ascii_dec a c then by_text +:+ replace_char c by_text s' else String a (replace_char c by_text s')
  end.

(** * UTF-8 *)

Definition continuation (a : ascii) : bool := in_range 128 191 a.

(** [std::str::from_utf8]: the well-formed sequences of one to four bytes. *)
Fixpoint valid_utf8 (l : list ascii) : bool :=
  match l with
  | [] => true
  | a :: l1 =>
      if (code a <? 128)%N then valid_utf8 l1 else
      match l1 with
      | [] => false
      | b :: l2 =>
          if in_range 194 223 a then continuation b && valid_utf8 l2 else
          match l2 with
          | [] => false
          | c :: l3 =>
              if (code a =? 224)%N then in_range 160 191 b && continuation c && valid_utf8 l3
              else if (code a =? 237)%N then in_range 128 159 b && continuation c && valid_utf8 l3
              else if in_range 225 239 a
              then continuation b && continuation c && valid_utf8 l3
              else match l3 with
                   | [] => false
                   | d :: l4 =>
                       (if (code a =? 240)%N then in_range 144 191 b
                        else if (code a =? 244)%N then in_range 128 143 b
                        else in_range 241 243 a && continuation b)
                       && continuation c && continuation d && valid_utf8 l4
                   end
          end
      end
  end.
Definition from_utf8 (bytes : string) : option string :=
  if valid_utf8 (str_chars bytes) then Some bytes else None.

(** [value.chars().take(n).collect()] on well-formed text: a character starts at
    every byte that does not continue one. *)
Fixpoint take_chars (n : nat) (s : string) : string :=
  match s with
  | EmptyString => EmptyString
  | String a s' =>
      if continuation a then String a (take_chars n s')
      else match n with O => EmptyString | S n' => String a (take_chars n' s') end
  end.

(** [value.rsplit_once(sep)]: what is before and after the last separator. *)
Fixpoint rsplit_once (sep : ascii → bool) (s : string) : option (string * string) :=
  match s with
  | EmptyString => None
  | String a s' =>
      match rsplit_once sep s' with
      | Some (before, after) => Some (String a before, after)
      | None => if sep a then Some (EmptyString, s') else None
      end
  end.

(** * Lines *)

Definition newline : ascii := "010".
Definition carriage_return : ascii := "013".

(** [str::lines]: a line ends at a newline, with a carriage return before it. *)
Fixpoint lines_of (line : list ascii) (l : list ascii) : list string :=
  match l with
  | [] => match line with [] => [] | _ => [chars_str (reverse line)] end
  | a :: l' =>
      if is_char newline a then
        chars_str (reverse (match line with
                            | b :: line' => if is_char carriage_return b then line' else line
                            | [] => [] end)) :: lines_of [] l'
      else lines_of (a :: line) l'
  end.
Definition lines (s : string) : list string := lines_of [] (str_chars s).

(** [str::trim_matches] of a set of characters. *)
Fixpoint drop_chars (p : ascii → bool) (l : list ascii) : list ascii :=
  match l with [] => [] | a :: l' => if p a then drop_chars p l' else l end.
Definition trim_matches (p : ascii → bool) (s : string) : string :=
  chars_str (reverse (drop_chars p (reverse (drop_chars p (str_chars s))))).

(** * Lemmas *)

Lemma is_char_true c a : is_char c a = true ↔ a = c.
Proof. unfold is_char. destruct (ascii_dec a c); naive_solver. Qed.

Lemma str_any_exists p s : str_any p s = true ↔ ∃ a, a ∈ str_chars s ∧ p a = true.
Proof.
  induction s as [|a s IH]; simpl.
  - split; [done|]. intros (?&?%elem_of_nil&?); done.
  - rewrite orb_true_iff, IH. setoid_rewrite elem_of_cons. naive_solver.
Qed.

Lemma str_app_nil s : "" +:+ s = s.
Proof. done. Qed.
Lemma str_app_cons a s t : String a s +:+ t = String a (s +:+ t).
Proof. done. Qed.
Create Rewrite HintDb cycle_str.
#[export] Hint Rewrite str_app_nil str_app_cons : cycle_str.

Ltac str_simpl := autorewrite with cycle_str in *; simplify_eq/=.

Lemma strip_prefix_some p s r : strip_prefix p s = Some r ↔ s = p +:+ r.
Proof.
  revert s. induction p as [|a p IH]; intros [|b s]; str_simpl;
    rewrite ?str_app_cons; try (split; congruence).
  destruct (ascii_dec a b) as [->|]; [rewrite IH|]; split; congruence.
Qed.

Lemma starts_with_iff p s : starts_with p s = true ↔ ∃ r, s = p +:+ r.
Proof.
  unfold starts_with. setoid_rewrite <-strip_prefix_some.
  destruct (strip_prefix p s); naive_solver.
Qed.

Lemma contains_str_iff p s : contains_str p s = true ↔ ∃ l r, s = l +:+ p +:+ r.
Proof.
  induction s as [|a s IH]; simpl; rewrite orb_true_iff, starts_with_iff.
  - split.
    + intros [[r Hr]|?]; [|done]. by exists "", r.
    + intros ([]&r&Hr); str_simpl; eauto.
  - rewrite IH. split.
    + intros [[r Hr]|(l&r&->)]; [by exists "", r|]. by exists (String a l), r.
    + intros ([|b l]&r&Hr); str_simpl; [left|right]; eauto.
Qed.

Lemma contains_str_empty_r p : contains_str p "" = true → p = "".
Proof. intros ([]&r&Hr)%contains_str_iff; [|done]. by destruct p. Qed.

Lemma code_lower_upper a : is_ascii_uppercase (ascii_lower a) = false.
Proof. by destruct a as [[][][][][][][][]]. Qed.

Lemma ascii_lower_idemp a : ascii_lower (ascii_lower a) = ascii_lower a.
Proof. by destruct a as [[][][][][][][][]]. Qed.

Lemma to_ascii_lowercase_idemp s :
  to_ascii_lowercase (to_ascii_lowercase s) = to_ascii_lowercase s.
Proof. induction s as [|a s IH]; simpl; [done|]. by rewrite ascii_lower_idemp, IH. Qed.

Lemma length_to_ascii_lowercase s :
  String.length (to_ascii_lowercase s) = String.length s.
Proof. induction s as [|a s IH]; simpl; [done|]. by rewrite IH. Qed.

Lemma split_on_not_nil sep s : split_on sep s ≠ [].
Proof. destruct s; simpl; [done|]. case_match; [done|]. by case_match. Qed.

(** The pieces of a split contain no separator. *)
Lemma split_on_no_sep sep s w : w ∈ split_on sep s → str_any sep w = false.
Proof.
  revert w. induction s as [|a s IH]; simpl; intros w.
  - by intros ->%list_elem_of_singleton.
  - destruct (sep a) eqn:Ha.
    + intros [->|Hw]%elem_of_cons; auto.
    + destruct (split_on sep s) as [|w' ws] eqn:Hs; [by destruct (split_on_not_nil sep s)|].
      intros [->|Hw]%elem_of_cons; simpl.
      * rewrite Ha. apply IH, elem_of_cons. by left.
      * apply IH, elem_of_cons. by right.
Qed.

Lemma split_on_single sep s : str_any sep s = false → split_on sep s = [s].
Proof.
  induction s as [|a s IH]; simpl; [done|]. intros [Ha Hs]%orb_false_iff. by rewrite Ha, IH.
Qed.

Lemma split_on_app_sep (c : ascii) s1 s2 :
  split_on (is_char c) (s1 +:+ String c s2) = split_on (is_char c) s1 ++ split_on (is_char c) s2.
Proof.
  induction s1 as [|a s1 IH]; str_simpl.
  - assert (is_char c c = true) as -> by by apply is_char_true. done.
  - destruct (is_char c a); [by rewrite IH|]. rewrite IH.
    destruct (split_on (is_char c) s1) eqn:Hs; [|done].
    by destruct (split_on_not_nil (is_char c) s1).
Qed.

Lemma str_app_inv_head s t1 t2 : s +:+ t1 = s +:+ t2 → t1 = t2.
Proof. induction s; intros; str_simpl; auto. Qed.

Lemma str_app_assoc s1 s2 s3 : s1 +:+ (s2 +:+ s3) = (s1 +:+ s2) +:+ s3.
Proof. induction s1; str_simpl; congruence. Qed.

Lemma str_app_nil_r s : s +:+ "" = s.
Proof. induction s as [|a s IH]; [done|]. by rewrite str_app_cons, IH. Qed.

Lemma length_str_app s t :
  String.length (s +:+ t) = (String.length s + String.length t)%nat.
Proof. induction s as [|a s IH]; [done|]. rewrite str_app_cons. simpl. by rewrite IH. Qed.

(** Appended texts of equal length split in one way. *)
Lemma str_app_inv s1 s2 t1 t2 :
  String.length s1 = String.length s2 → s1 +:+ t1 = s2 +:+ t2 → s1 = s2 ∧ t1 = t2.
Proof.
  revert s2. induction s1 as [|a s1 IH]; intros [|b s2] Hl H; simpl in Hl; try lia; [done|].
  rewrite !str_app_cons in H. injection H as -> H.
  destruct (IH s2) as [-> ->]; [lia|done|done].
Qed.

Lemma str_app_inv_tail s1 s2 t : s1 +:+ t = s2 +:+ t → s1 = s2.
Proof.
  intros H. apply (str_app_inv s1 s2 t t); [|done].
  apply (f_equal String.length) in H. rewrite !length_str_app in H. lia.
Qed.

#[export] Hint Rewrite strip_prefix_some starts_with_iff contains_str_iff is_char_true : cycle_rw.

(** * Trimmed text *)

(** The encoding of a whitespace character. *)
Definition ws_seq (l : list ascii) : bool :=
  match l with
  | [a] => ws1 a
  | [a; b] => ws2 a b
  | [a; b; c] => ws3 a b c
  | _ => false
  end.

(** The front of [l] is no whitespace: [trim_front] leaves it. *)
Definition front_kept (l : list ascii) : Prop := trim_front l = l.

Lemma trim_front_length l : length (trim_front l) ≤ length l.
Proof.
  induction l as [l IH] using (induction_ltof1 _ (@length _)); unfold ltof in IH.
  destruct l as [|a [|b [|c l]]]; simpl; repeat case_match; simpl; try lia;
    match goal with |- length (trim_front ?k) ≤ _ => pose proof (IH k ltac:(simpl; lia)); simpl in *; lia end.
Qed.

Lemma front_kept_cons a l : front_kept (a :: l) ↔
  ws1 a = false ∧ (∀ b k, l = b :: k → ws2 a b = false) ∧ (∀ b c k, l = b :: c :: k → ws3 a b c = false).
Proof.
  unfold front_kept. simpl.
  assert (∀ k m, length k ≤ length m → trim_front k = a :: m → False) as Hno.
  { intros k m Hle Heq%(f_equal length). pose proof (trim_front_length k). simpl in Heq. lia. }
  destruct (ws1 a); [split; [intros Heq; destruct (Hno l l); done|naive_solver]|].
  destruct l as [|b l]; [split; naive_solver|].
  destruct (ws2 a b) eqn:H2.
  { split; [intros Heq; destruct (Hno l (b :: l)); simpl; [lia|done]|].
    intros (_&H2'&_). rewrite (H2' _ _ eq_refl) in H2. done. }
  destruct l as [|c l]; [split; [intros _; naive_solver|done]|].
  destruct (ws3 a b c) eqn:H3; [|split; [intros _; naive_solver|done]].
  split; [intros Heq; destruct (Hno l (b :: c :: l)); simpl; [lia|done]|].
  intros (_&_&H3'). rewrite (H3' _ _ _ eq_refl) in H3. done.
Qed.

Lemma trim_front_kept l : front_kept (trim_front l).
Proof.
  induction l as [l IH] using (induction_ltof1 _ (@length _)); unfold ltof in IH.
  destruct l as [|a l]; [done|].
  destruct (decide (front_kept (a :: l))) as [Hk|Hk]; [by rewrite Hk|].
  assert (∃ k, length k < length (a :: l) ∧ trim_front (a :: l) = trim_front k) as (k&Hlt&->); [|by apply IH].
  unfold front_kept in Hk. simpl in *. destruct (ws1 a); [exists l; simpl; split; [lia|done]|].
  destruct l as [|b l]; [done|]. destruct (ws2 a b); [exists l; simpl; split; [lia|done]|].
  destruct l as [|c l]; [done|]. destruct (ws3 a b c); [exists l; simpl; split; [lia|done]|done].
Qed.

Lemma front_kept_prefix l k : front_kept (l ++ k) → front_kept l.
Proof.
  destruct l as [|a l]; [done|]. simpl. rewrite !front_kept_cons. intros (H1&H2&H3). split_and!; [done| |].
  - intros b m ->. by apply (H2 b (m ++ k)).
  - intros b c m ->. by apply (H3 b c (m ++ k)).
Qed.

(** What [trim_back_rev] removes altogether is made of whitespace. *)
Lemma trim_back_all l : trim_back_rev l = [] → l ≠ [] →
  ∃ w k, ws_seq w = true ∧ reverse l = w ++ k.
Proof.
  induction l as [l IH] using (induction_ltof1 _ (@length _)); unfold ltof in IH. intros Hnil Hne.
  assert (∀ r w, length r < length l → reverse l = reverse r ++ w → ws_seq w = true → trim_back_rev r = [] →
            ∃ w k, ws_seq w = true ∧ reverse l = w ++ k) as Hstep.
  { intros r w Hlt Heq Hw Hr. destruct (decide (r = [])) as [->|Hr'].
    - exists w, []. rewrite Heq, app_nil_r. done.
    - destruct (IH r Hlt Hr Hr') as (w'&k&Hw'&Hk). exists w', (k ++ w). rewrite Heq, Hk, app_assoc. done. }
  destruct l as [|a l]; [done|]. simpl in Hnil.
  destruct (ws1 a) eqn:H1; [apply (Hstep l [a]); simpl; [lia|by rewrite reverse_cons|done|done]|].
  destruct l as [|b l]; [done|].
  destruct (ws2 b a) eqn:H2.
  { apply (Hstep l [b; a]); simpl; [lia|by rewrite !reverse_cons, <-app_assoc|done|done]. }
  destruct l as [|c l]; [done|]. destruct (ws3 c b a) eqn:H3; [|done].
  apply (Hstep l [c; b; a]); simpl; [lia|by rewrite !reverse_cons, <-!app_assoc|done|done].
Qed.

Lemma chars_str_app l k : chars_str (l ++ k) = chars_str l +:+ chars_str k.
Proof. induction l as [|a l IH]; simpl; [done|]. by rewrite IH. Qed.
Lemma str_chars_app s t : str_chars (s +:+ t) = str_chars s ++ str_chars t.
Proof. induction s as [|a s IH]; [done|]. rewrite str_app_cons. simpl. by rewrite IH. Qed.
Lemma str_chars_chars l : str_chars (chars_str l) = l.
Proof. induction l as [|a l IH]; [done|]. simpl. by rewrite IH. Qed.
Lemma chars_str_nil l : chars_str l = "" → l = [].
Proof. by destruct l. Qed.

(** A text is blank when nothing of it is left after its leading whitespace. *)
Lemma blank_iff s : is_blank s = true ↔ trim_front (str_chars s) = [].
Proof.
  unfold is_blank, trim. set (f := trim_front (str_chars s)). split.
  - intros Ht. destruct (chars_str _) eqn:Hs in Ht; [|done].
    apply chars_str_nil, (f_equal reverse) in Hs. rewrite reverse_involutive, reverse_nil in Hs.
    destruct (decide (f = [])) as [|Hne]; [done|].
    apply trim_back_all in Hs as (w&k&Hw&Heq).
    2:{ intros Hr%(f_equal reverse). rewrite reverse_involutive in Hr. done. }
    rewrite reverse_involutive in Heq. pose proof (trim_front_kept (str_chars s)) as Hk. fold f in Hk.
    rewrite Heq in Hk.
    destruct w as [|a [|b [|c [|? ?]]]]; try done; simpl in Hw, Hk; apply front_kept_cons in Hk as (H1&H2&H3).
    + congruence.
    + rewrite (H2 b k eq_refl) in Hw. done.
    + rewrite (H3 b c k eq_refl) in Hw. done.
  - by intros ->.
Qed.
Lemma front_kept_not_blank s : s ≠ "" → front_kept (str_chars s) → is_blank s = false.
Proof.
  intros Hne Hk. apply not_true_iff_false. rewrite blank_iff, Hk. by destruct s.
Qed.

Lemma trim_front_kept_str s : front_kept (str_chars (trim s)).
Proof.
  unfold trim. rewrite str_chars_chars. set (f := trim_front (str_chars s)).
  assert (∃ k, f = reverse (trim_back_rev (reverse f)) ++ k) as [k Hk].
  { assert (∀ l, ∃ k, reverse l = reverse (trim_back_rev l) ++ k) as Hpre.
    { intros l. induction l as [l IH] using (induction_ltof1 _ (@length _)); unfold ltof in IH.
      assert (∀ r w, length r < length l → l = w ++ r → trim_back_rev l = trim_back_rev r →
                ∃ k, reverse l = reverse (trim_back_rev l) ++ k) as Hstep.
      { intros r w Hlt Heq Hr. destruct (IH r Hlt) as [k Hk]. rewrite Hr. rewrite Heq, reverse_app, Hk.
        exists (k ++ reverse w). by rewrite app_assoc. }
      destruct l as [|a l]; [by exists []|].
      destruct (ws1 a) eqn:H1; [apply (Hstep l [a]); simpl; [lia|done|by rewrite H1]|].
      destruct l as [|b l]; [exists []; simpl; by rewrite H1, app_nil_r|].
      destruct (ws2 b a) eqn:H2; [apply (Hstep l [a; b]); simpl; [lia|done|by rewrite H1, H2]|].
      destruct l as [|c l]; [exists []; simpl; by rewrite H1, H2, app_nil_r|].
      destruct (ws3 c b a) eqn:H3; [apply (Hstep l [a; b; c]); simpl; [lia|done|by rewrite H1, H2, H3]|].
      exists []. simpl. by rewrite H1, H2, H3, app_nil_r. }
    destruct (Hpre (reverse f)) as [k Hk]. exists k. by rewrite <-Hk, reverse_involutive. }
  apply (front_kept_prefix _ k). rewrite <-Hk. apply trim_front_kept.
Qed.

Lemma take_chars_prefix n s : ∃ t, s = take_chars n s +:+ t.
Proof.
  revert n. induction s as [|a s IH]; intros n; [by exists ""|]. simpl. destruct (continuation a).
  - destruct (IH n) as [t Ht]. exists t. rewrite str_app_cons. by rewrite <-Ht.
  - destruct n as [|n]; [by exists (String a s)|]. destruct (IH n) as [t Ht]. exists t.
    rewrite str_app_cons. by rewrite <-Ht.
Qed.

(** The first characters of a trimmed text are no blank text. *)
Lemma take_chars_trim_not_blank n s : take_chars n (trim s) ≠ "" → is_blank (take_chars n (trim s)) = false.
Proof.
  intros Hne. apply front_kept_not_blank; [done|]. destruct (take_chars_prefix n (trim s)) as [t Ht].
  apply (front_kept_prefix _ (str_chars t)). rewrite <-str_chars_app, <-Ht. apply trim_front_kept_str.
Qed.

(** The bytes of whitespace are not visible ASCII characters. *)
Lemma ws_code a b c :
  (ws1 a = true → (code a ≤ 32)%N) ∧ (ws2 a b = true → (128 ≤ code a ∧ 128 ≤ code b)%N) ∧
  (ws3 a b c = true → (128 ≤ code a ∧ 128 ≤ code b ∧ 128 ≤ code c)%N).
Proof.
  unfold ws1, ws2, ws3, in_range.
  repeat rewrite ?orb_true_iff, ?andb_true_iff, ?N.eqb_eq, ?N.leb_le.
  split; [|split]; intros; intuition lia.
Qed.

(** A text with a visible ASCII character is not blank. *)
Lemma graphic_not_blank s : str_any (in_range 33 126) s = true → is_blank s = false.
Proof.
  intros (a&Hin&Ha)%str_any_exists. apply not_true_iff_false. rewrite blank_iff. generalize dependent (str_chars s).
  assert (33 ≤ code a ≤ 126)%N as Hcode by (unfold in_range in Ha; to_prop; lia).
  intros l. induction l as [l IH] using (induction_ltof1 _ (@length _)); unfold ltof in IH. intros Hin Hnil.
  assert (∀ w k, l = w ++ k → w ≠ [] → (∀ x, x ∈ w → (code x ≤ 32 ∨ 128 ≤ code x)%N) → trim_front k ≠ [])
    as Hrec.
  { intros w k -> Hw Hws Hk. apply (IH k); [destruct w; [done|]; simpl; rewrite length_app; lia| |done].
    apply elem_of_app in Hin as [Hin%Hws|]; [lia|done]. }
  destruct l as [|x l]; [by apply elem_of_nil in Hin|]. simpl in Hnil.
  destruct (ws1 x) eqn:H1.
  { apply (Hrec [x] l); try done. intros ? ->%list_elem_of_singleton. left. by apply (ws_code x x x). }
  destruct l as [|y l]; [done|]. destruct (ws2 x y) eqn:H2.
  { apply (Hrec [x; y] l); try done. apply (ws_code x y x) in H2.
    intros z Hz. rewrite !elem_of_cons, elem_of_nil in Hz. naive_solver. }
  destruct l as [|z l]; [done|]. destruct (ws3 x y z) eqn:H3; [|done].
  apply (Hrec [x; y; z] l); try done. apply (ws_code x y z) in H3.
  intros u Hu. rewrite !elem_of_cons, elem_of_nil in Hu. naive_solver.
Qed.
