(* ===== verification/Ids.v ===== *)
(** Identifiers, digests and timestamps of workflow-core (id.rs, digest.rs,
    time.rs, role.rs): the values the other components carry. A [Uuid] is its
    16 bytes and a [ContentDigest] its 32 bytes, each held as the big-endian
    number of the bytes, whose order is the derived [Ord] of the Rust type. A
    [WorkflowTimestamp] is its instant in nanoseconds since the Unix epoch.
    SHA-256 and the RFC 3339 text of an instant belong to other crates: they
    are the operations of the classes [Sha256] and [Rfc3339], about which
    nothing is assumed here. *)
From Stdlib Require Import Ascii String.
From S2P Require Import Prelude Text.

(** * Identifiers *)

Abbreviation uuid := (word 128).

Abbreviation ProjectId := uuid.
Abbreviation WorkflowId := uuid.
Abbreviation TaskId := uuid.
Abbreviation SessionId := uuid.
Abbreviation CandidateId := uuid.
Abbreviation EventId := uuid.
Abbreviation EvidenceId := uuid.
Abbreviation VerificationPlanId := uuid.
Abbreviation ReceiptId := uuid.
Abbreviation LeaseId := uuid.
Abbreviation MemoryId := uuid.
Abbreviation GoalId := uuid.

(** * Big-endian bytes *)

(** The [n] low bytes of a number, most significant first ([to_be_bytes]). *)
Fixpoint be_bytes (n : nat) (v : N) : string :=
  match n with
  | O => EmptyString
  | S n' => String (ascii_of_N (v / 256 ^ N.of_nat n' mod 256)) (be_bytes n' v)
  end.

(** [from_be_bytes], with the value of the bytes already read. *)
Fixpoint be_value_from (acc : N) (s : string) : N :=
  match s with
  | EmptyString => acc
  | String a s' => be_value_from (acc * 256 + code a) s'
  end.
Definition be_value (s : string) : N := be_value_from 0 s.

(** * Digests *)

Definition ContentDigest : Type := word 256.

Definition as_bytes (d : ContentDigest) : string := be_bytes 32 (word_val d).
Definition from_bytes (s : string) : ContentDigest := word_of 256 (be_value s).

(** The hash function of the [sha2] crate. *)
Class Sha256 := sha256 : string → ContentDigest.

(** [Uuid::as_bytes]. *)
Definition uuid_bytes (id : uuid) : string := be_bytes 16 (word_val id).

(** [ContentDigest::of]. *)
Definition digest_of `{Sha256} (content : string) : ContentDigest := sha256 content.

(** One digit of [{:02x}]. *)
Definition hex_digit (n : N) : ascii :=
  ascii_of_N (if (n <? 10)%N then 48 + n else 87 + n).
Definition hex_byte (a : ascii) (s : string) : string :=
  String (hex_digit (code a / 16)) (String (hex_digit (code a mod 16)) s).

(** [Display for ContentDigest]: two digits for each byte. *)
Fixpoint hex_of_bytes (s : string) : string :=
  match s with
  | EmptyString => EmptyString
  | String a s' => hex_byte a (hex_of_bytes s')
  end.
Definition digest_to_string (d : ContentDigest) : string := hex_of_bytes (as_bytes d).

Inductive DigestParseError : Type := DigestParseFailed.

(** [char::to_digit(16)]. *)
Definition hex_value (a : ascii) : option N :=
  if is_ascii_digit a then Some (code a - 48)%N
  else if in_range 97 102 a then Some (code a - 87)%N
  else if in_range 65 70 a then Some (code a - 55)%N
  else None.

(** [u8::from_str_radix(two, 16)] on two bytes; a leading plus is a sign. *)
Definition u8_from_hex (a b : ascii) : option N :=
  if is_char "+" a then hex_value b
  else x ← hex_value a; y ← hex_value b; Some (x * 16 + y)%N.

(** The loop of [from_str] over [bytes.iter_mut()]. *)
Fixpoint bytes_of_hex (s : string) : option string :=
  match s with
  | String a (String b s') =>
      x ← u8_from_hex a b; rest ← bytes_of_hex s'; Some (String (ascii_of_N x) rest)
  | _ => Some EmptyString
  end.

Definition is_lower_hex (a : ascii) : bool := is_ascii_digit a || in_range 97 102 a.

(** [FromStr for ContentDigest]. *)
Definition digest_from_str (value : string) : result DigestParseError ContentDigest :=
  if negb (str_len value =? 64)%N || str_any (λ a, negb (is_lower_hex a)) value
  then Err DigestParseFailed
  else bytes ← ok_or DigestParseFailed (bytes_of_hex value); Ok (from_bytes bytes).

(** * Stable project identifiers *)

Definition LEGACY_PROTOCOL_V1_PROJECT_DOMAIN : string := "opencode-workflow/project/v1".

(** [bytes[i] = f(bytes[i])]. *)
Fixpoint update_byte (i : nat) (f : N → N) (s : string) : string :=
  match i, s with
  | _, EmptyString => EmptyString
  | O, String a s' => String (ascii_of_N (f (code a))) s'
  | S i', String a s' => String a (update_byte i' f s')
  end.

(** [ProjectId::from_stable_key]. *)
Definition from_stable_key `{Sha256} (value : string) : ProjectId :=
  let digest := digest_of (LEGACY_PROTOCOL_V1_PROJECT_DOMAIN +:+ value) in
  let bytes := String.substring 0 16 (as_bytes digest) in
  let bytes := update_byte 6 (λ b, N.lor (N.land b 15) 128) bytes in
  let bytes := update_byte 8 (λ b, N.lor (N.land b 63) 128) bytes in
  word_of 128 (be_value bytes).

(** * Timestamps *)

Definition WorkflowTimestamp : Type := Z.

#[export] Instance WorkflowTimestamp_eq_dec : EqDecision WorkflowTimestamp := Z.eq_dec.

(** The RFC 3339 text of an instant, in the [time] crate: formatting fails on
    the years it cannot write. *)
Class Rfc3339 := {
  rfc3339_format : Z → option string;
  rfc3339_parse : string → option Z;
}.

(** [Display for WorkflowTimestamp], with [to_string]: a formatting error is a
    panic. *)
Definition timestamp_to_string `{Rfc3339} (t : WorkflowTimestamp) : option string :=
  rfc3339_format t.
Definition timestamp_parse `{Rfc3339} (value : string) : option WorkflowTimestamp :=
  rfc3339_parse value.

(** * Roles *)

Inductive WorkflowRole : Type :=
| Architect | Executor | FunctionalReviewer | SecurityArchitectureReviewer | Arbiter.

#[export] Instance WorkflowRole_eq_dec : EqDecision WorkflowRole.
Proof. solve_decision. Defined.

Definition role_index (r : WorkflowRole) : nat :=
  match r with
  | Architect => 0 | Executor => 1 | FunctionalReviewer => 2
  | SecurityArchitectureReviewer => 3 | Arbiter => 4
  end.
Definition role_of_index (n : nat) : WorkflowRole :=
  match n with
  | 0 => Architect | 1 => Executor | 2 => FunctionalReviewer
  | 3 => SecurityArchitectureReviewer | _ => Arbiter
  end.
#[export] Instance WorkflowRole_countable : Countable WorkflowRole.
Proof. refine (inj_countable' role_index role_of_index _). by intros []. Defined.

(** The derived [Ord] of [WorkflowRole]: the order of the declarations. *)
#[export] Instance role_index_inj : Inj (=) (=) role_index.
Proof. by intros [] []. Qed.
#[export] Instance role_ordered : Ordered WorkflowRole := ordered_by_index role_index.

(** * Lemmas *)

Lemma code_of_N n : (n < 256)%N → code (ascii_of_N n) = n.
Proof. apply N_ascii_embedding. Qed.
Lemma code_bound a : (code a < 256)%N.
Proof. apply N_ascii_bounded. Qed.
Lemma of_N_code a : ascii_of_N (code a) = a.
Proof. apply ascii_N_embedding. Qed.

Lemma length_be_bytes n v : String.length (be_bytes n v) = n.
Proof. induction n; simpl; congruence. Qed.

Lemma be_value_from_spec acc s :
  be_value_from acc s = (acc * 256 ^ N.of_nat (String.length s) + be_value s)%N.
Proof.
  unfold be_value. revert acc. induction s as [|a s IH]; intros acc; cbn [be_value_from String.length].
  - simpl. lia.
  - rewrite (IH (acc * 256 + code a)%N), (IH (0 * 256 + code a)%N).
    rewrite Nat2N.inj_succ, N.pow_succ_r'. ring.
Qed.

Lemma be_value_cons a s :
  be_value (String a s) = (code a * 256 ^ N.of_nat (String.length s) + be_value s)%N.
Proof. unfold be_value at 1. cbn [be_value_from]. by rewrite be_value_from_spec. Qed.

Lemma be_value_bound s : (be_value s < 256 ^ N.of_nat (String.length s))%N.
Proof.
  induction s as [|a s IH]; [done|]. rewrite be_value_cons. cbn [String.length].
  rewrite Nat2N.inj_succ, N.pow_succ_r'. pose proof (code_bound a). nia.
Qed.

Lemma be_value_bytes n v : be_value (be_bytes n v) = (v mod 256 ^ N.of_nat n)%N.
Proof.
  induction n as [|n IH]; [by rewrite N.mod_1_r|].
  cbn [be_bytes]. rewrite be_value_cons, length_be_bytes, IH.
  rewrite code_of_N by (by apply N.mod_lt).
  assert (256 ^ N.of_nat n ≠ 0)%N as Hp by (by apply N.pow_nonzero).
  rewrite Nat2N.inj_succ, N.pow_succ_r', (N.mul_comm 256), N.Div0.mod_mul_r. lia.
Qed.

Lemma be_bytes_value s : be_bytes (String.length s) (be_value s) = s.
Proof.
  enough (∀ v, v mod 256 ^ N.of_nat (String.length s) = be_value s →
    be_bytes (String.length s) v = s)%N as H.
  { apply H, N.mod_small, be_value_bound. }
  induction s as [|a s IH]; intros v Hv; [done|].
  cbn [String.length be_bytes] in *. rewrite be_value_cons in Hv.
  rewrite Nat2N.inj_succ, N.pow_succ_r', (N.mul_comm 256) in Hv.
  assert (256 ^ N.of_nat (String.length s) ≠ 0)%N as Hp by (by apply N.pow_nonzero).
  rewrite N.Div0.mod_mul_r in Hv.
  pose proof (be_value_bound s). pose proof (N.mod_lt v _ Hp).
  set (q := (v / 256 ^ N.of_nat (String.length s) mod 256)%N) in *.
  set (m := (256 ^ N.of_nat (String.length s))%N) in *.
  assert (q = code a ∧ v mod m = be_value s)%N as [Hq Hr].
  { apply (N.div_mod_unique m); [done..|]. lia. }
  f_equal; [by rewrite Hq, of_N_code|by apply IH].
Qed.

Lemma word_bytes_inj bits n (a b : word bits) :
  (2 ^ bits = 256 ^ N.of_nat n)%N → be_bytes n (word_val a) = be_bytes n (word_val b) → a = b.
Proof.
  intros Hn H. apply word_eq. apply (f_equal be_value) in H. rewrite !be_value_bytes in H.
  rewrite !N.mod_small in H; [done| |]; rewrite <-Hn; apply N.ltb_lt, word_ok.
Qed.

Lemma uuid_bytes_inj (a b : uuid) : uuid_bytes a = uuid_bytes b → a = b.
Proof. by apply word_bytes_inj. Qed.

Lemma as_bytes_inj d1 d2 : as_bytes d1 = as_bytes d2 → d1 = d2.
Proof. by apply word_bytes_inj. Qed.

Lemma from_bytes_as_bytes d : from_bytes (as_bytes d) = d.
Proof.
  apply word_eq; simpl. unfold as_bytes. rewrite be_value_bytes.
  change (256 ^ N.of_nat 32)%N with (2 ^ 256)%N.
  rewrite N.Div0.mod_mod. apply N.mod_small, N.ltb_lt, word_ok.
Qed.

Lemma as_bytes_from_bytes s : String.length s = 32 → as_bytes (from_bytes s) = s.
Proof.
  intros Hs. unfold as_bytes, from_bytes. simpl word_val.
  rewrite N.mod_small; [by rewrite <-Hs, be_bytes_value|].
  pose proof (be_value_bound s) as Hb. by rewrite Hs in Hb.
Qed.

(** * Hexadecimal text *)

Lemma u8_from_hex_byte a :
  u8_from_hex (hex_digit (code a / 16)) (hex_digit (code a mod 16)) = Some (code a).
Proof. by destruct a as [[][][][][][][][]]. Qed.

Lemma lower_hex_digit a : is_lower_hex a = true →
  is_char "+" a = false ∧ ∃ n, hex_value a = Some n ∧ (n < 16)%N ∧ hex_digit n = a.
Proof.
  destruct a as [[][][][][][][][]]; try (intros ?; discriminate);
    intros _; split; try done; eexists; split; done.
Qed.

Lemma is_lower_hex_digit a :
  is_lower_hex (hex_digit (code a / 16)) = true ∧ is_lower_hex (hex_digit (code a mod 16)) = true.
Proof. by destruct a as [[][][][][][][][]]. Qed.

Lemma bytes_of_hex_of_bytes s : bytes_of_hex (hex_of_bytes s) = Some s.
Proof.
  induction s as [|a s IH]; [done|]. cbn [hex_of_bytes]. unfold hex_byte. cbn [bytes_of_hex].
  rewrite u8_from_hex_byte, IH. simpl. by rewrite of_N_code.
Qed.

Lemma length_hex_of_bytes s : String.length (hex_of_bytes s) = (2 * String.length s)%nat.
Proof. induction s as [|a s IH]; [done|]. simpl. rewrite IH. lia. Qed.

Lemma hex_of_bytes_lower s : str_any (λ a, negb (is_lower_hex a)) (hex_of_bytes s) = false.
Proof.
  induction s as [|a s IH]; [done|]. cbn [hex_of_bytes]. unfold hex_byte. cbn [str_any].
  destruct (is_lower_hex_digit a) as [-> ->]. by rewrite IH.
Qed.

(** Lower-case hexadecimal text of even length is the text of its bytes. *)
Lemma hex_of_bytes_of_hex n v :
  String.length v = (2 * n)%nat → str_any (λ a, negb (is_lower_hex a)) v = false →
  ∃ s, bytes_of_hex v = Some s ∧ String.length s = n ∧ hex_of_bytes s = v.
Proof.
  revert v. induction n as [|n IH]; intros [|a [|b v]] Hlen Hlow; simpl in Hlen; try lia.
  { by exists "". }
  cbn [str_any] in Hlow. to_prop.
  destruct (lower_hex_digit a) as (Hplus&x&Hx&Hx16&Ha); [done|].
  destruct (lower_hex_digit b) as (_&y&Hy&Hy16&Hb); [done|].
  destruct (IH v) as (s&Hs&Hl&Hv); [lia|done|].
  exists (String (ascii_of_N (x * 16 + y)) s). split_and!.
  - cbn [bytes_of_hex]. unfold u8_from_hex. rewrite Hplus, Hx, Hy. simpl. by rewrite Hs.
  - simpl. by rewrite Hl.
  - cbn [hex_of_bytes]. unfold hex_byte. rewrite code_of_N by lia.
    rewrite N.div_add_l by lia. rewrite (N.div_small y) by lia. rewrite N.add_0_r.
    rewrite N.add_comm, N.Div0.mod_add, (N.mod_small y) by lia. by rewrite Ha, Hb, Hv.
Qed.

(** The text of a digest: every digest reads back from the text it is
    written as, and the texts that are accepted are exactly those texts, so a
    digest has one accepted spelling. *)
Theorem digest_text_round_trip (d : ContentDigest) (v : string) :
  digest_from_str (digest_to_string d) = Ok d ∧
  (digest_from_str v = Ok d ↔ v = digest_to_string d).
Proof.
  assert (digest_from_str (digest_to_string d) = Ok d) as Hd.
  { unfold digest_from_str, digest_to_string, str_len.
    rewrite length_hex_of_bytes, hex_of_bytes_lower. unfold as_bytes at 1.
    rewrite length_be_bytes. simpl negb. rewrite bytes_of_hex_of_bytes. simpl.
    by rewrite from_bytes_as_bytes. }
  split; [done|]. split; [|by intros ->].
  unfold digest_from_str, digest_to_string, str_len. case_match eqn:Hc; [done|].
  to_prop. intros Hv.
  destruct (hex_of_bytes_of_hex 32 v) as (s&Hs&Hl&<-); [lia|done|].
  rewrite Hs in Hv. simpl in Hv. simplify_eq. by rewrite as_bytes_from_bytes.
Qed.
