(* ===== verification/Paths.v ===== *)
(** The path rules of workflow-core/src/path.rs, on [/]-separated text. *)
From Stdlib Require Import Ascii String.
From S2P Require Import Prelude Text.

Definition is_slash : ascii → bool := is_char slash.

(** The byte at an index, [as_bytes().get(i)]. *)
Definition byte_at (i : nat) (s : string) : option ascii := str_chars s !! i.

Definition safe_segment (segment : string) : bool :=
  negb (bool_decide (segment = "")) && negb (bool_decide (segment = ".")) &&
  negb (bool_decide (segment = "..")).

Definition is_safe_relative (path : string) : bool :=
  negb (bool_decide (path = "")) &&
  negb (contains_char backslash path) &&
  negb (starts_with "/" path) &&
  negb (match byte_at 1 path with Some byte => is_char colon byte | None => false end) &&
  forallb safe_segment (split_on is_slash path).

(** [a.strip_prefix(b).is_some_and(|suffix| suffix.starts_with('/'))]. *)
Definition extends_path (longer shorter : string) : bool :=
  match strip_prefix shorter longer with Some suffix => starts_with "/" suffix | None => false end.

Definition overlaps (first second : string) : bool :=
  bool_decide (first = second) || extends_path first second || extends_path second first.

(** * Paths as lists of segments *)

Definition segments (path : string) : list string := split_on is_slash path.

(** Not empty, not absolute, and every one of [Path::components] a normal one;
    that iterator skips empty segments, and [.] but for a first one. *)
Definition all_components_normal (path : string) : bool :=
  negb (bool_decide (path = "")) && negb (starts_with "/" path) &&
  negb (bool_decide (head (segments path) = Some ".")) &&
  forallb (λ segment, negb (bool_decide (segment = ".."))) (segments path).

Fixpoint join_segments (l : list string) : string :=
  match l with
  | [] => ""
  | [w] => w
  | w :: l' => w +:+ String slash (join_segments l')
  end.

Lemma join_segments_cons w x l :
  join_segments (w :: x :: l) = w +:+ String slash (join_segments (x :: l)).
Proof. done. Qed.

Lemma join_segments_split s : join_segments (segments s) = s.
Proof.
  unfold segments. induction s as [|a s IH]; [done|]. simpl.
  pose proof (split_on_not_nil is_slash s) as Hne.
  destruct (split_on is_slash s) as [|w l] eqn:Hs; [done|].
  destruct (is_slash a) eqn:Ha.
  - apply is_char_true in Ha as ->. by rewrite join_segments_cons, IH.
  - destruct l as [|x l]; [by rewrite <-IH|].
    rewrite join_segments_cons in IH |- *. by rewrite <-IH.
Qed.

Lemma segments_inj s t : segments s = segments t → s = t.
Proof. intros H. by rewrite <-(join_segments_split s), <-(join_segments_split t), H. Qed.

Lemma join_segments_app l x k : l ≠ [] →
  join_segments (l ++ x :: k) = join_segments l +:+ String slash (join_segments (x :: k)).
Proof.
  intros Hl. induction l as [|w [|y l] IH]; [done|done|].
  change ((w :: y :: l) ++ x :: k) with (w :: y :: (l ++ x :: k)).
  rewrite !join_segments_cons, <-!str_app_assoc, str_app_cons. do 2 f_equal. by apply IH.
Qed.

(** A path extends another when it continues it after a separator. *)
Lemma extends_path_iff longer shorter :
  extends_path longer shorter = true ↔
  ∃ rest, segments longer = segments shorter ++ rest ∧ rest ≠ [].
Proof.
  unfold extends_path. split.
  - destruct (strip_prefix shorter longer) as [suffix|] eqn:Hs; [|done].
    apply strip_prefix_some in Hs as ->. intros [r ->]%starts_with_iff.
    exists (segments r). rewrite str_app_cons, str_app_nil. unfold segments.
    split; [apply (split_on_app_sep slash)|apply split_on_not_nil].
  - intros ([|x rest]&Hseg&?); [done|].
    assert (longer = shorter +:+ String slash (join_segments (x :: rest))) as ->.
    { rewrite <-(join_segments_split longer), Hseg, join_segments_app.
      - by rewrite join_segments_split.
      - apply split_on_not_nil. }
    assert (∀ r, strip_prefix shorter (shorter +:+ r) = Some r) as ->
      by (intros; by apply strip_prefix_some).
    apply starts_with_iff. by exists (join_segments (x :: rest)).
Qed.

(** Two paths overlap when one is the other or lies below it. *)
Lemma overlaps_iff first second :
  overlaps first second = true ↔
  segments first `prefix_of` segments second ∨ segments second `prefix_of` segments first.
Proof.
  unfold overlaps. rewrite !orb_true_iff, bool_decide_eq_true, !extends_path_iff. split.
  - intros [[->|(r&->&_)]|(r&->&_)]; eauto using prefix_app_r.
  - intros [[[|x r] H]|[[|x r] H]]; rewrite ?(right_id_L [] (++)) in H;
      try (apply segments_inj in H); eauto 10.
Qed.

Lemma overlaps_sym a b : overlaps a b = overlaps b a.
Proof.
  apply eq_true_iff_eq. rewrite !overlaps_iff. tauto.
Qed.

Lemma overlaps_refl a : overlaps a a = true.
Proof. by apply overlaps_iff; left. Qed.

(** Two paths that do not overlap have no common path below them. *)
Lemma disjoint_paths a b p :
  overlaps a b = false →
  segments a `prefix_of` segments p → segments b `prefix_of` segments p → False.
Proof.
  intros Hab Ha Hb. assert (overlaps a b = true); [|congruence].
  apply overlaps_iff. destruct (prefix_weak_total _ _ _ Ha Hb); auto.
Qed.

Lemma safe_relative_segments path : is_safe_relative path = true →
  Forall (λ w, w ≠ "" ∧ w ≠ "." ∧ w ≠ "..") (segments path).
Proof.
  unfold is_safe_relative. intros. to_prop.
  apply Forall_forall. intros w Hw.
  assert (safe_segment w = true) as Hsafe.
  { eapply forallb_forall; [done|]. by apply list_elem_of_In. }
  unfold safe_segment in Hsafe. to_prop. done.
Qed.
