(* ===== verification/Canonical.v ===== *)
(** The canonical hasher of workflow-core/src/digest.rs. A hasher is the bytes
    it was given; a writer appends to them, or panics ([None]) on a length that
    does not fit in 64 bits. The section on prefix codes shows when a sequence
    of writes can be read back in one way only: every canonical digest of the
    program is built from these writers, so its injectivity is a composition of
    the lemmas here. *)
From Stdlib Require Import Ascii String.
From stdpp Require Import pretty.
From S2P Require Import Prelude Text Ids.

Definition CanonicalHasher : Type := string.
Definition writer : Type := CanonicalHasher → option CanonicalHasher.

Definition write_bytes (value : string) : writer := λ h,
  length ← u64_try_from (String.length value);
  Some (h +:+ be_bytes 8 length +:+ value).
Definition write_str (value : string) : writer := write_bytes value.
Definition hasher_new (domain : string) : option CanonicalHasher := write_str domain "".
Definition write_bool (value : bool) : writer := λ h,
  Some (h +:+ String (ascii_of_N (if value then 1 else 0)) "").
Definition write_u64 (value : N) : writer := λ h, Some (h +:+ be_bytes 8 value).
Definition write_optional_str (value : option string) : writer := λ h,
  match value with
  | Some value => h ← write_bool true h; write_str value h
  | None => write_bool false h
  end.
Definition write_digest (value : ContentDigest) : writer := write_bytes (as_bytes value).
Definition write_uuid (value : uuid) : writer := write_bytes (uuid_bytes value).
(** [write_bool(v.is_some())] and the digest when there is one. *)
Definition write_optional_digest (value : option ContentDigest) : writer := λ h,
  match value with
  | Some value => h ← write_bool true h; write_digest value h
  | None => write_bool false h
  end.
Definition hasher_finish `{Sha256} (h : CanonicalHasher) : ContentDigest := sha256 h.

(** [u64::try_from(len).expect(..)] of a collection, written to the hasher. *)
Definition write_length (n : nat) : writer := λ h, len ← u64_try_from n; write_u64 len h.

(** [for x in xs { .. }] over writes. *)
Fixpoint write_all {A} (w : A → writer) (xs : list A) : writer := λ h,
  match xs with
  | [] => Some h
  | x :: xs' => h ← w x h; write_all w xs' h
  end.

(** A value's text, when it has one. *)
Definition write_text (value : option string) : writer := λ h,
  value ← value; write_str value h.

(** [serde_json::to_vec] on a type, and the digest of what it writes; an
    encoding error is a panic ([expect]). *)
Class ToJson (A : Type) := to_vec : A → option string.
Definition json_digest `{Sha256, ToJson A} (a : A) : option ContentDigest :=
  digest_of <$> to_vec a.

(** * Prefix codes *)

Arguments be_bytes : simpl never.

Implicit Types (h r : string).

(** [w] only appends, and what it appends tells two related values apart from
    any others, whatever follows. *)
Record prefix_code {A} (P : A → Prop) (R : relation A) (w : A → writer) : Prop := {
  pc_extends a h h' : w a h = Some h' → ∃ e, h' = h +:+ e;
  pc_reads a b h x y r1 r2 :
    P a → P b → w a h = Some x → w b h = Some y → x +:+ r1 = y +:+ r2 →
    R a b ∧ r1 = r2;
}.
Arguments pc_extends {A P R w} _.
Arguments pc_reads {A P R w} _.

Definition anything {A} (a : A) : Prop := True.
Definition fits (width : nat) (n : N) : Prop := (n < 256 ^ N.of_nat width)%N.

(** [f] then [g] on the same value. *)
Definition write_seq {A} (f g : A → writer) (a : A) : writer := λ h, h ← f a h; g a h.

Lemma be_bytes_inj n a b : fits n a → fits n b → be_bytes n a = be_bytes n b → a = b.
Proof.
  unfold fits. intros Ha Hb H. apply (f_equal be_value) in H.
  by rewrite !be_value_bytes, !N.mod_small in H.
Qed.

Lemma u64_try_from_some n l : u64_try_from n = Some l → l = N.of_nat n ∧ fits 8 l.
Proof.
  unfold u64_try_from. case_match; [|done]. intros [= <-]. to_prop. split; [done|].
  unfold fits. change (256 ^ N.of_nat 8)%N with (u64_max + 1)%N. lia.
Qed.

(** A writer of a fixed width. *)
Lemma prefix_code_fixed {A} (P : A → Prop) (f : A → string) (n : nat) :
  (∀ a, String.length (f a) = n) → (∀ a b, P a → P b → f a = f b → a = b) →
  prefix_code P (=) (λ a h, Some (h +:+ f a)).
Proof.
  intros Hn Hinj. split.
  - intros a h h' [= <-]. eauto.
  - intros a b h x y r1 r2 Pa Pb [= <-] [= <-] H.
    rewrite <-!str_app_assoc in H. apply str_app_inv_head in H.
    apply str_app_inv in H as [??]; [|by rewrite !Hn]. eauto.
Qed.

Lemma prefix_code_u64 : prefix_code (fits 8) (=) write_u64.
Proof.
  apply (prefix_code_fixed _ (be_bytes 8) 8); [apply length_be_bytes|].
  intros a b. apply be_bytes_inj.
Qed.

Lemma prefix_code_bool : prefix_code anything (=) write_bool.
Proof. apply (prefix_code_fixed _ _ 1); [done|]. by intros [] []. Qed.

Lemma prefix_code_bytes : prefix_code anything (=) write_bytes.
Proof.
  unfold write_bytes. split.
  - intros a h h' H. apply bind_Some in H as (l&_&[= <-]). eauto.
  - intros a b h x y r1 r2 _ _ Ha Hb H.
    apply bind_Some in Ha as (l&[-> Hl]%u64_try_from_some&<-%Some_inj).
    apply bind_Some in Hb as (k&[-> Hk]%u64_try_from_some&<-%Some_inj).
    rewrite <-!str_app_assoc in H. apply str_app_inv_head in H.
    apply str_app_inv in H as [Heq H]; [|by rewrite !length_be_bytes].
    apply be_bytes_inj in Heq; [|done..]. apply Nat2N.inj in Heq.
    by apply str_app_inv in H.
Qed.

Lemma prefix_code_digest : prefix_code anything (=) write_digest.
Proof.
  destruct prefix_code_bytes as [He Hr]. split; [intros a; apply He|].
  intros a b h x y r1 r2 _ _ Ha Hb H.
  destruct (Hr _ _ _ _ _ _ _ I I Ha Hb H) as [?%as_bytes_inj ?]. done.
Qed.

Lemma prefix_code_uuid : prefix_code anything (=) write_uuid.
Proof.
  destruct prefix_code_bytes as [He Hr]. split; [intros a; apply He|].
  intros a b h x y r1 r2 _ _ Ha Hb H.
  destruct (Hr _ _ _ _ _ _ _ I I Ha Hb H) as [?%uuid_bytes_inj ?]. done.
Qed.

Section combinators.
Context {A B : Type}.
Implicit Types (P : A → Prop) (R : relation A).

Lemma prefix_code_seq P Q R S (f g : A → writer) :
  prefix_code P R f → prefix_code Q S g →
  prefix_code (λ a, P a ∧ Q a) (λ a b, R a b ∧ S a b) (write_seq f g).
Proof.
  intros Hf Hg. unfold write_seq. split.
  - intros a h h' (h1&H1&H2)%bind_Some.
    destruct (pc_extends Hf _ _ _ H1) as [e1 ->].
    destruct (pc_extends Hg _ _ _ H2) as [e2 ->].
    exists (e1 +:+ e2). by rewrite str_app_assoc.
  - intros a b h x y r1 r2 [Pa Qa] [Pb Qb] (x1&Hx1&Hx)%bind_Some (y1&Hy1&Hy)%bind_Some H.
    destruct (pc_extends Hg _ _ _ Hx) as [e1 ->].
    destruct (pc_extends Hg _ _ _ Hy) as [e2 ->].
    assert (R a b ∧ e1 +:+ r1 = e2 +:+ r2) as [HR He].
    { eapply (pc_reads Hf); [done|done|exact Hx1|exact Hy1|]. by rewrite !str_app_assoc. }
    rewrite <-!str_app_assoc, He in H. apply str_app_inv_tail in H as ->.
    destruct (pc_reads Hg _ _ _ _ _ r1 r2 Qa Qb Hx Hy) as [??]; [|done].
    by rewrite <-!str_app_assoc, He.
Qed.

(** The same for a value that is written through a projection. *)
Lemma prefix_code_proj (Q : B → Prop) (S : relation B) (f : A → B) (w : B → writer) :
  prefix_code Q S w → prefix_code (λ a, Q (f a)) (λ a b, S (f a) (f b)) (λ a, w (f a)).
Proof.
  intros Hw. split; [intros a; apply (pc_extends Hw)|].
  intros a b h x y r1 r2. apply (pc_reads Hw).
Qed.

Lemma prefix_code_mono P P' R R' w :
  prefix_code P R w → (∀ a, P' a → P a) → (∀ a b, P' a → P' b → R a b → R' a b) →
  prefix_code P' R' w.
Proof.
  intros Hw HP HR. split; [apply (pc_extends Hw)|].
  intros a b h x y r1 r2 ?? Hx Hy H.
  destruct (pc_reads Hw _ _ _ _ _ _ _ (HP a ltac:(done)) (HP b ltac:(done)) Hx Hy H). auto.
Qed.

Lemma prefix_code_write_eq P R (w w' : A → writer) :
  (∀ a h, w a h = w' a h) → prefix_code P R w → prefix_code P R w'.
Proof.
  intros Heq Hw. split.
  - intros a h h'. rewrite <-Heq. apply (pc_extends Hw).
  - intros a b h x y r1 r2 ??. rewrite <-!Heq. by apply (pc_reads Hw).
Qed.

Lemma write_all_extends P R w :
  prefix_code P R w → ∀ xs h h', write_all w xs h = Some h' → ∃ e, h' = h +:+ e.
Proof.
  intros Hw xs. induction xs as [|x xs IH]; simpl; intros h h' H.
  - simplify_eq. exists "". by rewrite str_app_nil_r.
  - apply bind_Some in H as (h1&[e1 ->]%(pc_extends Hw)&[e2 ->]%IH).
    exists (e1 +:+ e2). by rewrite str_app_assoc.
Qed.

(** Lists of the same length, written element by element. *)
Lemma write_all_reads P R w :
  prefix_code P R w → ∀ xs ys h x y r1 r2,
  length xs = length ys → Forall P xs → Forall P ys →
  write_all w xs h = Some x → write_all w ys h = Some y → x +:+ r1 = y +:+ r2 →
  Forall2 R xs ys ∧ r1 = r2.
Proof.
  intros Hw xs. induction xs as [|a xs IH]; intros [|b ys] h x y r1 r2 Hl HPx HPy Hx Hy H;
    simpl in *; try lia.
  { injection Hx as <-; injection Hy as <-. by apply str_app_inv_head in H. }
  apply bind_Some in Hx as (x1&Hx1&Hx). apply bind_Some in Hy as (y1&Hy1&Hy).
  inversion HPx; inversion HPy; subst.
  destruct (write_all_extends _ _ _ Hw _ _ _ Hx) as [e1 ->].
  destruct (write_all_extends _ _ _ Hw _ _ _ Hy) as [e2 ->].
  assert (R a b ∧ e1 +:+ r1 = e2 +:+ r2) as [HR He].
  { eapply (pc_reads Hw); [done|done|exact Hx1|exact Hy1|]. by rewrite !str_app_assoc. }
  rewrite <-!str_app_assoc, He in H. apply str_app_inv_tail in H as ->.
  destruct (IH ys y1 (y1 +:+ e1) (y1 +:+ e2) r1 r2) as [HF ->]; auto.
  - by rewrite <-!str_app_assoc, He.
Qed.

(** A list after its length. *)
Definition write_list (w : A → writer) (xs : list A) : writer := λ h,
  h ← write_length (length xs) h; write_all w xs h.

Lemma prefix_code_list P R w :
  prefix_code P R w → prefix_code (Forall P) (Forall2 R) (write_list w).
Proof.
  intros Hw. unfold write_list, write_length. split.
  - intros xs h h' H.
    apply bind_Some in H as (h1&(l&Hl&[= <-])%bind_Some&[e ->]%(write_all_extends _ _ _ Hw)).
    eexists. by rewrite <-str_app_assoc.
  - intros xs ys h x y r1 r2 HPx HPy Hx Hy H.
    apply bind_Some in Hx as (x1&(l&[-> Hl]%u64_try_from_some&<-%Some_inj)%bind_Some&Hx).
    apply bind_Some in Hy as (y1&(k&[-> Hk]%u64_try_from_some&<-%Some_inj)%bind_Some&Hy).
    destruct (write_all_extends _ _ _ Hw _ _ _ Hx) as [e1 ->].
    destruct (write_all_extends _ _ _ Hw _ _ _ Hy) as [e2 ->].
    assert (length xs = length ys) as Hlen.
    { rewrite <-!str_app_assoc in H. apply str_app_inv_head in H.
      apply str_app_inv in H as [Heq _]; [|by rewrite !length_be_bytes].
      apply be_bytes_inj in Heq; [|done..]. by apply Nat2N.inj in Heq. }
    rewrite Hlen in *. by eapply (write_all_reads _ _ _ Hw).
Qed.
End combinators.

(** A flag, then the value when there is one. *)
Lemma prefix_code_optional {A} (w : A → writer) (w' : option A → writer) :
  prefix_code anything (=) w →
  (∀ v h, w' v h = match v with
                   | Some v => h ← write_bool true h; w v h
                   | None => write_bool false h
                   end) →
  prefix_code anything (=) w'.
Proof.
  intros [He Hr] Heq. split.
  - intros [v|] h h' H; rewrite Heq in H; unfold write_bool in H; simpl in H.
    + apply He in H as [e ->]. eexists. by rewrite <-str_app_assoc.
    + injection H as <-. eauto.
  - intros [v|] [u|] h x y r1 r2 _ _ Hx Hy H; rewrite Heq in Hx, Hy;
      unfold write_bool in Hx, Hy; simpl in Hx, Hy.
    + by destruct (Hr v u _ _ _ _ _ I I Hx Hy H) as [-> ->].
    + apply He in Hx as [e ->]. injection Hy as <-. rewrite <-!str_app_assoc in H.
      apply str_app_inv_head in H. by rewrite !str_app_cons in H.
    + apply He in Hy as [e ->]. injection Hx as <-. rewrite <-!str_app_assoc in H.
      apply str_app_inv_head in H. by rewrite !str_app_cons in H.
    + injection Hx as <-; injection Hy as <-. rewrite <-!str_app_assoc in H.
      apply str_app_inv_head, str_app_inv_head in H. done.
Qed.

Lemma prefix_code_optional_str : prefix_code anything (=) write_optional_str.
Proof. by apply (prefix_code_optional write_str); [apply prefix_code_bytes|]. Qed.

Lemma prefix_code_optional_digest : prefix_code anything (=) write_optional_digest.
Proof. by apply (prefix_code_optional write_digest); [apply prefix_code_digest|]. Qed.

Lemma prefix_code_text : prefix_code anything (=) write_text.
Proof.
  destruct prefix_code_bytes as [He Hr]. unfold write_text, write_str. split.
  - intros a h h' (v&_&H)%bind_Some. by eapply He.
  - intros a b h x y r1 r2 _ _ (v&->&Hx)%bind_Some (u&->&Hy)%bind_Some H.
    by destruct (Hr v u _ _ _ _ _ I I Hx Hy H) as [-> ->].
Qed.

#[export] Hint Resolve prefix_code_u64 prefix_code_bool prefix_code_bytes prefix_code_digest
  prefix_code_optional_str prefix_code_optional_digest prefix_code_uuid prefix_code_text : cycle.

(** A message: a domain and a value. *)
Definition message {A} (domain : string) (w : A → writer) (a : A) : option string :=
  h ← hasher_new domain; w a h.

(** A code that ends a message need not be followed by anything. *)
Record final_code {A} (P : A → Prop) (R : relation A) (w : A → writer) : Prop := {
  fc_extends a h h' : w a h = Some h' → ∃ e, h' = h +:+ e;
  fc_reads a b h x : P a → P b → w a h = Some x → w b h = Some x → R a b;
}.
Arguments fc_extends {A P R w} _.
Arguments fc_reads {A P R w} _.

Lemma final_code_prefix {A} (P : A → Prop) R (w : A → writer) :
  prefix_code P R w → final_code P R w.
Proof.
  intros Hw. split; [apply (pc_extends Hw)|]. intros a b h x Pa Pb Ha Hb.
  by eapply (pc_reads Hw a b h x x "" "").
Qed.

Lemma final_code_seq {A} P Q (R S : relation A) f g :
  prefix_code P R f → final_code Q S g →
  final_code (λ a, P a ∧ Q a) (λ a b, R a b ∧ S a b) (write_seq f g).
Proof.
  intros Hf Hg. unfold write_seq. split.
  - intros a h h' (h1&[e1 ->]%(pc_extends Hf)&[e2 ->]%(fc_extends Hg))%bind_Some.
    exists (e1 +:+ e2). by rewrite str_app_assoc.
  - intros a b h x [Pa Qa] [Pb Qb] (x1&Hx1&Hx)%bind_Some (y1&Hy1&Hy)%bind_Some.
    destruct (fc_extends Hg _ _ _ Hx) as [e1 Hxe]. destruct (fc_extends Hg _ _ _ Hy) as [e2 Hye].
    assert (R a b ∧ e1 = e2) as [HR ->].
    { eapply (pc_reads Hf); [done|done|exact Hx1|exact Hy1|]. congruence. }
    assert (x1 = y1) as -> by (apply (str_app_inv_tail _ _ e2); congruence).
    split; [done|]. by eapply (fc_reads Hg).
Qed.

Lemma final_code_proj {A B} (Q : B → Prop) (S : relation B) (f : A → B) (w : B → writer) :
  final_code Q S w → final_code (λ a, Q (f a)) (λ a b, S (f a) (f b)) (λ a, w (f a)).
Proof. intros [He Hr]. split; [intros a; apply He|]. intros a b. apply Hr. Qed.

Lemma final_code_mono {A} P P' (R R' : relation A) w :
  final_code P R w → (∀ a, P' a → P a) → (∀ a b, P' a → P' b → R a b → R' a b) →
  final_code P' R' w.
Proof. intros [He Hr] HP HR. split; [done|]. eauto. Qed.

Lemma message_reads {A} (P : A → Prop) R domain (w : A → writer) a b m :
  final_code P R w → P a → P b →
  message domain w a = Some m → message domain w b = Some m → R a b.
Proof.
  intros Hw Pa Pb. unfold message. intros (h&Hh&Ha)%bind_Some (k&Hk&Hb)%bind_Some.
  assert (h = k) as -> by congruence. by eapply (fc_reads Hw).
Qed.

(** Equal digests: related values, or two different messages with one hash. *)
Lemma digest_reads `{Sha256} {A} (P : A → Prop) R domain (w : A → writer) a b d :
  final_code P R w → P a → P b →
  hasher_finish <$> message domain w a = Some d →
  hasher_finish <$> message domain w b = Some d →
  R a b ∨ ∃ x y, message domain w a = Some x ∧ message domain w b = Some y ∧
    x ≠ y ∧ sha256 x = sha256 y.
Proof.
  intros Hw Pa Pb (x&Hx&Hxd)%fmap_Some (y&Hy&Hyd)%fmap_Some.
  destruct (decide (x = y)) as [->|].
  - left. by eapply message_reads.
  - right. exists x, y. unfold hasher_finish in *. split_and!; try done. congruence.
Qed.

(** A concrete hash and time text, for the examples of other files: the hash sums the bytes. *)
Definition toy_sha256 : Sha256 := λ s, word_of 256 (be_value s).
Definition toy_rfc3339 : Rfc3339 :=
  {| rfc3339_format := λ t, Some (pretty t); rfc3339_parse := λ _, None |}.
