(* ===== verification/WorkflowMachine.v ===== *)
(** The workflow state machine of workflow-core/src/workflow.rs: the record
    [Workflow], its commands and events, and [Workflow::apply] with its private
    helpers. [apply] is a method of the state-with-error monad: its receiver is
    returned on the error path as well. *)
From stdpp Require Import relations.
From S2P Require Import Prelude Ids.
Local Open Scope N_scope.

Module Workflow.

Inductive WorkflowMode : Type := Quick | Full.

Inductive RepairTarget : Type := RT_Execution | RT_Architecture.

Inductive WorkflowState : Type :=
| Intake | Routing | QuickExecution | Architecture | Execution | Verification
| IndependentReviews | Arbitration | Delivery | Repair | Paused | Blocked
| Completed | Cancelled.

#[export] Instance WorkflowMode_eq_dec : EqDecision WorkflowMode.
Proof. solve_decision. Defined.
#[export] Instance RepairTarget_eq_dec : EqDecision RepairTarget.
Proof. solve_decision. Defined.
#[export] Instance WorkflowState_eq_dec : EqDecision WorkflowState.
Proof. solve_decision. Defined.

Definition workflow_is_terminal (s : WorkflowState) : bool :=
  match s with Completed | Cancelled => true | _ => false end.

Inductive WorkflowCommand : Type :=
| CompleteIntake
| Route (mode : WorkflowMode)
| ArchitectureAccepted
| CandidateReady (candidate_id : CandidateId)
| VerificationPassed
| VerificationFailed
| VerificationRejected (target : RepairTarget)
| ReviewsReady
| Approve (mandatory_gates_passed : bool)
| Deliver
| Reject (target : RepairTarget)
| BeginRepair
| Pause
| Resume
| Cancel
| RetryInfrastructure
| ResumeBlocked (additional_cycles : N)
| BlockInfrastructure
| ResumeInfrastructure
| ReplanExecution.

Inductive WorkflowEvent : Type :=
| StateChanged (from to : WorkflowState)
| CandidateSelected (candidate_id : CandidateId)
| RepairCycleConsumed (cycle maximum : N)
| RepairBudgetExtended (previous current : N)
| InfrastructureRetryAccepted.

Inductive TransitionError : Type :=
| InvalidTransition
| MandatoryGateFailed
| MissingCandidate
| MissingRepairTarget
| InvalidAdditionalCycles
| RepairBudgetOverflow.

#[export] Instance WorkflowEvent_eq_dec : EqDecision WorkflowEvent.
Proof. solve_decision. Defined.
#[export] Instance TransitionError_eq_dec : EqDecision TransitionError.
Proof. solve_decision. Defined.

Definition transition_error_message (e : TransitionError) : string :=
  match e with
  | InvalidTransition => "the command is not valid in the current workflow state"
  | MandatoryGateFailed => "mandatory gates have not passed"
  | MissingCandidate => "the workflow has no current candidate"
  | MissingRepairTarget => "the workflow has no repair target"
  | InvalidAdditionalCycles => "additional repair cycles must be greater than zero"
  | RepairBudgetOverflow => "the repair cycle limit exceeds the supported range"
  end.

Record Workflow : Type := {
  state : WorkflowState;
  mode : option WorkflowMode;
  current_candidate : option CandidateId;
  repair_target : option RepairTarget;
  repair_cycles : N;
  max_repair_cycles : N;
  paused_from : option WorkflowState;
  infrastructure_blocked_from : option WorkflowState;
}.

#[export] Instance Workflow_eq_dec : EqDecision Workflow.
Proof. solve_decision. Defined.

(** [Workflow::new]; the argument is a [NonZeroU8]. *)
Definition workflow_new (max : N) : Workflow := {|
  state := Intake;
  mode := None;
  current_candidate := None;
  repair_target := None;
  repair_cycles := 0;
  max_repair_cycles := max;
  paused_from := None;
  infrastructure_blocked_from := None;
|}.

Definition workflow_default : Workflow := workflow_new 5.

(** Field assignments. *)
Definition set_state (s : WorkflowState) (w : Workflow) : Workflow :=
  {| state := s; mode := mode w; current_candidate := current_candidate w;
     repair_target := repair_target w; repair_cycles := repair_cycles w;
     max_repair_cycles := max_repair_cycles w; paused_from := paused_from w;
     infrastructure_blocked_from := infrastructure_blocked_from w |}.
Definition set_mode (m : option WorkflowMode) (w : Workflow) : Workflow :=
  {| state := state w; mode := m; current_candidate := current_candidate w;
     repair_target := repair_target w; repair_cycles := repair_cycles w;
     max_repair_cycles := max_repair_cycles w; paused_from := paused_from w;
     infrastructure_blocked_from := infrastructure_blocked_from w |}.
Definition set_candidate (c : option CandidateId) (w : Workflow) : Workflow :=
  {| state := state w; mode := mode w; current_candidate := c;
     repair_target := repair_target w; repair_cycles := repair_cycles w;
     max_repair_cycles := max_repair_cycles w; paused_from := paused_from w;
     infrastructure_blocked_from := infrastructure_blocked_from w |}.
Definition set_repair_target (t : option RepairTarget) (w : Workflow) : Workflow :=
  {| state := state w; mode := mode w; current_candidate := current_candidate w;
     repair_target := t; repair_cycles := repair_cycles w;
     max_repair_cycles := max_repair_cycles w; paused_from := paused_from w;
     infrastructure_blocked_from := infrastructure_blocked_from w |}.
Definition set_repair_cycles (n : N) (w : Workflow) : Workflow :=
  {| state := state w; mode := mode w; current_candidate := current_candidate w;
     repair_target := repair_target w; repair_cycles := n;
     max_repair_cycles := max_repair_cycles w; paused_from := paused_from w;
     infrastructure_blocked_from := infrastructure_blocked_from w |}.
Definition set_max_repair_cycles (n : N) (w : Workflow) : Workflow :=
  {| state := state w; mode := mode w; current_candidate := current_candidate w;
     repair_target := repair_target w; repair_cycles := repair_cycles w;
     max_repair_cycles := n; paused_from := paused_from w;
     infrastructure_blocked_from := infrastructure_blocked_from w |}.
Definition set_paused_from (s : option WorkflowState) (w : Workflow) : Workflow :=
  {| state := state w; mode := mode w; current_candidate := current_candidate w;
     repair_target := repair_target w; repair_cycles := repair_cycles w;
     max_repair_cycles := max_repair_cycles w; paused_from := s;
     infrastructure_blocked_from := infrastructure_blocked_from w |}.
Definition set_infrastructure_blocked_from (s : option WorkflowState) (w : Workflow) : Workflow :=
  {| state := state w; mode := mode w; current_candidate := current_candidate w;
     repair_target := repair_target w; repair_cycles := repair_cycles w;
     max_repair_cycles := max_repair_cycles w; paused_from := paused_from w;
     infrastructure_blocked_from := s |}.

(** [Workflow::transition]. *)
Definition workflow_transition (to : WorkflowState)
    : method Workflow TransitionError (list WorkflowEvent) :=
  w ← m_get;
  _ ← m_modify (set_state to);
  mret [StateChanged (state w) to].

(** [Workflow::require_candidate]. *)
Definition require_candidate : method Workflow TransitionError CandidateId :=
  w ← m_get; m_lift (ok_or MissingCandidate (current_candidate w)).

(** [Workflow::reject]. *)
Definition workflow_reject (target : RepairTarget)
    : method Workflow TransitionError (list WorkflowEvent) :=
  w ← m_get;
  next_cycle ← m_lift (ok_or RepairBudgetOverflow (checked_add u8_max (repair_cycles w) 1));
  _ ← m_modify (set_repair_cycles next_cycle);
  _ ← m_modify (set_repair_target (Some target));
  events ← workflow_transition (if max_repair_cycles w <=? next_cycle then Blocked else Repair);
  mret (RepairCycleConsumed next_cycle (max_repair_cycles w) :: events).

Definition can_pause (s : WorkflowState) : bool :=
  match s with
  | Paused | Blocked | Verification | Delivery | Completed | Cancelled => false
  | _ => true
  end.

Definition can_retry_infrastructure (s : WorkflowState) : bool :=
  match s with Paused | Blocked | Completed | Cancelled => false | _ => true end.

Definition can_block_infrastructure (s : WorkflowState) : bool :=
  match s with Paused | Blocked | Completed | Cancelled => false | _ => true end.

Definition is_none {A} (o : option A) : bool :=
  match o with None => true | Some _ => false end.

Definition state_is (s : WorkflowState) (w : Workflow) : bool := bool_decide (state w = s).

(** [Workflow::apply]. Each arm's guard is an [if]; a failed guard falls to the
    last arm of the [match], [Err(InvalidTransition)]. *)
Definition workflow_apply (command : WorkflowCommand)
    : method Workflow TransitionError (list WorkflowEvent) :=
  w ← m_get;
  match command with
  | CompleteIntake =>
      if state_is Intake w then workflow_transition Routing else m_throw InvalidTransition
  | Route m =>
      if state_is Routing w then
        _ ← m_modify (set_mode (Some m));
        workflow_transition (match m with Quick => QuickExecution | Full => Architecture end)
      else m_throw InvalidTransition
  | ArchitectureAccepted =>
      if state_is Architecture w then workflow_transition Execution
      else m_throw InvalidTransition
  | CandidateReady candidate_id =>
      if state_is QuickExecution w || state_is Execution w then
        _ ← m_modify (set_candidate (Some candidate_id));
        events ← workflow_transition Verification;
        mret (CandidateSelected candidate_id :: events)
      else m_throw InvalidTransition
  | VerificationPassed =>
      if state_is Verification w then
        _ ← require_candidate;
        match mode w with
        | Some Quick => workflow_transition Arbitration
        | Some Full => workflow_transition IndependentReviews
        | None => m_throw InvalidTransition
        end
      else m_throw InvalidTransition
  | VerificationFailed =>
      if state_is Verification w then
        _ ← require_candidate; workflow_reject RT_Execution
      else m_throw InvalidTransition
  | VerificationRejected target =>
      if state_is Verification w then
        _ ← require_candidate; workflow_reject target
      else m_throw InvalidTransition
  | ReviewsReady =>
      if state_is IndependentReviews w then workflow_transition Arbitration
      else m_throw InvalidTransition
  | Approve mandatory_gates_passed =>
      if state_is Arbitration w then
        _ ← require_candidate;
        if negb mandatory_gates_passed then m_throw MandatoryGateFailed
        else workflow_transition Delivery
      else m_throw InvalidTransition
  | Deliver =>
      if state_is Delivery w then
        _ ← require_candidate; workflow_transition Completed
      else m_throw InvalidTransition
  | Reject target =>
      if state_is Arbitration w then
        _ ← require_candidate; workflow_reject target
      else m_throw InvalidTransition
  | BeginRepair =>
      if state_is Repair w then
        let target := repair_target w in
        _ ← m_modify (set_repair_target None);
        target ← m_lift (ok_or MissingRepairTarget target);
        _ ← m_modify (set_candidate None);
        workflow_transition
          (match target with RT_Execution => Execution | RT_Architecture => Architecture end)
      else m_throw InvalidTransition
  | Pause =>
      if can_pause (state w) then
        _ ← m_modify (set_paused_from (Some (state w)));
        workflow_transition Paused
      else m_throw InvalidTransition
  | Resume =>
      if state_is Paused w then
        let previous := paused_from w in
        _ ← m_modify (set_paused_from None);
        previous ← m_lift (ok_or InvalidTransition previous);
        workflow_transition previous
      else m_throw InvalidTransition
  | Cancel =>
      if negb (workflow_is_terminal (state w)) then
        _ ← m_modify (set_paused_from None);
        workflow_transition Cancelled
      else m_throw InvalidTransition
  | RetryInfrastructure =>
      if can_retry_infrastructure (state w) then mret [InfrastructureRetryAccepted]
      else m_throw InvalidTransition
  | ResumeBlocked additional_cycles =>
      if state_is Blocked w && is_none (infrastructure_blocked_from w) then
        if additional_cycles =? 0 then m_throw InvalidAdditionalCycles else
        let previous := max_repair_cycles w in
        current ← m_lift (ok_or RepairBudgetOverflow
                            (checked_add u8_max previous additional_cycles));
        _ ← m_modify (set_max_repair_cycles current);
        events ← workflow_transition Repair;
        mret (RepairBudgetExtended previous current :: events)
      else m_throw InvalidTransition
  | BlockInfrastructure =>
      if can_block_infrastructure (state w) then
        _ ← m_modify (set_infrastructure_blocked_from (Some (state w)));
        workflow_transition Blocked
      else m_throw InvalidTransition
  | ResumeInfrastructure =>
      if state_is Blocked w && negb (is_none (infrastructure_blocked_from w)) then
        let previous := infrastructure_blocked_from w in
        _ ← m_modify (set_infrastructure_blocked_from None);
        previous ← m_lift (ok_or InvalidTransition previous);
        workflow_transition previous
      else m_throw InvalidTransition
  | ReplanExecution =>
      if state_is Execution w then workflow_transition Architecture
      else m_throw InvalidTransition
  end.

(** * The transition relation *)

(** The accepted commands, one rule per arm: what each needs of the workflow,
    the workflow it leaves and the events it reports. *)
Inductive workflow_step (w : Workflow) :
  WorkflowCommand → Workflow → list WorkflowEvent → Prop :=
| step_complete_intake : state w = Intake →
    workflow_step w CompleteIntake (set_state Routing w) [StateChanged Intake Routing]
| step_route_quick : state w = Routing →
    workflow_step w (Route Quick) (set_state QuickExecution (set_mode (Some Quick) w))
      [StateChanged Routing QuickExecution]
| step_route_full : state w = Routing →
    workflow_step w (Route Full) (set_state Architecture (set_mode (Some Full) w))
      [StateChanged Routing Architecture]
| step_architecture : state w = Architecture →
    workflow_step w ArchitectureAccepted (set_state Execution w)
      [StateChanged Architecture Execution]
| step_candidate id : state w = QuickExecution ∨ state w = Execution →
    workflow_step w (CandidateReady id) (set_state Verification (set_candidate (Some id) w))
      [CandidateSelected id; StateChanged (state w) Verification]
| step_verified_quick id : state w = Verification → current_candidate w = Some id →
    mode w = Some Quick →
    workflow_step w VerificationPassed (set_state Arbitration w)
      [StateChanged Verification Arbitration]
| step_verified_full id : state w = Verification → current_candidate w = Some id →
    mode w = Some Full →
    workflow_step w VerificationPassed (set_state IndependentReviews w)
      [StateChanged Verification IndependentReviews]
| step_rejected c target id :
    c = VerificationFailed ∧ target = RT_Execution ∧ state w = Verification ∨
    c = VerificationRejected target ∧ state w = Verification ∨
    c = Reject target ∧ state w = Arbitration →
    current_candidate w = Some id →
    repair_cycles w + 1 ≤ u8_max →
    let next := if max_repair_cycles w <=? repair_cycles w + 1 then Blocked else Repair in
    workflow_step w c
      (set_state next (set_repair_target (Some target)
         (set_repair_cycles (repair_cycles w + 1) w)))
      [RepairCycleConsumed (repair_cycles w + 1) (max_repair_cycles w);
       StateChanged (state w) next]
| step_reviews : state w = IndependentReviews →
    workflow_step w ReviewsReady (set_state Arbitration w)
      [StateChanged IndependentReviews Arbitration]
| step_approve id : state w = Arbitration → current_candidate w = Some id →
    workflow_step w (Approve true) (set_state Delivery w) [StateChanged Arbitration Delivery]
| step_deliver id : state w = Delivery → current_candidate w = Some id →
    workflow_step w Deliver (set_state Completed w) [StateChanged Delivery Completed]
| step_begin_repair target : state w = Repair → repair_target w = Some target →
    let next := match target with RT_Execution => Execution | RT_Architecture => Architecture end in
    workflow_step w BeginRepair
      (set_state next (set_candidate None (set_repair_target None w)))
      [StateChanged Repair next]
| step_pause : can_pause (state w) = true →
    workflow_step w Pause (set_state Paused (set_paused_from (Some (state w)) w))
      [StateChanged (state w) Paused]
| step_resume s : state w = Paused → paused_from w = Some s →
    workflow_step w Resume (set_state s (set_paused_from None w)) [StateChanged Paused s]
| step_cancel : workflow_is_terminal (state w) = false →
    workflow_step w Cancel (set_state Cancelled (set_paused_from None w))
      [StateChanged (state w) Cancelled]
| step_retry : can_retry_infrastructure (state w) = true →
    workflow_step w RetryInfrastructure w [InfrastructureRetryAccepted]
| step_resume_blocked n : state w = Blocked → infrastructure_blocked_from w = None →
    n ≠ 0 → max_repair_cycles w + n ≤ u8_max →
    workflow_step w (ResumeBlocked n)
      (set_state Repair (set_max_repair_cycles (max_repair_cycles w + n) w))
      [RepairBudgetExtended (max_repair_cycles w) (max_repair_cycles w + n);
       StateChanged Blocked Repair]
| step_block : can_block_infrastructure (state w) = true →
    workflow_step w BlockInfrastructure
      (set_state Blocked (set_infrastructure_blocked_from (Some (state w)) w))
      [StateChanged (state w) Blocked]
| step_resume_infrastructure s : state w = Blocked → infrastructure_blocked_from w = Some s →
    workflow_step w ResumeInfrastructure
      (set_state s (set_infrastructure_blocked_from None w)) [StateChanged Blocked s]
| step_replan : state w = Execution →
    workflow_step w ReplanExecution (set_state Architecture w)
      [StateChanged Execution Architecture].

(** * Runs *)

(** [accepted w0 log w]: from [w0] the commands of [log] were accepted, in
    order, and left [w]. *)
Inductive accepted (w0 : Workflow) : list WorkflowCommand → Workflow → Prop :=
| accepted_nil : accepted w0 [] w0
| accepted_snoc log w c w' events :
    accepted w0 log w → workflow_apply c w = (w', Ok events) →
    accepted w0 (log ++ [c]) w'.

(** A run, computed. *)
Fixpoint replay (w : Workflow) (log : list WorkflowCommand) : option Workflow :=
  match log with
  | [] => Some w
  | c :: log' => match workflow_apply c w with
                 | (w', Ok _) => replay w' log'
                 | (_, Err _) => None
                 end
  end.

(** A [NonZeroU8] argument. *)
Definition nonzero_u8 (n : N) : Prop := 1 ≤ n ≤ u8_max.

Definition reachable (log : list WorkflowCommand) (w : Workflow) : Prop :=
  ∃ max, nonzero_u8 max ∧ accepted (workflow_new max) log w.

(** The stage a paused or infrastructure-blocked workflow goes back to. *)
Definition origin (w : Workflow) : WorkflowState :=
  match state w with
  | Paused => default Paused (paused_from w)
  | Blocked => default Blocked (infrastructure_blocked_from w)
  | s => s
  end.

(** The stages at which a candidate is under judgement. *)
Definition judges_candidate (s : WorkflowState) : bool :=
  match s with
  | Verification | IndependentReviews | Arbitration | Delivery | Repair | Blocked
  | Completed => true
  | _ => false
  end.

Definition before_routing (s : WorkflowState) : bool :=
  match s with Intake | Routing | Cancelled => true | _ => false end.

(** The representation invariant of [Workflow]. *)
Record workflow_wf (w : Workflow) : Prop := {
  wf_paused : match paused_from w with
              | Some s => state w = Paused ∧ can_pause s = true
              | None => state w ≠ Paused
              end;
  wf_infrastructure : match infrastructure_blocked_from w with
                      | Some s => (state w = Blocked ∨ state w = Cancelled) ∧
                                  can_block_infrastructure s = true
                      | None => True
                      end;
  wf_candidate : judges_candidate (origin w) = true → is_Some (current_candidate w);
  wf_target : origin w = Repair ∨ origin w = Blocked → is_Some (repair_target w);
  wf_mode : before_routing (origin w) = false → is_Some (mode w);
  wf_quick : origin w = QuickExecution → mode w = Some Quick;
  wf_reviews : origin w = IndependentReviews → mode w = Some Full;
  wf_budget : repair_cycles w ≤ max_repair_cycles w ≤ u8_max;
  wf_room : origin w ≠ Blocked → origin w ≠ Cancelled → repair_cycles w < max_repair_cycles w;
  wf_exhausted : origin w = Blocked → repair_cycles w = max_repair_cycles w;
}.

(** The latest candidate a log submitted and the commands accepted since. *)
Definition gate_step (g : option (CandidateId * list WorkflowCommand)) (c : WorkflowCommand)
    : option (CandidateId * list WorkflowCommand) :=
  match c with
  | CandidateReady id => Some (id, [])
  | _ => prod_map id (λ rest, rest ++ [c]) <$> g
  end.
Definition since_candidate (log : list WorkflowCommand)
    : option (CandidateId * list WorkflowCommand) := fold_left gate_step log None.

(** The gates a candidate passes, in order, by the stage it stands at. *)
Definition gates_before_approval (m : option WorkflowMode) : list WorkflowCommand :=
  match m with
  | Some Full => [VerificationPassed; ReviewsReady]
  | _ => [VerificationPassed]
  end.
Definition gates_passed (s : WorkflowState) (m : option WorkflowMode) : list WorkflowCommand :=
  match s with
  | IndependentReviews => [VerificationPassed]
  | Arbitration => gates_before_approval m
  | Delivery => gates_before_approval m ++ [Approve true]
  | Completed => gates_before_approval m ++ [Approve true] ++ [Deliver]
  | _ => []
  end.

Definition gates_recorded (log : list WorkflowCommand) (w : Workflow) : Prop :=
  judges_candidate (origin w) = true →
  ∃ id rest, since_candidate log = Some (id, rest) ∧ current_candidate w = Some id ∧
    sublist (gates_passed (origin w) (mode w)) rest.

(** The rejections a command list holds. *)
Definition is_rejection (c : WorkflowCommand) : bool :=
  match c with VerificationFailed | VerificationRejected _ | Reject _ => true | _ => false end.
Definition rejections (log : list WorkflowCommand) : N :=
  N.of_nat (length (filter (λ c, is_rejection c = true) log)).
Definition extension (c : WorkflowCommand) : N :=
  match c with ResumeBlocked n => n | _ => 0 end.
Definition extensions (log : list WorkflowCommand) : N :=
  foldr (λ c n, extension c + n) 0 log.

(** A command that moves a workflow towards delivery, and the run it gives. *)
Definition next_command (id : CandidateId) (w : Workflow) : WorkflowCommand :=
  match state w with
  | Intake => CompleteIntake
  | Routing => Route Full
  | QuickExecution | Execution => CandidateReady id
  | Architecture => ArchitectureAccepted
  | Verification => VerificationPassed
  | IndependentReviews => ReviewsReady
  | Arbitration => Approve true
  | Delivery => Deliver
  | Repair => BeginRepair
  | Paused => Resume
  | Blocked => if infrastructure_blocked_from w is Some _ then ResumeInfrastructure else ResumeBlocked 1
  | Completed | Cancelled => Cancel
  end.
Fixpoint drive (fuel : nat) (id : CandidateId) (w : Workflow) : Workflow :=
  match fuel with
  | O => w
  | S fuel' => drive fuel' id (workflow_apply (next_command id w) w).1
  end.
(** The commands [drive] still needs, by stage. *)
Definition stage_rank (s : WorkflowState) : nat :=
  match s with
  | Intake => 8 | Routing => 7 | Architecture => 6 | QuickExecution | Execution => 5
  | Verification => 4 | IndependentReviews => 3 | Arbitration => 2 | Delivery => 1
  | Repair => 7 | Blocked => 8 | Paused => 9 | Completed | Cancelled => 0
  end%nat.
Definition rank (w : Workflow) : nat :=
  match state w with
  | Paused => S (stage_rank (origin w))
  | Blocked => if infrastructure_blocked_from w is Some _ then S (stage_rank (origin w)) else 8
  | s => stage_rank s
  end%nat.

(** * The commands as a table *)

(** The states in which a command may be accepted. *)
Definition accepted_in (c : WorkflowCommand) : list WorkflowState :=
  match c with
  | CompleteIntake => [Intake]
  | Route _ => [Routing]
  | ArchitectureAccepted => [Architecture]
  | CandidateReady _ => [QuickExecution; Execution]
  | VerificationPassed | VerificationFailed | VerificationRejected _ => [Verification]
  | ReviewsReady => [IndependentReviews]
  | Approve _ | Reject _ => [Arbitration]
  | Deliver => [Delivery]
  | BeginRepair => [Repair]
  | Pause => [Intake; Routing; QuickExecution; Architecture; Execution; IndependentReviews;
              Arbitration; Repair]
  | Resume => [Paused]
  | Cancel => [Intake; Routing; QuickExecution; Architecture; Execution; Verification;
               IndependentReviews; Arbitration; Delivery; Repair; Paused; Blocked]
  | RetryInfrastructure | BlockInfrastructure =>
      [Intake; Routing; QuickExecution; Architecture; Execution; Verification;
       IndependentReviews; Arbitration; Delivery; Repair]
  | ResumeBlocked _ | ResumeInfrastructure => [Blocked]
  | ReplanExecution => [Execution]
  end.

(** What a command asks of the other fields. *)
Definition asks (c : WorkflowCommand) (w : Workflow) : Prop :=
  match c with
  | VerificationPassed => is_Some (current_candidate w) ∧ is_Some (mode w)
  | VerificationFailed | VerificationRejected _ | Reject _ =>
      is_Some (current_candidate w) ∧ repair_cycles w < 255
  | Approve mandatory_gates_passed => is_Some (current_candidate w) ∧ mandatory_gates_passed = true
  | Deliver => is_Some (current_candidate w)
  | BeginRepair => is_Some (repair_target w)
  | Resume => is_Some (paused_from w)
  | ResumeBlocked n =>
      infrastructure_blocked_from w = None ∧ 0 < n ∧ max_repair_cycles w + n ≤ 255
  | ResumeInfrastructure => is_Some (infrastructure_blocked_from w)
  | _ => True
  end.

(** The state a command leads to. *)
Definition leads_to (c : WorkflowCommand) (w : Workflow) : WorkflowState :=
  match c with
  | CompleteIntake => Routing
  | Route Quick => QuickExecution
  | Route Full | ReplanExecution => Architecture
  | ArchitectureAccepted => Execution
  | CandidateReady _ => Verification
  | VerificationPassed => if mode w is Some Quick then Arbitration else IndependentReviews
  | VerificationFailed | VerificationRejected _ | Reject _ =>
      if repair_cycles w + 1 <? max_repair_cycles w then Repair else Blocked
  | ReviewsReady => Arbitration
  | Approve _ => Delivery
  | Deliver => Completed
  | BeginRepair => if repair_target w is Some RT_Architecture then Architecture else Execution
  | Pause => Paused
  | Resume => default Paused (paused_from w)
  | Cancel => Cancelled
  | RetryInfrastructure => state w
  | ResumeBlocked _ => Repair
  | BlockInfrastructure => Blocked
  | ResumeInfrastructure => default Blocked (infrastructure_blocked_from w)
  end.

(** Every field afterwards: what a command does not write stays. *)
Record effect (c : WorkflowCommand) (w w' : Workflow) : Prop := {
  ef_state : state w' = leads_to c w;
  ef_mode : mode w' = if c is Route m then Some m else mode w;
  ef_candidate : current_candidate w' = match c with
    | CandidateReady id => Some id | BeginRepair => None | _ => current_candidate w end;
  ef_target : repair_target w' = match c with
    | VerificationFailed => Some RT_Execution
    | VerificationRejected target | Reject target => Some target
    | BeginRepair => None | _ => repair_target w end;
  ef_cycles : repair_cycles w' = match c with
    | VerificationFailed | VerificationRejected _ | Reject _ => repair_cycles w + 1
    | _ => repair_cycles w end;
  ef_maximum : max_repair_cycles w' =
    if c is ResumeBlocked n then max_repair_cycles w + n else max_repair_cycles w;
  ef_paused : paused_from w' = match c with
    | Pause => Some (state w) | Resume | Cancel => None | _ => paused_from w end;
  ef_blocked : infrastructure_blocked_from w' = match c with
    | BlockInfrastructure => Some (state w) | ResumeInfrastructure => None
    | _ => infrastructure_blocked_from w end;
}.

Definition reports (c : WorkflowCommand) (w : Workflow) : list WorkflowEvent :=
  match c with
  | CandidateReady id => [CandidateSelected id]
  | VerificationFailed | VerificationRejected _ | Reject _ =>
      [RepairCycleConsumed (repair_cycles w + 1) (max_repair_cycles w)]
  | ResumeBlocked n => [RepairBudgetExtended (max_repair_cycles w) (max_repair_cycles w + n)]
  | RetryInfrastructure => [InfrastructureRetryAccepted]
  | _ => []
  end ++ if c is RetryInfrastructure then [] else [StateChanged (state w) (leads_to c w)].

(** The error of a command that is not accepted. *)
Definition refusal (c : WorkflowCommand) (w : Workflow) : TransitionError :=
  if decide (state w ∉ accepted_in c) then InvalidTransition else
  match c, current_candidate w with
  | (VerificationPassed | VerificationFailed | VerificationRejected _ | Reject _ | Approve _ | Deliver),
    None => MissingCandidate
  | (VerificationFailed | VerificationRejected _ | Reject _), _ => RepairBudgetOverflow
  | Approve _, _ => MandatoryGateFailed
  | BeginRepair, _ => MissingRepairTarget
  | ResumeBlocked n, _ =>
      if infrastructure_blocked_from w then InvalidTransition
      else if n =? 0 then InvalidAdditionalCycles else RepairBudgetOverflow
  | _, _ => InvalidTransition
  end.

#[export] Instance asks_dec c w : Decision (asks c w).
Proof. destruct c; simpl; apply _. Defined.

(** * Lemmas *)

Ltac run_apply :=
  cbv [workflow_apply workflow_transition workflow_reject require_candidate mbind method_bind
       mret method_ret m_get m_modify m_lift m_throw state_is is_none can_pause
       can_retry_infrastructure can_block_infrastructure workflow_is_terminal
       ok_or set_state set_mode set_candidate set_repair_target set_repair_cycles
       set_max_repair_cycles set_paused_from set_infrastructure_blocked_from
       state mode current_candidate repair_target repair_cycles max_repair_cycles
       paused_from infrastructure_blocked_from] in *.

(** Case analysis on the state, then on every match left in [H]. *)
Ltac apply_cases H :=
  run_apply; simpl in H;
  repeat match type of H with
  | context [match ?x with _ => _ end] =>
      match x with
      | context [match _ with _ => _ end] => fail 1
      | _ => destruct x eqn:?
      end
  end; simplify_eq/=.

Lemma workflow_apply_err_unchanged c w w' e :
  workflow_apply c w = (w', Err e) → w' = w.
Proof.
  destruct w as [st md cc rt rc mx pf ib]. intros H.
  destruct c, st; apply_cases H; done.
Qed.

Lemma step_rejected_at c target id w :
  (c = VerificationFailed ∧ target = RT_Execution ∧ state w = Verification ∨
   c = VerificationRejected target ∧ state w = Verification ∨
   c = Reject target ∧ state w = Arbitration) →
  current_candidate w = Some id →
  repair_cycles w + 1 ≤ u8_max →
  ∀ next, (if max_repair_cycles w <=? repair_cycles w + 1 then Blocked else Repair) = next →
  workflow_step w c
    (set_state next (set_repair_target (Some target) (set_repair_cycles (repair_cycles w + 1) w)))
    [RepairCycleConsumed (repair_cycles w + 1) (max_repair_cycles w); StateChanged (state w) next].
Proof. intros ??? next <-. by eapply step_rejected. Qed.

(** The rule of a command. *)
Ltac apply_step_rule :=
  match goal with
  | |- workflow_step ?w ?c _ _ =>
    lazymatch c with
    | CompleteIntake => eapply step_complete_intake
    | Route Quick => eapply step_route_quick
    | Route Full => eapply step_route_full
    | ArchitectureAccepted => eapply step_architecture
    | CandidateReady _ => eapply step_candidate
    | VerificationPassed => first [solve [eapply step_verified_quick; done] | eapply step_verified_full]
    | ReviewsReady => eapply step_reviews
    | Approve _ => eapply step_approve
    | Deliver => eapply step_deliver
    | BeginRepair => first [exact (step_begin_repair w RT_Execution eq_refl eq_refl)
                           | exact (step_begin_repair w RT_Architecture eq_refl eq_refl)]
    | Pause => eapply step_pause
    | Resume => eapply step_resume
    | Cancel => eapply step_cancel
    | RetryInfrastructure => eapply step_retry
    | ResumeBlocked _ => eapply step_resume_blocked
    | BlockInfrastructure => eapply step_block
    | ResumeInfrastructure => eapply step_resume_infrastructure
    | ReplanExecution => eapply step_replan
    | _ => eapply step_rejected_at
    end
  end; simpl; try match goal with E : (_ <=? _) = _ |- _ => rewrite E end; eauto 6.

Lemma workflow_apply_sound c w w' events :
  workflow_apply c w = (w', Ok events) → workflow_step w c w' events.
Proof.
  destruct w as [st md cc rt rc mx pf ib]. intros H.
  destruct c, st; apply_cases H;
    repeat match goal with
    | H : checked_add _ _ _ = Some _ |- _ => apply checked_add_some in H as [-> ?]
    | H : (?n =? 0) = false |- _ => apply N.eqb_neq in H
    | b : bool |- _ => destruct b; simplify_eq/=
    | t : RepairTarget, H : Some ?t = _ |- _ => destruct t
    end;
    apply_step_rule.
Qed.

Lemma workflow_step_complete w c w' events :
  workflow_step w c w' events → workflow_apply c w = (w', Ok events).
Proof.
  destruct w as [st md cc rt rc mx pf ib].
  intros Hs; inversion Hs; subst; simpl in *; subst; try done;
    destruct_or?; destruct_and?; subst; run_apply; simpl;
    repeat match goal with
    | H : context [match ?x with _ => _ end] |- _ => destruct x eqn:?; try done
    end; try done;
    repeat match goal with
    | H : ?n ≠ 0 |- context [?n =? 0] => rewrite (proj2 (N.eqb_neq n 0) H)
    | H : ?a + ?b ≤ _ |- context [checked_add _ ?a ?b] => rewrite (checked_add_fits _ _ _ H)
    end; try done; unfold next; destruct (mx <=? rc + 1); done.
Qed.

Lemma workflow_new_wf max : nonzero_u8 max → workflow_wf (workflow_new max).
Proof. unfold nonzero_u8, u8_max. split; cbn; naive_solver lia. Qed.

(** Where the two saved stages can be set. *)
Lemma workflow_wf_shape w : workflow_wf w →
  (paused_from w = None ∧ infrastructure_blocked_from w = None ∧ state w ≠ Paused) ∨
  (∃ s, state w = Paused ∧ paused_from w = Some s ∧ can_pause s = true ∧
        infrastructure_blocked_from w = None) ∨
  (∃ s, (state w = Blocked ∨ state w = Cancelled) ∧ paused_from w = None ∧
        infrastructure_blocked_from w = Some s ∧ can_block_infrastructure s = true).
Proof.
  intros [Hp Hi _ _ _ _ _ _ _ _].
  destruct (paused_from w) as [s|].
  - destruct Hp as [Hst Hs]. right; left. exists s.
    destruct (infrastructure_blocked_from w); [|done].
    destruct Hi as [[?|?] _]; congruence.
  - destruct (infrastructure_blocked_from w) as [s|]; [|by left].
    right; right. exists s. by destruct Hi.
Qed.

(** Compute the successor of a rule and check the invariant's fields. *)
Ltac finish_wf :=
  repeat match goal with
  | next := _ : WorkflowState |- _ => subst next
  | |- context [if ?b then Blocked else Repair] => destruct b eqn:?; to_prop
  | t : RepairTarget |- _ => destruct t
  end;
  try match goal with st : WorkflowState |- _ => destruct st; try done end;
  try match goal with
  | H : _ ≠ Blocked → _ ≠ Cancelled → _ < _ |- _ =>
      pose proof (H ltac:(discriminate) ltac:(discriminate))
  end;
  split; unfold origin; simpl; intros; destruct_or?; destruct_and?;
  try done; try lia; simplify_eq/=; eauto; try lia.

Lemma workflow_step_wf w c w' events :
  workflow_wf w → workflow_step w c w' events → workflow_wf w'.
Proof.
  intros Hwf Hs. pose proof (workflow_wf_shape w Hwf) as Hshape. revert Hwf.
  destruct w as [st md cc rt rc mx pf ib]; simpl in *.
  intros [Hp Hi Hc Ht Hm Hq Hr Hb Hroom Hex]; unfold origin in *; simpl in *.
  destruct Hshape as [(->&->&Hne)|[(s&->&->&Hs'&->)|(s&Hst&->&->&Hs')]].
  - inversion Hs; subst; simpl in *; subst; destruct_or?; destruct_and?; simplify_eq/=;
      finish_wf.
  - inversion Hs; subst; simpl in *; subst; destruct_or?; destruct_and?; simplify_eq/=;
      finish_wf.
  - destruct Hst as [->| ->]; inversion Hs; subst; simpl in *; subst;
      destruct_or?; destruct_and?; simplify_eq/=; finish_wf.
Qed.
Lemma reachable_wf log w : reachable log w → workflow_wf w.
Proof.
  intros (max&Hmax&Hacc). induction Hacc as [|log w c w' events _ IH Hc].
  - by apply workflow_new_wf.
  - eapply workflow_step_wf; [exact IH|]. by apply workflow_apply_sound.
Qed.

Lemma reachable_snoc log w c w' events :
  reachable log w → workflow_apply c w = (w', Ok events) → reachable (log ++ [c]) w'.
Proof. intros (max&Hmax&Hacc) Hc. exists max. split; [done|]. by econstructor. Qed.

Lemma since_candidate_snoc log c :
  since_candidate (log ++ [c]) = gate_step (since_candidate log) c.
Proof. unfold since_candidate. by rewrite fold_left_app. Qed.

(** A command other than a submission keeps the candidate's record. *)
Lemma gates_advance log w c w' :
  gates_recorded log w → (∀ id, c ≠ CandidateReady id) →
  (judges_candidate (origin w') = true →
   judges_candidate (origin w) = true ∧ current_candidate w' = current_candidate w ∧
   sublist (gates_passed (origin w') (mode w')) (gates_passed (origin w) (mode w) ++ [c])) →
  gates_recorded (log ++ [c]) w'.
Proof.
  intros Hrec Hc Hnext Hj. destruct (Hnext Hj) as (Hj0&Hcand&Hsub).
  destruct (Hrec Hj0) as (id&rest&Hlog&Hid&Hrest).
  exists id, (rest ++ [c]). rewrite since_candidate_snoc, Hlog. split_and!.
  - destruct c; try done. by destruct (Hc candidate_id).
  - congruence.
  - etrans; [exact Hsub|]. by apply sublist_app.
Qed.

Lemma gates_keep log w c w' :
  gates_recorded log w → (∀ id, c ≠ CandidateReady id) →
  origin w' = origin w → mode w' = mode w → current_candidate w' = current_candidate w →
  gates_recorded (log ++ [c]) w'.
Proof.
  intros Hrec Hc Ho Hm Hcand. apply (gates_advance log w); [done..|].
  rewrite Ho, Hm. intros. split_and!; [done..|]. by apply sublist_inserts_r.
Qed.

Lemma workflow_step_gates log w c w' events :
  workflow_wf w → gates_recorded log w → workflow_step w c w' events →
  gates_recorded (log ++ [c]) w'.
Proof.
  intros Hwf Hrec Hs. pose proof (workflow_wf_shape w Hwf) as Hshape.
  pose proof (wf_mode _ Hwf) as Hm. pose proof (wf_reviews _ Hwf) as Hr. clear Hwf.
  destruct w as [st md cc rt rc mx pf ib]; simpl in *.
  destruct Hs; simpl in *; subst;
    try (by intros ?);
    try (by apply (gates_keep log _ _ _ Hrec));
    try solve [apply (gates_advance log _ _ _ Hrec); [done|]; simpl; intros _;
      split_and!; [done|done|repeat constructor]].
  - intros _. exists id, []. by rewrite since_candidate_snoc.
  - apply (gates_advance log _ _ _ Hrec).
    { destruct_or?; destruct_and?; by subst. }
    assert (judges_candidate next = true ∧ next ≠ Paused) as [Hn ?].
    { subst next. by case_match. }
    intros _. split_and!; [destruct_or?; destruct_and?; by subst|done|].
    replace (gates_passed _ _) with (@nil WorkflowCommand); [apply sublist_nil_l|].
    subst next. unfold origin; simpl. case_match; [|done].
    destruct ib; [|done]. simpl. naive_solver.
  - apply (gates_advance log _ _ _ Hrec); [done|]; simpl; intros _.
    rewrite (Hr eq_refl). split_and!; [done|done|repeat constructor].
  - apply (gates_advance log _ _ _ Hrec); [done|]; simpl; intros _. by split_and!.
  - apply (gates_advance log _ _ _ Hrec); [done|]; simpl; intros _.
    by rewrite <-(assoc_L (++)).
  - subst next. intros ?. by destruct target.
  - apply (gates_keep log _ _ _ Hrec); [done| |done|done]. by destruct st.
  - apply (gates_keep log _ _ _ Hrec); [done| |done|done]. unfold origin; simpl. destruct s; naive_solver.
  - apply (gates_keep log _ _ _ Hrec); [done| |done|done]. by destruct st.
  - apply (gates_keep log _ _ _ Hrec); [done| |done|done]. unfold origin; simpl. destruct s; naive_solver.
Qed.

Lemma reachable_gates log w : reachable log w → gates_recorded log w.
Proof.
  intros (max&Hmax&Hacc). induction Hacc as [|log w c w' events Hacc IH Hc]; [by intros ?|].
  eapply workflow_step_gates; [|exact IH|by apply workflow_apply_sound].
  eapply reachable_wf. by exists max.
Qed.
Lemma gate_step_cases g c :
  (∃ id, c = CandidateReady id ∧ gate_step g c = Some (id, [])) ∨
  ((∀ id, c ≠ CandidateReady id) ∧ gate_step g c = prod_map id (λ rest, rest ++ [c]) <$> g).
Proof. destruct c; simpl; eauto; right; done. Qed.

Lemma since_candidate_split log id rest :
  since_candidate log = Some (id, rest) →
  ∃ pre, log = pre ++ CandidateReady id :: rest ∧ ∀ id', CandidateReady id' ∉ rest.
Proof.
  revert id rest. induction log as [|c log IH] using rev_ind; intros id rest; [done|].
  rewrite since_candidate_snoc. intros H.
  destruct (gate_step_cases (since_candidate log) c) as [(id'&->&Hg)|(Hc&Hg)];
    rewrite Hg in H.
  - simplify_eq/=. exists log. split; [done|]. by intros ? ?%elem_of_nil.
  - destruct (since_candidate log) as [[id0 rest0]|]; simplify_eq/=.
    destruct (IH id rest0 eq_refl) as (pre&->&Hrest). exists pre.
    rewrite <-(assoc_L (++)). split; [done|].
    intros id' [?|?%list_elem_of_singleton]%elem_of_app; naive_solver.
Qed.

Lemma accepted_trans w0 log1 w1 log2 w2 :
  accepted w0 log1 w1 → accepted w1 log2 w2 → accepted w0 (log1 ++ log2) w2.
Proof.
  intros H1 H2. induction H2 as [|log w c w' events _ IH Hc]; [by rewrite (right_id_L [] (++))|].
  rewrite (assoc_L (++)). by econstructor.
Qed.

Lemma replay_accepted w0 log w : replay w0 log = Some w → accepted w0 log w.
Proof.
  revert w0. induction log as [|c log IH]; simpl; intros w0 H; [simplify_eq; constructor|].
  destruct (workflow_apply c w0) as [w1 [events|]] eqn:Hc; [|done].
  apply (accepted_trans _ [c] w1); [|by apply IH].
  by apply (accepted_snoc w0 [] w0 c w1 events); [constructor|].
Qed.

Lemma reachable_replay max log w :
  nonzero_u8 max → replay (workflow_new max) log = Some w → reachable log w.
Proof. intros ? ?%replay_accepted. by exists max. Qed.

(** The planner's next command is accepted and shortens the way. *)
Lemma next_command_progress id w :
  workflow_wf w → workflow_is_terminal (state w) = false →
  (origin w = Blocked → max_repair_cycles w < u8_max) →
  ∃ w' events, workflow_apply (next_command id w) w = (w', Ok events) ∧
    (rank w' < rank w)%nat ∧ origin w' ≠ Cancelled ∧ origin w' ≠ Blocked.
Proof.
  intros Hwf Hterm Hmax. pose proof (workflow_wf_shape w Hwf) as Hshape.
  destruct Hwf as [Hp Hi Hc Ht Hm Hq Hr Hb Hroom Hex].
  destruct w as [st md cc rt rc mx pf ib]; unfold origin in *; simpl in *.
  destruct Hshape as [(->&->&Hne)|[(s&->&->&Hs'&->)|(s&Hst&->&->&Hs')]].
  - destruct st; try done; unfold next_command; simpl.
    all: try (destruct (Hc eq_refl) as [cid ->]).
    all: try (destruct (Hm eq_refl) as [[] ->]).
    all: try (destruct (Ht (or_introl eq_refl)) as [[] ->]).
    all: try (eexists _, _; split; [run_apply; simpl; reflexivity|]; unfold rank, origin; simpl; split; [lia|done]).
    all: specialize (Hmax eq_refl); eexists _, _; split;
      [apply workflow_step_complete, step_resume_blocked; simpl; solve [done | lia]|].
    all: unfold rank, origin; simpl; split; [lia|done].
  - eexists _, _; split; [run_apply; simpl; reflexivity|]. unfold rank, origin.
    destruct s; try done; simpl; split; lia || done.
  - destruct Hst as [->| ->]; [|done].
    eexists _, _; split; [run_apply; simpl; reflexivity|]. unfold rank, origin.
    destruct s; try done; simpl; split; lia || done.
Qed.

Lemma drive_terminal id n w :
  workflow_is_terminal (state w) = true → drive n id w = w.
Proof.
  intros Hterm. induction n as [|n IH]; simpl; [done|].
  enough (workflow_apply (next_command id w) w = (w, Err InvalidTransition)) as -> by done.
  destruct w as [[]]; done.
Qed.

Lemma drive_completes id n w log :
  (rank w ≤ n)%nat → reachable log w → origin w ≠ Cancelled →
  (origin w = Blocked → max_repair_cycles w < u8_max) →
  ∃ log', accepted w log' (drive n id w) ∧ state (drive n id w) = Completed.
Proof.
  revert w log. induction n as [|n IH]; intros w log Hn Hreach Hcan Hmax.
  - exists []. split; [constructor|]. unfold rank, origin in *. simpl.
    destruct (state w); simpl in *; try lia; try done.
    destruct (infrastructure_blocked_from w); lia.
  - destruct (workflow_is_terminal (state w)) eqn:Hterm.
    + exists []. rewrite drive_terminal by done. split; [constructor|].
      unfold origin in *. by destruct (state w).
    + pose proof (reachable_wf _ _ Hreach) as Hwf.
      destruct (next_command_progress id w Hwf Hterm Hmax) as (w'&events&Hc&Hlt&?&?).
      destruct (IH w' (log ++ [next_command id w])) as (log'&Hacc&Hdone);
        [lia|exact (reachable_snoc _ _ _ _ _ Hreach Hc)|done|by intros ?|].
      exists ([next_command id w] ++ log'). simpl drive. rewrite Hc; simpl. split; [|done].
      eapply (accepted_trans _ [next_command id w]); [|exact Hacc].
      apply (accepted_snoc _ [] w _ _ events); [constructor|done].
Qed.

Lemma accepted_counts w0 log w :
  accepted w0 log w →
  repair_cycles w = repair_cycles w0 + rejections log ∧
  max_repair_cycles w = max_repair_cycles w0 + extensions log.
Proof.
  induction 1 as [|log w c w' events _ [IHr IHm] Hc]; [by rewrite !N.add_0_r|].
  assert (extensions (log ++ [c]) = extensions log + extension c) as ->.
  { unfold extensions. clear. induction log; simpl in *; lia. }
  assert (rejections (log ++ [c]) = rejections log + (if is_rejection c then 1 else 0)) as ->.
  { unfold rejections. rewrite filter_app, length_app, Nat2N.inj_add. f_equal. by destruct c. }
  apply workflow_apply_sound in Hc.
  destruct Hc; simpl; try lia; destruct_or?; destruct_and?; subst; simpl; lia.
Qed.

(** The errors a reachable workflow can report. *)
Lemma workflow_apply_errors w c w' e :
  workflow_wf w → workflow_apply c w = (w', Err e) →
  e = InvalidTransition ∨
  (e = MandatoryGateFailed ∧ c = Approve false ∧ state w = Arbitration) ∨
  (e = InvalidAdditionalCycles ∧ c = ResumeBlocked 0) ∨
  (e = RepairBudgetOverflow ∧ ∃ n, c = ResumeBlocked n ∧ u8_max < max_repair_cycles w + n).
Proof.
  intros [Hp Hi Hc Ht Hm Hq Hr Hb Hroom Hex] H.
  destruct w as [st md cc rt rc mx pf ib]; unfold origin in *; simpl in *.
  destruct c, st; apply_cases H; try (by left);
    repeat match goal with
    | b : bool |- _ => destruct b; simplify_eq/=
    | H : checked_add _ _ _ = None |- _ => apply checked_add_none in H
    | H : ?x = ?x → _ |- _ => specialize (H eq_refl)
    | H : _ ∨ _ → _ |- _ => specialize (H (or_introl eq_refl))
    | H : is_Some None |- _ => by destruct H
    | H : (_ =? _) = true |- _ => apply N.eqb_eq in H
    end; subst;
    try solve [right; left; done | right; right; left; done
              | right; right; right; split; [done|]; eexists; done].
  all: exfalso; assert (rc < mx) by (apply Hroom; discriminate); lia.
Qed.

Lemma effect_unique c w w1 w2 : effect c w w1 → effect c w w2 → w1 = w2.
Proof. destruct w1, w2. intros [] []; simpl in *; congruence. Qed.

(** Refute that a literal state is, or is not, in a literal list. *)
Ltac refute_state H :=
  exfalso; cbn [accepted_in] in H;
  first [ solve [repeat (apply elem_of_cons in H as [H|H]; [discriminate H|]); by apply elem_of_nil in H]
        | solve [apply H; repeat constructor] ].

Lemma apply_allowed c w :
  state w ∈ accepted_in c → asks c w →
  ∃ w', workflow_apply c w = (w', Ok (reports c w)) ∧ effect c w w'.
Proof.
  destruct w as [st md cc rt rc mx pf ib]. cbn [state]. intros Hin Hasks.
  destruct c, st; try refute_state Hin; simpl in Hasks;
    destruct_and?; repeat match goal with H : is_Some _ |- _ => destruct H as [? H] end; subst;
    try match goal with m : WorkflowMode |- _ => destruct m end;
    try match goal with t : RepairTarget |- _ => destruct t end.
  all: run_apply; unfold reports, leads_to; simpl.
  all: rewrite ?checked_add_fits by (unfold u8_max; lia).
  all: try match goal with H : 0 < ?n |- context [?n =? 0] => rewrite (proj2 (N.eqb_neq n 0)) by lia end.
  all: try match goal with |- context [?a <=? ?b] => rewrite (N.leb_antisym b a) end.
  all: try match goal with |- context [?a <? ?b] => destruct (a <? b) eqn:? end.
  all: eexists; split; [reflexivity|]; split; simpl; try reflexivity.
  all: by rewrite ?Heqb.
Qed.


Lemma apply_refused c w :
  ¬ (state w ∈ accepted_in c ∧ asks c w) → workflow_apply c w = (w, Err (refusal c w)).
Proof.
  intros Hnot. assert (state w ∈ accepted_in c → ¬ asks c w) as Hasks by tauto. clear Hnot. revert Hasks.
  destruct w as [st md cc rt rc mx pf ib]. unfold refusal. cbn [state current_candidate
    infrastructure_blocked_from]. intros Hasks.
  destruct c, st; case_decide as Hd; try (refute_state Hd); try reflexivity; clear Hd.
  all: specialize (Hasks ltac:(cbn [accepted_in]; repeat constructor)); simpl in Hasks.
  all: try (by destruct Hasks).
  all: try match goal with H : ¬ is_Some ?o |- _ =>
    destruct o; [by exfalso; apply H|reflexivity] end.
  all: try (destruct cc as [id|]; [|reflexivity]).
  all: try (assert (255 ≤ rc) by (apply N.nlt_ge; intros ?; apply Hasks; eauto);
    run_apply; simpl; rewrite (proj2 (checked_add_none u8_max rc 1)) by (unfold u8_max; lia); reflexivity).
  - destruct md; [by exfalso; apply Hasks|reflexivity].
  - destruct mandatory_gates_passed; [by exfalso; apply Hasks|reflexivity].
  - destruct ib; [reflexivity|]. run_apply; simpl. destruct (additional_cycles =? 0) eqn:Hz; [reflexivity|].
    apply N.eqb_neq in Hz.
    rewrite (proj2 (checked_add_none u8_max mx additional_cycles)); [reflexivity|].
    apply N.nle_gt. unfold u8_max. intros ?. apply Hasks. split_and!; [done|lia|done].
Qed.
(** * The properties of the workflow *)

(** A full workflow whose first candidate fails verification. *)
Definition sample_log : list WorkflowCommand :=
  [CompleteIntake; Route Full; ArchitectureAccepted; CandidateReady (word_of 128 1);
   VerificationFailed; BeginRepair; Pause; Resume; CandidateReady (word_of 128 2);
   BlockInfrastructure; ResumeInfrastructure; VerificationPassed; ReviewsReady;
   Approve true; Deliver].
Definition sample_state (n : nat) : Workflow :=
  default workflow_default (replay (workflow_new 3) (take n sample_log)).

Lemma sample_reachable n :
  (n ≤ length sample_log)%nat → reachable (take n sample_log) (sample_state n).
Proof.
  intros Hn. apply (reachable_replay 3); [by split|].
  unfold sample_state. do 16 (destruct n as [|n]; [by vm_compute|]). simpl in Hn. lia.
Qed.

(** C5. No workflow completes without its gates: when a run from
    [Workflow::new] has reached [Completed], the candidate the workflow points
    at is the last one submitted, and after that submission the run holds, in
    order, the verification that passed, the independent reviews for a full
    workflow, the approval with every mandatory gate passed, and the delivery. *)
Theorem completed_passed_gates log w :
  reachable log w → state w = Completed →
  ∃ pre id rest,
    log = pre ++ CandidateReady id :: rest ∧ (∀ id', CandidateReady id' ∉ rest) ∧
    current_candidate w = Some id ∧
    sublist (gates_before_approval (mode w) ++ [Approve true] ++ [Deliver]) rest.
Proof.
  intros Hreach Hst. pose proof (reachable_gates _ _ Hreach) as Hg.
  unfold gates_recorded, origin in Hg. rewrite Hst in Hg.
  destruct (Hg eq_refl) as (id&rest&(pre&->&Hrest)%since_candidate_split&Hid&Hsub).
  by exists pre, id, rest.
Qed.

Lemma completed_passed_gates_witness :
  reachable sample_log (sample_state 15) ∧ state (sample_state 15) = Completed ∧
  ∃ pre id rest,
    sample_log = pre ++ CandidateReady id :: rest ∧ (∀ id', CandidateReady id' ∉ rest) ∧
    current_candidate (sample_state 15) = Some id ∧
    sublist (gates_before_approval (mode (sample_state 15)) ++ [Approve true] ++ [Deliver]) rest.
Proof.
  split; [exact (sample_reachable 15 (le_n 15))|]. split; [reflexivity|].
  apply completed_passed_gates; [exact (sample_reachable 15 (le_n 15))|reflexivity].
Defined.

(** [apply] is exactly the transition relation: it accepts a command with
    a successor and events if and only if a rule of the relation gives them. *)
Theorem workflow_apply_refines_step w c w' events :
  workflow_apply c w = (w', Ok events) ↔ workflow_step w c w' events.
Proof. split; [apply workflow_apply_sound|apply workflow_step_complete]. Qed.

(** C21. [apply] is given by a table, on every workflow and command: a command is
    accepted exactly in the states listed for it, when the candidate, the mode,
    the saved stages and the repair budget it asks for are there; it then leads
    to the state of the table, writes the fields it should and no other, and
    reports exactly its events. Any other command leaves the workflow as it was
    and gives the error of the first thing that is missing. *)
Theorem workflow_apply_by_table c w w' r :
  workflow_apply c w = (w', r) ↔
  (state w ∈ accepted_in c ∧ asks c w ∧ effect c w w' ∧ r = Ok (reports c w)) ∨
  (¬ (state w ∈ accepted_in c ∧ asks c w) ∧ w' = w ∧ r = Err (refusal c w)).
Proof.
  split.
  - intros Hrun. destruct (decide (state w ∈ accepted_in c ∧ asks c w)) as [[Hin Hasks]|Hnot].
    + left. destruct (apply_allowed c w Hin Hasks) as (w1&Hrun1&?).
      rewrite Hrun in Hrun1. injection Hrun1 as -> ->. done.
    + right. rewrite apply_refused in Hrun by done. injection Hrun as <- <-. done.
  - intros [(Hin&Hasks&He&->)|(Hnot&->&->)]; [|by apply apply_refused].
    destruct (apply_allowed c w Hin Hasks) as (w1&->&He1). by rewrite (effect_unique _ _ _ _ He He1).
Qed.

(** C22. The representation invariant holds of every workflow a run reaches:
    saved stages exist exactly where they are needed, a judged candidate and a
    repair target are present where the handlers require them, and the repair
    budget is respected. *)
Theorem reachable_well_formed log w : reachable log w → workflow_wf w.
Proof. apply reachable_wf. Qed.

Lemma reachable_well_formed_witness :
  reachable (take 7 sample_log) (sample_state 7) ∧ workflow_wf (sample_state 7).
Proof.
  assert (reachable (take 7 sample_log) (sample_state 7)) as H.
  { apply sample_reachable. simpl. lia. }
  split; [exact H|]. exact (reachable_well_formed _ _ H).
Defined.

(** C13. The repair budget: the cycle counter of a reachable workflow is the
    number of rejections of its run and its limit is the initial limit plus the
    granted extensions, within a [u8]; the counter never exceeds the limit, is
    below it while the workflow can still work, and equals it when the workflow
    is blocked on its budget. *)
Theorem repair_budget_exact max log w :
  nonzero_u8 max → accepted (workflow_new max) log w →
  repair_cycles w = rejections log ∧
  max_repair_cycles w = max + extensions log ∧
  repair_cycles w ≤ max_repair_cycles w ≤ u8_max ∧
  (origin w ≠ Blocked → origin w ≠ Cancelled → repair_cycles w < max_repair_cycles w) ∧
  (origin w = Blocked → repair_cycles w = max_repair_cycles w).
Proof.
  intros Hmax Hacc.
  assert (workflow_wf w) as Hwf by (eapply reachable_wf; by exists max).
  destruct (accepted_counts _ _ _ Hacc) as [Hr Hm]. simpl in *.
  split_and!; [lia|lia|apply Hwf..].
Qed.

Lemma repair_budget_exact_witness :
  repair_cycles (sample_state 15) = 1 ∧ max_repair_cycles (sample_state 15) = 3.
Proof.
  destruct (repair_budget_exact 3 sample_log (sample_state 15)) as (Hr&Hm&_).
  - split; done.
  - apply replay_accepted. vm_compute. reflexivity.
  - split; [exact Hr|exact Hm].
Defined.

(** A rejected command changes nothing, and of a reachable workflow the
    only errors are an invalid transition, an approval without its gates, an
    empty extension of the budget and an extension past the width of the
    counter: the errors for a missing candidate or repair target are never
    reported. *)
Theorem rejected_command_errors log w c w' e :
  reachable log w → workflow_apply c w = (w', Err e) →
  w' = w ∧
  (e = InvalidTransition ∨
   (e = MandatoryGateFailed ∧ c = Approve false ∧ state w = Arbitration) ∨
   (e = InvalidAdditionalCycles ∧ c = ResumeBlocked 0) ∨
   (e = RepairBudgetOverflow ∧ ∃ n, c = ResumeBlocked n ∧ u8_max < max_repair_cycles w + n)).
Proof.
  intros Hreach H. split; [by eapply workflow_apply_err_unchanged|].
  eapply workflow_apply_errors; [by eapply reachable_wf|done].
Qed.

Lemma rejected_command_errors_witness :
  workflow_apply (Approve false) (sample_state 13) = (sample_state 13, Err MandatoryGateFailed) ∧
  (MandatoryGateFailed = InvalidTransition ∨
   (MandatoryGateFailed = MandatoryGateFailed ∧ Approve false = Approve false ∧
    state (sample_state 13) = Arbitration) ∨
   (MandatoryGateFailed = InvalidAdditionalCycles ∧ Approve false = ResumeBlocked 0) ∨
   (MandatoryGateFailed = RepairBudgetOverflow ∧
    ∃ n, Approve false = ResumeBlocked n ∧ u8_max < max_repair_cycles (sample_state 13) + n)).
Proof.
  split; [vm_compute; reflexivity|].
  apply (rejected_command_errors (take 13 sample_log) (sample_state 13) (Approve false)
           (sample_state 13)); [|vm_compute; reflexivity].
  apply sample_reachable. simpl. lia.
Defined.

(** C20. No reachable workflow is stuck: unless it was cancelled, or is blocked
    on a budget that cannot grow any more, at most nine further commands, all
    accepted, complete it. *)
Theorem every_workflow_can_complete id log w :
  reachable log w → origin w ≠ Cancelled →
  (origin w = Blocked → max_repair_cycles w < u8_max) →
  ∃ log', accepted w log' (drive 9 id w) ∧ state (drive 9 id w) = Completed.
Proof.
  intros Hreach. apply drive_completes with (log := log); [|done].
  destruct (workflow_wf_shape w (reachable_wf _ _ Hreach))
    as [(_&Hib&Hne)|[(s&Hst&Hpf&Hs&_)|(s&Hst&_&Hib&Hs)]]; unfold rank, origin.
  - destruct (state w); rewrite ?Hib; simpl; try lia. done.
  - rewrite Hst, Hpf. destruct s; simpl in *; try done; lia.
  - destruct Hst as [-> | ->]; rewrite ?Hib; destruct s; simpl in *; try done; lia.
Qed.

Lemma every_workflow_can_complete_witness :
  state (sample_state 7) = Paused ∧ state (drive 9 (word_of 128 9) (sample_state 7)) = Completed.
Proof.
  split; [reflexivity|].
  destruct (every_workflow_can_complete (word_of 128 9) (take 7 sample_log) (sample_state 7))
    as (log'&_&H).
  - apply sample_reachable. simpl. lia.
  - discriminate.
  - discriminate.
  - exact H.
Defined.
End Workflow.
