(* ===== verification/TaskMachine.v ===== *)
(** The task state machine of workflow-core/src/task.rs and the execution lease
    of workflow-core/src/lease.rs. *)
From S2P Require Import Prelude Text Ids WorkflowMachine.

(** * Tasks *)

Module Task.
Local Open Scope N_scope.

Inductive TaskState : Type :=
| Pending | Ready | Leased | Running | Verifying | Completed | Failed | Blocked | Cancelled.

#[export] Instance TaskState_eq_dec : EqDecision TaskState.
Proof. solve_decision. Defined.

Definition task_is_terminal (s : TaskState) : bool :=
  match s with Completed | Failed | Cancelled => true | _ => false end.

Inductive TaskCommand : Type :=
| DependenciesSatisfied
| LeaseTask
| Start
| SubmitCandidate
| VerificationPassed (mandatory_gates_passed : bool)
| VerificationFailed (retryable : bool)
| Block
| Unblock
| Cancel.

#[export] Instance TaskCommand_eq_dec : EqDecision TaskCommand.
Proof. solve_decision. Defined.

Inductive TaskEvent : Type :=
| StateChanged (from to : TaskState)
| AttemptStarted (attempt : N).

(** [attempts] is a [u32]. *)
Record Task : Type := {
  state : TaskState;
  attempts : N;
}.

Definition task_new : Task := {| state := Pending; attempts := 0 |}.

Definition set_state (s : TaskState) (t : Task) : Task := {| state := s; attempts := attempts t |}.
Definition set_attempts (n : N) (t : Task) : Task := {| state := state t; attempts := n |}.

Definition task_transition (to : TaskState)
    : method Task Workflow.TransitionError (list TaskEvent) :=
  t ← m_get;
  _ ← m_modify (set_state to);
  mret [StateChanged (state t) to].

Definition state_is (s : TaskState) (t : Task) : bool := bool_decide (state t = s).

(** [Task::apply]. *)
Definition task_apply (command : TaskCommand)
    : method Task Workflow.TransitionError (list TaskEvent) :=
  t ← m_get;
  let invalid := m_throw Workflow.InvalidTransition in
  match command with
  | DependenciesSatisfied => if state_is Pending t then task_transition Ready else invalid
  | LeaseTask => if state_is Ready t then task_transition Leased else invalid
  | Start =>
      if state_is Leased t then
        let attempts := saturating_add u32_max (attempts t) 1 in
        _ ← m_modify (set_attempts attempts);
        changed ← task_transition Running;
        mret ([AttemptStarted attempts] ++ changed)
      else invalid
  | SubmitCandidate => if state_is Running t then task_transition Verifying else invalid
  | VerificationPassed mandatory_gates_passed =>
      if state_is Verifying t then
        if negb mandatory_gates_passed then m_throw Workflow.MandatoryGateFailed
        else task_transition Completed
      else invalid
  | VerificationFailed retryable =>
      if state_is Verifying t then task_transition (if retryable then Ready else Failed)
      else invalid
  | Block =>
      if negb (task_is_terminal (state t)) && negb (state_is Blocked t)
      then task_transition Blocked else invalid
  | Unblock => if state_is Blocked t then task_transition Ready else invalid
  | Cancel =>
      if negb (task_is_terminal (state t)) then task_transition Cancelled else invalid
  end.

(** The accepted commands of a run from [Task::new]. *)
Inductive task_run : list TaskCommand → Task → Prop :=
| task_run_new : task_run [] task_new
| task_run_apply log t c t' events :
    task_run log t → task_apply c t = (t', Ok events) → task_run (log ++ [c]) t'.

Fixpoint task_replay (t : Task) (log : list TaskCommand) : option Task :=
  match log with
  | [] => Some t
  | c :: log' => match task_apply c t with
                 | (t', Ok _) => task_replay t' log'
                 | (_, Err _) => None
                 end
  end.

Definition is_start (c : TaskCommand) : bool := match c with Start => true | _ => false end.
Definition starts (log : list TaskCommand) : N :=
  N.of_nat (length (filter (λ c, is_start c = true) log)).

(** The commands a task at a stage has just been given. *)
Definition attempt_steps (s : TaskState) : list TaskCommand :=
  match s with
  | Leased => [LeaseTask]
  | Running => [LeaseTask; Start]
  | Verifying => [LeaseTask; Start; SubmitCandidate]
  | Completed => [LeaseTask; Start; SubmitCandidate; VerificationPassed true]
  | Failed => [LeaseTask; Start; SubmitCandidate; VerificationFailed false]
  | _ => []
  end.

(** The ways a task becomes ready for the first time. *)
Definition was_released (log : list TaskCommand) : Prop :=
  DependenciesSatisfied ∈ log ∨ Unblock ∈ log.

Record task_traced (log : list TaskCommand) (t : Task) : Prop := {
  tt_attempts : attempts t = N.min u32_max (starts log);
  tt_steps : attempt_steps (state t) `suffix_of` log;
  tt_released : match state t with
                | Pending | Blocked | Cancelled => True
                | _ => was_released log
                end;
}.

Lemma starts_snoc log c :
  starts (log ++ [c]) = starts log + (if is_start c then 1 else 0).
Proof.
  unfold starts. rewrite filter_app, length_app, Nat2N.inj_add. f_equal. by destruct c.
Qed.

Lemma suffix_snoc {A} (l k : list A) x : l `suffix_of` k → l ++ [x] `suffix_of` k ++ [x].
Proof. intros [p ->]. exists p. by rewrite (assoc_L (++)). Qed.

Lemma was_released_snoc log c : was_released log → was_released (log ++ [c]).
Proof. unfold was_released. rewrite !elem_of_app. tauto. Qed.

Lemma released_by log c : c = DependenciesSatisfied ∨ c = Unblock → was_released (log ++ [c]).
Proof. unfold was_released. rewrite !elem_of_app, !list_elem_of_singleton. naive_solver. Qed.

Ltac task_cases H :=
  unfold task_apply, task_transition, state_is in H; run_method in H; simpl in H;
  repeat match type of H with
  | context [match ?x with _ => _ end] =>
      match x with
      | context [match _ with _ => _ end] => fail 1
      | _ => destruct x eqn:?
      end
  end; simplify_eq/=.

Lemma task_apply_err_unchanged c t t' e : task_apply c t = (t', Err e) → t' = t.
Proof. destruct t as [[]], c; intros H; task_cases H; done. Qed.

Lemma task_run_traced log t : task_run log t → task_traced log t.
Proof.
  induction 1 as [|log t c t' events _ [Ha Hs Hr] Hc]; [by split; [|exists []|]|].
  destruct t as [st n]; simpl in *.
  destruct c as [| | | |[]| | | |], st; task_cases Hc;
    (split; simpl; [rewrite starts_snoc; unfold saturating_add; simpl; lia
      | first [apply suffix_nil | by apply (suffix_snoc [_; _; _]) | by apply (suffix_snoc [_; _])
              | by apply (suffix_snoc [_]) | by apply (suffix_snoc [])]
      | first [done | by apply was_released_snoc | by apply released_by; auto]]).
Qed.

Lemma task_replay_run log0 t0 log t :
  task_run log0 t0 → task_replay t0 log = Some t → task_run (log0 ++ log) t.
Proof.
  revert log0 t0. induction log as [|c log IH]; intros log0 t0 Hrun H; simpl in H.
  - simplify_eq. by rewrite (right_id_L [] (++)).
  - destruct (task_apply c t0) as [t1 [events|]] eqn:Hc; [|done].
    rewrite cons_middle, (assoc_L (++)). apply (IH _ t1); [|done]. by econstructor.
Qed.

(** A task completes only as the end of one uninterrupted attempt: the last
    four commands of a completed task's run are the lease, the start, the
    candidate and the verification that passed with the mandatory gates; the
    attempt counter is the number of starts, saturating at the width of a
    [u32]; and a task that is not pending, blocked or cancelled was released
    by its dependencies or unblocked. *)
Theorem task_completes_through_attempt log t :
  task_run log t →
  (state t = Completed → ∃ pre,
     log = pre ++ [LeaseTask; Start; SubmitCandidate; VerificationPassed true]) ∧
  attempts t = N.min u32_max (starts log) ∧
  (state t ∉ [Pending; Blocked; Cancelled] → was_released log).
Proof.
  intros [Ha Hs Hr]%task_run_traced. split_and!; [|done|].
  - intros Hst. by rewrite Hst in Hs.
  - destruct (state t); try done; set_solver.
Qed.
Lemma task_completes_through_attempt_witness :
  ∃ pre, [DependenciesSatisfied; LeaseTask; Start; Block; Unblock; LeaseTask; Start;
          SubmitCandidate; VerificationPassed true] =
    pre ++ [LeaseTask; Start; SubmitCandidate; VerificationPassed true].
Proof.
  apply (task_completes_through_attempt _ {| state := Completed; attempts := 2 |}).
  - apply (task_replay_run [] task_new); [constructor|]. vm_compute. reflexivity.
  - reflexivity.
Defined.
End Task.

(** * Leases *)

Module Lease.
Local Open Scope Z_scope.

Inductive ActionSafety : Type := Idempotent | NonIdempotent.

Inductive LeaseReconciliation : Type := Active | Replayable | ManualReviewRequired.

(** The times are [i64] milliseconds. *)
Record Lease : Type := {
  lease_id : LeaseId;
  task_id : TaskId;
  owner : SessionId;
  acquired_at_unix_millis : Z;
  expires_at_unix_millis : Z;
  safety : ActionSafety;
}.

Inductive LeaseError : Type := Expired | InvalidDuration | TimeOverflow.

(** [Lease::acquire]; the identifier is the one [LeaseId::new] draws. *)
Definition lease_acquire (new_id : LeaseId) (task_id : TaskId) (owner : SessionId)
    (now_unix_millis duration_millis : Z) (safety : ActionSafety) : result LeaseError Lease :=
  if duration_millis <=? 0 then Err InvalidDuration else
  expires ← ok_or TimeOverflow (i64_checked_add now_unix_millis duration_millis);
  Ok {| lease_id := new_id; task_id := task_id; owner := owner;
        acquired_at_unix_millis := now_unix_millis; expires_at_unix_millis := expires;
        safety := safety |}.

Definition set_expires (t : Z) (l : Lease) : Lease :=
  {| lease_id := lease_id l; task_id := task_id l; owner := owner l;
     acquired_at_unix_millis := acquired_at_unix_millis l; expires_at_unix_millis := t;
     safety := safety l |}.

Definition lease_heartbeat (now_unix_millis duration_millis : Z) : method Lease LeaseError unit :=
  l ← m_get;
  if expires_at_unix_millis l <? now_unix_millis then m_throw Expired
  else if duration_millis <=? 0 then m_throw InvalidDuration
  else
    expires ← m_lift (ok_or TimeOverflow (i64_checked_add now_unix_millis duration_millis));
    m_modify (set_expires expires).

Definition lease_reconcile (l : Lease) (now_unix_millis : Z) : LeaseReconciliation :=
  if now_unix_millis <=? expires_at_unix_millis l then Active
  else match safety l with
       | Idempotent => Replayable
       | NonIdempotent => ManualReviewRequired
       end.

(** The heartbeats of a lease, the time and duration of each. *)
Fixpoint heartbeats (l : Lease) (beats : list (Z * Z)) : result LeaseError Lease :=
  match beats with
  | [] => Ok l
  | (now, duration) :: beats' =>
      match lease_heartbeat now duration l with
      | (l', Ok _) => heartbeats l' beats'
      | (_, Err e) => Err e
      end
  end.

(** The deadline after each beat, and that no beat came after it. *)
Fixpoint beats_in_time (deadline : Z) (beats : list (Z * Z)) : Prop :=
  match beats with
  | [] => True
  | (now, duration) :: beats' =>
      now ≤ deadline ∧ 0 < duration ∧ i64_min ≤ now + duration ≤ i64_max ∧
      beats_in_time (now + duration) beats'
  end.
Definition last_deadline (deadline : Z) (beats : list (Z * Z)) : Z :=
  foldl (λ _ beat, beat.1 + beat.2) deadline beats.

Lemma lease_heartbeat_ok l l' now d u :
  lease_heartbeat now d l = (l', Ok u) ↔
  now ≤ expires_at_unix_millis l ∧ 0 < d ∧ i64_min ≤ now + d ≤ i64_max ∧
  l' = set_expires (now + d) l.
Proof.
  destruct u. unfold lease_heartbeat. run_method.
  destruct (_ <? _) eqn:He; to_prop; [split; [done|lia]|].
  destruct (d <=? 0) eqn:Hd; to_prop; [split; [done|lia]|].
  destruct (i64_checked_add now d) as [e|] eqn:Hc; simpl.
  - apply i64_checked_add_some in Hc as [-> ?]. split; [intros [= <-]; done|].
    by intros (_&_&_&->).
  - split; [done|]. intros (_&_&?&_).
    assert (i64_checked_add now d = Some (now + d)) by by apply i64_checked_add_some.
    congruence.
Qed.

Lemma heartbeats_ok l beats l' :
  heartbeats l beats = Ok l' ↔
  beats_in_time (expires_at_unix_millis l) beats ∧
  l' = set_expires (last_deadline (expires_at_unix_millis l) beats) l.
Proof.
  revert l. induction beats as [|[now d] beats IH]; intros l; simpl.
  { destruct l; unfold set_expires; simpl. naive_solver. }
  destruct (lease_heartbeat now d l) as [l1 [[]|e]] eqn:Hb.
  - apply lease_heartbeat_ok in Hb as (?&?&?&->). rewrite IH. simpl. split.
    + by intros [? ->].
    + by intros [(_&_&_&?) ->].
  - split; [done|]. intros [(?&?&?&_) _].
    assert (lease_heartbeat now d l = (set_expires (now + d) l, Ok tt)); [|congruence].
    by apply lease_heartbeat_ok.
Qed.

(** A lease lives exactly from beat to beat: a lease taken at [now] for
    [duration] accepts a sequence of heartbeats if and only if each comes no
    later than the deadline before it, for a positive duration that fits an
    [i64]; afterwards it is active up to the last beat's deadline and past it
    is replayed or left to a manual review by the safety of its action; an
    expired lease is never revived. *)
Theorem lease_lives_between_beats id task owner now duration s l beats :
  lease_acquire id task owner now duration s = Ok l →
  (is_Some (match heartbeats l beats with Ok l' => Some l' | Err _ => None end) ↔
   beats_in_time (now + duration) beats) ∧
  (∀ l', heartbeats l beats = Ok l' → ∀ t, lease_reconcile l' t =
     if t <=? last_deadline (now + duration) beats then Active
     else match s with Idempotent => Replayable | NonIdempotent => ManualReviewRequired end).
Proof.
  unfold lease_acquire. case_match; [done|]. rewrite result_bind_ok.
  intros (e&He%ok_or_ok%i64_checked_add_some&[= <-]). destruct He as [-> _]. split.
  - split.
    + intros [l' Hl']. destruct (heartbeats _ beats) as [l1|] eqn:Hb; [|done].
      apply heartbeats_ok in Hb as [? _]. done.
    + intros Hb. set (l := {| lease_id := id |}).
      assert (heartbeats l beats = Ok (set_expires (last_deadline (now + duration) beats) l))
        as -> by by apply heartbeats_ok. done.
  - by intros l' [_ ->]%heartbeats_ok t.
Qed.
Lemma lease_lives_between_beats_witness :
  let l := {| lease_id := word_of 128 1; task_id := word_of 128 2; owner := word_of 128 3;
              acquired_at_unix_millis := 1000; expires_at_unix_millis := 1500;
              safety := NonIdempotent |} in
  lease_acquire (word_of 128 1) (word_of 128 2) (word_of 128 3) 1000 500 NonIdempotent = Ok l ∧
  (is_Some (match heartbeats l [(1400, 500); (1900, 100)] with Ok l' => Some l' | Err _ => None end)
   ↔ beats_in_time 1500 [(1400, 500); (1900, 100)]).
Proof.
  intros l. split; [reflexivity|].
  exact (proj1 (lease_lives_between_beats (word_of 128 1) (word_of 128 2) (word_of 128 3)
    1000 500 NonIdempotent l [(1400, 500); (1900, 100)] eq_refl)).
Defined.
End Lease.
