(* ===== verification/Requests.v ===== *)
(** The request record of workflow-core/src/request.rs: the original text of a
    request, the digests of its attachments and its numbered amendments, with
    the loading check and the canonical digests. *)
From Stdlib Require Import Ascii String.
From S2P Require Import Prelude Text Ids Canonical.

Module Request.

Definition LEGACY_PROTOCOL_V1_REQUEST_AMENDMENT_DOMAIN : string :=
  "opencode-workflow/request-amendment/v1".
Definition LEGACY_PROTOCOL_V1_REQUEST_DOMAIN : string := "opencode-workflow/request/v1".

(** [sequence] is a [u32]. *)
Record RequestAmendment : Type := {
  sequence : N;
  text : string;
  received_at : WorkflowTimestamp;
}.

Record RequestRecord : Type := {
  original_text : string;
  attachment_hashes : list ContentDigest;
  amendments : list RequestAmendment;
}.

(** The record as it is read, before its check. *)
Record RequestRecordUnchecked : Type := {
  u_original_text : string;
  u_attachment_hashes : list ContentDigest;
  u_amendments : list RequestAmendment;
}.

Inductive RequestError : Type := InvalidAmendmentSequence | TooManyAmendments.

#[export] Instance RequestAmendment_eq_dec : EqDecision RequestAmendment.
Proof. solve_decision. Defined.
#[export] Instance RequestRecord_eq_dec : EqDecision RequestRecord.
Proof. solve_decision. Defined.
#[export] Instance RequestError_eq_dec : EqDecision RequestError.
Proof. solve_decision. Defined.

(** [u32::try_from(n)?.checked_add(1)?]: the number of the next amendment. *)
Definition next_sequence (n : nat) : result RequestError N :=
  index ← (if N.of_nat n <=? u32_max then Ok (N.of_nat n) else Err TooManyAmendments)%N;
  ok_or TooManyAmendments (checked_add u32_max index 1).

(** The loop of [TryFrom<RequestRecordUnchecked>] over [enumerate()]. *)
Definition check_amendment (entry : nat * RequestAmendment) : result RequestError unit :=
  expected ← next_sequence entry.1;
  reject_if (negb (sequence entry.2 =? expected)%N) InvalidAmendmentSequence.

Definition enumerate {A} (xs : list A) : list (nat * A) := imap pair xs.

Definition request_try_from (value : RequestRecordUnchecked)
    : result RequestError RequestRecord :=
  _ ← try_for_each check_amendment (enumerate (u_amendments value));
  Ok {| original_text := u_original_text value;
        attachment_hashes := u_attachment_hashes value;
        amendments := u_amendments value |}.

Definition request_new (original_text : string) (attachment_hashes : list ContentDigest)
    : RequestRecord :=
  {| original_text := original_text; attachment_hashes := attachment_hashes; amendments := [] |}.

Definition append_amendment (text : string) (received_at : WorkflowTimestamp)
    : method RequestRecord RequestError unit :=
  r ← m_get;
  sequence ← m_lift (next_sequence (length (amendments r)));
  m_modify (λ r, {| original_text := original_text r; attachment_hashes := attachment_hashes r;
    amendments := amendments r ++
      [{| sequence := sequence; text := text; received_at := received_at |}] |}).

(** The record as [Serialize] writes it and [Deserialize] reads it back. *)
Definition unchecked (r : RequestRecord) : RequestRecordUnchecked :=
  {| u_original_text := original_text r; u_attachment_hashes := attachment_hashes r;
     u_amendments := amendments r |}.

Section digests.
Context `{Sha256, Rfc3339}.

(** The writes [RequestAmendment::digest] makes, also made for each amendment
    by [RequestRecord::digest]. *)
Definition write_amendment : RequestAmendment → writer :=
  write_seq (λ a, write_u64 (sequence a))
    (write_seq (λ a, write_str (text a)) (λ a, write_text (timestamp_to_string (received_at a)))).

Definition amendment_digest (a : RequestAmendment) : option ContentDigest :=
  hasher_finish <$> message LEGACY_PROTOCOL_V1_REQUEST_AMENDMENT_DOMAIN write_amendment a.

(** The attachments are hashed in sorted order ([sort_unstable]). *)
Definition write_request : RequestRecord → writer :=
  write_seq (λ r, write_str (original_text r))
    (write_seq (λ r, write_list write_digest (sort_unstable (attachment_hashes r)))
       (λ r, write_list write_amendment (amendments r))).

Definition request_digest (r : RequestRecord) : option ContentDigest :=
  hasher_finish <$> message LEGACY_PROTOCOL_V1_REQUEST_DOMAIN write_request r.

(** * Lemmas *)

(** A [u32] sequence number. *)
Definition amendment_ok (a : RequestAmendment) : Prop := (sequence a ≤ u32_max)%N.

Definition same_amendment (a b : RequestAmendment) : Prop :=
  sequence a = sequence b ∧ text a = text b ∧
  timestamp_to_string (received_at a) = timestamp_to_string (received_at b).

(** Records a digest does not tell apart. *)
Definition same_request (r s : RequestRecord) : Prop :=
  original_text r = original_text s ∧ attachment_hashes r ≡ₚ attachment_hashes s ∧
  Forall2 same_amendment (amendments r) (amendments s).

Lemma u32_fits n : (n ≤ u32_max)%N → fits 8 n.
Proof. unfold fits, u32_max. change (256 ^ N.of_nat 8)%N with 18446744073709551616%N. lia. Qed.

Lemma prefix_code_amendment : prefix_code amendment_ok same_amendment write_amendment.
Proof.
  eapply prefix_code_mono.
  - eapply prefix_code_seq; [eapply (prefix_code_proj _ _ sequence), prefix_code_u64|].
    eapply prefix_code_seq; [eapply (prefix_code_proj _ _ text), prefix_code_bytes|].
    eapply (prefix_code_proj _ _ (λ a, timestamp_to_string (received_at a))), prefix_code_text.
  - intros a Ha. split; [by apply u32_fits|done].
  - intros a b _ _ (?&?&?). done.
Qed.

Lemma prefix_code_request :
  prefix_code (λ r, Forall amendment_ok (amendments r)) same_request write_request.
Proof.
  eapply prefix_code_mono.
  - eapply prefix_code_seq; [eapply (prefix_code_proj _ _ original_text), prefix_code_bytes|].
    eapply prefix_code_seq.
    + eapply (prefix_code_proj _ _ (λ r, sort_unstable (attachment_hashes r))).
      apply prefix_code_list, prefix_code_digest.
    + eapply (prefix_code_proj _ _ amendments), prefix_code_list, prefix_code_amendment.
  - intros r Hr. split; [done|]. split; [|done]. by apply Forall_forall.
  - intros r s _ _ (?&Hs%Forall2_eq&?). split_and!; [done| |done].
    by rewrite <-(sort_unstable_perm (attachment_hashes r)), Hs, sort_unstable_perm.
Qed.

End digests.

(** A contiguous one-based numbering. *)
Definition numbered (xs : list RequestAmendment) : Prop :=
  ∀ i a, xs !! i = Some a → sequence a = (N.of_nat i + 1)%N ∧ (sequence a ≤ u32_max)%N.

Definition request_wf (r : RequestRecord) : Prop := numbered (amendments r).

Lemma next_sequence_ok n s :
  next_sequence n = Ok s ↔ s = (N.of_nat n + 1)%N ∧ (s ≤ u32_max)%N.
Proof.
  unfold next_sequence. case_match; to_prop; cbn.
  - rewrite ok_or_ok, checked_add_some. naive_solver.
  - split; [done|]. lia.
Qed.

Lemma check_amendments_ok xs u :
  try_for_each check_amendment (enumerate xs) = Ok u ↔ numbered xs.
Proof.
  rewrite try_for_each_ok. unfold enumerate, numbered. rewrite Forall_lookup.
  setoid_rewrite list_lookup_imap_Some. unfold check_amendment.
  assert (∀ i a, (next_sequence i ≫= λ expected, reject_if (negb (sequence a =? expected)%N)
      InvalidAmendmentSequence) = Ok tt ↔
    sequence a = (N.of_nat i + 1)%N ∧ (sequence a ≤ u32_max)%N) as Hone.
  { intros i a. rewrite result_bind_ok. setoid_rewrite next_sequence_ok.
    setoid_rewrite reject_if_ok. setoid_rewrite negb_false_iff.
    setoid_rewrite N.eqb_eq. split.
    - intros (e&[-> ?]&->). done.
    - intros [-> ?]. by eexists. }
  split.
  - intros Hall i a Ha. apply (Hone i a), (Hall i (i, a)). eauto.
  - intros Hn i x (a&?&?); simplify_eq. apply (Hone i a), Hn. done.
Qed.

Lemma numbered_app xs a :
  numbered xs → sequence a = (N.of_nat (length xs) + 1)%N → (sequence a ≤ u32_max)%N →
  numbered (xs ++ [a]).
Proof.
  intros Hn Ha Hb i b Hi. apply lookup_app_Some in Hi as [Hi|[Hl Hi]]; [by apply Hn|].
  apply list_lookup_singleton_Some in Hi as [? <-].
  assert (i = length xs) as -> by lia. done.
Qed.

Lemma append_amendment_wf t at_ r r' u :
  request_wf r → append_amendment t at_ r = (r', Ok u) → request_wf r'.
Proof.
  unfold append_amendment, request_wf. intros Hwf. run_method.
  destruct (next_sequence (length (amendments r))) as [s|] eqn:Hs; [|done].
  intros [= <- _]. apply next_sequence_ok in Hs as [-> ?]. by apply numbered_app.
Qed.

(** An amendment is refused only when 2^32 - 1 are already there. *)
Lemma append_amendment_accepts t at_ r :
  (N.of_nat (length (amendments r)) < u32_max)%N ↔
  ∃ r', append_amendment t at_ r = (r', Ok tt).
Proof.
  unfold append_amendment. run_method.
  destruct (next_sequence (length (amendments r))) as [s|] eqn:Hs.
  - apply next_sequence_ok in Hs as [-> ?]. split; [eauto|]. lia.
  - split; [|by intros [? ?]]. intros. exfalso.
    assert (next_sequence (length (amendments r)) = Ok (N.of_nat (length (amendments r)) + 1)%N);
      [|congruence]. apply next_sequence_ok. lia.
Qed.

(** A request record survives storage: what the loading check accepts is
    exactly the records whose amendments are numbered from one without a gap,
    unchanged, and a new record and a record an amendment was appended to are
    among them. *)
Theorem request_loads_iff_numbered v r :
  request_try_from v = Ok r ↔ v = unchecked r ∧ request_wf r.
Proof.
  unfold request_try_from, request_wf. rewrite result_bind_ok.
  setoid_rewrite check_amendments_ok. destruct v as [t h xs], r as [t' h' xs']. simpl.
  unfold unchecked; simpl. naive_solver.
Qed.

(** The request digest binds the request: two records with the same digest
    have the same text, the same attachments up to their order and the same
    amendments with their numbers and written times, or their two canonical
    messages are an explicit collision of the hash; and the order of the
    attachments does not change the digest. *)
Theorem request_digest_binds `{Sha256, Rfc3339} r s d :
  Forall amendment_ok (amendments r) → Forall amendment_ok (amendments s) →
  request_digest r = Some d → request_digest s = Some d →
  same_request r s ∨
  ∃ x y, message LEGACY_PROTOCOL_V1_REQUEST_DOMAIN write_request r = Some x ∧
    message LEGACY_PROTOCOL_V1_REQUEST_DOMAIN write_request s = Some y ∧
    x ≠ y ∧ sha256 x = sha256 y.
Proof. intros Hr Hs. by apply (digest_reads _ _ _ _ r s d (final_code_prefix _ _ _ prefix_code_request)). Qed.

Lemma request_digest_attachment_order `{Sha256, Rfc3339} t h1 h2 xs :
  h1 ≡ₚ h2 →
  request_digest {| original_text := t; attachment_hashes := h1; amendments := xs |} =
  request_digest {| original_text := t; attachment_hashes := h2; amendments := xs |}.
Proof.
  intros Hp. unfold request_digest, message, write_request, write_seq, write_list.
  cbn [original_text attachment_hashes amendments].
  by rewrite (sort_unstable_perm_eq h1 h2 Hp).
Qed.

Definition sample_request : RequestRecord :=
  {| original_text := "build it"; attachment_hashes := [word_of 256 9; word_of 256 3];
     amendments := [{| sequence := 1; text := "and test it"; received_at := 77%Z |}] |}.
Definition sample_request_reordered : RequestRecord :=
  {| original_text := "build it"; attachment_hashes := [word_of 256 3; word_of 256 9];
     amendments := [{| sequence := 1; text := "and test it"; received_at := 77%Z |}] |}.

Lemma request_digest_binds_witness :
  let _ := toy_sha256 in let _ := toy_rfc3339 in
  ∃ d, request_digest sample_request = Some d ∧ request_digest sample_request_reordered = Some d ∧
  (same_request sample_request sample_request_reordered ∨
   ∃ x y, message LEGACY_PROTOCOL_V1_REQUEST_DOMAIN write_request sample_request = Some x ∧
    message LEGACY_PROTOCOL_V1_REQUEST_DOMAIN write_request sample_request_reordered = Some y ∧
    x ≠ y ∧ sha256 x = sha256 y).
Proof.
  intros sha fmt. destruct (request_digest sample_request) as [d|] eqn:Hd.
  - exists d. split; [reflexivity|].
    assert (request_digest sample_request_reordered = Some d) as Hd'.
    { rewrite <-Hd. apply request_digest_attachment_order. apply Permutation_swap. }
    split; [exact Hd'|].
    apply (request_digest_binds sample_request sample_request_reordered d); try assumption;
      repeat constructor; vm_compute; discriminate.
  - exfalso. vm_compute in Hd. discriminate.
Defined.
End Request.
