(* ===== verification/Goals.v ===== *)
(** The goal of workflow-core/src/goal.rs: a request with its criteria, the
    state machine [Goal::apply], the continuation budget, the amendments and
    the check made when a stored goal is loaded. *)
From Stdlib Require Import Ascii String.
From S2P Require Import Prelude Text Ids Canonical Requests.
Import Request.
Local Open Scope N_scope.

Module Goal.

Definition MAX_ITEMS : N := 256.
Definition MAX_OBJECTIVE_BYTES : N := 8 * 1024 * 1024.
Definition MAX_TEXT_BYTES : N := 4096.

Inductive GoalState : Type :=
| Draft | Planning | Ready | Active | Paused | Blocked | Completing | Completed | Aborted.

#[export] Instance GoalState_eq_dec : EqDecision GoalState.
Proof. solve_decision. Defined.

Definition goal_is_terminal (s : GoalState) : bool :=
  match s with Completed | Aborted => true | _ => false end.

Inductive GoalCommand : Type :=
| StartPlanning | MarkReady | Activate | Pause | Resume | Block | ResumeBlocked | Continue
| RequestCompletion | ApproveCompletion | RejectCompletion | Abort_.

Inductive GoalEvent : Type :=
| StateChanged (from to : GoalState)
| ContinuationRecorded (current maximum : N)
| ContinuationLimitReached (maximum : N).

Record Goal : Type := {
  request : RequestRecord;
  success_criteria : list string;
  constraints : list string;
  non_goals : list string;
  state : GoalState;
  max_continuations : N;
  continuations : N;
  paused_from : option GoalState;
  blocked_from : option GoalState;
}.

(** The goal as it is read, before its check; its request is already checked. *)
Record UncheckedGoal : Type := {
  u_request : RequestRecord;
  u_success_criteria : list string;
  u_constraints : list string;
  u_non_goals : list string;
  u_state : GoalState;
  u_max_continuations : N;
  u_continuations : N;
  u_paused_from : option GoalState;
  u_blocked_from : option GoalState;
}.

Inductive GoalError : Type :=
| InvalidObjective | InvalidField | InvalidTransition | RequestFailed (e : RequestError).

Definition validate_objective (value : string) : result GoalError unit :=
  reject_if (is_blank value || (MAX_OBJECTIVE_BYTES <? str_len value)) InvalidObjective.

Definition validate_items (values : list string) : result GoalError unit :=
  reject_if ((MAX_ITEMS <? N.of_nat (length values)) ||
             existsb (λ value, is_blank value || (MAX_TEXT_BYTES <? str_len value)) values)
    InvalidField.

(** [TryFrom<UncheckedGoal>]. *)
Definition goal_try_from (value : UncheckedGoal) : result GoalError Goal :=
  _ ← validate_objective (original_text (u_request value));
  _ ← validate_items (u_success_criteria value);
  _ ← validate_items (u_constraints value);
  _ ← validate_items (u_non_goals value);
  _ ← reject_if ((u_max_continuations value =? 0) ||
                 (u_max_continuations value <? u_continuations value)) InvalidField;
  Ok {| request := u_request value;
        success_criteria := u_success_criteria value;
        constraints := u_constraints value;
        non_goals := u_non_goals value;
        state := u_state value;
        max_continuations := u_max_continuations value;
        continuations := u_continuations value;
        paused_from := u_paused_from value;
        blocked_from := u_blocked_from value |}.

(** [Goal::new]; the limit is a [NonZeroU8]. *)
Definition goal_new (objective : string) (success_criteria constraints non_goals : list string)
    (max_continuations : N) : result GoalError Goal :=
  _ ← validate_objective objective;
  _ ← validate_items success_criteria;
  _ ← validate_items constraints;
  _ ← validate_items non_goals;
  Ok {| request := request_new objective [];
        success_criteria := success_criteria; constraints := constraints;
        non_goals := non_goals; state := Draft; max_continuations := max_continuations;
        continuations := 0; paused_from := None; blocked_from := None |}.

Definition objective (g : Goal) : string := original_text (request g).
Definition objective_digest `{Sha256} (g : Goal) : ContentDigest := digest_of (objective g).
Definition goal_request_digest `{Sha256, Rfc3339} (g : Goal) : option ContentDigest :=
  request_digest (request g).

(** Field assignments. *)
Definition set_request (r : RequestRecord) (g : Goal) : Goal :=
  {| request := r; success_criteria := success_criteria g; constraints := constraints g;
     non_goals := non_goals g; state := state g; max_continuations := max_continuations g;
     continuations := continuations g; paused_from := paused_from g;
     blocked_from := blocked_from g |}.
Definition set_state (s : GoalState) (g : Goal) : Goal :=
  {| request := request g; success_criteria := success_criteria g; constraints := constraints g;
     non_goals := non_goals g; state := s; max_continuations := max_continuations g;
     continuations := continuations g; paused_from := paused_from g;
     blocked_from := blocked_from g |}.
Definition set_continuations (n : N) (g : Goal) : Goal :=
  {| request := request g; success_criteria := success_criteria g; constraints := constraints g;
     non_goals := non_goals g; state := state g; max_continuations := max_continuations g;
     continuations := n; paused_from := paused_from g; blocked_from := blocked_from g |}.
Definition set_paused_from (s : option GoalState) (g : Goal) : Goal :=
  {| request := request g; success_criteria := success_criteria g; constraints := constraints g;
     non_goals := non_goals g; state := state g; max_continuations := max_continuations g;
     continuations := continuations g; paused_from := s; blocked_from := blocked_from g |}.
Definition set_blocked_from (s : option GoalState) (g : Goal) : Goal :=
  {| request := request g; success_criteria := success_criteria g; constraints := constraints g;
     non_goals := non_goals g; state := state g; max_continuations := max_continuations g;
     continuations := continuations g; paused_from := paused_from g; blocked_from := s |}.

Definition goal_append_amendment (text : string) (received_at : WorkflowTimestamp)
    : method Goal GoalError unit :=
  g ← m_get;
  if goal_is_terminal (state g) || is_blank text || (MAX_OBJECTIVE_BYTES <? str_len text)
  then m_throw InvalidTransition
  else
    match append_amendment text received_at (request g) with
    | (r, Ok _) => m_modify (set_request r)
    | (r, Err e) => _ ← m_modify (set_request r); m_throw (RequestFailed e)
    end.

Definition goal_transition (to : GoalState) : method Goal GoalError (list GoalEvent) :=
  g ← m_get;
  _ ← m_modify (set_state to);
  mret [StateChanged (state g) to].

Definition continue_goal : method Goal GoalError (list GoalEvent) :=
  g ← m_get;
  current ← m_lift (ok_or InvalidTransition (checked_add u8_max (continuations g) 1));
  _ ← m_modify (set_continuations current);
  let events := [ContinuationRecorded current (max_continuations g)] in
  if max_continuations g <=? current then
    _ ← m_modify (set_blocked_from (Some (state g)));
    changed ← goal_transition Blocked;
    mret (events ++ [ContinuationLimitReached (max_continuations g)] ++ changed)
  else mret events.

Definition state_is (s : GoalState) (g : Goal) : bool := bool_decide (state g = s).
Definition state_in (l : list GoalState) (g : Goal) : bool := bool_decide (state g ∈ l).

(** [Goal::apply]. *)
Definition goal_apply (command : GoalCommand) : method Goal GoalError (list GoalEvent) :=
  g ← m_get;
  match command with
  | StartPlanning =>
      if state_is Draft g then goal_transition Planning else m_throw InvalidTransition
  | MarkReady =>
      if state_is Planning g then goal_transition Ready else m_throw InvalidTransition
  | Activate =>
      if state_is Ready g then goal_transition Active else m_throw InvalidTransition
  | Pause =>
      if state_in [Planning; Ready; Active] g then
        _ ← m_modify (set_paused_from (Some (state g))); goal_transition Paused
      else m_throw InvalidTransition
  | Resume =>
      if state_is Paused g then
        _ ← m_modify (set_paused_from None);
        previous ← m_lift (ok_or InvalidTransition (paused_from g));
        goal_transition previous
      else m_throw InvalidTransition
  | Block =>
      if state_in [Planning; Active; Completing] g then
        _ ← m_modify (set_blocked_from (Some (state g))); goal_transition Blocked
      else m_throw InvalidTransition
  | ResumeBlocked =>
      if state_is Blocked g then
        _ ← m_modify (set_blocked_from None);
        previous ← m_lift (ok_or InvalidTransition (blocked_from g));
        goal_transition previous
      else m_throw InvalidTransition
  | Continue => if state_is Active g then continue_goal else m_throw InvalidTransition
  | RequestCompletion =>
      if state_is Active g then goal_transition Completing else m_throw InvalidTransition
  | ApproveCompletion =>
      if state_is Completing g then goal_transition Completed else m_throw InvalidTransition
  | RejectCompletion =>
      if state_is Completing g then goal_transition Active else m_throw InvalidTransition
  | Abort_ =>
      if negb (goal_is_terminal (state g)) then
        _ ← m_modify (set_paused_from None);
        _ ← m_modify (set_blocked_from None);
        goal_transition Aborted
      else m_throw InvalidTransition
  end.

(** The goal as [Serialize] writes it. *)
Definition goal_unchecked (g : Goal) : UncheckedGoal :=
  {| u_request := request g; u_success_criteria := success_criteria g;
     u_constraints := constraints g; u_non_goals := non_goals g; u_state := state g;
     u_max_continuations := max_continuations g; u_continuations := continuations g;
     u_paused_from := paused_from g; u_blocked_from := blocked_from g |}.

(** * Runs *)

(** What a caller does to a goal. *)
Inductive GoalAction : Type :=
| Command (c : GoalCommand)
| Amend (text : string) (received_at : WorkflowTimestamp).

Definition goal_act (a : GoalAction) (g : Goal) : Goal * bool :=
  match a with
  | Command c => prod_map id is_ok (goal_apply c g)
  | Amend text received_at => prod_map id is_ok (goal_append_amendment text received_at g)
  end.

(** The runs from [Goal::new]: accepted actions, in order. *)
Inductive goal_run : list GoalAction → Goal → Prop :=
| goal_run_new o sc cs ng max g : 1 ≤ max ≤ u8_max →
    goal_new o sc cs ng max = Ok g → goal_run [] g
| goal_run_act log g a g' :
    goal_run log g → goal_act a g = (g', true) → goal_run (log ++ [a]) g'.

(** The stage a paused or blocked goal goes back to. *)
Definition goal_origin (g : Goal) : GoalState :=
  match state g with
  | Paused => default Paused (paused_from g)
  | Blocked => default Blocked (blocked_from g)
  | s => s
  end.

Definition goal_fields_ok (g : Goal) : Prop :=
  validate_objective (objective g) = Ok tt ∧ validate_items (success_criteria g) = Ok tt ∧
  validate_items (constraints g) = Ok tt ∧ validate_items (non_goals g) = Ok tt.

Record goal_wf (g : Goal) : Prop := {
  gwf_fields : goal_fields_ok g;
  gwf_request : request_wf (request g);
  gwf_paused : match paused_from g with
               | Some s => state g = Paused ∧ s ∈ [Planning; Ready; Active]
               | None => state g ≠ Paused
               end;
  gwf_blocked : match blocked_from g with
                | Some s => state g = Blocked ∧ s ∈ [Planning; Active; Completing]
                | None => state g ≠ Blocked
                end;
  gwf_limit : 1 ≤ max_continuations g ≤ u8_max;
  gwf_count : continuations g ≤ u8_max;
}.

(** The continuations a run holds. *)
Definition is_continue (a : GoalAction) : bool :=
  match a with Command Continue => true | _ => false end.
Definition continues (log : list GoalAction) : N :=
  N.of_nat (length (filter (λ a, is_continue a = true) log)).

(** Actions that keep a completion request pending. *)
Definition keeps_request (a : GoalAction) : bool :=
  match a with Command Block | Command ResumeBlocked | Amend _ _ => true | _ => false end.

(** A completion was requested and nothing has withdrawn it since. *)
Definition completion_pending (log : list GoalAction) : Prop :=
  ∃ pre mid, log = pre ++ Command RequestCompletion :: mid ∧
    Forall (λ a, keeps_request a = true) mid.

(** * Lemmas *)

Ltac run_goal H :=
  unfold goal_act, goal_apply, goal_append_amendment, continue_goal, goal_transition,
    state_is, state_in in H; run_method in H; simpl in H.

(** Case analysis on every match left in [H]. *)
Ltac goal_cases H :=
  repeat match type of H with
  | context [match ?x with _ => _ end] =>
      match x with
      | context [match _ with _ => _ end] => fail 1
      | _ => destruct x eqn:?
      end
  end; simplify_eq/=.

Lemma goal_checks_ok {A} (o : string) (sc cs ng : list string) (k : result GoalError A) g :
  (validate_objective o ≫= λ _, validate_items sc ≫= λ _, validate_items cs ≫= λ _,
   validate_items ng ≫= λ _, k) = Ok g ↔
  validate_objective o = Ok tt ∧ validate_items sc = Ok tt ∧ validate_items cs = Ok tt ∧
  validate_items ng = Ok tt ∧ k = Ok g.
Proof.
  destruct (validate_objective o) as [[]|]; [|by split; [|intros (?&?)]].
  destruct (validate_items sc) as [[]|]; [|by split; [|intros (?&?&?)]].
  destruct (validate_items cs) as [[]|]; [|by split; [|intros (?&?&?&?)]].
  destruct (validate_items ng) as [[]|]; [|by split; [|intros (?&?&?&?&?)]].
  simpl. split; [by intros|by intros (?&?&?&?&?)].
Qed.

Lemma goal_new_wf o sc cs ng max g :
  1 ≤ max ≤ u8_max → goal_new o sc cs ng max = Ok g →
  goal_wf g ∧ state g = Draft ∧ continuations g = 0.
Proof.
  intros Hmax. unfold goal_new. rewrite goal_checks_ok.
  intros (?&?&?&?&[= <-]). split; [|done]. split; simpl; try done.
Qed.

(** The check of a stored goal. *)
Lemma goal_try_from_ok v g :
  goal_try_from v = Ok g ↔
  v = goal_unchecked g ∧ goal_fields_ok g ∧ max_continuations g ≠ 0 ∧
  continuations g ≤ max_continuations g.
Proof.
  unfold goal_try_from. rewrite goal_checks_ok, result_bind_ok.
  unfold goal_fields_ok, objective. split.
  - intros (?&?&?&?&[]&Hc%reject_if_ok&[= <-]). to_prop.
    destruct v; simpl in *. by split_and!.
  - intros (->&(?&?&?&?)&?&?). simpl. split_and!; [done..|]. exists tt.
    split; [|by destruct g]. apply reject_if_ok, orb_false_iff.
    rewrite N.eqb_neq, N.ltb_ge. done.
Qed.

Lemma append_amendment_text t at_ r r' u :
  append_amendment t at_ r = (r', u) → original_text r' = original_text r.
Proof.
  unfold append_amendment. run_method.
  destruct (next_sequence _); intros [= <- _]; done.
Qed.

Lemma continues_snoc log a : continues (log ++ [a]) = continues log + (if is_continue a then 1 else 0).
Proof.
  unfold continues. rewrite filter_app, length_app, Nat2N.inj_add. f_equal.
  by destruct a as [[]|].
Qed.

(** A goal and the actions that led to it. *)
Record goal_traced (log : list GoalAction) (g : Goal) : Prop := {
  gt_wf : goal_wf g;
  gt_count : continuations g = continues log;
  gt_pending : goal_origin g = Completing → completion_pending log;
  gt_completed : state g = Completed →
    ∃ log', log = log' ++ [Command ApproveCompletion] ∧ completion_pending log';
}.

Lemma completion_pending_keep log a :
  keeps_request a = true → completion_pending log → completion_pending (log ++ [a]).
Proof.
  intros Ha (pre&mid&->&Hmid). exists pre, (mid ++ [a]). rewrite <-(assoc_L (++)).
  split; [done|]. apply Forall_app. by repeat constructor.
Qed.

Lemma completion_pending_request log : completion_pending (log ++ [Command RequestCompletion]).
Proof. by exists log, []. Qed.

(** What a command does to the fields a check on loading reads. *)
Lemma goal_apply_fields c g g' es :
  goal_apply c g = (g', Ok es) →
  request g' = request g ∧ success_criteria g' = success_criteria g ∧
  constraints g' = constraints g ∧ non_goals g' = non_goals g ∧
  max_continuations g' = max_continuations g ∧
  continuations g' = continuations g + (if is_continue (Command c) then 1 else 0).
Proof.
  intros H. destruct c; run_goal H; goal_cases H;
    repeat match goal with
    | H : ok_or _ (checked_add _ _ _) = Ok _ |- _ =>
        apply ok_or_ok, checked_add_some in H as [-> ?]
    end; split_and!; try done; lia.
Qed.

Lemma goal_command_traced log c g g' :
  goal_traced log g → goal_act (Command c) g = (g', true) → goal_traced (log ++ [Command c]) g'.
Proof.
  intros [[Hf Hr Hp Hb Hl Hc] Hn Hpend Hcomp] H.
  destruct g as [r sc cs ng st mx n pf bf]; unfold goal_origin in *; simpl in *.
  unfold goal_fields_ok, objective in *; simpl in *.
  destruct pf as [pf|], bf as [bf|];
    try (destruct Hp as [-> Hp]); try (destruct Hb as [Hb' Hb]); try discriminate; subst;
    try (repeat (apply elem_of_cons in Hp as [->|Hp]); try by apply elem_of_nil in Hp);
    try (repeat (apply elem_of_cons in Hb as [->|Hb]); try by apply elem_of_nil in Hb);
    destruct c; try (destruct st; try done); run_goal H; goal_cases H;
    repeat match goal with
    | H : ok_or _ (checked_add _ _ _) = Ok _ |- _ =>
        apply ok_or_ok, checked_add_some in H as [-> ?]
    end; try done;
    (split; [split|rewrite continues_snoc|..]; unfold goal_origin; simpl in *; try done; try lia;
     try (intros ?; simplify_eq; simpl in *;
          first [done | by apply completion_pending_request
                | by apply completion_pending_keep; auto
                | by eexists; split; [|auto]]);
     try (repeat constructor)).
Qed.

Lemma goal_amend_traced log t at_ g g' :
  goal_traced log g → goal_act (Amend t at_) g = (g', true) →
  goal_traced (log ++ [Amend t at_]) g'.
Proof.
  intros [[Hf Hr Hp Hb Hl Hc] Hn Hpend Hcomp] H. unfold goal_act, goal_append_amendment in H.
  run_method in H. destruct (goal_is_terminal (state g)) eqn:Hterm; [done|].
  simpl in H. case_match eqn:Hguard; [done|].
  destruct (append_amendment t at_ (request g)) as [r [u|e]] eqn:Ha; [|done].
  simpl in H. simplify_eq. split; [split| |..]; unfold goal_origin in *; simpl; try done.
  - destruct Hf as (Ho&?&?&?). split_and!; [|done..].
    unfold objective in *. simpl. by rewrite (append_amendment_text _ _ _ _ _ Ha).
  - by eapply append_amendment_wf.
  - by rewrite continues_snoc, N.add_0_r.
  - intros Hs. apply completion_pending_keep; [done|]. by apply Hpend.
  - intros Hs. by rewrite Hs in Hterm.
Qed.

Lemma goal_run_traced log g : goal_run log g → goal_traced log g.
Proof.
  induction 1 as [o sc cs ng max g Hmax Hnew|log g a g' Hrun IH Ha].
  - destruct (goal_new_wf _ _ _ _ _ _ Hmax Hnew) as (Hwf&Hst&Hn).
    split; [done|by rewrite Hn| |]; unfold goal_origin; by rewrite ?Hst.
  - destruct a as [c|t at_]; [by eapply goal_command_traced|by eapply goal_amend_traced].
Qed.

(** A run, computed. *)
Fixpoint goal_replay (g : Goal) (log : list GoalAction) : option Goal :=
  match log with
  | [] => Some g
  | a :: log' => match goal_act a g with
                 | (g', true) => goal_replay g' log'
                 | (_, false) => None
                 end
  end.

Lemma goal_replay_run log0 g0 log g :
  goal_run log0 g0 → goal_replay g0 log = Some g → goal_run (log0 ++ log) g.
Proof.
  revert log0 g0. induction log as [|a log IH]; intros log0 g0 Hrun H; simpl in H.
  - simplify_eq. by rewrite (right_id_L [] (++)).
  - destruct (goal_act a g0) as [g1 [|]] eqn:Ha; [|done].
    rewrite cons_middle, (assoc_L (++)). apply (IH _ g1); [|done]. by econstructor.
Qed.

Lemma goal_run_replay o sc cs ng max g0 log g :
  1 ≤ max ≤ u8_max → goal_new o sc cs ng max = Ok g0 → goal_replay g0 log = Some g →
  goal_run log g.
Proof. intros ???. apply (goal_replay_run [] g0); [by econstructor|done]. Qed.

(** * The properties of the goal *)

Definition sample_goal : Goal :=
  {| request := request_new "ship" []; success_criteria := ["tests pass"]; constraints := [];
     non_goals := []; state := Draft; max_continuations := 1; continuations := 0;
     paused_from := None; blocked_from := None |}.
Definition sample_actions : list GoalAction :=
  [Command StartPlanning; Command MarkReady; Command Activate; Command Continue;
   Command ResumeBlocked; Amend "also docs" 5%Z; Command RequestCompletion; Command Block;
   Command ResumeBlocked; Command ApproveCompletion].
Definition sample_goal_after (n : nat) : Goal :=
  default sample_goal (goal_replay sample_goal (take n sample_actions)).

Lemma sample_goal_run n : (n ≤ 10)%nat → goal_run (take n sample_actions) (sample_goal_after n).
Proof.
  intros Hn. apply (goal_run_replay "ship" ["tests pass"] [] [] 1 sample_goal); [done..|].
  do 11 (destruct n as [|n]; [by vm_compute|]). lia.
Qed.

(** A goal is completed only by approving a completion that was requested
    and not withdrawn: a completed goal's run ends with the approval, and
    before it stands a completion request followed by nothing but blocking,
    unblocking and amendments. *)
Theorem goal_completed_after_request log g :
  goal_run log g → state g = Completed →
  ∃ pre mid, log = pre ++ Command RequestCompletion :: mid ++ [Command ApproveCompletion] ∧
    Forall (λ a, keeps_request a = true) mid.
Proof.
  intros Hrun Hst.
  destruct (gt_completed _ _ (goal_run_traced _ _ Hrun) Hst) as (?&->&pre&mid&->&Hmid).
  exists pre, mid. by rewrite <-(assoc_L (++)).
Qed.
Lemma goal_completed_after_request_witness :
  goal_run sample_actions (sample_goal_after 10) ∧
  ∃ pre mid,
    sample_actions = pre ++ Command RequestCompletion :: mid ++ [Command ApproveCompletion] ∧
    Forall (λ a, keeps_request a = true) mid.
Proof.
  split; [exact (sample_goal_run 10 (le_n 10))|].
  apply (goal_completed_after_request sample_actions (sample_goal_after 10));
    [exact (sample_goal_run 10 (le_n 10))|reflexivity].
Defined.

(** A goal that goes on past its continuation limit cannot be read back:
    a run that resumes a goal blocked at its limit may continue it again, the
    counter is then the number of continuations the run holds, above the limit,
    and loading refuses what was stored; every other goal a run reaches loads
    back unchanged. *)
Theorem goal_loads_iff_within_limit log g :
  goal_run log g →
  continuations g = continues log ∧
  (continues log ≤ max_continuations g → goal_try_from (goal_unchecked g) = Ok g) ∧
  (max_continuations g < continues log → goal_try_from (goal_unchecked g) = Err InvalidField).
Proof.
  intros [[Hf Hr Hp Hb Hl Hc] Hn _ _]%goal_run_traced. rewrite <-Hn.
  split_and!; [done|intros; apply goal_try_from_ok; split_and!; [done..|lia|done]|].
  intros Hlt. destruct Hf as (Ho&Hs&Hcs&Hng). unfold goal_try_from, objective in *. simpl.
  rewrite Ho, Hs, Hcs, Hng. simpl. unfold reject_if.
  by rewrite (proj2 (N.ltb_lt _ _) Hlt), orb_true_r.
Qed.
Lemma goal_loads_iff_within_limit_witness :
  let g := default sample_goal (goal_replay sample_goal (take 5 sample_actions ++ [Command Continue])) in
  state g = Blocked ∧ goal_try_from (goal_unchecked g) = Err InvalidField.
Proof.
  intros g. split; [reflexivity|].
  destruct (goal_loads_iff_within_limit (take 5 sample_actions ++ [Command Continue]) g)
    as (_&_&H).
  - apply (goal_run_replay "ship" ["tests pass"] [] [] 1 sample_goal); [done..|].
    vm_compute. reflexivity.
  - apply H. reflexivity.
Defined.
End Goal.
