(* ===== verification/Dag.v ===== *)
(** The task graph of workflow-core/src/dag.rs: its validation, the search for
    a dependency between two tasks, Kahn's sort and the tasks that are ready.
    [None] stands for a panic or for fuel that ran out; the lemmas show that
    neither happens. *)
From Stdlib Require Import Ascii String.
From stdpp Require Import relations.
From S2P Require Import Prelude Text Ids Paths.

Module Dag.

Record TaskNode : Type := {
  node_id : TaskId;
  owner : WorkflowRole;
  write_scopes : list string;
  dependencies : list TaskId;
}.

Inductive DagError : Type :=
| Empty
| DuplicateTask (task_id : TaskId)
| InvalidOwner (task_id : TaskId)
| InvalidScope (task_id : TaskId) (scope : string)
| OverlappingScope (first_task second_task : TaskId) (first_scope second_scope : string)
| DuplicateDependency (task_id dependency : TaskId)
| MissingDependency (task_id dependency : TaskId)
| Cycle.

Abbreviation nodes_map := (gmap TaskId TaskNode).

Record TaskDag : Type := {
  nodes : nodes_map;
  topological_order : list TaskId;
}.

(** * Dependencies between tasks *)

(** [nodes.get(&current).into_iter().flat_map(|node| &node.dependencies)]. *)
Definition dependencies_of (nodes : nodes_map) (t : TaskId) : list TaskId :=
  match nodes !! t with Some node => dependencies node | None => [] end.

(** The inner loop of [depends_on]: [None] is the early [return true]. The
    stack is held with its top first. *)
Fixpoint push_dependencies (target : TaskId) (deps pending : list TaskId)
    : option (list TaskId) :=
  match deps with
  | [] => Some pending
  | dependency :: deps' =>
      if decide (dependency = target) then None
      else push_dependencies target deps' (dependency :: pending)
  end.

Fixpoint search (fuel : nat) (nodes : nodes_map) (target : TaskId)
    (pending : list TaskId) (visited : gset TaskId) : option bool :=
  match fuel with
  | O => None
  | S fuel' =>
      match pending with
      | [] => Some false
      | current :: pending' =>
          if decide (current ∈ visited) then search fuel' nodes target pending' visited
          else match push_dependencies target (dependencies_of nodes current) pending' with
               | None => Some true
               | Some pending'' =>
                   search fuel' nodes target pending'' ({[current]} ∪ visited)
               end
      end
  end.

(** The dependencies of the tasks that were not visited yet. *)
Definition unvisited_work (nodes : nodes_map) (visited : gset TaskId) : nat :=
  sum_list_with (λ p : TaskId * TaskNode,
    if decide (p.1 ∈ visited) then 0 else length (dependencies p.2)) (map_to_list nodes).

Definition depends_on (nodes : nodes_map) (task target : TaskId) : option bool :=
  search (2 + unvisited_work nodes ∅) nodes target [task] ∅.

Definition dependency_ordered (nodes : nodes_map) (first second : TaskId) : option bool :=
  b ← depends_on nodes first second;
  if b : bool then Some true else depends_on nodes second first.

(** * Validation *)

(** A loop of checks whose body may also panic. *)
Definition check : Type := option (result DagError unit).
Fixpoint each_check {A} (f : A → check) (xs : list A) : check :=
  match xs with
  | [] => Some (Ok tt)
  | x :: xs' => match f x with Some (Ok _) => each_check f xs' | r => r end
  end.

(** The loop over a node's dependencies, with the set of those already seen. *)
Fixpoint check_dependencies (nodes : nodes_map) (task_id : TaskId) (seen : gset TaskId)
    (deps : list TaskId) : result DagError unit :=
  match deps with
  | [] => Ok tt
  | dependency :: deps' =>
      if decide (dependency ∈ seen) then Err (DuplicateDependency task_id dependency)
      else if decide (is_Some (nodes !! dependency))
      then check_dependencies nodes task_id ({[dependency]} ∪ seen) deps'
      else Err (MissingDependency task_id dependency)
  end.

(** The first loop of [validate_nodes]. *)
Definition check_node (nodes : nodes_map) (node : TaskNode) : result DagError unit :=
  _ ← reject_if (negb (bool_decide (owner node = Executor))) (InvalidOwner (node_id node));
  _ ← reject_if (bool_decide (write_scopes node = [])) (InvalidScope (node_id node) "");
  _ ← try_for_each (λ scope,
        reject_if (negb (is_safe_relative scope)) (InvalidScope (node_id node) scope))
      (write_scopes node);
  check_dependencies nodes (node_id node) ∅ (dependencies node).

(** The second loop: every scope against the ones before it. *)
Definition check_overlap (nodes : nodes_map) (task : TaskId) (scope : string)
    (other : TaskId * string) : check :=
  if overlaps scope other.2 then
    ordered ← dependency_ordered nodes task other.1;
    Some (if ordered : bool then Ok tt else Err (OverlappingScope other.1 task other.2 scope))
  else Some (Ok tt).

Fixpoint check_scopes (nodes : nodes_map) (seen : list (TaskId * string))
    (todo : list (TaskId * string)) : check :=
  match todo with
  | [] => Some (Ok tt)
  | (task, scope) :: todo' =>
      match each_check (check_overlap nodes task scope) seen with
      | Some (Ok _) => check_scopes nodes (seen ++ [(task, scope)]) todo'
      | r => r
      end
  end.

(** The scopes in the order of the two outer loops. *)
Definition scope_list (nodes : nodes_map) : list (TaskId * string) :=
  mjoin ((λ node, pair (node_id node) <$> write_scopes node) <$> btree_values nodes).

Definition validate_nodes (nodes : nodes_map) : check :=
  match try_for_each (check_node nodes) (btree_values nodes) with
  | Ok _ => check_scopes nodes [] (scope_list nodes)
  | Err e => Some (Err e)
  end.

(** * Kahn's sort *)

Definition initial_indegrees (nodes : nodes_map) : gmap TaskId nat :=
  list_to_map ((λ node, (node_id node, length (dependencies node))) <$> btree_values nodes).

(** [dependents.entry(dependency).or_default().push(node.id)] over all nodes. *)
Definition add_dependent (dependent : TaskId) (m : gmap TaskId (list TaskId)) (dependency : TaskId)
    : gmap TaskId (list TaskId) :=
  <[dependency := default [] (m !! dependency) ++ [dependent]]> m.
Definition all_dependents (nodes : nodes_map) : gmap TaskId (list TaskId) :=
  foldl (λ m node, foldl (add_dependent (node_id node)) m (dependencies node)) ∅
    (btree_values nodes).

Definition initially_ready (indegrees : gmap TaskId nat) : gset TaskId :=
  list_to_set (filter (λ id, indegrees !! id = Some 0) (btree_keys indegrees)).

(** One turn of the loop over the dependents of a sorted task: the missing
    entry is the [expect], the zero degree an overflow of [-= 1]. *)
Definition release (st : gmap TaskId nat * gset TaskId) (dependent : TaskId)
    : option (gmap TaskId nat * gset TaskId) :=
  degree ← st.1 !! dependent;
  match degree with
  | O => None
  | S degree => Some (<[dependent := degree]> st.1,
      if decide (degree = 0) then {[dependent]} ∪ st.2 else st.2)
  end.
Fixpoint release_all (st : gmap TaskId nat * gset TaskId) (dependents : list TaskId)
    : option (gmap TaskId nat * gset TaskId) :=
  match dependents with
  | [] => Some st
  | d :: ds => st ← release st d; release_all st ds
  end.

Fixpoint kahn (fuel : nat) (dependents : gmap TaskId (list TaskId))
    (indegrees : gmap TaskId nat) (ready : gset TaskId) (order : list TaskId)
    : option (list TaskId) :=
  match fuel with
  | O => None
  | S fuel' =>
      match bset_pop_first ready with
      | None => Some order
      | Some (task_id, ready) =>
          st ← release_all (indegrees, ready) (default [] (dependents !! task_id));
          kahn fuel' dependents st.1 st.2 (order ++ [task_id])
      end
  end.

Definition dag_sort (nodes : nodes_map) : option (result DagError (list TaskId)) :=
  let indegrees := initial_indegrees nodes in
  order ← kahn (S (size nodes)) (all_dependents nodes) indegrees (initially_ready indegrees) [];
  Some (if decide (length order = size nodes) then Ok order else Err Cycle).

(** * The public operations *)

(** [for node in nodes { if indexed.insert(node.id, node).is_some() { .. } }]. *)
Definition index_node (indexed : nodes_map) (node : TaskNode) : result DagError nodes_map :=
  match indexed !! node_id node with
  | Some _ => Err (DuplicateTask (node_id node))
  | None => Ok (<[node_id node := node]> indexed)
  end.

Definition dag_validate (input : list TaskNode) : option (result DagError TaskDag) :=
  if decide (input = []) then Some (Err Empty) else
  match try_fold index_node ∅ input with
  | Err e => Some (Err e)
  | Ok indexed =>
      checked ← validate_nodes indexed;
      match checked with
      | Err e => Some (Err e)
      | Ok _ =>
          sorted ← dag_sort indexed;
          Some (order ← sorted; Ok {| nodes := indexed; topological_order := order |})
      end
  end.

Definition is_ready (completed : gset TaskId) (node : TaskNode) : bool :=
  bool_decide (node_id node ∉ completed) &&
  forallb (λ dependency, bool_decide (dependency ∈ completed)) (dependencies node).

Definition ready_tasks (d : TaskDag) (completed : gset TaskId) : gset TaskId :=
  list_to_set (node_id <$> filter (λ node, is_ready completed node = true)
                             (btree_values (nodes d))).

Definition can_complete (d : TaskDag) (task_id : TaskId) (completed : gset TaskId) : bool :=
  bool_decide (task_id ∉ completed) &&
  match nodes d !! task_id with
  | Some node => forallb (λ dependency, bool_decide (dependency ∈ completed)) (dependencies node)
  | None => false
  end.

Definition dag_dependencies (d : TaskDag) (task_id : TaskId) : option (list TaskId) :=
  dependencies <$> nodes d !! task_id.

(** * The dependency relation *)

(** [depends nodes a b]: [a] lists [b] among its dependencies. *)
Definition depends (nodes : nodes_map) (a b : TaskId) : Prop := b ∈ dependencies_of nodes a.

#[export] Instance depends_dec nodes a b : Decision (depends nodes a b) :=
  decide (b ∈ dependencies_of nodes a).

Lemma push_dependencies_none target deps pending :
  push_dependencies target deps pending = None ↔ target ∈ deps.
Proof.
  revert pending. induction deps as [|d deps IH]; intros pending; simpl.
  - split; [done|]. by intros ?%elem_of_nil.
  - rewrite elem_of_cons. case_decide as Hd; [naive_solver|]. rewrite IH. naive_solver.
Qed.

Lemma push_dependencies_some target deps pending pending' :
  push_dependencies target deps pending = Some pending' →
  pending' = reverse deps ++ pending ∧ target ∉ deps.
Proof.
  revert pending. induction deps as [|d deps IH]; intros pending; simpl.
  - intros [= <-]. split; [done|]. apply not_elem_of_nil.
  - case_decide; [done|]. intros [-> ?]%IH. rewrite reverse_cons, <-(assoc_L (++)).
    split; [done|]. apply not_elem_of_cons. naive_solver.
Qed.

Lemma unvisited_work_visit nodes t visited :
  t ∉ visited →
  unvisited_work nodes visited =
  length (dependencies_of nodes t) + unvisited_work nodes ({[t]} ∪ visited).
Proof.
  intros Ht. unfold unvisited_work, dependencies_of.
  pose proof (NoDup_fst_map_to_list nodes) as Hnd.
  assert (nodes !! t = (list_to_map (map_to_list nodes) : nodes_map) !! t) as ->
    by by rewrite list_to_map_to_list.
  induction (map_to_list nodes) as [|[k n] l IH]; simpl in *; [by rewrite lookup_empty|].
  apply NoDup_cons in Hnd as [Hk Hnd]. specialize (IH Hnd).
  destruct (decide (k = t)) as [->|Hne].
  - rewrite lookup_insert_eq. rewrite decide_False by done.
    rewrite decide_True by set_solver.
    rewrite (not_elem_of_list_to_map_1 l t Hk) in IH. simpl in IH. lia.
  - rewrite lookup_insert_ne by done. rewrite IH.
    assert (k ∈ {[t]} ∪ visited ↔ k ∈ visited) as Hiff
      by (rewrite elem_of_union, elem_of_singleton; tauto).
    rewrite (decide_ext _ _ _ _ Hiff). lia.
Qed.

(** The search ends: its fuel bounds the pending and the unvisited work. *)
Lemma search_total fuel nodes target pending visited :
  length pending + unvisited_work nodes visited < fuel →
  is_Some (search fuel nodes target pending visited).
Proof.
  revert pending visited. induction fuel as [|fuel IH]; intros pending visited Hf; [lia|].
  simpl. destruct pending as [|c pending]; [done|]. simpl in Hf.
  case_decide as Hc; [apply IH; lia|].
  destruct (push_dependencies _ _ _) as [pending'|] eqn:Hp; [|done].
  apply push_dependencies_some in Hp as [-> _]. apply IH.
  rewrite (unvisited_work_visit _ _ _ Hc) in Hf. rewrite length_app, length_reverse. lia.
Qed.

(** A set closed under a relation holds where the relation leads. *)
Lemma tc_closed {A} (R : relation A) (P Q : A → Prop) x y :
  (∀ a b, P a → R a b → P b ∧ Q b) → P x → tc R x y → Q y.
Proof.
  intros Hstep Hx Htc. induction Htc as [x y Hxy|x y z Hxy _ IH].
  - by eapply Hstep.
  - apply IH. by eapply Hstep.
Qed.

Lemma tc_first {A} (R : relation A) x y : tc R x y → ∃ z, R x z.
Proof. intros [? ? ?|? ? ? ? _]; eauto. Qed.

Lemma search_true fuel nodes task target pending visited :
  Forall (rtc (depends nodes) task) pending →
  search fuel nodes target pending visited = Some true → tc (depends nodes) task target.
Proof.
  revert pending visited. induction fuel as [|fuel IH]; intros pending visited Hp; [done|].
  simpl. destruct Hp as [|c pending Hc Hp]; [done|].
  case_decide; [by apply IH|].
  destruct (push_dependencies _ _ _) as [pending'|] eqn:Hpush; intros H'.
  - apply push_dependencies_some in Hpush as [-> _]. eapply IH; [|done].
    apply Forall_app. split; [|done]. apply Forall_forall. intros d Hd.
    eapply rtc_r; [exact Hc|]. unfold depends. by apply elem_of_reverse.
  - apply push_dependencies_none in Hpush. eapply tc_rtc_l; [exact Hc|]. by constructor.
Qed.

Lemma search_false fuel nodes task target pending visited :
  task ∈ visited ∨ task ∈ pending →
  (∀ v d, v ∈ visited → depends nodes v d → d ≠ target ∧ (d ∈ visited ∨ d ∈ pending)) →
  search fuel nodes target pending visited = Some false → ¬ tc (depends nodes) task target.
Proof.
  revert pending visited. induction fuel as [|fuel IH]; intros pending visited Htask Hinv; [done|].
  simpl. destruct pending as [|c pending].
  - intros _ Htc. destruct Htask as [Htask|?%elem_of_nil]; [|done].
    eapply (tc_closed (depends nodes) (λ v, v ∈ visited) (λ v, v ≠ target)) in Htc; [done| |done].
    intros v d Hv Hd. by destruct (Hinv v d Hv Hd) as [? [?|?%elem_of_nil]].
  - case_decide as Hc.
    + apply IH.
      * destruct Htask as [?|[->|?]%elem_of_cons]; auto.
      * intros v d Hv Hd. destruct (Hinv v d Hv Hd) as [? [?|[->|?]%elem_of_cons]]; auto.
    + destruct (push_dependencies _ _ _) as [pending'|] eqn:Hpush; [|done].
      apply push_dependencies_some in Hpush as [-> Hnt]. apply IH.
      * rewrite elem_of_cons in Htask. rewrite elem_of_app. set_solver.
      * intros v d Hv Hd. rewrite elem_of_app, elem_of_reverse. unfold depends in *.
        destruct (decide (v = c)) as [->|Hne].
        -- split; [by intros ->|]. auto.
        -- assert (v ∈ visited) as Hv' by set_solver.
           destruct (Hinv v d Hv' Hd) as [? [?|?%elem_of_cons]]; split; try done; set_solver.
Qed.

(** [depends_on] decides the transitive dependency relation. *)
Lemma depends_on_spec nodes a b :
  ∃ r, depends_on nodes a b = Some r ∧ (r = true ↔ tc (depends nodes) a b).
Proof.
  unfold depends_on. set (fuel := 2 + unvisited_work nodes ∅).
  destruct (search_total fuel nodes b [a] ∅) as [r Hr]; [simpl; lia|].
  exists r. split; [done|]. destruct r.
  - split; [intros _|done]. eapply (search_true fuel nodes a b [a]); [|done].
    by repeat constructor.
  - split; [done|]. intros Htc. exfalso. revert Htc.
    eapply (search_false fuel nodes a b [a]); [|..|done].
    + right. by apply list_elem_of_singleton.
    + intros v d Hv. set_solver.
Qed.

Definition related (nodes : nodes_map) (a b : TaskId) : Prop :=
  tc (depends nodes) a b ∨ tc (depends nodes) b a.

Lemma dependency_ordered_spec nodes a b :
  ∃ r, dependency_ordered nodes a b = Some r ∧ (r = true ↔ related nodes a b).
Proof.
  unfold dependency_ordered, related.
  destruct (depends_on_spec nodes a b) as (r&->&Hr).
  destruct (depends_on_spec nodes b a) as (s&->&Hs). simpl.
  destruct r; [|exists s]; naive_solver.
Qed.

#[export] Instance tc_depends_dec nodes a b : Decision (tc (depends nodes) a b).
Proof.
  refine (match depends_on nodes a b as o return depends_on nodes a b = o → _ with
          | Some true => λ H, left _ | _ => λ H, right _ end eq_refl);
    destruct (depends_on_spec nodes a b) as (r&Hr&Hiff); rewrite Hr in H; naive_solver.
Qed.

(** * The sort *)

(** The keys are the identifiers of the nodes, and what the checks establish
    of the dependencies. *)
Record graph_ok (nodes : nodes_map) : Prop := {
  go_keyed t node : nodes !! t = Some node → node_id node = t;
  go_nodup t : NoDup (dependencies_of nodes t);
  go_exist t d : d ∈ dependencies_of nodes t → is_Some (nodes !! d);
}.

(** Every task stands after its dependencies. *)
Definition sorted_prefix (nodes : nodes_map) (order : list TaskId) : Prop :=
  ∀ i t, order !! i = Some t → ∀ d, depends nodes t d → ∃ j, j < i ∧ order !! j = Some d.

Definition topological (nodes : nodes_map) (order : list TaskId) : Prop :=
  NoDup order ∧ (∀ t, t ∈ order ↔ is_Some (nodes !! t)) ∧ sorted_prefix nodes order.

Definition acyclic (nodes : nodes_map) : Prop := ∀ t, ¬ tc (depends nodes) t t.

(** The dependencies of [t] that are not sorted yet. *)
Definition open_degree (nodes : nodes_map) (order : list TaskId) (t : TaskId) : nat :=
  length (filter (λ d, d ∉ order) (dependencies_of nodes t)).

Lemma open_degree_zero nodes order t :
  open_degree nodes order t = 0 ↔ ∀ d, depends nodes t d → d ∈ order.
Proof.
  unfold open_degree, depends. split.
  - intros Hn%nil_length_inv d Hd. destruct (decide (d ∈ order)) as [|Hno]; [done|].
    assert (d ∈ filter (λ d, d ∉ order) (dependencies_of nodes t)) as Hin
      by by apply list_elem_of_filter.
    rewrite Hn in Hin. by apply elem_of_nil in Hin.
  - intros Hall. replace (filter _ _) with (@nil TaskId); [done|].
    symmetry. apply elem_of_nil_inv. intros d [Hno Hd]%list_elem_of_filter. auto.
Qed.

Lemma filter_snoc_order (order : list TaskId) t (deps : list TaskId) :
  t ∉ order → NoDup deps →
  length (filter (λ d, d ∉ order) deps) =
  length (filter (λ d, d ∉ order ++ [t]) deps) + (if decide (t ∈ deps) then 1 else 0).
Proof.
  intros Ht. induction 1 as [|d deps Hd _ IH]; [done|].
  destruct (decide (t = d)) as [<-|Hne].
  - rewrite filter_cons_True by done.
    rewrite filter_cons_False by (rewrite elem_of_app; set_solver).
    rewrite decide_True by (by left). rewrite decide_False in IH by done. simpl. lia.
  - assert (t ∈ d :: deps ↔ t ∈ deps) as Hiff by set_solver.
    rewrite (decide_ext _ _ _ _ Hiff).
    destruct (decide (d ∈ order)) as [Hin|Hin].
    + rewrite !filter_cons_False by set_solver. done.
    + rewrite !filter_cons_True by set_solver. simpl. lia.
Qed.

Lemma add_dependents_lookup x deps m t :
  NoDup deps →
  default [] (foldl (add_dependent x) m deps !! t) =
  default [] (m !! t) ++ (if decide (t ∈ deps) then [x] else []).
Proof.
  intros Hnd. revert m. induction Hnd as [|d deps Hd _ IH]; intros m; cbn [foldl].
  { rewrite decide_False by apply not_elem_of_nil. by rewrite (right_id_L [] (++)). }
  rewrite IH. unfold add_dependent. destruct (decide (d = t)) as [->|Hne].
  - rewrite lookup_insert_eq, decide_False, decide_True by (done || by left).
    by rewrite (right_id_L [] (++)).
  - rewrite lookup_insert_ne by done. f_equal.
    assert (t ∈ d :: deps ↔ t ∈ deps) as Hiff by set_solver.
    by rewrite (decide_ext _ _ _ _ Hiff).
Qed.

Section sort.
Context (nodes : nodes_map) (Hok : graph_ok nodes).

Lemma dependencies_of_node t node : nodes !! t = Some node → dependencies node = dependencies_of nodes t.
Proof. unfold dependencies_of. by intros ->. Qed.

Lemma node_ids : node_id <$> btree_values nodes = btree_keys nodes.
Proof.
  unfold btree_values, btree_keys. rewrite <-list_fmap_compose. apply list_fmap_ext.
  intros i [t node] Hi. simpl. apply (go_keyed _ Hok).
  apply elem_of_btree_iter. by eapply list_elem_of_lookup_2.
Qed.

Definition dependents_of (t : TaskId) : list TaskId :=
  node_id <$> filter (λ node, t ∈ dependencies node) (btree_values nodes).

Lemma all_dependents_lookup t :
  default [] (all_dependents nodes !! t) = dependents_of t.
Proof.
  unfold all_dependents, dependents_of.
  assert (∀ vs m, (∀ node, node ∈ vs → NoDup (dependencies node)) →
    default [] (foldl (λ m node, foldl (add_dependent (node_id node)) m (dependencies node)) m vs !! t)
    = default [] (m !! t) ++ (node_id <$> filter (λ node, t ∈ dependencies node) vs)) as Hgen.
  { induction vs as [|v vs IH]; intros m Hnd; simpl; [by rewrite (right_id_L [] (++))|].
    rewrite IH by set_solver. rewrite add_dependents_lookup by (apply Hnd; by left).
    rewrite <-(assoc_L (++)), filter_cons. f_equal. by case_decide. }
  rewrite Hgen; [by rewrite lookup_empty|].
  intros node [t' Ht']%elem_of_btree_values.
  rewrite (dependencies_of_node _ _ Ht'). apply (go_nodup _ Hok).
Qed.

Lemma elem_of_dependents t u : u ∈ dependents_of t ↔ is_Some (nodes !! u) ∧ depends nodes u t.
Proof.
  unfold dependents_of, depends. rewrite list_elem_of_fmap. split.
  - intros (node&->&[Hin [u' Hu]%elem_of_btree_values]%list_elem_of_filter).
    rewrite (go_keyed _ Hok _ _ Hu). rewrite <-(dependencies_of_node _ _ Hu). eauto.
  - intros [[node Hu] Ht]. exists node. rewrite (go_keyed _ Hok _ _ Hu). split; [done|].
    apply list_elem_of_filter. rewrite (dependencies_of_node _ _ Hu). split; [done|].
    apply elem_of_btree_values. eauto.
Qed.

Lemma NoDup_dependents t : NoDup (dependents_of t).
Proof.
  unfold dependents_of. pose proof (NoDup_btree_keys nodes) as Hnd.
  rewrite <-node_ids in Hnd. by apply NoDup_fmap_filter.
Qed.

Lemma release_all_spec L ind ready :
  NoDup L → (∀ u, u ∈ L → ∃ k, ind !! u = Some (S k)) →
  ∃ ind' ready', release_all (ind, ready) L = Some (ind', ready') ∧
    (∀ u, ind' !! u = if decide (u ∈ L) then pred <$> ind !! u else ind !! u) ∧
    (∀ u, u ∈ ready' ↔ u ∈ ready ∨ (u ∈ L ∧ ind !! u = Some 1)).
Proof.
  intros Hnd. revert ind ready. induction Hnd as [|d L Hd _ IH]; intros ind ready Hpos; cbn [release_all].
  { exists ind, ready. split_and!; [done| |]; intros u.
    - rewrite decide_False; [done|]. apply not_elem_of_nil.
    - rewrite elem_of_nil. tauto. }
  destruct (Hpos d) as [k Hk]; [by left|]. unfold release at 1. simpl. rewrite Hk. simpl.
  set (ready1 := if decide (k = 0) then {[d]} ∪ ready else ready).
  destruct (IH (<[d:=k]> ind) ready1) as (ind'&ready'&Hrel&Hind&Hready).
  { intros u Hu. rewrite lookup_insert_ne by (intros ->; done). apply Hpos. by right. }
  exists ind', ready'. split_and!; [done| |]; intros u.
  - rewrite Hind. destruct (decide (u = d)) as [->|Hne].
    + rewrite decide_False by done. rewrite decide_True by by left.
      by rewrite lookup_insert_eq, Hk.
    + rewrite lookup_insert_ne by done.
      assert (u ∈ d :: L ↔ u ∈ L) as Hiff by set_solver.
      by rewrite (decide_ext _ _ _ _ Hiff).
  - rewrite Hready, elem_of_cons. destruct (decide (u = d)) as [->|Hne].
    + rewrite lookup_insert_eq, Hk. subst ready1. case_decide; set_solver.
    + rewrite lookup_insert_ne by done. subst ready1. case_decide; set_solver.
Qed.

(** What the loop keeps. *)
Record kahn_inv (order : list TaskId) (ind : gmap TaskId nat) (ready : gset TaskId) : Prop := {
  ki_degree t : ind !! t = (λ _, open_degree nodes order t) <$> nodes !! t;
  ki_ready t : t ∈ ready ↔ is_Some (nodes !! t) ∧ t ∉ order ∧ open_degree nodes order t = 0;
  ki_nodup : NoDup order;
  ki_nodes t : t ∈ order → is_Some (nodes !! t);
  ki_sorted : sorted_prefix nodes order;
}.

Lemma initial_indegrees_lookup t :
  initial_indegrees nodes !! t = (λ _, length (dependencies_of nodes t)) <$> nodes !! t.
Proof.
  unfold initial_indegrees.
  assert (((λ node, (node_id node, length (dependencies node))) <$> btree_values nodes).*1 =
          btree_keys nodes) as Hkeys.
  { rewrite <-list_fmap_compose, <-node_ids. done. }
  destruct (nodes !! t) as [node|] eqn:Ht; simpl.
  - apply elem_of_list_to_map_1; [rewrite Hkeys; apply NoDup_btree_keys|].
    apply list_elem_of_fmap. exists node.
    rewrite (go_keyed _ Hok _ _ Ht), (dependencies_of_node _ _ Ht). split; [done|].
    apply elem_of_btree_values. eauto.
  - apply not_elem_of_list_to_map_1. rewrite Hkeys, elem_of_btree_keys, Ht. by intros [].
Qed.

Lemma kahn_inv_init :
  kahn_inv [] (initial_indegrees nodes) (initially_ready (initial_indegrees nodes)).
Proof.
  assert (∀ t, open_degree nodes [] t = length (dependencies_of nodes t)) as Hopen.
  { intros t. unfold open_degree. induction (dependencies_of nodes t) as [|d ds IH]; [done|].
    rewrite filter_cons_True by apply not_elem_of_nil. cbn [length]. by rewrite IH. }
  split; [| |constructor|by intros t ?%elem_of_nil|by intros i t Hi; rewrite lookup_nil in Hi].
  - intros t. by rewrite initial_indegrees_lookup, Hopen.
  - intros t. unfold initially_ready. rewrite elem_of_list_to_set, list_elem_of_filter.
    rewrite elem_of_btree_keys, initial_indegrees_lookup, Hopen.
    destruct (nodes !! t); simpl; split.
    + intros [[= ->] _]. split_and!; [done|apply not_elem_of_nil|done].
    + intros (_&_&->). done.
    + by intros [? []].
    + by intros [[] _].
Qed.

Lemma open_degree_snoc order t u :
  t ∉ order →
  open_degree nodes order u =
  open_degree nodes (order ++ [t]) u + (if decide (depends nodes u t) then 1 else 0).
Proof. intros Ht. apply filter_snoc_order; [done|]. apply (go_nodup _ Hok). Qed.

Lemma kahn_inv_step order ind ready t :
  kahn_inv order ind ready → t ∈ ready →
  ∃ ind' ready', release_all (ind, ready ∖ {[t]}) (dependents_of t) = Some (ind', ready') ∧
    kahn_inv (order ++ [t]) ind' ready'.
Proof.
  intros [Hdeg Hready Hnd Hnodes Hsorted] Ht.
  apply Hready in Ht as (Hnt&Hno&Hzero).
  assert (∀ u, u ∈ dependents_of t → ind !! u = Some (S (open_degree nodes (order ++ [t]) u)))
    as Hpos.
  { intros u [[node Hu] Hd]%elem_of_dependents. rewrite Hdeg, Hu. simpl.
    rewrite (open_degree_snoc order t u Hno), decide_True by done. f_equal. lia. }
  destruct (release_all_spec (dependents_of t) ind (ready ∖ {[t]})) as (ind'&ready'&Hrel&Hind&Hr).
  { apply NoDup_dependents. }
  { eauto. }
  exists ind', ready'. split; [done|]. split.
  - intros u. rewrite Hind. case_decide as Hu.
    + rewrite Hpos by done. apply elem_of_dependents in Hu as [[node ->] _]. done.
    + rewrite Hdeg. destruct (nodes !! u) eqn:Hn; [|done]. simpl. f_equal.
      rewrite (open_degree_snoc order t u Hno), decide_False; [lia|].
      intros Hd. apply Hu, elem_of_dependents. by rewrite Hn.
  - intros u. rewrite Hr, elem_of_difference, elem_of_singleton, Hready.
    rewrite not_elem_of_app. rewrite list_elem_of_singleton.
    rewrite (open_degree_snoc order t u Hno). split.
    + intros [[(?&?&?) ?]|[Hu Hone]].
      * split_and!; try done. case_decide; lia.
      * rewrite Hpos in Hone by done. simplify_eq.
        apply elem_of_dependents in Hu as [Hu Hd]. split_and!; [done| | |done].
        -- intros Hin. apply list_elem_of_lookup in Hin as [i Hi].
           destruct (Hsorted _ _ Hi _ Hd) as (j&_&Hj).
           by apply Hno, (list_elem_of_lookup_2 _ j).
        -- intros ->. apply Hno. by apply (open_degree_zero nodes order t).
    + intros (?&(?&?)&Hd0). case_decide as Hd.
      * right. assert (u ∈ dependents_of t) as Hu by by apply elem_of_dependents.
        split; [done|]. rewrite Hpos by done. by rewrite Hd0.
      * left. split_and!; try done. lia.
  - apply NoDup_app. split_and!; [done| |apply NoDup_singleton].
    intros u Hu ->%list_elem_of_singleton. done.
  - intros u [Hu|Hu]%elem_of_app; [auto|]. by apply list_elem_of_singleton in Hu as ->.
  - intros i u [Hi|[Hlen Hi]]%lookup_app_Some d Hd.
    + destruct (Hsorted _ _ Hi _ Hd) as (j&?&Hj). exists j. split; [done|].
      by apply lookup_app_l_Some.
    + apply list_lookup_singleton_Some in Hi as [Hi <-].
      apply open_degree_zero with (d := d) in Hzero; [|done].
      apply list_elem_of_lookup in Hzero as [j Hj]. exists j.
      pose proof (lookup_lt_Some _ _ _ Hj). split; [lia|]. by apply lookup_app_l_Some.
Qed.

Lemma kahn_order_length order ind ready : kahn_inv order ind ready → length order ≤ size nodes.
Proof.
  intros [_ _ Hnd Hnodes _]. rewrite <-(length_btree_keys nodes).
  apply submseteq_length, NoDup_submseteq; [done|].
  intros t Ht. apply elem_of_btree_keys. auto.
Qed.

(** The loop ends, with everything that could be sorted. *)
Lemma kahn_total fuel order ind ready :
  kahn_inv order ind ready → size nodes < fuel + length order →
  ∃ order' ind', kahn fuel (all_dependents nodes) ind ready order = Some order' ∧
    kahn_inv order' ind' ∅.
Proof.
  revert order ind ready. induction fuel as [|fuel IH]; intros order ind ready Hinv Hf.
  { pose proof (kahn_order_length _ _ _ Hinv). simpl in Hf. lia. }
  simpl. destruct (bset_pop_first ready) as [[t ready1]|] eqn:Hpop.
  - apply bset_pop_first_some in Hpop as (Ht&->&_). rewrite all_dependents_lookup.
    destruct (kahn_inv_step _ _ _ _ Hinv Ht) as (ind'&ready'&->&Hinv'). simpl.
    apply IH; [done|]. rewrite length_app. simpl. lia.
  - apply bset_pop_first_none in Hpop as ->. eauto.
Qed.

Lemma covers_of_length order :
  NoDup order → (∀ t, t ∈ order → is_Some (nodes !! t)) → length order = size nodes →
  ∀ t, is_Some (nodes !! t) → t ∈ order.
Proof.
  intros Hnd Hsub Hlen t Ht.
  assert (order ≡ₚ btree_keys nodes) as ->; [|by apply elem_of_btree_keys].
  apply submseteq_length_Permutation; [|by rewrite length_btree_keys, Hlen].
  apply NoDup_submseteq; [done|]. intros u Hu. apply elem_of_btree_keys. auto.
Qed.

Lemma topological_length order : topological nodes order → length order = size nodes.
Proof.
  intros (Hnd&Hiff&_). rewrite <-(length_btree_keys nodes). apply Permutation_length.
  apply NoDup_Permutation; [done|apply NoDup_btree_keys|].
  intros t. by rewrite Hiff, elem_of_btree_keys.
Qed.

Lemma sorted_tc_before order :
  sorted_prefix nodes order → ∀ t u, tc (depends nodes) t u →
  ∀ i, order !! i = Some t → ∃ j, j < i ∧ order !! j = Some u.
Proof.
  intros Hs t u Htc. induction Htc as [t u Htu|t v u Htv _ IH]; intros i Hi.
  - by eapply Hs.
  - destruct (Hs _ _ Hi _ Htv) as (j&Hji&Hj). destruct (IH _ Hj) as (k&?&?).
    exists k. split; [lia|done].
Qed.

Lemma topological_acyclic order : topological nodes order → acyclic nodes.
Proof.
  intros (Hnd&Hiff&Hs) t Htc.
  assert (is_Some (nodes !! t)) as Ht.
  { destruct (tc_first _ _ _ Htc) as [z Hz]. unfold depends, dependencies_of in Hz.
    destruct (nodes !! t); [done|]. by apply elem_of_nil in Hz. }
  apply Hiff, list_elem_of_lookup in Ht as [i Hi].
  destruct (sorted_tc_before _ Hs _ _ Htc _ Hi) as (j&Hji&Hj).
  assert (i = j) by by eapply NoDup_lookup. lia.
Qed.

#[local] Instance tc_depends_trans : Transitive (λ a b, tc (depends nodes) b a).
Proof. intros a b c Hab Hbc. by etrans. Qed.

(** An acyclic graph leaves nothing unsorted. *)
Lemma acyclic_covers order ind :
  kahn_inv order ind ∅ → acyclic nodes → ∀ t, is_Some (nodes !! t) → t ∈ order.
Proof.
  intros [_ Hready _ _ _] Hac t Ht. destruct (decide (t ∈ order)) as [|Hno]; [done|].
  set (rest := filter (λ u, u ∉ order) (dom nodes)).
  assert (rest ≢ ∅) as Hne.
  { intros Heq. assert (t ∈ rest) as Hin; [|by rewrite Heq in Hin].
    apply elem_of_filter. by rewrite elem_of_dom. }
  destruct (minimal_exists_elem_of (λ a b, tc (depends nodes) b a) rest Hne) as (x&Hx&Hmin).
  apply elem_of_filter in Hx as [Hxo Hx%elem_of_dom].
  assert (open_degree nodes order x ≠ 0) as Hopen.
  { intros Hz. assert (x ∈ (∅ : gset TaskId)); [|set_solver]. by apply Hready. }
  assert (¬ Forall (λ d, d ∈ order) (dependencies_of nodes x)) as Hex.
  { intros Hall. apply Hopen, open_degree_zero. intros d Hd.
    by eapply Forall_forall in Hall. }
  apply not_Forall_Exists in Hex; [|apply _].
  apply Exists_exists in Hex as (d&Hd&Hdo).
  assert (d ∈ rest) as Hdr.
  { apply elem_of_filter. rewrite elem_of_dom. split; [done|]. by eapply (go_exist _ Hok). }
  exfalso. apply (Hac x). etrans; [by constructor|].
  apply (Hmin d Hdr). by constructor.
Qed.

(** Kahn's sort succeeds exactly on acyclic graphs, with a topological order. *)
Lemma dag_sort_spec :
  (∃ order, dag_sort nodes = Some (Ok order) ∧ topological nodes order ∧ acyclic nodes) ∨
  (dag_sort nodes = Some (Err Cycle) ∧ ¬ acyclic nodes).
Proof.
  unfold dag_sort. pose proof kahn_inv_init as Hinit.
  destruct (kahn_total (S (size nodes)) _ _ _ Hinit) as (order&ind&->&Hinv); [simpl; lia|].
  simpl. pose proof Hinv as [_ _ Hnd Hnodes Hsorted]. case_decide as Hlen.
  - assert (topological nodes order) as Htop.
    { split_and!; [done| |done]. intros t. split; [apply Hnodes|].
      by apply covers_of_length. }
    left. exists order. split_and!; [done..|by eapply topological_acyclic].
  - right. split; [done|]. intros Hac. apply Hlen, topological_length. split_and!; [done| |done].
    intros t. split; [apply Hnodes|by eapply acyclic_covers].
Qed.
End sort.

(** * The checks *)

(** Overlapping scopes belong to tasks of which one depends on the other. *)
Definition scopes_compatible (nodes : nodes_map) (earlier later : TaskId * string) : Prop :=
  overlaps later.2 earlier.2 = true → related nodes later.1 earlier.1.

Record node_ok (nodes : nodes_map) (node : TaskNode) : Prop := {
  no_owner : owner node = Executor;
  no_scopes : write_scopes node ≠ [];
  no_safe : Forall (λ scope, is_safe_relative scope = true) (write_scopes node);
  no_unique : NoDup (dependencies node);
  no_exist : Forall (λ d, is_Some (nodes !! d)) (dependencies node);
}.

Lemma check_dependencies_ok nodes t seen deps u :
  check_dependencies nodes t seen deps = Ok u ↔
  NoDup deps ∧ Forall (λ d, is_Some (nodes !! d)) deps ∧ Forall (λ d, d ∉ seen) deps.
Proof.
  destruct u. revert seen. induction deps as [|d deps IH]; intros seen; simpl.
  { split; [|done]. intros _. split_and!; constructor. }
  rewrite NoDup_cons, !Forall_cons. case_decide as Hs; [by split; [|intros (_&_&?&_)]|].
  case_decide as He; [|by split; [|intros (_&[? _]&_)]].
  rewrite IH, !Forall_forall. split.
  - intros (?&?&Hseen). split_and!; [|done..|set_solver].
    intros Hd. specialize (Hseen d Hd). set_solver.
  - intros ([Hd ?]&[_ ?]&[_ ?]). split_and!; [done..|]. intros x Hx. set_solver.
Qed.

Lemma check_node_ok nodes node u : check_node nodes node = Ok u ↔ node_ok nodes node.
Proof.
  unfold check_node. rewrite result_bind_ok.
  assert (∀ u, reject_if (negb (bool_decide (owner node = Executor))) (InvalidOwner (node_id node))
            = Ok u ↔ owner node = Executor) as Howner.
  { intros v. rewrite reject_if_ok, negb_false_iff. apply bool_decide_eq_true. }
  assert (∀ u, reject_if (bool_decide (write_scopes node = [])) (InvalidScope (node_id node) "")
            = Ok u ↔ write_scopes node ≠ []) as Hscopes.
  { intros v. rewrite reject_if_ok. apply bool_decide_eq_false. }
  assert (∀ u, try_for_each (λ scope,
      reject_if (negb (is_safe_relative scope)) (InvalidScope (node_id node) scope))
      (write_scopes node) = Ok u ↔
      Forall (λ scope, is_safe_relative scope = true) (write_scopes node)) as Hsafe.
  { intros v. rewrite try_for_each_ok. apply Forall_iff. intros scope.
    by rewrite reject_if_ok, negb_false_iff. }
  setoid_rewrite result_bind_ok. setoid_rewrite result_bind_ok.
  setoid_rewrite Howner. setoid_rewrite Hscopes. setoid_rewrite Hsafe.
  setoid_rewrite check_dependencies_ok. split.
  - intros ([]&?&[]&?&[]&?&?&?&_). by split.
  - intros []. exists tt; split; [done|]. exists tt; split; [done|]. exists tt.
    split_and!; [done..|]. apply Forall_forall. set_solver.
Qed.

Lemma each_check_spec {A} (f : A → check) xs :
  (∀ x, x ∈ xs → is_Some (f x)) →
  ∃ r, each_check f xs = Some r ∧ (r = Ok tt ↔ Forall (λ x, f x = Some (Ok tt)) xs).
Proof.
  induction xs as [|x xs IH]; intros Htot; simpl; [by exists (Ok tt)|].
  destruct (Htot x) as [r Hx]; [by left|]. setoid_rewrite Forall_cons. rewrite !Hx.
  destruct r as [[]|e].
  - destruct IH as (r&->&Hr); [intros y Hy; apply Htot; by right|].
    exists r. split; [done|]. rewrite Hr. tauto.
  - exists (Err e). split; [done|]. split; [done|]. by intros [? _].
Qed.

Lemma check_overlap_spec nodes task scope other :
  ∃ r, check_overlap nodes task scope other = Some r ∧
    (r = Ok tt ↔ scopes_compatible nodes other (task, scope)).
Proof.
  unfold check_overlap, scopes_compatible. simpl.
  destruct (overlaps scope other.2); [|by eexists].
  destruct (dependency_ordered_spec nodes task other.1) as (r&->&Hr). simpl.
  eexists; split; [done|]. destruct r; split; try done.
  - intros _ _. by apply Hr.
  - intros Hrel. assert (false = true); [|done]. by apply Hr, Hrel.
Qed.

Lemma check_scopes_spec nodes todo seen :
  ∃ r, check_scopes nodes seen todo = Some r ∧
    (r = Ok tt ↔ Forall (λ x, Forall (λ other, scopes_compatible nodes other x) seen) todo ∧
                 ForallOrdPairs (scopes_compatible nodes) todo).
Proof.
  revert seen. induction todo as [|[task scope] todo IH]; intros seen; simpl.
  { exists (Ok tt). split; [done|]. split; [|done]. repeat constructor. }
  destruct (each_check_spec (check_overlap nodes task scope) seen) as (r&->&Hr).
  { intros other _. destruct (check_overlap_spec nodes task scope other) as (?&->&_). done. }
  assert (r = Ok tt ↔ Forall (λ other, scopes_compatible nodes other (task, scope)) seen) as Hr'.
  { rewrite Hr. apply Forall_iff. intros other.
    destruct (check_overlap_spec nodes task scope other) as (q&->&Hq). rewrite <-Hq.
    split; [by intros [= ->]|by intros ->]. }
  setoid_rewrite Forall_cons. destruct r as [[]|e].
  - destruct (IH (seen ++ [(task, scope)])) as (r&->&Hq). exists r. split; [done|].
    rewrite Hq. setoid_rewrite Forall_app. setoid_rewrite Forall_singleton.
    rewrite Forall_and. split.
    + intros [[? ?] ?]. split_and!; [by apply Hr'|done|]. by constructor.
    + intros [[_ ?] Hp]. by inversion Hp; subst.
  - eexists. split; [done|]. split; [done|]. intros [[Hs _] _]. by apply Hr' in Hs.
Qed.

Lemma validate_nodes_spec nodes :
  ∃ r, validate_nodes nodes = Some r ∧
    (r = Ok tt ↔ Forall (node_ok nodes) (btree_values nodes) ∧
                 ForallOrdPairs (scopes_compatible nodes) (scope_list nodes)).
Proof.
  unfold validate_nodes.
  destruct (try_for_each (check_node nodes) (btree_values nodes)) as [u|e] eqn:Hnodes.
  - apply try_for_each_ok in Hnodes.
    destruct (check_scopes_spec nodes (scope_list nodes) []) as (r&->&Hr).
    exists r. split; [done|]. rewrite Hr. split.
    + intros [_ ?]. split; [|done]. eapply Forall_impl; [exact Hnodes|].
      intros x Hx. by apply check_node_ok in Hx.
    + intros [_ ?]. split; [|done]. apply Forall_forall. intros. constructor.
  - eexists. split; [done|]. split; [done|]. intros [Hall _].
    assert (try_for_each (check_node nodes) (btree_values nodes) = Ok tt); [|congruence].
    apply try_for_each_ok. eapply Forall_impl; [exact Hall|].
    intros x Hx. by apply (check_node_ok nodes x tt).
Qed.

(** * Indexing *)

Definition index_map (input : list TaskNode) : nodes_map := index_by node_id ∅ input.

Definition keyed (m : nodes_map) : Prop := ∀ t node, m !! t = Some node → node_id node = t.

Lemma index_nodes_ok input m :
  try_fold index_node ∅ input = Ok m ↔ NoDup (node_id <$> input) ∧ m = index_map input.
Proof.
  rewrite (try_fold_index node_id _ (λ _, True)).
  - rewrite !Forall_forall. unfold index_map. split; [tauto|]. intros [? ->].
    by split_and!.
  - intros m0 node m'. unfold index_node. destruct (m0 !! node_id node); naive_solver.
Qed.

Lemma index_map_keyed input : keyed (index_map input).
Proof. intros t node. apply index_by_keyed. by intros. Qed.

(** * The properties of the task graph *)

(** What a valid graph is, said of the input alone. *)
Record valid_graph (input : list TaskNode) : Prop := {
  vg_nonempty : input ≠ [];
  vg_unique : NoDup (node_id <$> input);
  vg_nodes : Forall (node_ok (index_map input)) (btree_values (index_map input));
  vg_scopes : ForallOrdPairs (scopes_compatible (index_map input)) (scope_list (index_map input));
  vg_acyclic : acyclic (index_map input);
}.

Lemma nodes_ok_graph_ok m :
  keyed m → Forall (node_ok m) (btree_values m) → graph_ok m.
Proof.
  intros Hk Hall.
  assert (∀ t node, m !! t = Some node → node_ok m node) as Hnode.
  { intros t node Ht. eapply Forall_forall in Hall; [done|]. apply elem_of_btree_values. eauto. }
  split; [done| |]; unfold dependencies_of.
  - intros t. destruct (m !! t) as [node|] eqn:Ht; [|constructor].
    by destruct (Hnode _ _ Ht).
  - intros t d Hd. destruct (m !! t) as [node|] eqn:Ht; [|by apply elem_of_nil in Hd].
    destruct (Hnode _ _ Ht) as [_ _ _ _ He]. by eapply Forall_forall in He.
Qed.

(** The outcome of [validate], by the validity of the graph. *)
Lemma dag_validate_spec input :
  (valid_graph input ∧ ∃ order,
     dag_validate input = Some (Ok {| nodes := index_map input; topological_order := order |}) ∧
     topological (index_map input) order) ∨
  (¬ valid_graph input ∧ ∃ e, dag_validate input = Some (Err e)).
Proof.
  unfold dag_validate. case_decide as Hne.
  { right. split; [by intros []|eauto]. }
  destruct (try_fold index_node ∅ input) as [m|e] eqn:Hindex.
  2: { right. split; [|eauto]. intros [_ Hu _ _ _].
       assert (try_fold index_node ∅ input = Ok (index_map input)); [|congruence].
       by apply index_nodes_ok. }
  apply index_nodes_ok in Hindex as (Hunique&->).
  destruct (validate_nodes_spec (index_map input)) as (r&->&Hr). simpl.
  destruct r as [[]|e].
  2: { right. split; [|eauto]. intros [_ _ Hn Hs _].
       assert (@Err DagError unit e = Ok tt); [|done]. by apply Hr. }
  destruct (proj1 Hr eq_refl) as [Hnodes Hscopes].
  pose proof (nodes_ok_graph_ok _ (index_map_keyed input) Hnodes) as Hok.
  destruct (dag_sort_spec _ Hok) as [(order&->&Htop&Hac)|[-> Hac]]; simpl.
  - left. split; [by split|]. eauto.
  - right. split; [by intros []|]. eauto.
Qed.

(** A set of tasks that contains what its members depend on. *)
Definition closed (nodes : nodes_map) (completed : gset TaskId) : Prop :=
  ∀ t d, t ∈ completed → depends nodes t d → d ∈ completed.

Lemma validated_nodes input d :
  dag_validate input = Some (Ok d) →
  valid_graph input ∧ nodes d = index_map input ∧ topological (nodes d) (topological_order d).
Proof.
  intros H. destruct (dag_validate_spec input) as [(Hv&order&Hd&Htop)|(_&e&Hd)];
    rewrite Hd in H; by simplify_eq/=.
Qed.

Lemma elem_of_ready d completed t :
  keyed (nodes d) →
  t ∈ ready_tasks d completed ↔
  is_Some (nodes d !! t) ∧ t ∉ completed ∧ ∀ x, depends (nodes d) t x → x ∈ completed.
Proof.
  intros Hk. unfold ready_tasks, depends, dependencies_of.
  rewrite elem_of_list_to_set, list_elem_of_fmap. unfold is_ready.
  assert (∀ l, forallb (λ x, bool_decide (x ∈ completed)) l = true ↔ ∀ x, x ∈ l → x ∈ completed)
    as Hforall.
  { intros l. rewrite forallb_forall. setoid_rewrite <-list_elem_of_In.
    by setoid_rewrite bool_decide_eq_true. }
  split.
  - intros (node&->&[Hr [t' Ht]%elem_of_btree_values]%list_elem_of_filter).
    rewrite (Hk _ _ Ht), Ht. apply andb_true_iff in Hr as [Hno Hdeps].
    apply bool_decide_eq_true in Hno. rewrite (Hk _ _ Ht) in Hno.
    rewrite Hforall in Hdeps. eauto.
  - intros [[node Ht] [Hno Hdeps]]. rewrite Ht in Hdeps. exists node.
    rewrite (Hk _ _ Ht). split; [done|]. apply list_elem_of_filter.
    rewrite elem_of_btree_values. split; [|eauto].
    rewrite (Hk _ _ Ht), (proj2 (Hforall _) Hdeps), bool_decide_true; done.
Qed.

(** What a task depends on is completed before it is ready. *)
Lemma ready_depends_completed d completed a b :
  keyed (nodes d) → closed (nodes d) completed → a ∈ ready_tasks d completed →
  tc (depends (nodes d)) a b → b ∈ completed.
Proof.
  intros Hk Hc (_&_&Hdeps)%elem_of_ready Htc; [|done].
  destruct Htc as [a b Hab|a x b Hax Hxb]; [by apply Hdeps|].
  apply (tc_closed (depends (nodes d)) (λ v, v ∈ completed) (λ v, v ∈ completed) x b); auto.
  intros u v Hu Huv. split; by eapply Hc.
Qed.

Lemma scope_in_list m t node scope :
  m !! t = Some node → scope ∈ write_scopes node → (node_id node, scope) ∈ scope_list m.
Proof.
  intros Ht Hs. unfold scope_list. apply list_elem_of_join.
  exists (pair (node_id node) <$> write_scopes node). split.
  - apply list_elem_of_fmap. eauto.
  - apply list_elem_of_fmap. exists node. split; [done|]. apply elem_of_btree_values. eauto.
Qed.

(** Three tasks: the first two write below one directory, in sequence. *)
Definition sample_node (n : N) (scopes : list string) (deps : list N) : TaskNode :=
  {| node_id := word_of 128 n; owner := Executor; write_scopes := scopes;
     dependencies := word_of 128 <$> deps |}.
Definition sample_input : list TaskNode :=
  [sample_node 3 ["docs"] []; sample_node 2 ["src/lib"] [1%N]; sample_node 1 ["src"] []].
Definition sample_dag : TaskDag :=
  {| nodes := index_map sample_input;
     topological_order := word_of 128 <$> [1%N; 2%N; 3%N] |}.

Lemma sample_validates : dag_validate sample_input = Some (Ok sample_dag).
Proof.
  assert (match dag_validate sample_input with
          | Some (Ok d) => word_val <$> topological_order d = [1; 2; 3]%N
          | _ => False
          end) as H by by vm_compute.
  destruct (dag_validate_spec sample_input) as [(_&order&Hd&_)|(_&e&Hd)]; rewrite Hd in H; [|done].
  rewrite Hd. unfold sample_dag. do 3 f_equal. apply (inj (fmap (M := list) word_val)).
  exact H.
Qed.

(** C25. [validate] always returns, without a panic, and accepts exactly the
    valid graphs: at least one task, distinct identifiers, every task owned by
    the executor with at least one write scope, each a safe relative path,
    distinct dependencies on existing tasks, overlapping scopes only between
    tasks of which one depends on the other, and no cyclic dependency. *)
Theorem dag_validate_accepts_valid_graphs input :
  is_Some (dag_validate input) ∧
  ((∃ d, dag_validate input = Some (Ok d)) ↔ valid_graph input).
Proof.
  destruct (dag_validate_spec input) as [(Hv&order&Hd&Htop)|(Hv&e&Hd)]; rewrite Hd.
  - split; [eauto|]. split; eauto.
  - split; [eauto|]. split; [by intros [? ?]|done].
Qed.

(** The order of an accepted graph is topological: it holds every task of
    the input exactly once, each after everything it depends on. *)
Theorem dag_order_topological input d :
  dag_validate input = Some (Ok d) →
  NoDup (topological_order d) ∧
  (∀ t, t ∈ topological_order d ↔ is_Some (nodes d !! t)) ∧
  (∀ i t, topological_order d !! i = Some t →
     ∀ x, depends (nodes d) t x → ∃ j, j < i ∧ topological_order d !! j = Some x).
Proof. by intros (_&_&Htop)%validated_nodes. Qed.
Lemma dag_order_topological_witness :
  dag_validate sample_input = Some (Ok sample_dag) ∧ NoDup (topological_order sample_dag).
Proof.
  split; [exact sample_validates|].
  exact (proj1 (dag_order_topological sample_input sample_dag sample_validates)).
Defined.

(** C8. Two tasks that are ready at the same time never write to overlapping
    paths: with a set of completed tasks that holds the dependencies of its
    members, the write scopes of two distinct ready tasks are disjoint. *)
Theorem ready_tasks_write_disjoint input d completed a b node_a node_b scope_a scope_b :
  dag_validate input = Some (Ok d) → closed (nodes d) completed →
  a ∈ ready_tasks d completed → b ∈ ready_tasks d completed → a ≠ b →
  nodes d !! a = Some node_a → nodes d !! b = Some node_b →
  scope_a ∈ write_scopes node_a → scope_b ∈ write_scopes node_b →
  overlaps scope_a scope_b = false.
Proof.
  intros (Hv&Hn&_)%validated_nodes Hc Ha Hb Hab Hna Hnb Hsa Hsb.
  assert (keyed (nodes d)) as Hk by (rewrite Hn; apply index_map_keyed).
  apply not_true_iff_false. intros Hover.
  assert (¬ related (nodes d) a b) as Hrel.
  { intros [Htc|Htc].
    - pose proof (ready_depends_completed _ _ _ _ Hk Hc Ha Htc).
      apply elem_of_ready in Hb as (_&?&_); done.
    - pose proof (ready_depends_completed _ _ _ _ Hk Hc Hb Htc).
      apply elem_of_ready in Ha as (_&?&_); done. }
  pose proof (vg_scopes _ Hv) as Hpairs. rewrite <-Hn in Hpairs.
  pose proof (ForallOrdPairs_In Hpairs (node_id node_a, scope_a) (node_id node_b, scope_b)) as Hin.
  rewrite <-!list_elem_of_In in Hin.
  specialize (Hin (scope_in_list _ _ _ _ Hna Hsa) (scope_in_list _ _ _ _ Hnb Hsb)).
  unfold scopes_compatible in Hin. simpl in Hin.
  rewrite (Hk _ _ Hna), (Hk _ _ Hnb), (overlaps_sym scope_b), Hover in Hin.
  unfold related in *. destruct Hin as [?|[?|?]]; naive_solver.
Qed.
Lemma ready_tasks_write_disjoint_witness : overlaps "src" "docs" = false.
Proof.
  apply (ready_tasks_write_disjoint sample_input sample_dag ∅ (word_of 128 1) (word_of 128 3)
           (sample_node 1 ["src"] []) (sample_node 3 ["docs"] [])).
  - exact sample_validates.
  - intros t x Ht. by apply not_elem_of_empty in Ht.
  - vm_compute. reflexivity.
  - vm_compute. reflexivity.
  - intros H. apply (f_equal word_val) in H. vm_compute in H. discriminate.
  - vm_compute. reflexivity.
  - vm_compute. reflexivity.
  - by left.
  - by left.
Defined.

(** The schedule never stalls: while some task of an accepted graph is not
    completed, some task is ready, completing a ready task keeps the completed
    set closed, and [can_complete] accepts exactly the ready tasks. *)
Theorem ready_tasks_progress input d completed :
  dag_validate input = Some (Ok d) → closed (nodes d) completed →
  ((∃ t, is_Some (nodes d !! t) ∧ t ∉ completed) → ∃ t, t ∈ ready_tasks d completed) ∧
  (∀ t, t ∈ ready_tasks d completed → closed (nodes d) ({[t]} ∪ completed)) ∧
  (∀ t, can_complete d t completed = true ↔ t ∈ ready_tasks d completed).
Proof.
  intros (Hv&Hn&Hnd&Hiff&Hsorted)%validated_nodes Hc.
  assert (keyed (nodes d)) as Hk by (rewrite Hn; apply index_map_keyed). split_and!.
  - intros (t&[i Ht]%Hiff%list_elem_of_lookup&Hno). revert t Ht Hno.
    induction (lt_wf i) as [i _ IH]; intros t Ht Hno.
    destruct (decide (Forall (λ x, x ∈ completed) (dependencies_of (nodes d) t))) as [Hall|Hex].
    + exists t. apply elem_of_ready; [done|]. split_and!; [|done|].
      * apply Hiff. by eapply list_elem_of_lookup_2.
      * by apply Forall_forall.
    + apply not_Forall_Exists in Hex; [|apply _]. apply Exists_exists in Hex as (x&Hx&Hxo).
      destruct (Hsorted _ _ Ht _ Hx) as (j&Hj&Hxj). by eapply IH.
  - intros t (_&_&Hdeps)%elem_of_ready u x Hu Hux; [|done].
    apply elem_of_union in Hu as [->%elem_of_singleton|Hu]; apply elem_of_union_r; eauto.
  - intros t. rewrite elem_of_ready by done. unfold can_complete, depends, dependencies_of.
    rewrite andb_true_iff, bool_decide_eq_true. destruct (nodes d !! t) as [node|].
    + rewrite forallb_forall. setoid_rewrite <-list_elem_of_In.
      setoid_rewrite bool_decide_eq_true. naive_solver.
    + split; [by intros [_ ?]|by intros [[] _]].
Qed.
Lemma ready_tasks_progress_witness :
  closed (nodes sample_dag) {[word_of 128 1]} ∧
  ∃ t, t ∈ ready_tasks sample_dag {[word_of 128 1]}.
Proof.
  assert (closed (nodes sample_dag) {[word_of 128 1]}) as Hc.
  { intros t x ->%elem_of_singleton Hx. unfold depends in Hx.
    assert (dependencies_of (nodes sample_dag) (word_of 128 1) = []) as Hnil by by vm_compute.
    rewrite Hnil in Hx. by apply elem_of_nil in Hx. }
  split; [exact Hc|].
  apply (ready_tasks_progress sample_input sample_dag _ sample_validates Hc).
  exists (word_of 128 3). split.
  - vm_compute. eexists. reflexivity.
  - intros H. apply elem_of_singleton, (f_equal word_val) in H. vm_compute in H. discriminate.
Defined.
End Dag.
