(* ===== verification/Verdicts.v ===== *)
(** What reviewers and the arbiter report and how it is checked:
    workflow-core/src/evidence.rs, verdict.rs and review.rs. *)
From Stdlib Require Import Ascii String.
From S2P Require Import Prelude Text Ids Canonical WorkflowMachine.

(** * Evidence *)

Module Evidence.

Inductive EvidenceKind : Type :=
| Command | Test | Build | Lint | Database | Browser | Security | Inspection | Package.

Inductive EvidenceStatus : Type := Passed | Failed | Skipped.

#[export] Instance EvidenceKind_eq_dec : EqDecision EvidenceKind.
Proof. solve_decision. Defined.
#[export] Instance EvidenceStatus_eq_dec : EqDecision EvidenceStatus.
Proof. solve_decision. Defined.

Record EvidenceRecord : Type := {
  id : EvidenceId;
  candidate_digest : ContentDigest;
  kind : EvidenceKind;
  invocation : string;
  tool : string;
  tool_version : string;
  started_at : WorkflowTimestamp;
  finished_at : WorkflowTimestamp;
  exit_code : option Z;
  output_digest : ContentDigest;
  status : EvidenceStatus;
  skip_reason : option string;
}.

Inductive EvidenceValidationError : Type :=
| InvalidTimeRange | MissingInvocation | InvalidExitCode | MissingSkipReason
| UnexpectedSkipReason.

(** [EvidenceRecord::validate]; the arms of the [match] are tried in order. *)
Definition evidence_validate (r : EvidenceRecord) : result EvidenceValidationError unit :=
  if (finished_at r <? started_at r)%Z then Err InvalidTimeRange
  else if is_blank (invocation r) || is_blank (tool r) then Err MissingInvocation
  else
    let has_skip_reason := match skip_reason r with Some _ => true | None => false end in
    match status r with
    | Passed =>
        if negb (bool_decide (kind r = Inspection)) && negb (bool_decide (exit_code r = Some 0%Z))
        then Err InvalidExitCode
        else if has_skip_reason then Err UnexpectedSkipReason else Ok tt
    | Failed =>
        if match exit_code r with None => true | Some code => (code =? 0)%Z end
        then Err InvalidExitCode
        else if has_skip_reason then Err UnexpectedSkipReason else Ok tt
    | Skipped =>
        if match skip_reason r with None => true | Some reason => is_blank reason end
        then Err MissingSkipReason else Ok tt
    end.

(** What a valid record says. *)
Record evidence_consistent (r : EvidenceRecord) : Prop := {
  ec_time : (started_at r ≤ finished_at r)%Z;
  ec_source : is_blank (invocation r) = false ∧ is_blank (tool r) = false;
  ec_outcome :
    match status r with
    | Passed => (kind r = Inspection ∨ exit_code r = Some 0%Z) ∧ skip_reason r = None
    | Failed => (∃ code, exit_code r = Some code ∧ code ≠ 0%Z) ∧ skip_reason r = None
    | Skipped => ∃ reason, skip_reason r = Some reason ∧ is_blank reason = false
    end;
}.

(** An evidence record is accepted exactly when it is consistent: it does
    not end before it starts, names its invocation and tool, a pass has exit
    code zero unless it is an inspection, a failure has a non-zero exit code,
    and only a skipped record, which must say why, carries a skip reason. *)
Theorem evidence_accepted_iff_consistent r : evidence_validate r = Ok tt ↔ evidence_consistent r.
Proof.
  unfold evidence_validate. destruct (finished_at r <? started_at r)%Z eqn:Ht; to_prop.
  { split; [done|]. intros [? _ _]. lia. }
  destruct (is_blank (invocation r)) eqn:Hi; [by split; [|intros [_ [? ?] _]; congruence]|].
  destruct (is_blank (tool r)) eqn:Hl; [by split; [|intros [_ [? ?] _]; congruence]|]. simpl.
  assert (∀ Q, (Q ↔ match status r with
    | Passed => (kind r = Inspection ∨ exit_code r = Some 0%Z) ∧ skip_reason r = None
    | Failed => (∃ code, exit_code r = Some code ∧ code ≠ 0%Z) ∧ skip_reason r = None
    | Skipped => ∃ reason, skip_reason r = Some reason ∧ is_blank reason = false
    end) → (Q ↔ evidence_consistent r)) as Hout.
  { intros Q ->. split; [by intros; split|by intros []]. }
  apply Hout. destruct (status r).
  - destruct (bool_decide_reflect (kind r = Inspection)),
      (bool_decide_reflect (exit_code r = Some 0%Z)), (skip_reason r); simpl;
      (split; [by auto|by intros [[?|?] ?]]).
  - destruct (exit_code r) as [code|]; [|by split; [|intros [(?&?&?) ?]]].
    destruct (code =? 0)%Z eqn:Hc; [apply Z.eqb_eq in Hc|apply Z.eqb_neq in Hc];
      destruct (skip_reason r); (split; [by eauto|by intros [(?&[= <-]&?) ?]]).
  - destruct (skip_reason r) as [reason|]; [|by split; [|intros (?&?&?)]].
    destruct (is_blank reason) eqn:?; (split; [by eauto|by intros (?&[= <-]&?); congruence]).
Qed.
End Evidence.

(** * Findings and requirement decisions *)

Inductive RequirementStatus : Type := Satisfied | Unsatisfied.
#[export] Instance RequirementStatus_eq_dec : EqDecision RequirementStatus.
Proof. solve_decision. Defined.

Record RequirementDecision : Type := {
  requirement_id : string;
  requirement_status : RequirementStatus;
  requirement_evidence : gset EvidenceId;
}.

Inductive FindingSeverity : Type := Critical | High | Medium | Low | Info.

Definition is_severe (s : FindingSeverity) : bool :=
  match s with Critical | High => true | _ => false end.

Record Finding : Type := {
  severity : FindingSeverity;
  summary : string;
  finding_evidence : gset EvidenceId;
}.

(** The first referenced item that is not available, in the set's order: the
    [find] of the two [validate_evidence]. *)
Definition find_unknown (referenced available : gset EvidenceId) : option EvidenceId :=
  head (filter (λ e, e ∉ available) (bset_iter referenced)).

Definition validate_evidence {E} (unknown : EvidenceId → E) (referenced available : gset EvidenceId)
    : result E unit :=
  match find_unknown referenced available with
  | Some evidence_id => Err (unknown evidence_id)
  | None => Ok tt
  end.

Lemma validate_evidence_ok {E} (unknown : EvidenceId → E) referenced available u :
  validate_evidence unknown referenced available = Ok u ↔ referenced ⊆ available.
Proof.
  unfold validate_evidence, find_unknown. destruct u.
  destruct (filter (λ e, e ∉ available) (bset_iter referenced)) as [|e l] eqn:Hf; simpl.
  - split; [|done]. intros _ e He. destruct (decide (e ∈ available)) as [|Hno]; [done|].
    assert (e ∈ filter (λ e, e ∉ available) (bset_iter referenced)) as Hin.
    { apply list_elem_of_filter. by rewrite elem_of_bset_iter. }
    rewrite Hf in Hin. by apply elem_of_nil in Hin.
  - split; [done|]. intros Hsub. exfalso.
    assert (e ∈ e :: l) as Hin by by left. rewrite <-Hf in Hin.
    apply list_elem_of_filter in Hin as [Hno He%elem_of_bset_iter]. auto.
Qed.

(** What the decisions must say: one for each required item, no others. *)
Definition decisions_cover (required : gset string) (ds : list RequirementDecision) : Prop :=
  NoDup (requirement_id <$> ds) ∧ ∀ r, r ∈ requirement_id <$> ds ↔ r ∈ required.

Lemma existsb_false {A} (f : A → bool) l : existsb f l = false ↔ Forall (λ x, f x = false) l.
Proof.
  induction l as [|x l IH]; simpl; [by split|]. by rewrite orb_false_iff, Forall_cons, IH.
Qed.
Lemma existsb_true {A} (f : A → bool) l : existsb f l = true ↔ Exists (λ x, f x = true) l.
Proof.
  induction l as [|x l IH]; simpl; [split; [done|by intros ?%Exists_nil]|].
  by rewrite orb_true_iff, Exists_cons, IH.
Qed.

(** * The arbiter's verdict *)

Module Arbiter.

Inductive ArbiterDecision : Type := Approved | Rejected.
#[export] Instance ArbiterDecision_eq_dec : EqDecision ArbiterDecision.
Proof. solve_decision. Defined.

Record ArbiterVerdict : Type := {
  decision : ArbiterDecision;
  candidate_digest : ContentDigest;
  requirements : list RequirementDecision;
  findings : list Finding;
  repair_target : option Workflow.RepairTarget;
}.

Inductive VerdictValidationError : Type :=
| DuplicateRequirement (requirement_id : string)
| MissingRequirement (requirement_id : string)
| UnexpectedRequirement (requirement_id : string)
| MissingEvidence (requirement_id : string)
| UnknownEvidence (evidence_id : EvidenceId)
| UnmetRequirement (requirement_id : string)
| SevereFinding
| ApprovalHasRepairTarget
| MissingRepairTarget
| RejectionWithoutBasis.

(** One turn of the first loop. *)
Definition index_decision (required : gset string) (decisions : gmap string RequirementDecision)
    (d : RequirementDecision) : result VerdictValidationError (gmap string RequirementDecision) :=
  if decide (is_Some (decisions !! requirement_id d))
  then Err (DuplicateRequirement (requirement_id d))
  else if decide (requirement_id d ∈ required)
  then Ok (<[requirement_id d := d]> decisions)
  else Err (UnexpectedRequirement (requirement_id d)).

(** One turn of the second loop. *)
Definition check_required (v : ArbiterVerdict) (available : gset EvidenceId)
    (decisions : gmap string RequirementDecision) (r : string)
    : result VerdictValidationError unit :=
  d ← ok_or (MissingRequirement r) (decisions !! r);
  _ ← reject_if (bool_decide (requirement_evidence d = ∅)) (MissingEvidence r);
  _ ← validate_evidence UnknownEvidence (requirement_evidence d) available;
  reject_if (bool_decide (decision v = Approved) &&
             negb (bool_decide (requirement_status d = Satisfied))) (UnmetRequirement r).

Definition arbiter_outcome (v : ArbiterVerdict) : result VerdictValidationError unit :=
  match decision v with
  | Approved =>
      _ ← reject_if (bool_decide (is_Some (repair_target v))) ApprovalHasRepairTarget;
      reject_if (existsb (λ f, is_severe (severity f)) (findings v)) SevereFinding
  | Rejected =>
      _ ← reject_if (negb (bool_decide (is_Some (repair_target v)))) MissingRepairTarget;
      let has_basis :=
        existsb (λ d, bool_decide (requirement_status d = Unsatisfied)) (requirements v) ||
        negb (bool_decide (findings v = [])) in
      reject_if (negb has_basis) RejectionWithoutBasis
  end.

(** [ArbiterVerdict::validate]. *)
Definition verdict_validate (v : ArbiterVerdict) (required : gset string)
    (available_evidence : gset EvidenceId) : result VerdictValidationError unit :=
  decisions ← try_fold (index_decision required) ∅ (requirements v);
  _ ← try_for_each (check_required v available_evidence decisions) (bset_iter required);
  _ ← try_for_each (λ f, validate_evidence UnknownEvidence (finding_evidence f) available_evidence)
        (findings v);
  arbiter_outcome v.

(** [ArbiterVerdict::digest]. *)
Definition verdict_digest `{Sha256, ToJson ArbiterVerdict} (v : ArbiterVerdict)
    : option ContentDigest := json_digest v.

(** The contract of a verdict. *)
Record verdict_sound (v : ArbiterVerdict) (required : gset string)
    (available : gset EvidenceId) : Prop := {
  vs_cover : decisions_cover required (requirements v);
  vs_evidence : Forall (λ d, requirement_evidence d ≠ ∅ ∧ requirement_evidence d ⊆ available)
                  (requirements v);
  vs_findings : Forall (λ f, finding_evidence f ⊆ available) (findings v);
  vs_outcome :
    match decision v with
    | Approved =>
        Forall (λ d, requirement_status d = Satisfied) (requirements v) ∧
        Forall (λ f, is_severe (severity f) = false) (findings v) ∧ repair_target v = None
    | Rejected =>
        is_Some (repair_target v) ∧
        (Exists (λ d, requirement_status d = Unsatisfied) (requirements v) ∨ findings v ≠ [])
    end;
}.

Lemma index_decisions_ok required ds m :
  try_fold (index_decision required) ∅ ds = Ok m ↔
  NoDup (requirement_id <$> ds) ∧ Forall (λ d, requirement_id d ∈ required) ds ∧
  m = index_by requirement_id ∅ ds.
Proof.
  rewrite (try_fold_index requirement_id _ (λ d, requirement_id d ∈ required)).
  - rewrite (Forall_forall (λ x, ∅ !! _ = None)). split; [tauto|]. intros (?&?&?). by split_and!.
  - intros m0 d m'. unfold index_decision. rewrite eq_None_not_Some.
    case_decide; [naive_solver|]. case_decide; naive_solver.
Qed.

Lemma check_required_ok v available m r u :
  check_required v available m r = Ok u ↔
  ∃ d, m !! r = Some d ∧ requirement_evidence d ≠ ∅ ∧ requirement_evidence d ⊆ available ∧
    (decision v = Approved → requirement_status d = Satisfied).
Proof.
  destruct u. unfold check_required. rewrite result_bind_ok. setoid_rewrite ok_or_ok.
  assert (∀ d, (_ ← reject_if (bool_decide (requirement_evidence d = ∅)) (MissingEvidence r);
     _ ← validate_evidence UnknownEvidence (requirement_evidence d) available;
     reject_if (bool_decide (decision v = Approved) &&
                negb (bool_decide (requirement_status d = Satisfied))) (UnmetRequirement r)) = Ok tt
    ↔ requirement_evidence d ≠ ∅ ∧ requirement_evidence d ⊆ available ∧
      (decision v = Approved → requirement_status d = Satisfied)) as Hbody.
  { intros d. rewrite !result_then_ok, validate_evidence_ok, !reject_if_ok.
    rewrite bool_decide_eq_false, andb_false_iff, bool_decide_eq_false, negb_false_iff,
      bool_decide_eq_true.
    destruct (decide (decision v = Approved)); naive_solver. }
  by setoid_rewrite Hbody.
Qed.

Lemma arbiter_outcome_ok v u :
  arbiter_outcome v = Ok u ↔
  match decision v with
  | Approved => Forall (λ f, is_severe (severity f) = false) (findings v) ∧ repair_target v = None
  | Rejected =>
      is_Some (repair_target v) ∧
      (Exists (λ d, requirement_status d = Unsatisfied) (requirements v) ∨ findings v ≠ [])
  end.
Proof.
  destruct u. unfold arbiter_outcome. destruct (decision v); rewrite result_then_ok, !reject_if_ok.
  - rewrite bool_decide_eq_false, existsb_false, eq_None_not_Some. tauto.
  - rewrite negb_false_iff, bool_decide_eq_true.
    rewrite negb_false_iff, orb_true_iff, existsb_true, negb_true_iff, bool_decide_eq_false.
    by setoid_rewrite bool_decide_eq_true.
Qed.

(** The arbiter's verdict is accepted exactly when it is sound: it decides
    each required item once and no other, every decision cites evidence that is
    available, an approval has every item satisfied, no critical or high finding
    and no repair target, and a rejection names a repair target and rests on an
    unsatisfied item or a finding. *)
Theorem verdict_accepted_iff_sound v required available :
  verdict_validate v required available = Ok tt ↔ verdict_sound v required available.
Proof.
  unfold verdict_validate. rewrite result_bind_ok. setoid_rewrite index_decisions_ok. split.
  - intros (m&(Hnd&Hreq&->)&Hrest).
    rewrite !result_then_ok, !try_for_each_ok, arbiter_outcome_ok in Hrest.
    destruct Hrest as (Hall&Hf&Hout).
    rewrite Forall_forall in Hall.
    assert (∀ d, d ∈ requirements v → requirement_evidence d ≠ ∅ ∧
      requirement_evidence d ⊆ available ∧
      (decision v = Approved → requirement_status d = Satisfied)) as Hd.
    { intros d Hd. eapply Forall_forall in Hreq; [|exact Hd].
      apply elem_of_bset_iter, Hall, check_required_ok in Hreq as (d'&Hd'&Hrest).
      assert (index_by requirement_id ∅ (requirements v) !! requirement_id d = Some d) as Hd2
        by by apply index_by_lookup. by simplify_eq. }
    split.
    + split; [done|]. intros r. split.
      * intros (d&->&Hin)%list_elem_of_fmap. by eapply Forall_forall in Hreq.
      * intros Hr%elem_of_bset_iter%Hall%check_required_ok. destruct Hr as (d&Hd'&_).
        apply index_by_dom; eauto.
    + apply Forall_forall. intros d Hin. by destruct (Hd d Hin) as (?&?&_).
    + eapply Forall_impl; [exact Hf|]. intros f Hok. by apply validate_evidence_ok in Hok.
    + destruct (decision v); [|done]. destruct Hout. split_and!; try done.
      apply Forall_forall. intros d Hin. by apply Hd.
  - intros [[Hnd Hcov] Hev Hf Hout].
    exists (index_by requirement_id ∅ (requirements v)). split.
    { split_and!; [done| |done]. apply Forall_forall. intros d Hd. apply Hcov.
      by apply list_elem_of_fmap_2. }
    rewrite !result_then_ok, !try_for_each_ok, arbiter_outcome_ok. split_and!.
    + apply Forall_forall. intros r Hr%elem_of_bset_iter%Hcov.
      apply list_elem_of_fmap in Hr as (d&->&Hd). apply check_required_ok. exists d.
      rewrite index_by_lookup by done. rewrite Forall_forall in Hev.
      destruct (Hev d Hd). split_and!; try done. intros Ha. rewrite Ha in Hout.
      destruct Hout as [Hsat _]. by eapply Forall_forall in Hsat.
    + eapply Forall_impl; [exact Hf|]. intros f. by rewrite validate_evidence_ok.
    + by destruct (decision v); [destruct Hout as (_&?&?)|].
Qed.

Definition sample_verdict : ArbiterVerdict :=
  {| decision := Approved; candidate_digest := word_of 256 1;
     requirements := [{| requirement_id := "R1"; requirement_status := Satisfied;
                         requirement_evidence := {[word_of 128 5]} |}];
     findings := [{| severity := Low; summary := "naming"; finding_evidence := ∅ |}];
     repair_target := None |}.
End Arbiter.

(** * A reviewer's verdict *)

Module Review.

Inductive ReviewDecision : Type := Approved | Rejected.

Record ReviewVerdict : Type := {
  candidate_digest : ContentDigest;
  decision : ReviewDecision;
  findings : list Finding;
  repair_target : option Workflow.RepairTarget;
  requirements : list RequirementDecision;
  role : WorkflowRole;
}.

Inductive ReviewValidationError : Type :=
| ApprovalHasRepairTarget
| DuplicateRequirement (requirement_id : string)
| InvalidRole
| MissingEvidence (what : string)
| MissingRepairTarget
| MissingRequirement (requirement_id : string)
| RejectionWithoutBasis
| SevereFinding
| UnexpectedRequirement (requirement_id : string)
| UnknownEvidence (evidence_id : EvidenceId)
| UnmetRequirement (requirement_id : string).

(** [ReviewVerdict::digest]. *)
Definition review_digest `{Sha256, ToJson ReviewVerdict} (v : ReviewVerdict)
    : option ContentDigest := json_digest v.

Definition is_reviewer (r : WorkflowRole) : bool :=
  match r with FunctionalReviewer | SecurityArchitectureReviewer => true | _ => false end.

(** One turn of the loop over the decisions. *)
Definition check_decision (required : gset string) (available : gset EvidenceId)
    (decisions : gmap string RequirementDecision) (d : RequirementDecision)
    : result ReviewValidationError (gmap string RequirementDecision) :=
  if decide (requirement_id d ∈ required) then
    if decide (is_Some (decisions !! requirement_id d))
    then Err (DuplicateRequirement (requirement_id d))
    else if decide (requirement_evidence d = ∅) then Err (MissingEvidence (requirement_id d))
    else
      _ ← validate_evidence UnknownEvidence (requirement_evidence d) available;
      Ok (<[requirement_id d := d]> decisions)
  else Err (UnexpectedRequirement (requirement_id d)).

Definition check_finding (available : gset EvidenceId) (f : Finding)
    : result ReviewValidationError unit :=
  _ ← reject_if (bool_decide (finding_evidence f = ∅)) (MissingEvidence "finding");
  validate_evidence UnknownEvidence (finding_evidence f) available.

Definition review_outcome (v : ReviewVerdict) : result ReviewValidationError unit :=
  match decision v with
  | Approved =>
      _ ← reject_if (bool_decide (is_Some (repair_target v))) ApprovalHasRepairTarget;
      match head (filter (λ d, requirement_status d = Unsatisfied) (requirements v)) with
      | Some d => Err (UnmetRequirement (requirement_id d))
      | None => reject_if (existsb (λ f, is_severe (severity f)) (findings v)) SevereFinding
      end
  | Rejected =>
      _ ← reject_if (negb (bool_decide (is_Some (repair_target v)))) MissingRepairTarget;
      reject_if (bool_decide (findings v = []) &&
                 forallb (λ d, bool_decide (requirement_status d = Satisfied)) (requirements v))
        RejectionWithoutBasis
  end.

(** [ReviewVerdict::validate]. *)
Definition review_validate (v : ReviewVerdict) (required : gset string)
    (available_evidence : gset EvidenceId) : result ReviewValidationError unit :=
  _ ← reject_if (negb (is_reviewer (role v))) InvalidRole;
  decisions ← try_fold (check_decision required available_evidence) ∅ (requirements v);
  _ ← try_for_each (λ r, reject_if (negb (bool_decide (is_Some (decisions !! r))))
        (MissingRequirement r)) (bset_iter required);
  _ ← try_for_each (check_finding available_evidence) (findings v);
  review_outcome v.

(** The contract of a review. *)
Record review_sound (v : ReviewVerdict) (required : gset string)
    (available : gset EvidenceId) : Prop := {
  rs_role : is_reviewer (role v) = true;
  rs_cover : decisions_cover required (requirements v);
  rs_evidence : Forall (λ d, requirement_evidence d ≠ ∅ ∧ requirement_evidence d ⊆ available)
                  (requirements v);
  rs_findings : Forall (λ f, finding_evidence f ≠ ∅ ∧ finding_evidence f ⊆ available) (findings v);
  rs_outcome :
    match decision v with
    | Approved =>
        Forall (λ d, requirement_status d = Satisfied) (requirements v) ∧
        Forall (λ f, is_severe (severity f) = false) (findings v) ∧ repair_target v = None
    | Rejected =>
        is_Some (repair_target v) ∧
        (Exists (λ d, requirement_status d = Unsatisfied) (requirements v) ∨ findings v ≠ [])
    end;
}.

Lemma check_decisions_ok required available ds m :
  try_fold (check_decision required available) ∅ ds = Ok m ↔
  NoDup (requirement_id <$> ds) ∧
  Forall (λ d, requirement_id d ∈ required ∧ requirement_evidence d ≠ ∅ ∧
               requirement_evidence d ⊆ available) ds ∧
  m = index_by requirement_id ∅ ds.
Proof.
  rewrite (try_fold_index requirement_id _ (λ d, requirement_id d ∈ required ∧
    requirement_evidence d ≠ ∅ ∧ requirement_evidence d ⊆ available)).
  - rewrite (Forall_forall (λ x, ∅ !! _ = None)). split; [tauto|]. intros (?&?&?). by split_and!.
  - intros m0 d m'. unfold check_decision. rewrite eq_None_not_Some.
    case_decide; [|naive_solver]. case_decide; [naive_solver|]. case_decide; [naive_solver|].
    rewrite result_then_ok, validate_evidence_ok. naive_solver.
Qed.

Lemma unsatisfied_head ds :
  head (filter (λ d, requirement_status d = Unsatisfied) ds) = None ↔
  Forall (λ d, requirement_status d = Satisfied) ds.
Proof.
  induction ds as [|d ds IH]; [done|]. rewrite filter_cons, Forall_cons.
  case_decide as Hd; simpl; [split; [done|by intros [? _]; congruence]|].
  rewrite IH. split; [|tauto]. intros. split; [|done]. by destruct (requirement_status d).
Qed.

Lemma all_satisfied_false ds :
  forallb (λ d, bool_decide (requirement_status d = Satisfied)) ds = false ↔
  Exists (λ d, requirement_status d = Unsatisfied) ds.
Proof.
  induction ds as [|d ds IH]; simpl; [split; [done|by intros ?%Exists_nil]|].
  rewrite andb_false_iff, IH, bool_decide_eq_false, Exists_cons.
  destruct (requirement_status d); naive_solver.
Qed.

Lemma review_outcome_ok v u :
  review_outcome v = Ok u ↔
  match decision v with
  | Approved =>
        Forall (λ d, requirement_status d = Satisfied) (requirements v) ∧
        Forall (λ f, is_severe (severity f) = false) (findings v) ∧ repair_target v = None
  | Rejected =>
      is_Some (repair_target v) ∧
      (Exists (λ d, requirement_status d = Unsatisfied) (requirements v) ∨ findings v ≠ [])
  end.
Proof.
  destruct u. unfold review_outcome. destruct (decision v); rewrite result_then_ok, reject_if_ok.
  - rewrite bool_decide_eq_false, <-eq_None_not_Some, <-unsatisfied_head, <-existsb_false.
    destruct (head _); rewrite ?reject_if_ok; naive_solver.
  - rewrite negb_false_iff, bool_decide_eq_true, reject_if_ok, andb_false_iff,
      bool_decide_eq_false, all_satisfied_false. tauto.
Qed.

(** A review is accepted exactly when it is sound: its role is one of the
    two independent reviewers, it decides each required item once and no other,
    every decision and every finding cites evidence that is available, and its
    outcome is consistent, as for the arbiter. *)
Theorem review_accepted_iff_sound v required available :
  review_validate v required available = Ok tt ↔ review_sound v required available.
Proof.
  unfold review_validate. rewrite result_then_ok, reject_if_ok, negb_false_iff, result_bind_ok.
  setoid_rewrite check_decisions_ok.
  assert (∀ f, check_finding available f = Ok tt ↔
    finding_evidence f ≠ ∅ ∧ finding_evidence f ⊆ available) as Hfinding.
  { intros f. unfold check_finding.
    by rewrite result_then_ok, reject_if_ok, bool_decide_eq_false, validate_evidence_ok. }
  split.
  - intros (Hrole&m&(Hnd&Hds&->)&Hrest).
    rewrite !result_then_ok, !try_for_each_ok, review_outcome_ok in Hrest.
    destruct Hrest as (Hall&Hf&Hout). rewrite Forall_forall in Hall. rewrite Forall_forall in Hds.
    split; try done.
    + split; [done|]. intros r. split.
      * intros (d&->&Hin)%list_elem_of_fmap. by apply Hds.
      * intros Hr%elem_of_bset_iter%Hall. apply reject_if_ok in Hr.
        rewrite negb_false_iff, bool_decide_eq_true in Hr. by apply index_by_dom in Hr.
    + apply Forall_forall. intros d Hin. by destruct (Hds d Hin).
    + eapply Forall_impl; [exact Hf|]. intros f. by rewrite Hfinding.
  - intros [Hrole [Hnd Hcov] Hev Hf Hout]. split; [done|].
    exists (index_by requirement_id ∅ (requirements v)). split.
    + split_and!; [done| |done]. apply Forall_forall. intros d Hd.
      rewrite Forall_forall in Hev. destruct (Hev d Hd). split_and!; [|done..].
      apply Hcov. by apply list_elem_of_fmap_2.
    + rewrite !result_then_ok, !try_for_each_ok, review_outcome_ok. split_and!; [| |done].
      * apply Forall_forall. intros r Hr%elem_of_bset_iter%Hcov.
        apply reject_if_ok. rewrite negb_false_iff, bool_decide_eq_true. by apply index_by_dom.
      * eapply Forall_impl; [exact Hf|]. intros f. by rewrite Hfinding.
Qed.

(** More evidence on file does not make a sound review unsound. *)
Lemma review_sound_mono v required available available' :
  available ⊆ available' → review_sound v required available → review_sound v required available'.
Proof.
  intros Hsub [? ? Hev Hf ?]. split; try done.
  - eapply Forall_impl; [exact Hev|]. intros d [? ?]. split; [done|]. by etrans.
  - eapply Forall_impl; [exact Hf|]. intros f [? ?]. split; [done|]. by etrans.
Qed.
End Review.
