(* ===== verification/Candidates.v ===== *)
(** The candidate manifest of workflow-core/src/candidate.rs and the
    arbitration receipt of workflow-core/src/receipt.rs, with the digests that
    bind approvals to them. *)
From Stdlib Require Import Ascii String.
From S2P Require Import Prelude Text Ids Paths Canonical.

Module Candidate.

Definition LEGACY_PROTOCOL_V1_CANDIDATE_DOMAIN : string := "opencode-workflow/candidate/v1".

Inductive CandidateFileKind : Type := Added | Deleted | Generated | Modified.

Record CandidateFile : Type := {
  executable : bool;
  path : string;
  file_digest : option ContentDigest;
  kind : CandidateFileKind;
}.

Record CandidateDigests : Type := {
  configuration : ContentDigest;
  dependency_state : ContentDigest;
  diff : ContentDigest;
  environment : ContentDigest;
}.

Inductive CandidateError : Type :=
| InvalidPath (path : string)
| DuplicatePath (path : string)
| DuplicateEvidence (id : EvidenceId)
| InvalidDigestState (path : string).

Definition is_deleted (k : CandidateFileKind) : bool :=
  match k with Deleted => true | _ => false end.

(** [CandidateFile::new]. *)
Definition candidate_file_new (path : string) (digest : option ContentDigest)
    (kind : CandidateFileKind) : result CandidateError CandidateFile :=
  if negb (is_safe_relative path) then Err (InvalidPath path)
  else if negb (Bool.eqb (is_deleted kind) (bool_decide (digest = None)))
  then Err (InvalidDigestState path)
  else Ok {| executable := false; path := path; file_digest := digest; kind := kind |}.

Definition with_executable (executable : bool) (f : CandidateFile) : CandidateFile :=
  {| executable := executable; path := path f; file_digest := file_digest f; kind := kind f |}.

Record CandidateManifest : Type := {
  candidate_id : CandidateId;
  base_revision : option string;
  files : list CandidateFile;
  diff_digest : ContentDigest;
  dependency_state_digest : ContentDigest;
  configuration_digest : ContentDigest;
  environment_digest : ContentDigest;
  delivery_payload_digest : option ContentDigest;
  evidence_ids : list EvidenceId;
}.

(** The order [files] is sorted by. *)
Definition path_le (f g : CandidateFile) : Prop := key_le (path f) (path g).
#[export] Instance path_le_dec : RelDecision path_le := λ f g, key_le_dec (path f) (path g).

(** [for pair in files.windows(2)]. *)
Fixpoint check_adjacent (files : list CandidateFile) : result CandidateError unit :=
  match files with
  | f :: (g :: _) as files' =>
      if decide (path f = path g) then Err (DuplicatePath (path f)) else check_adjacent files'
  | _ => Ok tt
  end.

(** The loop over the evidence with the set of what was seen. *)
Fixpoint check_evidence (seen : gset EvidenceId) (ids : list EvidenceId)
    : result CandidateError unit :=
  match ids with
  | [] => Ok tt
  | id :: ids' =>
      if decide (id ∈ seen) then Err (DuplicateEvidence id)
      else check_evidence ({[id]} ∪ seen) ids'
  end.

(** [CandidateManifest::new]. *)
Definition candidate_new (candidate_id : CandidateId) (base_revision : option string)
    (files : list CandidateFile) (digests : CandidateDigests) (evidence_ids : list EvidenceId)
    : result CandidateError CandidateManifest :=
  let files := merge_sort path_le files in
  _ ← check_adjacent files;
  let evidence_ids := sort_unstable evidence_ids in
  _ ← check_evidence ∅ evidence_ids;
  Ok {| candidate_id := candidate_id; base_revision := base_revision; files := files;
        diff_digest := diff digests; dependency_state_digest := dependency_state digests;
        configuration_digest := configuration digests;
        environment_digest := environment digests;
        delivery_payload_digest := None; evidence_ids := evidence_ids |}.

Definition with_delivery_payload_digest (d : option ContentDigest) (m : CandidateManifest)
    : CandidateManifest :=
  {| candidate_id := candidate_id m; base_revision := base_revision m; files := files m;
     diff_digest := diff_digest m; dependency_state_digest := dependency_state_digest m;
     configuration_digest := configuration_digest m;
     environment_digest := environment_digest m;
     delivery_payload_digest := d; evidence_ids := evidence_ids m |}.

(** The manifest as it is read, before its check. *)
Record CandidateManifestUnchecked : Type := {
  u_candidate_id : CandidateId;
  u_base_revision : option string;
  u_files : list CandidateFile;
  u_diff_digest : ContentDigest;
  u_dependency_state_digest : ContentDigest;
  u_configuration_digest : ContentDigest;
  u_environment_digest : ContentDigest;
  u_delivery_payload_digest : option ContentDigest;
  u_evidence_ids : list EvidenceId;
}.

(** [TryFrom<CandidateManifestUnchecked>]. *)
Definition candidate_try_from (value : CandidateManifestUnchecked)
    : result CandidateError CandidateManifest :=
  m ← candidate_new (u_candidate_id value) (u_base_revision value) (u_files value)
        {| configuration := u_configuration_digest value;
           dependency_state := u_dependency_state_digest value;
           diff := u_diff_digest value;
           environment := u_environment_digest value |}
        (u_evidence_ids value);
  Ok (with_delivery_payload_digest (u_delivery_payload_digest value) m).

(** The manifest as [Serialize] writes it. *)
Definition candidate_unchecked (m : CandidateManifest) : CandidateManifestUnchecked :=
  {| u_candidate_id := candidate_id m; u_base_revision := base_revision m;
     u_files := files m; u_diff_digest := diff_digest m;
     u_dependency_state_digest := dependency_state_digest m;
     u_configuration_digest := configuration_digest m;
     u_environment_digest := environment_digest m;
     u_delivery_payload_digest := delivery_payload_digest m;
     u_evidence_ids := evidence_ids m |}.

Definition kind_text (k : CandidateFileKind) : string :=
  match k with
  | Added => "added" | Deleted => "deleted" | Generated => "generated" | Modified => "modified"
  end.

(** The writes of [CandidateManifest::digest] for one file. *)
Definition write_file : CandidateFile → writer :=
  write_seq (λ f, write_str (path f))
    (write_seq (λ f, write_optional_digest (file_digest f)) (λ f, write_str (kind_text (kind f)))).

(** The trailing payload digest: nothing at all is written without one. *)
Definition write_payload (d : option ContentDigest) : writer := λ h,
  match d with
  | Some d => h ← write_bool true h; write_digest d h
  | None => Some h
  end.

Definition write_candidate : CandidateManifest → writer :=
  write_seq (λ m, write_optional_str (base_revision m))
  (write_seq (λ m, write_list write_file (files m))
  (write_seq (λ m, write_digest (diff_digest m))
  (write_seq (λ m, write_digest (dependency_state_digest m))
  (write_seq (λ m, write_digest (configuration_digest m))
  (write_seq (λ m, write_digest (environment_digest m))
  (write_seq (λ m, write_list write_uuid (evidence_ids m))
     (λ m, write_payload (delivery_payload_digest m)))))))).

Definition candidate_digest `{Sha256} (m : CandidateManifest) : option ContentDigest :=
  hasher_finish <$> message LEGACY_PROTOCOL_V1_CANDIDATE_DOMAIN write_candidate m.

(** * Lemmas *)

#[export] Instance path_le_total : Total path_le.
Proof. intros f g. apply (total key_le). Qed.
#[export] Instance path_le_trans : Transitive path_le.
Proof. intros f g h. unfold path_le. apply transitivity. Qed.

Lemma check_adjacent_ok fs u :
  StronglySorted path_le fs → check_adjacent fs = Ok u ↔ NoDup (path <$> fs).
Proof.
  destruct u. induction 1 as [|f fs Hs IH Hle]; [split; [constructor|done]|].
  destruct fs as [|g fs].
  { split; [intros _; apply NoDup_singleton|done]. }
  cbn [check_adjacent]. case_decide as Heq.
  - split; [done|]. intros [Hf _]%NoDup_cons. destruct Hf. rewrite Heq. by left.
  - rewrite IH, (fmap_cons path f). rewrite NoDup_cons. split; [|tauto].
    intros Hnd. split; [|done]. intros (x&Hfx&Hx)%list_elem_of_fmap.
    apply elem_of_cons in Hx as [->|Hx]; [done|].
    apply StronglySorted_inv in Hs as [_ Hgx]. eapply Forall_forall in Hgx; [|exact Hx].
    apply Forall_cons in Hle as [Hfg _]. apply Heq. apply (anti_symm key_le); [done|].
    rewrite Hfx. exact Hgx.
Qed.

Lemma check_evidence_ok seen ids u :
  check_evidence seen ids = Ok u ↔ NoDup ids ∧ Forall (λ id, id ∉ seen) ids.
Proof.
  destruct u. revert seen. induction ids as [|id ids IH]; intros seen; simpl.
  { split; [|done]. intros _. split; constructor. }
  rewrite NoDup_cons, Forall_cons. case_decide; [by split; [|intros (_&?&_)]|].
  rewrite IH, !Forall_forall. split.
  - intros [? Hall]. split_and!; try done.
    + intros Hin. specialize (Hall id Hin). set_solver.
    + intros x Hx. specialize (Hall x Hx). set_solver.
  - intros ([Hid ?]&_&Hall). split; [done|]. intros x Hx. specialize (Hall x Hx). set_solver.
Qed.

Definition manifest_of (id : CandidateId) (base : option string) (fs : list CandidateFile)
    (d : CandidateDigests) (ev : list EvidenceId) : CandidateManifest :=
  {| candidate_id := id; base_revision := base; files := merge_sort path_le fs;
     diff_digest := diff d; dependency_state_digest := dependency_state d;
     configuration_digest := configuration d; environment_digest := environment d;
     delivery_payload_digest := None; evidence_ids := sort_unstable ev |}.

Lemma candidate_new_ok id base fs d ev m :
  candidate_new id base fs d ev = Ok m ↔
  NoDup (path <$> fs) ∧ NoDup ev ∧ m = manifest_of id base fs d ev.
Proof.
  unfold candidate_new. rewrite !result_then_ok.
  rewrite check_adjacent_ok by (apply StronglySorted_merge_sort; apply _).
  rewrite check_evidence_ok.
  assert (NoDup (path <$> merge_sort path_le fs) ↔ NoDup (path <$> fs)) as ->
    by by rewrite merge_sort_Permutation.
  assert (NoDup (sort_unstable ev) ↔ NoDup ev) as -> by by rewrite sort_unstable_perm.
  assert (Forall (λ id, id ∉ (∅ : gset EvidenceId)) (sort_unstable ev)) as Hempty.
  { apply Forall_forall. intros. apply not_elem_of_empty. }
  unfold manifest_of. split; [intros (?&[? _]&[= <-]); done|]. by intros (?&?&->).
Qed.

Lemma sorted_files_unique fs gs :
  NoDup (path <$> fs) → fs ≡ₚ gs → merge_sort path_le fs = merge_sort path_le gs.
Proof.
  intros Hnd Hp.
  apply (sorted_by_key_unique path); [|by rewrite !merge_sort_Permutation
    |apply (StronglySorted_merge_sort path_le)..]. by rewrite merge_sort_Permutation.
Qed.

(** A manifest that loads back as itself: every manifest the constructors give. *)
Definition loadable (m : CandidateManifest) : Prop :=
  candidate_try_from (candidate_unchecked m) = Ok m.

Lemma candidate_try_from_files u m : candidate_try_from u = Ok m → NoDup (path <$> files m).
Proof.
  unfold candidate_try_from. rewrite result_bind_ok.
  intros (m'&(Hnd&_&->)%candidate_new_ok&[= <-]). simpl. by rewrite merge_sort_Permutation.
Qed.

(** * The digest *)

Definition same_file (f g : CandidateFile) : Prop :=
  path f = path g ∧ file_digest f = file_digest g ∧ kind f = kind g.

(** Manifests a digest does not tell apart: they may differ in their identifier
    and in the executable flags. *)
Definition same_manifest (m n : CandidateManifest) : Prop :=
  base_revision m = base_revision n ∧ Forall2 same_file (files m) (files n) ∧
  diff_digest m = diff_digest n ∧ dependency_state_digest m = dependency_state_digest n ∧
  configuration_digest m = configuration_digest n ∧
  environment_digest m = environment_digest n ∧ evidence_ids m = evidence_ids n ∧
  delivery_payload_digest m = delivery_payload_digest n.

Lemma kind_text_inj k1 k2 : kind_text k1 = kind_text k2 → k1 = k2.
Proof. by destruct k1, k2. Qed.

Lemma prefix_code_file : prefix_code anything same_file write_file.
Proof.
  eapply prefix_code_mono.
  - eapply prefix_code_seq; [eapply (prefix_code_proj _ _ path), prefix_code_bytes|].
    eapply prefix_code_seq; [eapply (prefix_code_proj _ _ file_digest), prefix_code_optional_digest|].
    eapply (prefix_code_proj _ _ (λ f, kind_text (kind f))), prefix_code_bytes.
  - done.
  - intros f g _ _ (?&?&?%kind_text_inj). done.
Qed.

Lemma final_code_payload : final_code anything (=) write_payload.
Proof.
  pose proof prefix_code_digest as [He Hr]. split.
  - intros [d|] h h' H; simpl in H.
    + apply He in H as [e ->]. eexists. by rewrite <-str_app_assoc.
    + injection H as <-. exists "". by rewrite str_app_nil_r.
  - intros [d1|] [d2|] h x _ _ H1 H2; simpl in H1, H2.
    + by destruct (Hr d1 d2 _ x x "" "" I I H1 H2 eq_refl) as [-> _].
    + apply He in H1 as [e ->]. injection H2 as H2. apply (f_equal String.length) in H2.
      rewrite !length_str_app in H2. simpl in H2. lia.
    + apply He in H2 as [e ->]. injection H1 as H1. apply (f_equal String.length) in H1.
      rewrite !length_str_app in H1. simpl in H1. lia.
    + done.
Qed.

Lemma final_code_candidate : final_code anything same_manifest write_candidate.
Proof.
  eapply final_code_mono.
  - eapply final_code_seq; [eapply (prefix_code_proj _ _ base_revision), prefix_code_optional_str|].
    eapply final_code_seq; [eapply (prefix_code_proj _ _ files), prefix_code_list, prefix_code_file|].
    eapply final_code_seq; [eapply (prefix_code_proj _ _ diff_digest), prefix_code_digest|].
    eapply final_code_seq; [eapply (prefix_code_proj _ _ dependency_state_digest), prefix_code_digest|].
    eapply final_code_seq; [eapply (prefix_code_proj _ _ configuration_digest), prefix_code_digest|].
    eapply final_code_seq; [eapply (prefix_code_proj _ _ environment_digest), prefix_code_digest|].
    eapply final_code_seq; [eapply (prefix_code_proj _ _ evidence_ids), prefix_code_list, prefix_code_uuid|].
    eapply (final_code_proj _ _ delivery_payload_digest), final_code_payload.
  - intros m _. repeat split; by apply Forall_forall.
  - intros m n _ _ (?&?&?&?&?&?&?%Forall2_eq&?). by split_and!.
Qed.

Lemma write_files_executable bs fs h :
  length bs = length fs →
  write_all write_file (zip_with with_executable bs fs) h = write_all write_file fs h.
Proof.
  revert fs h. induction bs as [|b bs IH]; intros [|f fs] h Hl; simpl in *; try done.
  change (write_file (with_executable b f) h) with (write_file f h).
  destruct (write_file f h) as [h'|]; simpl; [|done]. apply IH. lia.
Qed.

Definition set_files (fs : list CandidateFile) (m : CandidateManifest) : CandidateManifest :=
  {| candidate_id := candidate_id m; base_revision := base_revision m; files := fs;
     diff_digest := diff_digest m; dependency_state_digest := dependency_state_digest m;
     configuration_digest := configuration_digest m;
     environment_digest := environment_digest m;
     delivery_payload_digest := delivery_payload_digest m; evidence_ids := evidence_ids m |}.

(** * The properties of the manifest *)

Definition sample_file (p : string) (k : CandidateFileKind) (n : N) : CandidateFile :=
  {| executable := false; path := p; file_digest := Some (word_of 256 n); kind := k |}.
Definition sample_digests : CandidateDigests :=
  {| configuration := word_of 256 1; dependency_state := word_of 256 2; diff := word_of 256 3;
     environment := word_of 256 4 |}.
Definition sample_manifest : CandidateManifest :=
  manifest_of (word_of 128 1) (Some "main")
    [sample_file "src/b.rs" Modified 7; sample_file "src/a.rs" Added 8] sample_digests
    [word_of 128 6].

(** A manifest is built exactly from files with distinct paths and distinct
    evidence; what is built does not depend on the order they are given in,
    and what was stored loads back unchanged. *)
Theorem candidate_canonical id base fs gs d ev fv payload :
  fs ≡ₚ gs → ev ≡ₚ fv →
  ((∃ m, candidate_new id base fs d ev = Ok m) ↔ NoDup (path <$> fs) ∧ NoDup ev) ∧
  (∀ m, candidate_new id base fs d ev = Ok m →
     candidate_new id base gs d fv = Ok m ∧
     files m ≡ₚ fs ∧ evidence_ids m ≡ₚ ev ∧
     let stored := with_delivery_payload_digest payload m in
     candidate_try_from (candidate_unchecked stored) = Ok stored).
Proof.
  intros Hfs Hev. split.
  - setoid_rewrite candidate_new_ok. split; [by intros (m&?&?&_)|]. intros [??]. by eexists.
  - intros m (Hnd&Hne&->)%candidate_new_ok. split_and!.
    + apply candidate_new_ok. split_and!; [by rewrite <-Hfs|by rewrite <-Hev|].
      unfold manifest_of. by rewrite (sorted_files_unique fs gs Hnd Hfs), (sort_unstable_perm_eq ev fv Hev).
    + simpl. apply merge_sort_Permutation.
    + simpl. apply sort_unstable_perm.
    + intros stored. unfold candidate_try_from. cbn [u_candidate_id u_base_revision u_files
        u_evidence_ids u_configuration_digest u_dependency_state_digest u_diff_digest
        u_environment_digest u_delivery_payload_digest candidate_unchecked].
      assert (candidate_new (candidate_id stored) (base_revision stored) (files stored)
        {| configuration := configuration_digest stored;
           dependency_state := dependency_state_digest stored; diff := diff_digest stored;
           environment := environment_digest stored |} (evidence_ids stored) =
        Ok (manifest_of id base fs d ev)) as ->; [|done].
      apply candidate_new_ok. subst stored. unfold manifest_of. cbn [files evidence_ids
        candidate_id base_revision configuration_digest dependency_state_digest diff_digest
        environment_digest with_delivery_payload_digest configuration dependency_state diff
        environment]. split_and!.
      * by rewrite merge_sort_Permutation.
      * by rewrite sort_unstable_perm.
      * rewrite sort_unstable_idemp. f_equal. symmetry. rewrite <-(sorted_files_unique fs); [done..|].
        by rewrite merge_sort_Permutation.
Qed.

Lemma candidate_canonical_witness :
  ∃ m, candidate_new (word_of 128 1) None
         [sample_file "src/a.rs" Added 8; sample_file "src/b.rs" Modified 7] sample_digests [] = Ok m ∧
       candidate_new (word_of 128 1) None
         [sample_file "src/b.rs" Modified 7; sample_file "src/a.rs" Added 8] sample_digests [] = Ok m.
Proof.
  destruct (candidate_canonical (word_of 128 1) None
    [sample_file "src/a.rs" Added 8; sample_file "src/b.rs" Modified 7]
    [sample_file "src/b.rs" Modified 7; sample_file "src/a.rs" Added 8]
    sample_digests [] [] None) as [[_ Hex] Hall].
  - apply Permutation_swap.
  - constructor.
  - destruct Hex as [m Hm].
    + split; [|constructor]. apply NoDup_cons. split; [|apply NoDup_singleton].
      intros H%list_elem_of_singleton. discriminate.
    + exists m. split; [exact Hm|]. exact (proj1 (Hall m Hm)).
Defined.

Definition set_candidate_id (id : CandidateId) (m : CandidateManifest) : CandidateManifest :=
  {| candidate_id := id; base_revision := base_revision m;
     configuration_digest := configuration_digest m;
     delivery_payload_digest := delivery_payload_digest m;
     dependency_state_digest := dependency_state_digest m; diff_digest := diff_digest m;
     environment_digest := environment_digest m; evidence_ids := evidence_ids m;
     files := files m |}.

(** C23. The candidate digest binds the candidate: two manifests with the same
    digest have the same base revision, the same files with their digests and
    kinds, the same state digests, evidence and delivery payload, or their
    canonical messages are an explicit collision of the hash. The identifier
    and the executable flags are not bound: giving the manifest any other
    identifier, or its files any other flags, leaves its digest as it is. *)
Theorem candidate_digest_binds `{Sha256} m n d id bs :
  candidate_digest m = Some d → candidate_digest n = Some d →
  length bs = length (files m) →
  (same_manifest m n ∨
   ∃ x y, message LEGACY_PROTOCOL_V1_CANDIDATE_DOMAIN write_candidate m = Some x ∧
     message LEGACY_PROTOCOL_V1_CANDIDATE_DOMAIN write_candidate n = Some y ∧
     x ≠ y ∧ sha256 x = sha256 y) ∧
  candidate_digest (set_candidate_id id m) = Some d ∧
  candidate_digest (set_files (zip_with with_executable bs (files m)) m) = Some d.
Proof.
  intros Hm Hn Hl. split; [by apply (digest_reads _ _ _ _ m n d final_code_candidate)|].
  split; [exact Hm|].
  rewrite <-Hm. unfold candidate_digest, message. destruct (hasher_new _) as [h|]; [|done].
  simpl. unfold write_candidate, write_seq, write_list. simpl.
  destruct (write_optional_str _ _) as [h1|]; simpl; [|done].
  rewrite length_zip_with, Hl, Nat.min_id.
  destruct (write_length _ h1) as [h2|]; simpl; [|done]. by rewrite write_files_executable.
Qed.
Lemma candidate_digest_binds_witness :
  let _ := toy_sha256 in
  ∃ d, candidate_digest sample_manifest = Some d ∧
    candidate_digest (set_candidate_id (word_of 128 9) sample_manifest) = Some d ∧
    candidate_digest (set_files (zip_with with_executable [true; false] (files sample_manifest))
      sample_manifest) = Some d.
Proof.
  intros sha. destruct (candidate_digest sample_manifest) as [d|] eqn:Hd.
  - exists d. split; [reflexivity|].
    apply (candidate_digest_binds sample_manifest sample_manifest d (word_of 128 9) [true; false]);
      [exact Hd|exact Hd|reflexivity].
  - exfalso. vm_compute in Hd. discriminate.
Defined.
End Candidate.

(** * The arbitration receipt *)

Module Receipt.

Definition LEGACY_PROTOCOL_V1_ARBITRATION_RECEIPT_DOMAIN : string :=
  "opencode-workflow/arbitration-receipt/v1".

Record ArbitrationReceipt : Type := {
  arbiter_verdict_digest : ContentDigest;
  candidate_digest : ContentDigest;
  candidate_id : CandidateId;
  evidence_ids : gset EvidenceId;
  finalized_at : WorkflowTimestamp;
  functional_review_digest : option ContentDigest;
  id : ReceiptId;
  request_digest : ContentDigest;
  security_review_digest : option ContentDigest;
  workflow_id : WorkflowId;
}.

Section digest.
Context `{Sha256, Rfc3339}.

(** The writes of [ArbitrationReceipt::digest]. *)
Definition write_receipt : ArbitrationReceipt → writer :=
  write_seq (λ r, write_uuid (id r))
  (write_seq (λ r, write_uuid (workflow_id r))
  (write_seq (λ r, write_uuid (candidate_id r))
  (write_seq (λ r, write_digest (request_digest r))
  (write_seq (λ r, write_digest (candidate_digest r))
  (write_seq (λ r, write_optional_digest (functional_review_digest r))
  (write_seq (λ r, write_optional_digest (security_review_digest r))
  (write_seq (λ r, write_digest (arbiter_verdict_digest r))
  (write_seq (λ r, write_text (timestamp_to_string (finalized_at r)))
     (λ r, write_list write_uuid (bset_iter (evidence_ids r))))))))))).

Definition receipt_digest (r : ArbitrationReceipt) : option ContentDigest :=
  hasher_finish <$> message LEGACY_PROTOCOL_V1_ARBITRATION_RECEIPT_DOMAIN write_receipt r.

(** Receipts a digest does not tell apart: equal but for how the time of the
    decision is written. *)
Definition same_receipt (r s : ArbitrationReceipt) : Prop :=
  id r = id s ∧ workflow_id r = workflow_id s ∧ candidate_id r = candidate_id s ∧
  request_digest r = request_digest s ∧ candidate_digest r = candidate_digest s ∧
  functional_review_digest r = functional_review_digest s ∧
  security_review_digest r = security_review_digest s ∧
  arbiter_verdict_digest r = arbiter_verdict_digest s ∧
  timestamp_to_string (finalized_at r) = timestamp_to_string (finalized_at s) ∧
  evidence_ids r = evidence_ids s.

Lemma final_code_receipt : final_code anything same_receipt write_receipt.
Proof.
  eapply final_code_mono.
  - eapply final_code_seq; [eapply (prefix_code_proj _ _ id), prefix_code_uuid|].
    eapply final_code_seq; [eapply (prefix_code_proj _ _ workflow_id), prefix_code_uuid|].
    eapply final_code_seq; [eapply (prefix_code_proj _ _ candidate_id), prefix_code_uuid|].
    eapply final_code_seq; [eapply (prefix_code_proj _ _ request_digest), prefix_code_digest|].
    eapply final_code_seq; [eapply (prefix_code_proj _ _ candidate_digest), prefix_code_digest|].
    eapply final_code_seq;
      [eapply (prefix_code_proj _ _ functional_review_digest), prefix_code_optional_digest|].
    eapply final_code_seq;
      [eapply (prefix_code_proj _ _ security_review_digest), prefix_code_optional_digest|].
    eapply final_code_seq;
      [eapply (prefix_code_proj _ _ arbiter_verdict_digest), prefix_code_digest|].
    eapply final_code_seq; [eapply (prefix_code_proj _ _
      (λ r, timestamp_to_string (finalized_at r))), prefix_code_text|].
    eapply (final_code_proj _ _ (λ r, bset_iter (evidence_ids r))), final_code_prefix,
      prefix_code_list, prefix_code_uuid.
  - intros r _. repeat split. by apply Forall_forall.
  - intros r s _ _ (?&?&?&?&?&?&?&?&?&?%Forall2_eq%bset_iter_inj). by split_and!.
Qed.

(** The receipt digest binds the decision: two receipts with one digest
    agree on every field, up to how the time is written, or their canonical
    messages are an explicit collision of the hash. *)
Theorem receipt_digest_binds r s d :
  receipt_digest r = Some d → receipt_digest s = Some d →
  same_receipt r s ∨
  ∃ x y, message LEGACY_PROTOCOL_V1_ARBITRATION_RECEIPT_DOMAIN write_receipt r = Some x ∧
    message LEGACY_PROTOCOL_V1_ARBITRATION_RECEIPT_DOMAIN write_receipt s = Some y ∧
    x ≠ y ∧ sha256 x = sha256 y.
Proof. by apply (digest_reads _ _ _ _ r s d final_code_receipt). Qed.
End digest.

Definition sample_receipt (n : N) : ArbitrationReceipt :=
  {| arbiter_verdict_digest := word_of 256 1; candidate_digest := word_of 256 2;
     candidate_id := word_of 128 3; evidence_ids := {[word_of 128 4; word_of 128 5]};
     finalized_at := 6%Z; functional_review_digest := Some (word_of 256 7);
     id := word_of 128 n; request_digest := word_of 256 9; security_review_digest := None;
     workflow_id := word_of 128 10 |}.

Lemma receipt_digest_binds_witness :
  let sha : Sha256 := toy_sha256 in let fmt : Rfc3339 := toy_rfc3339 in
  ∃ d, receipt_digest (sample_receipt 8) = Some d ∧
  (same_receipt (sample_receipt 8) (sample_receipt 8) ∨
   ∃ x y, message LEGACY_PROTOCOL_V1_ARBITRATION_RECEIPT_DOMAIN write_receipt (sample_receipt 8) = Some x ∧
    message LEGACY_PROTOCOL_V1_ARBITRATION_RECEIPT_DOMAIN write_receipt (sample_receipt 8) = Some y ∧
    x ≠ y ∧ sha256 x = sha256 y).
Proof.
  intros sha fmt. destruct (receipt_digest (sample_receipt 8)) as [d|] eqn:Hd.
  - exists d. split; [reflexivity|]. exact (receipt_digest_binds _ _ d Hd Hd).
  - exfalso. vm_compute in Hd. discriminate.
Defined.
End Receipt.
