(* ===== verification/Routing.v ===== *)
(** The choice of a workflow's mode from its risks:
    workflow-core/src/routing.rs. *)
From S2P Require Import Prelude Text Ids WorkflowMachine.

Module Routing.
Import Workflow.

Inductive RiskCategory : Type :=
| Authentication | Authorization | Cryptography | Secrets | TrustBoundary | DatabaseMigration
| Persistence | DataIntegrity | NewDependency | PublicApi | Protocol | Schema | Compatibility
| CrossLayer | Concurrency | DistributedSystem | Packaging | Installation | Update | Release
| Deployment | LargeRefactor | AmbiguousRequirement | HighImpact | DifficultToReverse
| Documentation | LocalizedChange | TestOnly.

#[export] Instance RiskCategory_eq_dec : EqDecision RiskCategory.
Proof. solve_decision. Defined.

Definition CRITICAL : list RiskCategory :=
  [Authentication; Authorization; Cryptography; Secrets; TrustBoundary; DatabaseMigration;
   Persistence; DataIntegrity; NewDependency; PublicApi; Protocol; Schema; Compatibility;
   CrossLayer; Concurrency; DistributedSystem; Packaging; Installation; Update; Release;
   Deployment; LargeRefactor; AmbiguousRequirement; HighImpact; DifficultToReverse].

Definition is_critical (c : RiskCategory) : bool :=
  match c with Documentation | LocalizedChange | TestOnly => false | _ => true end.

(** The derived order is the order of the declarations. *)
Definition all_categories : list RiskCategory :=
  CRITICAL ++ [Documentation; LocalizedChange; TestOnly].
Definition category_index (c : RiskCategory) : nat :=
  default 0 (fst <$> list_find (eq c) all_categories).
Definition category_at (n : nat) : RiskCategory := default TestOnly (all_categories !! n).

Lemma category_at_index c : category_at (category_index c) = c.
Proof. by destruct c. Qed.
#[export] Instance category_index_inj : Inj (=) (=) category_index.
Proof. intros a b H. by rewrite <-(category_at_index a), <-(category_at_index b), H. Qed.
#[export] Instance RiskCategory_countable : Countable RiskCategory :=
  inj_countable' category_index category_at category_at_index.
#[export] Instance RiskCategory_ordered : Ordered RiskCategory := ordered_by_index category_index.

Inductive RiskSource : Type := Deterministic | User | ModelAdvisory.
#[export] Instance RiskSource_eq_dec : EqDecision RiskSource.
Proof. solve_decision. Defined.

Record RiskFact : Type := {
  category : RiskCategory;
  path_backed : bool;
  source : RiskSource;
}.

Inductive UserRoutingPreference : Type := PreferAuto | PreferQuick | PreferFull.
#[export] Instance UserRoutingPreference_eq_dec : EqDecision UserRoutingPreference.
Proof. solve_decision. Defined.

Record RoutingInput : Type := {
  facts : list RiskFact;
  preference : UserRoutingPreference;
  critical_downgrade_approval : option ReceiptId;
}.

Record RoutingDecision : Type := {
  decided_mode : WorkflowMode;
  critical_categories : list RiskCategory;
  advisory_categories : list RiskCategory;
  user_promoted : bool;
  downgrade_approval_required : bool;
  downgrade_approval : option ReceiptId;
}.

Definition is_advisory (f : RiskFact) : bool := bool_decide (source f = ModelAdvisory).
Definition is_critical_fact (f : RiskFact) : bool :=
  negb (is_advisory f) && is_critical (category f).

(** [.filter(p).map(category).collect::<BTreeSet<_>>().into_iter().collect()]. *)
Definition collect_categories (p : RiskFact → bool) (facts : list RiskFact) : list RiskCategory :=
  bset_iter (list_to_set (category <$> filter (λ f, p f = true) facts)).

(** [route_workflow]. *)
Definition route_workflow (input : RoutingInput) : RoutingDecision :=
  let critical := collect_categories is_critical_fact (facts input) in
  let advisory := collect_categories is_advisory (facts input) in
  let path_backed_critical :=
    existsb (λ f, is_critical_fact f && path_backed f) (facts input) in
  let prefers p := bool_decide (preference input = p) in
  let has_critical := negb (bool_decide (critical = [])) in
  let has_approval := bool_decide (is_Some (critical_downgrade_approval input)) in
  let user_promoted := prefers PreferFull in
  let requested_downgrade := prefers PreferQuick && has_critical in
  let approved_downgrade := requested_downgrade && has_approval in
  let auto_requires_full := path_backed_critical || (2 <=? length critical) in
  {| decided_mode :=
       if user_promoted || (prefers PreferQuick && has_critical && negb approved_downgrade)
          || (prefers PreferAuto && auto_requires_full)
       then Full else Quick;
     critical_categories := critical;
     advisory_categories := advisory;
     user_promoted := user_promoted;
     downgrade_approval_required := requested_downgrade && negb approved_downgrade;
     downgrade_approval := if approved_downgrade then critical_downgrade_approval input else None |}.

(** * Lemmas *)

#[local] Arguments Nat.leb : simpl never.

(** The facts a routing rests on. *)
Definition binding_facts (l : list RiskFact) : list RiskFact :=
  filter (λ f, is_critical_fact f = true) l.
Definition set_facts (l : list RiskFact) (i : RoutingInput) : RoutingInput :=
  {| facts := l; preference := preference i;
     critical_downgrade_approval := critical_downgrade_approval i |}.

Lemma elem_of_collect p l c :
  c ∈ collect_categories p l ↔ ∃ f, f ∈ l ∧ p f = true ∧ category f = c.
Proof.
  unfold collect_categories. rewrite elem_of_bset_iter, elem_of_list_to_set, list_elem_of_fmap.
  setoid_rewrite list_elem_of_filter. naive_solver.
Qed.

Lemma collect_binding l :
  collect_categories is_critical_fact (binding_facts l) = collect_categories is_critical_fact l.
Proof.
  unfold collect_categories, binding_facts. rewrite list_filter_filter.
  do 3 f_equal. apply list_filter_iff. tauto.
Qed.

Lemma existsb_binding l :
  existsb (λ f, is_critical_fact f && path_backed f) (binding_facts l) =
  existsb (λ f, is_critical_fact f && path_backed f) l.
Proof.
  unfold binding_facts. induction l as [|f l IH]; [done|]. rewrite filter_cons.
  case_decide as Hf; simpl; rewrite IH; [done|]. by apply not_true_is_false in Hf as ->.
Qed.

Lemma existsb_mono {A} (p : A → bool) l k : l ⊆ k → existsb p l = true → existsb p k = true.
Proof.
  intros Hsub (x&Hx&Hp)%existsb_exists. apply existsb_exists. exists x.
  split; [|done]. by apply list_elem_of_In, Hsub, list_elem_of_In.
Qed.

Lemma collect_mono p l k : l ⊆ k →
  collect_categories p l ⊆ collect_categories p k ∧
  length (collect_categories p l) ≤ length (collect_categories p k).
Proof.
  intros Hsub.
  assert (collect_categories p l ⊆ collect_categories p k) as Hc.
  { intros c (f&Hf&?&?)%elem_of_collect. apply elem_of_collect. eauto. }
  split; [done|]. apply submseteq_length, NoDup_submseteq; [apply NoDup_bset_iter|done].
Qed.

(** More facts never lower the mode. *)
Lemma route_monotone i l :
  facts i ⊆ l → decided_mode (route_workflow i) = Full →
  decided_mode (route_workflow (set_facts l i)) = Full.
Proof.
  intros Hsub. destruct (collect_mono is_critical_fact _ _ Hsub) as [Hc Hlen].
  unfold route_workflow. simpl.
  destruct (preference i); simpl; try done.
  - destruct (existsb _ (facts i)) eqn:He.
    { by rewrite (existsb_mono _ _ _ Hsub He). }
    destruct (2 <=? length (collect_categories is_critical_fact (facts i))) eqn:Hn; [|done].
    apply Nat.leb_le in Hn.
    assert (2 <=? length (collect_categories is_critical_fact l) = true) as ->
      by (apply Nat.leb_le; lia).
    intros _. by rewrite orb_true_r.
  - destruct (bool_decide_reflect (collect_categories is_critical_fact (facts i) = [])) as [|Hne];
      [done|]. simpl.
    destruct (bool_decide_reflect (collect_categories is_critical_fact l = [])) as [Heq|];
      [|by simpl; destruct (bool_decide _)].
    rewrite Heq in Hlen. destruct (collect_categories is_critical_fact (facts i)); [done|].
    simpl in Hlen. lia.
Qed.

(** * The properties of the routing *)

Definition sample_input (p : UserRoutingPreference) (approval : option ReceiptId) : RoutingInput :=
  {| facts := [{| category := Cryptography; path_backed := true; source := Deterministic |};
               {| category := Release; path_backed := false; source := ModelAdvisory |};
               {| category := Documentation; path_backed := true; source := User |}];
     preference := p; critical_downgrade_approval := approval |}.

(** Risk is never routed away silently: a workflow with a critical risk
    that is not merely a model's advice runs in quick mode only when the user
    asked for it and approved the downgrade, or left the choice open with one
    critical category and no path behind it; and whenever the approval is
    reported as missing the mode is full. *)
Theorem quick_mode_needs_approval i f :
  f ∈ facts i → is_critical_fact f = true →
  decided_mode (route_workflow i) = Quick →
  (preference i = PreferQuick ∧ is_Some (critical_downgrade_approval i) ∧
   downgrade_approval (route_workflow i) = critical_downgrade_approval i) ∨
  (preference i = PreferAuto ∧ critical_categories (route_workflow i) = [category f] ∧
   path_backed f = false).
Proof.
  intros Hf Hcrit. unfold route_workflow. simpl.
  assert (category f ∈ collect_categories is_critical_fact (facts i)) as Hin
    by (apply elem_of_collect; eauto).
  destruct (preference i); simpl; try done.
  - destruct (existsb _ (facts i)) eqn:He; [done|]. simpl.
    destruct (2 <=? _) eqn:Hlen; [done|]. intros _. right. split; [done|]. split.
    + apply Nat.leb_gt in Hlen. destruct (collect_categories _ _) as [|c [|c' l]];
        simpl in *; [by apply elem_of_nil in Hin| |lia].
      by apply list_elem_of_singleton in Hin as ->.
    + destruct (path_backed f) eqn:Hp; [|done]. rewrite <-He. symmetry.
      apply existsb_exists. exists f. split; [by apply list_elem_of_In|]. by rewrite Hcrit, Hp.
  - rewrite (bool_decide_false (collect_categories is_critical_fact (facts i) = []))
      by (intros Hnil; rewrite Hnil in Hin; by apply elem_of_nil in Hin).
    simpl. case_bool_decide; simpl; [|done]. intros _. by left.
Qed.
Lemma quick_mode_needs_approval_witness :
  preference (sample_input PreferQuick (Some (word_of 128 1))) = PreferQuick ∧
  (preference (sample_input PreferQuick (Some (word_of 128 1))) = PreferQuick ∧
   is_Some (Some (word_of 128 1)) ∧
   downgrade_approval (route_workflow (sample_input PreferQuick (Some (word_of 128 1)))) =
     Some (word_of 128 1) ∨
   (preference (sample_input PreferQuick (Some (word_of 128 1))) = PreferAuto ∧
    critical_categories (route_workflow (sample_input PreferQuick (Some (word_of 128 1)))) =
      [Cryptography] ∧ true = false)).
Proof.
  split; [reflexivity|].
  apply (quick_mode_needs_approval (sample_input PreferQuick (Some (word_of 128 1)))
    {| category := Cryptography; path_backed := true; source := Deterministic |}).
  - by left.
  - reflexivity.
  - vm_compute. reflexivity.
Defined.

(** Advice does not decide: the mode, the critical categories and the
    downgrade approval depend only on the critical facts that are not model
    advice, and giving more facts never turns a full workflow into a quick
    one. *)
Theorem routing_ignores_advice_and_is_monotone i l :
  facts i ⊆ l →
  let bound := route_workflow (set_facts (binding_facts (facts i)) i) in
  decided_mode (route_workflow i) = decided_mode bound ∧
  critical_categories (route_workflow i) = critical_categories bound ∧
  downgrade_approval (route_workflow i) = downgrade_approval bound ∧
  (decided_mode (route_workflow i) = Full →
   decided_mode (route_workflow (set_facts l i)) = Full).
Proof.
  intros Hsub bound. unfold bound, route_workflow at 1 2 3 4 5 6. simpl.
  rewrite collect_binding, existsb_binding. split_and!; [done..|].
  by apply route_monotone.
Qed.
Lemma routing_ignores_advice_and_is_monotone_witness :
  decided_mode (route_workflow (sample_input PreferAuto None)) = Full ∧
  decided_mode (route_workflow (set_facts
    (facts (sample_input PreferAuto None) ++
     [{| category := TestOnly; path_backed := false; source := User |}])
    (sample_input PreferAuto None))) = Full.
Proof.
  split; [vm_compute; reflexivity|].
  apply (routing_ignores_advice_and_is_monotone (sample_input PreferAuto None)).
  - intros f Hf. apply elem_of_app. by left.
  - vm_compute. reflexivity.
Defined.
End Routing.
