(* ===== verification/Plans.v ===== *)
(** The architecture plan of workflow-core/src/architecture.rs and the
    versioned envelope of workflow-core/src/protocol.rs. *)
From Stdlib Require Import Ascii String.
From S2P Require Import Prelude Text Ids Canonical Requests Dag Verdicts Candidates.

Module Plan.
Local Open Scope N_scope.

Definition MAX_ITEMS : N := 256.
Definition MAX_TEXT_BYTES : N := 4096.

Record Requirement : Type := {
  requirement_criteria : list string;
  requirement_key : string;
  statement : string;
}.

Record PlannedTask : Type := {
  task_criteria : list string;
  task_dependencies : list TaskId;
  task_id : TaskId;
  objective : string;
  requirement_ids : list string;
  title : string;
  verification_commands : list string;
  task_write_scopes : list string;
}.

Record ArchitecturePlan : Type := {
  assumptions : list string;
  integration_checks : list string;
  request_digest : ContentDigest;
  requirements : list Requirement;
  risks : list string;
  tasks : list PlannedTask;
}.

Inductive ArchitectureError : Type :=
| DagFailed (e : Dag.DagError)
| EmptyAcceptanceCriteria
| EmptyIntegrationChecks
| InvalidRequirement
| InvalidTask
| LimitExceeded
| MissingRequirementCoverage (id : string)
| UnknownRequirement (id : string).

Definition valid_text (value : string) : bool :=
  negb (is_blank value) && (str_len value <=? MAX_TEXT_BYTES) && negb (contains_char nul value).

Definition is_key_byte (a : ascii) : bool :=
  is_ascii_alphanumeric a || is_char "-" a || is_char "_" a || is_char "." a.
Definition valid_key (value : string) : bool :=
  negb (bool_decide (value = "")) && (str_len value <=? 64) && str_all is_key_byte value.

Definition validate_texts (values : list string) : result ArchitectureError unit :=
  reject_if (existsb (λ value, negb (valid_text value)) values) InvalidTask.

Definition is_empty {A} (l : list A) : bool := match l with [] => true | _ => false end.
Definition over_limit {A} (l : list A) : bool := MAX_ITEMS <? N.of_nat (length l).

(** One turn of the loop over the requirements: the index says of each whether
    a task covers it. *)
Definition index_requirement (index : gmap string bool) (r : Requirement)
    : result ArchitectureError (gmap string bool) :=
  _ ← reject_if (negb (valid_key (requirement_key r)) || negb (valid_text (statement r)))
        InvalidRequirement;
  _ ← reject_if (is_empty (requirement_criteria r)) EmptyAcceptanceCriteria;
  _ ← validate_texts (requirement_criteria r);
  match index !! requirement_key r with
  | Some _ => Err InvalidRequirement
  | None => Ok (<[requirement_key r := false]> index)
  end.

(** The loop over a task's requirements. *)
Fixpoint link_requirements (linked : gset string) (index : gmap string bool) (ids : list string)
    : result ArchitectureError (gmap string bool) :=
  match ids with
  | [] => Ok index
  | id :: ids' =>
      if decide (id ∈ linked) then Err InvalidTask
      else match index !! id with
           | None => Err (UnknownRequirement id)
           | Some _ => link_requirements ({[id]} ∪ linked) (<[id := true]> index) ids'
           end
  end.

(** One turn of the loop over the tasks. *)
Definition check_task (index : gmap string bool) (t : PlannedTask)
    : result ArchitectureError (gmap string bool) :=
  _ ← reject_if (negb (valid_text (title t)) || negb (valid_text (objective t)) ||
                 is_empty (requirement_ids t) || is_empty (verification_commands t)) InvalidTask;
  _ ← reject_if (is_empty (task_criteria t)) EmptyAcceptanceCriteria;
  _ ← validate_texts (task_criteria t);
  _ ← validate_texts (verification_commands t);
  link_requirements ∅ index (requirement_ids t).

Definition dag_node (t : PlannedTask) : Dag.TaskNode :=
  {| Dag.node_id := task_id t; Dag.owner := Executor; Dag.write_scopes := task_write_scopes t;
     Dag.dependencies := task_dependencies t |}.

(** [requirement_index.iter().find(|(_, covered)| !covered)]. *)
Definition find_uncovered (index : gmap string bool) : option string :=
  head (filter (λ p : string * bool, p.2 = false) (btree_iter index)).*1.

(** [ArchitecturePlan::validate]; [None] is a panic of the graph check. *)
Definition plan_validate (request_digest : ContentDigest) (requirements : list Requirement)
    (tasks : list PlannedTask) (assumptions risks integration_checks : list string)
    : option (result ArchitectureError ArchitecturePlan) :=
  let checked :=
    _ ← reject_if (is_empty requirements || over_limit requirements || is_empty tasks ||
          over_limit tasks || over_limit assumptions || over_limit risks ||
          over_limit integration_checks) LimitExceeded;
    _ ← validate_texts assumptions;
    _ ← validate_texts risks;
    _ ← reject_if (is_empty integration_checks) EmptyIntegrationChecks;
    _ ← validate_texts integration_checks;
    index ← try_fold index_requirement ∅ requirements;
    try_fold check_task index tasks in
  match checked with
  | Err e => Some (Err e)
  | Ok index =>
      dag ← Dag.dag_validate (dag_node <$> tasks);
      Some (
        _ ← map_err DagFailed dag;
        match find_uncovered index with
        | Some id => Err (MissingRequirementCoverage id)
        | None => Ok {| assumptions := assumptions; integration_checks := integration_checks;
                        request_digest := request_digest; requirements := requirements;
                        risks := risks; tasks := tasks |}
        end)
  end.

Definition plan_digest `{Sha256, ToJson ArchitecturePlan} (p : ArchitecturePlan)
    : option ContentDigest := json_digest p.

(** The check on loading: the stored plan is validated again. *)
Definition plan_try_from (p : ArchitecturePlan) : option (result ArchitectureError ArchitecturePlan) :=
  plan_validate (request_digest p) (requirements p) (tasks p) (assumptions p) (risks p)
    (integration_checks p).

(** * The contract of a plan *)

Definition texts_ok (l : list string) : Prop := Forall (λ t, valid_text t = true) l.
Definition within_limit {A} (l : list A) : Prop := N.of_nat (length l) ≤ MAX_ITEMS.

Record requirement_ok (r : Requirement) : Prop := {
  ro_key : valid_key (requirement_key r) = true;
  ro_statement : valid_text (statement r) = true;
  ro_criteria : requirement_criteria r ≠ [] ∧ texts_ok (requirement_criteria r);
}.

Record task_ok (t : PlannedTask) : Prop := {
  to_title : valid_text (title t) = true;
  to_objective : valid_text (objective t) = true;
  to_criteria : task_criteria t ≠ [] ∧ texts_ok (task_criteria t);
  to_commands : verification_commands t ≠ [] ∧ texts_ok (verification_commands t);
  to_linked : requirement_ids t ≠ [] ∧ NoDup (requirement_ids t);
}.

Record plan_ok (p : ArchitecturePlan) : Prop := {
  po_requirements : requirements p ≠ [] ∧ within_limit (requirements p) ∧
    Forall requirement_ok (requirements p) ∧ NoDup (requirement_key <$> requirements p);
  po_tasks : tasks p ≠ [] ∧ within_limit (tasks p) ∧ Forall task_ok (tasks p);
  po_texts : within_limit (assumptions p) ∧ texts_ok (assumptions p) ∧
    within_limit (risks p) ∧ texts_ok (risks p);
  po_checks : integration_checks p ≠ [] ∧ within_limit (integration_checks p) ∧
    texts_ok (integration_checks p);
  po_known : ∀ t id, t ∈ tasks p → id ∈ requirement_ids t →
    id ∈ requirement_key <$> requirements p;
  po_covered : ∀ r, r ∈ requirements p → ∃ t, t ∈ tasks p ∧ requirement_key r ∈ requirement_ids t;
  po_graph : Dag.valid_graph (dag_node <$> tasks p);
}.

(** * Lemmas *)

Lemma is_empty_false {A} (l : list A) : is_empty l = false ↔ l ≠ [].
Proof. by destruct l. Qed.

Lemma over_limit_false {A} (l : list A) : over_limit l = false ↔ within_limit l.
Proof. unfold over_limit, within_limit. apply N.ltb_ge. Qed.

Lemma validate_texts_ok l u : validate_texts l = Ok u ↔ texts_ok l.
Proof.
  unfold validate_texts. rewrite reject_if_ok, existsb_false. unfold texts_ok.
  apply Forall_iff. intros t. apply negb_false_iff.
Qed.

Lemma index_requirement_ok index r index' :
  index_requirement index r = Ok index' ↔
  index !! requirement_key r = None ∧ requirement_ok r ∧
  index' = <[requirement_key r := false]> index.
Proof.
  unfold index_requirement. rewrite !result_then_ok, !reject_if_ok, orb_false_iff,
    !negb_false_iff, is_empty_false, validate_texts_ok.
  destruct (index !! requirement_key r); split.
  - by intros (_&_&_&?).
  - by intros [? _].
  - intros ([? ?]&?&?&[= <-]). split_and!; [done| |done]. by split.
  - by intros (_&[? ? [? ?]]&->).
Qed.

(** The index with some of its keys set. *)
Definition assign (b : bool) (index : gmap string bool) (ids : list string) : gmap string bool :=
  foldl (λ m id, <[id := b]> m) index ids.
Abbreviation mark := (assign true).

Lemma assign_lookup b index ids id :
  assign b index ids !! id = if decide (id ∈ ids) then Some b else index !! id.
Proof.
  unfold assign. revert index. induction ids as [|x ids IH]; intros index; cbn [foldl].
  { rewrite decide_False; [done|apply not_elem_of_nil]. }
  rewrite IH. destruct (decide (id ∈ ids)) as [|Hno].
  { rewrite decide_True; [done|by right]. }
  destruct (decide (x = id)) as [->|Hne].
  - rewrite decide_True by (by left). by rewrite lookup_insert_eq.
  - rewrite lookup_insert_ne by done. rewrite decide_False; [done|].
    intros [?|?]%elem_of_cons; congruence.
Qed.

(** The index after the requirements: the keys, none covered yet. *)
Lemma index_requirements_ok rs m0 m :
  try_fold index_requirement m0 rs = Ok m ↔
  Forall requirement_ok rs ∧ NoDup (requirement_key <$> rs) ∧
  Forall (λ r, m0 !! requirement_key r = None) rs ∧
  m = assign false m0 (requirement_key <$> rs).
Proof.
  revert m0. induction rs as [|r rs IH]; intros m0; simpl.
  { split; [intros [= <-]; by repeat constructor|]. by intros (_&_&_&->). }
  rewrite NoDup_cons, !Forall_cons.
  destruct (index_requirement m0 r) as [m1|e] eqn:Hr.
  - apply index_requirement_ok in Hr as (Hnone&Hok&->). rewrite IH, !Forall_forall. split.
    + intros (?&?&Hall&->). split_and!; try done.
      * intros (x&Heq&Hin)%list_elem_of_fmap. specialize (Hall x Hin).
        by rewrite Heq, lookup_insert_eq in Hall.
      * intros x Hin. specialize (Hall x Hin). by apply lookup_insert_None in Hall as [? _].
    + intros ([_ ?]&[Hnot ?]&[_ Hall]&->). split_and!; try done. intros x Hin.
      apply lookup_insert_None. split; [by apply Hall|]. intros Heq. apply Hnot.
      rewrite Heq. by apply list_elem_of_fmap_2.
  - split; [done|]. intros ([Hok _]&_&[Hnone _]&_).
    assert (index_requirement m0 r = Ok (<[requirement_key r := false]> m0)); [|congruence].
    by apply index_requirement_ok.
Qed.

Lemma link_requirements_ok linked index ids index' :
  link_requirements linked index ids = Ok index' ↔
  NoDup ids ∧ Forall (λ id, id ∉ linked) ids ∧ Forall (λ id, is_Some (index !! id)) ids ∧
  index' = mark index ids.
Proof.
  revert linked index. induction ids as [|id ids IH]; intros linked index; simpl.
  { split; [intros [= <-]; by repeat constructor|]. by intros (_&_&_&->). }
  rewrite NoDup_cons, !Forall_cons. case_decide; [by split; [|intros (_&[? _]&_)]|].
  destruct (index !! id) as [b|] eqn:Hid; [|by split; [|intros (_&_&[[??] _]&_)]].
  rewrite IH, !Forall_forall. split.
  - intros (?&Hl&Hi&->). split_and!; try done.
    + intros Hin. specialize (Hl id Hin). set_solver.
    + intros x Hx. specialize (Hl x Hx). set_solver.
    + intros x Hx. specialize (Hi x Hx). destruct (decide (x = id)) as [->|]; [by rewrite Hid|].
      by rewrite lookup_insert_ne in Hi.
  - intros ([Hid' ?]&[_ Hl]&[_ Hi]&->). split_and!; try done.
    + intros x Hx. specialize (Hl x Hx). set_solver.
    + intros x Hx. destruct (decide (x = id)) as [->|]; [by rewrite lookup_insert_eq|].
      rewrite lookup_insert_ne by done. auto.
Qed.

Lemma check_task_ok index t index' :
  check_task index t = Ok index' ↔
  task_ok t ∧ Forall (λ id, is_Some (index !! id)) (requirement_ids t) ∧
  index' = mark index (requirement_ids t).
Proof.
  unfold check_task. rewrite !result_then_ok, !reject_if_ok, !orb_false_iff, !negb_false_iff,
    !is_empty_false, !validate_texts_ok, link_requirements_ok.
  assert (Forall (λ id, id ∉ (∅ : gset string)) (requirement_ids t)) as Hempty.
  { apply Forall_forall. intros. apply not_elem_of_empty. }
  split.
  - intros ([[[? ?] ?] ?]&?&?&?&?&_&?&->). split_and!; [|done..]. by split.
  - intros ([? ? [? ?] [? ?] [? ?]]&?&->). by split_and!.
Qed.

(** The marks of all tasks, on an index whose keys do not change. *)
Lemma check_tasks_ok ts index index' :
  try_fold check_task index ts = Ok index' ↔
  Forall task_ok ts ∧
  Forall (λ t, Forall (λ id, is_Some (index !! id)) (requirement_ids t)) ts ∧
  index' = mark index (mjoin (requirement_ids <$> ts)).
Proof.
  revert index. induction ts as [|t ts IH]; intros index; simpl.
  { split; [intros [= <-]; by repeat constructor|]. by intros (_&_&->). }
  rewrite !Forall_cons.
  assert (∀ id, is_Some (mark index (requirement_ids t) !! id) ↔
    id ∈ requirement_ids t ∨ is_Some (index !! id)) as Hmark.
  { intros id. rewrite assign_lookup. case_decide; naive_solver. }
  destruct (check_task index t) as [m1|e] eqn:Ht.
  - apply check_task_ok in Ht as (Hok&Hids&->). rewrite IH. unfold assign.
    rewrite foldl_app. fold (assign true index (requirement_ids t)).
    setoid_rewrite Forall_forall at 3. setoid_rewrite Hmark.
    rewrite Forall_forall in Hids. split.
    + intros (?&Hall&->). split_and!; try done; [by apply Forall_forall|].
      eapply Forall_impl; [exact Hall|]. intros x Hx. apply Forall_forall. intros id Hid.
      destruct (Hx id Hid); auto.
    + intros ([_ ?]&[_ Hall]&->). split_and!; try done.
      eapply Forall_impl; [exact Hall|]. intros x Hx id Hid.
      right. by eapply Forall_forall in Hx.
  - split; [done|]. intros ([Hok _]&[Hids _]&_).
    assert (check_task index t = Ok (mark index (requirement_ids t))); [|congruence].
    by apply check_task_ok.
Qed.

Lemma find_uncovered_none index :
  find_uncovered index = None ↔ ∀ k b, index !! k = Some b → b = true.
Proof.
  unfold find_uncovered.
  destruct (filter (λ p : string * bool, p.2 = false) (btree_iter index)) as [|[k b] l] eqn:Hf; simpl.
  - split; [|done]. intros _ k [|] Hk; [done|].
    assert ((k, false) ∈ filter (λ p : string * bool, p.2 = false) (btree_iter index)) as Hin.
    { apply list_elem_of_filter. by rewrite elem_of_btree_iter. }
    rewrite Hf in Hin. by apply elem_of_nil in Hin.
  - split; [done|]. intros Hall.
    assert ((k, b) ∈ (k, b) :: l) as Hin by by left. rewrite <-Hf in Hin.
    apply list_elem_of_filter in Hin as [Hb Hin%elem_of_btree_iter]. simpl in Hb.
    specialize (Hall _ _ Hin). congruence.
Qed.

(** The checks before the graph. *)
Definition plan_checked (p : ArchitecturePlan) : result ArchitectureError (gmap string bool) :=
  _ ← reject_if (is_empty (requirements p) || over_limit (requirements p) || is_empty (tasks p) ||
        over_limit (tasks p) || over_limit (assumptions p) || over_limit (risks p) ||
        over_limit (integration_checks p)) LimitExceeded;
  _ ← validate_texts (assumptions p);
  _ ← validate_texts (risks p);
  _ ← reject_if (is_empty (integration_checks p)) EmptyIntegrationChecks;
  _ ← validate_texts (integration_checks p);
  index ← try_fold index_requirement ∅ (requirements p);
  try_fold check_task index (tasks p).

Lemma plan_checked_ok p index :
  plan_checked p = Ok index ↔
  (requirements p ≠ [] ∧ within_limit (requirements p) ∧
   Forall requirement_ok (requirements p) ∧ NoDup (requirement_key <$> requirements p)) ∧
  (tasks p ≠ [] ∧ within_limit (tasks p) ∧ Forall task_ok (tasks p)) ∧
  (within_limit (assumptions p) ∧ texts_ok (assumptions p) ∧
   within_limit (risks p) ∧ texts_ok (risks p)) ∧
  (integration_checks p ≠ [] ∧ within_limit (integration_checks p) ∧
   texts_ok (integration_checks p)) ∧
  (∀ t id, t ∈ tasks p → id ∈ requirement_ids t → id ∈ requirement_key <$> requirements p) ∧
  index = mark (assign false ∅ (requirement_key <$> requirements p))
            (mjoin (requirement_ids <$> tasks p)).
Proof.
  unfold plan_checked. rewrite !result_then_ok, !reject_if_ok, !orb_false_iff,
    !is_empty_false, !over_limit_false, !validate_texts_ok, result_bind_ok.
  setoid_rewrite index_requirements_ok. setoid_rewrite check_tasks_ok.
  assert (Forall (λ r, (∅ : gmap string bool) !! requirement_key r = None) (requirements p))
    as Hempty by by apply Forall_forall.
  assert (∀ id, is_Some (assign false ∅ (requirement_key <$> requirements p) !! id) ↔
    id ∈ requirement_key <$> requirements p) as Hkeys.
  { intros id. rewrite assign_lookup, lookup_empty. case_decide; [by split|].
    split; [by intros []|done]. }
  split.
  - intros ([[[[[[? ?] ?] ?] ?] ?] ?]&?&?&?&?&m&(?&?&_&->)&?&Hknown&->).
    split_and!; try done. intros t id Ht Hid. apply Hkeys.
    rewrite Forall_forall in Hknown. specialize (Hknown t Ht).
    by eapply Forall_forall in Hknown.
  - intros ((?&?&?&?)&(?&?&?)&(?&?&?&?)&(?&?&?)&Hknown&->). split_and!; try done.
    eexists. split; [by split_and!|]. split_and!; try done.
    apply Forall_forall. intros t Ht. apply Forall_forall. intros id Hid.
    apply Hkeys. by eapply Hknown.
Qed.

(** The check of a plan, in full. *)
Lemma plan_try_from_spec p :
  ∃ r, plan_try_from p = Some r ∧ (r = Ok p ↔ plan_ok p) ∧ (∀ q, r = Ok q → q = p).
Proof.
  unfold plan_try_from, plan_validate. fold (plan_checked p).
  destruct (plan_checked p) as [index|e] eqn:Hc.
  2: { eexists. split; [done|]. split; [|done]. split; [done|].
       intros [Hr Ht Htx Hic Hknown _ _].
       assert (∃ index, plan_checked p = Ok index) as [? ?]; [|congruence].
       eexists. apply plan_checked_ok.
       exact (conj Hr (conj Ht (conj Htx (conj Hic (conj Hknown eq_refl))))). }
  apply plan_checked_ok in Hc as (Hr&Ht&Htx&Hic&Hknown&->).
  destruct (Dag.dag_validate_spec (dag_node <$> tasks p)) as [(Hv&order&->&_)|(Hv&e&->)]; simpl.
  2: { eexists. split; [done|]. split; [|done]. split; [done|]. by intros []. }
  set (index := mark _ _).
  assert ((∀ k b, index !! k = Some b → b = true) ↔
    ∀ r, r ∈ requirements p → ∃ t, t ∈ tasks p ∧ requirement_key r ∈ requirement_ids t) as Hcov.
  { assert (∀ id, id ∈ mjoin (requirement_ids <$> tasks p) ↔
      ∃ t, t ∈ tasks p ∧ id ∈ requirement_ids t) as Hj.
    { intros id. rewrite list_elem_of_join. setoid_rewrite list_elem_of_fmap. naive_solver. }
    assert (∀ k, index !! k = if decide (k ∈ mjoin (requirement_ids <$> tasks p)) then Some true
      else if decide (k ∈ requirement_key <$> requirements p) then Some false else None) as Hindex.
    { intros k. subst index. by rewrite !assign_lookup, lookup_empty. }
    setoid_rewrite <-Hj. setoid_rewrite Hindex. split.
    - intros Hall r Hin. specialize (Hall (requirement_key r) false).
      case_decide; [done|]. rewrite decide_True in Hall by by apply list_elem_of_fmap_2.
      specialize (Hall eq_refl). done.
    - intros Hall k b Hk. case_decide as Hno; [by simplify_eq|].
      case_decide as Hkey; [|done].
      apply list_elem_of_fmap in Hkey as (r&->&Hin). by apply Hall in Hin. }
  eexists. split; [done|]. destruct (find_uncovered index) as [id|] eqn:Hf; simpl.
  - split; [|done]. split; [done|]. intros [].
    assert (find_uncovered index = None); [|congruence]. by apply find_uncovered_none, Hcov.
  - pose proof (proj1 (find_uncovered_none index) Hf) as Hall. split.
    + split; [|by destruct p]. intros _. split; try done. by apply Hcov.
    + intros q [= <-]. by destruct p.
Qed.

(** An architecture plan is accepted exactly when it keeps its contract:
    bounded non-blank texts, distinct requirement keys each with acceptance
    criteria, tasks with objectives, criteria and verification commands, links
    only to known requirements and none repeated, every requirement covered by
    some task, and a valid task graph; the check always returns, and an
    accepted plan is stored and loaded unchanged. *)
Theorem plan_accepted_iff_ok p :
  ∃ r, plan_try_from p = Some r ∧ (r = Ok p ↔ plan_ok p) ∧ (∀ q, r = Ok q → q = p).
Proof. apply plan_try_from_spec. Qed.
End Plan.

(** * The envelope *)

Module Envelope.
Local Open Scope N_scope.

Definition PROTOCOL_VERSION : N := 1.

Inductive ProtocolPayload : Type :=
| PayloadRequest (r : Request.RequestRecord)
| PayloadArchitecture (p : Plan.ArchitecturePlan)
| PayloadCandidate (m : Candidate.CandidateManifest)
| PayloadEvidence (e : Evidence.EvidenceRecord)
| PayloadVerdict (v : Arbiter.ArbiterVerdict).

(** [version] is a [u16]; the unchecked envelope has the same fields. *)
Record ProtocolEnvelope : Type := {
  version : N;
  payload : ProtocolPayload;
}.

Record ProtocolError : Type := { received : N }.

Definition envelope_new (payload : ProtocolPayload) : ProtocolEnvelope :=
  {| version := PROTOCOL_VERSION; payload := payload |}.

Definition envelope_try_from (value : ProtocolEnvelope) : result ProtocolError ProtocolEnvelope :=
  if negb (version value =? PROTOCOL_VERSION) then Err {| received := version value |}
  else Ok {| version := version value; payload := payload value |}.

Lemma envelope_round_trip p v :
  envelope_try_from (envelope_new p) = Ok (envelope_new p) ∧
  (version v ≠ PROTOCOL_VERSION → envelope_try_from v = Err {| received := version v |}).
Proof.
  split; [done|]. intros Hv. unfold envelope_try_from. by rewrite (proj2 (N.eqb_neq _ _) Hv).
Qed.
End Envelope.
