(* ===== verification/Redaction.v ===== *)
(** Ledger events and the redaction of secrets: workflow-ledger/src/redaction.rs
    and event.rs. Paths are those of a Unix [std::path::Path]. *)
From Stdlib Require Import Ascii String.
From S2P Require Import Prelude Text Ids Paths.

(** * Redaction *)

(** [value.match_indices(prefix)]: the rest of the text from each match on;
    matches do not overlap. [skip] counts the bytes of the last match. *)
Fixpoint match_suffixes (prefix : string) (skip : nat) (s : string) : list string :=
  match s with
  | EmptyString => []
  | String _ s' =>
      match skip with
      | S skip' => match_suffixes prefix skip' s'
      | O =>
          if starts_with prefix s
          then s :: match_suffixes prefix (String.length prefix - 1) s'
          else match_suffixes prefix 0 s'
      end
  end.

Definition is_token_separator (a : ascii) : bool :=
  is_char "'" a || is_char "034" a || is_char "," a || is_char ";" a.

(** [split(|c| c.is_whitespace() || ..).next()]. *)
Fixpoint token_at (s : string) : string :=
  match s with
  | EmptyString => EmptyString
  | String a s' =>
      if starts_whitespace s || is_token_separator a then EmptyString else String a (token_at s')
  end.

Definition contains_token_prefix (value prefix : string) (minimum_length : N) : bool :=
  let lower := to_ascii_lowercase value in
  existsb (λ rest, (minimum_length <=? str_len (token_at rest))%N) (match_suffixes prefix 0 lower).

Definition is_authority_end (a : ascii) : bool := is_char "/" a || is_char "?" a || is_char "#" a.

Definition has_url_credentials (value : string) : bool :=
  match after_first "://" value with
  | Some rest =>
      let authority := before_first is_authority_end rest in
      contains_char ":" authority && contains_char "@" authority
  | None => false
  end.

Definition sensitive_value (value : string) : bool :=
  let trimmed := trim value in
  let lower := to_ascii_lowercase trimmed in
  contains_str "bearer " lower
  || contains_str "-----begin private key-----" lower
  || contains_str "-----begin rsa private key-----" lower
  || contains_token_prefix trimmed "sk-" 12
  || contains_token_prefix trimmed "ghp_" 12
  || contains_token_prefix trimmed "github_pat_" 12
  || contains_token_prefix trimmed "akia" 16
  || has_url_credentials trimmed.

Record Redactor : Type := { sensitive_keys : gset string }.

Definition default_sensitive_keys : gset string :=
  {["api_key"; "authorization"; "cookie"; "password"; "secret"; "token"]}.

(** [Redactor::new]. *)
Definition redactor_new (keys : list string) : Redactor :=
  {| sensitive_keys := default_sensitive_keys ∪ list_to_set (to_ascii_lowercase <$> keys) |}.

Definition REDACTED : string := "[REDACTED]".

(** [Redactor::value]. *)
Definition redact (value : string) : string := if sensitive_value value then REDACTED else value.
(** [Redactor::contains_sensitive]. *)
Definition contains_sensitive (value : string) : bool := sensitive_value value.

Definition is_sensitive_key (r : Redactor) (key : string) : bool :=
  let normalized := to_ascii_lowercase key in
  existsb (λ sensitive, contains_str sensitive normalized) (bset_iter (sensitive_keys r)).

(** [Redactor::metadata]. *)
Definition redact_metadata (r : Redactor) (metadata : gmap string string) : gmap string string :=
  map_imap (λ key value,
    Some (if is_sensitive_key r key || sensitive_value value then REDACTED else value)) metadata.

(** * Events *)

Module Event.

Record ModelIdentity : Type := { model_name : string; provider : string }.

Record Actor : Type := {
  actor_id : string;
  actor_model : option ModelIdentity;
  actor_role : option WorkflowRole;
  session_id : option string;
}.

Inductive EventData : Type :=
| WorkflowData (action : string)
| ToolData (invocation_digest tool : string)
| PermissionData (decision permission : string)
| GitData (externally_attributed : bool) (revision : string)
| VerificationData (gate status : string).

Record LedgerEvent : Type := {
  actor : Actor;
  candidate_id : option CandidateId;
  data : EventData;
  event_id : EventId;
  evidence_ids : gset EvidenceId;
  files : gset string;
  metadata : gmap string string;
  project_id : ProjectId;
  task_id : option TaskId;
  timestamp : WorkflowTimestamp;
  workflow_id : option WorkflowId;
}.

Inductive EventError : Type := EmptyActor | EmptyData | UnsafePath.

(** [Redactor::actor]. *)
Definition redact_model (m : ModelIdentity) : ModelIdentity :=
  {| model_name := redact (model_name m); provider := redact (provider m) |}.
Definition redact_actor (a : Actor) : Actor :=
  {| actor_id := redact (actor_id a); actor_model := redact_model <$> actor_model a;
     actor_role := actor_role a; session_id := session_id a |}.

(** [Redactor::data]. *)
Definition redact_data (d : EventData) : EventData :=
  match d with
  | WorkflowData action => WorkflowData (redact action)
  | ToolData invocation_digest tool => ToolData invocation_digest (redact tool)
  | PermissionData decision permission => PermissionData (redact decision) (redact permission)
  | GitData externally_attributed revision => GitData externally_attributed (redact revision)
  | VerificationData gate status => VerificationData (redact gate) (redact status)
  end.

Definition data_fields (d : EventData) : list string :=
  match d with
  | WorkflowData action => [action]
  | ToolData invocation_digest tool => [invocation_digest; tool]
  | PermissionData decision permission => [decision; permission]
  | GitData _ revision => [revision]
  | VerificationData gate status => [gate; status]
  end.
Definition validate_data (d : EventData) : result EventError unit :=
  reject_if (existsb is_blank (data_fields d)) EmptyData.

(** [std::path::Component]. *)
Inductive Component : Type := RootDir | CurDir | ParentDir | Normal (name : string).

(** [Path::components]: empty and [.] segments are skipped, but a leading [.]. *)
Definition inner_component (segment : string) : option Component :=
  if decide (segment = "" ∨ segment = ".") then None
  else if decide (segment = "..") then Some ParentDir
  else Some (Normal segment).
Definition path_components (value : string) : list Component :=
  match segments value with
  | [] => []
  | first :: rest =>
      (if starts_with "/" value then [RootDir]
       else if decide (first = ".") then [CurDir]
       else option_list (inner_component first)) ++ omap inner_component rest
  end.

Definition is_normal (c : Component) : bool := match c with Normal _ => true | _ => false end.

Definition safe_relative_path (value : string) : bool :=
  negb (bool_decide (value = "")) && negb (starts_with "/" value) &&
  forallb is_normal (path_components value).

(** [LedgerEvent::new]; the identifier is the one [EventId::new] draws. *)
Definition ledger_event_new (new_id : EventId) (actor : Actor) (candidate_id : option CandidateId)
    (data : EventData) (evidence_ids : list EvidenceId) (files : list string)
    (metadata : gmap string string) (project_id : ProjectId) (task_id : option TaskId)
    (timestamp : WorkflowTimestamp) (workflow_id : option WorkflowId) (redactor : Redactor)
    : result EventError LedgerEvent :=
  if is_blank (actor_id actor) then Err EmptyActor else
  _ ← validate_data data;
  let files : gset string := list_to_set (redact <$> files) in
  if existsb (λ path, negb (safe_relative_path path)) (bset_iter files) then Err UnsafePath else
  Ok {| actor := redact_actor actor; candidate_id := candidate_id; data := redact_data data;
        event_id := new_id; evidence_ids := list_to_set evidence_ids; files := files;
        metadata := redact_metadata redactor metadata; project_id := project_id;
        task_id := task_id; timestamp := timestamp; workflow_id := workflow_id |}.

(** * Lemmas *)

Lemma redacted_not_sensitive : sensitive_value REDACTED = false.
Proof. by vm_compute. Qed.

Definition clean (v : string) : Prop := sensitive_value v = false.

Lemma redact_clean v : clean (redact v).
Proof.
  unfold clean, redact. destruct (sensitive_value v) eqn:Hv; [apply redacted_not_sensitive|done].
Qed.

Lemma redact_idemp v : redact (redact v) = redact v.
Proof. unfold redact at 1. by rewrite (redact_clean v : sensitive_value (redact v) = false). Qed.

(** The texts of an event that redaction covers. *)
Definition covered_data (d : EventData) : list string :=
  match d with ToolData _ tool => [tool] | _ => data_fields d end.
Definition covered_texts (e : LedgerEvent) : list string :=
  [actor_id (actor e)] ++
  (match actor_model (actor e) with Some m => [model_name m; provider m] | None => [] end) ++
  covered_data (data e) ++ elements (files e) ++ (map_to_list (metadata e)).*2.

Lemma redact_metadata_lookup r m k :
  redact_metadata r m !! k =
  (λ v, if is_sensitive_key r k || sensitive_value v then REDACTED else v) <$> m !! k.
Proof. unfold redact_metadata. rewrite map_lookup_imap. by destruct (m !! k). Qed.

Lemma ledger_event_covered nid a c d ev fs m p t ts w r e :
  ledger_event_new nid a c d ev fs m p t ts w r = Ok e → Forall clean (covered_texts e).
Proof.
  unfold ledger_event_new. case_match; [done|]. rewrite result_then_ok.
  case_match; [by intros [_ ?]|]. intros [_ [= <-]]. unfold covered_texts. simpl.
  apply Forall_cons; split; [apply redact_clean|]. rewrite !Forall_app. split_and!.
  - destruct (actor_model a); simpl; repeat constructor; apply redact_clean.
  - destruct d; simpl; repeat constructor; apply redact_clean.
  - apply Forall_forall. intros f Hf%elem_of_elements%elem_of_list_to_set.
    apply list_elem_of_fmap in Hf as (f'&->&_). apply redact_clean.
  - apply Forall_forall. intros v ([k v']&->&Hv%elem_of_map_to_list)%list_elem_of_fmap.
    rewrite redact_metadata_lookup in Hv. simpl.
    apply fmap_Some in Hv as (v0&_&->). destruct (sensitive_value v0) eqn:Hs.
    + rewrite orb_true_r. apply redacted_not_sensitive.
    + rewrite orb_false_r. destruct (is_sensitive_key r k);
        [apply redacted_not_sensitive|exact Hs].
Qed.

(** The ledger accepts every path the core accepts. *)
Lemma safe_relative_in_ledger path : is_safe_relative path = true → safe_relative_path path = true.
Proof.
  intros Hsafe. pose proof (safe_relative_segments path Hsafe) as Hseg.
  assert (bool_decide (path = "") = false ∧ starts_with "/" path = false) as [Hne Hslash].
  { unfold is_safe_relative in Hsafe. by destruct (bool_decide (path = "")), (starts_with "/" path),
      (contains_char backslash path). }
  unfold safe_relative_path. rewrite Hne, Hslash. simpl.
  unfold path_components. rewrite Hslash. destruct (segments path) as [|w ws]; [done|].
  apply Forall_cons in Hseg as [(Hw1&Hw2&Hw3) Hws].
  rewrite decide_False by done. unfold inner_component at 1.
  rewrite decide_False by naive_solver. rewrite decide_False by done. simpl.
  induction Hws as [|x xs (Hx1&Hx2&Hx3) _ IH]; [done|].
  simpl. unfold inner_component. rewrite decide_False by naive_solver.
  rewrite decide_False by done. simpl. exact IH.
Qed.

Lemma existsb_negb_false (p : string → bool) l :
  existsb (λ x, negb (p x)) l = false ↔ Forall (λ x, p x = true) l.
Proof.
  induction l as [|x l IH]; simpl; [by split|].
  by rewrite orb_false_iff, negb_false_iff, Forall_cons, IH.
Qed.

(** * The properties of the events *)

(** C34. What an event records is free of what the redactor looks for: in every
    event that [LedgerEvent::new] builds, the actor's identifier and model, the
    fields of the data but for a tool's invocation digest, the file paths and
    the metadata values hold no value the redactor finds sensitive, the value
    under every sensitive metadata key is redacted, and every file path is
    relative without traversal; the session identifier and the invocation
    digest are recorded as they were given. *)
Theorem event_records_no_sensitive_text nid a c d ev fs m p t ts w r e :
  ledger_event_new nid a c d ev fs m p t ts w r = Ok e →
  Forall clean (covered_texts e) ∧
  (∀ k v, metadata e !! k = Some v → is_sensitive_key r k = true → v = REDACTED) ∧
  (∀ f, f ∈ files e → safe_relative_path f = true) ∧
  session_id (actor e) = session_id a ∧
  (∀ digest tool, d = ToolData digest tool → data e = ToolData digest (redact tool)).
Proof.
  intros He. split; [by eapply ledger_event_covered|]. revert He.
  unfold ledger_event_new. case_match; [done|]. rewrite result_then_ok.
  case_match eqn:Hpaths; [by intros [_ ?]|]. intros [_ [= <-]]. simpl. split_and!.
  - intros k v Hv Hk. rewrite redact_metadata_lookup, Hk in Hv. simpl in Hv.
    by apply fmap_Some in Hv as (?&_&->).
  - intros f Hf%elem_of_bset_iter. apply existsb_negb_false in Hpaths.
    by eapply Forall_forall in Hpaths.
  - done.
  - by intros digest tool ->.
Qed.

Definition sample_actor : Actor :=
  {| actor_id := "executor"; actor_model := None; actor_role := Some Executor;
     session_id := Some "s1" |}.
Definition sample_event_result : result EventError LedgerEvent :=
  ledger_event_new (word_of 128 1) sample_actor None
    (ToolData "digest" "curl -H 'Authorization: Bearer abc'") [] ["src/lib.rs"]
    {["Api_Key" := "v"]} (word_of 128 2) None 0%Z None (redactor_new []).

Lemma event_records_no_sensitive_text_witness :
  ∃ e, sample_event_result = Ok e ∧ Forall clean (covered_texts e) ∧
    data e = ToolData "digest" "[REDACTED]".
Proof.
  destruct sample_event_result as [e|] eqn:He.
  - exists e. split; [reflexivity|].
    destruct (event_records_no_sensitive_text _ _ _ _ _ _ _ _ _ _ _ _ e He)
      as (Hclean&_&_&_&Hdata).
    split; [exact Hclean|]. rewrite (Hdata _ _ eq_refl). vm_compute. reflexivity.
  - exfalso. assert (is_ok sample_event_result = true) as H by (vm_compute; reflexivity).
    rewrite He in H. discriminate.
Defined.

(** A path is redacted for a key prefix that its name only happens to hold. *)
Example ordinary_path_redacted : redact "src/task-scheduler.rs" = REDACTED.
Proof. vm_compute. reflexivity. Qed.
End Event.
