(* ===== verification/Ledger.v ===== *)
(** The audit ledger of workflow-ledger: the hash chain of chain.rs, the signed
    checkpoints of checkpoint.rs and the history queries of query.rs. *)
From stdpp Require Import pretty.
From Stdlib Require Import Ascii String.
From S2P Require Import Prelude Text Ids Canonical Redaction.
Import Event.
Local Open Scope N_scope.

Module Ledger.

Definition LEGACY_PROTOCOL_V1_LEDGER_ENTRY_HASH_DOMAIN : string :=
  "opencode-workflow-ledger-entry-v1".

Record LedgerEntry : Type := {
  event : LedgerEvent;
  hash : ContentDigest;
  previous_hash : option ContentDigest;
  sequence : N;
}.

Inductive LedgerError : Type := Capacity | LockPoisoned | Serialization.

Definition LedgerChain : Type := list LedgerEntry.

Inductive ChainFailure : Type := EntryHash | PreviousHash | Sequence.

Inductive ChainVerification : Type :=
| Valid (entries : nat) (head : option ContentDigest)
| Broken (reason : ChainFailure) (at_sequence : N)
| HeadMismatch (actual expected : option ContentDigest).

Section chain.
Context `{Sha256, ToJson LedgerEvent}.

(** [LedgerEvent::canonical_bytes]. *)
Definition canonical_bytes (e : LedgerEvent) : result LedgerError string :=
  ok_or Serialization (to_vec e).

(** The bytes [LedgerEntry::calculate_hash] hashes. *)
Definition previous_bytes (previous : option ContentDigest) : string :=
  match previous with
  | Some h => String (ascii_of_N 1) (as_bytes h)
  | None => String (ascii_of_N 0) ""
  end.
Definition entry_message (sequence : N) (previous : option ContentDigest) (event : LedgerEvent)
    : result LedgerError string :=
  event ← canonical_bytes event;
  length ← ok_or Capacity (u64_try_from (String.length event));
  Ok (LEGACY_PROTOCOL_V1_LEDGER_ENTRY_HASH_DOMAIN +:+ (be_bytes 8 sequence +:+
      (previous_bytes previous +:+ (be_bytes 8 length +:+ event)))).

Definition calculate_hash (sequence : N) (previous : option ContentDigest) (event : LedgerEvent)
    : result LedgerError ContentDigest :=
  input ← entry_message sequence previous event; Ok (digest_of input).

(** [LedgerEntry::new]. *)
Definition entry_new (sequence : N) (previous : option ContentDigest) (event : LedgerEvent)
    : result LedgerError LedgerEntry :=
  hash ← calculate_hash sequence previous event;
  Ok {| event := event; hash := hash; previous_hash := previous; sequence := sequence |}.

(** [LedgerChain::head]. *)
Definition chain_head (c : LedgerChain) : option ContentDigest := hash <$> last c.

(** [LedgerChain::append]. *)
Definition chain_append (event : LedgerEvent) : method LedgerChain LedgerError LedgerEntry :=
  c ← m_get;
  sequence ← m_lift (ok_or Capacity (u64_try_from (length c)));
  entry ← m_lift (entry_new sequence (chain_head c) event);
  _ ← m_modify (λ c, c ++ [entry]);
  mret entry.

(** The loop of [LedgerChain::verify]: the head it ends with, or a failure. *)
Fixpoint verify_entries (index : nat) (previous : option ContentDigest) (entries : LedgerChain)
    : result ChainVerification (option ContentDigest) :=
  match entries with
  | [] => Ok previous
  | e :: entries' =>
      match u64_try_from index with
      | None => Err (Broken Sequence u64_max)
      | Some seq =>
          if negb (sequence e =? seq) then Err (Broken Sequence seq)
          else if negb (bool_decide (previous_hash e = previous)) then Err (Broken PreviousHash seq)
          else match calculate_hash seq previous (event e) with
               | Ok h => if decide (h = hash e) then verify_entries (S index) (Some h) entries'
                         else Err (Broken EntryHash seq)
               | Err _ => Err (Broken EntryHash seq)
               end
      end
  end.

(** [LedgerChain::verify]. *)
Definition chain_verify (expected_head : option ContentDigest) (c : LedgerChain)
    : ChainVerification :=
  match verify_entries 0 None c with
  | Err failure => failure
  | Ok previous =>
      if bool_decide (is_Some expected_head) && negb (bool_decide (expected_head = previous))
      then HeadMismatch previous expected_head
      else Valid (length c) previous
  end.

(** [LedgerWriter]: the chain behind its lock; a writer that panicked while it
    held the lock poisons it. *)
Record LedgerWriter : Type := { poisoned : bool; chain : LedgerChain }.

Definition writer_append (event : LedgerEvent) : method LedgerWriter LedgerError LedgerEntry := λ w,
  if poisoned w then (w, Err LockPoisoned)
  else match chain_append event (chain w) with
       | (c, r) => ({| poisoned := poisoned w; chain := c |}, r)
       end.
Definition writer_snapshot (w : LedgerWriter) : result LedgerError LedgerChain :=
  if poisoned w then Err LockPoisoned else Ok (chain w).

(** * Linked chains *)

(** [linked i p c h]: the entries of [c], the first of them the [i]-th of its
    chain and following hash [p], are linked up to the head [h]. *)
Inductive linked : nat → option ContentDigest → LedgerChain → option ContentDigest → Prop :=
| linked_nil i p : linked i p [] p
| linked_cons i p e c h m :
    N.of_nat i ≤ u64_max → sequence e = N.of_nat i → previous_hash e = p →
    entry_message (N.of_nat i) p (event e) = Ok m → hash e = sha256 m →
    linked (S i) (Some (hash e)) c h → linked i p (e :: c) h.

Lemma u64_try_from_le n : N.of_nat n ≤ u64_max → u64_try_from n = Some (N.of_nat n).
Proof. intros Hn. unfold u64_try_from. by rewrite (proj2 (N.leb_le _ _) Hn). Qed.

Lemma u64_try_from_bound n s : u64_try_from n = Some s → s = N.of_nat n ∧ N.of_nat n ≤ u64_max.
Proof. unfold u64_try_from. case_match; [|done]. intros [= <-]. by to_prop. Qed.

Lemma verify_entries_ok i p c h : verify_entries i p c = Ok h ↔ linked i p c h.
Proof.
  split.
  - revert i p. induction c as [|e c IH]; intros i p; simpl; [intros [= ->]; constructor|].
    destruct (u64_try_from i) as [s|] eqn:Hs; [|done].
    apply u64_try_from_bound in Hs as [-> Hle].
    destruct (sequence e =? N.of_nat i) eqn:Hseq; simpl; [|done]. to_prop.
    case_bool_decide as Hp; simpl; [|done]. unfold calculate_hash.
    destruct (entry_message _ p (event e)) as [m|] eqn:Hm; simpl; [|done].
    case_decide as Hh; [|done]. intros Hrest%IH. econstructor; eauto. by rewrite <-Hh.
  - induction 1 as [i p|i p e c h m Hle Hseq Hp Hm Hh _ IH]; simpl; [done|].
    rewrite (u64_try_from_le _ Hle), Hseq, N.eqb_refl. simpl.
    rewrite bool_decide_true by done. simpl. unfold calculate_hash. rewrite Hm. simpl.
    unfold digest_of. rewrite <-Hh, decide_True by done. exact IH.
Qed.

Lemma chain_verify_valid expected c n h :
  chain_verify expected c = Valid n h ↔
  n = length c ∧ linked 0 None c h ∧ (is_Some expected → expected = h).
Proof.
  unfold chain_verify. destruct (verify_entries 0 None c) as [p|f] eqn:Hv.
  - pose proof (proj1 (verify_entries_ok _ _ _ _) Hv) as Hl.
    assert (∀ h, linked 0 None c h ↔ h = p) as Hiff.
    { intros h'. split; [|by intros ->]. intros Hl'%verify_entries_ok. congruence. }
    rewrite Hiff. case_bool_decide as He; simpl.
    + case_bool_decide as Hp; simpl; [naive_solver|]. split; [done|]. intros (_&->&Hx).
      by destruct Hp; apply Hx.
    + naive_solver.
  - split.
    + intros ->. exfalso. revert Hv. generalize 0%nat (@None ContentDigest).
      induction c as [|e c IH]; intros i p; simpl; [done|].
      repeat case_match; try done. apply IH.
    + intros (_&Hl%verify_entries_ok&_). congruence.
Qed.

Lemma linked_app i p c e h h' :
  linked i p c h → linked (i + length c) h [e] h' → linked i p (c ++ [e]) h'.
Proof.
  induction 1 as [i p|i p e0 c h m Hle Hseq Hp Hm Hh _ IH]; simpl.
  - by rewrite Nat.add_0_r.
  - intros Hlast. econstructor; [done..|]. apply IH. by rewrite <-plus_n_Sm in Hlast.
Qed.

Lemma linked_head i p c h : linked i p c h → h = if c is [] then p else chain_head c.
Proof.
  induction 1 as [i p|i p e c h m _ _ _ _ _ _ IH]; [done|].
  rewrite IH. destruct c; [done|]. unfold chain_head. done.
Qed.

Lemma chain_append_linked ev c c' e h :
  linked 0 None c h → chain_append ev c = (c', Ok e) →
  c' = c ++ [e] ∧ linked 0 None c' (Some (hash e)) ∧ event e = ev.
Proof.
  intros Hl. pose proof (linked_head _ _ _ _ Hl) as Hh.
  unfold chain_append, entry_new, calculate_hash. run_method.
  destruct (u64_try_from (length c)) as [s|] eqn:Hs; simpl; [|done].
  apply u64_try_from_bound in Hs as [-> Hle].
  destruct (entry_message _ (chain_head c) ev) as [m|] eqn:Hm; [|done].
  intros [= <- <-]. split; [done|]. split; [|done].
  eapply linked_app; [exact Hl|]. simpl.
  assert (h = chain_head c) as -> by by destruct c.
  eapply (linked_cons _ _ _ _ _ m); try done. constructor.
Qed.

(** Every append in a run of them, with what each returned. *)
Fixpoint append_each (events : list LedgerEvent) (c : LedgerChain)
    : LedgerChain * list (result LedgerError LedgerEntry) :=
  match events with
  | [] => (c, [])
  | ev :: events' =>
      let '(c', r) := chain_append ev c in
      let '(c'', rs) := append_each events' c' in (c'', r :: rs)
  end.

Definition ok {E A} (r : result E A) : option A := match r with Ok a => Some a | Err _ => None end.

Lemma chain_append_err ev c c' x : chain_append ev c = (c', Err x) → c' = c.
Proof.
  unfold chain_append, entry_new, calculate_hash. run_method.
  repeat case_match; intros; simplify_eq; done.
Qed.

Lemma append_each_linked evs c h :
  linked 0 None c h → ∃ h', linked 0 None (append_each evs c).1 h' ∧
    (append_each evs c).1 = c ++ omap ok (append_each evs c).2 ∧
    Forall2 (λ ev r, ∀ e, r = Ok e → event e = ev) evs (append_each evs c).2.
Proof.
  revert c h. induction evs as [|ev evs IH]; intros c h Hl; simpl.
  { exists h. rewrite app_nil_r. eauto using Forall2. }
  destruct (chain_append ev c) as [c' [e|x]] eqn:Ha.
  - destruct (chain_append_linked _ _ _ _ _ Hl Ha) as (->&Hl'&He).
    destruct (IH _ _ Hl') as (h'&Hh'&Hc&Hevs). destruct (append_each evs _) as [c'' rs]; simpl in *.
    exists h'. split_and!; [done| |].
    + rewrite Hc. by rewrite <-app_assoc.
    + constructor; [|done]. by intros ? [= <-].
  - apply chain_append_err in Ha as ->. destruct (IH _ _ Hl) as (h'&Hh'&Hc&Hevs).
    destruct (append_each evs c) as [c'' rs]; simpl in *. exists h'.
    split_and!; [done|done|]. by constructor.
Qed.

(** Every ledger written by appends verifies: after any run of
    [LedgerChain::append] on an empty chain, [verify] against the chain's own
    head answers that all of its entries are valid, the chain holds exactly the
    entries the successful appends returned, in their order, and each of them
    records the event it was called with. *)
Theorem appended_chain_verifies evs :
  let c := (append_each evs []).1 in
  chain_verify (chain_head c) c = Valid (length c) (chain_head c) ∧
  c = omap ok (append_each evs []).2 ∧
  Forall2 (λ ev r, ∀ e, r = Ok e → event e = ev) evs (append_each evs []).2.
Proof.
  destruct (append_each_linked evs [] None) as (h'&Hl&Hc&Hevs); [constructor|].
  simpl. split; [|done]. apply chain_verify_valid.
  assert (h' = chain_head (append_each evs []).1) as <-; [|done].
  apply linked_head in Hl as ->. by destruct (append_each evs []).1.
Qed.

(** * Tampering *)

Lemma u64_fits s : s ≤ u64_max → fits 8 s.
Proof. intros Hs. unfold fits. change (256 ^ N.of_nat 8) with (u64_max + 1). lia. Qed.

Lemma string_cons_inv a b s t : String a s = String b t → a = b ∧ s = t.
Proof. by intros [= -> ->]. Qed.

Lemma previous_bytes_inj p1 p2 s1 s2 :
  previous_bytes p1 +:+ s1 = previous_bytes p2 +:+ s2 → p1 = p2 ∧ s1 = s2.
Proof.
  destruct p1 as [h1|], p2 as [h2|]; unfold previous_bytes;
    rewrite !str_app_cons; intros [Hc Heq]%string_cons_inv; try done.
  apply str_app_inv in Heq as [Hh ->]; [|unfold as_bytes; by rewrite !length_be_bytes].
  by apply as_bytes_inj in Hh as ->.
Qed.

Lemma entry_message_inj s1 s2 p1 p2 e1 e2 m :
  s1 ≤ u64_max → s2 ≤ u64_max →
  entry_message s1 p1 e1 = Ok m → entry_message s2 p2 e2 = Ok m →
  s1 = s2 ∧ p1 = p2 ∧ to_vec e1 = to_vec e2.
Proof.
  intros Hs1 Hs2. unfold entry_message, canonical_bytes.
  destruct (to_vec e1) as [b1|]; simpl; [|done]. destruct (to_vec e2) as [b2|]; simpl; [|done].
  destruct (u64_try_from (String.length b1)) as [l1|] eqn:Hl1; simpl; [|done].
  destruct (u64_try_from (String.length b2)) as [l2|] eqn:Hl2; simpl; [|done].
  intros <-%(inj Ok) Heq%(inj Ok). symmetry in Heq. apply str_app_inv_head in Heq.
  apply str_app_inv in Heq as [Hs Heq]; [|by rewrite !length_be_bytes].
  apply be_bytes_inj in Hs as ->; [|by apply u64_fits..].
  apply previous_bytes_inj in Heq as [-> Heq].
  by apply str_app_inv in Heq as [_ ->]; [|by rewrite !length_be_bytes].
Qed.

Lemma linked_snoc i p c e h' :
  linked i p (c ++ [e]) h' → ∃ h, linked i p c h ∧ linked (i + length c) h [e] h'.
Proof.
  revert i p. induction c as [|e0 c IH]; intros i p; simpl.
  - rewrite Nat.add_0_r. intros Hl. exists p. split; [constructor|done].
  - intros Hl. inversion Hl as [|? ? ? ? ? m ????? Hrest]; subst.
    apply IH in Hrest as (h&Hc&He). exists h. split; [by econstructor|].
    by rewrite <-plus_n_Sm.
Qed.

(** The two entries carry the same fields and events of the same encoding. *)
Definition same_entry (a b : LedgerEntry) : Prop :=
  sequence a = sequence b ∧ previous_hash a = previous_hash b ∧ hash a = hash b ∧
  to_vec (event a) = to_vec (event b).

(** An entry of one chain and an entry of the other were hashed from two
    different messages, and SHA-256 gives the two messages the same digest. *)
Definition entries_collide (c1 c2 : LedgerChain) : Prop :=
  ∃ e1 e2 m1 m2, e1 ∈ c1 ∧ e2 ∈ c2 ∧
    entry_message (sequence e1) (previous_hash e1) (event e1) = Ok m1 ∧
    entry_message (sequence e2) (previous_hash e2) (event e2) = Ok m2 ∧
    m1 ≠ m2 ∧ digest_of m1 = digest_of m2.

Lemma entries_collide_mono c1 c2 d1 d2 :
  c1 ⊆ d1 → c2 ⊆ d2 → entries_collide c1 c2 → entries_collide d1 d2.
Proof.
  intros H1 H2 (e1&e2&m1&m2&He1&He2&Hm). exists e1, e2, m1, m2.
  split; [by apply H1|]. split; [by apply H2|done].
Qed.

Lemma linked_same c1 c2 h :
  linked 0 None c1 h → linked 0 None c2 h → Forall2 same_entry c1 c2 ∨ entries_collide c1 c2.
Proof.
  revert c2 h. induction c1 as [|e1 c1 IH] using rev_ind; intros c2 h H1 H2.
  - inversion H1; subst. destruct c2 as [|e2 c2 _] using rev_ind; [left; constructor|].
    apply linked_snoc in H2 as (h&_&He). inversion He as [|? ? ? ? ? ? ????? Hn]; subst.
    inversion Hn.
  - apply linked_snoc in H1 as (h1&Hc1&He1).
    inversion He1 as [|? ? ? ? ? m1 Hle1 Hs1 Hp1 Hm1 Hh1 Hn1]; subst.
    inversion Hn1; subst. destruct c2 as [|e2 c2 _] using rev_ind; [inversion H2|].
    apply linked_snoc in H2 as (h2&Hc2&He2).
    inversion He2 as [|? ? ? ? ? m2 Hle2 Hs2 Hp2 Hm2 Hh2 Hn2]; subst.
    apply linked_head in Hn2 as Heq. apply Some_inj in Heq. clear Hn1 Hn2 He1 He2.
    destruct (decide (m1 = m2)) as [->|Hne].
    2: { right. exists e1, e2, m1, m2. split_and!; [set_solver..| | |done|];
           rewrite ?Hs1, ?Hp1, ?Hs2, ?Hp2; [done..|]. unfold digest_of. congruence. }
    destruct (entry_message_inj _ _ _ _ _ _ _ Hle1 Hle2 Hm1 Hm2) as (Hs&Hp&Hv).
    rewrite Hp in Hc1.
    destruct (IH _ _ Hc1 Hc2) as [Hall|Hcol]; [left|right; eapply entries_collide_mono, Hcol; set_solver].
    apply Forall2_app; [done|]. constructor; [|constructor]. split_and!; congruence.
Qed.

(** C35. The ledger is tamper evident: two chains that verify with the same head,
    as a stored chain and any altered copy of it do when both pass [verify]
    against the recorded head, have as many entries and the same entry at each
    position (sequence, previous hash, hash and the encoded event), unless two
    of their own entries exhibit a collision: an entry of the one and an entry
    of the other whose hashed messages differ and have the same SHA-256. *)
Theorem chain_tamper_evident c1 c2 head n1 n2 :
  chain_verify (Some head) c1 = Valid n1 (Some head) →
  chain_verify (Some head) c2 = Valid n2 (Some head) →
  (n1 = n2 ∧ Forall2 same_entry c1 c2) ∨ entries_collide c1 c2.
Proof.
  intros (->&H1&_)%chain_verify_valid (->&H2&_)%chain_verify_valid.
  destruct (linked_same _ _ _ H1 H2) as [Hall|Hcol]; [|by right].
  left. split; [by eapply Forall2_length|done].
Qed.
End chain.

(** An encoding for the example: the event's timestamp, in decimal. *)
Definition toy_event_json : ToJson LedgerEvent := λ e, Some (pretty (timestamp e)).
Definition sample_event (what : string) (t : WorkflowTimestamp) : LedgerEvent :=
  {| actor := sample_actor; candidate_id := None; data := WorkflowData what;
     event_id := word_of 128 1; evidence_ids := ∅; files := ∅; metadata := ∅;
     project_id := word_of 128 2; task_id := None; timestamp := t; workflow_id := None |}.
Definition sample_chain (what : string) : LedgerChain :=
  (@append_each toy_sha256 toy_event_json [sample_event what 5%Z; sample_event what 7%Z] []).1.

(** The second chain holds other events, of the same encodings. *)
Lemma chain_tamper_evident_witness :
  let c1 := sample_chain "start" in let c2 := sample_chain "pause" in
  c1 ≠ c2 ∧
  ((2%nat = 2%nat ∧ Forall2 (@same_entry toy_event_json) c1 c2) ∨
    @entries_collide toy_sha256 toy_event_json c1 c2).
Proof.
  split; [intros Heq%(f_equal (map (λ e, data (event e)))); vm_compute in Heq; discriminate|].
  apply (@chain_tamper_evident toy_sha256 toy_event_json _ _
    (default (word_of 256 0) (chain_head (sample_chain "start"))));
    vm_compute; reflexivity.
Defined.
End Ledger.
