(* ===== verification/History.v ===== *)
(** Signed checkpoints of the ledger (workflow-ledger/checkpoint.rs) and the
    history queries (workflow-ledger/query.rs). *)
From stdpp Require Import pretty.
From Stdlib Require Import Ascii String.
From S2P Require Import Prelude Text Ids Canonical Redaction Ledger.
Import Event Ledger.
Local Open Scope N_scope.

(** * Checkpoints *)

Module Checkpoint.

Definition LEGACY_PROTOCOL_V1_CHECKPOINT_SIGNATURE_DOMAIN : string :=
  "opencode-workflow-ledger-checkpoint-v1".

(** The operations of the [ed25519_dalek] crate that the checkpoints use: keys,
    [VerifyingKey::to_bytes] and [from_bytes], [SigningKey::sign],
    [Signature::try_from] and [VerifyingKey::verify_strict]. *)
Class Ed25519 := {
  SigningKey : Type;
  VerifyingKey : Type;
  Signature : Type;
  key_of : SigningKey → VerifyingKey;
  key_to_bytes : VerifyingKey → word 256;
  key_from_bytes : word 256 → option VerifyingKey;
  key_sign : SigningKey → string → string;
  signature_try_from : string → option Signature;
  verify_strict : VerifyingKey → string → Signature → bool;
}.

Record Checkpoint : Type := {
  head : ContentDigest;
  public_key : word 256;
  sequence : N;
  signature : string;
  signed_at : WorkflowTimestamp;
}.

Inductive CheckpointVerification : Type :=
| HeadMismatch | InvalidPublicKey | InvalidSignature | MissingKey | Valid | WrongKey.

Section checkpoint.
Context `{Rfc3339, Ed25519}.

Definition signature_message (sequence : N) (head : ContentDigest) (signed_at : WorkflowTimestamp)
    (public_key : word 256) : option string :=
  timestamp ← timestamp_to_string signed_at;
  Some (LEGACY_PROTOCOL_V1_CHECKPOINT_SIGNATURE_DOMAIN +:+ (be_bytes 8 sequence +:+
    (as_bytes head +:+ (as_bytes public_key +:+ timestamp)))).

(** [Checkpoint::sign]; [None] is the panic of a timestamp without a text. *)
Definition checkpoint_sign (sequence : N) (head : ContentDigest) (signed_at : WorkflowTimestamp)
    (key : SigningKey) : option Checkpoint :=
  let public_key := key_to_bytes (key_of key) in
  message ← signature_message sequence head signed_at public_key;
  Some {| head := head; public_key := public_key; sequence := sequence;
          signature := key_sign key message; signed_at := signed_at |}.

(** [Checkpoint::verify]. *)
Definition checkpoint_verify (c : Checkpoint) (key : option VerifyingKey)
    (chain_head : option (N * ContentDigest)) : option CheckpointVerification :=
  if negb (bool_decide (chain_head = Some (sequence c, head c))) then Some HeadMismatch else
  match key with
  | None => Some MissingKey
  | Some key =>
      if negb (bool_decide (key_to_bytes key = public_key c)) then Some WrongKey else
      match signature_try_from (signature c) with
      | None => Some InvalidSignature
      | Some sig =>
          message ← signature_message (sequence c) (head c) (signed_at c) (public_key c);
          Some (if verify_strict key message sig then Valid else InvalidSignature)
      end
  end.

(** [Checkpoint::verify_embedded]. *)
Definition verify_embedded (c : Checkpoint) (chain_head : option (N * ContentDigest))
    : option CheckpointVerification :=
  match key_from_bytes (public_key c) with
  | Some key => checkpoint_verify c (Some key) chain_head
  | None => Some InvalidPublicKey
  end.

Lemma signature_message_inj s1 h1 t1 k1 s2 h2 t2 k2 m :
  s1 ≤ u64_max → s2 ≤ u64_max →
  signature_message s1 h1 t1 k1 = Some m → signature_message s2 h2 t2 k2 = Some m →
  s1 = s2 ∧ h1 = h2 ∧ k1 = k2 ∧ timestamp_to_string t1 = timestamp_to_string t2.
Proof.
  intros Hs1 Hs2. unfold signature_message.
  intros (x1&->&<-%Some_inj)%bind_Some (x2&->&Heq%Some_inj)%bind_Some.
  symmetry in Heq. apply str_app_inv_head in Heq.
  apply str_app_inv in Heq as [Hs Heq]; [|by rewrite !length_be_bytes].
  apply be_bytes_inj in Hs as ->; [|by apply u64_fits..].
  apply str_app_inv in Heq as [->%as_bytes_inj Heq]; [|unfold as_bytes; by rewrite !length_be_bytes].
  by apply str_app_inv in Heq as [->%as_bytes_inj ->];
    [|unfold as_bytes; by rewrite !length_be_bytes].
Qed.

(** What the crate documents of a signature: it parses, and it verifies under
    the key it was made with; a key's bytes parse to that key. *)
Definition sign_verifies : Prop := ∀ k m, ∃ s,
  signature_try_from (key_sign k m) = Some s ∧ verify_strict (key_of k) m s = true.
Definition key_bytes_round_trip : Prop := ∀ k, key_from_bytes (key_to_bytes k) = Some k.

(** A checkpoint made with [Checkpoint::sign] verifies: against the head it
    was made for it is [Valid], under the signing key's verifying key and
    under the key it embeds; against any other sequence or head it is a
    [HeadMismatch] under any key, and under a key of other bytes a [WrongKey]. *)
Theorem signed_checkpoint_verifies n h t k c :
  sign_verifies → key_bytes_round_trip → checkpoint_sign n h t k = Some c →
  checkpoint_verify c (Some (key_of k)) (Some (n, h)) = Some Valid ∧
  verify_embedded c (Some (n, h)) = Some Valid ∧
  (∀ key ch, ch ≠ Some (n, h) → checkpoint_verify c key ch = Some HeadMismatch) ∧
  (∀ key, key_to_bytes key ≠ key_to_bytes (key_of k) →
    checkpoint_verify c (Some key) (Some (n, h)) = Some WrongKey).
Proof.
  intros Hsv Hrt. unfold checkpoint_sign. intros (m&Hm&Hc%Some_inj)%bind_Some.
  destruct (Hsv k m) as (s&Hs&Hv).
  assert (checkpoint_verify c (Some (key_of k)) (Some (n, h)) = Some Valid) as Hvalid.
  { unfold checkpoint_verify; rewrite <-Hc; simpl. rewrite !bool_decide_true by done. simpl.
    rewrite Hs, Hm. simpl. by rewrite Hv. }
  split_and!; [exact Hvalid| | |].
  - unfold verify_embedded. rewrite <-Hvalid, <-Hc. simpl. by rewrite Hrt.
  - rewrite <-Hc. intros key ch Hne. unfold checkpoint_verify. by rewrite bool_decide_false.
  - rewrite <-Hc. intros key Hne. unfold checkpoint_verify. rewrite bool_decide_true by done. simpl.
    by rewrite bool_decide_false.
Qed.

(** A [Valid] checkpoint vouches for one head: it names the chain's own
    sequence and head, carries the bytes of the key that was asked for, and its
    signature verifies under that key for a message that no other sequence,
    head, key or time text has. *)
Theorem valid_checkpoint_vouches c k ch :
  checkpoint_verify c (Some k) ch = Some Valid → sequence c ≤ u64_max →
  ch = Some (sequence c, head c) ∧ public_key c = key_to_bytes k ∧
  ∃ m s, signature_try_from (signature c) = Some s ∧ verify_strict k m s = true ∧
    ∀ n h t p, n ≤ u64_max → signature_message n h t p = Some m →
      n = sequence c ∧ h = head c ∧ p = public_key c ∧
      timestamp_to_string t = timestamp_to_string (signed_at c).
Proof.
  unfold checkpoint_verify. case_bool_decide as Hch; simpl; [|done].
  case_bool_decide as Hk; simpl; [|done].
  destruct (signature_try_from (signature c)) as [s|] eqn:Hs; [|done].
  intros (m&Hm&Hv%Some_inj)%bind_Some Hn. destruct (verify_strict k m s) eqn:Hvs; [|done].
  split_and!; [done..|]. exists m, s. split_and!; [done..|].
  intros n h t p Hle Hm'. by apply (signature_message_inj _ _ _ _ _ _ _ _ m).
Qed.
End checkpoint.

(** A concrete scheme for the examples: a signature is the key and a checksum of
    the message. *)
Definition toy_ed25519 : Ed25519 :=
  {| SigningKey := word 256; VerifyingKey := word 256; Signature := string;
     key_of := λ k, k; key_to_bytes := λ k, k; key_from_bytes := λ k, Some k;
     key_sign := λ k m, (as_bytes k +:+ as_bytes (word_of 256 (be_value m)))%string;
     signature_try_from := λ s, if decide (String.length s = 64%nat) then Some s else None;
     verify_strict := λ k m s,
       bool_decide (s = (as_bytes k +:+ as_bytes (word_of 256 (be_value m)))%string) |}.

Lemma toy_sign_verifies : @sign_verifies toy_ed25519.
Proof.
  intros k m. exists (@key_sign toy_ed25519 k m).
  unfold toy_ed25519, signature_try_from, key_sign, verify_strict, key_of. rewrite decide_True; [split; [done|by rewrite bool_decide_true]|].
  rewrite length_str_app. unfold as_bytes. by rewrite !length_be_bytes.
Qed.

Definition sample_checkpoint : Checkpoint :=
  default {| head := word_of 256 0; public_key := word_of 256 0; sequence := 0; signature := "";
             signed_at := 0%Z |}
    (@checkpoint_sign toy_rfc3339 toy_ed25519 3 (word_of 256 9) 5%Z (word_of 256 11)).

Lemma signed_checkpoint_verifies_witness :
  @checkpoint_verify toy_rfc3339 toy_ed25519 sample_checkpoint (Some (word_of 256 11))
    (Some (3, word_of 256 9)) = Some Valid.
Proof.
  apply (@signed_checkpoint_verifies toy_rfc3339 toy_ed25519 3 (word_of 256 9) 5%Z
    (word_of 256 11) sample_checkpoint toy_sign_verifies (λ k, eq_refl)).
  vm_compute. reflexivity.
Defined.

Lemma valid_checkpoint_vouches_witness :
  Some (3, word_of 256 9) = Some (sequence sample_checkpoint, head sample_checkpoint).
Proof.
  refine (proj1 (@valid_checkpoint_vouches toy_rfc3339 toy_ed25519 sample_checkpoint
    (word_of 256 11) (Some (3, word_of 256 9)) _ _)).
  - vm_compute. reflexivity.
  - vm_compute. discriminate.
Defined.
End Checkpoint.

(** * Queries *)

Module History.

Definition MAX_PAGE_SIZE : nat := 1000.

Record HistoryFilter : Type := {
  f_actor : option string;
  f_candidate_id : option CandidateId;
  f_file : option string;
  f_from : option WorkflowTimestamp;
  f_project_id : option ProjectId;
  f_role : option WorkflowRole;
  f_task_id : option TaskId;
  f_to : option WorkflowTimestamp;
  f_workflow_id : option WorkflowId;
}.

Record HistoryPage : Type := { entries : list LedgerEntry; next_sequence : option N }.

Definition is_none_or {A} (p : A → bool) (o : option A) : bool :=
  match o with None => true | Some a => p a end.

(** [HistoryFilter::matches]. *)
Definition matches (f : HistoryFilter) (entry : LedgerEntry) : bool :=
  let event := event entry in
  is_none_or (λ a, bool_decide (actor_id (actor event) = a)) (f_actor f) &&
  is_none_or (λ c, bool_decide (candidate_id event = Some c)) (f_candidate_id f) &&
  is_none_or (λ file, bool_decide (file ∈ files event)) (f_file f) &&
  is_none_or (λ from, (from <=? timestamp event)%Z) (f_from f) &&
  is_none_or (λ p, bool_decide (project_id event = p)) (f_project_id f) &&
  is_none_or (λ r, bool_decide (actor_role (actor event) = Some r)) (f_role f) &&
  is_none_or (λ t, bool_decide (task_id event = Some t)) (f_task_id f) &&
  is_none_or (λ to, (timestamp event <=? to)%Z) (f_to f) &&
  is_none_or (λ w, bool_decide (workflow_id event = Some w)) (f_workflow_id f).

Definition after (after_sequence : option N) (entry : LedgerEntry) : bool :=
  is_none_or (λ a, a <? sequence entry) after_sequence.

(** [query]: the iterator that [by_ref] took [limit] entries from stands at the
    entries that remain. *)
Definition query (chain : LedgerChain) (f : HistoryFilter) (after_sequence : option N)
    (limit : nat) : HistoryPage :=
  let limit := Nat.min (Nat.max limit 1) MAX_PAGE_SIZE in
  let matching := List.filter (matches f) (List.filter (after after_sequence) chain) in
  let page := take limit matching in
  {| entries := page;
     next_sequence := match drop limit matching with
                      | _ :: _ => sequence <$> last page
                      | [] => None
                      end |}.

Record HistoryExport : Type := {
  checkpoints : list Checkpoint.Checkpoint;
  export_entries : list LedgerEntry;
  format_version : N;
}.

(** [HistoryExport::new]. *)
Definition export_new (chain : LedgerChain) (checkpoints : list Checkpoint.Checkpoint)
    : HistoryExport :=
  {| checkpoints := checkpoints; export_entries := chain; format_version := 1 |}.

(** A reader that follows the page cursors from [after_sequence] on, for at
    most [fuel] pages. *)
Fixpoint walk (fuel : nat) (chain : LedgerChain) (f : HistoryFilter) (after_sequence : option N)
    (limit : nat) : option (list LedgerEntry) :=
  match fuel with
  | O => None
  | S fuel =>
      let page := query chain f after_sequence limit in
      match next_sequence page with
      | None => Some (entries page)
      | Some s => rest ← walk fuel chain f (Some s) limit; Some (entries page ++ rest)
      end
  end.

Lemma filter_comm {A} (p q : A → bool) l :
  List.filter p (List.filter q l) = List.filter q (List.filter p l).
Proof.
  induction l as [|x l IH]; simpl; [done|].
  destruct (q x) eqn:Hq, (p x) eqn:Hp; simpl; rewrite ?Hq, ?Hp, IH; done.
Qed.

Lemma filter_idemp_impl {A} (p q : A → bool) l :
  (∀ x, p x = true → q x = true) → List.filter p (List.filter q l) = List.filter p l.
Proof.
  intros Hpq. induction l as [|x l IH]; simpl; [done|].
  destruct (q x) eqn:Hq; simpl; [by rewrite IH|].
  destruct (p x) eqn:Hp; [|done]. apply Hpq in Hp. congruence.
Qed.

Definition ascending : list LedgerEntry → Prop :=
  StronglySorted (λ a b, sequence a < sequence b).

Lemma linked_ascending `{Sha256, ToJson LedgerEvent} i p c h :
  linked i p c h → ascending c ∧ Forall (λ e, N.of_nat i ≤ sequence e) c.
Proof.
  induction 1 as [i p|i p e c h m _ Hs _ _ _ _ [IH1 IH2]]; [by repeat constructor|].
  assert (Forall (λ e, N.of_nat i < sequence e) c) as Hlt.
  { eapply Forall_impl; [exact IH2|]. simpl. lia. }
  split; constructor; [done| |rewrite Hs; lia|].
  - eapply Forall_impl; [exact Hlt|]. simpl. lia.
  - eapply Forall_impl; [exact Hlt|]. simpl. lia.
Qed.

Lemma ascending_filter p c : ascending c → ascending (List.filter p c).
Proof.
  induction 1 as [|e c _ IH Hall]; simpl; [constructor|].
  destruct (p e); [|done]. constructor; [done|]. rewrite List.Forall_forall in *.
  intros x [Hx _]%List.filter_In. auto.
Qed.

(** The entries after the last of a page are the ones after the page. *)
Lemma after_last page e rest :
  ascending (page ++ rest) → last page = Some e →
  List.filter (after (Some (sequence e))) (page ++ rest) = rest.
Proof.
  intros Hasc [pre ->]%last_Some. rewrite <-app_assoc in *. simpl in *.
  induction pre as [|x pre IH]; simpl in *.
  - inversion Hasc as [|?? _ Hall]; subst. rewrite (proj2 (N.ltb_ge _ _)) by lia.
    clear Hasc. induction Hall as [|y rest Hy _ IH]; simpl; [done|].
    by rewrite (proj2 (N.ltb_lt _ _) Hy), IH.
  - inversion Hasc as [|?? Hrest Hall]; subst. rewrite (proj2 (N.ltb_ge _ _)); [by apply IH|].
    rewrite List.Forall_forall in Hall. apply N.lt_le_incl, Hall.
    apply in_or_app. right. by left.
Qed.

Lemma walk_spec fuel chain f a limit :
  let matching := List.filter (matches f) (List.filter (after a) chain) in
  ascending chain → (length matching < fuel)%nat →
  walk fuel chain f a limit = Some matching.
Proof.
  revert a. induction fuel as [|fuel IH]; intros a; simpl; [lia|]. intros Hasc Hfuel.
  set (n := Nat.min (Nat.max limit 1) MAX_PAGE_SIZE).
  set (M := List.filter (matches f) (List.filter (after a) chain)) in *.
  assert (1 ≤ n)%nat as Hn by (unfold n, MAX_PAGE_SIZE; lia).
  pose proof (take_drop n M) as Htd.
  destruct (drop n M) as [|x rest] eqn:Hdrop; [by rewrite app_nil_r in Htd; rewrite Htd|].
  destruct (last (take n M)) as [e|] eqn:Hlast.
  2: { apply last_None in Hlast. rewrite Hlast in Htd. apply (f_equal length) in Htd.
       apply (f_equal length) in Hlast. rewrite length_take in Hlast. simpl in *. lia. }
  simpl. assert (ascending M) as HascM by by apply ascending_filter, ascending_filter.
  assert (List.filter (matches f) (List.filter (after (Some (sequence e))) chain) = x :: rest)
    as Hrest.
  { pose proof (after_last (take n M) e (x :: rest)) as Hafter. rewrite Htd in Hafter.
    rewrite <-(Hafter HascM Hlast). unfold M. rewrite filter_comm, (filter_comm (matches f) (after a)).
    symmetry. apply filter_idemp_impl. intros y Hy.
    assert (e ∈ M) as He.
    { rewrite <-Htd. apply elem_of_app. left. apply last_Some in Hlast as [? ->]. apply elem_of_app. right. by left. }
    apply list_elem_of_In, filter_In in He as [[_ He]%filter_In _].
    destruct a as [a|]; simpl in *; [|done]. to_prop. apply N.ltb_lt. lia. }
  rewrite IH, Hrest; [simpl; by rewrite Htd|done|].
  rewrite Hrest. apply (f_equal length) in Htd. rewrite length_app, length_take in Htd.
  cbn [length] in *. lia.
Qed.

(** Paging through the history loses and repeats nothing: over a chain that
    verifies, whatever the filter and the page limit, following [next_sequence]
    ends within one page per entry and one more, the pages together are exactly
    the entries that match, in ledger order, and no page has more than 1,000
    entries. *)
Theorem pages_cover_history `{Sha256, ToJson LedgerEvent} chain f limit expected n h :
  chain_verify expected chain = Valid n h →
  walk (S n) chain f None limit = Some (List.filter (matches f) chain) ∧
  ∀ a, (length (entries (query chain f a limit)) ≤ MAX_PAGE_SIZE)%nat.
Proof.
  intros (->&Hl&_)%chain_verify_valid. apply linked_ascending in Hl as [Hasc _].
  assert (∀ c : LedgerChain, List.filter (after None) c = c) as Hall.
  { intros c. induction c as [|e c IH]; simpl; [done|by rewrite IH]. }
  split.
  - rewrite walk_spec, Hall; [done|done|]. rewrite Hall. apply Nat.lt_succ_r, filter_length_le.
  - intros a. simpl. rewrite length_take. lia.
Qed.

Definition no_filter : HistoryFilter :=
  {| f_actor := Some "executor"; f_candidate_id := None; f_file := None; f_from := None;
     f_project_id := None; f_role := None; f_task_id := None; f_to := None;
     f_workflow_id := None |}.

Lemma pages_cover_history_witness :
  walk 3 (sample_chain "start") no_filter None 1 = Some (sample_chain "start").
Proof.
  refine (proj1 (@pages_cover_history toy_sha256 toy_event_json (sample_chain "start") no_filter 1 None 2
    (chain_head (sample_chain "start")) _)).
  vm_compute. reflexivity.
Defined.
End History.
