(* ===== verification/Frames.v ===== *)
(** The framing of local IPC: workflow-ipc/src/frame.rs (length-prefixed frames)
    and channel.rs (JSON messages over a byte stream). *)
From Stdlib Require Import Ascii String.
From S2P Require Import Prelude Text Ids Canonical.
Local Open Scope N_scope.

Definition Bytes : Type := list ascii.

(** [u32::to_be_bytes] and [from_be_bytes]. *)
Definition u32_to_be_bytes (n : N) : Bytes := list_ascii_of_string (be_bytes 4 n).
Definition u32_from_be_bytes (b : Bytes) : N := be_value (string_of_list_ascii b).

(** [serde_json::from_slice] at a type. *)
Class FromJson (A : Type) := from_slice : Bytes → option A.

Module Frame.

(** [Vec::len], as a [usize]. *)
Definition len (b : Bytes) : N := N.of_nat (length b).

Definition MAX_FRAME_BYTES : N := 8 * 1024 * 1024.

Inductive FrameError : Type :=
| Empty | Json | Oversized (announced maximum : N) | Poisoned.

(** [encode_frame]. *)
Definition encode_frame `{ToJson A} (value : A) : result FrameError Bytes :=
  payload ← ok_or Json (to_vec value);
  let payload := list_ascii_of_string payload in
  if bool_decide (payload = []) then Err Empty
  else if MAX_FRAME_BYTES <? len payload then Err (Oversized (len payload) MAX_FRAME_BYTES)
  else Ok (u32_to_be_bytes (len payload) ++ payload).

Inductive DecodeState : Type :=
| Header (bytes : Bytes) (filled : nat)
| Payload (bytes : Bytes) (length : N)
| Closed.

Definition FrameDecoder : Type := DecodeState.

(** [FrameDecoder::new]. *)
Definition empty_header : DecodeState := Header (replicate 4 "000"%char) 0.
Definition decoder_new : FrameDecoder := empty_header.

(** [bytes[from..from + piece.len()].copy_from_slice(piece)]. *)
Definition copy_at (from : nat) (piece bytes : Bytes) : Bytes :=
  take from bytes ++ piece ++ drop (from + length piece)%nat bytes.

(** One turn of the loop of [feed] on the bytes that are left: the new state,
    the input after it and the frame it completed, or an error. *)
Definition feed_turn (state : DecodeState) (input : Bytes)
    : DecodeState * result FrameError (Bytes * option Bytes) :=
  match state with
  | Header bytes filled =>
      let copied := Nat.min (4 - filled)%nat (length input) in
      let bytes := copy_at filled (take copied input) bytes in
      let filled := (filled + copied)%nat in
      let input := drop copied input in
      if (filled =? 4)%nat then
        let announced := u32_from_be_bytes bytes in
        if announced =? 0 then (Closed, Err Empty)
        else if MAX_FRAME_BYTES <? announced
        then (Closed, Err (Oversized announced MAX_FRAME_BYTES))
        else (Payload [] announced, Ok (input, None))
      else (Header bytes filled, Ok (input, None))
  | Payload bytes total =>
      let copied := Nat.min (N.to_nat total - length bytes)%nat (length input) in
      let bytes := bytes ++ take copied input in
      let input := drop copied input in
      if len bytes =? total then (empty_header, Ok (input, Some bytes))
      else (Payload bytes total, Ok (input, None))
  | Closed => (Closed, Err Poisoned)
  end.

(** The loop of [FrameDecoder::feed]; [None] when it runs out of fuel. *)
Fixpoint feed_loop (fuel : nat) (state : DecodeState) (input : Bytes) (complete : list Bytes)
    : option (DecodeState * result FrameError (list Bytes)) :=
  match input with
  | [] => Some (state, Ok complete)
  | _ :: _ =>
      match fuel with
      | O => None
      | S fuel =>
          match feed_turn state input with
          | (state, Err e) => Some (state, Err e)
          | (state, Ok (input, frame)) =>
              feed_loop fuel state input (complete ++ option_list frame)
          end
      end
  end.

(** [FrameDecoder::feed]: every turn consumes a byte. *)
Definition feed (d : FrameDecoder) (input : Bytes)
    : option (FrameDecoder * result FrameError (list Bytes)) :=
  feed_loop (length input) d input [].

(** [FrameDecoder::feed_json]. *)
Fixpoint decode_frames `{FromJson A} (frames : list Bytes) (decoded : list A)
    : result FrameError (list A) :=
  match frames with
  | [] => Ok decoded
  | frame :: frames =>
      match from_slice frame with
      | Some value => decode_frames frames (decoded ++ [value])
      | None => Err Json
      end
  end.
Definition feed_json `{FromJson A} (d : FrameDecoder) (input : Bytes)
    : option (FrameDecoder * result FrameError (list A)) :=
  match feed d input with
  | None => None
  | Some (d, Err e) => Some (d, Err e)
  | Some (d, Ok frames) =>
      match decode_frames frames [] with
      | Ok decoded => Some (d, Ok decoded)
      | Err e => Some (Closed, Err e)
      end
  end.

(** [FrameDecoder::buffered_bytes]. *)
Definition buffered_bytes (d : FrameDecoder) : nat :=
  match d with Header _ filled => filled | Payload bytes _ => length bytes | Closed => 0 end.

(** * The decoder byte by byte *)

(** The reference decoder: the header read so far, or the announced length and
    the payload read so far, or closed. *)
Inductive position : Type :=
| In_header (got : Bytes)
| In_payload (total : N) (got : Bytes)
| At_error.

Definition byte_step (p : position) (b : ascii) : position * result FrameError (option Bytes) :=
  match p with
  | In_header got =>
      let got := got ++ [b] in
      if (length got =? 4)%nat then
        let announced := u32_from_be_bytes got in
        if announced =? 0 then (At_error, Err Empty)
        else if MAX_FRAME_BYTES <? announced
        then (At_error, Err (Oversized announced MAX_FRAME_BYTES))
        else (In_payload announced [], Ok None)
      else (In_header got, Ok None)
  | In_payload total got =>
      let got := got ++ [b] in
      if len got =? total then (In_header [], Ok (Some got))
      else (In_payload total got, Ok None)
  | At_error => (At_error, Err Poisoned)
  end.

Fixpoint byte_run (p : position) (input : Bytes) : position * result FrameError (list Bytes) :=
  match input with
  | [] => (p, Ok [])
  | b :: input =>
      match byte_step p b with
      | (p, Err e) => (p, Err e)
      | (p, Ok frame) =>
          match byte_run p input with
          | (p, Ok frames) => (p, Ok (option_list frame ++ frames))
          | (p, Err e) => (p, Err e)
          end
      end
  end.

(** The reference reading of a whole input: where it ends, every frame that was
    complete before the first error, and that error. *)
Fixpoint byte_frames (p : position) (input : Bytes) : position * list Bytes * option FrameError :=
  match input with
  | [] => (p, [], None)
  | b :: input =>
      match byte_step p b with
      | (p, Err e) => (p, [], Some e)
      | (p, Ok frame) =>
          let '(p, frames, e) := byte_frames p input in (p, option_list frame ++ frames, e)
      end
  end.

(** What a decoder state stands for, and which states occur. *)
Definition at_position (d : FrameDecoder) : position :=
  match d with
  | Header bytes filled => In_header (take filled bytes)
  | Payload bytes total => In_payload total bytes
  | Closed => At_error
  end.
Definition decoder_ok (d : FrameDecoder) : Prop :=
  match d with
  | Header bytes filled => length bytes = 4%nat ∧ (filled < 4)%nat
  | Payload bytes total => len bytes < total ≤ MAX_FRAME_BYTES
  | Closed => True
  end.

Lemma byte_run_app p a b :
  byte_run p (a ++ b) =
  match byte_run p a with
  | (q, Ok fs) => match byte_run q b with (q', Ok gs) => (q', Ok (fs ++ gs)) | r => r end
  | r => r
  end.
Proof.
  revert p. induction a as [|x a IH]; intros p; simpl.
  - by destruct (byte_run p b) as [q [fs|e]].
  - destruct (byte_step p x) as [q [f|e]]; [|done]. rewrite IH.
    destruct (byte_run q a) as [q1 [fs|e]]; [|done].
    destruct (byte_run q1 b) as [q2 [gs|e]]; [|done]. by rewrite app_assoc.
Qed.

(** Where a complete header leads. *)
Definition header_outcome (bytes : Bytes) : position * result FrameError (list Bytes) :=
  let announced := u32_from_be_bytes bytes in
  if announced =? 0 then (At_error, Err Empty)
  else if MAX_FRAME_BYTES <? announced
  then (At_error, Err (Oversized announced MAX_FRAME_BYTES))
  else (In_payload announced [], Ok []).

Lemma run_header got piece :
  (length got < 4)%nat → (length got + length piece ≤ 4)%nat →
  byte_run (In_header got) piece =
  if (length got + length piece =? 4)%nat then header_outcome (got ++ piece)
  else (In_header (got ++ piece), Ok []).
Proof.
  revert got. induction piece as [|b piece IH]; intros got Hlt Hle; cbn [byte_run].
  { rewrite (proj2 (Nat.eqb_neq _ _)), app_nil_r; [done|simpl; lia]. }
  cbn [length] in *.
  replace (length got + S (length piece))%nat with (length (got ++ [b]) + length piece)%nat
    by (rewrite length_app; simpl; lia).
  assert (length (got ++ [b]) = length got + 1)%nat as Hlen by (by rewrite length_app).
  replace (got ++ b :: piece) with ((got ++ [b]) ++ piece) by (by rewrite <-app_assoc).
  cbn [byte_step]. destruct (length (got ++ [b]) =? 4)%nat eqn:Hfull.
  - apply Nat.eqb_eq in Hfull. destruct piece; [|simpl in *; lia].
    rewrite app_nil_r, Nat.add_0_r, (proj2 (Nat.eqb_eq _ _) Hfull). unfold header_outcome.
    destruct (_ =? 0); [done|]. by destruct (_ <? _).
  - apply Nat.eqb_neq in Hfull. rewrite IH by lia.
    destruct (_ =? _)%nat; [|done]. unfold header_outcome.
    destruct (_ =? 0); [done|]. by destruct (_ <? _).
Qed.

Lemma len_app a b : len (a ++ b) = len a + len b.
Proof. unfold len. rewrite length_app. lia. Qed.

Lemma run_payload total got piece :
  len got < total → len got + len piece ≤ total →
  byte_run (In_payload total got) piece =
  if len (got ++ piece) =? total then (In_header [], Ok [got ++ piece])
  else (In_payload total (got ++ piece), Ok []).
Proof.
  revert got. induction piece as [|b piece IH]; intros got Hlt Hle; cbn [byte_run].
  { rewrite app_nil_r. by rewrite (proj2 (N.eqb_neq (len got) total)) by lia. }
  replace (got ++ b :: piece) with ((got ++ [b]) ++ piece) by (by rewrite <-app_assoc).
  change (len (b :: piece)) with (N.of_nat (S (length piece))) in Hle.
  assert (len (got ++ [b]) = len got + 1) as Hlen by (by rewrite len_app).
  cbn [byte_step]. destruct (len (got ++ [b]) =? total) eqn:Hfull; to_prop.
  - destruct piece as [|c piece]; [|simpl in *; lia].
    rewrite app_nil_r. by rewrite (proj2 (N.eqb_eq _ _) Hfull).
  - assert (len (b :: piece) = len piece + 1) by (unfold len; simpl; lia).
    rewrite IH by (unfold len in *; simpl in *; lia).
    by destruct (len ((got ++ [b]) ++ piece) =? total).
Qed.

(** One turn of [feed] takes the input as the reference decoder does. *)
Lemma feed_turn_spec d input :
  decoder_ok d → input ≠ [] →
  ∃ taken rest, input = taken ++ rest ∧ (0 < length taken)%nat ∧
  match feed_turn d input with
  | (d', Err e) => byte_run (at_position d) taken = (at_position d', Err e) ∧ decoder_ok d'
  | (d', Ok (rest', frame)) => rest' = rest ∧ decoder_ok d' ∧
      byte_run (at_position d) taken = (at_position d', Ok (option_list frame))
  end.
Proof.
  intros Hok Hne. assert (0 < length input)%nat as Hpos by (destruct input; [done|simpl; lia]).
  destruct d as [bytes filled|bytes total|]; cbn [feed_turn at_position decoder_ok] in *.
  - destruct Hok as [Hbytes Hfilled]. set (copied := Nat.min (4 - filled)%nat (length input)).
    assert (length (take copied input) = copied) as Hlen by (rewrite length_take; lia).
    assert (take (filled + copied) (copy_at filled (take copied input) bytes)
      = take filled bytes ++ take copied input) as Htake.
    { unfold copy_at. rewrite app_assoc.
      assert (length (take filled bytes ++ take copied input) = filled + copied)%nat as <-
        by (rewrite length_app, length_take; lia).
      apply take_app_length. }
    exists (take copied input), (drop copied input).
    split; [by rewrite take_drop|]. split; [lia|].
    assert (length (take filled bytes) = filled) as Hf by (rewrite length_take; lia).
    rewrite (run_header (take filled bytes) (take copied input)) by lia.
    rewrite Hf, Hlen. destruct (filled + copied =? 4)%nat eqn:Hfull.
    + apply Nat.eqb_eq in Hfull.
      assert (copy_at filled (take copied input) bytes = take filled bytes ++ take copied input)
        as ->.
      { rewrite <-Htake, Hfull. symmetry. apply take_ge. unfold copy_at.
        rewrite !length_app, length_take, length_drop. lia. }
      unfold header_outcome. destruct (_ =? 0) eqn:Hz; [done|].
      destruct (MAX_FRAME_BYTES <? _) eqn:Hbig; [done|]. to_prop. split_and!; try done. simpl.
      unfold len. simpl. lia.
    + apply Nat.eqb_neq in Hfull. simpl. rewrite Htake. split_and!; try done.
      * unfold copy_at. rewrite !length_app, length_take, length_drop. lia.
      * lia.
  - unfold len in Hok.
    set (copied := Nat.min (N.to_nat total - length bytes)%nat (length input)).
    assert (length (take copied input) = copied) as Hlen by (rewrite length_take; lia).
    exists (take copied input), (drop copied input).
    split; [by rewrite take_drop|]. split; [lia|].
    rewrite (run_payload total bytes (take copied input)) by (unfold len; lia).
    destruct (len (bytes ++ take copied input) =? total) eqn:Hfull; to_prop.
    + split_and!; try done. simpl. lia.
    + split_and!; try done. cbn [decoder_ok]. rewrite len_app in *. unfold len in *. lia.
  - exists [hd "000"%char input], (tl input). by destruct input; [|simpl; eauto with lia].
Qed.

Lemma feed_loop_spec fuel d input complete :
  decoder_ok d → (length input ≤ fuel)%nat →
  ∃ d' r, feed_loop fuel d input complete = Some (d', r) ∧ decoder_ok d' ∧
    byte_run (at_position d) input = (at_position d',
      match r with Ok fs => Ok (drop (length complete) fs) | Err e => Err e end) ∧
    ∀ fs, r = Ok fs → take (length complete) fs = complete.
Proof.
  revert d input complete. induction fuel as [|fuel IH]; intros d input complete Hok Hle.
  - destruct input; [|simpl in *; lia]. exists d, (Ok complete). simpl. rewrite drop_all.
    split_and!; try done. intros fs [= <-]. by rewrite firstn_all.
  - destruct input as [|b input']; cbn [feed_loop].
    { exists d, (Ok complete). simpl. rewrite drop_all.
      split_and!; try done. intros fs [= <-]. by rewrite firstn_all. }
    destruct (feed_turn_spec d (b :: input')) as (taken&rest&Heq&Hpos&Hturn); [done..|].
    rewrite Heq in Hle |- *. rewrite length_app in Hle.
    destruct (feed_turn d (taken ++ rest)) as [d1 [[rest' frame]|e]] eqn:Hft.
    + rewrite Heq, Hft in Hturn. destruct Hturn as (->&Hok1&Hrun).
      destruct (IH d1 rest (complete ++ option_list frame)) as (d'&r&Hloop&Hok'&Hrest&Htake);
        [done|lia|].
      exists d', r. rewrite Hloop. split_and!; try done.
      * rewrite byte_run_app, Hrun, Hrest. destruct r as [fs|e]; [|done].
        specialize (Htake fs eq_refl). repeat f_equal.
        rewrite <-(take_drop (length (complete ++ option_list frame)) fs) at 2. rewrite Htake.
        by rewrite <-app_assoc, drop_app_length.
      * intros fs ->. specialize (Htake fs eq_refl).
        rewrite length_app in Htake. apply (f_equal (take (length complete))) in Htake.
        rewrite take_take, take_app_length in Htake. by rewrite Nat.min_l in Htake by lia.
    + rewrite Heq, Hft in Hturn. destruct Hturn as [Hrun Hok1].
      exists d1, (Err e). rewrite byte_run_app, Hrun. by split_and!.
Qed.

Lemma feed_spec d input :
  decoder_ok d → ∃ d' r, feed d input = Some (d', r) ∧ decoder_ok d' ∧
    byte_run (at_position d) input = (at_position d', r).
Proof.
  intros Hok. destruct (feed_loop_spec (length input) d input [] Hok (le_n _))
    as (d'&r&Hloop&Hok'&Hrun&_).
  exists d', r. split_and!; [done..|]. rewrite Hrun. by destruct r.
Qed.

(** Feeding the chunks of a connection one after the other, until an error: the
    frames the calls of [feed] handed out, and the error. *)
Fixpoint feed_chunks (d : FrameDecoder) (chunks : list Bytes)
    : option (FrameDecoder * list Bytes * option FrameError) :=
  match chunks with
  | [] => Some (d, [], None)
  | chunk :: chunks =>
      '(d, r) ← feed d chunk;
      match r with
      | Err e => Some (d, [], Some e)
      | Ok frames => '(d, more, e) ← feed_chunks d chunks; Some (d, frames ++ more, e)
      end
  end.

Lemma byte_frames_app p a b :
  byte_frames p (a ++ b) =
  match byte_frames p a with
  | (q, fs, None) => let '(q', gs, e) := byte_frames q b in (q', fs ++ gs, e)
  | r => r
  end.
Proof.
  revert p. induction a as [|x a IH]; intros p; simpl.
  - by destruct (byte_frames p b) as [[q fs] e].
  - destruct (byte_step p x) as [q [f|e]]; [|done]. rewrite IH.
    destruct (byte_frames q a) as [[q1 fs] [e|]]; [done|].
    destruct (byte_frames q1 b) as [[q2 gs] e]. by rewrite app_assoc.
Qed.

Lemma byte_run_reference p input :
  match byte_run p input with
  | (q, Ok fs) => byte_frames p input = (q, fs, None)
  | (q, Err e) => ∃ fs, byte_frames p input = (q, fs, Some e)
  end.
Proof.
  revert p. induction input as [|x input IH]; intros p; simpl; [done|].
  destruct (byte_step p x) as [q [f|e]]; [|eauto]. specialize (IH q).
  destruct (byte_run q input) as [q' [fs|e]]; [by rewrite IH|].
  destruct IH as [fs ->]. eauto.
Qed.

(** The chunks before the one whose feeding failed. *)
Definition failing_chunk (p : position) (chunks : list Bytes) (fs : list Bytes) : Prop :=
  ∃ before chunk after q, chunks = before ++ chunk :: after ∧
    byte_frames p (concat before) = (q, fs, None) ∧
    is_Some (byte_frames q chunk).2.

Lemma feed_chunks_spec d chunks :
  decoder_ok d → ∃ d' fs e reference, feed_chunks d chunks = Some (d', fs, e) ∧ decoder_ok d' ∧
    byte_frames (at_position d) (concat chunks) = (at_position d', reference, e) ∧
    (e = None → fs = reference) ∧
    (is_Some e → failing_chunk (at_position d) chunks fs).
Proof.
  revert d. induction chunks as [|c chunks IH]; intros d Hok; simpl.
  { eexists _, _, _, _. split_and!; [done..|]. by intros [??]. }
  destruct (feed_spec d c Hok) as (d1&r1&->&Hok1&Hrun1). simpl.
  pose proof (byte_run_reference (at_position d) c) as Href. rewrite Hrun1 in Href.
  rewrite byte_frames_app. destruct r1 as [fs|e].
  - destruct (IH d1 Hok1) as (d2&fs2&e2&ref2&->&Hok2&Hrun2&Hnone&Hsome). simpl.
    rewrite Href, Hrun2. eexists _, _, _, _. split_and!; [done..|by intros ->%Hnone|].
    intros (before&chunk&after&q&->&Hbefore&He)%Hsome.
    exists (c :: before), chunk, after, q. split_and!; [done| |done].
    simpl. by rewrite byte_frames_app, Href, Hbefore.
  - destruct Href as [ref Href]. rewrite Href. eexists _, _, _, _. split_and!; [done..| |]; [done|].
    intros _. exists [], c, chunks, (at_position d). rewrite Href. simpl. eauto.
Qed.

Lemma decoder_new_ok : decoder_ok decoder_new.
Proof. by split; [|lia]. Qed.

Lemma byte_frames_sizes p input :
  match p with In_payload total got => len got < total ≤ MAX_FRAME_BYTES | _ => True end →
  Forall (λ f, 0 < len f ≤ MAX_FRAME_BYTES) (byte_frames p input).1.2.
Proof.
  revert p. induction input as [|b input IH]; intros p Hp; cbn [byte_frames]; [constructor|].
  destruct (byte_step p b) as [p1 [frame|e]] eqn:Hb; [|constructor].
  assert (match p1 with In_payload total got => len got < total ≤ MAX_FRAME_BYTES | _ => True end
    ∧ Forall (λ f, 0 < len f ≤ MAX_FRAME_BYTES) (option_list frame)) as [Hp1 Hframe].
  { destruct p as [got|total got|]; cbn [byte_step] in Hb; [| |done].
    - destruct (_ =? _)%nat; [|by injection Hb as <- <-].
      destruct (_ =? 0) eqn:Hz; [done|]. destruct (_ <? _) eqn:Hbig; [done|].
      injection Hb as <- <-. to_prop. unfold len. simpl. split; [lia|constructor].
    - assert (len (got ++ [b]) = len got + 1) as Hlen by (by rewrite len_app).
      destruct (_ =? total) eqn:Ht; injection Hb as <- <-; to_prop.
      + split; [done|]. repeat constructor; lia.
      + split; [lia|constructor]. }
  specialize (IH p1 Hp1). destruct (byte_frames p1 input) as [[q fs] e].
  apply Forall_app. by split.
Qed.

(** C36. The block-copying decoder is the byte-at-a-time one, however a
    connection is cut into chunks: feeding any chunks to a new decoder, one call
    of [feed] after the other until one fails, always returns (each turn of its
    loop consumes input) and ends in the position and with the error, if any, of
    reading the joined bytes one by one. Without an error the frames handed out
    are those of the joined bytes. With an error they are exactly the frames
    complete in the chunks before the one that failed, a prefix of the frames
    that precede the error: frames that were complete in the failing chunk
    itself are lost, so how many of them arrive does depend on the chunks. Every
    frame has between 1 and 8 MiB bytes, and no more than that is ever
    buffered. *)
Theorem decoding_ignores_chunking chunks :
  ∃ d fs e reference, feed_chunks decoder_new chunks = Some (d, fs, e) ∧
    byte_frames (In_header []) (concat chunks) = (at_position d, reference, e) ∧
    (e = None → fs = reference) ∧
    (is_Some e → fs `prefix_of` reference ∧
      ∃ before chunk after q, chunks = before ++ chunk :: after ∧
        byte_frames (In_header []) (concat before) = (q, fs, None) ∧
        is_Some (byte_frames q chunk).2) ∧
    N.of_nat (buffered_bytes d) < MAX_FRAME_BYTES ∧
    Forall (λ f, 0 < len f ≤ MAX_FRAME_BYTES) reference.
Proof.
  destruct (feed_chunks_spec decoder_new chunks decoder_new_ok)
    as (d&fs&e&reference&Hfeed&Hok&Hrun&Hnone&Hsome).
  exists d, fs, e, reference. split_and!; [done..| | |].
  - intros Hfail%Hsome. split; [|exact Hfail]. destruct Hfail as (before&c&after&q&->&Hbefore&_).
    change (at_position decoder_new) with (In_header []) in *.
    rewrite concat_app, byte_frames_app, Hbefore in Hrun.
    destruct (byte_frames q _) as [[q' gs] e']. injection Hrun as _ <- _. by exists gs.
  - destruct d as [bytes filled|bytes total|]; cbn [buffered_bytes decoder_ok] in *;
      unfold MAX_FRAME_BYTES, len in *; lia.
  - pose proof (byte_frames_sizes (In_header []) (concat chunks) I) as Hsizes.
    change (at_position decoder_new) with (In_header []) in *. by rewrite Hrun in Hsizes.
Qed.

(** A frame followed by an empty header: it is handed out when the two arrive in
    two chunks, and lost when they arrive in one. *)
Example frame_lost_with_its_chunk :
  let frame := u32_to_be_bytes 1 ++ ["a"%char] in
  let bad := u32_to_be_bytes 0 in
  feed_chunks decoder_new [frame; bad] = Some (Closed, [["a"%char]], Some Empty) ∧
  feed_chunks decoder_new [frame ++ bad] = Some (Closed, [], Some Empty).
Proof. split; vm_compute; reflexivity. Qed.

(** * Encoding *)

Lemma string_of_list_app a b :
  string_of_list_ascii (a ++ b) = string_of_list_ascii a +:+ string_of_list_ascii b.
Proof.
  induction a as [|x a IH]; simpl; [by rewrite str_app_nil|]. by rewrite IH, str_app_cons.
Qed.

Lemma length_list_ascii s : length (list_ascii_of_string s) = String.length s.
Proof. induction s as [|a s IH]; simpl; [done|by rewrite IH]. Qed.

Lemma u32_round_trip n : n ≤ u32_max → u32_from_be_bytes (u32_to_be_bytes n) = n.
Proof.
  intros Hn. unfold u32_from_be_bytes, u32_to_be_bytes.
  rewrite string_of_list_ascii_of_string, be_value_bytes. apply N.mod_small.
  change (256 ^ N.of_nat 4) with (u32_max + 1). lia.
Qed.

(** What a frame carries. *)
Definition frame_payload `{ToJson A} (v : A) : option Bytes :=
  list_ascii_of_string <$> to_vec v.

Lemma encode_frame_ok `{ToJson A} (v : A) frame :
  encode_frame v = Ok frame ↔ ∃ p, frame_payload v = Some p ∧ 0 < len p ≤ MAX_FRAME_BYTES ∧
    frame = u32_to_be_bytes (len p) ++ p.
Proof.
  unfold encode_frame, frame_payload. destruct (to_vec v) as [s|]; simpl; [|naive_solver].
  set (p := list_ascii_of_string s). case_bool_decide as He; simpl.
  { split; [done|]. intros (?&[= <-]&Hp&_). rewrite He in Hp. unfold len in Hp. simpl in Hp. lia. }
  assert (0 < len p) by (unfold len; destruct p; [done|simpl; lia]).
  destruct (MAX_FRAME_BYTES <? len p) eqn:Hbig; to_prop.
  - split; [done|]. intros (?&[= <-]&Hp&_). lia.
  - split; [intros [= <-]; eauto|]. by intros (?&[= <-]&Hp&->).
Qed.

Lemma byte_run_frame p rest :
  0 < len p ≤ MAX_FRAME_BYTES →
  byte_run (In_header []) ((u32_to_be_bytes (len p) ++ p) ++ rest) =
  match byte_run (In_header []) rest with (q, Ok fs) => (q, Ok (p :: fs)) | r => r end.
Proof.
  intros Hp.
  assert (length (u32_to_be_bytes (len p)) = 4)%nat as Hlen
    by (unfold u32_to_be_bytes; by rewrite length_list_ascii, length_be_bytes).
  rewrite <-app_assoc, byte_run_app, run_header; rewrite ?Hlen; simpl; [|lia..].
  unfold header_outcome. rewrite u32_round_trip by (unfold MAX_FRAME_BYTES, u32_max in *; lia).
  rewrite (proj2 (N.eqb_neq _ _)), (proj2 (N.ltb_ge _ _)) by lia. simpl.
  rewrite byte_run_app, run_payload; [|unfold len in *; simpl; lia..].
  rewrite app_nil_l, N.eqb_refl. by destruct (byte_run (In_header []) rest) as [q [fs|e]].
Qed.
End Frame.

(** * Channels *)

Module Channel.
Import Frame.

Inductive ChannelError : Type := ConnectionClosed | FrameFailure (error : FrameError) | Io (error : string).

(** The two directions of a byte stream: what the coming calls of [read] give
    (bytes, no bytes at the end of the stream, or an I/O error), and the bytes
    written so far, with the I/O error that the next write gives, if any. *)
Record Stream : Type := {
  incoming : list (result string Bytes);
  outgoing : Bytes;
  write_error : option string;
}.

Record JsonChannel : Type := { decoder : FrameDecoder; pending : list Bytes; stream : Stream }.

(** [JsonChannel::new]. *)
Definition channel_new (stream : Stream) : JsonChannel :=
  {| decoder := decoder_new; pending := []; stream := stream |}.

(** [stream_write_all] and [flush]. *)
Definition stream_write_all (bytes : Bytes) (s : Stream) : Stream * result ChannelError unit :=
  match write_error s with
  | Some e => (s, Err (Io e))
  | None => ({| incoming := incoming s; outgoing := outgoing s ++ bytes;
                write_error := None |}, Ok tt)
  end.

(** [JsonChannel::send]. *)
Definition channel_send `{ToJson A} (value : A) : method JsonChannel ChannelError unit := λ c,
  match encode_frame value with
  | Err e => (c, Err (FrameFailure e))
  | Ok frame =>
      let '(s, r) := stream_write_all frame (stream c) in
      ({| decoder := decoder c; pending := pending c; stream := s |}, r)
  end.

(** The loop of [JsonChannel::receive], over the reads it makes: a frame that is
    pending, or the next read. *)
Fixpoint receive_loop (reads : list (result string Bytes)) (d : FrameDecoder)
    (queue : list Bytes) : option (FrameDecoder * list Bytes * list (result string Bytes) *
                                   result ChannelError Bytes) :=
  match queue with
  | frame :: queue => Some (d, queue, reads, Ok frame)
  | [] =>
      match reads with
      | [] | Ok [] :: _ => Some (d, [], tl reads, Err ConnectionClosed)
      | Err e :: reads => Some (d, [], reads, Err (Io e))
      | Ok buffer :: reads =>
          '(d, r) ← feed d buffer;
          match r with
          | Err e => Some (d, [], reads, Err (FrameFailure e))
          | Ok frames => receive_loop reads d frames
          end
      end
  end.

(** [JsonChannel::receive]. *)
Definition channel_receive `{FromJson A} (c : JsonChannel)
    : option (JsonChannel * result ChannelError A) :=
  '(d, queue, reads, r) ← receive_loop (incoming (stream c)) (decoder c) (pending c);
  let c := {| decoder := d; pending := queue;
              stream := {| incoming := reads; outgoing := outgoing (stream c);
                           write_error := write_error (stream c) |} |} in
  Some (c, frame ← r; ok_or (FrameFailure Json) (from_slice frame)).

(** [JsonChannel::into_inner]. *)
Definition into_inner (c : JsonChannel) : Stream := stream c.

(** * Sending and receiving *)

Fixpoint send_all `{ToJson A} (values : list A) (c : JsonChannel)
    : JsonChannel * result ChannelError unit :=
  match values with
  | [] => (c, Ok tt)
  | v :: values =>
      match channel_send v c with (c, Ok _) => send_all values c | (c, Err e) => (c, Err e) end
  end.

Fixpoint receive_n `{FromJson A} (n : nat) (c : JsonChannel)
    : option (JsonChannel * list (result ChannelError A)) :=
  match n with
  | O => Some (c, [])
  | S n => '(c, r) ← channel_receive c; '(c, rs) ← receive_n n c; Some (c, r :: rs)
  end.

(** The frames a channel has still to give, when no error is ahead. *)
Definition ahead (c : JsonChannel) (frames : list Bytes) : Prop :=
  ∃ chunks q fs, incoming (stream c) = Ok <$> chunks ∧ Forall (λ b, b ≠ []) chunks ∧
    decoder_ok (decoder c) ∧ byte_run (at_position (decoder c)) (concat chunks) = (q, Ok fs) ∧
    frames = pending c ++ fs.

Lemma byte_run_split d a b q fs :
  decoder_ok d → byte_run (at_position d) (a ++ b) = (q, Ok fs) →
  ∃ d' fs1 fs2, feed d a = Some (d', Ok fs1) ∧ decoder_ok d' ∧
    byte_run (at_position d') b = (q, Ok fs2) ∧ fs = fs1 ++ fs2.
Proof.
  intros Hok Hrun. destruct (feed_spec d a Hok) as (d'&r&Hfeed&Hok'&Ha).
  rewrite byte_run_app, Ha in Hrun. destruct r as [fs1|]; [|done].
  destruct (byte_run (at_position d') b) as [q' [fs2|e]] eqn:Hb; [|done].
  injection Hrun as -> <-. by exists d', fs1, fs2.
Qed.

(** What the receive loop gives when no error is ahead. *)
Lemma receive_loop_ahead (chunks : list Bytes) d (queue : list Bytes) q (fs : list Bytes) :
  Forall (λ b, b ≠ []) chunks → decoder_ok d →
  byte_run (at_position d) (concat chunks) = (q, Ok fs) →
  match queue ++ fs with
  | [] => ∃ d', receive_loop (Ok <$> chunks) d queue = Some (d', [], [], Err ConnectionClosed)
  | f :: rest => ∃ d' queue' chunks' fs', Forall (λ b, b ≠ []) chunks' ∧ decoder_ok d' ∧
      receive_loop (Ok <$> chunks) d queue = Some (d', queue', Ok <$> chunks', Ok f) ∧
      byte_run (at_position d') (concat chunks') = (q, Ok fs') ∧ rest = queue' ++ fs'
  end.
Proof.
  revert d queue fs. induction chunks as [|c chunks IH]; intros d queue fs Hne Hok Hrun.
  - simpl in Hrun. injection Hrun as <- <-. rewrite app_nil_r.
    destruct queue as [|f queue]; simpl; [by exists d|].
    exists d, queue, [], []. rewrite app_nil_r. by split_and!.
  - destruct queue as [|f queue].
    2: { exists d, queue, (c :: chunks), fs. by split_and!. }
    apply Forall_cons in Hne as [Hc Hne].
    destruct (byte_run_split _ _ _ _ _ Hok Hrun) as (d1&fs1&fs2&Hfeed&Hok1&Hrun1&->).
    specialize (IH d1 fs1 fs2 Hne Hok1 Hrun1). simpl.
    destruct c as [|b c]; [done|]. rewrite Hfeed. exact IH.
Qed.

Lemma channel_receive_ahead `{FromJson A} c frames :
  ahead c frames →
  match frames with
  | [] => ∃ c', channel_receive (A:=A) c = Some (c', Err ConnectionClosed)
  | f :: rest => ∃ c', ahead c' rest ∧
      channel_receive (A:=A) c = Some (c', ok_or (FrameFailure Json) (from_slice f))
  end.
Proof.
  intros (chunks&q&fs&Hin&Hne&Hok&Hrun&->). unfold channel_receive. rewrite Hin.
  pose proof (receive_loop_ahead chunks (decoder c) (pending c) q fs Hne Hok Hrun) as Hloop.
  destruct (pending c ++ fs) as [|f rest].
  - destruct Hloop as [d' ->]. simpl. eauto.
  - destruct Hloop as (d'&queue'&chunks'&fs'&Hne'&Hok'&->&Hrun'&->). simpl.
    eexists. split; [|done]. by exists chunks', q, fs'.
Qed.

Lemma send_all_outgoing `{ToJson A} (vs : list A) c :
  write_error (stream c) = None → (send_all vs c).2 = Ok tt →
  ∃ frames, Forall2 (λ v f, encode_frame v = Ok f) vs frames ∧
    outgoing (stream (send_all vs c).1) = outgoing (stream c) ++ concat frames.
Proof.
  revert c. induction vs as [|v vs IH]; intros c Hw; simpl.
  { intros _. exists []. rewrite app_nil_r. by split. }
  unfold channel_send. destruct (encode_frame v) as [f|] eqn:Hf; [|done].
  unfold stream_write_all. rewrite Hw. intros Hok.
  destruct (IH {| decoder := decoder c; pending := pending c;
    stream := {| incoming := incoming (stream c); outgoing := outgoing (stream c) ++ f;
                 write_error := None |} |} eq_refl Hok) as (fs&Hfs&Hout).
  exists (f :: fs). split; [by constructor|]. rewrite Hout. simpl. by rewrite <-app_assoc.
Qed.

Lemma byte_run_encoded `{ToJson A} (vs : list A) frames :
  Forall2 (λ v f, encode_frame v = Ok f) vs frames →
  ∃ ps, Forall2 (λ v p, frame_payload v = Some p) vs ps ∧
    byte_run (In_header []) (concat frames) = (In_header [], Ok ps).
Proof.
  induction 1 as [|v f vs frames (p&Hp&Hlen&->)%encode_frame_ok _ (ps&Hps&Hrun)].
  - by exists [].
  - exists (p :: ps). split; [by constructor|]. cbn [concat].
    by rewrite byte_run_frame, Hrun.
Qed.

(** What serde_json documents: a value parses back from what it was written as. *)
Definition json_round_trip `{ToJson A, FromJson A} : Prop :=
  ∀ (v : A) p, frame_payload v = Some p → from_slice p = Some v.

(** Messages sent over a connection arrive: whatever values one end sends
    without an error, and however the bytes it wrote are cut into non-empty
    reads at the other end, that end's [receive] gives the same values in the
    same order, one per call, and then reports the connection closed. *)
Theorem channel_delivers `{ToJson A, FromJson A} (vs : list A) (sender : JsonChannel) chunks :
  json_round_trip →
  write_error (stream sender) = None → outgoing (stream sender) = [] →
  (send_all vs sender).2 = Ok tt →
  Forall (λ b, b ≠ []) chunks → concat chunks = outgoing (stream (send_all vs sender).1) →
  ∃ c, receive_n (length vs + 1) (channel_new {| incoming := Ok <$> chunks; outgoing := [];
                                                write_error := None |})
       = Some (c, (Ok <$> vs) ++ [Err ConnectionClosed]).
Proof.
  intros Hjson Hw Hout Hsend Hne Hcat.
  destruct (send_all_outgoing vs sender Hw Hsend) as (frames&Hframes&Hbytes).
  rewrite Hout in Hbytes. simpl in Hbytes.
  destruct (byte_run_encoded vs frames Hframes) as (ps&Hps&Hrun).
  set (c0 := channel_new _).
  assert (ahead c0 ps) as Hahead.
  { exists chunks, (In_header []), ps. rewrite Hcat, Hbytes.
    split_and!; [done|done|apply decoder_new_ok|done|done]. }
  clearbody c0. clear -Hjson Hps Hahead. revert c0 Hahead.
  induction Hps as [|v p vs ps Hp _ IH]; intros c Hahead;
    pose proof (channel_receive_ahead (A:=A) _ _ Hahead) as Hr.
  - destruct Hr as [c' Hr]. exists c'. simpl. by rewrite Hr.
  - destruct Hr as (c'&Hahead'&Hr). destruct (IH c' Hahead') as [c'' IHc].
    exists c''. simpl. rewrite Hr. simpl. rewrite IHc. simpl. by rewrite (Hjson v p Hp).
Qed.

(** Texts that are their own encoding, for the example. *)
Definition toy_text_json : ToJson string := λ s, Some s.
Definition toy_text_parse : FromJson string := λ b, Some (string_of_list_ascii b).

Definition sample_sender : JsonChannel :=
  channel_new {| incoming := []; outgoing := []; write_error := None |}.
Definition sample_sent : Bytes :=
  outgoing (stream (@send_all string toy_text_json ["ping"; "x"] sample_sender).1).
Definition sample_reads : list Bytes := [take 2 sample_sent; take 7 (drop 2 sample_sent); drop 9 sample_sent].

Lemma channel_delivers_witness :
  ∃ c, @receive_n string toy_text_parse 3 (channel_new {| incoming := Ok <$> sample_reads;
    outgoing := []; write_error := None |}) = Some (c, [Ok "ping"; Ok "x"; Err ConnectionClosed]).
Proof.
  apply (@channel_delivers string toy_text_json toy_text_parse ["ping"; "x"] sample_sender
    sample_reads).
  - intros v p Hp. apply fmap_Some in Hp as (s&[= <-]&->).
    unfold from_slice, toy_text_parse. by rewrite string_of_list_ascii_of_string.
  - reflexivity.
  - reflexivity.
  - vm_compute. reflexivity.
  - unfold sample_reads. repeat constructor; vm_compute; discriminate.
  - vm_compute. reflexivity.
Defined.
End Channel.
