(* ===== verification/Auth.v ===== *)
(** Authentication of local IPC: the challenges of workflow-ipc/src/auth.rs and
    the credential checks of workflow-ipc/src/secret.rs. *)
From Stdlib Require Import Ascii String.
From S2P Require Import Prelude Text Ids Canonical.
Local Open Scope Z_scope.

(** * Challenges *)

Module Auth.

(** HMAC-SHA-256 of the [hmac] and [sha2] crates: the tag of a message under a
    secret. *)
Class Hmac := hmac_sha256 : word 256 → string → word 256.

Definition AUTH_DOMAIN : string := "opencode-cycle-ipc-auth-v1".
Definition MAX_USED_CHALLENGES : N := 4096.

Record Challenge : Type := { expires_at_unix_millis : Z; nonce : word 256 }.
Record ChallengeResponse : Type := { mac : word 256; response_nonce : word 256 }.

#[export] Instance ChallengeResponse_eq_dec : EqDecision ChallengeResponse.
Proof. solve_decision. Defined.

Inductive AuthError : Type := Expired | Invalid | Replayed | Saturated.

Record Authenticator : Type := { secret : word 256; used : gmap (word 256) Z }.

(** [i64::to_be_bytes]: two's complement. *)
Definition i64_to_be_bytes (n : Z) : string := be_bytes 8 (Z.to_N (n mod 2 ^ 64)).

(** [Authenticator::new]. *)
Definition authenticator_new (secret : word 256) : Authenticator :=
  {| secret := secret; used := ∅ |}.

(** [Authenticator::challenge]. *)
Definition challenge_new (nonce : word 256) (expires_at_unix_millis : Z) : Challenge :=
  {| expires_at_unix_millis := expires_at_unix_millis; nonce := nonce |}.

(** The bytes [update_mac] feeds to the tag. *)
Definition mac_message (c : Challenge) : string :=
  AUTH_DOMAIN +:+ (as_bytes (nonce c) +:+ i64_to_be_bytes (expires_at_unix_millis c)).

Section auth.
Context `{Hmac}.

Definition calculate_mac (secret : word 256) (c : Challenge) : word 256 :=
  hmac_sha256 secret (mac_message c).

(** [Authenticator::respond]. *)
Definition respond (secret : word 256) (c : Challenge) : ChallengeResponse :=
  {| mac := calculate_mac secret c; response_nonce := nonce c |}.

(** [self.used.retain(|_, expiry| *expiry >= now)]. *)
Definition retain_live (now : Z) (used : gmap (word 256) Z) : gmap (word 256) Z :=
  filter (λ p, now ≤ p.2) used.

(** [Authenticator::verify]. *)
Definition verify (c : Challenge) (r : ChallengeResponse) (now : Z)
    : method Authenticator AuthError unit :=
  if expires_at_unix_millis c <? now then m_throw Expired else
  _ ← m_modify (λ a, {| secret := secret a; used := retain_live now (used a) |});
  a ← m_get;
  if bool_decide (is_Some (used a !! nonce c)) then m_throw Replayed
  else if (MAX_USED_CHALLENGES <=? N.of_nat (size (used a)))%N then m_throw Saturated
  else if negb (bool_decide (response_nonce r = nonce c)) then m_throw Invalid
  else if negb (bool_decide (mac r = calculate_mac (secret a) c)) then m_throw Invalid
  else m_modify (λ a, {| secret := secret a;
                         used := <[nonce c := expires_at_unix_millis c]> (used a) |}).

(** Attempts, one after the other. *)
Definition Attempt : Type := Challenge * ChallengeResponse * Z.
Definition attempt_verify (t : Attempt) (a : Authenticator) : Authenticator * result AuthError unit :=
  let '(c, r, now) := t in verify c r now a.
Definition verify_all (ts : list Attempt) (a : Authenticator) : Authenticator :=
  foldl (λ a t, (attempt_verify t a).1) a ts.

(** What a call leaves behind, and when it succeeds. *)
Lemma verify_spec c r now a :
  verify c r now a =
  if expires_at_unix_millis c <? now then (a, Err Expired) else
  let live := retain_live now (used a) in
  let a' := {| secret := secret a; used := live |} in
  if bool_decide (is_Some (live !! nonce c)) then (a', Err Replayed)
  else if (MAX_USED_CHALLENGES <=? N.of_nat (size live))%N then (a', Err Saturated)
  else if bool_decide (r = respond (secret a) c)
  then ({| secret := secret a; used := <[nonce c := expires_at_unix_millis c]> live |}, Ok tt)
  else (a', Err Invalid).
Proof.
  unfold verify. destruct (_ <? now); [done|]. run_method. simpl.
  case_bool_decide; [done|]. destruct (_ <=? _)%N; [done|]. destruct r as [m n]. simpl.
  unfold respond. repeat case_bool_decide; simplify_eq/=; done.
Qed.

Lemma retain_live_lookup now m n e :
  retain_live now m !! n = Some e ↔ m !! n = Some e ∧ now ≤ e.
Proof. unfold retain_live. rewrite map_lookup_filter_Some. done. Qed.

Lemma size_retain_live now m : (size (retain_live now m) ≤ size m)%nat.
Proof. apply map_subseteq_size, map_filter_subseteq. Qed.

(** A used nonce stays used, and is refused, up to its expiry. *)
Lemma attempt_keeps t a n e :
  used a !! n = Some e → t.2 ≤ e →
  used (attempt_verify t a).1 !! n = Some e ∧
  ((attempt_verify t a).2 = Ok tt → nonce t.1.1 ≠ n).
Proof.
  destruct t as [[c r] now]. simpl. intros Hn Hle. rewrite verify_spec.
  destruct (_ <? now); [done|]. simpl.
  assert (retain_live now (used a) !! n = Some e) as Hlive by by apply retain_live_lookup.
  case_bool_decide as Hused; [done|].
  assert (nonce c ≠ n) as Hne by (intros Heq; apply Hused; rewrite Heq; eauto).
  destruct (_ <=? _)%N; [done|]. case_bool_decide; [|done]. simpl.
  split; [by rewrite lookup_insert_ne|done].
Qed.

Lemma attempt_accepted t a :
  (attempt_verify t a).2 = Ok tt →
  used (attempt_verify t a).1 !! nonce t.1.1 = Some (expires_at_unix_millis t.1.1) ∧
  t.2 ≤ expires_at_unix_millis t.1.1.
Proof.
  destruct t as [[c r] now]. simpl. rewrite verify_spec. destruct (_ <? now) eqn:Hnow; [done|].
  to_prop. simpl. repeat (case_bool_decide || destruct (_ <=? _)%N); try done. simpl.
  by rewrite lookup_insert_eq.
Qed.

Lemma verify_all_keeps ts a n e :
  used a !! n = Some e → Forall (λ t : Attempt, t.2 ≤ e) ts →
  used (verify_all ts a) !! n = Some e.
Proof.
  intros Hn Hall. revert a Hn. induction Hall as [|t ts Ht _ IH]; intros a Hn; [done|].
  cbn [verify_all foldl]. apply IH. by apply attempt_keeps.
Qed.

(** C37. No challenge is accepted twice: once [verify] has accepted an attempt
    [s], whatever attempts [mid] follow, a later attempt [t] with the same
    nonce is accepted only if some call since then was made at a time past the
    first challenge's expiry; so with a clock that does not go back the same
    challenge is never accepted again. *)
Theorem challenge_not_replayed a s mid t :
  (attempt_verify s a).2 = Ok tt →
  (attempt_verify t (verify_all mid (attempt_verify s a).1)).2 = Ok tt →
  nonce t.1.1 = nonce s.1.1 →
  Exists (λ u : Attempt, expires_at_unix_millis s.1.1 < u.2) (mid ++ [t]) ∧
  (t.1.1 = s.1.1 → ¬ Forall (λ u : Attempt, u.2 ≤ t.2) mid).
Proof.
  intros Hs Ht Hn. apply attempt_accepted in Hs as [Hused _].
  assert (¬ Forall (λ u : Attempt, u.2 ≤ expires_at_unix_millis s.1.1) (mid ++ [t])) as Hnot.
  { rewrite Forall_app, Forall_singleton. intros [Hmid Hle].
    pose proof (verify_all_keeps mid _ _ _ Hused Hmid) as Hkept.
    by destruct (attempt_keeps t _ _ _ Hkept Hle) as [_ Hne]; apply Hne. }
  split.
  - apply not_Forall_Exists in Hnot; [|apply _]. eapply Exists_impl; [exact Hnot|].
    simpl. intros u. lia.
  - intros Heq Hmid. apply Hnot. apply attempt_accepted in Ht as [_ Hlive]. rewrite Heq in Hlive.
    rewrite Forall_app, Forall_singleton. split; [|lia].
    eapply Forall_impl; [exact Hmid|]. simpl. intros u. lia.
Qed.

(** [verify] accepts exactly the response that the secret's holder gives to
    a live, unused challenge while fewer than 4,096 challenges are remembered;
    it remembers an accepted challenge and no other, and never more than 4,096
    of them. *)
Theorem verify_accepts_exactly c r now a :
  ((verify c r now a).2 = Ok tt ↔
    now ≤ expires_at_unix_millis c ∧ (∀ e, used a !! nonce c = Some e → e < now) ∧
    (N.of_nat (size (retain_live now (used a))) < MAX_USED_CHALLENGES)%N ∧ r = respond (secret a) c) ∧
  (∀ n e, used (verify c r now a).1 !! n = Some e → used a !! n = Some e ∨
    ((verify c r now a).2 = Ok tt ∧ n = nonce c ∧ e = expires_at_unix_millis c)) ∧
  secret (verify c r now a).1 = secret a ∧
  (N.of_nat (size (used a)) ≤ MAX_USED_CHALLENGES →
    N.of_nat (size (used (verify c r now a).1)) ≤ MAX_USED_CHALLENGES)%N.
Proof.
  rewrite verify_spec. pose proof (size_retain_live now (used a)) as Hsize.
  destruct (_ <? now) eqn:Hnow; to_prop; simpl.
  { split_and!; [split; [done|lia]|auto|done|done]. }
  assert (is_Some (retain_live now (used a) !! nonce c) ↔
    ¬ ∀ e, used a !! nonce c = Some e → e < now) as Hused.
  { split.
    - intros [e [He Hle]%retain_live_lookup] Hall. apply Hall in He. lia.
    - intros Hnot. destruct (used a !! nonce c) as [e|] eqn:He.
      + exists e. apply retain_live_lookup. split; [done|]. apply Z.nlt_ge. intros Hlt.
        apply Hnot. by intros ? [= <-].
      + destruct Hnot. done. }
  case_bool_decide as Hreplay; simpl.
  { split_and!; [|by intros n e [? _]%retain_live_lookup; left|done|lia].
    split; [done|]. intros (_&Hall&_). by apply Hused in Hreplay. }
  destruct (_ <=? _)%N eqn:Hfull; simpl.
  { to_prop.
    split_and!; [|by intros n e [? _]%retain_live_lookup; left|done|lia].
    split; [done|]. intros (_&_&Hlt&_). lia. }
  to_prop. case_bool_decide as Hr; simpl.
  - split_and!; [| |done|].
    + split; [|done]. intros _. split_and!; try done. intros e He.
      apply Z.nle_gt. intros Hle. apply Hreplay. exists e. by apply retain_live_lookup.
    + intros n e He. apply lookup_insert_Some in He as [[<- <-]|[_ He]]; [by right|left].
      by apply retain_live_lookup in He as [? _].
    + rewrite map_size_insert. destruct (_ !! nonce c); simpl; lia.
  - split_and!; [|by intros n e [? _]%retain_live_lookup; left|done|lia]. by split; [|intros (_&_&_&?)].
Qed.

(** The tag binds the nonce and the expiry. *)
Lemma mac_message_inj c1 c2 :
  i64_min ≤ expires_at_unix_millis c1 ≤ i64_max → i64_min ≤ expires_at_unix_millis c2 ≤ i64_max →
  mac_message c1 = mac_message c2 → c1 = c2.
Proof.
  unfold i64_min, i64_max. destruct c1 as [e1 n1], c2 as [e2 n2]; simpl. intros H1 H2 Heq.
  unfold mac_message in Heq. simpl in Heq. apply str_app_inv_head in Heq.
  apply str_app_inv in Heq as [->%as_bytes_inj Heq];
    [|unfold as_bytes; by rewrite !length_be_bytes].
  f_equal. unfold i64_to_be_bytes in Heq.
  assert (∀ e, fits 8 (Z.to_N (e mod 2 ^ 64))) as Hfits.
  { intros e. unfold fits. pose proof (Z.mod_pos_bound e (2 ^ 64) eq_refl) as Hb.
    apply N2Z.inj_lt. rewrite Z2N.id by lia. exact (proj2 Hb). }
  apply be_bytes_inj in Heq; [|apply Hfits..].
  apply Z2N.inj in Heq; [|apply Z.mod_pos_bound; lia..].
  assert ((e1 + 2 ^ 63) mod 2 ^ 64 = (e2 + 2 ^ 63) mod 2 ^ 64) as Hmod.
  { by rewrite (Z.add_mod e1), (Z.add_mod e2), Heq. }
  rewrite !Z.mod_small in Hmod by lia. lia.
Qed.
End auth.

(** A tag for the example: the secret and the message, summed up. *)
Definition toy_hmac : Hmac := λ s m, word_of 256 (word_val s + be_value m).
Definition sample_secret : word 256 := word_of 256 77.
Definition sample_challenge : Challenge := challenge_new (word_of 256 5) 1000.
Definition sample_attempt (now : Z) : Attempt :=
  (sample_challenge, @respond toy_hmac sample_secret sample_challenge, now).

(** A clock that went back past the expiry, and was then set back, lets a used
    challenge in again. *)
Lemma challenge_not_replayed_witness :
  Exists (λ u : Attempt, 1000 < u.2)
    ([(challenge_new (word_of 256 6) 5000, @respond toy_hmac sample_secret sample_challenge, 2000)]
     ++ [sample_attempt 900]) ∧
  ¬ Forall (λ u : Attempt, u.2 ≤ 900)
    [(challenge_new (word_of 256 6) 5000, @respond toy_hmac sample_secret sample_challenge, 2000)].
Proof.
  destruct (@challenge_not_replayed toy_hmac (authenticator_new sample_secret) (sample_attempt 500)
    [(challenge_new (word_of 256 6) 5000, @respond toy_hmac sample_secret sample_challenge, 2000)]
    (sample_attempt 900)) as [Hexists Hclock].
  - vm_compute. reflexivity.
  - vm_compute. reflexivity.
  - reflexivity.
  - split; [exact Hexists|]. apply Hclock. reflexivity.
Defined.
End Auth.

(** * Credentials *)

Module Secret.

Inductive SecretError : Type :=
| Entropy | InsecurePermissions | InvalidLength | Io (error : string) | NotRegularFile.

(** [std::fs::Metadata], as far as the checks read it. *)
Record Metadata : Type := { is_file : bool; is_symlink : bool; file_len : N; mode : N }.

(** [IpcSecret::endpoint_id]: the first 32 characters of the digest's text. *)
Definition endpoint_id `{Sha256} (secret : word 256) : string :=
  String.substring 0 32 (digest_to_string (digest_of (as_bytes secret))).

(** [validate_permissions] on Unix. *)
Definition validate_permissions (m : Metadata) : result SecretError unit :=
  if (N.land (mode m) 63 =? 0)%N then Ok tt else Err InsecurePermissions.

(** [validate_metadata], on what [symlink_metadata] gives. *)
Definition validate_metadata (metadata : result SecretError Metadata) : result SecretError unit :=
  m ← metadata;
  if negb (is_file m) || is_symlink m then Err NotRegularFile
  else if negb (file_len m =? 32)%N then Err InvalidLength
  else validate_permissions m.

(** [temporary_path]: the name beside the credential. *)
Definition temporary_name (name endpoint_id : string) : string :=
  "." +:+ name +:+ "." +:+ String.substring 0 16 endpoint_id +:+ ".new".

(** A credential file is accepted only when no one but its owner may use it. *)
Lemma validate_metadata_ok m :
  validate_metadata (Ok m) = Ok tt ↔
  is_file m = true ∧ is_symlink m = false ∧ file_len m = 32%N ∧
  ∀ bit, (bit < 6)%N → N.testbit (mode m) bit = false.
Proof.
  unfold validate_metadata, validate_permissions. simpl.
  assert (N.land (mode m) 63 = 0%N ↔ ∀ bit, (bit < 6)%N → N.testbit (mode m) bit = false) as Hland.
  { change 63%N with (N.ones 6). rewrite N.land_ones. split.
    - intros Hmod bit Hbit. rewrite <-(N.mod_pow2_bits_low _ 6) by done.
      by rewrite Hmod, N.bits_0.
    - intros Hbits. apply N.bits_inj. intros bit. rewrite N.bits_0.
      destruct (N.lt_ge_cases bit 6) as [Hlt|Hge].
      + rewrite N.mod_pow2_bits_low by done. by apply Hbits.
      + by rewrite N.mod_pow2_bits_high. }
  rewrite <-Hland. destruct (is_file m), (is_symlink m); simpl; try naive_solver.
  destruct (file_len m =? 32)%N eqn:Hlen; simpl; to_prop; [|naive_solver].
  destruct (N.land (mode m) 63 =? 0)%N eqn:Hmode; to_prop; naive_solver.
Qed.
End Secret.
