(* ===== verification/Scheduler.v ===== *)
(** The daemon's schedulers: the capacity limiter of workflowd/src/scheduler/classes.rs,
    the fair queue of scheduler/queue.rs and the resource policy of
    resources/policy.rs. The limiter and the queue are public modules that no
    other code of the repository but its tests uses yet. *)
From S2P Require Import Prelude Ids.

(** * Capacity *)

Module Capacity.
Local Open Scope N_scope.

Inductive WorkClass : Type :=
| RemoteModel (provider : string) | LocalModel | Build | Browser | Database | Indexing.

#[export] Instance WorkClass_eq_dec : EqDecision WorkClass.
Proof. solve_decision. Defined.

Definition class_code (c : WorkClass) : string + nat :=
  match c with
  | RemoteModel provider => inl provider
  | LocalModel => inr 0%nat | Build => inr 1%nat | Browser => inr 2%nat
  | Database => inr 3%nat | Indexing => inr 4%nat
  end.
Definition class_of_code (c : string + nat) : WorkClass :=
  match c with
  | inl provider => RemoteModel provider
  | inr 0%nat => LocalModel | inr 1%nat => Build | inr 2%nat => Browser
  | inr 3%nat => Database | inr _ => Indexing
  end.
#[export] Instance WorkClass_countable : Countable WorkClass.
Proof. refine (inj_countable' class_code class_of_code _). by intros []. Defined.

Inductive CapacityDecision : Type := CapacityAdmitted | AtCapacity | ProviderBackoff | Unconfigured.

Record CapacityLimiter : Type := {
  active : gmap WorkClass N;
  backoff_until : gmap string Z;
  limits : gmap WorkClass N;
}.

(** [CapacityLimiter::new]. *)
Definition limiter_new (limits : gmap WorkClass N) : CapacityLimiter :=
  {| active := ∅; backoff_until := ∅; limits := limits |}.

Definition with_active (l : CapacityLimiter) (active : gmap WorkClass N) : CapacityLimiter :=
  {| active := active; backoff_until := backoff_until l; limits := limits l |}.

(** The provider's backoff is in force. *)
Definition backing_off (l : CapacityLimiter) (class : WorkClass) (now : Z) : bool :=
  match class with
  | RemoteModel provider =>
      match backoff_until l !! provider with Some until => (now <? until)%Z | None => false end
  | _ => false
  end.

(** [CapacityLimiter::try_admit]. *)
Definition try_admit (class : WorkClass) (now_unix_millis : Z) (l : CapacityLimiter)
    : CapacityLimiter * CapacityDecision :=
  if backing_off l class now_unix_millis then (l, ProviderBackoff) else
  match limits l !! class with
  | None => (l, Unconfigured)
  | Some limit =>
      let count := default 0 (active l !! class) in
      if limit <=? count then (with_active l (<[class := count]> (active l)), AtCapacity)
      else (with_active l (<[class := count + 1]> (active l)), CapacityAdmitted)
  end.

(** [CapacityLimiter::release]. *)
Definition release_class (class : WorkClass) (l : CapacityLimiter) : CapacityLimiter * bool :=
  match active l !! class with
  | None => (l, false)
  | Some count =>
      if count =? 0 then (l, false)
      else (with_active l (<[class := count - 1]> (active l)), true)
  end.

(** [CapacityLimiter::backoff_provider]. *)
Definition backoff_provider (provider : string) (until : Z) (l : CapacityLimiter)
    : CapacityLimiter :=
  {| active := active l; backoff_until := <[provider := until]> (backoff_until l);
     limits := limits l |}.

(** * Runs of the limiter *)

Inductive Call : Type :=
| Admit (class : WorkClass) (now : Z)
| Release (class : WorkClass)
| Backoff (provider : string) (until : Z).

(** One call, and how it changes the work that is running: a unit admitted, a
    unit released, or nothing. *)
Definition call (c : Call) (l : CapacityLimiter) : CapacityLimiter * option (WorkClass * Z) :=
  match c with
  | Admit class now =>
      let '(l, decision) := try_admit class now l in
      (l, match decision with CapacityAdmitted => Some (class, 1%Z) | _ => None end)
  | Release class =>
      let '(l, released) := release_class class l in
      (l, if released then Some (class, (-1)%Z) else None)
  | Backoff provider until => (backoff_provider provider until l, None)
  end.

Fixpoint calls (cs : list Call) (l : CapacityLimiter)
    : CapacityLimiter * list (option (WorkClass * Z)) :=
  match cs with
  | [] => (l, [])
  | c :: cs => let '(l, change) := call c l in let '(l, changes) := calls cs l in (l, change :: changes)
  end.

(** The units of a class that a run leaves running. *)
Fixpoint running (class : WorkClass) (changes : list (option (WorkClass * Z))) : Z :=
  match changes with
  | [] => 0
  | Some (c, n) :: changes => (if decide (c = class) then n else 0) + running class changes
  | None :: changes => running class changes
  end.

Definition count (l : CapacityLimiter) (class : WorkClass) : N := default 0 (active l !! class).

Definition within_limits (l : CapacityLimiter) : Prop :=
  ∀ class, count l class ≤ default 0 (limits l !! class).

Lemma call_step c l l' change :
  call c l = (l', change) → within_limits l →
  within_limits l' ∧ limits l' = limits l ∧
  ∀ class, Z.of_N (count l' class) = (Z.of_N (count l class) + running class [change])%Z.
Proof.
  intros Hcall Hok.
  assert (∀ class n, n ≤ default 0 (limits l !! class) →
    within_limits (with_active l (<[class := n]> (active l)))) as Hset.
  { intros class n Hn d. unfold count. simpl. destruct (decide (class = d)) as [->|Hne].
    - by rewrite lookup_insert_eq.
    - rewrite lookup_insert_ne by done. apply Hok. }
  assert (∀ class n d, count (with_active l (<[class := n]> (active l))) d
    = if decide (class = d) then n else count l d) as Hcount.
  { intros class n d. unfold count. simpl. case_decide as Hd; [subst; by rewrite lookup_insert_eq|].
    by rewrite lookup_insert_ne. }
  destruct c as [class now|class|provider until]; simpl in Hcall.
  - unfold try_admit in Hcall. destruct (backing_off l class now).
    { injection Hcall as <- <-. split_and!; [done..|]. simpl. lia. }
    destruct (limits l !! class) as [limit|] eqn:Hlimit.
    2: { injection Hcall as <- <-. split_and!; [done..|]. simpl. lia. }
    fold (count l class) in Hcall. pose proof (Hok class) as Hc. rewrite Hlimit in Hc. simpl in Hc.
    destruct (limit <=? count l class) eqn:Hfull; injection Hcall as <- <-; to_prop.
    + split_and!; [apply Hset; by rewrite Hlimit|done|]. intros d. rewrite Hcount. simpl.
      case_decide; subst; lia.
    + split_and!; [apply Hset; rewrite Hlimit; simpl; lia|done|]. intros d. rewrite Hcount. simpl.
      case_decide; subst; lia.
  - unfold release_class in Hcall. pose proof (Hok class) as Hc.
    destruct (active l !! class) as [n|] eqn:Hn.
    2: { injection Hcall as <- <-. split_and!; [done..|]. simpl. lia. }
    assert (count l class = n) as Hcn by (unfold count; by rewrite Hn).
    destruct (n =? 0) eqn:Hz; injection Hcall as <- <-; to_prop.
    { split_and!; [done..|]. simpl. lia. }
    split_and!; [apply Hset; lia|done|]. intros d. rewrite Hcount. simpl.
    case_decide; subst; lia.
  - injection Hcall as <- <-. split_and!; [done..|]. intros class. unfold count. simpl. lia.
Qed.

(** C38. The capacity limiter never runs more work than it was configured for,
    and loses count of none: after any sequence of [try_admit], [release] and
    [backoff_provider] calls on a new limiter, the units of each class that
    were admitted and not released are the limiter's count for the class, and
    they are no more than the class's limit, so none for a class without one. *)
Theorem capacity_never_exceeded limits cs :
  let '(l, changes) := calls cs (limiter_new limits) in
  ∀ class, running class changes = Z.of_N (count l class) ∧
    count l class ≤ default 0 (limits !! class).
Proof.
  assert (∀ l, within_limits l → let '(l', changes) := calls cs l in
    within_limits l' ∧ Capacity.limits l' = Capacity.limits l ∧ ∀ class,
      Z.of_N (count l' class) = (Z.of_N (count l class) + running class changes)%Z) as Hrun.
  { induction cs as [|c cs IH]; intros l Hok; simpl; [split_and!; [done|done|lia]|].
    destruct (call c l) as [l1 change] eqn:Hcall.
    destruct (call_step _ _ _ _ Hcall Hok) as (Hok1&Hl1&Hc1).
    specialize (IH l1 Hok1). destruct (calls cs l1) as [l2 changes].
    destruct IH as (Hok2&Hl2&Hc2). split_and!; [done|congruence|]. intros class.
    rewrite Hc2, Hc1. simpl. destruct change as [[d n]|]; lia. }
  specialize (Hrun (limiter_new limits)). destruct (calls cs (limiter_new limits)) as [l changes].
  destruct Hrun as (Hok&Hl&Hc).
  { intros class. unfold count. simpl. rewrite lookup_empty. simpl. lia. }
  intros class. specialize (Hc class). specialize (Hok class). rewrite Hl in Hok.
  unfold count at 2 in Hc. simpl in Hc. rewrite lookup_empty in Hc. simpl in Hc. split; [lia|done].
Qed.
End Capacity.

(** * The fair queue *)

Module Queue.
Local Open Scope Z_scope.

Inductive SchedulingState : Type := Ready | Paused | Blocked.
#[export] Instance SchedulingState_eq_dec : EqDecision SchedulingState.
Proof. solve_decision. Defined.

Record ScheduledTask : Type := {
  priority : Z;
  project_id : ProjectId;
  task_id : TaskId;
  workflow_id : WorkflowId;
}.

Record Entry : Type := { sequence : N; state : SchedulingState; task : ScheduledTask }.

Record FairQueue : Type := {
  projects : gmap ProjectId (list Entry);
  rotation : list ProjectId;
  next_sequence : N;
  tasks : gset TaskId;
}.

(** [FairQueue::new]. *)
Definition queue_new : FairQueue :=
  {| projects := ∅; rotation := []; next_sequence := 0; tasks := ∅ |}.

(** [FairQueue::enqueue]. *)
Definition enqueue (t : ScheduledTask) (s : SchedulingState) (q : FairQueue) : FairQueue * bool :=
  if bool_decide (task_id t ∈ tasks q) then (q, false) else
  let is_new_project := bool_decide (projects q !! project_id t = None) in
  let entry := {| sequence := next_sequence q; state := s; task := t |} in
  ({| projects := <[project_id t := default [] (projects q !! project_id t) ++ [entry]]> (projects q);
      rotation := rotation q ++ (if is_new_project then [project_id t] else []);
      next_sequence := saturating_add u64_max (next_sequence q) 1;
      tasks := {[task_id t]} ∪ tasks q |}, true).

(** [FairQueue::set_workflow_state]. *)
Definition set_entry_state (w : WorkflowId) (s : SchedulingState) (e : Entry) : Entry :=
  if bool_decide (workflow_id (task e) = w)
  then {| sequence := sequence e; state := s; task := task e |} else e.
Definition set_workflow_state (w : WorkflowId) (s : SchedulingState) (q : FairQueue) : FairQueue :=
  {| projects := fmap (M:=gmap ProjectId) (fmap (M:=list) (set_entry_state w s)) (projects q); rotation := rotation q;
     next_sequence := next_sequence q; tasks := tasks q |}.

Definition entry_ready (e : Entry) : bool := bool_decide (state e = Ready).

(** The key of [a] is above the key of [b]: [(priority, Reverse(sequence))]. *)
Definition key_above (a b : Entry) : bool :=
  (priority (task b) <? priority (task a)) ||
  ((priority (task b) =? priority (task a)) && (sequence a <? sequence b)%N).

(** [max_by_key]: the last of the elements with the greatest key. *)
Definition later_max (best : option (nat * Entry)) (x : nat * Entry) : option (nat * Entry) :=
  match best with
  | None => Some x
  | Some b => if key_above b.2 x.2 then Some b else Some x
  end.
Definition select (entries : list Entry) : option nat :=
  fst <$> foldl later_max None (List.filter (λ x, entry_ready x.2) (imap pair entries)).

(** The loop of [FairQueue::pop]. *)
Fixpoint pop_loop (turns : nat) (q : FairQueue) : FairQueue * option ScheduledTask :=
  match turns with
  | O => (q, None)
  | S turns =>
      match rotation q with
      | [] => (q, None)
      | p :: rest =>
          match projects q !! p with
          | None => ({| projects := projects q; rotation := rest;
                        next_sequence := next_sequence q; tasks := tasks q |}, None)
          | Some entries =>
              match select entries ≫= λ i, (i,.) <$> entries !! i with
              | Some (i, e) =>
                  let left := delete i entries in
                  ({| projects := if bool_decide (left = []) then delete p (projects q)
                                  else <[p := left]> (projects q);
                      rotation := rest ++ (if bool_decide (left = []) then [] else [p]);
                      next_sequence := next_sequence q;
                      tasks := tasks q ∖ {[task_id (task e)]} |}, Some (task e))
              | None => pop_loop turns {| projects := projects q; rotation := rest ++ [p];
                                          next_sequence := next_sequence q; tasks := tasks q |}
              end
          end
      end
  end.

(** [FairQueue::pop], [len] and [is_empty]. *)
Definition pop (q : FairQueue) : FairQueue * option ScheduledTask :=
  pop_loop (length (rotation q)) q.
Definition queue_len (q : FairQueue) : nat := size (tasks q).
Definition queue_is_empty (q : FairQueue) : bool := bool_decide (tasks q = ∅).

(** * Which entry a project offers *)

Lemma key_above_true a b :
  key_above a b = true ↔ priority (task b) < priority (task a) ∨
    (priority (task b) = priority (task a) ∧ (sequence a < sequence b)%N).
Proof.
  unfold key_above.
  by rewrite orb_true_iff, andb_true_iff, Z.ltb_lt, Z.eqb_eq, N.ltb_lt.
Qed.

Lemma key_above_false a b :
  key_above a b = false ↔ priority (task a) < priority (task b) ∨
    (priority (task a) = priority (task b) ∧ (sequence b ≤ sequence a)%N).
Proof. rewrite <-not_true_iff_false, key_above_true. lia. Qed.

Lemma later_max_spec xs best r :
  foldl later_max best xs = Some r →
  (Some r = best ∨ r ∈ xs) ∧ ∀ y, Some y = best ∨ y ∈ xs → key_above y.2 r.2 = false.
Proof.
  revert best. induction xs as [|x xs IH]; intros best; cbn [foldl].
  - intros ->. split; [by left|].
    intros y [[= ->]|Hy]; [apply key_above_false; lia|by apply elem_of_nil in Hy].
  - intros [Hr Hall]%IH. setoid_rewrite elem_of_cons.
    assert (key_above x.2 r.2 = false) as Hx.
    { destruct best as [b|]; simpl in *; [|apply Hall; by left].
      destruct (key_above b.2 x.2) eqn:Hbx; [|apply Hall; by left].
      pose proof (Hall b (or_introl eq_refl)) as Hb.
      rewrite key_above_true in Hbx. rewrite key_above_false in *. lia. }
    destruct best as [b|]; simpl in *; [destruct (key_above b.2 x.2) eqn:Hbx|].
    + split; [naive_solver|]. intros y [Hy|[->|Hy]]; auto.
    + split; [naive_solver|]. intros y [[= ->]|[->|Hy]]; auto.
      rewrite key_above_false in *. lia.
    + split; [naive_solver|]. intros y [?|[->|Hy]]; auto. done.
Qed.

Lemma later_max_none xs best : foldl later_max best xs = None → best = None ∧ xs = [].
Proof.
  revert best. induction xs as [|x xs IH]; intros best; cbn [foldl]; [done|].
  intros [Hx _]%IH. unfold later_max in Hx. by repeat case_match.
Qed.

Lemma elem_of_ready_entries entries i e :
  (i, e) ∈ List.filter (λ x, entry_ready x.2) (imap pair entries) ↔
  entries !! i = Some e ∧ state e = Ready.
Proof.
  rewrite list_elem_of_In, filter_In, <-list_elem_of_In, elem_of_lookup_imap. simpl.
  unfold entry_ready. rewrite bool_decide_eq_true. naive_solver.
Qed.

(** The entry a project offers: a ready one, that no ready one is above. *)
Definition offers (entries : list Entry) (i : nat) (e : Entry) : Prop :=
  entries !! i = Some e ∧ state e = Ready ∧
  ∀ e', e' ∈ entries → state e' = Ready → key_above e' e = false.

Lemma select_spec entries :
  match select entries ≫= λ i, (i,.) <$> entries !! i with
  | Some (i, e) => offers entries i e
  | None => Forall (λ e, state e ≠ Ready) entries
  end.
Proof.
  unfold select. destruct (foldl later_max None _) as [[i e]|] eqn:Hsel; simpl.
  - apply later_max_spec in Hsel as [[?|Hin] Hall]; [done|].
    apply elem_of_ready_entries in Hin as [Hi Hready]. rewrite Hi. simpl. split_and!; [done..|].
    intros e' [j Hj]%list_elem_of_lookup Hr. apply (Hall (j, e')). right. by apply elem_of_ready_entries.
  - apply later_max_none in Hsel as [_ Hnil]. apply Forall_forall.
    intros e [i Hi]%list_elem_of_lookup Hready.
    assert ((i, e) ∈ List.filter (λ x, entry_ready x.2) (imap pair entries)) as Hin
      by by apply elem_of_ready_entries.
    rewrite Hnil in Hin. by apply elem_of_nil in Hin.
Qed.

(** * The queue's invariant *)

Record queue_ok (q : FairQueue) : Prop := {
  ok_rotation : NoDup (rotation q);
  ok_projects p : p ∈ rotation q ↔ is_Some (projects q !! p);
  ok_entries p es : projects q !! p = Some es →
    es ≠ [] ∧ Forall (λ e, project_id (task e) = p) es;
  ok_tasks t : t ∈ tasks q ↔ ∃ p es e, projects q !! p = Some es ∧ e ∈ es ∧ task_id (task e) = t;
  ok_unique p1 p2 es1 es2 i1 i2 e1 e2 :
    projects q !! p1 = Some es1 → projects q !! p2 = Some es2 →
    es1 !! i1 = Some e1 → es2 !! i2 = Some e2 → task_id (task e1) = task_id (task e2) →
    p1 = p2 ∧ i1 = i2;
}.

(** What [pop] does to the queue when it takes entry [i] of project [p]. *)
Definition popped (q q' : FairQueue) (t : ScheduledTask) : Prop :=
  ∃ pre p post es i e,
    rotation q = pre ++ p :: post ∧
    (∀ p' es', p' ∈ pre → projects q !! p' = Some es' → Forall (λ e, state e ≠ Ready) es') ∧
    projects q !! p = Some es ∧ offers es i e ∧ t = task e ∧
    q' = {| projects := if bool_decide (delete i es = []) then delete p (projects q)
                        else <[p := delete i es]> (projects q);
            rotation := post ++ pre ++ (if bool_decide (delete i es = []) then [] else [p]);
            next_sequence := next_sequence q;
            tasks := tasks q ∖ {[task_id t]} |}.

Lemma pop_loop_spec q todo seen :
  rotation q = todo ++ seen →
  (∀ p, p ∈ todo → is_Some (projects q !! p)) →
  match pop_loop (length todo) q with
  | (q', None) => (∀ p es, p ∈ todo → projects q !! p = Some es → Forall (λ e, state e ≠ Ready) es)
      ∧ q' = {| projects := projects q; rotation := seen ++ todo;
                next_sequence := next_sequence q; tasks := tasks q |}
  | (q', Some t) => ∃ pre p post es i e, todo = pre ++ p :: post ∧
      (∀ p' es', p' ∈ pre → projects q !! p' = Some es' → Forall (λ e, state e ≠ Ready) es') ∧
      projects q !! p = Some es ∧ offers es i e ∧ t = task e ∧
      q' = {| projects := if bool_decide (delete i es = []) then delete p (projects q)
                          else <[p := delete i es]> (projects q);
              rotation := post ++ seen ++ pre ++
                (if bool_decide (delete i es = []) then [] else [p]);
              next_sequence := next_sequence q;
              tasks := tasks q ∖ {[task_id t]} |}
  end.
Proof.
  revert q seen. induction todo as [|p todo IH]; intros q seen Hrot Hdom; simpl.
  - split; [by intros p es ?%elem_of_nil|]. rewrite app_nil_r. destruct q. simpl in *. by subst.
  - rewrite Hrot. simpl.
    destruct (Hdom p (list_elem_of_here _ _)) as [es Hes]. rewrite Hes.
    pose proof (select_spec es) as Hsel.
    destruct (select es ≫= λ i, (i,.) <$> es !! i) as [[i e]|].
    + exists [], p, todo, es, i, e. split_and!; try done.
      * intros p' es' Hp'. by apply elem_of_nil in Hp'.
      * simpl. by rewrite app_assoc.
    + set (q1 := {| projects := projects q; rotation := (todo ++ seen) ++ [p];
        next_sequence := next_sequence q; tasks := tasks q |}).
      specialize (IH q1 (seen ++ [p])). simpl in IH. rewrite app_assoc in IH.
      specialize (IH eq_refl (λ p' Hp', Hdom p' (list_elem_of_further _ _ _ Hp'))).
      destruct (pop_loop (length todo) q1) as [q' [t|]].
      * destruct IH as (pre&p1&post&es1&i&e&->&Hpre&Hp1&Hoff&->&->).
        exists (p :: pre), p1, post, es1, i, e. split_and!; try done.
        { intros p' es' [->|Hp']%elem_of_cons Hes'; [congruence|by eapply Hpre]. }
        simpl. by rewrite <-!app_assoc.
      * destruct IH as [Hall ->]. split.
        { intros p' es' [->|Hp']%elem_of_cons Hes'; [congruence|by eapply Hall]. }
        simpl. by rewrite <-app_assoc.
Qed.

Lemma pop_spec q :
  queue_ok q →
  match pop q with
  | (q', None) => q' = q ∧ ∀ p es, projects q !! p = Some es → Forall (λ e, state e ≠ Ready) es
  | (q', Some t) => popped q q' t
  end.
Proof.
  intros Hok. pose proof (pop_loop_spec q (rotation q) []) as Hpop. unfold pop.
  rewrite app_nil_r in Hpop. specialize (Hpop eq_refl (λ p, proj1 (ok_projects q Hok p))).
  destruct (pop_loop (length (rotation q)) q) as [q' [t|]]; [exact Hpop|].
  destruct Hpop as [Hall ->]. split; [by destruct q|].
  intros p es Hes. apply (Hall p es); [|done]. apply (ok_projects q Hok). eauto.
Qed.

(** ** Every operation keeps the invariant *)

Lemma queue_new_ok : queue_ok queue_new.
Proof.
  split; simpl.
  - constructor.
  - intros p. rewrite lookup_empty. split; [by intros ?%elem_of_nil|by intros [? ?]].
  - intros p es. by rewrite lookup_empty.
  - intros t. split; [set_solver|]. intros (p&es&e&Hes&_). by rewrite lookup_empty in Hes.
  - intros p1 p2 es1 es2 i1 i2 e1 e2. by rewrite lookup_empty.
Qed.

Lemma set_entry_task w s e : task (set_entry_state w s e) = task e.
Proof. unfold set_entry_state. by case_match. Qed.

Lemma set_workflow_state_ok w s q : queue_ok q → queue_ok (set_workflow_state w s q).
Proof.
  intros [Hrot Hdom Hes Htasks Huniq].
  assert (∀ p es, projects (set_workflow_state w s q) !! p = Some es →
    ∃ es0, projects q !! p = Some es0 ∧ es = set_entry_state w s <$> es0) as Hback.
  { intros p es. simpl. rewrite lookup_fmap. intros (es0&->&->)%fmap_Some. eauto. }
  split; [done| | | |].
  - intros p. simpl. rewrite Hdom, lookup_fmap, fmap_is_Some. done.
  - intros p es (es0&Hp&->)%Hback. destruct (Hes p es0 Hp) as [Hne Hall]. split.
    + by destruct es0.
    + apply Forall_fmap. eapply Forall_impl; [exact Hall|]. intros e. simpl. by rewrite set_entry_task.
  - intros t. change (tasks (set_workflow_state w s q)) with (tasks q). rewrite Htasks. split.
    + intros (p&es&e&Hp&He&<-). exists p, (set_entry_state w s <$> es), (set_entry_state w s e).
      split_and!; [simpl; by rewrite lookup_fmap, Hp|by apply list_elem_of_fmap_2|].
      by rewrite set_entry_task.
    + intros (p&es&e&(es0&Hp&->)%Hback&(e0&->&He0)%list_elem_of_fmap&<-).
      exists p, es0, e0. by rewrite set_entry_task.
  - intros p1 p2 es1 es2 i1 i2 e1 e2 (es1'&H1&->)%Hback (es2'&H2&->)%Hback.
    rewrite !list_lookup_fmap. intros (e1'&He1&->)%fmap_Some (e2'&He2&->)%fmap_Some.
    rewrite !set_entry_task. by apply (Huniq p1 p2 es1' es2').
Qed.

Lemma enqueue_ok t s q q' : queue_ok q → enqueue t s q = (q', true) → queue_ok q'.
Proof.
  intros [Hrot Hdom Hes Htasks Huniq]. unfold enqueue. case_bool_decide as Hin; [done|].
  intros [= <-]. set (p0 := project_id t). set (old := default [] (projects q !! p0)).
  set (new := {| sequence := next_sequence q; state := s; task := t |}).
  assert (∀ p es e i, <[p0:=old ++ [new]]> (projects q) !! p = Some es → es !! i = Some e →
    (∃ es0, projects q !! p = Some es0 ∧ es0 !! i = Some e) ∨
    (p = p0 ∧ i = length old ∧ e = new)) as Hback.
  { intros p es e i [[<- <-]|[Hne Hp]]%lookup_insert_Some Hi; [|left; eauto].
    apply lookup_app_Some in Hi as [Hi|[Hle Hi]].
    - left. unfold old in *. destruct (projects q !! p0) as [es0|]; simpl in *; [eauto|done].
    - right. destruct (i - length old)%nat eqn:Hd; simpl in Hi; [|done].
      injection Hi as <-. split_and!; [done|lia|done]. }
  assert (∀ e, e ∈ old → projects q !! p0 = Some old) as Hold.
  { unfold old. intros e. destruct (projects q !! p0); [done|]. simpl. by intros ?%elem_of_nil. }
  split; simpl.
  - case_bool_decide as Hnew; [|by rewrite app_nil_r].
    apply NoDup_app. split_and!; [done| |by apply NoDup_singleton].
    intros p Hp%Hdom ->%list_elem_of_singleton. rewrite Hnew in Hp. by destruct Hp.
  - intros p. rewrite elem_of_app, Hdom. case_bool_decide as Hnew.
    + rewrite list_elem_of_singleton. destruct (decide (p = p0)) as [->|Hne].
      * rewrite lookup_insert_eq. naive_solver.
      * rewrite lookup_insert_ne by done. naive_solver.
    + rewrite elem_of_nil. destruct (decide (p = p0)) as [->|Hne].
      * rewrite lookup_insert_eq. split; [eauto|]. intros _. left. by apply not_eq_None_Some.
      * rewrite lookup_insert_ne by done. naive_solver.
  - intros p es [[<- <-]|[Hne Hp]]%lookup_insert_Some; [|by apply Hes]. split; [by destruct old|].
    apply Forall_app. split; [|by repeat constructor]. unfold old.
    destruct (projects q !! p0) eqn:Hp; simpl; [by eapply Hes|constructor].
  - intros t'. rewrite elem_of_union, elem_of_singleton, Htasks. split.
    + intros [->|(p&es&e&Hp&He&<-)].
      * exists p0, (old ++ [new]), new. rewrite lookup_insert_eq.
        split_and!; [done|apply elem_of_app; right; by left|done].
      * destruct (decide (p = p0)) as [->|Hne].
        -- exists p0, (old ++ [new]), e. rewrite lookup_insert_eq. split_and!; [done| |done].
           apply elem_of_app. left. unfold old. by rewrite Hp.
        -- exists p, es, e. by rewrite lookup_insert_ne.
    + intros (p&es&e&Hp&[i Hi]%list_elem_of_lookup&<-).
      destruct (Hback _ _ _ _ Hp Hi) as [(es0&Hp0&Hi0)|(_&_&->)]; [right|by left].
      exists p, es0, e. split_and!; [done|by eapply list_elem_of_lookup_2|done].
  - assert (∀ p es i e, projects q !! p = Some es → es !! i = Some e → task_id (task e) ≠ task_id t)
      as Hfresh.
    { intros p es i e Hp Hi Heq. apply Hin. rewrite <-Heq. apply Htasks.
      exists p, es, e. split_and!; [done|by eapply list_elem_of_lookup_2|done]. }
    intros p1 p2 es1 es2 i1 i2 e1 e2 Hp1 Hp2 Hi1 Hi2 Heq.
    destruct (Hback _ _ _ _ Hp1 Hi1) as [(es1'&Hp1'&Hi1')|(->&->&->)],
      (Hback _ _ _ _ Hp2 Hi2) as [(es2'&Hp2'&Hi2')|(->&->&->)].
    + by apply (Huniq p1 p2 es1' es2' i1 i2 e1 e2).
    + by destruct (Hfresh _ _ _ _ Hp1' Hi1').
    + by destruct (Hfresh _ _ _ _ Hp2' Hi2').
    + done.
Qed.

(** The position in the list before entry [i] was removed. *)
Definition before_delete (i j : nat) : nat := if decide (j < i)%nat then j else S j.

Lemma lookup_delete_before {A} (l : list A) i j x :
  delete i l !! j = Some x → l !! before_delete i j = Some x ∧ before_delete i j ≠ i.
Proof.
  unfold before_delete. case_decide.
  - rewrite list_lookup_delete_lt by done. split; [done|lia].
  - rewrite list_lookup_delete_ge by lia. split; [done|lia].
Qed.

Lemma elem_of_delete {A} (l : list A) i y j :
  l !! j = Some y → j ≠ i → y ∈ delete i l.
Proof.
  intros Hj Hne. destruct (decide (j < i)%nat).
  - apply (list_elem_of_lookup_2 _ j). by rewrite list_lookup_delete_lt.
  - apply (list_elem_of_lookup_2 _ (j - 1)). rewrite list_lookup_delete_ge by lia.
    by replace (S (j - 1)) with j by lia.
Qed.

Lemma popped_ok q q' t : queue_ok q → popped q q' t → queue_ok q'.
Proof.
  intros [Hrot Hdom Hes Htasks Huniq] (pre&p&post&es&i&e&Hsplit&_&Hp&(Hi&_)&->&->).
  set (left := delete i es).
  set (projects' := if bool_decide (left = []) then delete p (projects q)
                    else <[p:=left]> (projects q)).
  assert (∀ p' es', projects' !! p' = Some es' → (p' ≠ p ∧ projects q !! p' = Some es') ∨
    (p' = p ∧ es' = left ∧ left ≠ [])) as Hback.
  { intros p' es'. unfold projects'. case_bool_decide.
    - intros [? ?]%lookup_delete_Some. by left.
    - intros [[<- <-]|[? ?]]%lookup_insert_Some; auto. }
  assert (∀ p', p' ≠ p → projects' !! p' = projects q !! p') as Hother.
  { intros p' Hne. unfold projects'.
    case_bool_decide; [by rewrite lookup_delete_ne|by rewrite lookup_insert_ne]. }
  assert (∀ p' es' j e', projects' !! p' = Some es' → es' !! j = Some e' →
    ∃ es0, projects q !! p' = Some es0 ∧
      es0 !! (if decide (p' = p) then before_delete i j else j) = Some e' ∧
      task_id (task e') ≠ task_id (task e)) as Hentry.
  { intros p' es' j e' [[Hne Hp']|(->&->&_)]%Hback Hj.
    - exists es'. rewrite decide_False by done. split_and!; [done..|].
      intros Heq. by destruct (Huniq _ _ _ _ _ _ _ _ Hp' Hp Hj Hi Heq).
    - exists es. rewrite decide_True by done. apply lookup_delete_before in Hj as [Hj Hne].
      split_and!; [done..|]. intros Heq. by destruct (Huniq _ _ _ _ _ _ _ _ Hp Hp Hj Hi Heq). }
  rewrite Hsplit in Hrot. apply NoDup_app in Hrot as (Hpre&Hdisj&[Hppost Hpost]%NoDup_cons).
  assert (∀ x, x ∈ rotation q ↔ x ∈ pre ∨ x = p ∨ x ∈ post) as Hmem.
  { intros x. rewrite Hsplit, elem_of_app, elem_of_cons. done. }
  assert (p ∉ pre) as Hppre by (intros Hx; apply (Hdisj p Hx); by left).
  split; simpl.
  - fold left. apply NoDup_app. split_and!; [done| |].
    + intros x Hx [Hx'|Hx']%elem_of_app; [apply (Hdisj x Hx'); by right|].
      case_bool_decide; [by apply elem_of_nil in Hx'|]. apply list_elem_of_singleton in Hx'.
      by subst.
    + apply NoDup_app. split_and!; [done| |case_bool_decide; [constructor|apply NoDup_singleton]].
      intros x Hx Hx'. case_bool_decide; [by apply elem_of_nil in Hx'|].
      apply list_elem_of_singleton in Hx'. by subst.
  - intros x. fold left. fold projects'. rewrite !elem_of_app.
    destruct (decide (x = p)) as [->|Hne].
    + unfold projects'. case_bool_decide.
      * rewrite lookup_delete_eq, elem_of_nil. split; [tauto|by intros [? ?]].
      * rewrite lookup_insert_eq, list_elem_of_singleton. naive_solver.
    + rewrite (Hother _ Hne), <-Hdom, Hmem. case_bool_decide.
      * rewrite elem_of_nil. naive_solver.
      * rewrite list_elem_of_singleton. naive_solver.
  - intros p' es' [[Hne Hp']|(->&->&Hne)]%Hback; [by apply Hes|]. split; [done|].
    destruct (Hes _ _ Hp) as [_ Hall]. apply Forall_forall.
    intros e' [j [Hj _]%lookup_delete_before]%list_elem_of_lookup.
    eapply (Forall_lookup_1 _ _ _ _ Hall Hj).
  - intros t'. rewrite elem_of_difference, elem_of_singleton, Htasks. fold left. fold projects'. split.
    + intros [(p'&es'&e'&Hp'&[j Hj]%list_elem_of_lookup&<-) Hne].
      destruct (decide (p' = p)) as [->|Hpne].
      * rewrite Hp in Hp'. injection Hp' as <-. exists p, left, e'.
        assert (e' ∈ left) as Hin by (apply (elem_of_delete _ _ _ j); [done|]; congruence).
        split_and!; [|done|done]. unfold projects'.
        rewrite bool_decide_false; [by rewrite lookup_insert_eq|].
        intros Hnil. rewrite Hnil in Hin. by apply elem_of_nil in Hin.
      * exists p', es', e'. rewrite (Hother _ Hpne).
        split_and!; [done|by eapply list_elem_of_lookup_2|done].
    + intros (p'&es'&e'&Hp'&[j Hj]%list_elem_of_lookup&<-).
      destruct (Hentry _ _ _ _ Hp' Hj) as (es0&Hp0&Hj0&Hne). split; [|done].
      exists p', es0, e'. split_and!; [done|by eapply list_elem_of_lookup_2|done].
  - intros p1 p2 es1 es2 i1 i2 e1 e2 Hp1 Hp2 Hi1 Hi2 Heq.
    destruct (Hentry _ _ _ _ Hp1 Hi1) as (es1'&Hp1'&Hi1'&_),
      (Hentry _ _ _ _ Hp2 Hi2) as (es2'&Hp2'&Hi2'&_).
    destruct (Huniq _ _ _ _ _ _ _ _ Hp1' Hp2' Hi1' Hi2' Heq) as [-> Hidx]. split; [done|].
    revert Hidx. unfold before_delete. repeat case_decide; lia.
Qed.

(** The queues the daemon can come to. *)
Inductive reachable : FairQueue → Prop :=
| reach_new : reachable queue_new
| reach_enqueue q t s : reachable q → reachable (enqueue t s q).1
| reach_set q w s : reachable q → reachable (set_workflow_state w s q)
| reach_pop q : reachable q → reachable (pop q).1.

Lemma reachable_ok q : reachable q → queue_ok q.
Proof.
  induction 1 as [|q t s _ IH|q w s _ IH|q _ IH].
  - apply queue_new_ok.
  - destruct (enqueue t s q) as [q' []] eqn:Hq; simpl; [by eapply enqueue_ok|].
    unfold enqueue in Hq. case_bool_decide; [by injection Hq as <-|done].
  - by apply set_workflow_state_ok.
  - pose proof (pop_spec q IH) as Hpop. destruct (pop q) as [q' [t|]]; simpl.
    + by eapply popped_ok.
    + by destruct Hpop as [-> _].
Qed.

(** The tasks that some projects have queued and ready. *)
Definition queued (q : FairQueue) (t : ScheduledTask) (s : SchedulingState) : Prop :=
  ∃ es e, projects q !! project_id t = Some es ∧ e ∈ es ∧ task e = t ∧ state e = s.

(** C39. [pop] gives the right task and loses none: for every queue that its
    operations lead to from a new one, it answers nothing exactly when no queued task is ready, and then
    leaves the queue as it was; otherwise it gives a ready task whose priority no
    ready task of its project exceeds, removes that task and no other, and
    keeps every other task in its state. *)
Theorem pop_takes_a_best_ready_task q :
  reachable q →
  match pop q with
  | (q', None) => q' = q ∧ ∀ t, ¬ queued q t Ready
  | (q', Some t) => queued q t Ready ∧
      (∀ t', queued q t' Ready → project_id t' = project_id t → priority t' ≤ priority t) ∧
      (∀ t' s, queued q' t' s ↔ queued q t' s ∧ task_id t' ≠ task_id t)
  end.
Proof.
  intros Hok%reachable_ok. pose proof (pop_spec q Hok) as Hpop.
  destruct (pop q) as [q' [t|]].
  2: { destruct Hpop as [-> Hall]. split; [done|]. intros t (es&e&Hes&He&_&Hs).
       by apply (proj1 (Forall_forall _ _) (Hall _ _ Hes) e He). }
  destruct Hpop as (pre&p&post&es&i&e&_&_&Hes&(Hi&Hready&Hbest)&->&->).
  destruct (ok_entries q Hok p es Hes) as [_ Hproject].
  pose proof (Forall_lookup_1 _ _ _ _ Hproject Hi) as Hpe. simpl in Hpe. split_and!.
  - exists es, e. rewrite Hpe. split_and!; try done. by eapply list_elem_of_lookup_2.
  - intros t' (es'&e'&Hes'&He'&<-&Hs) Heq. rewrite Heq, Hpe, Hes in Hes'.
    injection Hes' as <-. pose proof (Hbest e' He' Hs) as Hk%key_above_false. lia.
  - intros t' s. unfold queued. simpl. split.
    + intros (es'&e'&Hes'&[j Hj]%list_elem_of_lookup&<-&Hs).
      assert (∃ es0 k, projects q !! project_id (task e') = Some es0 ∧ es0 !! k = Some e' ∧
        (project_id (task e') = p → k ≠ i)) as (es0&k&Hes0&Hk&Hne).
      { case_bool_decide.
        - apply lookup_delete_Some in Hes' as [Hne Hes']. exists es', j. split_and!; [done..|].
          intros Hp. by destruct Hne.
        - apply lookup_insert_Some in Hes' as [[Hp <-]|[Hne Hes']].
          + apply lookup_delete_before in Hj as [Hj Hne]. exists es, (before_delete i j).
            by rewrite <-Hp.
          + exists es', j. split_and!; [done..|]. intros Hp. by destruct Hne. }
      split; [exists es0, e'; split_and!; try done; by eapply list_elem_of_lookup_2|].
      intros Heq. destruct (ok_unique q Hok _ _ _ _ _ _ _ _ Hes0 Hes Hk Hi Heq) as [Hp Hki].
      by apply Hne.
    + intros [(es'&e'&Hes'&[j Hj]%list_elem_of_lookup&<-&Hs) Hne].
      destruct (decide (project_id (task e') = p)) as [Hp|Hp].
      * rewrite Hp, Hes in Hes'. injection Hes' as <-.
        assert (e' ∈ delete i es) as Hin by (apply (elem_of_delete _ _ _ j); [done|]; congruence).
        exists (delete i es), e'. split_and!; try done. rewrite Hp.
        rewrite bool_decide_false; [by rewrite lookup_insert_eq|].
        intros Hnil. rewrite Hnil in Hin. by apply elem_of_nil in Hin.
      * exists es', e'. split_and!; try done; [|by eapply list_elem_of_lookup_2].
        by case_bool_decide; [rewrite lookup_delete_ne|rewrite lookup_insert_ne].
Qed.

(** Pops, one after the other, and the tasks they give. *)
Fixpoint pops (n : nat) (q : FairQueue) : FairQueue * list (option ScheduledTask) :=
  match n with
  | O => (q, [])
  | S n => let '(q, t) := pop q in let '(q, ts) := pops n q in (q, t :: ts)
  end.

Lemma served_within n q i p es :
  queue_ok q → (i < n)%nat → rotation q !! i = Some p → projects q !! p = Some es →
  Exists (λ e, state e = Ready) es →
  ∃ k t, (k ≤ i)%nat ∧ (pops (S i) q).2 !! k = Some (Some t) ∧ project_id t = p.
Proof.
  revert q i. induction n as [|n IH]; intros q i Hok Hin Hrot Hes Hready; [lia|].
  pose proof (pop_spec q Hok) as Hpop. cbn [pops].
  destruct (pop q) as [q1 [t|]] eqn:Hq.
  2: { destruct Hpop as [_ Hall]. exfalso. apply Exists_exists in Hready as (e&He&Hr).
       by apply (proj1 (Forall_forall _ _) (Hall p es Hes) e He). }
  assert (queue_ok q1) as Hok1 by by eapply popped_ok.
  destruct Hpop as (pre&p1&post&es1&j&e&Hsplit&Hpre&Hes1&(Hj&Hr1&_)&->&Hq1).
  destruct (ok_entries q Hok p1 es1 Hes1) as [_ Hproject].
  pose proof (Forall_lookup_1 _ _ _ _ Hproject Hj) as Hpe. simpl in Hpe.
  destruct (decide (p = p1)) as [->|Hne].
  { exists 0%nat, (task e). split_and!; [lia| |done]. by destruct (pops i q1). }
  assert (length pre < i)%nat as Hlt.
  { destruct (decide (length pre < i)%nat) as [|Hge]; [done|exfalso].
    rewrite Hsplit in Hrot. destruct (decide (i = length pre)) as [->|].
    - rewrite list_lookup_middle in Hrot by done. congruence.
    - rewrite lookup_app_l in Hrot by lia. apply list_elem_of_lookup_2 in Hrot.
      pose proof (Hpre p es Hrot Hes) as Hnone. apply Exists_exists in Hready as (x&Hx&Hxr).
      by apply (proj1 (Forall_forall _ _) Hnone x Hx). }
  destruct (IH q1 (i - S (length pre))%nat) as (k&t&Hk&Hpops&Ht); try done.
  - lia.
  - rewrite Hq1. simpl. rewrite Hsplit, lookup_app_r in Hrot by lia.
    replace (i - length pre)%nat with (S (i - S (length pre))) in Hrot by lia. simpl in Hrot.
    rewrite lookup_app_l; [done|]. by eapply lookup_lt_Some.
  - rewrite Hq1. simpl.
    by case_bool_decide; [rewrite lookup_delete_ne|rewrite lookup_insert_ne].
  - exists (S k), t. split_and!; [lia| |done].
    assert (∀ a b q, (a ≤ b)%nat → ∀ k x, (pops a q).2 !! k = Some x → (pops b q).2 !! k = Some x)
      as Hmono.
    { clear. intros a. induction a as [|a IH]; intros [|b] q Hle k x; simpl; try done; [lia|].
      destruct (pop q) as [q1 t]. specialize (IH b q1 ltac:(lia)).
      destruct (pops a q1), (pops b q1). destruct k; simpl; [done|apply IH]. }
    apply (Hmono _ i) in Hpops; [|lia]. by destruct (pops i q1).
Qed.

(** No project starves: in every queue the daemon can come to, a project with
    a ready task that stands at position [i] of the rotation is served by one
    of the next [i + 1] pops, however many tasks and whatever priorities the
    projects before it have. *)
Theorem every_project_is_served q i p es :
  reachable q → rotation q !! i = Some p → projects q !! p = Some es →
  Exists (λ e, state e = Ready) es →
  ∃ k t, (k ≤ i)%nat ∧ (pops (S i) q).2 !! k = Some (Some t) ∧ project_id t = p.
Proof. intros Hok%reachable_ok. by apply (served_within (S i)); [|lia]. Qed.

Definition sample_task (priority : Z) (project task : N) : ScheduledTask :=
  {| priority := priority; project_id := word_of 128 project; task_id := word_of 128 task;
     workflow_id := word_of 128 1 |}.
Definition sample_queue : FairQueue :=
  (enqueue (sample_task 1 8 3) Ready (enqueue (sample_task 9 7 2) Ready
    (enqueue (sample_task 9 7 1) Ready queue_new).1).1).1.

Lemma sample_queue_reachable : reachable sample_queue.
Proof. repeat constructor. Qed.

Lemma every_project_is_served_witness :
  ∃ k t, (k ≤ 1)%nat ∧ (pops 2 sample_queue).2 !! k = Some (Some t) ∧
    project_id t = word_of 128 8.
Proof.
  apply (every_project_is_served sample_queue 1 (word_of 128 8)
    [{| sequence := 2; state := Ready; task := sample_task 1 8 3 |}]).
  - exact sample_queue_reachable.
  - vm_compute. reflexivity.
  - vm_compute. reflexivity.
  - left. reflexivity.
Defined.

Lemma pop_takes_a_best_ready_task_witness :
  (pop sample_queue).2 = Some (sample_task 9 7 1) ∧ queued sample_queue (sample_task 9 7 1) Ready.
Proof.
  pose proof (pop_takes_a_best_ready_task sample_queue sample_queue_reachable) as Hpop.
  assert ((pop sample_queue).2 = Some (sample_task 9 7 1)) as Ht by (vm_compute; reflexivity).
  destruct (pop sample_queue) as [q' t]. simpl in Ht. subst t. simpl.
  split; [reflexivity|exact (proj1 Hpop)].
Defined.
End Queue.
