(* ===== verification/Policy.v ===== *)
(** The resource policy of the daemon: workflowd/src/resources/policy.rs. *)
From Stdlib Require Import Floats.SpecFloat.
From S2P Require Import Prelude Ids.

Module Policy.
Local Open Scope N_scope.

(** [f32] values, as IEEE 754 numbers; [a < b] on them, false for a NaN. *)
Definition f32 : Type := spec_float.
Definition f32_lt (a b : f32) : bool := SFltb a b.

Record ResourceSample : Type := {
  available_disk_bytes : option N;
  available_memory_bytes : option N;
  cpu_usage_percent : option f32;
  owned_processes : option N;
}.

Inductive WorkKind : Type :=
| RemoteModel | LocalModel | Build | Browser | Database | Indexing | Verification.
#[export] Instance WorkKind_eq_dec : EqDecision WorkKind.
Proof. solve_decision. Defined.

Record ResourceDemand : Type := { disk_bytes : N; kind : WorkKind; memory_bytes : N }.

Record ResourcePolicy : Type := {
  disk_reserve_bytes : N;
  max_cpu_percent : f32;
  memory_reserve_bytes : N;
  recovery_admissions_per_tick : N;
}.

Inductive AdmissionDecision : Type :=
| Admit | DeferCpu | DeferDisk | DeferIndexing | DeferMemory | DeferMetricsUnavailable
| DeferRecoveryBackpressure.
#[export] Instance AdmissionDecision_eq_dec : EqDecision AdmissionDecision.
Proof. solve_decision. Defined.

Record AdmissionController : Type := {
  admitted_this_tick : N;
  policy : ResourcePolicy;
  pressured_last_tick : bool;
  recovery_tick : bool;
}.

(** [AdmissionController::new]. *)
Definition controller_new (policy : ResourcePolicy) : AdmissionController :=
  {| admitted_this_tick := 0; policy := policy; pressured_last_tick := false;
     recovery_tick := false |}.

(** [AdmissionController::begin_tick]. *)
Definition begin_tick (c : AdmissionController) : AdmissionController :=
  {| admitted_this_tick := 0; policy := policy c; pressured_last_tick := false;
     recovery_tick := pressured_last_tick c |}.

Definition set_pressured (c : AdmissionController) : AdmissionController :=
  {| admitted_this_tick := admitted_this_tick c; policy := policy c;
     pressured_last_tick := true; recovery_tick := recovery_tick c |}.

(** [AdmissionController::evaluate]. *)
Definition evaluate (sample : ResourceSample) (demand : ResourceDemand)
    (verification_waiting : bool) (c : AdmissionController)
    : AdmissionController * AdmissionDecision :=
  if bool_decide (kind demand = Indexing) && verification_waiting then (c, DeferIndexing) else
  match available_memory_bytes sample, available_disk_bytes sample, cpu_usage_percent sample with
  | Some memory, Some disk, Some cpu =>
      if memory <? saturating_add u64_max (memory_reserve_bytes (policy c)) (memory_bytes demand)
      then (set_pressured c, DeferMemory)
      else if disk <? saturating_add u64_max (disk_reserve_bytes (policy c)) (disk_bytes demand)
      then (set_pressured c, DeferDisk)
      else if f32_lt (max_cpu_percent (policy c)) cpu then (set_pressured c, DeferCpu)
      else if recovery_tick c && (recovery_admissions_per_tick (policy c) <=? admitted_this_tick c)
      then (c, DeferRecoveryBackpressure)
      else ({| admitted_this_tick := saturating_add u16_max (admitted_this_tick c) 1;
               policy := policy c; pressured_last_tick := pressured_last_tick c;
               recovery_tick := recovery_tick c |}, Admit)
  | _, _, _ => (c, DeferMetricsUnavailable)
  end.

(** The sample has room for the demand over the policy's reserves. *)
Definition has_room (p : ResourcePolicy) (s : ResourceSample) (d : ResourceDemand) : Prop :=
  ∃ memory disk cpu, available_memory_bytes s = Some memory ∧ available_disk_bytes s = Some disk ∧
    cpu_usage_percent s = Some cpu ∧
    N.min u64_max (memory_reserve_bytes p + memory_bytes d) ≤ memory ∧
    N.min u64_max (disk_reserve_bytes p + disk_bytes d) ≤ disk ∧
    f32_lt (max_cpu_percent p) cpu = false.

Lemma evaluate_admits s d v c :
  (evaluate s d v c).2 = Admit ↔
  has_room (policy c) s d ∧ (kind d = Indexing → v = false) ∧
  (recovery_tick c = true → admitted_this_tick c < recovery_admissions_per_tick (policy c)).
Proof.
  unfold evaluate, has_room, saturating_add.
  case_bool_decide as Hk; [destruct v; simpl|simpl].
  { split; [done|]. intros (_&Hi&_). by specialize (Hi Hk). }
  all: destruct (available_memory_bytes s) as [m|]; [|split; [done|naive_solver]].
  all: destruct (available_disk_bytes s) as [k|]; [|split; [done|naive_solver]].
  all: destruct (cpu_usage_percent s) as [u|]; [|split; [done|naive_solver]].
  all: destruct (m <? _) eqn:Hm; to_prop; [split; [done|]; intros ((?&?&?&[= <-]&[= <-]&[= <-]&?&?&?)&_); lia|].
  all: destruct (k <? _) eqn:Hd; to_prop; [split; [done|]; intros ((?&?&?&[= <-]&[= <-]&[= <-]&?&?&?)&_); lia|].
  all: destruct (f32_lt _ _) eqn:Hc; [split; [done|]; intros ((?&?&?&[= <-]&[= <-]&[= <-]&?&?&?)&_); congruence|].
  all: destruct (recovery_tick c) eqn:Hr; simpl.
  all: try (destruct (_ <=? _) eqn:Ht; to_prop; [split; [done|]; intros (_&_&?); simpl in *; lia|]).
  all: split; [intros _|done]; split_and!; try done; eauto 10.
Qed.

Lemma evaluate_policy s d v c : policy (evaluate s d v c).1 = policy c.
Proof. unfold evaluate. by repeat case_match. Qed.
End Policy.
