(* ===== verification/Admission.v ===== *)
(** Admission of work by the daemon: workflowd/src/admission.rs, in a debug and in
    a release build. *)
From Stdlib Require Import Floats.SpecFloat.
From S2P Require Import Prelude Ids Policy.

Module Admission.
Import Policy.

Inductive AdmissionOperation : Type := Acquire | Release | Renew.
#[export] Instance AdmissionOperation_eq_dec : EqDecision AdmissionOperation.
Proof. solve_decision. Defined.

Definition LEASE_MILLIS : N := 15000.
Definition RETRY_MILLIS : N := 500.

Record AdmissionResult : Type := {
  result_active : nat;
  admitted : bool;
  lease_expires_unix_millis : option N;
  result_maximum_active : nat;
  result_reason : option string;
  retry_after_millis : N;
}.

(** [RuntimeAdmission]; an active lease is the time it expires at. *)
Record RuntimeAdmission : Type := {
  active : gmap WorkflowId N;
  controller : AdmissionController;
  last_tick : N;
  maximum_active : nat;
  projects : gmap ProjectId (list WorkflowId);
  rotation : list ProjectId;
  waiting : gmap WorkflowId N;
  workflow_projects : gmap WorkflowId ProjectId;
}.

Definition with_active (a : gmap WorkflowId N) (s : RuntimeAdmission) : RuntimeAdmission :=
  {| active := a; controller := controller s; last_tick := last_tick s;
     maximum_active := maximum_active s; projects := projects s; rotation := rotation s;
     waiting := waiting s; workflow_projects := workflow_projects s |}.
Definition with_controller (c : AdmissionController) (tick : N) (s : RuntimeAdmission)
    : RuntimeAdmission :=
  {| active := active s; controller := c; last_tick := tick;
     maximum_active := maximum_active s; projects := projects s; rotation := rotation s;
     waiting := waiting s; workflow_projects := workflow_projects s |}.
Definition with_queues (p : gmap ProjectId (list WorkflowId)) (r : list ProjectId)
    (w : gmap WorkflowId N) (wp : gmap WorkflowId ProjectId) (s : RuntimeAdmission)
    : RuntimeAdmission :=
  {| active := active s; controller := controller s; last_tick := last_tick s;
     maximum_active := maximum_active s; projects := p; rotation := r; waiting := w;
     workflow_projects := wp |}.

(** The policy of [RuntimeAdmission::new]: 2 GiB of disk and 1 GiB of memory in
    reserve, 85 percent of CPU, one admission in a tick after pressure. *)
Definition runtime_policy : ResourcePolicy :=
  {| disk_reserve_bytes := 2 * 1024 * 1024 * 1024;
     max_cpu_percent := S754_finite false 11141120 (-17);
     memory_reserve_bytes := 1024 * 1024 * 1024;
     recovery_admissions_per_tick := 1 |}.

(** [RuntimeAdmission::new]. *)
Definition admission_new (maximum_active : nat) : RuntimeAdmission :=
  {| active := ∅; controller := controller_new runtime_policy; last_tick := 0;
     maximum_active := Nat.max maximum_active 1; projects := ∅; rotation := []; waiting := ∅;
     workflow_projects := ∅ |}.

(** [RuntimeAdmission::default] on a machine of so many logical CPUs. *)
Definition admission_default (logical_cpus : nat) : RuntimeAdmission :=
  admission_new (Nat.min (Nat.max ((logical_cpus + 1) / 2) 1) 8).

(** [reason]. *)
Definition reason (d : AdmissionDecision) : string :=
  match d with
  | Admit => "admitted" | DeferCpu => "cpu_pressure" | DeferDisk => "disk_pressure"
  | DeferIndexing => "verification_priority" | DeferMemory => "memory_pressure"
  | DeferMetricsUnavailable => "metrics_unavailable"
  | DeferRecoveryBackpressure => "recovery_backpressure"
  end.

(** [RuntimeAdmission::result]. *)
Definition admission_result (s : RuntimeAdmission) (admitted : bool) (expires : option N)
    (reason : option string) : AdmissionResult :=
  {| result_active := size (active s); admitted := admitted; lease_expires_unix_millis := expires;
     result_maximum_active := maximum_active s; result_reason := reason;
     retry_after_millis := if admitted then 0 else RETRY_MILLIS |}.

(** [RuntimeAdmission::remove]. *)
Definition remove (w : WorkflowId) (s : RuntimeAdmission) : RuntimeAdmission :=
  let s := with_active (delete w (active s)) s in
  match workflow_projects s !! w with
  | None => s
  | Some p =>
      let waiting := delete w (waiting s) in
      let workflow_projects := delete w (workflow_projects s) in
      match projects s !! p with
      | None => with_queues (projects s) (rotation s) waiting workflow_projects s
      | Some queue =>
          let queue := filter (λ q, q ≠ w) queue in
          if decide (queue = [])
          then with_queues (delete p (projects s)) (filter (λ q, q ≠ p) (rotation s))
                 waiting workflow_projects s
          else with_queues (<[p := queue]> (projects s)) (rotation s) waiting workflow_projects s
      end
  end.

(** The loops of [repair_queue_invariants]: the queues are cut down to what is
    still waiting, then the other fields to what is still queued. *)
Definition still_queued (s : RuntimeAdmission) (p : ProjectId) (queue : list WorkflowId)
    : list WorkflowId :=
  filter (λ w, is_Some (waiting s !! w) ∧ workflow_projects s !! w = Some p) queue.
Definition repair_projects (s : RuntimeAdmission) : gmap ProjectId (list WorkflowId) :=
  filter (λ q, q.2 ≠ []) (map_imap (λ p queue, Some (still_queued s p queue)) (projects s)).
Definition collect_map {K V} `{Countable K} (l : list (K * V)) : gmap K V :=
  foldl (λ m p, <[p.1 := p.2]> m) ∅ l.
Definition queued_of (projects : gmap ProjectId (list WorkflowId)) : gmap WorkflowId ProjectId :=
  collect_map (concat ((λ p : ProjectId * list WorkflowId, (λ w, (w, p.1)) <$> p.2)
                         <$> btree_iter projects)).
Fixpoint retain_fresh (keep : gmap ProjectId (list WorkflowId)) (seen : gset ProjectId)
    (rotation : list ProjectId) : list ProjectId * gset ProjectId :=
  match rotation with
  | [] => ([], seen)
  | p :: rotation =>
      if bool_decide (is_Some (keep !! p)) && bool_decide (p ∉ seen)
      then let '(kept, seen) := retain_fresh keep ({[p]} ∪ seen) rotation in (p :: kept, seen)
      else retain_fresh keep seen rotation
  end.
Definition push_missing (seen : gset ProjectId) (keys rotation : list ProjectId)
    : list ProjectId * gset ProjectId :=
  foldl (λ acc p, if bool_decide (p ∈ acc.2) then acc else (acc.1 ++ [p], {[p]} ∪ acc.2))
    (rotation, seen) keys.

(** [RuntimeAdmission::repair_queue_invariants]. *)
Definition repair_queue_invariants (s : RuntimeAdmission) : RuntimeAdmission :=
  let projects := repair_projects s in
  let queued := queued_of projects in
  let waiting := filter (λ w, is_Some (queued !! w.1)) (waiting s) in
  let workflow_projects := filter (λ w, queued !! w.1 = Some w.2) (workflow_projects s) in
  let '(kept, seen) := retain_fresh projects ∅ (rotation s) in
  let '(rotation, _) := push_missing seen (btree_keys projects) kept in
  with_queues projects rotation waiting workflow_projects s.

(** [RuntimeAdmission::reap]. *)
Definition abandoned (now : N) (s : RuntimeAdmission) : list WorkflowId :=
  (filter (λ w, (w.2 ≤ now)%N) (btree_iter (waiting s))).*1.
Definition reap (now : N) (s : RuntimeAdmission) : RuntimeAdmission :=
  let s := with_active (filter (λ l, (now < l.2)%N) (active s)) s in
  repair_queue_invariants (foldl (λ s w, remove w s) s (abandoned now s)).

(** [RuntimeAdmission::enqueue]. *)
Definition enqueue (p : ProjectId) (w : WorkflowId) (now : N) (s : RuntimeAdmission)
    : RuntimeAdmission :=
  let expires_at := saturating_add u64_max now LEASE_MILLIS in
  if decide (is_Some (waiting s !! w))
  then with_queues (projects s) (rotation s) (<[w := expires_at]> (waiting s))
         (workflow_projects s) s
  else
    let new_project := decide (projects s !! p = None) in
    with_queues (<[p := default [] (projects s !! p) ++ [w]]> (projects s))
      (rotation s ++ (if new_project then [p] else []))
      (<[w := expires_at]> (waiting s)) (<[w := p]> (workflow_projects s)) s.

Section build.
(** Whether [debug_assert_eq!] runs, the [pop_front] inside it included. *)
Context (debug_assertions : bool).

(** [RuntimeAdmission::dequeue_front]; [None] is a panic. *)
Definition dequeue_front (p : ProjectId) (w : WorkflowId) (s : RuntimeAdmission)
    : option RuntimeAdmission :=
  queue ← projects s !! p;
  queue ← (if debug_assertions
           then if decide (head queue = Some w) then Some (tail queue) else None
           else Some queue);
  let waiting := delete w (waiting s) in
  let workflow_projects := delete w (workflow_projects s) in
  let rotation := tail (rotation s) in
  Some (if decide (queue = [])
        then with_queues (delete p (projects s)) rotation waiting workflow_projects s
        else with_queues (<[p := queue]> (projects s)) (rotation ++ [p]) waiting
               workflow_projects s).

(** What a workflow is taken to need. *)
Definition workflow_demand : ResourceDemand :=
  {| disk_bytes := 512 * 1024 * 1024; kind := RemoteModel; memory_bytes := 512 * 1024 * 1024 |}.

(** The controller at [now]: a tick begins after a second. *)
Definition tick (now : N) (s : RuntimeAdmission) : RuntimeAdmission :=
  if (1000 <=? now - last_tick s)%N then with_controller (begin_tick (controller s)) now s else s.

(** [RuntimeAdmission::execute], after the queues were reaped. *)
Definition admit_waiting (p : ProjectId) (w : WorkflowId) (sample : ResourceSample) (now : N)
    (s : RuntimeAdmission) : option (RuntimeAdmission * AdmissionResult) :=
  let s := enqueue p w now s in
  if (maximum_active s <=? size (active s))%nat
  then Some (s, admission_result s false None (Some "concurrency_limit"))
  else if bool_decide (head (rotation s) = Some p) &&
          bool_decide (projects s !! p ≫= head = Some w)
  then
    let s := tick now s in
    let '(c, decision) := evaluate sample workflow_demand false (controller s) in
    let s := with_controller c (last_tick s) s in
    if decide (decision = Admit)
    then
      s ← dequeue_front p w s;
      let expires_at := saturating_add u64_max now LEASE_MILLIS in
      let s := with_active (<[w := expires_at]> (active s)) s in
      Some (s, admission_result s true (Some expires_at) None)
    else Some (s, admission_result s false None (Some (reason decision)))
  else Some (s, admission_result s false None (Some "fair_queue")).

Definition execute_reaped (operation : AdmissionOperation) (p : ProjectId) (w : WorkflowId)
    (sample : ResourceSample) (now : N) (s : RuntimeAdmission)
    : option (RuntimeAdmission * AdmissionResult) :=
  if decide (operation = Release)
  then let s := remove w s in Some (s, admission_result s false None (Some "released"))
  else match active s !! w with
  | Some _ =>
      let expires_at := saturating_add u64_max now LEASE_MILLIS in
      let s := with_active (<[w := expires_at]> (active s)) s in
      Some (s, admission_result s true (Some expires_at) None)
  | None => admit_waiting p w sample now s
  end.
Definition execute (operation : AdmissionOperation) (p : ProjectId) (w : WorkflowId)
    (sample : ResourceSample) (now : N) (s : RuntimeAdmission)
    : option (RuntimeAdmission * AdmissionResult) :=
  execute_reaped operation p w sample now (reap now s).

(** What the daemon calls: [execute], or [release] on its own. *)
Inductive Event : Type :=
| Execute (operation : AdmissionOperation) (p : ProjectId) (w : WorkflowId)
    (sample : ResourceSample) (now : N)
| ReleaseOnly (w : WorkflowId).

Definition event_step (e : Event) (s : RuntimeAdmission)
    : option (RuntimeAdmission * option AdmissionResult) :=
  match e with
  | Execute operation p w sample now =>
      '(s, r) ← execute operation p w sample now s; Some (s, Some r)
  | ReleaseOnly w => Some (remove w s, None)
  end.

Fixpoint run (es : list Event) (s : RuntimeAdmission)
    : option (RuntimeAdmission * list (option AdmissionResult)) :=
  match es with
  | [] => Some (s, [])
  | e :: es => '(s, r) ← event_step e s; '(s, rs) ← run es s; Some (s, r :: rs)
  end.
End build.

(** * What the operations keep *)

Lemma remove_fields w s :
  active (remove w s) = delete w (active s) ∧ controller (remove w s) = controller s ∧
  last_tick (remove w s) = last_tick s ∧ maximum_active (remove w s) = maximum_active s.
Proof.
  unfold remove. simpl. destruct (workflow_projects s !! w) as [p|]; [|done].
  destruct (projects s !! p); [|done]. by case_decide.
Qed.

Lemma repair_fields s :
  active (repair_queue_invariants s) = active s ∧
  controller (repair_queue_invariants s) = controller s ∧
  last_tick (repair_queue_invariants s) = last_tick s ∧
  maximum_active (repair_queue_invariants s) = maximum_active s.
Proof.
  unfold repair_queue_invariants. destruct (retain_fresh _ _ _) as [kept seen].
  by destruct (push_missing _ _ _).
Qed.

Lemma foldl_remove_fields ws s :
  active (foldl (λ s w, remove w s) s ws) ⊆ active s ∧
  controller (foldl (λ s w, remove w s) s ws) = controller s ∧
  maximum_active (foldl (λ s w, remove w s) s ws) = maximum_active s.
Proof.
  revert s. induction ws as [|w ws IH]; intros s; cbn [foldl]; [done|].
  destruct (IH (remove w s)) as (Ha&Hc&Hm), (remove_fields w s) as (Ha'&Hc'&_&Hm').
  rewrite Hc, Hc', Hm, Hm'. split_and!; [|done..]. etrans; [exact Ha|]. rewrite Ha'.
  apply delete_subseteq.
Qed.

Lemma reap_fields now s :
  active (reap now s) ⊆ filter (λ l, (now < l.2)%N) (active s) ∧
  controller (reap now s) = controller s ∧ maximum_active (reap now s) = maximum_active s.
Proof.
  unfold reap. destruct (repair_fields (foldl (λ s w, remove w s)
    (with_active (filter (λ l, (now < l.2)%N) (active s)) s) (abandoned now
    (with_active (filter (λ l, (now < l.2)%N) (active s)) s)))) as (->&->&_&->).
  destruct (foldl_remove_fields (abandoned now
    (with_active (filter (λ l, (now < l.2)%N) (active s)) s))
    (with_active (filter (λ l, (now < l.2)%N) (active s)) s)) as (Ha&->&->). done.
Qed.

Lemma enqueue_fields p w now s :
  active (enqueue p w now s) = active s ∧ controller (enqueue p w now s) = controller s ∧
  maximum_active (enqueue p w now s) = maximum_active s.
Proof. unfold enqueue. by case_decide. Qed.

Lemma dequeue_fields dbg p w s s' :
  dequeue_front dbg p w s = Some s' →
  active s' = active s ∧ controller s' = controller s ∧ maximum_active s' = maximum_active s.
Proof.
  unfold dequeue_front. intros (q&_&(q'&_&[= <-])%bind_Some)%bind_Some. by case_decide.
Qed.

Lemma dequeue_total dbg p w s q :
  projects s !! p = Some q → head q = Some w → ∃ s', dequeue_front dbg p w s = Some s'.
Proof.
  intros Hq Hw. unfold dequeue_front. rewrite Hq. simpl. destruct dbg; [|simpl; eauto].
  rewrite decide_True by done. simpl. eauto.
Qed.

(** Within its capacity and under its policy. *)
Definition in_capacity (s : RuntimeAdmission) : Prop :=
  (size (active s) ≤ maximum_active s)%nat ∧ policy (controller s) = runtime_policy.

Lemma tick_fields now s :
  active (tick now s) = active s ∧ maximum_active (tick now s) = maximum_active s ∧
  projects (tick now s) = projects s ∧ policy (controller (tick now s)) = policy (controller s).
Proof. unfold tick. by case_match. Qed.

Lemma admit_spec dbg p w sample now s :
  in_capacity s → active s !! w = None →
  ∃ s' r, admit_waiting dbg p w sample now s = Some (s', r) ∧ in_capacity s' ∧
    maximum_active s' = maximum_active s ∧
    (if admitted r
     then has_room runtime_policy sample workflow_demand ∧
       active s' = <[w := saturating_add u64_max now LEASE_MILLIS]> (active s)
     else active s' = active s).
Proof.
  intros [Hsize Hpolicy] Hw. unfold admit_waiting.
  destruct (enqueue_fields p w now s) as (Ha&Hc&Hm). set (s1 := enqueue p w now s) in *.
  destruct (maximum_active s1 <=? size (active s1))%nat eqn:Hfull.
  { eexists _, _. split; [done|]. unfold in_capacity. rewrite Ha, Hc, Hm. done. }
  apply Nat.leb_gt in Hfull. destruct (bool_decide _ && bool_decide _) eqn:Hfront.
  2: { eexists _, _. split; [done|]. unfold in_capacity. rewrite Ha, Hc, Hm. done. }
  apply andb_true_iff in Hfront as [_ Hfront%bool_decide_eq_true].
  apply bind_Some in Hfront as (q&Hq&Hhead).
  destruct (tick_fields now s1) as (Ta&Tm&Tp&Tc). set (s2 := tick now s1) in *.
  pose proof (evaluate_admits sample workflow_demand false (controller s2)) as Hadmits.
  pose proof (evaluate_policy sample workflow_demand false (controller s2)) as Hpol.
  destruct (evaluate sample workflow_demand false (controller s2)) as [c d]. simpl in Hadmits, Hpol.
  case_decide as Hd.
  - destruct (dequeue_total dbg p w (with_controller c (last_tick s2) s2) q) as [s3 Hs3];
      [simpl; by rewrite Tp|done|].
    rewrite Hs3. destruct (dequeue_fields _ _ _ _ _ Hs3) as (Da&Dc&Dm). simpl in Da, Dc, Dm.
    eexists _, _. split; [done|]. unfold in_capacity. simpl. rewrite Da, Dc, Dm, Ta, Tm, Ha, Hm.
    split_and!; [|by rewrite Hpol, Tc, Hc|done| |done].
    + rewrite map_size_insert, Hw. rewrite Ha, Hm in Hfull. lia.
    + rewrite <-Hpolicy, <-Hc, <-Tc. by apply Hadmits.
  - eexists _, _. split; [done|]. unfold in_capacity. simpl. rewrite Hpol, Tc, Hc, Ta, Ha, Tm, Hm.
    done.
Qed.

Lemma execute_reaped_spec dbg op p w sample now s :
  in_capacity s →
  ∃ s' r, execute_reaped dbg op p w sample now s = Some (s', r) ∧ in_capacity s' ∧
    maximum_active s' = maximum_active s ∧
    (if admitted r
     then op ≠ Release ∧ (is_Some (active s !! w) ∨ has_room runtime_policy sample workflow_demand) ∧
       active s' = <[w := saturating_add u64_max now LEASE_MILLIS]> (active s)
     else active s' ⊆ active s).
Proof.
  intros Hok. unfold execute_reaped. case_decide as Hop.
  - destruct (remove_fields w s) as (Ha&Hc&_&Hm). eexists _, _. split; [done|].
    destruct Hok as [Hsize Hpolicy]. unfold in_capacity. simpl. rewrite Ha, Hc, Hm.
    split_and!; [|done..|apply delete_subseteq].
    etrans; [apply map_subseteq_size, delete_subseteq|done].
  - destruct (active s !! w) as [e|] eqn:Hw.
    + eexists _, _. split; [done|]. destruct Hok as [Hsize Hpolicy]. unfold in_capacity. simpl.
      split_and!; [|done..|eauto|done].
      by rewrite map_size_insert, Hw.
    + destruct (admit_spec dbg p w sample now s Hok Hw) as (s'&r&Hadmit&Hok'&Hm&Hr).
      exists s', r. split_and!; [done..|]. destruct (admitted r); [|by rewrite Hr].
      destruct Hr as [Hroom Ha]. split_and!; auto.
Qed.

(** The states of the daemon's admission, in a build. *)
Inductive reachable (dbg : bool) : RuntimeAdmission → Prop :=
| reach_new m : reachable dbg (admission_new m)
| reach_step e s s' r : reachable dbg s → event_step dbg e s = Some (s', r) → reachable dbg s'.

Lemma reap_in_capacity now s : in_capacity s → in_capacity (reap now s).
Proof.
  intros [Hsize Hpolicy]. destruct (reap_fields now s) as (Ha&Hc&Hm). unfold in_capacity.
  rewrite Hc, Hm. split; [|done]. etrans; [|exact Hsize]. apply map_subseteq_size.
  etrans; [exact Ha|]. apply map_filter_subseteq.
Qed.

Lemma reachable_in_capacity dbg s : reachable dbg s → in_capacity s.
Proof.
  induction 1 as [m|e s s' r _ IH Hstep].
  - split; [|done]. simpl. rewrite map_size_empty. lia.
  - destruct e as [op p w sample now|w]; simpl in Hstep.
    + destruct (execute_reaped_spec dbg op p w sample now (reap now s))
        as (s1&r1&Hexec&Hok&_); [by apply reap_in_capacity|].
      unfold execute in Hstep. rewrite Hexec in Hstep. by injection Hstep as <- _.
    + injection Hstep as <- _. destruct (remove_fields w s) as (Ha&Hc&_&Hm), IH as [Hsize Hpolicy].
      unfold in_capacity. rewrite Ha, Hc, Hm. split; [|done].
      etrans; [apply map_subseteq_size, delete_subseteq|done].
Qed.

(** C40. Admission keeps its promises in every state the daemon can come to, in
    either build: [execute] does not panic, never leaves more workflows active
    than the maximum, admits only an [Acquire] or [Renew], and a workflow
    without a live lease only when the sample has room for it over the
    reserves; an admitted workflow has a lease for fifteen seconds from now,
    and every other active lease is one that was active before and has not
    expired. *)
Theorem admission_keeps_limits dbg s op p w sample now :
  reachable dbg s →
  ∃ s' r, execute dbg op p w sample now s = Some (s', r) ∧
    (size (active s') ≤ maximum_active s')%nat ∧ maximum_active s' = maximum_active s ∧
    (admitted r = true → op ≠ Release ∧
      active s' !! w = Some (saturating_add u64_max now LEASE_MILLIS) ∧
      ((∃ e, active s !! w = Some e ∧ (now < e)%N) ∨
        has_room runtime_policy sample workflow_demand)) ∧
    (∀ w' e, active s' !! w' = Some e → (w' = w ∧ admitted r = true) ∨
      (active s !! w' = Some e ∧ (now < e)%N)).
Proof.
  intros Hok%reachable_in_capacity. destruct (reap_fields now s) as (Ha&_&Hm).
  assert (∀ w' e, active (reap now s) !! w' = Some e → active s !! w' = Some e ∧ (now < e)%N)
    as Hlive.
  { intros w' e He. eapply lookup_weaken in He; [|exact Ha].
    by apply map_lookup_filter_Some in He. }
  destruct (execute_reaped_spec dbg op p w sample now (reap now s))
    as (s'&r&Hexec&[Hsize _]&Hm'&Hr); [by apply reap_in_capacity|].
  exists s', r. split_and!; [done|done|by rewrite Hm'| |].
  - intros Hadm. rewrite Hadm in Hr. destruct Hr as (Hop&Hw&->).
    split_and!; [done|by rewrite lookup_insert_eq|]. destruct Hw as [[e He]|]; [left|by right].
    exists e. by apply Hlive.
  - intros w' e He. destruct (admitted r).
    + destruct Hr as (_&_&Hact). rewrite Hact in He.
      apply lookup_insert_Some in He as [[-> _]|[_ He]]; [by left|right; by apply Hlive].
    + right. apply Hlive. by eapply lookup_weaken.
Qed.

(** * The two builds *)

Lemma elem_of_retain_fresh keep seen rot p :
  (p ∈ (retain_fresh keep seen rot).1 ↔ p ∈ rot ∧ is_Some (keep !! p) ∧ p ∉ seen) ∧
  (p ∈ (retain_fresh keep seen rot).2 ↔ p ∈ seen ∨ (p ∈ rot ∧ is_Some (keep !! p))).
Proof.
  revert seen. induction rot as [|q rot IH]; intros seen; simpl.
  { split; [split; [by intros ?%elem_of_nil|by intros [?%elem_of_nil _]]|].
    split; [by left|]. by intros [?|[?%elem_of_nil _]]. }
  setoid_rewrite elem_of_cons.
  destruct (bool_decide (is_Some (keep !! q)) && bool_decide (q ∉ seen)) eqn:Hq.
  - apply andb_true_iff in Hq as [Hk%bool_decide_eq_true Hs%bool_decide_eq_true].
    destruct (IH ({[q]} ∪ seen)) as [IH1 IH2].
    destruct (retain_fresh keep _ rot) as [kept seen']. simpl in *.
    rewrite elem_of_cons, IH1, IH2, elem_of_union, elem_of_singleton.
    destruct (decide (p = q)) as [->|]; [tauto|]. tauto.
  - destruct (IH seen) as [-> ->]. apply andb_false_iff in Hq.
    rewrite !bool_decide_eq_false in Hq.
    destruct (decide (p = q)) as [->|]; [|tauto].
    destruct Hq as [Hq|Hq]; [tauto|]. apply dec_stable in Hq. tauto.
Qed.

Lemma NoDup_retain_fresh keep seen rot : NoDup (retain_fresh keep seen rot).1.
Proof.
  revert seen. induction rot as [|q rot IH]; intros seen; simpl; [constructor|].
  case_match; [|apply IH]. pose proof (elem_of_retain_fresh keep ({[q]} ∪ seen) rot q) as [Hq _].
  specialize (IH ({[q]} ∪ seen)). destruct (retain_fresh keep _ rot) as [kept seen']. simpl in *.
  constructor; [|done]. rewrite Hq. intros (_&_&Hns). apply Hns. apply elem_of_union.
  left. by apply elem_of_singleton.
Qed.

Lemma push_missing_spec keys rot seen :
  NoDup rot → (∀ p, p ∈ rot ↔ p ∈ seen) →
  NoDup (push_missing seen keys rot).1 ∧
  ∀ p, p ∈ (push_missing seen keys rot).1 ↔ p ∈ rot ∨ p ∈ keys.
Proof.
  revert rot seen. induction keys as [|k keys IH]; intros rot seen Hnd Hseen.
  - simpl. split; [done|]. intros p. split; [by left|]. by intros [?|?%elem_of_nil].
  - unfold push_missing. cbn [foldl]. simpl. case_bool_decide as Hk.
    + fold (push_missing seen keys rot). destruct (IH rot seen Hnd Hseen) as [? Hel].
      split; [done|]. intros p. rewrite Hel, elem_of_cons, Hseen. naive_solver.
    + fold (push_missing ({[k]} ∪ seen) keys (rot ++ [k])).
      destruct (IH (rot ++ [k]) ({[k]} ∪ seen)) as [? Hel].
      * apply NoDup_app. split_and!; [done| |apply NoDup_singleton].
        intros x Hx ->%list_elem_of_singleton. by rewrite <-Hseen in Hk.
      * intros p. rewrite elem_of_app, list_elem_of_singleton, Hseen, elem_of_union,
          elem_of_singleton. tauto.
      * split; [done|]. intros p. rewrite Hel, elem_of_app, list_elem_of_singleton, elem_of_cons.
        tauto.
Qed.

(** The rotation holds each project that has a queue, once. *)
Definition rotation_ok (s : RuntimeAdmission) : Prop :=
  NoDup (rotation s) ∧ ∀ p, p ∈ rotation s ↔ is_Some (projects s !! p).

Lemma repair_rotation_ok s : rotation_ok (repair_queue_invariants s).
Proof.
  unfold repair_queue_invariants, rotation_ok. set (m := repair_projects s).
  pose proof (NoDup_retain_fresh m ∅ (rotation s)) as Hnd.
  pose proof (elem_of_retain_fresh m ∅ (rotation s)) as Hel.
  destruct (retain_fresh m ∅ (rotation s)) as [kept seen]. simpl in *.
  destruct (push_missing_spec (btree_keys m) kept seen Hnd) as [Hnd' Hel'].
  { intros p. destruct (Hel p) as [-> ->]. set_solver. }
  destruct (push_missing seen (btree_keys m) kept) as [rot ?]. simpl in *. split; [done|].
  intros p. rewrite Hel', elem_of_btree_keys. destruct (Hel p) as [-> _]. naive_solver.
Qed.

Lemma enqueue_rotation_ok p w now s : rotation_ok s → rotation_ok (enqueue p w now s).
Proof.
  intros [Hnd Hel]. unfold enqueue. case_decide; [done|]. unfold rotation_ok. simpl.
  case_decide as Hp.
  - split.
    + apply NoDup_app. split_and!; [done| |apply NoDup_singleton].
      intros x Hx%Hel ->%list_elem_of_singleton. rewrite Hp in Hx. by destruct Hx.
    + intros x. rewrite elem_of_app, list_elem_of_singleton, Hel, lookup_insert_is_Some'. naive_solver.
  - rewrite app_nil_r. split; [done|]. intros x. rewrite Hel, lookup_insert_is_Some'. split; [by right|].
    intros [<-|?]; [by apply not_eq_None_Some|done].
Qed.

(** [r] is [d] after a release build's [dequeue_front] left [w] at the front of
    the queue of [p], with [qs] behind it: [w] waits for nothing, and [p] stands
    last in the rotation. *)
Record ghost (w : WorkflowId) (p : ProjectId) (r d : RuntimeAdmission) : Prop := {
  ghost_active : active r = active d;
  ghost_controller : controller r = controller d;
  ghost_tick : last_tick r = last_tick d;
  ghost_maximum : maximum_active r = maximum_active d;
  ghost_waiting : waiting r = waiting d;
  ghost_workflows : workflow_projects r = workflow_projects d;
  ghost_absent : waiting d !! w = None ∧ workflow_projects d !! w = None;
  ghost_queues : ∃ m qs rot, p ∉ rot ∧
    projects r = <[p := w :: qs]> m ∧ rotation r = rot ++ [p] ∧
    (if decide (qs = []) then projects d = delete p m ∧ rotation d = rot
     else projects d = <[p := qs]> m ∧ rotation d = rot ++ [p]);
}.

Lemma dequeue_ghost p w s :
  rotation_ok s → head (rotation s) = Some p → projects s !! p ≫= head = Some w →
  ∃ r d, dequeue_front false p w s = Some r ∧ dequeue_front true p w s = Some d ∧ ghost w p r d.
Proof.
  intros [Hnd _] Hrot (queue&Hqueue&Hhead)%bind_Some.
  destruct queue as [|w' qs]; [done|]. injection Hhead as ->.
  destruct (rotation s) as [|p' rot] eqn:Hr; [done|]. injection Hrot as ->.
  apply NoDup_cons in Hnd as [Hp _].
  unfold dequeue_front. rewrite Hqueue. simpl. rewrite decide_True by done. simpl. rewrite Hr.
  eexists _, _. split; [done|]. split; [done|].
  split; [by case_decide..| |].
  - case_decide; simpl; by rewrite !lookup_delete_eq.
  - exists (projects s), qs, rot. split; [done|]. split; [done|]. split; [done|]. by case_decide.
Qed.

Lemma filter_ne_other {A} `{EqDecision A} (x : A) (l : list A) : x ∉ l → filter (λ y, y ≠ x) l = l.
Proof.
  induction l as [|y l IH]; [done|]. rewrite not_elem_of_cons. intros [Hne Hx].
  rewrite filter_cons_True by done. by rewrite IH.
Qed.

Lemma remove_ghost w p r d v : ghost w p r d → ghost w p (remove v r) (remove v d).
Proof.
  intros [Ha Hc Ht Hm Hw Hwp [Hw0 Hwp0] (m&qs&rot&Hrot&Hpr&Hrr&Hd)]. unfold remove.
  simpl. rewrite Hwp. destruct (workflow_projects d !! v) as [p'|] eqn:Hv.
  2: { split; simpl; try done; [by rewrite Ha|]. by exists m, qs, rot. }
  assert (w ≠ v) as Hwv by congruence.
  assert (delete v (waiting d) !! w = None ∧ delete v (workflow_projects d) !! w = None) as Habs.
  { by rewrite !lookup_delete_ne. }
  destruct (decide (p' = p)) as [->|Hne].
  - rewrite Hpr, lookup_insert_eq. simpl. rewrite filter_cons_True by done.
    set (qs' := filter (λ q, q ≠ v) qs). rewrite decide_False by done.
    destruct (decide (qs = [])) as [Hqs|Hqs]; destruct Hd as [Hpd Hrd].
    + rewrite Hpd, lookup_delete_eq. split; simpl; rewrite ?Ha, ?Hw, ?Hwp; try done.
      exists m, qs', rot. rewrite insert_insert_eq. unfold qs'. rewrite Hqs. by split_and!.
    + rewrite Hpd, lookup_insert_eq. simpl. fold qs'.
      destruct (decide (qs' = [])) as [Hqs'|Hqs']; split; simpl; rewrite ?Ha, ?Hw, ?Hwp; try done.
      * exists m, qs', rot. rewrite insert_insert_eq, decide_True by done.
        rewrite delete_insert_eq, Hrd, filter_app, (filter_ne_other p rot), filter_cons_False;
          [|tauto|done].
        rewrite app_nil_r. by split_and!.
      * exists m, qs', rot. rewrite !insert_insert_eq, decide_False by done. by split_and!.
  - assert (projects d !! p' = projects r !! p') as Hsame.
    { rewrite Hpr, lookup_insert_ne by done.
      case_decide; destruct Hd as [-> _]; [by rewrite lookup_delete_ne|by rewrite lookup_insert_ne]. }
    rewrite Hsame. destruct (projects r !! p') as [queue|] eqn:Hq.
    2: { split; simpl; rewrite ?Ha, ?Hw, ?Hwp; try done. by exists m, qs, rot. }
    destruct (decide (filter (λ q, q ≠ v) queue = [])) as [Hempty|Hempty]; split; simpl; rewrite ?Ha, ?Hw, ?Hwp; try done.
    + exists (delete p' m), qs, (filter (λ q, q ≠ p') rot). split_and!.
      * rewrite list_elem_of_filter. tauto.
      * by rewrite Hpr, delete_insert_ne.
      * rewrite Hrr, filter_app, filter_cons_True; [done|congruence].
      * case_decide; destruct Hd as [-> ->]; split.
        -- apply delete_delete.
        -- done.
        -- by rewrite delete_insert_ne.
        -- rewrite filter_app, filter_cons_True; [done|congruence].
    + exists (<[p' := filter (λ q, q ≠ v) queue]> m), qs, rot. split_and!; try done.
      * by rewrite Hpr, insert_insert_ne.
      * case_decide; destruct Hd as [-> ->]; split; try done.
        -- by rewrite delete_insert_ne.
        -- by rewrite insert_insert_ne.
Qed.

Lemma retain_fresh_snoc keep seen rot p :
  keep !! p = None → retain_fresh keep seen (rot ++ [p]) = retain_fresh keep seen rot.
Proof.
  intros Hp. revert seen. induction rot as [|q rot IH]; intros seen; simpl.
  - rewrite Hp. by rewrite bool_decide_false by (by intros [? ?]).
  - by rewrite !IH.
Qed.

(** The repair puts the two builds in one state again. *)
Lemma repair_ghost w p r d :
  ghost w p r d → repair_queue_invariants r = repair_queue_invariants d.
Proof.
  intros [Ha Hc Ht Hm Hw Hwp [Hw0 Hwp0] (m&qs&rot&Hrot&Hpr&Hrr&Hd)].
  assert (∀ q queue, still_queued r q queue = still_queued d q queue) as Hstill.
  { intros q queue. unfold still_queued. by rewrite Hw, Hwp. }
  assert (repair_projects r = repair_projects d) as Hrepair.
  { unfold repair_projects. apply map_eq. intros q.
    apply option_eq. intros queue. rewrite !map_lookup_filter_Some, !map_lookup_imap, Hpr.
    destruct (decide (q = p)) as [->|Hq].
    - rewrite lookup_insert_eq. simpl. rewrite Hstill.
      assert (still_queued d p (w :: qs) = still_queued d p qs) as ->.
      { unfold still_queued. apply filter_cons_False. rewrite Hw0. by intros [[? ?] _]. }
      case_decide as Hqs; destruct Hd as [-> _].
      + rewrite lookup_delete_eq, Hqs. simpl. naive_solver.
      + by rewrite lookup_insert_eq.
    - rewrite lookup_insert_ne by done.
      assert (projects d !! q = m !! q) as ->
        by (case_decide; destruct Hd as [-> _]; [by rewrite lookup_delete_ne|by rewrite lookup_insert_ne]).
      destruct (m !! q); simpl; [by rewrite Hstill|done]. }
  assert (retain_fresh (repair_projects d) ∅ (rotation r) =
    retain_fresh (repair_projects d) ∅ (rotation d)) as Hretain.
  { rewrite Hrr. case_decide as Hqs; destruct Hd as [Hpd ->]; [|done].
    apply retain_fresh_snoc. unfold repair_projects. apply map_lookup_filter_None. left.
    by rewrite map_lookup_imap, Hpd, lookup_delete_eq. }
  unfold repair_queue_invariants. rewrite Hrepair, Hretain, Hw, Hwp.
  clear Hretain. destruct (retain_fresh _ _ _) as [kept seen].
  destruct (push_missing _ _ _) as [rotation' ?]. unfold with_queues. by rewrite Ha, Hc, Ht, Hm.
Qed.

Lemma reap_ghost w p r d now : ghost w p r d → reap now r = reap now d.
Proof.
  intros Hg. unfold reap.
  assert (ghost w p (with_active (filter (λ l, (now < l.2)%N) (active r)) r)
    (with_active (filter (λ l, (now < l.2)%N) (active d)) d)) as Hg1.
  { destruct Hg. split; simpl; try done. by rewrite ghost_active0. }
  revert Hg1. generalize (with_active (filter (λ l, (now < l.2)%N) (active r)) r).
  generalize (with_active (filter (λ l, (now < l.2)%N) (active d)) d). clear. intros d r Hg.
  assert (abandoned now r = abandoned now d) as -> by (unfold abandoned; by rewrite (ghost_waiting _ _ _ _ Hg)).
  eapply repair_ghost. generalize (abandoned now d). intros vs. revert r d Hg.
  induction vs as [|v vs IH]; intros r d Hg; simpl; [exact Hg|]. by apply IH, remove_ghost.
Qed.

(** The states the two builds come to after the same calls. *)
Definition alike (r d : RuntimeAdmission) : Prop := r = d ∨ ∃ w p, ghost w p r d.

Lemma with_active_ghost w p r d a :
  ghost w p r d → ghost w p (with_active a r) (with_active a d).
Proof. intros []. by split. Qed.

Lemma admit_alike p w sample now s :
  rotation_ok s →
  ∃ r d x, admit_waiting false p w sample now s = Some (r, x) ∧ admit_waiting true p w sample now s = Some (d, x) ∧
    alike r d.
Proof.
  intros Hok. unfold admit_waiting.
  pose proof (enqueue_rotation_ok p w now s Hok) as Hok1. set (s1 := enqueue p w now s) in *.
  destruct (_ <=? _)%nat; [eexists _, _, _; split_and!; [done..|by left]|].
  destruct (bool_decide _ && bool_decide _) eqn:Hfront;
    [|eexists _, _, _; split_and!; [done..|by left]].
  apply andb_true_iff in Hfront as [Hrot%bool_decide_eq_true Hhead%bool_decide_eq_true].
  assert (rotation_ok (tick now s1) ∧ rotation (tick now s1) = rotation s1 ∧
    projects (tick now s1) = projects s1) as (Hok2&Hr2&Hp2) by (unfold tick; by case_match).
  destruct (evaluate sample workflow_demand false (controller (tick now s1))) as [c decision].
  case_decide; [|eexists _, _, _; split_and!; [done..|by left]].
  destruct (dequeue_ghost p w (with_controller c (last_tick (tick now s1)) (tick now s1)))
    as (r&d&Hr&Hd&Hg); [exact Hok2|simpl; by rewrite Hr2|simpl; by rewrite Hp2|].
  rewrite Hr, Hd. simpl. eexists _, _, _. split; [done|]. split.
  - unfold admission_result. simpl.
    by rewrite (ghost_active _ _ _ _ Hg), (ghost_maximum _ _ _ _ Hg).
  - right. exists w, p. rewrite (ghost_active _ _ _ _ Hg). by apply with_active_ghost.
Qed.

Lemma event_step_alike e r d :
  alike r d →
  ∃ r' d' x, event_step false e r = Some (r', x) ∧ event_step true e d = Some (d', x) ∧ alike r' d'.
Proof.
  intros Halike. destruct e as [op p w sample now|w]; simpl.
  - assert (reap now r = reap now d) as Hreap
      by (destruct Halike as [->|(v&q&Hg)]; [done|by eapply reap_ghost]).
    unfold execute. rewrite Hreap.
    assert (rotation_ok (reap now d)) as Hok by apply repair_rotation_ok.
    generalize dependent (reap now d). intros s _ Hok. unfold execute_reaped.
    case_decide; [eexists _, _, _; simpl; split_and!; [done..|by left]|].
    destruct (active s !! w); [eexists _, _, _; simpl; split_and!; [done..|by left]|].
    destruct (admit_alike p w sample now s Hok) as (r'&d'&x&Hr&Hd&Hg). rewrite Hr, Hd. simpl. eauto 10.
  - eexists _, _, _. split_and!; [done..|].
    destruct Halike as [->|(v&q&Hg)]; [by left|right; exists v, q; by apply remove_ghost].
Qed.

(** A release build admits as a debug build does: [dequeue_front] takes the
    admitted workflow off its queue inside a [debug_assert_eq!], so only with
    debug assertions, but [reap] repairs the queues before they are looked at
    again: from a new admission of any capacity, whatever the calls of
    [execute] and [release] and their arguments, neither build panics and both
    give the same results. *)
Theorem builds_admit_alike maximum es :
  ∃ r d results, run false es (admission_new maximum) = Some (r, results) ∧
    run true es (admission_new maximum) = Some (d, results).
Proof.
  assert (∀ r d, alike r d → ∃ r' d' results, run false es r = Some (r', results) ∧
    run true es d = Some (d', results)) as Hrun.
  { induction es as [|e es IH]; intros r d Halike; cbn [run]; [eauto|].
    destruct (event_step_alike e r d Halike) as (r1&d1&x&->&->&Halike1). simpl.
    destruct (IH r1 d1 Halike1) as (r2&d2&xs&->&->). simpl. eauto. }
  apply Hrun. by left.
Qed.

(** The queue a release build leaves behind differs from a debug build's. *)
Definition ample : ResourceSample :=
  {| available_disk_bytes := Some (2 ^ 40)%N; available_memory_bytes := Some (2 ^ 36)%N;
     cpu_usage_percent := Some (S754_zero false); owned_processes := None |}.
Definition after_admission (dbg : bool) : option RuntimeAdmission :=
  fst <$> execute dbg Acquire (word_of 128 1) (word_of 128 2) ample 5000 (admission_new 2).

Example builds_differ_inside :
  (λ s, size (projects s)) <$> after_admission false = Some 1%nat ∧
  (λ s, size (projects s)) <$> after_admission true = Some 0%nat.
Proof. split; vm_compute; reflexivity. Qed.

Lemma admission_keeps_limits_witness :
  ∃ s' r, execute false Acquire (word_of 128 1) (word_of 128 2) ample 5000 (admission_new 2)
    = Some (s', r) ∧ admitted r = true ∧ (size (active s') ≤ maximum_active s')%nat.
Proof.
  destruct (admission_keeps_limits false (admission_new 2) Acquire (word_of 128 1) (word_of 128 2)
    ample 5000 (reach_new false 2)) as (s'&r&Hexec&Hsize&_).
  exists s', r. split; [exact Hexec|]. split; [|exact Hsize].
  assert ((λ x, admitted x.2) <$> execute false Acquire (word_of 128 1) (word_of 128 2) ample 5000
    (admission_new 2) = Some true) as H by (vm_compute; reflexivity).
  rewrite Hexec in H. by injection H.
Defined.
End Admission.
