(* ===== verification/Database.v ===== *)
(** The database of workflow-store: the tables its migrations create, the store
    of lib.rs and its transactions.

    A table is a map from its primary key to its other columns; a column that
    holds the text of an identifier, a digest or a role holds the value itself,
    a JSON column holds the text that serde_json wrote. A statement that breaks
    a key, a uniqueness or a foreign-key constraint of the schema is an SQLite
    error; errors of the disk are left out. *)
From Stdlib Require Import Ascii String.
From S2P Require Import Prelude Text Ids Canonical WorkflowMachine TaskMachine Goals Verdicts.
From S2P Require Import Redaction Ledger.

(** [serde_json::to_string] and [serde_json::from_str] at a type. *)
Class Persist (A : Type) := {
  json_encode : A → option string;
  json_decode : string → option A;
}.

(** What serde_json documents of a type that derives both: what is written reads
    back as it was. *)
Definition json_faithful (A : Type) `{Persist A} : Prop :=
  ∀ (a : A) s, json_encode a = Some s → json_decode s = Some a.

(** An encoding of the values of a list, for examples: a value is written as a
    text whose length is its place. *)
Definition table_persist {A} `{EqDecision A} (values : list A) : Persist A := {|
  json_encode a := (λ p, chars_str (replicate p.1 "x"%char)) <$> list_find (λ x, x = a) values;
  json_decode s := values !! String.length s;
|}.

Lemma table_persist_faithful {A} `{EqDecision A} (values : list A) :
  @json_faithful A (table_persist values).
Proof.
  intros a s. simpl. intros Henc. apply fmap_Some in Henc as ([i x]&Hfind&->).
  apply list_find_Some in Hfind as (Hi&->&_). simpl.
  assert (String.length (chars_str (replicate i "x"%char)) = i) as ->; [|done].
  clear. induction i; simpl; congruence.
Qed.

Module Store.
Local Open Scope N_scope.

Definition CURRENT_SCHEMA_VERSION : N := 17.

Inductive StoreMode : Type := ReadWrite | SafeReadOnly (schema_version : N).
#[export] Instance StoreMode_eq_dec : EqDecision StoreMode.
Proof. solve_decision. Defined.

(** [StoreError]; an error of another crate or module keeps its value where the
    caller sees it. [Panicked] stands for a panic, which ends the call too. *)
Inductive StoreError : Type :=
| Io | Sqlite | ReadOnly | ReaderLimit | InvalidBackup | AggregateConflict
| InvalidCandidatePayload | MissingCandidatePayload | DeliveryInProgress | IdempotencyConflict
| InvalidIdempotencyKey | Serialization | Transition (error : Workflow.TransitionError)
| LeaseFailure (error : Lease.LeaseError) | LeaseNotFound | InvalidDigest
| LedgerFailure (error : Ledger.LedgerError) | LedgerCheckpoint | IntegerRange
| RequestDigestMismatch | EvidenceFailure (error : Evidence.EvidenceValidationError)
| ReviewFailure (error : Review.ReviewValidationError) | GoalFailure (error : Goal.GoalError)
| Panicked.

(** * Rows *)

Record WorkflowRow : Type := { workflow_json : string; workflow_updated : string }.
Record TaskRow : Type := { task_workflow : WorkflowId; task_json : string; task_updated : string }.
Inductive AggregateType : Type := WorkflowAggregate | TaskAggregate | GoalAggregate | AmendmentAggregate.
#[export] Instance AggregateType_eq_dec : EqDecision AggregateType.
Proof. solve_decision. Defined.
Record EventRow : Type := {
  event_aggregate : AggregateType; event_aggregate_id : uuid; event_json : string;
  event_created : string;
}.
Record DeduplicationRow : Type := {
  aggregate_type : AggregateType; aggregate_id : uuid; result_json : string;
  result_created : string;
}.
Inductive LeaseStatus : Type := LeaseActive | LeaseUncertain.
#[export] Instance LeaseStatus_eq_dec : EqDecision LeaseStatus.
Proof. solve_decision. Defined.
Record LeaseRow : Type := {
  row_lease_id : LeaseId; lease_json : string; lease_status : LeaseStatus;
  lease_expires : Z; lease_updated : Z;
}.
Record RequestRow : Type := {
  request_project : ProjectId; request_json : string; request_created : string;
}.
Record ArchitectureRow : Type := {
  plan_request_digest : ContentDigest; plan_digest_text : ContentDigest; plan_json : string;
  plan_created : string;
}.
Record ConstraintRow : Type := {
  constraint_digest : ContentDigest; constraint_json : string; constraint_created : string;
}.
Record VerificationPlanRow : Type := {
  verification_workflow : WorkflowId; verification_json : string; verification_created : string;
}.
Record EvidenceRow : Type := {
  evidence_plan : VerificationPlanId; evidence_workflow : WorkflowId;
  evidence_candidate : CandidateId; evidence_mandatory : bool; evidence_json : string;
  evidence_output : string; evidence_created : string;
}.
Record AttemptRow : Type := {
  attempt_json : string; attempt_output : string; attempt_created : string;
}.
Record ReviewRow : Type := { review_json : string; review_finalized : string }.
Record ArbitrationRow : Type := {
  arbitration_workflow : WorkflowId; arbitration_json : string; receipt_digest_text : ContentDigest;
  receipt_json : string; arbitration_finalized : string;
}.
Record CandidateRow : Type := {
  candidate_workflow : WorkflowId; manifest_digest : ContentDigest; manifest_json : string;
  exact_diff_column : string; candidate_created : string; payload_complete : bool;
}.
Record CandidateFileRow : Type := { file_content : string; file_executable : bool }.
Record ReservationRow : Type := {
  reservation_workflow : WorkflowId; reservation_digest : ContentDigest;
  journal_digest : option ContentDigest; reservation_started : string;
}.
Record GoalRow : Type := {
  goal_project : ProjectId; goal_json : string; goal_created : string; goal_updated : string;
}.
Record FocusRow : Type := { focus_goal : GoalId; focus_updated : string }.
Record GoalPlanRow : Type := {
  goal_plan_session : string; goal_plan_content : string; goal_plan_digest : ContentDigest;
  goal_plan_created : string;
}.
Record GoalWorkflowRow : Type := { linked_goal : GoalId; milestone : string; linked_at : string }.
Record LedgerRow : Type := {
  ledger_event_id : EventId; ledger_workflow : option WorkflowId;
  ledger_role : option WorkflowRole; ledger_json : string;
  ledger_previous : option ContentDigest; ledger_hash : ContentDigest; ledger_created : string;
}.
Record CheckpointRow : Type := { checkpoint_json : string; checkpoint_created : string }.

(** * Tables *)

Record WorkflowTables : Type := {
  workflows : gmap WorkflowId WorkflowRow;
  tasks : gmap TaskId TaskRow;
  events : list EventRow;
  command_deduplication : gmap string DeduplicationRow;
  leases : gmap TaskId LeaseRow;
}.

Record PlanTables : Type := {
  workflow_requests : gmap WorkflowId RequestRow;
  workflow_architecture : gmap WorkflowId ArchitectureRow;
  workflow_architecture_versions : gmap (WorkflowId * N) ArchitectureRow;
  workflow_constraints : gmap (WorkflowId * string) ConstraintRow;
  workflow_verification_plans : gmap VerificationPlanId VerificationPlanRow;
  workflow_evidence : gmap EvidenceId EvidenceRow;
  workflow_evidence_attempts : gmap (EvidenceId * N) AttemptRow;
  workflow_reviews : gmap (CandidateId * string) ReviewRow;
  workflow_arbitration : gmap CandidateId ArbitrationRow;
}.

Record CandidateTables : Type := {
  workflow_candidates : gmap CandidateId CandidateRow;
  workflow_candidate_files : gmap (CandidateId * string) CandidateFileRow;
  candidate_delivery_reservations : gmap CandidateId ReservationRow;
}.

Record GoalTables : Type := {
  goals : gmap GoalId GoalRow;
  goal_focus : gmap (ProjectId * string) FocusRow;
  goal_plans : gmap (GoalId * N) GoalPlanRow;
  goal_workflows : gmap WorkflowId GoalWorkflowRow;
}.

Record LedgerTables : Type := {
  ledger_entries : gmap Z LedgerRow;
  ledger_checkpoints : gmap Z CheckpointRow;
}.

Record Database : Type := {
  workflow_tables : WorkflowTables;
  plan_tables : PlanTables;
  candidate_tables : CandidateTables;
  goal_tables : GoalTables;
  ledger_tables : LedgerTables;
}.

(** Assignments to one table. *)
Definition set_workflow_tables (t : WorkflowTables) (d : Database) : Database :=
  {| workflow_tables := t; plan_tables := plan_tables d; candidate_tables := candidate_tables d;
     goal_tables := goal_tables d; ledger_tables := ledger_tables d |}.
Definition set_plan_tables (t : PlanTables) (d : Database) : Database :=
  {| workflow_tables := workflow_tables d; plan_tables := t;
     candidate_tables := candidate_tables d; goal_tables := goal_tables d;
     ledger_tables := ledger_tables d |}.
Definition set_candidate_tables (t : CandidateTables) (d : Database) : Database :=
  {| workflow_tables := workflow_tables d; plan_tables := plan_tables d; candidate_tables := t;
     goal_tables := goal_tables d; ledger_tables := ledger_tables d |}.
Definition set_goal_tables (t : GoalTables) (d : Database) : Database :=
  {| workflow_tables := workflow_tables d; plan_tables := plan_tables d;
     candidate_tables := candidate_tables d; goal_tables := t;
     ledger_tables := ledger_tables d |}.
Definition set_ledger_tables (t : LedgerTables) (d : Database) : Database :=
  {| workflow_tables := workflow_tables d; plan_tables := plan_tables d;
     candidate_tables := candidate_tables d; goal_tables := goal_tables d; ledger_tables := t |}.
Definition set_workflows (rows : gmap WorkflowId WorkflowRow) (d : Database) : Database :=
  let t := workflow_tables d in set_workflow_tables
    {| workflows := rows; tasks := tasks t; events := events t;
       command_deduplication := command_deduplication t; leases := leases t |} d.
Definition set_tasks (rows : gmap TaskId TaskRow) (d : Database) : Database :=
  let t := workflow_tables d in set_workflow_tables
    {| workflows := workflows t; tasks := rows; events := events t;
       command_deduplication := command_deduplication t; leases := leases t |} d.
Definition set_events (rows : list EventRow) (d : Database) : Database :=
  let t := workflow_tables d in set_workflow_tables
    {| workflows := workflows t; tasks := tasks t; events := rows;
       command_deduplication := command_deduplication t; leases := leases t |} d.
Definition set_command_deduplication (rows : gmap string DeduplicationRow) (d : Database) : Database :=
  let t := workflow_tables d in set_workflow_tables
    {| workflows := workflows t; tasks := tasks t; events := events t;
       command_deduplication := rows; leases := leases t |} d.
Definition set_leases (rows : gmap TaskId LeaseRow) (d : Database) : Database :=
  let t := workflow_tables d in set_workflow_tables
    {| workflows := workflows t; tasks := tasks t; events := events t;
       command_deduplication := command_deduplication t; leases := rows |} d.
Definition set_workflow_requests (rows : gmap WorkflowId RequestRow) (d : Database) : Database :=
  let t := plan_tables d in set_plan_tables
    {| workflow_requests := rows; workflow_architecture := workflow_architecture t;
       workflow_architecture_versions := workflow_architecture_versions t;
       workflow_constraints := workflow_constraints t;
       workflow_verification_plans := workflow_verification_plans t;
       workflow_evidence := workflow_evidence t;
       workflow_evidence_attempts := workflow_evidence_attempts t;
       workflow_reviews := workflow_reviews t; workflow_arbitration := workflow_arbitration t |} d.
Definition set_workflow_architecture (rows : gmap WorkflowId ArchitectureRow) (d : Database) : Database :=
  let t := plan_tables d in set_plan_tables
    {| workflow_requests := workflow_requests t; workflow_architecture := rows;
       workflow_architecture_versions := workflow_architecture_versions t;
       workflow_constraints := workflow_constraints t;
       workflow_verification_plans := workflow_verification_plans t;
       workflow_evidence := workflow_evidence t;
       workflow_evidence_attempts := workflow_evidence_attempts t;
       workflow_reviews := workflow_reviews t; workflow_arbitration := workflow_arbitration t |} d.
Definition set_workflow_architecture_versions (rows : gmap (WorkflowId * N) ArchitectureRow) (d : Database) : Database :=
  let t := plan_tables d in set_plan_tables
    {| workflow_requests := workflow_requests t; workflow_architecture := workflow_architecture t;
       workflow_architecture_versions := rows; workflow_constraints := workflow_constraints t;
       workflow_verification_plans := workflow_verification_plans t;
       workflow_evidence := workflow_evidence t;
       workflow_evidence_attempts := workflow_evidence_attempts t;
       workflow_reviews := workflow_reviews t; workflow_arbitration := workflow_arbitration t |} d.
Definition set_workflow_constraints (rows : gmap (WorkflowId * string) ConstraintRow) (d : Database) : Database :=
  let t := plan_tables d in set_plan_tables
    {| workflow_requests := workflow_requests t; workflow_architecture := workflow_architecture t;
       workflow_architecture_versions := workflow_architecture_versions t;
       workflow_constraints := rows; workflow_verification_plans := workflow_verification_plans t;
       workflow_evidence := workflow_evidence t;
       workflow_evidence_attempts := workflow_evidence_attempts t;
       workflow_reviews := workflow_reviews t; workflow_arbitration := workflow_arbitration t |} d.
Definition set_workflow_verification_plans (rows : gmap VerificationPlanId VerificationPlanRow) (d : Database) : Database :=
  let t := plan_tables d in set_plan_tables
    {| workflow_requests := workflow_requests t; workflow_architecture := workflow_architecture t;
       workflow_architecture_versions := workflow_architecture_versions t;
       workflow_constraints := workflow_constraints t; workflow_verification_plans := rows;
       workflow_evidence := workflow_evidence t;
       workflow_evidence_attempts := workflow_evidence_attempts t;
       workflow_reviews := workflow_reviews t; workflow_arbitration := workflow_arbitration t |} d.
Definition set_workflow_evidence (rows : gmap EvidenceId EvidenceRow) (d : Database) : Database :=
  let t := plan_tables d in set_plan_tables
    {| workflow_requests := workflow_requests t; workflow_architecture := workflow_architecture t;
       workflow_architecture_versions := workflow_architecture_versions t;
       workflow_constraints := workflow_constraints t;
       workflow_verification_plans := workflow_verification_plans t; workflow_evidence := rows;
       workflow_evidence_attempts := workflow_evidence_attempts t;
       workflow_reviews := workflow_reviews t; workflow_arbitration := workflow_arbitration t |} d.
Definition set_workflow_evidence_attempts (rows : gmap (EvidenceId * N) AttemptRow) (d : Database) : Database :=
  let t := plan_tables d in set_plan_tables
    {| workflow_requests := workflow_requests t; workflow_architecture := workflow_architecture t;
       workflow_architecture_versions := workflow_architecture_versions t;
       workflow_constraints := workflow_constraints t;
       workflow_verification_plans := workflow_verification_plans t;
       workflow_evidence := workflow_evidence t; workflow_evidence_attempts := rows;
       workflow_reviews := workflow_reviews t; workflow_arbitration := workflow_arbitration t |} d.
Definition set_workflow_reviews (rows : gmap (CandidateId * string) ReviewRow) (d : Database) : Database :=
  let t := plan_tables d in set_plan_tables
    {| workflow_requests := workflow_requests t; workflow_architecture := workflow_architecture t;
       workflow_architecture_versions := workflow_architecture_versions t;
       workflow_constraints := workflow_constraints t;
       workflow_verification_plans := workflow_verification_plans t;
       workflow_evidence := workflow_evidence t;
       workflow_evidence_attempts := workflow_evidence_attempts t; workflow_reviews := rows;
       workflow_arbitration := workflow_arbitration t |} d.
Definition set_workflow_arbitration (rows : gmap CandidateId ArbitrationRow) (d : Database) : Database :=
  let t := plan_tables d in set_plan_tables
    {| workflow_requests := workflow_requests t; workflow_architecture := workflow_architecture t;
       workflow_architecture_versions := workflow_architecture_versions t;
       workflow_constraints := workflow_constraints t;
       workflow_verification_plans := workflow_verification_plans t;
       workflow_evidence := workflow_evidence t;
       workflow_evidence_attempts := workflow_evidence_attempts t;
       workflow_reviews := workflow_reviews t; workflow_arbitration := rows |} d.
Definition set_workflow_candidates (rows : gmap CandidateId CandidateRow) (d : Database) : Database :=
  let t := candidate_tables d in set_candidate_tables
    {| workflow_candidates := rows; workflow_candidate_files := workflow_candidate_files t;
       candidate_delivery_reservations := candidate_delivery_reservations t |} d.
Definition set_workflow_candidate_files (rows : gmap (CandidateId * string) CandidateFileRow) (d : Database) : Database :=
  let t := candidate_tables d in set_candidate_tables
    {| workflow_candidates := workflow_candidates t; workflow_candidate_files := rows;
       candidate_delivery_reservations := candidate_delivery_reservations t |} d.
Definition set_candidate_delivery_reservations (rows : gmap CandidateId ReservationRow) (d : Database) : Database :=
  let t := candidate_tables d in set_candidate_tables
    {| workflow_candidates := workflow_candidates t;
       workflow_candidate_files := workflow_candidate_files t;
       candidate_delivery_reservations := rows |} d.
Definition set_goals (rows : gmap GoalId GoalRow) (d : Database) : Database :=
  let t := goal_tables d in set_goal_tables
    {| goals := rows; goal_focus := goal_focus t; goal_plans := goal_plans t;
       goal_workflows := goal_workflows t |} d.
Definition set_goal_focus (rows : gmap (ProjectId * string) FocusRow) (d : Database) : Database :=
  let t := goal_tables d in set_goal_tables
    {| goals := goals t; goal_focus := rows; goal_plans := goal_plans t;
       goal_workflows := goal_workflows t |} d.
Definition set_goal_plans (rows : gmap (GoalId * N) GoalPlanRow) (d : Database) : Database :=
  let t := goal_tables d in set_goal_tables
    {| goals := goals t; goal_focus := goal_focus t; goal_plans := rows;
       goal_workflows := goal_workflows t |} d.
Definition set_goal_workflows (rows : gmap WorkflowId GoalWorkflowRow) (d : Database) : Database :=
  let t := goal_tables d in set_goal_tables
    {| goals := goals t; goal_focus := goal_focus t; goal_plans := goal_plans t;
       goal_workflows := rows |} d.
Definition set_ledger_entries (rows : gmap Z LedgerRow) (d : Database) : Database :=
  let t := ledger_tables d in set_ledger_tables
    {| ledger_entries := rows; ledger_checkpoints := ledger_checkpoints t |} d.
Definition set_ledger_checkpoints (rows : gmap Z CheckpointRow) (d : Database) : Database :=
  let t := ledger_tables d in set_ledger_tables
    {| ledger_entries := ledger_entries t; ledger_checkpoints := rows |} d.

Definition empty_database : Database :=
  {| workflow_tables := {| workflows := ∅; tasks := ∅; events := []; command_deduplication := ∅;
                           leases := ∅ |};
     plan_tables := {| workflow_requests := ∅; workflow_architecture := ∅;
                       workflow_architecture_versions := ∅; workflow_constraints := ∅;
                       workflow_verification_plans := ∅; workflow_evidence := ∅;
                       workflow_evidence_attempts := ∅; workflow_reviews := ∅;
                       workflow_arbitration := ∅ |};
     candidate_tables := {| workflow_candidates := ∅; workflow_candidate_files := ∅;
                            candidate_delivery_reservations := ∅ |};
     goal_tables := {| goals := ∅; goal_focus := ∅; goal_plans := ∅; goal_workflows := ∅ |};
     ledger_tables := {| ledger_entries := ∅; ledger_checkpoints := ∅ |} |}.

(** * The store *)

Record Store : Type := {
  database : Database;
  mode : StoreMode;
  active_readers : N;
  reader_limit : N;
}.

(** The mode of [Store::open] for a database at a schema version: one written by
    a later version is only read. *)
Definition open_mode (existing_version : N) : StoreMode :=
  if CURRENT_SCHEMA_VERSION <? existing_version then SafeReadOnly existing_version else ReadWrite.

(** [Store::open] on a database that the migrations brought up to date. *)
Definition store_open (existing_version : N) (d : Database) (reader_limit : N) : Store :=
  {| database := d; mode := open_mode existing_version; active_readers := 0;
     reader_limit := reader_limit |}.

Definition with_database (d : Database) (s : Store) : Store :=
  {| database := d; mode := mode s; active_readers := active_readers s;
     reader_limit := reader_limit s |}.
Definition with_readers (n : N) (s : Store) : Store :=
  {| database := database s; mode := mode s; active_readers := n;
     reader_limit := reader_limit s |}.

(** [Store::open_reader], with what opening the connection gives, and the drop
    of a [ReadConnection]. *)
Definition open_reader (opened : bool) : method Store StoreError unit :=
  s ← m_get;
  if reader_limit s <=? active_readers s then m_throw ReaderLimit else
  _ ← m_modify (with_readers (active_readers s + 1));
  if opened then mret tt
  else _ ← m_modify (λ s, with_readers (active_readers s - 1) s); m_throw Sqlite.
Definition drop_reader (s : Store) : Store := with_readers (active_readers s - 1) s.

(** [validate_idempotency_key]. *)
Definition validate_idempotency_key (value : string) : result StoreError unit :=
  reject_if (bool_decide (value = "") || (256 <? str_len value)) InvalidIdempotencyKey.

(** A statement or a sequence of them. *)
Definition Statement (A : Type) : Type := method Database StoreError A.

(** How the body of a transaction leaves it: [commit], or a return that drops
    the transaction and with it what it did. *)
Inductive Closing (A : Type) : Type := Commit (a : A) | Rollback (a : A).
Arguments Commit {A} a.
Arguments Rollback {A} a.
Definition closing {A} (c : Closing A) : A := match c with Commit a | Rollback a => a end.

(** [if self.mode != StoreMode::ReadWrite { return Err(ReadOnly) }]. *)
Definition require_writable : method Store StoreError unit :=
  s ← m_get; m_lift (reject_if (negb (bool_decide (mode s = ReadWrite))) ReadOnly).

(** [self.connection.transaction()], the body and its close. *)
Definition transaction {A} (body : Statement (Closing A)) : method Store StoreError A := λ s,
  match body (database s) with
  | (d, Ok (Commit a)) => (with_database d s, Ok a)
  | (_, Ok (Rollback a)) => (s, Ok a)
  | (_, Err e) => (s, Err e)
  end.

(** A statement outside a transaction commits on its own. *)
Definition autocommit {A} (body : Statement A) : method Store StoreError A := λ s,
  match body (database s) with
  | (d, Ok a) => (with_database d s, Ok a)
  | (_, Err e) => (s, Err e)
  end.

(** A query. *)
Definition select {A} (q : Database → A) : Statement A := d ← m_get; mret (q d).
(** A constraint of the schema. *)
Definition constraint (holds : bool) : Statement unit := m_lift (reject_if (negb holds) Sqlite).
(** A row that [query_row] without [optional] must find. *)
Definition one_row {A} (row : option A) : Statement A := m_lift (ok_or Sqlite row).
Definition encode `{Persist A} (a : A) : Statement string := m_lift (ok_or Serialization (json_encode a)).
Definition decode `{Persist A} (s : string) : result StoreError A := ok_or Serialization (json_decode s).
(** A text or digest whose computation may panic. *)
Definition or_panic {A} (o : option A) : Statement A := m_lift (ok_or Panicked o).
Definition time_text `{Rfc3339} (t : WorkflowTimestamp) : Statement string :=
  or_panic (timestamp_to_string t).

(** [aggregate.apply(command)?] on an owned value, with the error wrapped. *)
Definition apply_to {S E A} (wrap : E → StoreError) (m : method S E A) (state : S)
    : result StoreError (S * A) :=
  match m state with
  | (state', Ok a) => Ok (state', a)
  | (_, Err e) => Err (wrap e)
  end.

(** The body of the [save_..._once] methods after the look-up: the same document
    again is answered with [true], another under the same key is refused. *)
Definition once {Row} (current : option Row) (same : Row → bool) (insert : Statement unit)
    : Statement (Closing bool) :=
  match current with
  | Some row => if same row then mret (Rollback true) else m_throw AggregateConflict
  | None => _ ← insert; mret (Commit false)
  end.

(** [ORDER BY created_at DESC, id DESC LIMIT 1] over some rows: both columns are
    texts, and the text of an identifier orders as the identifier does. *)
Definition newer {Row} (created : Row → string) (a b : uuid * Row) : bool :=
  if decide (created a.2 = created b.2) then bool_decide (key_le b.1 a.1)
  else bool_decide (key_le (created b.2) (created a.2)).
Definition latest {Row} (created : Row → string) (rows : list (uuid * Row)) : option (uuid * Row) :=
  foldr (λ x best, match best with
                   | Some b => if newer created x b then Some x else Some b
                   | None => Some x
                   end) None rows.

(** [ORDER BY n DESC LIMIT 1] over the rows of an owner, numbered by the second
    column of their key; [max(n)] is its number. *)
Definition last_row {Row} (owner : uuid) (m : gmap (uuid * N) Row) : option (N * Row) :=
  map_fold (λ k row best, if decide (k.1 = owner) then
      match best with
      | Some (n, _) => if n <? k.2 then Some (k.2, row) else best
      | None => Some (k.2, row)
      end else best) None m.
Definition next_number {Row} (owner : uuid) (m : gmap (uuid * N) Row) : N :=
  from_option fst 0 (last_row owner m) + 1.

(** A method that only reads the store. *)
Definition reading {A} (f : Store → result StoreError A) : method Store StoreError A :=
  s ← m_get; m_lift (f s).

(** * Lemmas *)

Lemma transaction_ok {A} (body : Statement (Closing A)) s s' a :
  transaction body s = (s', Ok a) ↔
  ∃ d c, body (database s) = (d, Ok c) ∧ a = closing c ∧
    s' = match c with Commit _ => with_database d s | Rollback _ => s end.
Proof.
  unfold transaction. destruct (body (database s)) as [d [[x|x]|e]]; simpl; split.
  - intros [= <- <-]. by exists d, (Commit x).
  - by intros (d'&c&[= <- <-]&->&->).
  - intros [= <- <-]. by exists d, (Rollback x).
  - by intros (d'&c&[= <- <-]&->&->).
  - done.
  - by intros (?&?&?&_).
Qed.

(** A transaction that fails leaves the store as it was. *)
Lemma transaction_err {A} (body : Statement (Closing A)) s s' e :
  transaction body s = (s', Err e) → s' = s.
Proof. unfold transaction. by destruct (body (database s)) as [d [[x|x]|e']]; intros [= <- _]. Qed.

(** Every method below is a guard and a transaction: on an error the store is as
    it was, and what the body preserves of the database, the method preserves. *)
Definition on_database (R : relation Database) : relation Store := λ s s',
  mode s' = mode s ∧ active_readers s' = active_readers s ∧ reader_limit s' = reader_limit s ∧
  R (database s) (database s').
#[export] Instance on_database_preorder R `{!PreOrder R} : PreOrder (on_database R).
Proof.
  split; unfold on_database; [by intros s|].
  intros s1 s2 s3 (->&->&->&?) (->&->&->&?). split_and!; [done..|]. by etrans.
Qed.

Lemma preserves_transaction R `{!PreOrder R} {A} (body : Statement (Closing A)) :
  preserves R body → preserves (on_database R) (transaction body).
Proof.
  intros Hb s. specialize (Hb (database s)). unfold transaction.
  destruct (body (database s)) as [d [[x|x]|e]]; simpl in *; by split_and!.
Qed.
Lemma preserves_autocommit R `{!PreOrder R} {A} (body : Statement A) :
  preserves R body → preserves (on_database R) (autocommit body).
Proof.
  intros Hb s. specialize (Hb (database s)). unfold autocommit.
  destruct (body (database s)) as [d [x|e]]; simpl in *; by split_and!.
Qed.
Lemma preserves_select R `{!PreOrder R} {A} (q : Database → A) : preserves R (select q).
Proof. unfold select. solve_preserves. Qed.
Lemma preserves_writable R `{!PreOrder R} : preserves (on_database R) require_writable.
Proof. unfold require_writable. solve_preserves. Qed.

Lemma preserves_constraint R `{!PreOrder R} b : preserves R (constraint b).
Proof. unfold constraint. solve_preserves. Qed.
Lemma preserves_one_row R `{!PreOrder R} {A} (o : option A) : preserves R (one_row o).
Proof. unfold one_row. solve_preserves. Qed.
Lemma preserves_encode R `{!PreOrder R} `{Persist A} (a : A) : preserves R (encode a).
Proof. unfold encode. solve_preserves. Qed.
Lemma preserves_or_panic R `{!PreOrder R} {A} (o : option A) : preserves R (or_panic o).
Proof. unfold or_panic. solve_preserves. Qed.
Lemma preserves_time_text R `{!PreOrder R} `{Rfc3339} t : preserves R (time_text t).
Proof. unfold time_text. apply preserves_or_panic, _. Qed.
Lemma preserves_reading R `{!PreOrder R} {A} (f : Store → result StoreError A) : preserves R (reading f).
Proof. unfold reading. solve_preserves. Qed.

Lemma autocommit_ok {A} (body : Statement A) s s' a :
  autocommit body s = (s', Ok a) ↔ ∃ d, body (database s) = (d, Ok a) ∧ s' = with_database d s.
Proof. unfold autocommit. destruct (body (database s)) as [d [x|e]]; naive_solver. Qed.
Lemma autocommit_err {A} (body : Statement A) s s' e :
  autocommit body s = (s', Err e) → s' = s.
Proof. unfold autocommit. destruct (body (database s)) as [d [x|e']]; naive_solver. Qed.

Lemma with_own_database s : with_database (database s) s = s.
Proof. by destruct s. Qed.
Lemma autocommit_reads {A} (body : Statement A) :
  preserves (=) body → preserves (=) (autocommit body).
Proof.
  intros Hb s. specialize (Hb (database s)). unfold autocommit.
  destruct (body (database s)) as [d [a|e]]; simpl in *; subst; by rewrite ?with_own_database.
Qed.

(** A method whose error leaves no trace. *)
Definition atomic {A} (m : method Store StoreError A) : Prop :=
  ∀ s s' e, m s = (s', Err e) → s' = s.
Lemma atomic_transaction {A} (body : Statement (Closing A)) : atomic (transaction body).
Proof. intros s s' e. apply transaction_err. Qed.
Lemma atomic_autocommit {A} (body : Statement A) : atomic (autocommit body).
Proof. intros s s' e. apply autocommit_err. Qed.
Lemma atomic_bind {A B} (m : method Store StoreError A) (f : A → method Store StoreError B) :
  preserves (=) m → (∀ a, atomic (f a)) → atomic (m ≫= f).
Proof.
  intros Hm Hf s s' e. specialize (Hm s). unfold mbind, method_bind.
  destruct (m s) as [s1 [a|e']]; simpl in Hm; subst; [apply Hf|naive_solver].
Qed.
Lemma atomic_pure {A} (m : method Store StoreError A) : preserves (=) m → atomic m.
Proof. intros Hm s s' e Hrun. specialize (Hm s). rewrite Hrun in Hm. done. Qed.
Lemma preserves_writable_eq : preserves (=) require_writable.
Proof. unfold require_writable. solve_preserves. Qed.

(** Inversion of the statements. *)
Lemma apply_to_ok {E S A} wrap (m : method S E A) state state' a :
  apply_to wrap m state = Ok (state', a) ↔ m state = (state', Ok a).
Proof. unfold apply_to. destruct (m state) as [x [y|e]]; naive_solver. Qed.

Lemma select_ok {A} (q : Database → A) d d' a : select q d = (d', Ok a) ↔ d' = d ∧ a = q d.
Proof. unfold select. run_method. naive_solver. Qed.
Lemma constraint_ok b d d' u : constraint b d = (d', Ok u) ↔ d' = d ∧ b = true.
Proof. unfold constraint. rewrite m_lift_ok, reject_if_ok, negb_false_iff. done. Qed.
Lemma one_row_ok {A} (o : option A) d d' a : one_row o d = (d', Ok a) ↔ d' = d ∧ o = Some a.
Proof. unfold one_row. by rewrite m_lift_ok, ok_or_ok. Qed.
Lemma encode_ok `{Persist A} (a : A) d d' t :
  encode a d = (d', Ok t) ↔ d' = d ∧ json_encode a = Some t.
Proof. unfold encode. by rewrite m_lift_ok, ok_or_ok. Qed.
Lemma decode_ok `{Persist A} t (a : A) : decode t = Ok a ↔ json_decode t = Some a.
Proof. unfold decode. by rewrite ok_or_ok. Qed.
Lemma or_panic_ok {A} (o : option A) d d' a : or_panic o d = (d', Ok a) ↔ d' = d ∧ o = Some a.
Proof. unfold or_panic. by rewrite m_lift_ok, ok_or_ok. Qed.
Lemma time_text_ok `{Rfc3339} t d d' x :
  time_text t d = (d', Ok x) ↔ d' = d ∧ timestamp_to_string t = Some x.
Proof. apply or_panic_ok. Qed.
Lemma require_writable_ok s s' u : require_writable s = (s', Ok u) ↔ s' = s ∧ mode s = ReadWrite.
Proof.
  unfold require_writable. run_method. destruct u. case_bool_decide; simpl; naive_solver.
Qed.
Lemma validate_idempotency_key_ok k u :
  validate_idempotency_key k = Ok u ↔ k ≠ "" ∧ str_len k ≤ 256.
Proof.
  unfold validate_idempotency_key. rewrite reject_if_ok, orb_false_iff, bool_decide_eq_false, N.ltb_ge.
  done.
Qed.

Lemma once_ok {Row} (current : option Row) same insert d d' c :
  once current same insert d = (d', Ok c) ↔
  match current with
  | Some row => d' = d ∧ same row = true ∧ c = Rollback true
  | None => insert d = (d', Ok tt) ∧ c = Commit false
  end.
Proof.
  unfold once. destruct current as [row|].
  - destruct (same row); run_method; naive_solver.
  - rewrite method_bind_ok. split.
    + intros (d1&[]&Hi&[-> ->]%method_ret_ok). done.
    + intros [Hi ->]. exists d', tt. done.
Qed.

Lemma reading_ok {A} (f : Store → result StoreError A) s s' a :
  reading f s = (s', Ok a) ↔ s' = s ∧ f s = Ok a.
Proof. unfold reading. run_method. split; [by intros [= <- ->]|by intros [-> ->]]. Qed.

Lemma last_row_spec {Row} (owner : uuid) (m : gmap (uuid * N) Row) :
  match last_row owner m with
  | Some (n, row) => m !! (owner, n) = Some row ∧ ∀ k r, m !! (owner, k) = Some r → k ≤ n
  | None => ∀ k, m !! (owner, k) = None
  end.
Proof.
  unfold last_row. apply (map_fold_weak_ind (λ best m, match best with
    | Some (n, row) => m !! (owner, n) = Some row ∧ ∀ k r, m !! (owner, k) = Some r → k ≤ n
    | None => ∀ k, m !! (owner, k) = None end)); [intros k; apply lookup_empty|].
  intros [o k] row m' best Hnone IH. simpl. case_decide as Ho.
  - subst. destruct best as [[n r]|].
    + destruct IH as [Hn Hmax]. destruct (n <? k) eqn:Hlt; to_prop.
      * rewrite lookup_insert_eq. split; [done|]. intros k' r' [[[= <-] _]|[_ ?%Hmax]]%lookup_insert_Some; lia.
      * rewrite lookup_insert_ne by congruence. split; [done|].
        intros k' r' [[[= <-] _]|[_ ?%Hmax]]%lookup_insert_Some; lia.
    + rewrite lookup_insert_eq. split; [done|].
      intros k' r' [[[= <-] _]|[_ Hr]]%lookup_insert_Some; [lia|]. by rewrite IH in Hr.
  - assert (∀ k', (o, k) ≠ (owner, k')) as Hne by congruence. destruct best as [[n r]|].
    + rewrite lookup_insert_ne by done. destruct IH as [Hn Hmax]. split; [done|].
      intros k' r'. rewrite lookup_insert_ne by done. apply Hmax.
    + intros k'. by rewrite lookup_insert_ne.
Qed.

Lemma last_row_unique {Row} (owner : uuid) (m : gmap (uuid * N) Row) (n : N) (row : Row) :
  m !! (owner, n) = Some row → (∀ k r, m !! (owner, k) = Some r → k ≤ n) →
  last_row owner m = Some (n, row).
Proof.
  intros Hn Hmax. pose proof (last_row_spec owner m) as Hl.
  destruct (last_row owner m) as [[n' r']|]; [|by rewrite Hl in Hn]. destruct Hl as [Hn' Hmax'].
  assert (n' = n) as -> by (apply N.le_antisymm; [by eapply Hmax|by eapply Hmax']). congruence.
Qed.
Lemma last_row_insert_ne {Row} (owner o : uuid) (n : N) (row : Row) (m : gmap (uuid * N) Row) :
  owner ≠ o → last_row o (<[(owner, n) := row]> m) = last_row o m.
Proof.
  intros Hne. pose proof (last_row_spec o m) as Hl.
  assert (∀ k, <[(owner, n) := row]> m !! (o, k) = m !! (o, k)) as Hsame.
  { intros k. apply lookup_insert_ne. congruence. }
  destruct (last_row o m) as [[n' r']|].
  - destruct Hl as [Hn' Hmax]. apply last_row_unique; [by rewrite Hsame|].
    intros k r. rewrite Hsame. apply Hmax.
  - pose proof (last_row_spec o (<[(owner, n) := row]> m)) as Hl'.
    destruct (last_row o (<[_ := row]> m)) as [[n' r']|]; [|done]. destruct Hl' as [Hl' _].
    by rewrite Hsame, Hl in Hl'.
Qed.
Lemma last_row_insert_next {Row} (owner : uuid) (row : Row) (m : gmap (uuid * N) Row) :
  last_row owner (<[(owner, next_number owner m) := row]> m) = Some (next_number owner m, row).
Proof.
  apply last_row_unique; [apply lookup_insert_eq|].
  intros k r [[[= <-] _]|[_ Hr]]%lookup_insert_Some; [done|]. unfold next_number.
  pose proof (last_row_spec owner m) as Hl. destruct (last_row owner m) as [[n' r']|]; simpl.
  - destruct Hl as [_ Hl]. apply Hl in Hr. lia.
  - by rewrite Hl in Hr.
Qed.

(** The rows of an owner are numbered from one without a gap. *)
Definition numbered_rows {Row} (m : gmap (uuid * N) Row) : Prop :=
  ∀ owner n, is_Some (m !! (owner, n)) ↔ 1 ≤ n < next_number owner m.

Lemma next_number_fresh {Row} (owner : uuid) (m : gmap (uuid * N) Row) : m !! (owner, next_number owner m) = None.
Proof.
  apply eq_None_not_Some. intros [row Hrow]. unfold next_number in Hrow. pose proof (last_row_spec owner m) as Hl.
  destruct (last_row owner m) as [[n r]|]; simpl in *; [|by rewrite Hl in Hrow].
  destruct Hl as [_ Hl]. apply Hl in Hrow. lia.
Qed.

Lemma next_number_insert {Row} (owner o : uuid) (row : Row) (m : gmap (uuid * N) Row) :
  next_number o (<[(owner, next_number owner m) := row]> m) =
  if decide (o = owner) then next_number owner m + 1 else next_number o m.
Proof.
  unfold next_number at 1. case_decide as Ho.
  - subst. by rewrite last_row_insert_next.
  - by rewrite last_row_insert_ne.
Qed.

Lemma numbered_rows_insert {Row} (owner : uuid) (row : Row) (m : gmap (uuid * N) Row) :
  numbered_rows m → numbered_rows (<[(owner, next_number owner m) := row]> m).
Proof.
  intros Hm o n. unfold numbered_rows in Hm. rewrite next_number_insert, lookup_insert_is_Some, Hm.
  assert (1 ≤ next_number owner m) by (unfold next_number; lia). case_decide as Ho.
  - subst. split; [intros [[= <-]|[_ ?]]; lia|]. intros ?.
    destruct (decide (n = next_number owner m)) as [->|]; [by left|right]. split; [congruence|lia].
  - split; [by intros [[= <-]|[_ ?]]|]. intros ?. right. split; [congruence|done].
Qed.

(** What the newest row of some is. *)
Lemma newer_total {Row} (created : Row → string) a b :
  newer created a b = false → newer created b a = true.
Proof.
  unfold newer. destruct (decide (created a.2 = created b.2)) as [Heq|Hne];
    [rewrite decide_True by done|rewrite decide_False by done]; intros Hlt; to_prop; apply bool_decide_eq_true.
  - by destruct (total key_le a.1 b.1).
  - by destruct (total key_le (created a.2) (created b.2)).
Qed.
Lemma newer_trans {Row} (created : Row → string) a b c :
  newer created a b = true → newer created b c = true → newer created a c = true.
Proof.
  unfold newer. destruct (decide (created a.2 = created b.2)) as [Hab|Hab],
    (decide (created b.2 = created c.2)) as [Hbc|Hbc]; intros H1 H2; to_prop.
  - rewrite decide_True by congruence. apply bool_decide_eq_true. by etrans.
  - rewrite decide_False by congruence. apply bool_decide_eq_true. by rewrite Hab.
  - rewrite decide_False by congruence. apply bool_decide_eq_true. by rewrite <-Hbc.
  - destruct (decide (created a.2 = created c.2)) as [Hac|].
    + destruct Hab. apply (anti_symm key_le); [by rewrite Hac|done].
    + apply bool_decide_eq_true. by etrans.
Qed.
Lemma latest_spec {Row} (created : Row → string) rows :
  match latest created rows with
  | Some x => x ∈ rows ∧ ∀ y, y ∈ rows → y = x ∨ newer created x y = true
  | None => rows = []
  end.
Proof.
  induction rows as [|x rows IH]; simpl; [done|]. fold (latest created rows).
  destruct (latest created rows) as [b|].
  - destruct IH as [Hb Hmax]. destruct (newer created x b) eqn:Hn.
    + split; [by left|]. intros y [->|[->|?]%Hmax]%elem_of_cons; [by left|by right|right].
      by eapply newer_trans.
    + split; [by right|]. intros y [->|?%Hmax]%elem_of_cons; [right; by apply newer_total|done].
  - subst. split; [by left|]. intros y ->%list_elem_of_singleton. by left.
Qed.

(** No more readers are open than the limit, and a reader that could not be
    opened is not counted. *)
Lemma open_reader_within_limit opened s :
  active_readers s ≤ reader_limit s →
  let '(s', r) := open_reader opened s in
  active_readers s' ≤ reader_limit s' ∧ database s' = database s ∧
  active_readers s' = active_readers s + (if is_ok r then 1 else 0).
Proof.
  intros Hle. unfold open_reader. run_method. destruct (reader_limit s <=? active_readers s) eqn:Hfull.
  - simpl. split_and!; [done|done|lia].
  - to_prop. destruct opened; simpl; split_and!; try done; lia.
Qed.
End Store.

#[export] Hint Resolve Store.preserves_constraint Store.preserves_one_row Store.preserves_encode
  Store.preserves_or_panic Store.preserves_time_text Store.preserves_reading : keeps.
#[export] Hint Resolve Store.preserves_select Store.preserves_writable Store.preserves_writable_eq : keeps.

(** What the statements of a method assign to. *)
Ltac solve_frame :=
  repeat first
    [ apply Store.preserves_transaction; [typeclasses eauto|]
    | apply Store.preserves_autocommit; [typeclasses eauto|]
    | progress solve_preserves ].

(** Guards, then one transaction or statement. *)
Ltac solve_atomic :=
  repeat first
    [ apply Store.atomic_transaction
    | apply Store.atomic_autocommit
    | apply Store.atomic_bind; [solve [solve_preserves]|intros ?]
    | apply Store.atomic_pure; solve [solve_preserves]
    | case_match ].

(** [inv_method] for statements and the methods of the store. *)
Ltac inv_statement :=
  match goal with
  | H : Store.select _ _ = (_, Ok _) |- _ => apply Store.select_ok in H as [? ?]
  | H : Store.constraint _ _ = (_, Ok _) |- _ => apply Store.constraint_ok in H as [? ?]
  | H : Store.one_row _ _ = (_, Ok _) |- _ => apply Store.one_row_ok in H as [? ?]
  | H : Store.encode _ _ = (_, Ok _) |- _ => apply Store.encode_ok in H as [? ?]
  | H : Store.decode _ = Ok _ |- _ => apply Store.decode_ok in H
  | H : Store.or_panic _ _ = (_, Ok _) |- _ => apply Store.or_panic_ok in H as [? ?]
  | H : Store.time_text _ _ = (_, Ok _) |- _ => apply Store.time_text_ok in H as [? ?]
  | H : Store.require_writable _ = (_, Ok _) |- _ => apply Store.require_writable_ok in H as [? ?]
  | H : Store.apply_to _ _ _ = Ok _ |- _ => apply Store.apply_to_ok in H
  | H : Store.validate_idempotency_key _ = Ok _ |- _ =>
      apply Store.validate_idempotency_key_ok in H as [? ?]
  | H : Store.reading _ _ = (_, Ok _) |- _ => apply Store.reading_ok in H as [? ?]
  | H : Store.transaction _ _ = (_, Ok _) |- _ => apply Store.transaction_ok in H as (?&?&?&?&?)
  | H : Store.autocommit _ _ = (_, Ok _) |- _ => apply Store.autocommit_ok in H as (?&?&?)
  end.
Ltac inv_store := repeat ((inv_step || inv_statement); subst; cbv beta iota in * ).
