(* ===== verification/StoreCommands.v ===== *)
(** Commands on persisted aggregates (workflow-store/src/workflows.rs and
    tasks.rs): one transaction loads the aggregate, applies the command, writes
    the new state, its events and the answer under the idempotency key; a key
    that was answered before gives that answer again. The delivery of a
    reserved candidate is in StoreCandidates.v. *)
From S2P Require Import Prelude Text Ids Canonical WorkflowMachine TaskMachine Goals Verdicts.
From S2P Require Import Redaction Ledger Database.

Module Commands.
Export Store.

(** [WorkflowApplyResult], [TaskApplyResult] and [GoalApplyResult]. *)
Record ApplyResult (E S : Type) : Type := {
  duplicate : bool; result_events : list E; result_state : S;
}.
Arguments duplicate {E S} _.
Arguments result_events {E S} _.
Arguments result_state {E S} _.

(** The [PersistedResult]s of the three files. *)
Record PersistedResult (E S : Type) : Type := { persisted_events : list E; persisted_state : S }.
Arguments persisted_events {E S} _.
Arguments persisted_state {E S} _.

Definition applied {E S} (events : list E) (state : S) : ApplyResult E S :=
  {| duplicate := false; result_events := events; result_state := state |}.
Definition repeated {E S} (r : PersistedResult E S) : ApplyResult E S :=
  {| duplicate := true; result_events := persisted_events r; result_state := persisted_state r |}.

(** [SELECT EXISTS(SELECT 1 FROM candidate_delivery_reservations WHERE workflow_id = ?1)]. *)
Definition delivery_reserved (workflow_id : WorkflowId) (d : Database) : bool :=
  bool_decide (map_Exists (λ _ row, reservation_workflow row = workflow_id)
                 (candidate_delivery_reservations (candidate_tables d))).

(** The look-up of an idempotency key, refused when it answered another
    aggregate. *)
Definition recorded_result (kind : AggregateType) (id : uuid) (key : string)
    : Statement (option string) :=
  persisted ← select (λ d, command_deduplication (workflow_tables d) !! key);
  match persisted with
  | Some row =>
      if negb (bool_decide (aggregate_type row = kind)) || negb (bool_decide (aggregate_id row = id))
      then m_throw IdempotencyConflict
      else mret (Some (result_json row))
  | None => mret None
  end.

(** [INSERT INTO events] for each event. *)
Definition insert_event `{Persist E} (kind : AggregateType) (id : uuid) (created : string) (event : E)
    : Statement unit :=
  json ← encode event;
  m_modify (λ d, set_events (events (workflow_tables d) ++
    [{| event_aggregate := kind; event_aggregate_id := id; event_json := json;
        event_created := created |}]) d).
Definition insert_events `{Persist E} (kind : AggregateType) (id : uuid) (created : string)
    (es : list E) : Statement unit := m_for_each (insert_event kind id created) es.

(** [INSERT INTO command_deduplication]. *)
Definition insert_result `{Persist R} (kind : AggregateType) (id : uuid) (key created : string)
    (r : R) : Statement unit :=
  json ← encode r;
  used ← select (λ d, command_deduplication (workflow_tables d) !! key);
  _ ← constraint (bool_decide (used = None));
  m_modify (λ d, set_command_deduplication
    (<[key := {| aggregate_type := kind; aggregate_id := id; result_json := json;
                 result_created := created |}]> (command_deduplication (workflow_tables d))) d).

(** * Workflows *)

Section workflows.
Context `{Rfc3339, Persist Workflow.Workflow, Persist Workflow.WorkflowEvent,
  Persist (PersistedResult Workflow.WorkflowEvent Workflow.Workflow)}.

Definition WorkflowApplyResult : Type := ApplyResult Workflow.WorkflowEvent Workflow.Workflow.

(** [INSERT INTO workflows ... ON CONFLICT(id) DO UPDATE]. *)
Definition upsert_workflow (workflow_id : WorkflowId) (json updated : string) : Statement unit :=
  m_modify (λ d, set_workflows
    (<[workflow_id := {| workflow_json := json; workflow_updated := updated |}]>
       (workflows (workflow_tables d))) d).

Definition apply_workflow_command (workflow_id : WorkflowId) (idempotency_key : string)
    (command : Workflow.WorkflowCommand) (timestamp : WorkflowTimestamp)
    : method Store StoreError WorkflowApplyResult :=
  _ ← require_writable;
  _ ← m_lift (validate_idempotency_key idempotency_key);
  transaction (
    reserved ← select (delivery_reserved workflow_id);
    if reserved : bool then m_throw DeliveryInProgress else
    persisted ← recorded_result WorkflowAggregate workflow_id idempotency_key;
    match persisted with
    | Some json =>
        result ← m_lift (decode json);
        mret (Rollback (repeated result))
    | None =>
        current ← select (λ d, workflow_json <$> workflows (workflow_tables d) !! workflow_id);
        state ← m_lift (from_option decode (Ok Workflow.workflow_default) current);
        '(state, events) ← m_lift (apply_to Transition (Workflow.workflow_apply command) state);
        state_json ← encode state;
        created ← time_text timestamp;
        _ ← upsert_workflow workflow_id state_json created;
        _ ← insert_events WorkflowAggregate workflow_id created events;
        _ ← insert_result WorkflowAggregate workflow_id idempotency_key created
              {| persisted_events := events; persisted_state := state |};
        mret (Commit (applied events state))
    end).

Definition load_workflow (workflow_id : WorkflowId) (s : Store)
    : result StoreError (option Workflow.Workflow) :=
  match workflows (workflow_tables (database s)) !! workflow_id with
  | Some row => state ← decode (workflow_json row); Ok (Some state)
  | None => Ok None
  end.
End workflows.

(** * Tasks *)

Section tasks.
Context `{Rfc3339, Persist Task.Task, Persist Task.TaskEvent,
  Persist (PersistedResult Task.TaskEvent Task.Task)}.

Definition TaskApplyResult : Type := ApplyResult Task.TaskEvent Task.Task.

(** [INSERT INTO tasks ... ON CONFLICT(id) DO UPDATE]; a new row needs its
    workflow's. *)
Definition upsert_task (task_id : TaskId) (workflow_id : WorkflowId) (json updated : string)
    : Statement unit :=
  t ← select workflow_tables;
  match tasks t !! task_id with
  | Some row =>
      m_modify (set_tasks (<[task_id := {| task_workflow := task_workflow row; task_json := json;
                                           task_updated := updated |}]> (tasks t)))
  | None =>
      _ ← constraint (bool_decide (is_Some (workflows t !! workflow_id)));
      m_modify (set_tasks (<[task_id := {| task_workflow := workflow_id; task_json := json;
                                           task_updated := updated |}]> (tasks t)))
  end.

Definition apply_task_command (workflow_id : WorkflowId) (task_id : TaskId)
    (idempotency_key : string) (command : Task.TaskCommand) (timestamp : WorkflowTimestamp)
    : method Store StoreError TaskApplyResult :=
  _ ← require_writable;
  _ ← m_lift (validate_idempotency_key idempotency_key);
  transaction (
    persisted ← recorded_result TaskAggregate task_id idempotency_key;
    match persisted with
    | Some json =>
        result ← m_lift (decode json);
        mret (Rollback (repeated result))
    | None =>
        current ← select (λ d, tasks (workflow_tables d) !! task_id);
        if from_option (λ row, negb (bool_decide (task_workflow row = workflow_id))) false current
        then m_throw AggregateConflict else
        state ← m_lift (from_option (λ row, decode (task_json row)) (Ok Task.task_new) current);
        '(state, events) ← m_lift (apply_to Transition (Task.task_apply command) state);
        state_json ← encode state;
        created ← time_text timestamp;
        _ ← upsert_task task_id workflow_id state_json created;
        _ ← insert_events TaskAggregate task_id created events;
        _ ← insert_result TaskAggregate task_id idempotency_key created
              {| persisted_events := events; persisted_state := state |};
        mret (Commit (applied events state))
    end).

Definition load_task (task_id : TaskId) (s : Store) : result StoreError (option Task.Task) :=
  match tasks (workflow_tables (database s)) !! task_id with
  | Some row => state ← decode (task_json row); Ok (Some state)
  | None => Ok None
  end.

(** The rows come in the order of their keys: the text of an identifier orders
    as its bytes do. *)
Definition load_workflow_tasks (workflow_id : WorkflowId) (s : Store)
    : result StoreError (list (TaskId * Task.Task)) :=
  try_map (λ '(id, row), state ← decode (task_json row); Ok (id, state))
    (filter (λ '(_, row), task_workflow row = workflow_id)
       (btree_iter (tasks (workflow_tables (database s))))).
End tasks.

(** * Journals

    What the rows of one aggregate stand for: the keys answered so far with
    the command each was given and its answer, in order. *)
Section journal.
Context {C E S F : Type} `{Persist E, Persist (PersistedResult E S)}.
Context (apply : C → method S F (list E)) (initial : S).

Record JournalEntry : Type := {
  entry_key : string; entry_command : C; entry_result : PersistedResult E S;
}.
Definition Journal : Type := list JournalEntry.

Inductive journal_run : Journal → S → Prop :=
| journal_empty : journal_run [] initial
| journal_command h state key c state' events :
    journal_run h state → key ∉ entry_key <$> h → apply c state = (state', Ok events) →
    journal_run (h ++ [{| entry_key := key; entry_command := c;
                          entry_result := {| persisted_events := events;
                                             persisted_state := state' |} |}]) state'.

Definition journal_events (h : Journal) : list E :=
  mjoin (persisted_events ∘ entry_result <$> h).

Definition about (kind : AggregateType) (id : uuid) (row : EventRow) : Prop :=
  event_aggregate row = kind ∧ event_aggregate_id row = id.
#[global] Instance about_dec kind id row : Decision (about kind id row).
Proof. apply and_dec; apply _. Defined.
Definition events_about (kind : AggregateType) (id : uuid) (d : Database) : list string :=
  event_json <$> filter (about kind id) (events (workflow_tables d)).

(** The answer recorded for a key about an aggregate. *)
Definition answer_of (kind : AggregateType) (id : uuid) (d : Database) (key json : string) : Prop :=
  ∃ row, command_deduplication (workflow_tables d) !! key = Some row ∧
    aggregate_type row = kind ∧ aggregate_id row = id ∧ result_json row = json.

Record journal_stored (kind : AggregateType) (id : uuid) (h : Journal) (d : Database) : Prop := {
  js_events : mapM json_encode (journal_events h) = Some (events_about kind id d);
  js_encoded e : e ∈ h → is_Some (json_encode (entry_result e));
  js_answers key json : answer_of kind id d key json ↔
    ∃ e, e ∈ h ∧ entry_key e = key ∧ json_encode (entry_result e) = Some json;
}.

(** What a fresh command adds to the tables of events and answers. *)
Definition answer_added (kind : AggregateType) (id : uuid) (key : string) (p : PersistedResult E S)
    (d d' : Database) : Prop :=
  ∃ jsons json created,
    mapM json_encode (persisted_events p) = Some jsons ∧ json_encode p = Some json ∧
    command_deduplication (workflow_tables d) !! key = None ∧
    events (workflow_tables d') = events (workflow_tables d) ++
      ((λ j, {| event_aggregate := kind; event_aggregate_id := id; event_json := j;
                event_created := created |}) <$> jsons) ∧
    command_deduplication (workflow_tables d') =
      <[key := {| aggregate_type := kind; aggregate_id := id; result_json := json;
                  result_created := created |}]> (command_deduplication (workflow_tables d)).
End journal.

(** The events and answers only grow. *)
Definition answers_grow : relation Database := λ d d',
  events (workflow_tables d) `prefix_of` events (workflow_tables d') ∧
  command_deduplication (workflow_tables d) ⊆ command_deduplication (workflow_tables d').
#[export] Instance answers_grow_preorder : PreOrder answers_grow.
Proof.
  split; unfold answers_grow; [by intros d|]. intros d1 d2 d3 [??] [??]. split; by etrans.
Qed.

(** * Lemmas *)

Lemma recorded_result_ok kind id key d d' o :
  recorded_result kind id key d = (d', Ok o) ↔
  d' = d ∧ match o with
           | Some json => answer_of kind id d key json
           | None => command_deduplication (workflow_tables d) !! key = None
           end.
Proof.
  unfold recorded_result, answer_of. rewrite method_bind_ok. setoid_rewrite select_ok. split.
  - intros (d1&row&[-> ->]&Hrow). destruct (_ !! key) as [row|] eqn:Hkey.
    + destruct (decide (aggregate_type row = kind)) as [<-|], (decide (aggregate_id row = id)) as [<-|];
        repeat rewrite ?bool_decide_true, ?bool_decide_false in Hrow by done; simpl in Hrow;
        run_method in Hrow; simplify_eq. eauto 10.
    + run_method in Hrow. by simplify_eq.
  - intros [-> Ho]. exists d, (command_deduplication (workflow_tables d) !! key). split; [done|].
    destruct o as [json|].
    + destruct Ho as (row&->&<-&<-&<-). by rewrite !bool_decide_true.
    + by rewrite Ho.
Qed.

Lemma insert_events_ok `{Persist E} kind id created (es : list E) d d' u :
  insert_events kind id created es d = (d', Ok u) ↔
  ∃ jsons, mapM json_encode es = Some jsons ∧
    d' = set_events (events (workflow_tables d) ++
      ((λ j, {| event_aggregate := kind; event_aggregate_id := id; event_json := j;
                event_created := created |}) <$> jsons)) d.
Proof.
  destruct u. unfold insert_events. revert d. induction es as [|e es IH]; intros d; simpl.
  { rewrite method_ret_ok. split.
    - intros [-> _]. exists []. split; [done|]. rewrite app_nil_r. by destruct d as [[]].
    - intros (?&[= <-]&->). rewrite app_nil_r. split; [by destruct d as [[]]|done]. }
  destruct (json_encode e) as [j|] eqn:He.
  - rewrite (method_bind_run _ _ _ (set_events (events (workflow_tables d) ++
      [{| event_aggregate := kind; event_aggregate_id := id; event_json := j;
          event_created := created |}]) d) tt); [|by unfold insert_event, encode; rewrite He].
    rewrite IH. simpl. split.
    + intros (jsons&Hj&->). exists (j :: jsons). rewrite Hj. simpl. split; [done|].
      by rewrite <-app_assoc.
    + intros (jsons&Hj&->). apply bind_Some in Hj as (jsons'&Hj&[= <-]). exists jsons'.
      split; [done|]. simpl. by rewrite <-app_assoc.
  - split; [|by intros (?&?&?)]. intros (d1&?&(?&?&[_ Hj]%encode_ok&_)%method_bind_ok&_)%method_bind_ok.
    congruence.
Qed.

Lemma insert_result_ok `{Persist R} kind id key created (r : R) d d' u :
  insert_result kind id key created r d = (d', Ok u) ↔
  ∃ json, json_encode r = Some json ∧ command_deduplication (workflow_tables d) !! key = None ∧
    d' = set_command_deduplication
      (<[key := {| aggregate_type := kind; aggregate_id := id; result_json := json;
                   result_created := created |}]> (command_deduplication (workflow_tables d))) d.
Proof.
  destruct u. unfold insert_result. split.
  - intros Hrun. inv_store. to_prop. eauto.
  - intros (json&Hj&Hkey&->). unfold encode, select, constraint. run_method. rewrite Hj. simpl.
    by rewrite Hkey, bool_decide_true.
Qed.

(** The two together, after an assignment to the aggregates' tables. *)
Lemma answer_added_intro {E T} `{Persist E, Persist (PersistedResult E T)} kind id key created
    (p : PersistedResult E T) d d1 d2 d' u v :
  insert_events kind id created (persisted_events p) d1 = (d2, Ok u) →
  insert_result kind id key created p d2 = (d', Ok v) →
  events (workflow_tables d1) = events (workflow_tables d) →
  command_deduplication (workflow_tables d1) = command_deduplication (workflow_tables d) →
  answer_added kind id key p d d' ∧
  workflows (workflow_tables d') = workflows (workflow_tables d1) ∧
  tasks (workflow_tables d') = tasks (workflow_tables d1) ∧
  leases (workflow_tables d') = leases (workflow_tables d1) ∧
  plan_tables d' = plan_tables d1 ∧ candidate_tables d' = candidate_tables d1 ∧
  goal_tables d' = goal_tables d1 ∧ ledger_tables d' = ledger_tables d1.
Proof.
  intros (jsons&Hj&->)%insert_events_ok (json&Hr&Hkey&->)%insert_result_ok He Hd.
  simpl in *. rewrite Hd in Hkey. split; [|done]. exists jsons, json, created. simpl.
  by rewrite He, Hd.
Qed.

Lemma answer_added_answers {E T} `{Persist E, Persist (PersistedResult E T)} kind id key
    (p : PersistedResult E T) d d' : answer_added kind id key p d d' →
  ∃ json, json_encode p = Some json ∧ answer_of kind id d' key json.
Proof.
  intros (jsons&json&created&_&Hp&_&_&Hd). exists json. split; [done|]. unfold answer_of.
  rewrite Hd, lookup_insert_eq. by eexists.
Qed.

Lemma answer_added_grows {E T} `{Persist E, Persist (PersistedResult E T)} kind id key
    (p : PersistedResult E T) d d' : answer_added kind id key p d d' → answers_grow d d'.
Proof.
  intros (jsons&json&created&_&_&Hkey&He&Hd). split; [rewrite He; by apply prefix_app_r|].
  rewrite Hd. by apply insert_subseteq.
Qed.

Lemma answer_of_grows kind id d d' key json :
  answers_grow d d' → answer_of kind id d key json → answer_of kind id d' key json.
Proof.
  intros [_ Hsub] (row&Hrow&?). exists row. split; [|done]. by eapply lookup_weaken.
Qed.

Lemma answer_of_unique kind kind' id id' d key json json' :
  answer_of kind id d key json → answer_of kind' id' d key json' →
  kind = kind' ∧ id = id' ∧ json = json'.
Proof. intros (row&Hrow&<-&<-&<-) (row'&Hrow'&<-&<-&<-). by simplify_eq. Qed.

Section journal_lemmas.
Context {C E S F : Type} `{Persist E, Persist (PersistedResult E S)}.
Context (apply : C → method S F (list E)) (initial : S).
Implicit Types h : @Journal C E S.

Lemma journal_stored_empty kind id d :
  filter (about kind id) (events (workflow_tables d)) = [] →
  (∀ key json, ¬ answer_of kind id d key json) → journal_stored kind id ([] : @Journal C E S) d.
Proof.
  intros He Ha. split.
  - unfold events_about. by rewrite He.
  - by intros ? ?%elem_of_nil.
  - intros key json. split; [by intros ?%Ha|]. by intros (e&?%elem_of_nil&_).
Qed.

Lemma journal_stored_snoc kind id h key c p d d' :
  journal_stored kind id h d → answer_added kind id key p d d' →
  journal_stored kind id
    (h ++ [{| entry_key := key; entry_command := c; entry_result := p |}]) d'.
Proof.
  intros [He Hn Ha] (jsons&json&created&Hj&Hr&Hkey&Hes&Hds). split.
  - unfold journal_events in *. rewrite fmap_app, join_app. simpl. rewrite app_nil_r.
    apply mapM_Some. apply mapM_Some in He. apply mapM_Some in Hj. unfold events_about in *.
    rewrite Hes, filter_app, fmap_app. apply Forall2_app; [done|].
    rewrite (list_filter_all (about kind id)); last first.
    { apply Forall_fmap, Forall_forall. by intros j _. }
    rewrite <-list_fmap_compose, list_fmap_id. done.
  - intros e [?| ->%list_elem_of_singleton]%elem_of_app; [by apply Hn|]. simpl. by eexists.
  - intros key' json'. unfold answer_of. rewrite Hds. split.
    + intros (row&Hrow&Ht&Hi&Hjs). apply lookup_insert_Some in Hrow as [[<- <-]|[Hne Hrow]]; simpl in *.
      * subst. eexists. split; [apply elem_of_app; right; by apply list_elem_of_singleton|]. done.
      * destruct (proj1 (Ha key' json')) as (e&Hin&?&?); [by exists row|].
        exists e. split; [|done]. apply elem_of_app. by left.
    + intros (e&Hin&Hk&Hjs). apply elem_of_app in Hin as [Hin| ->%list_elem_of_singleton]; simpl in *.
      * destruct (proj2 (Ha key' json')) as (row&Hrow&?); [eauto|]. exists row.
        split; [|done]. apply lookup_insert_Some. right. split; [|done]. intros ->. congruence.
      * subst. simplify_eq. eexists. rewrite lookup_insert_eq. done.
Qed.

(** Events and an answer about other aggregates leave the journal of this one. *)
Lemma journal_stored_elsewhere kind id h d d' new key row :
  journal_stored kind id h d →
  events (workflow_tables d') = events (workflow_tables d) ++ new →
  Forall (λ e, ¬ about kind id e) new →
  command_deduplication (workflow_tables d) !! key = None →
  command_deduplication (workflow_tables d') =
    <[key := row]> (command_deduplication (workflow_tables d)) →
  (aggregate_type row, aggregate_id row) ≠ (kind, id) → journal_stored kind id h d'.
Proof.
  intros [He Hn Ha] Hes Hnew Hkey Hds Hrow. split; [|done|].
  - unfold events_about in *. rewrite Hes, filter_app, fmap_app, He.
    rewrite (list_filter_none (about kind id) new) by done. by rewrite app_nil_r.
  - intros key' json'. rewrite <-Ha. unfold answer_of. rewrite Hds. split.
    + intros (r&Hr&Ht&Hi&Hjs). apply lookup_insert_Some in Hr as [[<- <-]|[Hk Hr]]; [congruence|].
      by exists r.
    + intros (r&Hr&?). exists r. split; [|done]. apply lookup_insert_Some. right.
      split; [|done]. intros ->. congruence.
Qed.

(** A step about another aggregate leaves the journal of this one. *)
Lemma journal_stored_other {E' S'} `{Persist E', Persist (PersistedResult E' S')}
    kind id kind' id' h key (p : PersistedResult E' S') d d' :
  (kind, id) ≠ (kind', id') →
  journal_stored kind id h d → answer_added kind' id' key p d d' → journal_stored kind id h d'.
Proof.
  intros Hne Hh (jsons&json&created&Hj&Hr&Hkey&Hes&Hds).
  eapply journal_stored_elsewhere; [exact Hh|exact Hes| |exact Hkey|exact Hds|simpl; congruence].
  apply Forall_fmap, Forall_forall. intros j _ [? ?]. simpl in *. congruence.
Qed.

(** Nor does a step that adds neither events nor answers. *)
Lemma journal_stored_same kind id h d d' :
  events (workflow_tables d') = events (workflow_tables d) →
  command_deduplication (workflow_tables d') = command_deduplication (workflow_tables d) →
  journal_stored kind id h d → journal_stored kind id h d'.
Proof.
  intros He Hd [Hes Hn Ha]. split; [unfold events_about; by rewrite He|done|].
  intros key json. rewrite <-Ha. unfold answer_of. by rewrite Hd.
Qed.

Lemma journal_stored_key kind id h d key :
  journal_stored kind id h d → command_deduplication (workflow_tables d) !! key = None →
  key ∉ entry_key <$> h.
Proof.
  intros [_ Henc Ha] Hnone (e&->&Hin)%list_elem_of_fmap.
  destruct (Henc e Hin) as [json Hjson].
  destruct (proj2 (Ha (entry_key e) json)) as (row&Hrow&_); [eauto|]. congruence.
Qed.
End journal_lemmas.

(** * Effects of the commands *)

(** What a fresh command writes besides its events and answer. *)
Definition others_same (d d' : Database) : Prop :=
  leases (workflow_tables d') = leases (workflow_tables d) ∧ plan_tables d' = plan_tables d ∧
  goal_tables d' = goal_tables d ∧ ledger_tables d' = ledger_tables d.

Section workflow_commands.
Context `{Rfc3339, Persist Workflow.Workflow, Persist Workflow.WorkflowEvent,
  Persist (PersistedResult Workflow.WorkflowEvent Workflow.Workflow)}.

(** The state a command on a workflow starts from. *)
Definition current_workflow (id : WorkflowId) (d : Database) : result StoreError Workflow.Workflow :=
  from_option decode (Ok Workflow.workflow_default) (workflow_json <$> workflows (workflow_tables d) !! id).

Definition workflow_written (id : WorkflowId) (key : string)
    (p : PersistedResult Workflow.WorkflowEvent Workflow.Workflow) (d d' : Database) : Prop :=
  answer_added WorkflowAggregate id key p d d' ∧ others_same d d' ∧
  tasks (workflow_tables d') = tasks (workflow_tables d) ∧
  ∃ json updated, json_encode (persisted_state p) = Some json ∧
    workflows (workflow_tables d') =
      <[id := {| workflow_json := json; workflow_updated := updated |}]>
        (workflows (workflow_tables d)).

(** A command that succeeds either repeats the answer its key was given, or
    applies to the stored state and is recorded. *)
Lemma apply_workflow_command_ok id key c t s s' r :
  apply_workflow_command id key c t s = (s', Ok r) →
  mode s = ReadWrite ∧ delivery_reserved id (database s) = false ∧
  ((∃ json p, answer_of WorkflowAggregate id (database s) key json ∧ json_decode json = Some p ∧
      r = repeated p ∧ s' = s) ∨
   (∃ w w' es d', command_deduplication (workflow_tables (database s)) !! key = None ∧
      current_workflow id (database s) = Ok w ∧
      Workflow.workflow_apply c w = (w', Ok es) ∧ r = applied es w' ∧ s' = with_database d' s ∧
      workflow_written id key {| persisted_events := es; persisted_state := w' |} (database s) d' ∧
      candidate_tables d' = candidate_tables (database s))).
Proof.
  intros Hrun. unfold apply_workflow_command, upsert_workflow in Hrun. inv_store.
  destruct (delivery_reserved id (database s)) eqn:Hres; inv_store.
  match goal with H : recorded_result _ _ _ _ = _ |- _ =>
    apply recorded_result_ok in H as [-> Hrec] end.
  split_and!; [done..|]. case_match; inv_store.
  - left. eauto 10.
  - right. match goal with H : (let '(_, _) := ?x in _) _ = _ |- _ => destruct x as [w' es] end.
    inv_store.
    match goal with H : insert_events _ _ _ _ _ = _, H' : insert_result _ _ _ _ ?p _ = _ |- _ =>
      destruct (answer_added_intro _ _ _ _ p (database s) _ _ _ _ _ H H' eq_refl eq_refl)
        as (?&Hw&?&?&?&?&?&?) end.
    simpl in *. do 4 eexists. split_and!; try done. split_and!; try done. eauto.
Qed.

Lemma recorded_result_some kind id key json d :
  answer_of kind id d key json → recorded_result kind id key d = (d, Ok (Some json)).
Proof. intros. by apply recorded_result_ok. Qed.

(** The same key again gives the recorded answer, whatever the command. *)
Lemma apply_workflow_command_repeats id key c t s json p :
  mode s = ReadWrite → key ≠ "" ∧ (str_len key ≤ 256)%N →
  delivery_reserved id (database s) = false →
  answer_of WorkflowAggregate id (database s) key json → json_decode json = Some p →
  apply_workflow_command id key c t s = (s, Ok (repeated p)).
Proof.
  intros Hm Hk Hr Ha Hp. unfold apply_workflow_command.
  rewrite (method_bind_run _ _ s s tt) by by apply require_writable_ok.
  rewrite (method_bind_run _ _ s s tt) by by apply m_lift_ok; rewrite validate_idempotency_key_ok.
  unfold transaction. rewrite (method_bind_run _ _ _ _ _ (proj2 (select_ok _ _ _ _) (conj eq_refl eq_refl))).
  rewrite Hr, (method_bind_run _ _ _ _ _ (recorded_result_some _ _ _ _ _ Ha)).
  unfold decode. by rewrite Hp.
Qed.

(** While a delivery of its candidate is under way the workflow takes no command. *)
Lemma apply_workflow_command_reserved id key c t s :
  mode s = ReadWrite → key ≠ "" ∧ (str_len key ≤ 256)%N →
  delivery_reserved id (database s) = true →
  apply_workflow_command id key c t s = (s, Err DeliveryInProgress).
Proof.
  intros Hm Hk Hr. unfold apply_workflow_command.
  rewrite (method_bind_run _ _ s s tt) by by apply require_writable_ok.
  rewrite (method_bind_run _ _ s s tt) by by apply m_lift_ok; rewrite validate_idempotency_key_ok.
  unfold transaction. rewrite (method_bind_run _ _ _ _ _ (proj2 (select_ok _ _ _ _) (conj eq_refl eq_refl))).
  by rewrite Hr.
Qed.

Lemma apply_workflow_command_key id key c t s s' r :
  apply_workflow_command id key c t s = (s', Ok r) → key ≠ "" ∧ (str_len key ≤ 256)%N.
Proof.
  intros (s1&[]&_&Hrest)%method_bind_ok. apply method_bind_ok in Hrest as (s2&[]&Hkey&_).
  apply m_lift_ok in Hkey as [_ Hkey]. by apply validate_idempotency_key_ok in Hkey.
Qed.

Lemma apply_workflow_command_atomic id key c t : atomic (apply_workflow_command id key c t).
Proof. unfold apply_workflow_command. solve_atomic. Qed.

Lemma load_workflow_current id s :
  load_workflow id s = match workflows (workflow_tables (database s)) !! id with
    | Some _ => w ← current_workflow id (database s); Ok (Some w) | None => Ok None end.
Proof. unfold load_workflow, current_workflow. by destruct (_ !! id). Qed.
End workflow_commands.

Section task_commands.
Context `{Rfc3339, Persist Task.Task, Persist Task.TaskEvent,
  Persist (PersistedResult Task.TaskEvent Task.Task)}.

Definition current_task (id : TaskId) (d : Database) : result StoreError Task.Task :=
  from_option (λ row, decode (task_json row)) (Ok Task.task_new) (tasks (workflow_tables d) !! id).

Definition task_written (workflow_id : WorkflowId) (id : TaskId) (key : string)
    (p : PersistedResult Task.TaskEvent Task.Task) (d d' : Database) : Prop :=
  answer_added TaskAggregate id key p d d' ∧ others_same d d' ∧
  workflows (workflow_tables d') = workflows (workflow_tables d) ∧
  candidate_tables d' = candidate_tables d ∧
  is_Some (workflows (workflow_tables d) !! workflow_id) ∧
  ∃ json updated, json_encode (persisted_state p) = Some json ∧
    tasks (workflow_tables d') =
      <[id := {| task_workflow := workflow_id; task_json := json; task_updated := updated |}]>
        (tasks (workflow_tables d)).

(** Every task's workflow has a row. *)
Definition tasks_owned (d : Database) : Prop :=
  map_Forall (λ _ row, is_Some (workflows (workflow_tables d) !! task_workflow row))
    (tasks (workflow_tables d)).

Lemma upsert_task_ok id workflow_id json updated d d' u :
  from_option (λ row, negb (bool_decide (task_workflow row = workflow_id))) false
    (tasks (workflow_tables d) !! id) = false →
  tasks_owned d →
  upsert_task id workflow_id json updated d = (d', Ok u) →
  is_Some (workflows (workflow_tables d) !! workflow_id) ∧
  d' = set_tasks (<[id := {| task_workflow := workflow_id; task_json := json;
                             task_updated := updated |}]> (tasks (workflow_tables d))) d.
Proof.
  intros Hown Hok Hrun. unfold upsert_task in Hrun. inv_store. case_match; inv_store; simpl in *.
  - to_prop. subst. split; [|done]. by eapply Hok.
  - to_prop. done.
Qed.

Lemma apply_task_command_ok workflow_id id key c t s s' r :
  tasks_owned (database s) →
  apply_task_command workflow_id id key c t s = (s', Ok r) →
  mode s = ReadWrite ∧
  ((∃ json p, answer_of TaskAggregate id (database s) key json ∧ json_decode json = Some p ∧
      r = repeated p ∧ s' = s) ∨
   (∃ w w' es d', command_deduplication (workflow_tables (database s)) !! key = None ∧
      current_task id (database s) = Ok w ∧
      Task.task_apply c w = (w', Ok es) ∧ r = applied es w' ∧ s' = with_database d' s ∧
      task_written workflow_id id key {| persisted_events := es; persisted_state := w' |}
        (database s) d')).
Proof.
  intros Hown Hrun. unfold apply_task_command in Hrun. inv_store.
  match goal with H : recorded_result _ _ _ _ = _ |- _ =>
    apply recorded_result_ok in H as [-> Hrec] end.
  split; [done|]. case_match; inv_store.
  - left. eauto 10.
  - right. destruct (from_option _ false _) eqn:Howner; inv_store.
    match goal with H : (let '(_, _) := ?x in _) _ = _ |- _ => destruct x as [w' es] end.
    inv_store.
    match goal with H : upsert_task _ _ _ _ _ = _ |- _ =>
      apply upsert_task_ok in H as [? ->]; [|done..] end.
    match goal with H : insert_events _ _ _ _ _ = _, H' : insert_result _ _ _ _ ?p _ = _ |- _ =>
      destruct (answer_added_intro _ _ _ _ p (database s) _ _ _ _ _ H H' eq_refl eq_refl)
        as (?&Hw&?&?&?&?&?&?) end.
    simpl in *. do 4 eexists. split_and!; try done. split_and!; try done. eauto.
Qed.

Lemma apply_task_command_atomic workflow_id id key c t :
  atomic (apply_task_command workflow_id id key c t).
Proof. unfold apply_task_command. solve_atomic. Qed.
End task_commands.
End Commands.
