(* ===== verification/StoreLeases.v ===== *)
(** Persisted leases (workflow-store/src/leases.rs): one row per task, taken,
    renewed and released in transactions of their own. *)
From S2P Require Import Prelude Text Ids Canonical WorkflowMachine TaskMachine Goals Verdicts.
From S2P Require Import Redaction Ledger Database.

Module Leases.
Export Store.
Local Open Scope Z_scope.

Inductive LeaseAcquisition : Type :=
| Acquired (lease : Lease.Lease)
| Occupied (lease : Lease.Lease)
| ManualReviewRequired (lease : Lease.Lease).

#[export] Instance LeaseReconciliation_eq_dec : EqDecision Lease.LeaseReconciliation.
Proof. solve_decision. Defined.

Section leases.
Context `{Persist Lease.Lease}.

Definition leases_of (d : Database) : gmap TaskId LeaseRow := leases (workflow_tables d).

(** [SELECT ... FROM leases WHERE lease_id = ?1]. *)
Definition row_of_lease (lease_id : LeaseId) (d : Database) : option (TaskId * LeaseRow) :=
  head (filter (λ '(_, row), row_lease_id row = lease_id) (map_to_list (leases_of d))).

(** [UPDATE leases SET status = 'uncertain' ... WHERE task_id = ?1]. *)
Definition mark_uncertain (task_id : TaskId) (now_unix_millis : Z) : Statement unit :=
  m_modify (λ d, set_leases (alter (λ row,
    {| row_lease_id := row_lease_id row; lease_json := lease_json row;
       lease_status := LeaseUncertain; lease_expires := lease_expires row;
       lease_updated := now_unix_millis |}) task_id (leases_of d)) d).

(** [INSERT INTO leases ... ON CONFLICT(task_id) DO UPDATE]: a lease's
    identifier is in one row, and a new row needs its task's. *)
Definition upsert_lease (task_id : TaskId) (row : LeaseRow) : Statement unit :=
  d ← m_get;
  _ ← constraint (bool_decide (is_Some (tasks (workflow_tables d) !! task_id)));
  _ ← constraint (bool_decide (map_Forall (λ other r,
        row_lease_id r = row_lease_id row → other = task_id) (leases_of d)));
  m_modify (set_leases (<[task_id := row]> (leases_of d))).

(** [acquire_lease]; [new_id] is the identifier [Lease::acquire] draws. *)
Definition acquire_lease (new_id : LeaseId) (task_id : TaskId) (owner : SessionId)
    (now_unix_millis duration_millis : Z) (safety : Lease.ActionSafety)
    : method Store StoreError LeaseAcquisition :=
  _ ← require_writable;
  transaction (
    let take : Statement (Closing LeaseAcquisition) :=
      lease ← m_lift (map_err LeaseFailure
        (Lease.lease_acquire new_id task_id owner now_unix_millis duration_millis safety));
      json ← encode lease;
      _ ← upsert_lease task_id
        {| row_lease_id := Lease.lease_id lease; lease_json := json; lease_status := LeaseActive;
           lease_expires := Lease.expires_at_unix_millis lease; lease_updated := now_unix_millis |};
      mret (Commit (Acquired lease)) in
    current ← select (λ d, leases_of d !! task_id);
    match current with
    | Some row =>
        lease ← m_lift (decode (lease_json row));
        if bool_decide (lease_status row = LeaseUncertain)
           || bool_decide (Lease.lease_reconcile lease now_unix_millis = Lease.ManualReviewRequired)
        then
          _ ← mark_uncertain task_id now_unix_millis;
          mret (Commit (ManualReviewRequired lease))
        else if bool_decide (Lease.lease_reconcile lease now_unix_millis = Lease.Active)
        then mret (Rollback (Occupied lease))
        else take
    | None => take
    end).

Definition heartbeat_lease (lease_id : LeaseId) (now_unix_millis duration_millis : Z)
    : method Store StoreError Lease.Lease :=
  _ ← require_writable;
  transaction (
    current ← select (row_of_lease lease_id);
    '(task_id, row) ← m_lift (ok_or LeaseNotFound
      ('(task_id, row) ← current;
       if bool_decide (lease_status row = LeaseActive) then Some (task_id, row) else None));
    lease ← m_lift (decode (lease_json row));
    '(lease, _) ← m_lift (apply_to LeaseFailure
      (Lease.lease_heartbeat now_unix_millis duration_millis) lease);
    json ← encode lease;
    _ ← m_modify (λ d, set_leases (<[task_id :=
          {| row_lease_id := row_lease_id row; lease_json := json; lease_status := lease_status row;
             lease_expires := Lease.expires_at_unix_millis lease;
             lease_updated := now_unix_millis |}]> (leases_of d)) d);
    mret (Commit lease)).

Definition release_lease (lease_id : LeaseId) : method Store StoreError bool :=
  _ ← require_writable;
  autocommit (
    found ← select (row_of_lease lease_id);
    match found with
    | Some (task_id, _) =>
        _ ← m_modify (λ d, set_leases (delete task_id (leases_of d)) d);
        mret true
    | None => mret false
    end).

(** * Lemmas *)

(** The lease a row holds. *)
Definition row_holds (task_id : TaskId) (row : LeaseRow) (l : Lease.Lease) : Prop :=
  json_decode (lease_json row) = Some l ∧ Lease.lease_id l = row_lease_id row ∧
  Lease.task_id l = task_id ∧ Lease.expires_at_unix_millis l = lease_expires row.
Definition holds (task_id : TaskId) (l : Lease.Lease) (d : Database) : Prop :=
  ∃ row, leases_of d !! task_id = Some row ∧ row_holds task_id row l.

(** What the rows keep: each is the lease of its task, no lease is in two rows
    and every task has its row. *)
Record leases_ok (d : Database) : Prop := {
  lo_row t row : leases_of d !! t = Some row → ∃ l, row_holds t row l;
  lo_unique t t' row row' : leases_of d !! t = Some row → leases_of d !! t' = Some row' →
    row_lease_id row = row_lease_id row' → t = t';
  lo_task t : is_Some (leases_of d !! t) → is_Some (tasks (workflow_tables d) !! t);
}.

Lemma row_of_lease_some id d t row :
  row_of_lease id d = Some (t, row) → leases_of d !! t = Some row ∧ row_lease_id row = id.
Proof.
  intros [Hid Hin]%head_Some_elem_of%list_elem_of_filter. by apply elem_of_map_to_list in Hin.
Qed.
Lemma row_of_lease_none id d t row :
  row_of_lease id d = None → leases_of d !! t = Some row → row_lease_id row ≠ id.
Proof.
  unfold row_of_lease. intros Hnone Hrow Hid. apply head_None in Hnone.
  assert ((t, row) ∈ filter (λ '(_, row), row_lease_id row = id) (map_to_list (leases_of d))) as Hin.
  { apply list_elem_of_filter. split; [done|]. by apply elem_of_map_to_list. }
  rewrite Hnone in Hin. by apply elem_of_nil in Hin.
Qed.

(** The outcomes of an acquisition. *)
Definition acquisition (new_id : LeaseId) (t : TaskId) (owner : SessionId) (now duration : Z)
    (safety : Lease.ActionSafety) (r : LeaseAcquisition) (d d' : Database) : Prop :=
  match r with
  | Acquired l =>
      Lease.lease_acquire new_id t owner now duration safety = Ok l ∧
      is_Some (tasks (workflow_tables d) !! t) ∧
      (∀ other row, leases_of d !! other = Some row → row_lease_id row = new_id → other = t) ∧
      (∀ row, leases_of d !! t = Some row → lease_status row = LeaseActive ∧
         ∃ held, json_decode (lease_json row) = Some held ∧
           Lease.lease_reconcile held now = Lease.Replayable) ∧
      ∃ json, json_encode l = Some json ∧
        d' = set_leases (<[t := {| row_lease_id := new_id; lease_json := json;
                                   lease_status := LeaseActive;
                                   lease_expires := Lease.expires_at_unix_millis l;
                                   lease_updated := now |}]> (leases_of d)) d
  | Occupied l =>
      d' = d ∧ ∃ row, leases_of d !! t = Some row ∧ lease_status row = LeaseActive ∧
        json_decode (lease_json row) = Some l ∧ Lease.lease_reconcile l now = Lease.Active
  | ManualReviewRequired l =>
      ∃ row, leases_of d !! t = Some row ∧ json_decode (lease_json row) = Some l ∧
        (lease_status row = LeaseUncertain ∨
         Lease.lease_reconcile l now = Lease.ManualReviewRequired) ∧
        d' = set_leases (<[t := {| row_lease_id := row_lease_id row; lease_json := lease_json row;
                                   lease_status := LeaseUncertain;
                                   lease_expires := lease_expires row;
                                   lease_updated := now |}]> (leases_of d)) d
  end.

Lemma lease_acquire_fields new_id t owner now duration safety l :
  Lease.lease_acquire new_id t owner now duration safety = Ok l →
  Lease.lease_id l = new_id ∧ Lease.task_id l = t ∧ Lease.owner l = owner ∧
  Lease.safety l = safety ∧ Lease.expires_at_unix_millis l = now + duration.
Proof.
  unfold Lease.lease_acquire. case_match; [done|].
  rewrite result_bind_ok. intros (e&[-> _]%ok_or_ok%i64_checked_add_some&[= <-]). done.
Qed.

Lemma alter_some {A} (f : A → A) (m : gmap uuid A) t x :
  m !! t = Some x → alter f t m = <[t := f x]> m.
Proof.
  intros Hx. apply map_eq. intros j. destruct (decide (t = j)) as [<-|].
  - by rewrite lookup_alter_eq, lookup_insert_eq, Hx.
  - by rewrite lookup_alter_ne, lookup_insert_ne.
Qed.

Lemma acquire_lease_ok new_id t owner now duration safety s s' r :
  acquire_lease new_id t owner now duration safety s = (s', Ok r) →
  mode s = ReadWrite ∧ ∃ d', s' = with_database d' s ∧
    acquisition new_id t owner now duration safety r (database s) d'.
Proof.
  intros Hrun. unfold acquire_lease, upsert_lease, mark_uncertain in Hrun. inv_store.
  assert (with_database (database s) s = s) as Hsame by by destruct s.
  split; [done|]. case_match; inv_store; [case_match; inv_store; [|case_match; inv_store]|].
  - eexists. split; [done|]. eexists. split_and!; [done|done| |by erewrite alter_some].
    match goal with H : _ || _ = true |- _ => apply orb_true_iff in H as [?|?]; to_prop; eauto end.
  - exists (database s). split; [done|]. to_prop. split; [done|].
    eexists. split_and!; [done| |done|done]. by destruct (lease_status _).
  - to_prop. destruct (lease_acquire_fields _ _ _ _ _ _ _ H7) as (Hid&_). rewrite Hid in *.
    eexists. split; [done|]. split_and!; [done..| |by eexists]. intros row Hrow. simplify_eq.
    split; [by destruct (lease_status _)|]. eexists. split; [done|].
    by destruct (Lease.lease_reconcile _ _).
  - to_prop. destruct (lease_acquire_fields _ _ _ _ _ _ _ H4) as (Hid&_). rewrite Hid in *.
    eexists. split; [done|]. split_and!; [done..| |by eexists]. intros row Hrow. simplify_eq.
Qed.

Lemma acquire_lease_atomic new_id t owner now duration safety :
  atomic (acquire_lease new_id t owner now duration safety).
Proof. unfold acquire_lease. solve_atomic. Qed.

(** An assignment to a task's row keeps the rows well formed when no other task's
    row has the lease. *)
Lemma leases_ok_insert t row l d :
  leases_ok d → row_holds t row l → is_Some (tasks (workflow_tables d) !! t) →
  (∀ other r, leases_of d !! other = Some r → row_lease_id r = row_lease_id row → other = t) →
  leases_ok (set_leases (<[t := row]> (leases_of d)) d).
Proof.
  intros [Hrow Huniq Htask] Hl Ht Hfresh. unfold leases_of in *. split; unfold leases_of; simpl.
  - intros t' row' [[<- <-]|[? ?]]%lookup_insert_Some; [by exists l|by eapply Hrow].
  - intros t1 t2 r1 r2 [[<- <-]|[? ?]]%lookup_insert_Some [[<- <-]|[? ?]]%lookup_insert_Some Heq.
    + done.
    + symmetry. by eapply Hfresh.
    + by eapply Hfresh.
    + by eapply Huniq.
  - intros t' [row' [[<- _]|[_ ?]]%lookup_insert_Some]; [done|]. apply Htask. by eexists.
Qed.

Lemma acquisition_keeps new_id t owner now duration safety r d d' :
  json_faithful Lease.Lease → leases_ok d →
  acquisition new_id t owner now duration safety r d d' → leases_ok d'.
Proof.
  intros Hjson Hok Hacq. pose proof Hok as [Hrow Huniq Htask]. destruct r as [l|l|l]; simpl in Hacq.
  - destruct Hacq as (Hl&Ht&Hfresh&_&json&Hj&->).
    destruct (lease_acquire_fields _ _ _ _ _ _ _ Hl) as (?&?&_).
    apply (leases_ok_insert _ _ l); [done| |done|done]. split_and!; try done. by apply Hjson.
  - by destruct Hacq as [-> _].
  - destruct Hacq as (row&Hr&Hd&_&->). destruct (Hrow _ _ Hr) as (l'&?).
    apply (leases_ok_insert _ _ l'); [done|done|by eapply Htask|]. simpl. intros. by eapply Huniq.
Qed.

Lemma heartbeat_lease_ok id now duration s s' l' :
  heartbeat_lease id now duration s = (s', Ok l') →
  mode s = ReadWrite ∧ ∃ t row l json,
    leases_of (database s) !! t = Some row ∧ row_lease_id row = id ∧
    lease_status row = LeaseActive ∧ json_decode (lease_json row) = Some l ∧
    Lease.lease_heartbeat now duration l = (l', Ok tt) ∧ json_encode l' = Some json ∧
    s' = with_database (set_leases (<[t :=
      {| row_lease_id := row_lease_id row; lease_json := json; lease_status := LeaseActive;
         lease_expires := Lease.expires_at_unix_millis l'; lease_updated := now |}]>
      (leases_of (database s))) (database s)) s.
Proof.
  intros Hrun. unfold heartbeat_lease in Hrun. inv_store. split; [done|].
  repeat (match goal with H : (let '(_, _) := ?x in _) _ = _ |- _ => destruct x end; inv_store).
  match goal with H : _ ≫= _ = Some (_, _) |- _ =>
    apply bind_Some in H as ([t row]&[? ?]%row_of_lease_some&Hst) end.
  case_bool_decide as Hact; [|done]. simplify_eq.
  match goal with u : () |- _ => destruct u end.
  match goal with H : Lease.lease_heartbeat _ _ _ = (_, Ok ?u) |- _ => destruct u end.
  rewrite Hact. eauto 15.
Qed.

Lemma heartbeat_lease_atomic id now duration : atomic (heartbeat_lease id now duration).
Proof. unfold heartbeat_lease. solve_atomic. Qed.

Lemma release_lease_ok id s s' b :
  release_lease id s = (s', Ok b) →
  mode s = ReadWrite ∧
  if b then ∃ t row, leases_of (database s) !! t = Some row ∧ row_lease_id row = id ∧
              s' = with_database (set_leases (delete t (leases_of (database s))) (database s)) s
  else s' = s ∧ ∀ t row, leases_of (database s) !! t = Some row → row_lease_id row ≠ id.
Proof.
  intros Hrun. unfold release_lease in Hrun. inv_store. split; [done|].
  case_match; [case_match|]; inv_store.
  - match goal with H : row_of_lease _ _ = _ |- _ => apply row_of_lease_some in H as [? ?] end. eauto.
  - split; [by destruct s|]. intros t row. by apply row_of_lease_none.
Qed.
Lemma release_lease_atomic id : atomic (release_lease id).
Proof. unfold release_lease. solve_atomic. Qed.

(** * What a held lease is kept through *)

(** The same lease, perhaps renewed. *)
Definition same_lease (l l' : Lease.Lease) : Prop :=
  Lease.lease_id l' = Lease.lease_id l ∧ Lease.owner l' = Lease.owner l ∧
  Lease.safety l' = Lease.safety l.

Lemma acquisition_held new_id t owner now duration safety r d d' t' l :
  leases_ok d → holds t' l d → acquisition new_id t owner now duration safety r d d' →
  match r with
  | Acquired _ => if bool_decide (t = t')
      then Lease.safety l = Lease.Idempotent ∧ Lease.expires_at_unix_millis l < now
      else holds t' l d'
  | _ => holds t' l d'
  end.
Proof.
  intros Hok (row&Hrow&Hl) Hacq. destruct r as [x|x|x]; simpl in Hacq.
  - destruct Hacq as (Hx&Ht&Hfresh&Hrep&json&Hj&->). case_bool_decide as Heq.
    + subst. destruct (Hrep row Hrow) as (_&held&Hheld&Hre). destruct Hl as [Hl _]. simplify_eq.
      unfold Lease.lease_reconcile in Hre. case_match; to_prop; [done|]. by case_match.
    + exists row. split; [|done]. unfold leases_of; simpl. by rewrite lookup_insert_ne.
  - destruct Hacq as [-> _]. by exists row.
  - destruct Hacq as (row'&Hr&Hd&_&->). unfold holds, leases_of; simpl.
    destruct (decide (t = t')) as [<-|].
    + rewrite lookup_insert_eq. eexists. split; [done|]. unfold leases_of in *. by simplify_eq.
    + rewrite lookup_insert_ne by done. by exists row.
Qed.

Lemma heartbeat_keeps id now duration s s' l' :
  json_faithful Lease.Lease → leases_ok (database s) →
  heartbeat_lease id now duration s = (s', Ok l') → leases_ok (database s') ∧
  ∀ t l, holds t l (database s) → ∃ l1, holds t l1 (database s') ∧ same_lease l l1.
Proof.
  intros Hjson Hok (_&t&row&l0&json&Hrow&<-&Hst&Hl0&Hbeat&Hj&->)%heartbeat_lease_ok.
  apply Lease.lease_heartbeat_ok in Hbeat as (_&_&_&->). simpl.
  destruct (lo_row _ Hok _ _ Hrow) as (l1&Hl1&Hid&Ht&Hexp). assert (l1 = l0) as -> by congruence.
  set (row' := {| row_lease_id := row_lease_id row |}).
  assert (row_holds t row' (Lease.set_expires (now + duration) l0)) as Hnew.
  { split_and!; try done. by apply Hjson. }
  split.
  - eapply leases_ok_insert; [done|exact Hnew|apply (lo_task _ Hok); by eexists|].
    simpl. intros other r Hr Heq. by eapply (lo_unique _ Hok).
  - intros t' l (r&Hr&Hl). unfold holds, leases_of in *; simpl. destruct (decide (t = t')) as [->|].
    + assert (l = l0) as -> by (destruct Hl; congruence). exists (Lease.set_expires (now + duration) l0). split; [|done].
      exists row'. by rewrite lookup_insert_eq.
    + exists l. split; [|done]. exists r. by rewrite lookup_insert_ne.
Qed.

Lemma release_keeps id s s' b :
  leases_ok (database s) → release_lease id s = (s', Ok b) → leases_ok (database s').
Proof.
  intros Hok [_ Hrel]%release_lease_ok. destruct b; [|by destruct Hrel as [-> _]].
  destruct Hrel as (t'&row'&Hrow'&<-&->). destruct Hok as [Hrow Huniq Htask].
  split; unfold leases_of in *; simpl.
  - intros t1 r1 [_ ?]%lookup_delete_Some. by eapply Hrow.
  - intros t1 t2 r1 r2 [_ ?]%lookup_delete_Some [_ ?]%lookup_delete_Some. by eapply Huniq.
  - intros t1 [r1 [_ ?]%lookup_delete_Some]. apply Htask. by eexists.
Qed.

Lemma release_held id s s' b t l :
  leases_ok (database s) → holds t l (database s) → Lease.lease_id l ≠ id →
  release_lease id s = (s', Ok b) → holds t l (database s').
Proof.
  intros Hok (row&Hrow&Hl) Hne [_ Hrel]%release_lease_ok. destruct b.
  - destruct Hrel as (t'&row'&Hrow'&<-&->). exists row. split; [|done].
    unfold leases_of in *; simpl. apply lookup_delete_Some. split; [|done].
    intros ->. simplify_eq. destruct Hl as (_&?&_). congruence.
  - destruct Hrel as [-> _]. by exists row.
Qed.

(** What the operations on leases leave alone, and what the rows depend on. *)
Definition rest_of_leases (d : Database) :=
  (workflows (workflow_tables d), tasks (workflow_tables d), events (workflow_tables d),
   command_deduplication (workflow_tables d), plan_tables d, candidate_tables d, goal_tables d,
   ledger_tables d).
Lemma acquire_lease_frame new_id t owner now duration safety :
  preserves (on_database (same rest_of_leases)) (acquire_lease new_id t owner now duration safety).
Proof. unfold acquire_lease, upsert_lease, mark_uncertain. solve_frame. Qed.
Lemma heartbeat_lease_frame id now duration :
  preserves (on_database (same rest_of_leases)) (heartbeat_lease id now duration).
Proof. unfold heartbeat_lease. solve_frame. Qed.
Lemma release_lease_frame id : preserves (on_database (same rest_of_leases)) (release_lease id).
Proof. unfold release_lease. solve_frame. Qed.

Lemma leases_ok_mono d d' :
  leases_of d' = leases_of d →
  (∀ t, is_Some (tasks (workflow_tables d) !! t) → is_Some (tasks (workflow_tables d') !! t)) →
  leases_ok d → leases_ok d'.
Proof.
  intros Hl Ht [Hr Hu Htask]. split; rewrite ?Hl; [done|done|]. intros t Hs. by apply Ht, Htask.
Qed.
End leases.
End Leases.
