(* ===== verification/StoreCandidates.v ===== *)
(** Candidates, their byte-exact payloads and the reservations of their delivery
    (workflow-store/src/candidates.rs and the delivery of workflows.rs).

    The lengths SQLite sums are numbers without a bound here; the columns that
    hold the text of a digest or an identifier hold the value. *)
From S2P Require Import Prelude Text Ids Paths Canonical WorkflowMachine TaskMachine Goals Verdicts.
From S2P Require Import Candidates Redaction Ledger Database StoreCommands.

Module Payloads.
Export Commands.
Local Open Scope N_scope.

Definition MAX_CANDIDATE_PAYLOAD_BYTES : N := 128 * 1024 * 1024.

Record CandidateFilePayload : Type := {
  payload_content : string; payload_executable : bool; payload_path : string;
}.
#[export] Instance CandidateFilePayload_eq_dec : EqDecision CandidateFilePayload.
Proof. solve_decision. Defined.

(** [CandidateFilePayload::new] and [with_executable]. *)
Definition payload_new (path content : string) : CandidateFilePayload :=
  {| payload_content := content; payload_executable := false; payload_path := path |}.
Definition payload_with_executable (path content : string) (executable : bool)
    : CandidateFilePayload :=
  {| payload_content := content; payload_executable := executable; payload_path := path |}.

Record StoredCandidate : Type := {
  stored_diff : string;
  exact_files : option (list CandidateFilePayload);
  stored_manifest : Candidate.CandidateManifest;
  stored_workflow : WorkflowId;
}.

Definition require_exact_files (c : StoredCandidate) : result StoreError (list CandidateFilePayload) :=
  ok_or MissingCandidatePayload (exact_files c).

(** The order of [sort_unstable_by(|left, right| left.path.cmp(&right.path))]. *)
Definition payload_le (f g : CandidateFilePayload) : Prop := key_le (payload_path f) (payload_path g).
#[export] Instance payload_le_dec : RelDecision payload_le :=
  λ f g, key_le_dec (payload_path f) (payload_path g).

(** [expected], whose digests a validated manifest has ([expect]). *)
Definition expect_file (acc : gmap string (ContentDigest * bool)) (f : Candidate.CandidateFile)
    : result StoreError (gmap string (ContentDigest * bool)) :=
  if Candidate.is_deleted (Candidate.kind f) then Ok acc
  else d ← ok_or Panicked (Candidate.file_digest f);
       Ok (<[Candidate.path f := (d, Candidate.executable f)]> acc).
Definition expected_files (m : Candidate.CandidateManifest)
    : result StoreError (gmap string (ContentDigest * bool)) :=
  try_fold expect_file ∅ (Candidate.files m).

(** A manifest is written field by field and read through its check
    ([#[serde(try_from = "CandidateManifestUnchecked")]]). *)
#[export] Instance manifest_persist `{Persist Candidate.CandidateManifestUnchecked}
    : Persist Candidate.CandidateManifest := {|
  json_encode m := json_encode (Candidate.candidate_unchecked m);
  json_decode s := u ← json_decode s;
    match Candidate.candidate_try_from u with Ok m => Some m | Err _ => None end;
|}.

Section candidates.
Context `{Sha256, Rfc3339, ToJson (list (string * string * bool)),
  Persist Candidate.CandidateManifestUnchecked}.

(** [observed], whose paths differ. *)
Definition observe_file (acc : gmap string (ContentDigest * bool)) (f : CandidateFilePayload)
    : result StoreError (gmap string (ContentDigest * bool)) :=
  match acc !! payload_path f with
  | Some _ => Err InvalidCandidatePayload
  | None => Ok (<[payload_path f := (digest_of (payload_content f), payload_executable f)]> acc)
  end.
Definition observed_files (files : list CandidateFilePayload)
    : result StoreError (gmap string (ContentDigest * bool)) :=
  try_fold observe_file ∅ files.

Definition validate_diff (m : Candidate.CandidateManifest) (exact_diff : string)
    : result StoreError unit :=
  if bool_decide (digest_of exact_diff = Candidate.diff_digest m) then Ok tt
  else Err InvalidCandidatePayload.

(** The total of the lengths, [None] past [usize]. *)
Definition payload_bytes (exact_diff_bytes : N) (files : list CandidateFilePayload) : option N :=
  foldl (λ total f, total ← total; checked_add u64_max total (str_len (payload_content f)))
    (Some exact_diff_bytes) files.

Definition payload_entries (files : list CandidateFilePayload) : list (string * string * bool) :=
  (λ f, (payload_path f, digest_to_string (digest_of (payload_content f)), payload_executable f))
    <$> files.

Definition validated_payload (m : Candidate.CandidateManifest) (exact_diff_bytes : N)
    (files : list CandidateFilePayload) : result StoreError (list CandidateFilePayload) :=
  if from_option (λ total, MAX_CANDIDATE_PAYLOAD_BYTES <? total) true
       (payload_bytes exact_diff_bytes files)
  then Err InvalidCandidatePayload else
  let normalized := merge_sort payload_le files in
  payload_digest ← ok_or Serialization (json_digest (payload_entries normalized));
  if negb (bool_decide (Candidate.delivery_payload_digest m = Some payload_digest))
  then Err InvalidCandidatePayload else
  expected ← expected_files m;
  observed ← observed_files files;
  if negb (bool_decide (observed = expected)) then Err InvalidCandidatePayload
  else Ok normalized.

(** * Rows *)

Definition candidate_rows (d : Database) : gmap CandidateId CandidateRow :=
  workflow_candidates (candidate_tables d).
Definition reservations (d : Database) : gmap CandidateId ReservationRow :=
  candidate_delivery_reservations (candidate_tables d).

(** The files of a candidate, by path. *)
Definition file_rows (id : CandidateId) (d : Database) : gmap string CandidateFileRow :=
  map_fold (λ '(owner, path) row acc, if decide (owner = id) then <[path := row]> acc else acc)
    ∅ (workflow_candidate_files (candidate_tables d)).

(** [sum(length(content))] of a candidate's files. *)
Definition file_bytes (id : CandidateId) (d : Database) : N :=
  foldr (λ '(_, row) total, str_len (file_content row) + total) 0 (btree_iter (file_rows id d)).

Definition load_payload (id : CandidateId) (d : Database)
    : result StoreError (list CandidateFilePayload) :=
  if MAX_CANDIDATE_PAYLOAD_BYTES <? file_bytes id d then Err InvalidCandidatePayload
  else Ok ((λ '(path, row), payload_with_executable path (file_content row) (file_executable row))
             <$> btree_iter (file_rows id d)).

(** * Saving and loading *)

Definition insert_candidate (id : CandidateId) (row : CandidateRow) : Statement unit :=
  d ← m_get;
  _ ← constraint (bool_decide (is_Some (workflows (workflow_tables d) !! candidate_workflow row)));
  _ ← constraint (bool_decide (candidate_rows d !! id = None));
  m_modify (set_workflow_candidates (<[id := row]> (candidate_rows d))).

Definition insert_file (id : CandidateId) (f : CandidateFilePayload) : Statement unit :=
  d ← m_get;
  let rows := workflow_candidate_files (candidate_tables d) in
  _ ← constraint (bool_decide (is_Some (candidate_rows d !! id)));
  _ ← constraint (bool_decide (rows !! (id, payload_path f) = None));
  m_modify (set_workflow_candidate_files
    (<[(id, payload_path f) := {| file_content := payload_content f;
                                  file_executable := payload_executable f |}]> rows)).

Definition save_candidate_once (workflow_id : WorkflowId) (m : Candidate.CandidateManifest)
    (exact_diff : string) (files : list CandidateFilePayload) (timestamp : WorkflowTimestamp)
    : method Store StoreError bool :=
  _ ← require_writable;
  _ ← m_lift (validate_diff m exact_diff);
  files ← m_lift (validated_payload m (str_len exact_diff) files);
  json ← m_lift (ok_or Serialization (json_encode m));
  let id := Candidate.candidate_id m in
  transaction (
    current ← select (λ d, candidate_rows d !! id);
    match current with
    | Some row =>
        if negb (payload_complete row) then m_throw MissingCandidatePayload else
        d ← m_get;
        current_files ← m_lift (load_payload id d);
        if negb (bool_decide (candidate_workflow row = workflow_id))
           || negb (bool_decide (manifest_json row = json))
           || negb (bool_decide (exact_diff_column row = exact_diff))
           || negb (bool_decide (current_files = files))
        then m_throw AggregateConflict
        else mret (Rollback true)
    | None =>
        digest ← or_panic (Candidate.candidate_digest m);
        created ← time_text timestamp;
        _ ← insert_candidate id
          {| candidate_workflow := workflow_id; manifest_digest := digest; manifest_json := json;
             exact_diff_column := exact_diff; candidate_created := created;
             payload_complete := true |};
        _ ← m_for_each (insert_file id) files;
        mret (Commit false)
    end).

Definition load_candidate (id : CandidateId) (s : Store)
    : result StoreError (option StoredCandidate) :=
  let d := database s in
  match candidate_rows d !! id with
  | None => Ok None
  | Some row =>
      _ ← reject_if (MAX_CANDIDATE_PAYLOAD_BYTES <? str_len (exact_diff_column row) + file_bytes id d)
            InvalidCandidatePayload;
      m ← decode (manifest_json row);
      _ ← validate_diff m (exact_diff_column row);
      files ← (if payload_complete row then
                 loaded ← load_payload id d;
                 files ← validated_payload m (str_len (exact_diff_column row)) loaded;
                 Ok (Some files)
               else Ok None);
      Ok (Some {| stored_diff := exact_diff_column row; exact_files := files;
                  stored_manifest := m; stored_workflow := candidate_workflow row |})
  end.

Definition latest_candidate (workflow_id : WorkflowId) (d : Database)
    : option (CandidateId * CandidateRow) :=
  latest candidate_created
    (filter (λ '(_, row), candidate_workflow row = workflow_id) (map_to_list (candidate_rows d))).
Definition load_latest_candidate_for_workflow (workflow_id : WorkflowId) (s : Store)
    : result StoreError (option StoredCandidate) :=
  match latest_candidate workflow_id (database s) with
  | Some (id, _) => load_candidate id s
  | None => Ok None
  end.
End candidates.

(** * Delivery reservations *)

(** [UPDATE] and [DELETE] on a connection that is only read fail. *)
Definition writable_connection : method Store StoreError unit :=
  s ← m_get; m_lift (reject_if (negb (bool_decide (mode s = ReadWrite))) Sqlite).

Section deliveries.
Context `{Rfc3339}.

(** [INSERT ... ON CONFLICT(candidate_id) DO NOTHING], with whether a row was
    inserted: a new row needs its candidate's and its workflow's, and a workflow
    has one reservation. *)
Definition insert_reservation (id : CandidateId) (row : ReservationRow) : Statement bool :=
  d ← m_get;
  match reservations d !! id with
  | Some _ => mret false
  | None =>
      _ ← constraint (bool_decide (is_Some (candidate_rows d !! id)));
      _ ← constraint (bool_decide (is_Some (workflows (workflow_tables d) !! reservation_workflow row)));
      _ ← constraint (negb (delivery_reserved (reservation_workflow row) d));
      _ ← m_modify (set_candidate_delivery_reservations (<[id := row]> (reservations d)));
      mret true
  end.

Definition reserve_candidate_delivery (workflow_id : WorkflowId) (candidate_id : CandidateId)
    (candidate_digest : ContentDigest) (timestamp : WorkflowTimestamp)
    : method Store StoreError bool :=
  _ ← require_writable;
  inserted ← autocommit (
    started ← time_text timestamp;
    insert_reservation candidate_id
      {| reservation_workflow := workflow_id; reservation_digest := candidate_digest;
         journal_digest := None; reservation_started := started |});
  if inserted : bool then mret false else
  row ← autocommit (row ← select (λ d, reservations d !! candidate_id); one_row row);
  if bool_decide (reservation_workflow row = workflow_id)
     && bool_decide (reservation_digest row = candidate_digest)
  then mret true else m_throw AggregateConflict.

Definition release_candidate_delivery (workflow_id : WorkflowId) (candidate_id : CandidateId)
    (candidate_digest : ContentDigest) : method Store StoreError unit :=
  _ ← require_writable;
  autocommit (
    d ← m_get;
    match reservations d !! candidate_id with
    | Some row =>
        if bool_decide (reservation_workflow row = workflow_id)
           && bool_decide (reservation_digest row = candidate_digest)
        then m_modify (set_candidate_delivery_reservations (delete candidate_id (reservations d)))
        else m_throw AggregateConflict
    | None => m_throw AggregateConflict
    end).

Definition bind_candidate_delivery_journal (workflow_id : WorkflowId) (candidate_id : CandidateId)
    (candidate_digest : ContentDigest) (expected_journal_digest : option ContentDigest)
    (journal : ContentDigest) : method Store StoreError unit :=
  _ ← writable_connection;
  autocommit (
    d ← m_get;
    match reservations d !! candidate_id with
    | Some row =>
        if bool_decide (reservation_workflow row = workflow_id)
           && bool_decide (reservation_digest row = candidate_digest)
           && bool_decide (journal_digest row = expected_journal_digest)
        then m_modify (set_candidate_delivery_reservations
               (<[candidate_id :=
                  {| reservation_workflow := reservation_workflow row;
                     reservation_digest := reservation_digest row; journal_digest := Some journal;
                     reservation_started := reservation_started row |}]> (reservations d)))
        else m_throw AggregateConflict
    | None => m_throw AggregateConflict
    end).

Definition workflow_delivery_reserved (workflow_id : WorkflowId) (s : Store) : bool :=
  delivery_reserved workflow_id (database s).

Definition candidate_delivery_journal_digest (workflow_id : WorkflowId) (candidate_id : CandidateId)
    (s : Store) : option ContentDigest :=
  row ← reservations (database s) !! candidate_id;
  if bool_decide (reservation_workflow row = workflow_id) then journal_digest row else None.
End deliveries.

(** * Delivery *)

Section delivery.
Context `{Rfc3339, Persist Workflow.Workflow, Persist Workflow.WorkflowEvent,
  Persist (PersistedResult Workflow.WorkflowEvent Workflow.Workflow)}.

Definition deliver_reserved_candidate (workflow_id : WorkflowId) (candidate_id : CandidateId)
    (candidate_digest journal : ContentDigest) (idempotency_key : string)
    (timestamp : WorkflowTimestamp) : method Store StoreError WorkflowApplyResult :=
  _ ← require_writable;
  _ ← m_lift (validate_idempotency_key idempotency_key);
  transaction (
    reservation ← select (λ d, reservations d !! candidate_id);
    (* a journal that is not bound reads as NULL, which is no text *)
    row_texts ← m_lift (match reservation with
      | Some row => match journal_digest row with
          | Some j => Ok (Some (reservation_workflow row, reservation_digest row, j))
          | None => Err Sqlite end
      | None => Ok None end);
    if negb (bool_decide (row_texts = Some (workflow_id, candidate_digest, journal)))
    then m_throw AggregateConflict else
    current ← select (λ d, workflows (workflow_tables d) !! workflow_id);
    row ← one_row current;
    state ← m_lift (decode (workflow_json row));
    '(state, events) ← m_lift (apply_to Transition (Workflow.workflow_apply Workflow.Deliver) state);
    created ← time_text timestamp;
    state_json ← encode state;
    _ ← upsert_workflow workflow_id state_json created;
    _ ← insert_events WorkflowAggregate workflow_id created events;
    _ ← insert_result WorkflowAggregate workflow_id idempotency_key created
          {| persisted_events := events; persisted_state := state |};
    _ ← m_modify (λ d, set_candidate_delivery_reservations (delete candidate_id (reservations d)) d);
    mret (Commit (applied events state))).
End delivery.

(** * The payload checks *)

(** The files a delivery must hold: those the manifest does not delete. *)
Definition delivers (m : Candidate.CandidateManifest) (p : string) (d : ContentDigest) (x : bool) : Prop :=
  ∃ f, f ∈ Candidate.files m ∧ Candidate.is_deleted (Candidate.kind f) = false ∧
    Candidate.path f = p ∧ Candidate.file_digest f = Some d ∧ Candidate.executable f = x.

Lemma expect_files_lookup fs acc e :
  NoDup (Candidate.path <$> fs) → (∀ f, f ∈ fs → acc !! Candidate.path f = None) →
  try_fold expect_file acc fs = Ok e →
  ∀ p d x, e !! p = Some (d, x) ↔ acc !! p = Some (d, x) ∨
    ∃ f, f ∈ fs ∧ Candidate.is_deleted (Candidate.kind f) = false ∧
      Candidate.path f = p ∧ Candidate.file_digest f = Some d ∧ Candidate.executable f = x.
Proof.
  revert acc. induction fs as [|f fs IH]; intros acc Hnd Hacc; simpl.
  { intros [= ->] p d x. split; [by left|]. intros [?|(f&?%elem_of_nil&_)]; done. }
  apply NoDup_cons in Hnd as [Hf Hnd].
  assert (Candidate.path f ∉ Candidate.path <$> fs → ∀ g, g ∈ fs → Candidate.path f ≠ Candidate.path g)
    as Hne. { intros Hnot g Hg Heq. apply Hnot. rewrite Heq. by apply list_elem_of_fmap_2. }
  destruct (expect_file acc f) as [acc'|err] eqn:Hx; [|done]. intros He p d x.
  unfold expect_file in Hx. destruct (Candidate.is_deleted (Candidate.kind f)) eqn:Hdel.
  - simplify_eq. rewrite (IH acc'); [|done|intros g Hg; apply Hacc; by right|done].
    setoid_rewrite elem_of_cons. split; [naive_solver|].
    intros [?|(g&[->|?]&?&?)]; [by left|congruence|naive_solver].
  - apply result_bind_ok in Hx as (df&Hd%ok_or_ok&[= <-]).
    rewrite (IH (<[Candidate.path f := (df, Candidate.executable f)]> acc) Hnd); [|intros g Hg|done].
    + rewrite lookup_insert_Some. setoid_rewrite elem_of_cons. split.
      * intros [[[<- [= <- <-]]|[? ?]]|?]; [right; exists f; auto 10|by left|naive_solver].
      * intros [Ha|(g&[->|Hg]&?&<-&?&<-)].
        -- left. right. split; [|done]. intros <-. rewrite Hacc in Ha; [done|by left].
        -- left. left. split; [done|congruence].
        -- right. by exists g.
    + rewrite lookup_insert_ne; [apply Hacc; by right|by apply Hne].
Qed.

Lemma expected_files_lookup m e :
  NoDup (Candidate.path <$> Candidate.files m) → expected_files m = Ok e →
  ∀ p d x, e !! p = Some (d, x) ↔ delivers m p d x.
Proof.
  intros Hnd He p d x. rewrite (expect_files_lookup _ _ _ Hnd (λ f _, lookup_empty _) He).
  rewrite lookup_empty. unfold delivers. naive_solver.
Qed.

#[export] Instance payload_le_total : Total payload_le.
Proof. intros f g. apply (total key_le). Qed.
#[export] Instance payload_le_trans : Transitive payload_le.
Proof. intros f g h. unfold payload_le. apply transitivity. Qed.

Section payload_lemmas.
Context `{Sha256, Rfc3339, ToJson (list (string * string * bool)),
  Persist Candidate.CandidateManifestUnchecked}.

Definition observed_value (f : CandidateFilePayload) : ContentDigest * bool :=
  (digest_of (payload_content f), payload_executable f).

Lemma observed_files_ok files o :
  observed_files files = Ok o ↔
  NoDup (payload_path <$> files) ∧ o = observed_value <$> index_by payload_path ∅ files.
Proof.
  set (f := λ (m : gmap string CandidateFilePayload) x, match m !! payload_path x with
    | Some _ => Err InvalidCandidatePayload | None => Ok (<[payload_path x := x]> m) end).
  assert (observed_files files = match try_fold f ∅ files with
    Ok m => Ok (observed_value <$> m) | Err e => Err e end) as ->.
  { unfold observed_files. rewrite <-(fmap_empty observed_value) at 1.
    apply (try_fold_image (λ m : gmap string CandidateFilePayload, observed_value <$> m)).
    intros m x. unfold observe_file, f. rewrite lookup_fmap.
    destruct (m !! payload_path x); simpl; [done|]. by rewrite fmap_insert. }
  pose proof (try_fold_index payload_path f (λ _, True)) as Hidx.
  assert (∀ m, try_fold f ∅ files = Ok m ↔
    NoDup (payload_path <$> files) ∧ m = index_by payload_path ∅ files) as Hok.
  { intros m. rewrite Hidx.
    - split; [by intros (?&_&_&?)|]. intros [? ?]. split_and!; [done|apply Forall_forall; intros x _; apply lookup_empty
        |by apply Forall_forall|done].
    - intros m0 x m'. unfold f. destruct (m0 !! _); naive_solver. }
  destruct (try_fold f ∅ files) as [m|e].
  - destruct (proj1 (Hok m) eq_refl) as [? ->]. naive_solver.
  - split; [done|]. intros [Hnd _]. by pose proof (proj2 (Hok _) (conj Hnd eq_refl)).
Qed.

Lemma observed_files_lookup files o p d x :
  observed_files files = Ok o → o !! p = Some (d, x) ↔
  ∃ f, f ∈ files ∧ payload_path f = p ∧ digest_of (payload_content f) = d ∧ payload_executable f = x.
Proof.
  intros [Hnd ->]%observed_files_ok. rewrite lookup_fmap, fmap_Some. unfold observed_value. split.
  - intros (f&[? ?]%index_by_lookup&[= -> ->]); [eauto|done].
  - intros (f&Hf&<-&<-&<-). exists f. split; [|done]. by apply index_by_lookup.
Qed.

Definition content_bytes (files : list CandidateFilePayload) : N :=
  foldr (λ f total, str_len (payload_content f) + total) 0 files.

(** What the checks of a payload against its manifest come to. *)
Record exact_payload (m : Candidate.CandidateManifest) (diff_bytes : N)
    (files : list CandidateFilePayload) : Prop := {
  ep_paths : NoDup (payload_path <$> files);
  ep_files p d x : delivers m p d x ↔ ∃ f, f ∈ files ∧ payload_path f = p ∧
    digest_of (payload_content f) = d ∧ payload_executable f = x;
  ep_digest : Candidate.delivery_payload_digest m =
    json_digest (payload_entries (merge_sort payload_le files));
  ep_size : diff_bytes + content_bytes files
    ≤ MAX_CANDIDATE_PAYLOAD_BYTES;
}.

Lemma payload_bytes_none files :
  foldl (λ total f, total ← total; checked_add u64_max total (str_len (payload_content f)))
    None files = None.
Proof. by induction files. Qed.

Lemma payload_bytes_small n files :
  from_option (λ total, MAX_CANDIDATE_PAYLOAD_BYTES <? total) true (payload_bytes n files) = false ↔
  n + content_bytes files ≤ MAX_CANDIDATE_PAYLOAD_BYTES.
Proof.
  unfold payload_bytes. revert n. induction files as [|f files IH]; intros n; simpl.
  { rewrite N.add_0_r, N.ltb_ge. done. }
  destruct (checked_add u64_max n (str_len (payload_content f))) as [t|] eqn:Ht.
  - apply checked_add_some in Ht as [-> _]. rewrite IH, N.add_assoc. done.
  - apply checked_add_none in Ht. rewrite payload_bytes_none. simpl. split; [done|].
    assert (MAX_CANDIDATE_PAYLOAD_BYTES < u64_max) by done. lia.
Qed.

Lemma validated_payload_iff m n files r :
  validated_payload m n files = Ok r ↔
  n + content_bytes files ≤ MAX_CANDIDATE_PAYLOAD_BYTES ∧
  (∃ pd, json_digest (payload_entries (merge_sort payload_le files)) = Some pd ∧
     Candidate.delivery_payload_digest m = Some pd) ∧
  (∃ e, expected_files m = Ok e ∧ observed_files files = Ok e) ∧
  r = merge_sort payload_le files.
Proof.
  rewrite <-payload_bytes_small. unfold validated_payload.
  destruct (from_option _ true _); [by split; [|intros [? _]]|]. rewrite result_bind_ok. split.
  - intros (pd&Hpd%ok_or_ok&Hv). case_bool_decide; [|done]. simpl in Hv.
    apply result_bind_ok in Hv as (e&He&(o&Ho&Hv)%result_bind_ok).
    case_bool_decide; [|done]. simplify_eq/=. split_and!; [done| | |done]; eauto.
  - intros (_&(pd&Hpd&Hd)&(e&He&Ho)&->). exists pd. split; [by apply ok_or_ok|].
    rewrite bool_decide_true by done. simpl. rewrite He. simpl. rewrite Ho. simpl.
    by rewrite bool_decide_true.
Qed.

Lemma validated_payload_ok m n files r :
  NoDup (Candidate.path <$> Candidate.files m) →
  validated_payload m n files = Ok r → exact_payload m n files ∧ r = merge_sort payload_le files.
Proof.
  intros Hnd (?&(pd&?&?)&(e&He&Ho)&->)%validated_payload_iff. split; [|done]. split; [| |congruence|done].
  - by apply observed_files_ok in Ho as [? _].
  - intros p d x. rewrite <-(expected_files_lookup m e Hnd He). by apply observed_files_lookup.
Qed.

Lemma observed_files_perm files files' o :
  files ≡ₚ files' → observed_files files = Ok o → observed_files files' = Ok o.
Proof.
  intros Hp [Hnd ->]%observed_files_ok. apply observed_files_ok.
  assert (NoDup (payload_path <$> files')) by by rewrite <-Hp. split; [done|]. f_equal.
  apply map_eq. intros k. apply option_eq. intros x. rewrite !index_by_lookup by done. by rewrite Hp.
Qed.

Lemma content_bytes_perm files files' : files ≡ₚ files' → content_bytes files = content_bytes files'.
Proof. unfold content_bytes. induction 1; simpl; lia. Qed.

Lemma sort_payload_perm files files' :
  NoDup (payload_path <$> files) → files ≡ₚ files' →
  merge_sort payload_le files = merge_sort payload_le files'.
Proof.
  intros Hnd Hp. apply (sorted_by_key_unique payload_path); [|by rewrite !merge_sort_Permutation
    |apply (StronglySorted_merge_sort payload_le)..]. by rewrite merge_sort_Permutation.
Qed.

(** The order the files come in does not matter. *)
Lemma validated_payload_perm m n files files' r :
  files ≡ₚ files' → validated_payload m n files = Ok r → validated_payload m n files' = Ok r.
Proof.
  intros Hp (?&?&(e&He&Ho)&->)%validated_payload_iff. apply validated_payload_iff.
  pose proof (proj1 (observed_files_ok _ _) Ho) as [Hnd _].
  rewrite <-(content_bytes_perm files files'), <-(sort_payload_perm files files') by done.
  split_and!; try done. exists e. split; [done|]. by eapply observed_files_perm.
Qed.

(** * Rows of files *)

Lemma file_rows_lookup id d p :
  file_rows id d !! p = workflow_candidate_files (candidate_tables d) !! (id, p).
Proof.
  unfold file_rows. generalize (workflow_candidate_files (candidate_tables d)). intros m.
  apply (map_fold_weak_ind (λ r m, r !! p = m !! (id, p))); [by rewrite !lookup_empty|].
  intros [o q] row m' r Hnone IH. case_decide as Ho.
  - subst. destruct (decide (q = p)) as [->|].
    + by rewrite !lookup_insert_eq.
    + rewrite !lookup_insert_ne by congruence. done.
  - rewrite lookup_insert_ne by congruence. done.
Qed.

(** The rows of a list of files. *)
Definition file_row (f : CandidateFilePayload) : string * CandidateFileRow :=
  (payload_path f, {| file_content := payload_content f; file_executable := payload_executable f |}).
Lemma insert_file_ok id f d d' u :
  insert_file id f d = (d', Ok u) ↔
  is_Some (candidate_rows d !! id) ∧ workflow_candidate_files (candidate_tables d) !! (id, payload_path f) = None ∧
  d' = set_workflow_candidate_files (<[(id, payload_path f) := (file_row f).2]>
         (workflow_candidate_files (candidate_tables d))) d.
Proof.
  destruct u. unfold insert_file. split.
  - intros Hrun. inv_store. to_prop. done.
  - intros (Hc&Hn&->). run_method. unfold constraint. rewrite !bool_decide_true by done. done.
Qed.

Lemma insert_files_ok id files d d' u :
  m_for_each (insert_file id) files d = (d', Ok u) →
  d' = set_workflow_candidate_files (workflow_candidate_files (candidate_tables d')) d ∧
  (∀ o p, o ≠ id → workflow_candidate_files (candidate_tables d') !! (o, p) =
                   workflow_candidate_files (candidate_tables d) !! (o, p)) ∧
  (∀ p r, workflow_candidate_files (candidate_tables d') !! (id, p) = Some r ↔
     (p, r) ∈ file_row <$> files ∨
     workflow_candidate_files (candidate_tables d) !! (id, p) = Some r).
Proof.
  revert d. induction files as [|f files IH]; intros d; simpl.
  { intros [-> _]%method_ret_ok. split_and!; [by destruct d as [? ? []]|done|]. intros p r.
    rewrite elem_of_nil. naive_solver. }
  intros (d1&v&(_&Hnone&->)%insert_file_ok&Hrun)%method_bind_ok.
  apply IH in Hrun as (Hd&Ho&Hp). simpl in *. split_and!.
  - rewrite Hd. simpl. done.
  - intros o p Hne. rewrite Ho by done. by rewrite lookup_insert_ne by congruence.
  - intros p r. rewrite Hp, lookup_insert_Some, elem_of_cons. destruct f as [c x q]. unfold file_row. simpl in *.
    split.
    + intros [?|[[[= ->] <-]|[_ ?]]]; auto.
    + intros [[[= -> ->]|?]|Hr]; [by right; left|by left|]. right. right. split; [|done].
      intros [= ->]. congruence.
Qed.

(** The files of a candidate as they are read. *)
Definition files_of (id : CandidateId) (d : Database) : list CandidateFilePayload :=
  (λ '(path, row), payload_with_executable path (file_content row) (file_executable row))
    <$> btree_iter (file_rows id d).

Lemma content_bytes_files id d : content_bytes (files_of id d) = file_bytes id d.
Proof.
  unfold content_bytes, files_of, file_bytes.
  induction (btree_iter (file_rows id d)) as [|[p row] l IH]; [done|].
  rewrite fmap_cons. simpl. f_equal. exact IH.
Qed.

Lemma load_payload_ok id d files :
  load_payload id d = Ok files ↔ file_bytes id d ≤ MAX_CANDIDATE_PAYLOAD_BYTES ∧ files = files_of id d.
Proof.
  unfold load_payload, files_of. destruct (_ <? _) eqn:Hs; to_prop; split; try done; try lia.
  - by intros [= <-].
  - by intros [_ ->].
Qed.

Lemma files_of_sorted id d :
  NoDup (payload_path <$> files_of id d) ∧ StronglySorted payload_le (files_of id d).
Proof.
  unfold files_of. rewrite <-list_fmap_compose. split.
  - replace (_ <$> btree_iter (file_rows id d)) with (btree_keys (file_rows id d)).
    + apply NoDup_btree_keys.
    + unfold btree_keys. apply list_fmap_ext. by intros _ [p row] _.
  - induction (btree_iter_sorted (file_rows id d)) as [|p l Hl IH Hp]; simpl; [constructor|].
    constructor; [done|]. apply Forall_fmap. eapply Forall_impl; [exact Hp|].
    intros [q row] Hq. by destruct p.
Qed.

Lemma elem_of_files_of id d f :
  f ∈ files_of id d ↔ file_rows id d !! payload_path f = Some (file_row f).2.
Proof.
  unfold files_of. rewrite list_elem_of_fmap. split.
  - intros ([p row]&->&Hin%elem_of_btree_iter). simpl. rewrite Hin. by destruct row.
  - intros Hf. exists (file_row f). split; [by destruct f|]. by apply elem_of_btree_iter.
Qed.

(** What was inserted is what is read, in the order of the paths. *)
Lemma files_of_inserted id files d d' u :
  (∀ p, workflow_candidate_files (candidate_tables d) !! (id, p) = None) →
  NoDup (payload_path <$> files) → StronglySorted payload_le files →
  m_for_each (insert_file id) files d = (d', Ok u) → files_of id d' = files.
Proof.
  intros Hnone Hnd Hs (_&_&Hp)%insert_files_ok. destruct (files_of_sorted id d') as [Hnd' Hs'].
  apply (sorted_by_key_unique payload_path); [done| |done|done].
  apply NoDup_Permutation; [by eapply NoDup_fmap_1|by eapply NoDup_fmap_1|].
  intros f. rewrite elem_of_files_of, file_rows_lookup, Hp, Hnone, list_elem_of_fmap. split.
  - intros [(g&Hg&Hin)|?]; [|done]. unfold file_row in Hg. destruct f, g; simpl in *. by simplify_eq.
  - intros Hin. left. exists f. split; [|done]. by destruct f.
Qed.

(** * Saving *)

(** What the rows of candidates keep. *)
Record candidates_ok (d : Database) : Prop := {
  co_row id row : candidate_rows d !! id = Some row →
    payload_complete row = true ∧
    is_Some (workflows (workflow_tables d) !! candidate_workflow row) ∧
    ∃ m, json_decode (manifest_json row) = Some m ∧ Candidate.candidate_id m = id ∧
      validate_diff m (exact_diff_column row) = Ok tt ∧
      Candidate.candidate_digest m = Some (manifest_digest row) ∧
      validated_payload m (str_len (exact_diff_column row)) (files_of id d) = Ok (files_of id d);
  co_files id p : is_Some (workflow_candidate_files (candidate_tables d) !! (id, p)) →
    is_Some (candidate_rows d !! id);
}.

Lemma insert_candidate_ok id row d d' u :
  insert_candidate id row d = (d', Ok u) ↔
  is_Some (workflows (workflow_tables d) !! candidate_workflow row) ∧ candidate_rows d !! id = None ∧
  d' = set_workflow_candidates (<[id := row]> (candidate_rows d)) d.
Proof.
  destruct u. unfold insert_candidate. split.
  - intros Hrun. inv_store. to_prop. done.
  - intros (Hc&Hn&->). run_method. unfold constraint. by rewrite !bool_decide_true by done.
Qed.

(** The row of a saved candidate. *)
Definition candidate_saved (workflow_id : WorkflowId) (m : Candidate.CandidateManifest)
    (exact_diff : string) (files : list CandidateFilePayload) (d : Database) : Prop :=
  ∃ row, candidate_rows d !! Candidate.candidate_id m = Some row ∧
    candidate_workflow row = workflow_id ∧
    json_encode m = Some (manifest_json row) ∧ exact_diff_column row = exact_diff ∧
    payload_complete row = true ∧ files_of (Candidate.candidate_id m) d = files.

Lemma save_candidate_once_ok workflow_id m exact_diff files t s s' b :
  save_candidate_once workflow_id m exact_diff files t s = (s', Ok b) →
  mode s = ReadWrite ∧ validate_diff m exact_diff = Ok tt ∧
  ∃ norm json, validated_payload m (str_len exact_diff) files = Ok norm ∧ json_encode m = Some json ∧
  if b then s' = s ∧ candidate_saved workflow_id m exact_diff norm (database s)
  else ∃ digest created d', candidate_rows (database s) !! Candidate.candidate_id m = None ∧
    Candidate.candidate_digest m = Some digest ∧
    is_Some (workflows (workflow_tables (database s)) !! workflow_id) ∧
    s' = with_database d' s ∧
    m_for_each (insert_file (Candidate.candidate_id m)) norm
      (set_workflow_candidates (<[Candidate.candidate_id m :=
        {| candidate_workflow := workflow_id; manifest_digest := digest; manifest_json := json;
           exact_diff_column := exact_diff; candidate_created := created;
           payload_complete := true |}]> (candidate_rows (database s))) (database s)) = (d', Ok tt).
Proof.
  intros Hrun. unfold save_candidate_once in Hrun. inv_store.
  split; [done|]. match goal with u : () |- _ => destruct u end.
  split; [done|]. do 2 eexists. split; [done|]. split; [done|].
  destruct (candidate_rows (database s) !! Candidate.candidate_id m) as [row|] eqn:Hrow; inv_store.
  - case_match eqn:Hc; inv_store. case_match eqn:Hsame; inv_store. simpl. split; [done|].
    match goal with H : load_payload _ _ = Ok _ |- _ => apply load_payload_ok in H as [_ ->] end.
    apply orb_false_iff in Hsame as [Hsame ?]. to_prop.
    exists row. split_and!; try done; congruence.
  - match goal with H : insert_candidate _ _ _ = _ |- _ => apply insert_candidate_ok in H as (?&?&->) end.
    match goal with H : m_for_each _ _ _ = (_, Ok ?u) |- _ => destruct u end.
    simpl in *. do 3 eexists. split_and!; try done.
Qed.

Lemma file_rows_ext id d d' :
  (∀ p, workflow_candidate_files (candidate_tables d') !! (id, p) =
        workflow_candidate_files (candidate_tables d) !! (id, p)) →
  files_of id d' = files_of id d.
Proof.
  intros Heq. unfold files_of. do 2 f_equal. apply map_eq. intros p. by rewrite !file_rows_lookup.
Qed.

Lemma manifest_json_faithful m json :
  json_faithful Candidate.CandidateManifestUnchecked → Candidate.loadable m →
  json_encode m = Some json → json_decode json = Some m.
Proof. intros Hj Hm Hjson%Hj. simpl. rewrite Hjson. simpl. by rewrite Hm. Qed.

(** A saved candidate leaves the others, and its files are the ones read. *)
Lemma save_candidate_once_new workflow_id m exact_diff files t s s' :
  candidates_ok (database s) →
  save_candidate_once workflow_id m exact_diff files t s = (s', Ok false) →
  let d := database s in let d' := database s' in let id := Candidate.candidate_id m in
  candidate_rows d !! id = None ∧
  (∃ row, candidate_rows d' = <[id := row]> (candidate_rows d)) ∧
  candidate_saved workflow_id m exact_diff (merge_sort payload_le files) d' ∧
  (∀ o p, o ≠ id → workflow_candidate_files (candidate_tables d') !! (o, p) =
                   workflow_candidate_files (candidate_tables d) !! (o, p)) ∧
  workflow_tables d' = workflow_tables d ∧ plan_tables d' = plan_tables d ∧
  goal_tables d' = goal_tables d ∧ ledger_tables d' = ledger_tables d ∧
  reservations d' = reservations d ∧
  (json_faithful Candidate.CandidateManifestUnchecked → Candidate.loadable m → candidates_ok d').
Proof.
  intros Hok (Hmode&Hdiff&norm&json&Hv&Hjson&digest&created&d1&Hnone&Hdig&Hw&->&Hfiles)
    %save_candidate_once_ok. simpl.
  pose proof (proj1 (validated_payload_iff _ _ _ _) Hv) as (_&_&(e&_&Ho)&Hnorm).
  apply observed_files_ok in Ho as [Hnd _].
  assert (∀ p, workflow_candidate_files (candidate_tables (database s)) !! (Candidate.candidate_id m, p) = None)
    as Hfresh. { intros p. apply eq_None_not_Some. intros [? ?]%(co_files _ Hok). congruence. }
  assert (files_of (Candidate.candidate_id m) d1 = merge_sort payload_le files) as Hof.
  { rewrite <-Hnorm. eapply files_of_inserted; [|by rewrite Hnorm, merge_sort_Permutation| |exact Hfiles].
    - exact Hfresh.
    - rewrite Hnorm. apply (StronglySorted_merge_sort payload_le). }
  apply insert_files_ok in Hfiles as (Hd&Hother&Hthis).
  assert (candidate_rows d1 = <[Candidate.candidate_id m := {| candidate_workflow := workflow_id;
    manifest_digest := digest; manifest_json := json; exact_diff_column := exact_diff;
    candidate_created := created; payload_complete := true |}]> (candidate_rows (database s)))
    as Hrows by by rewrite Hd.
  assert (∀ o, o ≠ Candidate.candidate_id m → files_of o d1 = files_of o (database s)) as Hsame.
  { intros o Hne. apply file_rows_ext. intros p. by apply Hother. }
  split_and!; try done; try (by rewrite Hd); try (by eexists).
  - eexists. rewrite Hrows, lookup_insert_eq. split; [done|]. simpl. done.
  - intros Hfaith Hload. split.
    + intros id row. rewrite Hrows. intros [[<- <-]|[? Hrow]]%lookup_insert_Some; simpl.
      * split; [done|]. split; [by rewrite Hd|]. exists m. split_and!; try done.
        -- by apply manifest_json_faithful.
        -- rewrite Hof, <-Hnorm. eapply validated_payload_perm; [|exact Hv].
           by rewrite Hnorm, merge_sort_Permutation.
      * destruct (co_row _ Hok _ _ Hrow) as (?&Hwf&m'&?). split; [done|].
        split; [by rewrite Hd|]. exists m'. by rewrite (Hsame id) by congruence.
    + intros id p. rewrite Hrows. destruct (decide (id = Candidate.candidate_id m)) as [->|].
      * rewrite lookup_insert_eq. by eexists.
      * rewrite lookup_insert_ne by done. rewrite Hother by done. apply (co_files _ Hok).
Qed.

(** A saved candidate loads as it was saved. *)
Lemma candidate_saved_loads workflow_id m exact_diff files s :
  json_faithful Candidate.CandidateManifestUnchecked → Candidate.loadable m →
  candidates_ok (database s) → candidate_saved workflow_id m exact_diff files (database s) →
  load_candidate (Candidate.candidate_id m) s =
    Ok (Some {| stored_diff := exact_diff; exact_files := Some files; stored_manifest := m;
                stored_workflow := workflow_id |}).
Proof.
  intros Hj Hm Hok (row&Hrow&<-&Hjson&<-&Hc&<-). unfold load_candidate. rewrite Hrow.
  destruct (co_row _ Hok _ _ Hrow) as (_&_&m'&Hdec&_&Hdiff&_&Hv).
  assert (m' = m) as ->. { apply manifest_json_faithful in Hjson; [congruence|done..]. }
  pose proof (proj1 (validated_payload_iff _ _ _ _) Hv) as (Hsize&_&_&_).
  rewrite content_bytes_files in Hsize.
  unfold reject_if. rewrite (proj2 (N.ltb_ge _ _) Hsize). cbn [mbind result_bind].
  unfold decode. rewrite Hdec. cbn [mbind result_bind ok_or]. rewrite Hdiff, Hc.
  cbn [mbind result_bind].
  assert (load_payload (Candidate.candidate_id m) (database s) =
    Ok (files_of (Candidate.candidate_id m) (database s))) as ->.
  { apply load_payload_ok. split; [lia|done]. }
  cbn [mbind result_bind]. rewrite Hv. done.
Qed.

(** What any load of a candidate answers for, whatever the rows hold. *)
Lemma load_candidate_ok id s c :
  load_candidate id s = Ok (Some c) →
  digest_of (stored_diff c) = Candidate.diff_digest (stored_manifest c) ∧
  ∀ files, exact_files c = Some files →
    exact_payload (stored_manifest c) (str_len (stored_diff c)) files.
Proof.
  unfold load_candidate. destruct (candidate_rows (database s) !! id) as [row|]; [|done].
  rewrite result_bind_ok. intros (?&_&(m&Hm%decode_ok&Hc)%result_bind_ok).
  apply result_bind_ok in Hc as (u&Hdiff&(fs&Hfs&[= <-])%result_bind_ok). simpl.
  split. { unfold validate_diff in Hdiff. by case_bool_decide. }
  intros files ->. destruct (payload_complete row); [|done].
  apply result_bind_ok in Hfs as (l&_&(fs&Hv&[= ->])%result_bind_ok).
  simpl in Hm. apply bind_Some in Hm as (um&_&Hm). case_match eqn:Hfrom; [|done]. simplify_eq.
  assert (files = merge_sort payload_le l) as Hfiles by by apply validated_payload_iff in Hv as (_&_&_&->).
  apply (validated_payload_perm _ _ _ files) in Hv; [|by rewrite Hfiles, merge_sort_Permutation].
  apply validated_payload_ok in Hv as [? _]; [done|].
  by eapply Candidate.candidate_try_from_files.
Qed.

Lemma load_candidate_row id s c :
  candidates_ok (database s) → load_candidate id s = Ok (Some c) →
  ∃ row, candidate_rows (database s) !! id = Some row ∧ candidate_workflow row = stored_workflow c ∧
    Candidate.candidate_digest (stored_manifest c) = Some (manifest_digest row).
Proof.
  intros Hok. unfold load_candidate.
  destruct (candidate_rows (database s) !! id) as [row|] eqn:Hrow; [|done].
  destruct (co_row _ Hok _ _ Hrow) as (_&_&m'&Hm'&_&_&Hdig&_).
  rewrite result_bind_ok. intros (?&_&(m&Hm%decode_ok&Hc)%result_bind_ok).
  apply result_bind_ok in Hc as (u&Hdiff&(fs&Hfs&[= <-])%result_bind_ok). simpl.
  exists row. split_and!; [done|done|]. congruence.
Qed.

Lemma save_candidate_once_atomic workflow_id m exact_diff files t :
  atomic (save_candidate_once workflow_id m exact_diff files t).
Proof. unfold save_candidate_once. solve_atomic. Qed.
End payload_lemmas.

(** * Reservations *)

Record reservations_ok (d : Database) : Prop := {
  ro_unique c c' r r' : reservations d !! c = Some r → reservations d !! c' = Some r' →
    reservation_workflow r = reservation_workflow r' → c = c';
  ro_rows c r : reservations d !! c = Some r →
    is_Some (candidate_rows d !! c) ∧ is_Some (workflows (workflow_tables d) !! reservation_workflow r);
}.

Lemma delivery_reserved_true w d :
  delivery_reserved w d = true ↔ ∃ c r, reservations d !! c = Some r ∧ reservation_workflow r = w.
Proof. unfold delivery_reserved. rewrite bool_decide_eq_true. done. Qed.

Lemma writable_connection_ok s s' u : writable_connection s = (s', Ok u) ↔ s' = s ∧ mode s = ReadWrite.
Proof.
  unfold writable_connection. run_method. destruct u. case_bool_decide; simpl; naive_solver.
Qed.

Section reservation_lemmas.
Context `{Rfc3339}.

Lemma reserve_candidate_delivery_ok w c dg t s s' b :
  reserve_candidate_delivery w c dg t s = (s', Ok b) →
  mode s = ReadWrite ∧
  if b then s' = s ∧ ∃ row, reservations (database s) !! c = Some row ∧
              reservation_workflow row = w ∧ reservation_digest row = dg
  else reservations (database s) !! c = None ∧ delivery_reserved w (database s) = false ∧
    is_Some (candidate_rows (database s) !! c) ∧
    is_Some (workflows (workflow_tables (database s)) !! w) ∧ ∃ started,
    s' = with_database (set_candidate_delivery_reservations (<[c :=
      {| reservation_workflow := w; reservation_digest := dg; journal_digest := None;
         reservation_started := started |}]> (reservations (database s))) (database s)) s.
Proof.
  intros Hrun. unfold reserve_candidate_delivery, insert_reservation in Hrun. inv_store.
  split; [done|]. destruct (reservations (database s) !! c) as [row|] eqn:Hrow; inv_store.
  - case_match eqn:Hsame; inv_store. to_prop. split; [by destruct s|]. simpl in *. simplify_eq. eauto.
  - to_prop. eauto 10.
Qed.

Lemma release_candidate_delivery_ok w c dg s s' u :
  release_candidate_delivery w c dg s = (s', Ok u) →
  mode s = ReadWrite ∧ ∃ row, reservations (database s) !! c = Some row ∧
    reservation_workflow row = w ∧ reservation_digest row = dg ∧
    s' = with_database (set_candidate_delivery_reservations
           (delete c (reservations (database s))) (database s)) s.
Proof.
  intros Hrun. unfold release_candidate_delivery in Hrun. inv_store. split; [done|].
  case_match; inv_store. case_match eqn:Hsame; inv_store. to_prop. eauto.
Qed.

Lemma bind_candidate_delivery_journal_ok w c dg expected j s s' u :
  bind_candidate_delivery_journal w c dg expected j s = (s', Ok u) →
  mode s = ReadWrite ∧ ∃ row, reservations (database s) !! c = Some row ∧
    reservation_workflow row = w ∧ reservation_digest row = dg ∧ journal_digest row = expected ∧
    s' = with_database (set_candidate_delivery_reservations (<[c :=
      {| reservation_workflow := w; reservation_digest := dg; journal_digest := Some j;
         reservation_started := reservation_started row |}]> (reservations (database s)))
      (database s)) s.
Proof.
  intros Hrun. unfold bind_candidate_delivery_journal in Hrun.
  apply method_bind_ok in Hrun as (s1&v&[-> Hm]%writable_connection_ok&Hrun). inv_store.
  split; [done|]. case_match; inv_store. case_match eqn:Hsame; inv_store.
  apply andb_true_iff in Hsame as [Hsame ?]. to_prop. subst. eauto 10.
Qed.

Lemma reservations_ok_insert c row d :
  reservations_ok d →
  (∀ c' r, reservations d !! c' = Some r → reservation_workflow r = reservation_workflow row → c' = c) →
  is_Some (candidate_rows d !! c) → is_Some (workflows (workflow_tables d) !! reservation_workflow row) →
  reservations_ok (set_candidate_delivery_reservations (<[c := row]> (reservations d)) d).
Proof.
  intros [Hu Hr] Hnew Hc Hw. unfold reservations, candidate_rows in *.
  split; unfold reservations, candidate_rows; simpl.
  - intros c1 c2 r1 r2 [[<- <-]|[? ?]]%lookup_insert_Some [[<- <-]|[? ?]]%lookup_insert_Some Heq;
      [done| | |by eapply Hu].
    + symmetry. by eapply Hnew.
    + by eapply Hnew.
  - intros c1 r1 [[<- <-]|[? ?]]%lookup_insert_Some; [done|by apply Hr].
Qed.

Lemma reservations_ok_delete c d :
  reservations_ok d →
  reservations_ok (set_candidate_delivery_reservations (delete c (reservations d)) d).
Proof.
  intros [Hu Hr]. unfold reservations, candidate_rows in *.
  split; unfold reservations, candidate_rows; simpl.
  - intros c1 c2 r1 r2 [_ ?]%lookup_delete_Some [_ ?]%lookup_delete_Some. by apply Hu.
  - intros c1 r1 [_ ?]%lookup_delete_Some. by apply Hr.
Qed.

Lemma reserve_candidate_delivery_atomic w c dg t : atomic (reserve_candidate_delivery w c dg t).
Proof.
  intros s s' e [Hw|(s1&u&[-> _]%require_writable_ok&Hrun)]%method_bind_err.
  { symmetry. by apply (atomic_pure _ preserves_writable_eq) in Hw. }
  apply method_bind_err in Hrun as [?%autocommit_err|(s1&[]&Hins&Hrun)]; [done| |].
  - by inversion Hrun.
  - assert (s1 = s) as ->.
    { unfold insert_reservation in Hins. inv_store. case_match; inv_store; [by destruct s|done]. }
    revert Hrun. apply atomic_bind.
    + apply autocommit_reads. unfold one_row. solve_preserves.
    + intros row. case_match; solve_atomic.
Qed.
Lemma release_candidate_delivery_atomic w c dg : atomic (release_candidate_delivery w c dg).
Proof. unfold release_candidate_delivery. solve_atomic. Qed.
Lemma bind_candidate_delivery_journal_atomic w c dg e j :
  atomic (bind_candidate_delivery_journal w c dg e j).
Proof. unfold bind_candidate_delivery_journal, writable_connection. solve_atomic. Qed.
End reservation_lemmas.

Section delivery_lemmas.
Context `{Rfc3339, Persist Workflow.Workflow, Persist Workflow.WorkflowEvent,
  Persist (PersistedResult Workflow.WorkflowEvent Workflow.Workflow)}.

Lemma deliver_reserved_candidate_ok w c dg j key t s s' r :
  deliver_reserved_candidate w c dg j key t s = (s', Ok r) →
  mode s = ReadWrite ∧ command_deduplication (workflow_tables (database s)) !! key = None ∧
  ∃ row state state' es d',
    reservations (database s) !! c = Some row ∧ reservation_workflow row = w ∧
    reservation_digest row = dg ∧ journal_digest row = Some j ∧
    current_workflow w (database s) = Ok state ∧ is_Some (workflows (workflow_tables (database s)) !! w) ∧
    Workflow.workflow_apply Workflow.Deliver state = (state', Ok es) ∧ r = applied es state' ∧
    s' = with_database d' s ∧
    workflow_written w key {| persisted_events := es; persisted_state := state' |} (database s) d' ∧
    candidate_rows d' = candidate_rows (database s) ∧
    workflow_candidate_files (candidate_tables d') =
      workflow_candidate_files (candidate_tables (database s)) ∧
    reservations d' = delete c (reservations (database s)).
Proof.
  intros Hrun. unfold deliver_reserved_candidate, upsert_workflow in Hrun. inv_store.
  case_match eqn:Hres; inv_store. to_prop.
  match goal with H : (let '(_, _) := ?x in _) _ = _ |- _ => destruct x as [w' es] end. inv_store.
  match goal with H : insert_events _ _ _ _ _ = _, H' : insert_result _ _ _ _ ?p _ = _ |- _ =>
    destruct (answer_added_intro _ _ _ _ p (database s) _ _ _ _ _ H H' eq_refl eq_refl)
      as (Hadd&Hw&?&?&?&Hcand&?&?) end.
  destruct (reservations (database s) !! c) as [row|] eqn:Hrow; [|done].
  destruct (journal_digest row) as [j'|] eqn:Hj; [|done]. simplify_eq/=.
  split; [done|]. split; [by destruct Hadd as (?&?&?&_&_&?&_)|].
  do 5 eexists. split_and!; try done.
  - unfold current_workflow. match goal with H : workflows _ !! _ = Some _ |- _ => rewrite H end.
    simpl. by apply decode_ok.
  - split_and!; try done. eauto.
  - unfold candidate_rows. simpl. by rewrite Hcand.
  - simpl. by rewrite Hcand.
  - unfold reservations. simpl. by rewrite Hcand.
Qed.

Lemma deliver_reserved_candidate_atomic w c dg j key t :
  atomic (deliver_reserved_candidate w c dg j key t).
Proof. unfold deliver_reserved_candidate. solve_atomic. Qed.
End delivery_lemmas.

(** * What the rows depend on *)

Section monotone.
Context `{Sha256, Rfc3339, ToJson (list (string * string * bool)),
  Persist Candidate.CandidateManifestUnchecked}.

Definition workflows_grow (d d' : Database) : Prop := ∀ w,
  is_Some (workflows (workflow_tables d) !! w) → is_Some (workflows (workflow_tables d') !! w).

Lemma candidates_ok_mono d d' :
  candidate_rows d' = candidate_rows d →
  workflow_candidate_files (candidate_tables d') = workflow_candidate_files (candidate_tables d) →
  workflows_grow d d' → candidates_ok d → candidates_ok d'.
Proof.
  intros Hc Hf Hw [Hr Hfiles]. split; rewrite Hc; [|by rewrite Hf].
  intros id row (Hp&Hwf&m&?)%Hr. split; [done|]. split; [by apply Hw|].
  exists m. rewrite (file_rows_ext id d d') by (intros; by rewrite Hf). done.
Qed.

Lemma reservations_ok_mono d d' :
  reservations d' = reservations d →
  (∀ c, is_Some (candidate_rows d !! c) → is_Some (candidate_rows d' !! c)) →
  workflows_grow d d' → reservations_ok d → reservations_ok d'.
Proof.
  intros Hr Hc Hw [Hu Hrow]. split; rewrite Hr; [done|].
  intros c r [? ?]%Hrow. split; [by apply Hc|by apply Hw].
Qed.
End monotone.
End Payloads.
