(* ===== verification/StoreDocuments.v ===== *)
(** What a workflow saves once (workflow-store/src/requests.rs, constraints.rs,
    architecture.rs, verification.rs, reviews.rs and arbitration.rs): the
    request, its constraints, the revisions of its plan, verification plans with
    their evidence, the reviews of a candidate and its arbitration. *)
From S2P Require Import Prelude Text Ids Paths Canonical WorkflowMachine TaskMachine Requests Goals.
From S2P Require Import Dag Verdicts Candidates Plans Redaction Ledger Database StoreCommands.
From S2P Require Import StoreCandidates.

Module Documents.
Export Payloads.
Local Open Scope N_scope.

(** A request is written field by field and read through its check. *)
#[export] Instance request_persist `{Persist Request.RequestRecordUnchecked}
    : Persist Request.RequestRecord := {|
  json_encode r := json_encode (Request.unchecked r);
  json_decode s := u ← json_decode s;
    match Request.request_try_from u with Ok r => Some r | Err _ => None end;
|}.

(** So is a plan. *)
Inductive UncheckedPlan : Type := Unchecked (plan : Plan.ArchitecturePlan).
#[export] Instance plan_persist `{Persist UncheckedPlan} : Persist Plan.ArchitecturePlan := {|
  json_encode p := json_encode (Unchecked p);
  json_decode s := '(Unchecked p) ← json_decode s;
    match Plan.plan_try_from p with Some (Ok p) => Some p | _ => None end;
|}.

(** * Requests *)

Section requests.
Context `{Rfc3339, Persist Request.RequestRecordUnchecked}.

Definition requests (d : Database) : gmap WorkflowId RequestRow := workflow_requests (plan_tables d).

Definition latest_workflow_for_project (project_id : ProjectId) (s : Store) : option WorkflowId :=
  fst <$> latest request_created
    (filter (λ '(_, row), request_project row = project_id) (map_to_list (requests (database s)))).

Definition save_request_once (workflow_id : WorkflowId) (project_id : ProjectId)
    (request : Request.RequestRecord) (timestamp : WorkflowTimestamp)
    : method Store StoreError bool :=
  _ ← require_writable;
  json ← m_lift (ok_or Serialization (json_encode request));
  transaction (
    current ← select (λ d, requests d !! workflow_id);
    once current
      (λ row, bool_decide (request_project row = project_id) && bool_decide (request_json row = json))
      (created ← time_text timestamp;
       m_modify (λ d, set_workflow_requests (<[workflow_id :=
         {| request_project := project_id; request_json := json; request_created := created |}]>
         (requests d)) d))).

Definition load_request (workflow_id : WorkflowId) (s : Store)
    : result StoreError (option (ProjectId * Request.RequestRecord)) :=
  match requests (database s) !! workflow_id with
  | Some row => request ← decode (request_json row); Ok (Some (request_project row, request))
  | None => Ok None
  end.
End requests.

(** * Constraints: JSON values by kind *)

Section constraints.
Context {Value : Type} `{Rfc3339, Persist Value}.

Definition constraints (d : Database) : gmap (WorkflowId * string) ConstraintRow :=
  workflow_constraints (plan_tables d).

Definition save_constraint_once (workflow_id : WorkflowId) (kind : string) (digest : ContentDigest)
    (value : Value) (timestamp : WorkflowTimestamp) : method Store StoreError bool :=
  _ ← require_writable;
  _ ← m_lift (reject_if (bool_decide (kind = "") || (64 <? str_len kind)) AggregateConflict);
  json ← m_lift (ok_or Serialization (json_encode value));
  transaction (
    current ← select (λ d, constraints d !! (workflow_id, kind));
    once current
      (λ row, bool_decide (constraint_digest row = digest) && bool_decide (constraint_json row = json))
      (created ← time_text timestamp;
       request ← select (λ d, requests d !! workflow_id);
       _ ← constraint (bool_decide (is_Some request));
       m_modify (λ d, set_workflow_constraints (<[(workflow_id, kind) :=
         {| constraint_digest := digest; constraint_json := json; constraint_created := created |}]>
         (constraints d)) d))).

Definition load_constraint (workflow_id : WorkflowId) (kind : string) (s : Store)
    : result StoreError (option Value) :=
  match constraints (database s) !! (workflow_id, kind) with
  | Some row => value ← decode (constraint_json row); Ok (Some value)
  | None => Ok None
  end.
End constraints.

(** * Architecture plans *)

Section architecture.
Context `{Sha256, Rfc3339, Persist Request.RequestRecordUnchecked, Persist Workflow.Workflow,
  ToJson Plan.ArchitecturePlan, Persist UncheckedPlan}.

Definition plans (d : Database) : gmap WorkflowId ArchitectureRow :=
  workflow_architecture (plan_tables d).
Definition versions (d : Database) : gmap (WorkflowId * N) ArchitectureRow :=
  workflow_architecture_versions (plan_tables d).

(** The columns both tables have. *)
Definition architecture_row (plan : Plan.ArchitecturePlan) (json : string)
    (timestamp : WorkflowTimestamp) : Statement ArchitectureRow :=
  digest ← or_panic (Plan.plan_digest plan);
  created ← time_text timestamp;
  mret {| plan_request_digest := Plan.request_digest plan; plan_digest_text := digest;
          plan_json := json; plan_created := created |}.

Definition insert_version (workflow_id : WorkflowId) (revision : N) (row : ArchitectureRow)
    : Statement unit :=
  d ← m_get;
  _ ← constraint (bool_decide (versions d !! (workflow_id, revision) = None));
  m_modify (set_workflow_architecture_versions (<[(workflow_id, revision) := row]> (versions d))).

Definition save_architecture_once (workflow_id : WorkflowId) (plan : Plan.ArchitecturePlan)
    (timestamp : WorkflowTimestamp) : method Store StoreError bool :=
  _ ← require_writable;
  transaction (
    stored ← select (λ d, requests d !! workflow_id);
    request_row ← m_lift (ok_or AggregateConflict stored);
    request ← m_lift (decode (request_json request_row));
    digest ← or_panic (Request.request_digest request);
    _ ← m_lift (reject_if (negb (bool_decide (digest = Plan.request_digest plan)))
          RequestDigestMismatch);
    json ← encode plan;
    current ← select (λ d, plans d !! workflow_id);
    match current with
    | Some row =>
        if bool_decide (plan_json row = json) then mret (Rollback true) else
        stored ← select (λ d, workflows (workflow_tables d) !! workflow_id);
        workflow_row ← one_row stored;
        state ← m_lift (decode (workflow_json workflow_row));
        if negb (Workflow.state_is Workflow.Architecture state)
           || (Workflow.repair_cycles state =? 0)
        then m_throw AggregateConflict else
        revision ← select (λ d, next_number workflow_id (versions d));
        _ ← constraint (revision <=? u32_max);
        row ← architecture_row plan json timestamp;
        _ ← m_modify (λ d, set_workflow_architecture (<[workflow_id := row]> (plans d)) d);
        _ ← insert_version workflow_id revision row;
        mret (Commit false)
    | None =>
        row ← architecture_row plan json timestamp;
        _ ← m_modify (λ d, set_workflow_architecture (<[workflow_id := row]> (plans d)) d);
        _ ← insert_version workflow_id 1 row;
        mret (Commit false)
    end).

Definition load_architecture (workflow_id : WorkflowId) (s : Store)
    : result StoreError (option Plan.ArchitecturePlan) :=
  match plans (database s) !! workflow_id with
  | Some row => plan ← decode (plan_json row); Ok (Some plan)
  | None => Ok None
  end.

(** [ORDER BY revision]: the revisions of a workflow are counted up to its
    last. *)
Definition load_architecture_versions (workflow_id : WorkflowId) (s : Store)
    : result StoreError (list Plan.ArchitecturePlan) :=
  let d := database s in
  let rows := omap (λ n, versions d !! (workflow_id, N.of_nat n))
                (seq 0 (N.to_nat (next_number workflow_id (versions d)))) in
  try_map (λ row, decode (plan_json row)) rows.
End architecture.

(** * Verification plans and evidence *)

Section verification.
Context {Value : Type} `{Rfc3339, Persist Value, Persist Evidence.EvidenceRecord}.

Definition verification_plans (d : Database) : gmap VerificationPlanId VerificationPlanRow :=
  workflow_verification_plans (plan_tables d).
Definition evidence (d : Database) : gmap EvidenceId EvidenceRow := workflow_evidence (plan_tables d).
Definition attempts (d : Database) : gmap (EvidenceId * N) AttemptRow :=
  workflow_evidence_attempts (plan_tables d).

Definition save_verification_plan_once (plan_id : VerificationPlanId) (workflow_id : WorkflowId)
    (plan : Value) (timestamp : WorkflowTimestamp) : method Store StoreError bool :=
  _ ← require_writable;
  json ← m_lift (ok_or Serialization (json_encode plan));
  transaction (
    current ← select (λ d, verification_plans d !! plan_id);
    once current
      (λ row, bool_decide (verification_workflow row = workflow_id)
              && bool_decide (verification_json row = json))
      (created ← time_text timestamp;
       workflow ← select (λ d, workflows (workflow_tables d) !! workflow_id);
       _ ← constraint (bool_decide (is_Some workflow));
       m_modify (λ d, set_workflow_verification_plans (<[plan_id :=
         {| verification_workflow := workflow_id; verification_json := json;
            verification_created := created |}]> (verification_plans d)) d))).

Definition load_verification_plan (plan_id : VerificationPlanId) (s : Store)
    : result StoreError (option (WorkflowId * Value)) :=
  match verification_plans (database s) !! plan_id with
  | Some row => plan ← decode (verification_json row); Ok (Some (verification_workflow row, plan))
  | None => Ok None
  end.

Definition load_latest_verification_plan_for_workflow (workflow_id : WorkflowId) (s : Store)
    : result StoreError (option (VerificationPlanId * Value)) :=
  match latest verification_created
          (filter (λ '(_, row), verification_workflow row = workflow_id)
             (map_to_list (verification_plans (database s)))) with
  | Some (id, row) => plan ← decode (verification_json row); Ok (Some (id, plan))
  | None => Ok None
  end.

(** The record and output an attempt leaves, else those first saved. *)
Definition latest_record (id : EvidenceId) (row : EvidenceRow) (d : Database) : N * string * string :=
  match last_row id (attempts d) with
  | Some (n, a) => (n, attempt_json a, attempt_output a)
  | None => (0, evidence_json row, evidence_output row)
  end.

Definition MAX_OUTPUT_BYTES : N := 2 * 1024 * 1024.

Definition save_evidence_once (plan_id : VerificationPlanId) (workflow_id : WorkflowId)
    (candidate_id : CandidateId) (record : Evidence.EvidenceRecord) (output_redacted : string)
    (mandatory : bool) (timestamp : WorkflowTimestamp) : method Store StoreError bool :=
  _ ← require_writable;
  _ ← m_lift (map_err EvidenceFailure (Evidence.evidence_validate record));
  _ ← m_lift (reject_if (MAX_OUTPUT_BYTES <? str_len output_redacted) AggregateConflict);
  json ← m_lift (ok_or Serialization (json_encode record));
  let id := Evidence.id record in
  transaction (
    plan ← select (λ d, verification_plans d !! plan_id);
    plan_row ← one_row plan;
    candidate ← select (λ d, candidate_rows d !! candidate_id);
    candidate_row ← one_row candidate;
    if negb (bool_decide (verification_workflow plan_row = workflow_id))
       || negb (bool_decide (candidate_workflow candidate_row = workflow_id))
       || negb (bool_decide (manifest_digest candidate_row = Evidence.candidate_digest record))
    then m_throw AggregateConflict else
    current ← select (λ d, evidence d !! id);
    match current with
    | Some row =>
        if negb (bool_decide (evidence_plan row = plan_id))
           || negb (bool_decide (evidence_workflow row = workflow_id))
           || negb (bool_decide (evidence_candidate row = candidate_id))
           || negb (Bool.eqb (evidence_mandatory row) mandatory)
        then m_throw AggregateConflict else
        '(attempt, latest_json, latest_output) ← select (latest_record id row);
        if bool_decide (latest_json = json) && bool_decide (latest_output = output_redacted)
        then mret (Rollback true) else
        created ← time_text timestamp;
        _ ← m_modify (λ d, set_workflow_evidence_attempts (<[(id, attempt + 1) :=
              {| attempt_json := json; attempt_output := output_redacted;
                 attempt_created := created |}]> (attempts d)) d);
        mret (Commit false)
    | None =>
        created ← time_text timestamp;
        _ ← m_modify (λ d, set_workflow_evidence (<[id :=
              {| evidence_plan := plan_id; evidence_workflow := workflow_id;
                 evidence_candidate := candidate_id; evidence_mandatory := mandatory;
                 evidence_json := json; evidence_output := output_redacted;
                 evidence_created := created |}]> (evidence d)) d);
        mret (Commit false)
    end).

Definition load_candidate_evidence (candidate_id : CandidateId) (s : Store)
    : result StoreError (list (Evidence.EvidenceRecord * string * bool)) :=
  let d := database s in
  try_map (λ '(id, row),
      let '(_, json, output) := latest_record id row d in
      record ← decode json; Ok (record, output, evidence_mandatory row))
    (filter (λ '(_, row), evidence_candidate row = candidate_id) (btree_iter (evidence d))).

Definition evidence_exists (evidence_id : EvidenceId) (s : Store) : bool :=
  bool_decide (is_Some (evidence (database s) !! evidence_id)).
End verification.

(** * Reviews *)

Definition review_role (role : WorkflowRole) : option string :=
  match role with
  | FunctionalReviewer => Some "functional_reviewer"
  | SecurityArchitectureReviewer => Some "security_architecture_reviewer"
  | Architect | Executor | Arbiter => None
  end.

Section reviews.
Context `{Sha256, Rfc3339, ToJson (list (string * string * bool)), Persist Workflow.Workflow,
  Persist Candidate.CandidateManifestUnchecked, Persist UncheckedPlan,
  Persist Evidence.EvidenceRecord, Persist Review.ReviewVerdict}.

Definition reviews (d : Database) : gmap (CandidateId * string) ReviewRow :=
  workflow_reviews (plan_tables d).

Definition plan_requirements (plan : Plan.ArchitecturePlan) : gset string :=
  list_to_set (Plan.requirement_key <$> Plan.requirements plan).

Definition save_review_once (workflow_id : WorkflowId) (candidate_id : CandidateId)
    (verdict : Review.ReviewVerdict) (timestamp : WorkflowTimestamp)
    : method Store StoreError bool :=
  _ ← require_writable;
  role ← m_lift (ok_or AggregateConflict (review_role (Review.role verdict)));
  json ← m_lift (ok_or Serialization (json_encode verdict));
  current ← reading (λ s, Ok (reviews (database s) !! (candidate_id, role)));
  match current with
  | Some row => if bool_decide (review_json row = json) then mret true else m_throw AggregateConflict
  | None =>
      loaded ← reading (load_workflow workflow_id);
      state ← m_lift (ok_or AggregateConflict loaded);
      if negb (Workflow.state_is Workflow.IndependentReviews state)
         || negb (bool_decide (Workflow.current_candidate state = Some candidate_id))
      then m_throw AggregateConflict else
      loaded ← reading (load_candidate candidate_id);
      candidate ← m_lift (ok_or AggregateConflict loaded);
      digest ← m_lift (ok_or Panicked (Candidate.candidate_digest (stored_manifest candidate)));
      if negb (bool_decide (stored_workflow candidate = workflow_id))
         || negb (bool_decide (Review.candidate_digest verdict = digest))
      then m_throw AggregateConflict else
      loaded ← reading (load_architecture workflow_id);
      architecture ← m_lift (ok_or AggregateConflict loaded);
      records ← reading (load_candidate_evidence candidate_id);
      _ ← m_lift (map_err ReviewFailure (Review.review_validate verdict
            (plan_requirements architecture)
            (list_to_set ((λ r, Evidence.id r.1.1) <$> records))));
      transaction (
        finalized ← time_text timestamp;
        d ← m_get;
        _ ← constraint (bool_decide (is_Some (candidate_rows d !! candidate_id)));
        _ ← constraint (bool_decide (reviews d !! (candidate_id, role) = None));
        _ ← m_modify (set_workflow_reviews (<[(candidate_id, role) :=
              {| review_json := json; review_finalized := finalized |}]> (reviews d)));
        mret (Commit false))
  end.

(** [ORDER BY role]: the functional reviewer's text comes first. *)
Definition load_reviews (candidate_id : CandidateId) (s : Store)
    : result StoreError (list Review.ReviewVerdict) :=
  try_map (λ row, decode (review_json row))
    (omap (λ role, reviews (database s) !! (candidate_id, role))
       ["functional_reviewer"; "security_architecture_reviewer"]).
End reviews.

(** * Arbitration *)

Section arbitration.
Context `{Sha256, Rfc3339, ToJson Arbiter.ArbiterVerdict, Persist Arbiter.ArbiterVerdict,
  Persist Receipt.ArbitrationReceipt}.

Definition arbitrations (d : Database) : gmap CandidateId ArbitrationRow :=
  workflow_arbitration (plan_tables d).

Definition save_arbitration_once (workflow_id : WorkflowId) (candidate_id : CandidateId)
    (verdict : Arbiter.ArbiterVerdict) (receipt : Receipt.ArbitrationReceipt)
    (timestamp : WorkflowTimestamp) : method Store StoreError bool :=
  _ ← require_writable;
  _ ← m_lift (reject_if
        (negb (bool_decide (Receipt.workflow_id receipt = workflow_id))
         || negb (bool_decide (Receipt.candidate_id receipt = candidate_id))
         || negb (bool_decide (Receipt.candidate_digest receipt = Arbiter.candidate_digest verdict)))
        AggregateConflict);
  verdict_digest ← m_lift (ok_or Panicked (Arbiter.verdict_digest verdict));
  _ ← m_lift (reject_if (negb (bool_decide (Receipt.arbiter_verdict_digest receipt = verdict_digest)))
        AggregateConflict);
  verdict_text ← m_lift (ok_or Serialization (json_encode verdict));
  receipt_text ← m_lift (ok_or Serialization (json_encode receipt));
  transaction (
    current ← select (λ d, arbitrations d !! candidate_id);
    digest ← or_panic (Receipt.receipt_digest receipt);
    once current
      (λ row, bool_decide (arbitration_workflow row = workflow_id)
              && bool_decide (arbitration_json row = verdict_text)
              && bool_decide (receipt_digest_text row = digest)
              && bool_decide (receipt_json row = receipt_text))
      (finalized ← time_text timestamp;
       d ← m_get;
       _ ← constraint (bool_decide (is_Some (candidate_rows d !! candidate_id)));
       _ ← constraint (bool_decide (is_Some (workflows (workflow_tables d) !! workflow_id)));
       _ ← constraint (bool_decide (map_Forall (λ _ row, receipt_digest_text row ≠ digest)
             (arbitrations d)));
       m_modify (set_workflow_arbitration (<[candidate_id :=
         {| arbitration_workflow := workflow_id; arbitration_json := verdict_text;
            receipt_digest_text := digest; receipt_json := receipt_text;
            arbitration_finalized := finalized |}]> (arbitrations d))))).

Definition load_arbitration (candidate_id : CandidateId) (s : Store)
    : result StoreError (option (WorkflowId * Arbiter.ArbiterVerdict * Receipt.ArbitrationReceipt)) :=
  match arbitrations (database s) !! candidate_id with
  | Some row =>
      verdict ← decode (arbitration_json row);
      receipt ← decode (receipt_json row);
      Ok (Some (arbitration_workflow row, verdict, receipt))
  | None => Ok None
  end.
End arbitration.

(** * What the documents leave alone *)

(** Everything but the tables of this file. *)
Definition rest_of_plans (d : Database) :=
  (workflow_tables d, candidate_tables d, goal_tables d, ledger_tables d).

Section frames.
Context {Value : Type} `{Sha256, Rfc3339, ToJson (list (string * string * bool)),
  ToJson Plan.ArchitecturePlan, ToJson Arbiter.ArbiterVerdict,
  Persist Request.RequestRecordUnchecked, Persist Value, Persist Workflow.Workflow,
  Persist UncheckedPlan, Persist Candidate.CandidateManifestUnchecked,
  Persist Evidence.EvidenceRecord, Persist Review.ReviewVerdict,
  Persist Arbiter.ArbiterVerdict, Persist Receipt.ArbitrationReceipt}.

Lemma save_request_once_frame w p r t : preserves (on_database (same rest_of_plans)) (save_request_once w p r t).
Proof. unfold save_request_once, once. solve_frame. Qed.

Lemma save_constraint_once_frame w k dg (v : Value) t :
  preserves (on_database (same rest_of_plans)) (save_constraint_once w k dg v t).
Proof. unfold save_constraint_once, once. solve_frame. Qed.
Lemma save_architecture_once_frame w p t :
  preserves (on_database (same rest_of_plans)) (save_architecture_once w p t).
Proof. unfold save_architecture_once, architecture_row, insert_version. solve_frame. Qed.
Lemma save_verification_plan_once_frame p w (v : Value) t :
  preserves (on_database (same rest_of_plans)) (save_verification_plan_once p w v t).
Proof. unfold save_verification_plan_once, once. solve_frame. Qed.
Lemma save_evidence_once_frame p w c r o m t :
  preserves (on_database (same rest_of_plans)) (save_evidence_once p w c r o m t).
Proof. unfold save_evidence_once. solve_frame. Qed.
Lemma save_review_once_frame w c v t :
  preserves (on_database (same rest_of_plans)) (save_review_once w c v t).
Proof. unfold save_review_once. solve_frame. Qed.
Lemma save_arbitration_once_frame w c v r t :
  preserves (on_database (same rest_of_plans)) (save_arbitration_once w c v r t).
Proof. unfold save_arbitration_once, once. solve_frame. Qed.

Lemma save_request_once_atomic w p r t : atomic (save_request_once w p r t).
Proof. unfold save_request_once. solve_atomic. Qed.
Lemma save_constraint_once_atomic w k dg (v : Value) t : atomic (save_constraint_once w k dg v t).
Proof. unfold save_constraint_once. solve_atomic. Qed.
Lemma save_architecture_once_atomic w p t : atomic (save_architecture_once w p t).
Proof. unfold save_architecture_once. solve_atomic. Qed.
Lemma save_verification_plan_once_atomic p w (v : Value) t :
  atomic (save_verification_plan_once p w v t).
Proof. unfold save_verification_plan_once. solve_atomic. Qed.
Lemma save_evidence_once_atomic p w c r o m t : atomic (save_evidence_once p w c r o m t).
Proof. unfold save_evidence_once. solve_atomic. Qed.
Lemma save_review_once_atomic w c v t : atomic (save_review_once w c v t).
Proof. unfold save_review_once. solve_atomic. Qed.
Lemma save_arbitration_once_atomic w c v r t : atomic (save_arbitration_once w c v r t).
Proof. unfold save_arbitration_once. solve_atomic. Qed.

(** What each save comes to: the document is on file, or it is inserted. *)

#[local] Ltac inv_once :=
  inv_store; match goal with Hc : once _ _ _ _ = _ |- _ => apply once_ok in Hc end;
  split; [done|]; case_match;
  match goal with Hc : _ ∧ _ |- _ => destruct_and! Hc end; subst; inv_store; to_prop; subst; cbn [closing]; cbv iota; eauto 12.

Lemma save_request_once_ok w p r t s s' b :
  save_request_once w p r t s = (s', Ok b) →
  mode s = ReadWrite ∧ 
  if b then s' = s ∧ ∃ row, requests (database s) !! w = Some row ∧ request_project row = p ∧
              json_encode r = Some (request_json row)
  else requests (database s) !! w = None ∧ ∃ json created, json_encode r = Some json ∧
    s' = with_database (set_workflow_requests (<[w := {| request_project := p; request_json := json;
           request_created := created |}]> (requests (database s))) (database s)) s.
Proof. unfold save_request_once. intros Hcall. inv_once. Qed.

Lemma save_constraint_once_ok w kind dg (v : Value) t s s' b :
  save_constraint_once w kind dg v t s = (s', Ok b) →
  mode s = ReadWrite ∧
  if b then s' = s ∧ ∃ row, constraints (database s) !! (w, kind) = Some row ∧
              constraint_digest row = dg ∧ json_encode v = Some (constraint_json row)
  else constraints (database s) !! (w, kind) = None ∧ is_Some (requests (database s) !! w) ∧
    ∃ json created, json_encode v = Some json ∧
    s' = with_database (set_workflow_constraints (<[(w, kind) := {| constraint_digest := dg;
           constraint_json := json; constraint_created := created |}]> (constraints (database s)))
           (database s)) s.
Proof. unfold save_constraint_once. intros Hcall. inv_once. Qed.

Lemma save_verification_plan_once_ok p w (v : Value) t s s' b :
  save_verification_plan_once p w v t s = (s', Ok b) →
  mode s = ReadWrite ∧
  if b then s' = s ∧ ∃ row, verification_plans (database s) !! p = Some row ∧
              verification_workflow row = w ∧ json_encode v = Some (verification_json row)
  else verification_plans (database s) !! p = None ∧
    is_Some (workflows (workflow_tables (database s)) !! w) ∧
    ∃ json created, json_encode v = Some json ∧
    s' = with_database (set_workflow_verification_plans (<[p := {| verification_workflow := w;
           verification_json := json; verification_created := created |}]>
           (verification_plans (database s))) (database s)) s.
Proof. unfold save_verification_plan_once. intros Hcall. inv_once. Qed.

Lemma save_arbitration_once_ok w c v r t s s' b :
  save_arbitration_once w c v r t s = (s', Ok b) →
  mode s = ReadWrite ∧
  Receipt.workflow_id r = w ∧ Receipt.candidate_id r = c ∧
  Receipt.candidate_digest r = Arbiter.candidate_digest v ∧
  Arbiter.verdict_digest v = Some (Receipt.arbiter_verdict_digest r) ∧
  ∃ row, arbitration_workflow row = w ∧ json_encode v = Some (arbitration_json row) ∧
    Receipt.receipt_digest r = Some (receipt_digest_text row) ∧
    json_encode r = Some (receipt_json row) ∧
  if b then s' = s ∧ arbitrations (database s) !! c = Some row
  else arbitrations (database s) !! c = None ∧ is_Some (candidate_rows (database s) !! c) ∧
    (∀ o row', arbitrations (database s) !! o = Some row' →
       receipt_digest_text row' ≠ receipt_digest_text row) ∧
    s' = with_database (set_workflow_arbitration (<[c := row]> (arbitrations (database s)))
           (database s)) s.
Proof.
  unfold save_arbitration_once. intros Hcall. inv_store. to_prop.
  match goal with Hc : once _ _ _ _ = _ |- _ => apply once_ok in Hc end. subst. split_and!; try done.
  case_match; destruct_and!; subst; inv_store; to_prop; subst; cbn [closing]; cbv iota.
  - eexists. split_and!; done.
  - eexists {| arbitration_workflow := _; arbitration_json := _; receipt_digest_text := _;
               receipt_json := _; arbitration_finalized := _ |}.
    split_and!; [reflexivity|done..| |reflexivity]. simpl. done.
Qed.

End frames.

(** * The revisions of a plan *)

Section architecture_lemmas.
Context `{Sha256, Rfc3339, Persist Request.RequestRecordUnchecked, Persist Workflow.Workflow,
  ToJson Plan.ArchitecturePlan, Persist UncheckedPlan}.

(** What the rows of plans keep: revisions are numbered without a gap, the plan
    in force is the last of them, and each is bound to the stored request. *)
Record plans_ok (d : Database) : Prop := {
  po_numbered : numbered_rows (versions d);
  po_current w row : plans d !! w = Some row ↔ (snd <$> last_row w (versions d)) = Some row;
  po_bound w n row : versions d !! (w, n) = Some row →
    ∃ stored request, requests d !! w = Some stored ∧
      json_decode (request_json stored) = Some request ∧
      Request.request_digest request = Some (plan_request_digest row);
  po_plan w n row : versions d !! (w, n) = Some row →
    ∃ plan, json_decode (plan_json row) = Some (Unchecked plan) ∧
      Plan.request_digest plan = plan_request_digest row;
}.

(** A save adds a revision: the first, or one after a rejected candidate sent
    the workflow back to its plan. *)
Definition revision_added (w : WorkflowId) (plan : Plan.ArchitecturePlan) (d d' : Database) : Prop :=
  ∃ stored request row json,
    requests d !! w = Some stored ∧ json_decode (request_json stored) = Some request ∧
    Request.request_digest request = Some (Plan.request_digest plan) ∧
    json_encode plan = Some json ∧ plan_json row = json ∧
    plan_request_digest row = Plan.request_digest plan ∧
    Plan.plan_digest plan = Some (plan_digest_text row) ∧
    (plans d !! w = None ∨
     ∃ state, current_workflow w d = Ok state ∧ is_Some (workflows (workflow_tables d) !! w) ∧
       Workflow.state state = Workflow.Architecture ∧ Workflow.repair_cycles state ≠ 0) ∧
    let revision := if decide (plans d !! w = None) then 1 else next_number w (versions d) in
    versions d !! (w, revision) = None ∧
    plans d' = <[w := row]> (plans d) ∧ versions d' = <[(w, revision) := row]> (versions d) ∧
    requests d' = requests d.

Lemma architecture_row_ok plan json t d d' row :
  architecture_row plan json t d = (d', Ok row) →
  d' = d ∧ plan_json row = json ∧ plan_request_digest row = Plan.request_digest plan ∧
  Plan.plan_digest plan = Some (plan_digest_text row).
Proof. intros Hrun. unfold architecture_row in Hrun. inv_store. done. Qed.

Lemma insert_version_ok w n row d d' u :
  insert_version w n row d = (d', Ok u) →
  versions d !! (w, n) = None ∧
  d' = set_workflow_architecture_versions (<[(w, n) := row]> (versions d)) d.
Proof. intros Hrun. unfold insert_version in Hrun. inv_store. by to_prop. Qed.

Lemma save_architecture_once_ok w plan t s s' b :
  save_architecture_once w plan t s = (s', Ok b) →
  mode s = ReadWrite ∧
  if b then s' = s ∧ ∃ row, plans (database s) !! w = Some row ∧ json_encode plan = Some (plan_json row)
  else ∃ d', s' = with_database d' s ∧ revision_added w plan (database s) d'.
Proof.
  intros Hrun. unfold save_architecture_once in Hrun. inv_store. split; [done|].
  to_prop. destruct (plans (database s) !! w) as [row|] eqn:Hcur.
  - case_match eqn:Hsame; inv_store; to_prop; [split; [done|]; eexists; split; [done|]; congruence|].
    case_match eqn:Hstate; inv_store. to_prop.
    match goal with H : architecture_row _ _ _ _ = _ |- _ =>
      apply architecture_row_ok in H as (->&?&?&?) end.
    match goal with H : insert_version _ _ _ _ = _ |- _ => apply insert_version_ok in H as [? ->] end.
    simpl. eexists. split; [done|]. do 4 eexists. split_and!; try done.
    + right. eexists. split_and!; [|by eexists|by eapply bool_decide_eq_true_1|done].
      unfold current_workflow. match goal with H : workflows _ !! _ = _ |- _ => rewrite H end.
      by apply decode_ok.
    + rewrite decide_False by congruence. split_and!; done.
  - inv_store.
    match goal with H : architecture_row _ _ _ _ = _ |- _ =>
      apply architecture_row_ok in H as (->&?&?&?) end.
    match goal with H : insert_version _ _ _ _ = _ |- _ => apply insert_version_ok in H as [? ->] end.
    simpl. eexists. split; [done|]. do 4 eexists. split_and!; try done; [by left|].
    rewrite decide_True by done. split_and!; done.
Qed.

Lemma revision_added_ok w plan d d' :
  json_faithful UncheckedPlan → plans_ok d → revision_added w plan d d' → plans_ok d'.
Proof.
  intros Hj [Hnum Hcur Hbound Hplan]
    (stored&request&row&json&Hst&Hreq&Hdig&Hjson&Hrowj&Hrow&_&_&Hnone&Hp&Hv&Hr).
  assert ((if decide (plans d !! w = None) then 1 else next_number w (versions d)) =
    next_number w (versions d)) as Hnext.
  { case_decide as Hn; [|done]. unfold next_number. destruct (last_row w (versions d)) as [[n r]|] eqn:Hl; [|done].
    assert (plans d !! w = Some r) by (apply Hcur; by rewrite Hl). congruence. }
  rewrite Hnext in *. split.
  - rewrite Hv. by apply numbered_rows_insert.
  - intros o r. rewrite Hp, Hv. destruct (decide (o = w)) as [->|Hne].
    + rewrite lookup_insert_eq, last_row_insert_next. done.
    + rewrite lookup_insert_ne, last_row_insert_ne by done. apply Hcur.
  - intros o n r. rewrite Hv, Hr. intros [[[= <- <-] <-]|[_ Hn]]%lookup_insert_Some; [|by eapply Hbound].
    exists stored, request. split_and!; [done|done|]. by rewrite Hrow.
  - intros o n r. rewrite Hv. intros [[[= <- <-] <-]|[_ Hn]]%lookup_insert_Some; [|by eapply Hplan].
    exists plan. rewrite Hrow, Hrowj. split; [by apply Hj|done].
Qed.

(** A plan that is read back is one its check accepts. *)
Lemma plan_decoded_ok json plan :
  json_decode json = Some plan → Plan.plan_ok plan ∧ json_decode json = Some (Unchecked plan).
Proof.
  simpl. destruct (json_decode json) as [[u]|] eqn:Hu; simpl; [|done].
  destruct (Plan.plan_try_from_spec u) as (r&->&Hr&Hsame). destruct r as [q|e]; [|done].
  intros [= <-]. pose proof (Hsame q eq_refl) as ->. split; [by apply Hr|done].
Qed.

(** The plan in force is valid and answers the stored request. *)
Lemma load_architecture_bound w s plan :
  plans_ok (database s) → load_architecture w s = Ok (Some plan) →
  Plan.plan_ok plan ∧ ∃ project request, load_request w s = Ok (Some (project, request)) ∧
    Request.request_digest request = Some (Plan.request_digest plan).
Proof.
  intros [_ Hcur Hbound Hplan] Hload. unfold load_architecture in Hload.
  destruct (plans (database s) !! w) as [row|] eqn:Hrow; [|done].
  apply result_bind_ok in Hload as (p&Hdec%decode_ok&[= <-]).
  apply Hcur in Hrow. pose proof (last_row_spec w (versions (database s))) as Hlast.
  destruct (last_row w (versions (database s))) as [[n r]|]; [|done]. injection Hrow as ->.
  destruct Hlast as [Hn _]. destruct (Hbound _ _ _ Hn) as (stored&request&Hst&Hreq&Hdig).
  destruct (Hplan _ _ _ Hn) as (q&Hq&Hqd). apply plan_decoded_ok in Hdec as [Hok Hp].
  split; [done|]. exists (request_project stored), request. split.
  - unfold load_request. rewrite Hst. apply result_bind_ok. exists request.
    split; [by apply decode_ok|done].
  - congruence.
Qed.
End architecture_lemmas.

(** * Evidence on record *)

Section evidence_lemmas.
Context `{Rfc3339, Persist Evidence.EvidenceRecord}.

(** What a record on file says: it is valid, under its identifier, and about
    the candidate as it was saved. *)
Definition record_on_file (id : EvidenceId) (c : CandidateId) (json : string) (d : Database) : Prop :=
  ∃ record row, json_decode json = Some record ∧ Evidence.id record = id ∧
    Evidence.evidence_validate record = Ok tt ∧ candidate_rows d !! c = Some row ∧
    Evidence.candidate_digest record = manifest_digest row.

Record evidence_ok (d : Database) : Prop := {
  eo_row id row : evidence d !! id = Some row →
    record_on_file id (evidence_candidate row) (evidence_json row) d;
  eo_attempt id n a : attempts d !! (id, n) = Some a →
    ∃ row, evidence d !! id = Some row ∧
      record_on_file id (evidence_candidate row) (attempt_json a) d;
  eo_numbered : numbered_rows (attempts d);
}.

Lemma latest_record_attempt id row d n json output :
  latest_record id row d = (n, json, output) → n + 1 = next_number id (attempts d).
Proof.
  unfold latest_record, next_number. destruct (last_row id (attempts d)) as [[k a]|]; simpl; naive_solver.
Qed.

Lemma latest_record_on_file id row d n json output :
  evidence_ok d → evidence d !! id = Some row → latest_record id row d = (n, json, output) →
  record_on_file id (evidence_candidate row) json d.
Proof.
  intros Hok Hrow. unfold latest_record. pose proof (last_row_spec id (attempts d)) as Hl.
  destruct (last_row id (attempts d)) as [[k a]|]; intros [= <- <- <-]; [|by apply (eo_row _ Hok)].
  destruct Hl as [Ha _]. destruct (eo_attempt _ Hok _ _ _ Ha) as (row'&Hrow'&Hfile). by simplify_eq.
Qed.

(** The effect of a save that was not a repetition: a first record, or the next
    attempt of one with the same identity. *)
Definition evidence_added (plan : VerificationPlanId) (w : WorkflowId) (c : CandidateId)
    (record : Evidence.EvidenceRecord) (json output : string) (mandatory : bool) (d d' : Database) : Prop :=
  candidate_rows d' = candidate_rows d ∧
  ((evidence d !! Evidence.id record = None ∧ attempts d' = attempts d ∧ ∃ created,
    evidence d' = <[Evidence.id record := {| evidence_plan := plan; evidence_workflow := w;
      evidence_candidate := c; evidence_mandatory := mandatory; evidence_json := json;
      evidence_output := output; evidence_created := created |}]> (evidence d)) ∨
   (∃ row created, evidence d !! Evidence.id record = Some row ∧ evidence_candidate row = c ∧
    evidence d' = evidence d ∧
    attempts d' = <[(Evidence.id record, next_number (Evidence.id record) (attempts d)) :=
      {| attempt_json := json; attempt_output := output; attempt_created := created |}]> (attempts d))).

Lemma save_evidence_once_ok plan w c record output mandatory t s s' b :
  save_evidence_once plan w c record output mandatory t s = (s', Ok b) →
  mode s = ReadWrite ∧ Evidence.evidence_validate record = Ok tt ∧ str_len output ≤ MAX_OUTPUT_BYTES ∧
  ∃ json crow prow, json_encode record = Some json ∧
    verification_plans (database s) !! plan = Some prow ∧ verification_workflow prow = w ∧
    candidate_rows (database s) !! c = Some crow ∧ candidate_workflow crow = w ∧
    manifest_digest crow = Evidence.candidate_digest record ∧
    if b then s' = s
    else ∃ d', s' = with_database d' s ∧
      evidence_added plan w c record json output mandatory (database s) d'.
Proof.
  intros Hrun. unfold save_evidence_once in Hrun. inv_store.
  repeat match goal with u : () |- _ => destruct u end.
  case_match eqn:Howner; inv_store. apply orb_false_iff in Howner as [Howner ?]. to_prop.
  split_and!; [done|done|done|]. do 3 eexists. split_and!; try done.
  destruct (evidence (database s) !! Evidence.id record) as [row|] eqn:Hrow.
  - case_match eqn:Hsame; inv_store.
    apply orb_false_iff in Hsame as [Hsame ?]. apply orb_false_iff in Hsame as [Hsame ?]. to_prop.
    destruct (latest_record (Evidence.id record) row (database s)) as [[n lj] lo] eqn:Hlatest.
    case_match; inv_store; simpl; [done|]. eexists. split; [done|]. split; [done|]. right.
    apply latest_record_attempt in Hlatest as ->. do 2 eexists. by split_and!.
  - inv_store. simpl. eexists. split; [done|]. split; [done|]. left. split_and!; [done|done|by eexists].
Qed.

Lemma record_on_file_same id c json d d' :
  candidate_rows d' = candidate_rows d → record_on_file id c json d → record_on_file id c json d'.
Proof. intros Hc (record&row&?&?&?&?&?). exists record, row. by rewrite Hc. Qed.

Lemma evidence_added_ok plan w c record json output mandatory crow d d' :
  json_faithful Evidence.EvidenceRecord → evidence_ok d →
  Evidence.evidence_validate record = Ok tt → json_encode record = Some json →
  candidate_rows d !! c = Some crow → manifest_digest crow = Evidence.candidate_digest record →
  evidence_added plan w c record json output mandatory d d' → evidence_ok d'.
Proof.
  intros Hj Hok Hv Henc Hc Hdig [Hcand Hadd]. pose proof Hok as [Hr Ha Hn].
  assert (record_on_file (Evidence.id record) c json d') as Hnew.
  { exists record, crow. rewrite Hcand. split_and!; try done. by apply Hj. }
  destruct Hadd as [(Hnone&Hatt&created&He)|(row&created&Hrow&<-&He&Hatt)]; split.
  - intros id row. rewrite He. intros [[<- <-]|[_ ?]]%lookup_insert_Some; [done|].
    by eapply record_on_file_same, Hr.
  - intros id n a. rewrite He, Hatt. intros (row&Hrow&?)%Ha. exists row. split.
    + rewrite lookup_insert_ne by congruence. done.
    + by eapply record_on_file_same.
  - by rewrite Hatt.
  - intros id r. rewrite He. intros ?%Hr. by eapply record_on_file_same.
  - intros id n a. rewrite He, Hatt. intros [[[= <- <-] <-]|[_ (r&?&?)%Ha]]%lookup_insert_Some; [by exists row|].
    exists r. split; [done|]. by eapply record_on_file_same.
  - rewrite Hatt. by apply numbered_rows_insert.
Qed.

(** The records a load gives are those on file for the candidate. *)
Lemma load_candidate_evidence_ok c s records r output mandatory :
  evidence_ok (database s) → load_candidate_evidence c s = Ok records →
  (r, output, mandatory) ∈ records →
  ∃ row json, evidence (database s) !! Evidence.id r = Some row ∧ evidence_candidate row = c ∧
    json_decode json = Some r ∧ record_on_file (Evidence.id r) c json (database s) ∧
    mandatory = evidence_mandatory row.
Proof.
  intros Hok Hload Hin. unfold load_candidate_evidence in Hload. apply try_map_ok in Hload.
  apply list_elem_of_lookup in Hin as [i Hi].
  eapply Forall2_lookup_r in Hload as ([id row]&Hrow&Hl); [|exact Hi]. simpl in Hl.
  apply list_elem_of_lookup_2, list_elem_of_filter in Hrow as [Hc Hrow%elem_of_btree_iter].
  destruct (latest_record id row (database s)) as [[n json] o] eqn:Hlatest.
  apply result_bind_ok in Hl as (r'&Hr%decode_ok&[= -> -> <-]).
  pose proof (latest_record_on_file _ _ _ _ _ _ Hok Hrow Hlatest) as Hfile.
  destruct Hfile as (r'&crow&Hr'&Hid&?&?&?). assert (r' = r) as -> by congruence. subst id.
  exists row, json. split_and!; try done. rewrite <-Hc. by exists r, crow.
Qed.
End evidence_lemmas.

(** * Reviews on record *)

Section review_lemmas.
Context `{Sha256, Rfc3339, ToJson (list (string * string * bool)), Persist Workflow.Workflow,
  Persist Candidate.CandidateManifestUnchecked, Persist UncheckedPlan,
  Persist Evidence.EvidenceRecord, Persist Review.ReviewVerdict,
  Persist Request.RequestRecordUnchecked}.

(** The evidence on file for a candidate. *)
Definition evidence_about (c : CandidateId) (d : Database) : gset EvidenceId :=
  dom (filter (λ p, evidence_candidate p.2 = c) (evidence d)).

Lemma elem_of_evidence_about id c d :
  id ∈ evidence_about c d ↔ ∃ row, evidence d !! id = Some row ∧ evidence_candidate row = c.
Proof.
  unfold evidence_about. rewrite elem_of_dom. split.
  - intros [row [? ?]%map_lookup_filter_Some]. eauto.
  - intros (row&?&?). exists row. by apply map_lookup_filter_Some.
Qed.

(** A review on record: sound against a revision of the workflow's plan and the
    evidence on file, and about the candidate as it was saved. *)
Definition review_on_record (c : CandidateId) (role json : string) (d : Database) : Prop :=
  ∃ verdict crow n prow plan,
    json_decode json = Some verdict ∧ review_role (Review.role verdict) = Some role ∧
    candidate_rows d !! c = Some crow ∧ Review.candidate_digest verdict = manifest_digest crow ∧
    versions d !! (candidate_workflow crow, n) = Some prow ∧ json_decode (plan_json prow) = Some plan ∧
    Review.review_sound verdict (plan_requirements plan) (evidence_about c d).
Definition reviews_ok (d : Database) : Prop :=
  ∀ c role row, reviews d !! (c, role) = Some row → review_on_record c role (review_json row) d.

Lemma save_review_once_ok w c verdict t s s' b :
  save_review_once w c verdict t s = (s', Ok b) →
  mode s = ReadWrite ∧ ∃ role json, review_role (Review.role verdict) = Some role ∧
    json_encode verdict = Some json ∧
    if b then s' = s ∧ ∃ row, reviews (database s) !! (c, role) = Some row ∧ review_json row = json
    else ∃ state candidate plan records finalized,
      reviews (database s) !! (c, role) = None ∧
      load_workflow w s = Ok (Some state) ∧ Workflow.state state = Workflow.IndependentReviews ∧
      Workflow.current_candidate state = Some c ∧
      load_candidate c s = Ok (Some candidate) ∧ stored_workflow candidate = w ∧
      Candidate.candidate_digest (stored_manifest candidate) = Some (Review.candidate_digest verdict) ∧
      load_architecture w s = Ok (Some plan) ∧ load_candidate_evidence c s = Ok records ∧
      Review.review_validate verdict (plan_requirements plan)
        (list_to_set ((λ r, Evidence.id r.1.1) <$> records)) = Ok tt ∧
      s' = with_database (set_workflow_reviews (<[(c, role) :=
        {| review_json := json; review_finalized := finalized |}]> (reviews (database s)))
        (database s)) s.
Proof.
  intros Hrun. unfold save_review_once in Hrun. inv_store.
  split; [done|]. do 2 eexists. split; [done|]. split; [done|].
  match goal with H : Ok _ = Ok ?x |- _ => injection H as <- end.
  case_match; [case_match eqn:Hsame; inv_store; to_prop; by eauto|].
  inv_store. case_match eqn:Hstate; inv_store. apply orb_false_iff in Hstate as [Hstate Hcur].
  case_match eqn:Hown; inv_store. to_prop. repeat match goal with u : () |- _ => destruct u end.
  simpl. do 5 eexists. split_and!; try done.
  - by eapply bool_decide_eq_true_1.
  - congruence.
Qed.

Lemma review_on_record_mono c role json d d' :
  candidate_rows d ⊆ candidate_rows d' → versions d ⊆ versions d' →
  evidence_about c d ⊆ evidence_about c d' →
  review_on_record c role json d → review_on_record c role json d'.
Proof.
  intros Hc Hv He (v&crow&n&prow&plan&?&?&?&?&?&?&?). exists v, crow, n, prow, plan.
  split_and!; try done; [by eapply lookup_weaken..|]. by eapply Review.review_sound_mono.
Qed.

Lemma save_review_once_keeps w c verdict t s s' b :
  json_faithful Review.ReviewVerdict → candidates_ok (database s) → plans_ok (database s) →
  evidence_ok (database s) → reviews_ok (database s) →
  save_review_once w c verdict t s = (s', Ok b) → reviews_ok (database s').
Proof.
  intros Hj Hcand Hplans Hev Hok (_&role&json&Hrole&Hjson&Hsave)%save_review_once_ok.
  destruct b; [by destruct Hsave as [-> _]|].
  destruct Hsave as (state&cand&plan&records&finalized&Hnone&_&_&_&Hload&Hw&Hdig&Hplan&Hrec&Hval&->).
  intros c' role' row. simpl. unfold reviews at 1; simpl.
  intros [[[= <- <-] <-]|[_ Hrow]]%lookup_insert_Some; [|by apply Hok in Hrow]. simpl.
  destruct (load_candidate_row _ _ _ Hcand Hload) as (crow&Hcrow&Hcw&Hcd).
  unfold load_architecture in Hplan. destruct (plans (database s) !! w) as [prow|] eqn:Hp; [|done].
  apply result_bind_ok in Hplan as (p&Hp'%decode_ok&[= ->]).
  pose proof (proj1 (po_current _ Hplans w prow) Hp) as Hlast.
  pose proof (last_row_spec w (versions (database s))) as Hspec.
  destruct (last_row w (versions (database s))) as [[n r]|]; [|done]. simplify_eq/=.
  destruct Hspec as [Hv _]. exists verdict, crow, n, prow, plan. split_and!; try done.
  - by apply Hj.
  - rewrite Hcw. exact Hv.
  - apply Review.review_accepted_iff_sound in Hval. eapply Review.review_sound_mono; [|exact Hval].
    intros id (r&->&Hr)%elem_of_list_to_set%list_elem_of_fmap. destruct r as [[r o] m].
    destruct (load_candidate_evidence_ok _ _ _ _ _ _ Hev Hrec Hr) as (erow&js&He&Hc&_).
    apply elem_of_evidence_about. eauto.
Qed.
End review_lemmas.

(** * What the rows depend on *)

Section monotone.
Context `{Sha256, Rfc3339, ToJson (list (string * string * bool)), Persist Workflow.Workflow,
  Persist Candidate.CandidateManifestUnchecked, Persist UncheckedPlan,
  Persist Evidence.EvidenceRecord, Persist Review.ReviewVerdict,
  Persist Request.RequestRecordUnchecked}.

Lemma plans_ok_mono d d' :
  plans d' = plans d → versions d' = versions d → requests d ⊆ requests d' →
  plans_ok d → plans_ok d'.
Proof.
  intros Hp Hv Hr [Hn Hc Hb Hpl]. split; rewrite ?Hp, ?Hv; [done|done| |done].
  intros w n row (stored&request&?&?&?)%Hb. exists stored, request.
  split_and!; [by eapply lookup_weaken|done|done].
Qed.

Lemma evidence_ok_mono d d' :
  evidence d' = evidence d → attempts d' = attempts d → candidate_rows d ⊆ candidate_rows d' →
  evidence_ok d → evidence_ok d'.
Proof.
  intros He Ha Hc [Hr Hat Hn].
  assert (∀ id c json, record_on_file id c json d → record_on_file id c json d') as Hmono.
  { intros id c json (record&row&?&?&?&?&?). exists record, row. split_and!; try done.
    by eapply lookup_weaken. }
  split; rewrite ?He, ?Ha; [|intros id n a|done].
  - intros id row ?%Hr. by apply Hmono.
  - intros (row&?&?)%Hat. exists row. by split; [|apply Hmono].
Qed.

Lemma evidence_about_mono c d d' : evidence d ⊆ evidence d' → evidence_about c d ⊆ evidence_about c d'.
Proof.
  intros He id. rewrite !elem_of_evidence_about. intros (row&?&?). exists row.
  split; [by eapply lookup_weaken|done].
Qed.

Lemma reviews_ok_mono d d' :
  reviews d' = reviews d → candidate_rows d ⊆ candidate_rows d' → versions d ⊆ versions d' →
  evidence d ⊆ evidence d' → reviews_ok d → reviews_ok d'.
Proof.
  intros Hr Hc Hv He Hok c role row. rewrite Hr. intros Hrow%Hok.
  eapply review_on_record_mono; [done|done|by apply evidence_about_mono|done].
Qed.
End monotone.
End Documents.
