(* ===== verification/StoreLedger.v ===== *)
(** The persisted ledger (workflow-store/src/ledger.rs): entries in a table by
    their sequence number, read back as the chain of Ledger.v, and checkpoints. *)
From S2P Require Import Prelude Text Ids Paths Canonical WorkflowMachine TaskMachine Goals Verdicts.
From S2P Require Import Redaction Ledger History Database.

Module LedgerStore.
Export Store.
Import Event.
Local Open Scope N_scope.

Definition entries_of (d : Database) : gmap Z LedgerRow := ledger_entries (ledger_tables d).
Definition checkpoints_of (d : Database) : gmap Z CheckpointRow :=
  ledger_checkpoints (ledger_tables d).

(** [u64::try_from] of an [i64] and back. *)
Definition u64_of_i64 (z : Z) : result StoreError N :=
  if (z <? 0)%Z then Err IntegerRange else Ok (Z.to_N z).
Definition i64_of_u64 (n : N) : result StoreError Z :=
  if (Z.of_N n <=? i64_max)%Z then Ok (Z.of_N n) else Err IntegerRange.

(** [ORDER BY sequence] and its last row. *)
Definition ordered_entries (d : Database) : list (Z * LedgerRow) := btree_iter (entries_of d).

(** [row.sequence] and the hash a new entry follows. *)
Definition follow (previous : option (Z * LedgerRow)) : result StoreError (N * option ContentDigest) :=
  match previous with
  | Some (sequence, row) =>
      n ← u64_of_i64 sequence;
      next ← ok_or IntegerRange (checked_add u64_max n 1);
      Ok (next, Some (ledger_hash row))
  | None => Ok (0, None)
  end.

Section ledger.
Context `{Sha256, Rfc3339, ToJson LedgerEvent, Persist LedgerEvent}.

(** [INSERT INTO ledger_entries]: the sequence number, the event and the hash
    are unique. *)
Definition insert_entry (sequence : Z) (row : LedgerRow) : Statement unit :=
  d ← m_get;
  _ ← constraint (bool_decide (entries_of d !! sequence = None));
  _ ← constraint (bool_decide (map_Forall (λ _ r,
        ledger_event_id r ≠ ledger_event_id row ∧ ledger_hash r ≠ ledger_hash row) (entries_of d)));
  m_modify (set_ledger_entries (<[sequence := row]> (entries_of d))).

Definition append_ledger_event (event : LedgerEvent) : method Store StoreError Ledger.LedgerEntry :=
  _ ← require_writable;
  transaction (
    previous ← select (λ d, last (ordered_entries d));
    '(sequence, previous_hash) ← m_lift (follow previous);
    entry ← m_lift (map_err LedgerFailure (Ledger.entry_new sequence previous_hash event));
    key ← m_lift (i64_of_u64 (Ledger.sequence entry));
    json ← encode (Ledger.event entry);
    created ← time_text (timestamp (Ledger.event entry));
    _ ← insert_entry key
      {| ledger_event_id := event_id (Ledger.event entry);
         ledger_workflow := workflow_id (Ledger.event entry);
         ledger_role := actor_role (actor (Ledger.event entry)); ledger_json := json;
         ledger_previous := Ledger.previous_hash entry; ledger_hash := Ledger.hash entry;
         ledger_created := created |};
    mret (Commit entry)).

Definition load_entry (entry : Z * LedgerRow) : result StoreError Ledger.LedgerEntry :=
  let '(sequence, row) := entry in
  event ← decode (ledger_json row);
  n ← u64_of_i64 sequence;
  Ok {| Ledger.event := event; Ledger.hash := ledger_hash row;
        Ledger.previous_hash := ledger_previous row; Ledger.sequence := n |}.
Definition load_ledger (s : Store) : result StoreError Ledger.LedgerChain :=
  try_map load_entry (ordered_entries (database s)).

(** One turn of the loop of [load_role_session_ids]. *)
Definition collect_session (workflow : WorkflowId) (role : WorkflowRole) (sessions : gset string)
    (row : LedgerRow) : result StoreError (gset string) :=
  event ← decode (ledger_json row);
  if negb (bool_decide (workflow_id event = Some workflow))
     || negb (bool_decide (actor_role (actor event) = Some role))
  then Err AggregateConflict else
  match session_id (actor event) with
  | Some session =>
      if bool_decide (session = "") || (256 <? str_len session) then Err AggregateConflict
      else Ok ({[session]} ∪ sessions)
  | None => Ok sessions
  end.
Definition load_role_session_ids (workflow : WorkflowId) (role : WorkflowRole) (s : Store)
    : result StoreError (list string) :=
  sessions ← try_fold (collect_session workflow role) ∅
    (filter (λ row, ledger_workflow row = Some workflow ∧ ledger_role row = Some role)
       (ordered_entries (database s)).*2);
  Ok (bset_iter sessions).

Definition is_revision (revision : string) : bool :=
  ((str_len revision =? 40) || (str_len revision =? 64)) && str_all is_lower_hex revision.

(** The loop of [load_worktree_base_revision], newest entries first. *)
Fixpoint find_base_revision (workflow : WorkflowId) (rows : list LedgerRow)
    : result StoreError (option string) :=
  match rows with
  | [] => Ok None
  | row :: rows' =>
      event ← decode (ledger_json row);
      if negb (bool_decide (workflow_id event = Some workflow)) then Err AggregateConflict
      else if negb (bool_decide (metadata event !! "action" = Some "execution_worktree_prepared"))
      then find_base_revision workflow rows'
      else match data event with
           | GitData false revision =>
               if is_revision revision then Ok (Some revision) else Err AggregateConflict
           | _ => Err AggregateConflict
           end
  end.
Definition load_worktree_base_revision (workflow : WorkflowId) (s : Store)
    : result StoreError (option string) :=
  find_base_revision workflow
    (reverse (filter (λ row, ledger_workflow row = Some workflow) (ordered_entries (database s)).*2)).

Context `{Checkpoint.Ed25519, Persist Checkpoint.Checkpoint}.

#[local] Instance CheckpointVerification_eq_dec : EqDecision Checkpoint.CheckpointVerification.
Proof. solve_decision. Defined.

Definition save_checkpoint (c : Checkpoint.Checkpoint) : method Store StoreError unit :=
  _ ← require_writable;
  key ← m_lift (i64_of_u64 (Checkpoint.sequence c));
  row ← reading (λ s, Ok (entries_of (database s) !! key));
  let chain_head := (λ r, (Checkpoint.sequence c, ledger_hash r)) <$> row in
  verified ← m_lift (ok_or Panicked (Checkpoint.verify_embedded c chain_head));
  if negb (bool_decide (verified = Checkpoint.Valid)) then m_throw LedgerCheckpoint else
  json ← m_lift (ok_or Serialization (json_encode c));
  autocommit (
    created ← time_text (Checkpoint.signed_at c);
    entry ← select (λ d, entries_of d !! key);
    _ ← constraint (bool_decide (is_Some entry));
    m_modify (λ d, set_ledger_checkpoints
      (<[key := {| checkpoint_json := json; checkpoint_created := created |}]> (checkpoints_of d)) d)).

Definition load_checkpoints (s : Store) : result StoreError (list Checkpoint.Checkpoint) :=
  try_map (λ row, decode (checkpoint_json row)) (btree_values (checkpoints_of (database s))).
End ledger.

(** * The table as a chain *)

Section ledger_lemmas.
Context `{Sha256, Rfc3339, ToJson LedgerEvent, Persist LedgerEvent}.

(** The rows hold the entries of a linked chain, each under its place in it. *)
Record ledger_holds (c : Ledger.LedgerChain) (d : Database) : Prop := {
  lh_row i e : c !! i = Some e → ∃ row, entries_of d !! Z.of_nat i = Some row ∧
    json_decode (ledger_json row) = Some (Ledger.event e) ∧ ledger_hash row = Ledger.hash e ∧
    ledger_previous row = Ledger.previous_hash e;
  lh_key z : is_Some (entries_of d !! z) → ∃ i, z = Z.of_nat i ∧ (i < length c)%nat;
  lh_linked : Ledger.linked 0 None c (Ledger.chain_head c);
}.

Lemma ledger_holds_empty : ledger_holds [] empty_database.
Proof. split; [done| |constructor]. intros z [? Hz]. unfold entries_of in Hz; simpl in Hz. by rewrite lookup_empty in Hz. Qed.

Lemma ledger_holds_same c d d' : ledger_tables d' = ledger_tables d → ledger_holds c d → ledger_holds c d'.
Proof.
  intros Heq [Hr Hk Hl]. assert (entries_of d' = entries_of d) as He by (unfold entries_of; by rewrite Heq).
  split; [|by intros z; rewrite He; apply Hk|done]. intros i e. rewrite He. apply Hr.
Qed.

Lemma linked_sequence i p c h j e :
  Ledger.linked i p c h → c !! j = Some e → Ledger.sequence e = N.of_nat (i + j) ∧ N.of_nat (i + j) ≤ u64_max.
Proof.
  intros Hl. revert j. induction Hl as [|i p e0 c h m Hle Hseq _ _ _ _ IH]; intros j; [done|].
  destruct j as [|j]; simpl.
  - intros [= <-]. by rewrite Nat.add_0_r.
  - intros Hj. rewrite <-plus_n_Sm. by apply IH.
Qed.

Lemma ordered_keys c d :
  ledger_holds c d → (ordered_entries d).*1 = Z.of_nat <$> seq 0 (length c).
Proof.
  intros [Hr Hk Hl]. apply (sorted_by_key_unique id).
  - rewrite list_fmap_id. apply NoDup_btree_keys.
  - apply NoDup_Permutation; [apply NoDup_btree_keys|apply (NoDup_fmap_2 _), NoDup_seq|].
    intros z. change ((ordered_entries d).*1) with (btree_keys (entries_of d)).
    rewrite elem_of_btree_keys, list_elem_of_fmap. setoid_rewrite elem_of_seq. split.
    + intros Hz. apply Hk in Hz as (i&->&?). exists i. split; [done|lia].
    + intros (i&->&?). destruct (lookup_lt_is_Some_2 c i) as [e He]; [lia|].
      destruct (Hr i e He) as (row&?&_). by eexists.
  - apply btree_keys_sorted.
  - generalize 0%nat (length c). clear. intros k n. revert k.
    induction n as [|n IH]; intros k; simpl; [constructor|].
    constructor; [apply IH|]. apply Forall_fmap, Forall_forall. intros j [? ?]%elem_of_seq. simpl.
    unfold key_le; simpl. lia.
Qed.

Lemma ordered_lookup c d i z row :
  ledger_holds c d → ordered_entries d !! i = Some (z, row) →
  z = Z.of_nat i ∧ (i < length c)%nat ∧ entries_of d !! z = Some row.
Proof.
  intros Hc Hi. pose proof (ordered_keys c d Hc) as Hkeys.
  assert ((ordered_entries d).*1 !! i = Some z) as Hz by by rewrite list_lookup_fmap, Hi.
  rewrite Hkeys, list_lookup_fmap in Hz. apply fmap_Some in Hz as (j&Hj&->).
  apply lookup_seq in Hj as [-> ?]. split_and!; [done|done|].
  apply elem_of_btree_iter. by eapply list_elem_of_lookup_2.
Qed.

Lemma length_ordered c d : ledger_holds c d → length (ordered_entries d) = length c.
Proof.
  intros Hc. rewrite <-(length_fmap fst), (ordered_keys c d Hc), length_fmap, length_seq. done.
Qed.

(** The chain is what a load gives. *)
Lemma ledger_holds_loads c s : ledger_holds c (database s) → load_ledger s = Ok c.
Proof.
  intros Hc. unfold load_ledger. apply try_map_ok. apply Forall2_same_length_lookup. split.
  - by apply length_ordered.
  - intros i [z row] e Hi He. destruct (ordered_lookup _ _ _ _ _ Hc Hi) as (->&_&Hrow).
    destruct (lh_row _ _ Hc i e He) as (row'&Hrow'&Hj&Hh&Hp). simplify_eq.
    destruct (linked_sequence _ _ _ _ _ _ (lh_linked _ _ Hc) He) as [Hs _].
    unfold load_entry, decode, u64_of_i64. rewrite Hj. simpl.
    destruct (Z.of_nat i <? 0)%Z eqn:Hneg; [to_prop; lia|]. simpl.
    destruct e as [ev h p n]; simpl in *. rewrite Hh, Hp, Hs. do 2 f_equal. lia.
Qed.

Lemma follow_last c d n p :
  ledger_holds c d → follow (last (ordered_entries d)) = Ok (n, p) →
  n = N.of_nat (length c) ∧ p = Ledger.chain_head c.
Proof.
  intros Hc. pose proof (length_ordered c d Hc) as Hlen. rewrite !last_lookup, Hlen.
  unfold Ledger.chain_head. rewrite last_lookup. destruct (decide (length c = 0)%nat) as [Hlen0|Hlen0].
  - apply nil_length_inv in Hlen0 as ->. simpl in *.
    destruct (ordered_entries d) as [|p' l] eqn:Ho; [|done]. simpl. by intros [= <- <-].
  - destruct (ordered_entries d !! pred (length c)) as [[z row]|] eqn:Hi.
    + destruct (ordered_lookup _ _ _ _ _ Hc Hi) as (->&Hlt&Hrow).
      destruct (lookup_lt_is_Some_2 c (pred (length c))) as [e He]; [done|]. rewrite He. simpl.
      destruct (lh_row _ _ Hc _ e He) as (row'&Hrow'&_&Hh&_). simplify_eq.
      unfold u64_of_i64. destruct (Z.of_nat _ <? 0)%Z eqn:Hneg; [done|].
      cbn [mbind result_bind]. rewrite result_bind_ok.
      intros (next&[-> _]%ok_or_ok%checked_add_some&[= <- <-]). rewrite Hh. split; [lia|done].
    + apply lookup_ge_None in Hi. rewrite Hlen in Hi. lia.
Qed.

Lemma insert_entry_ok z row d d' u :
  insert_entry z row d = (d', Ok u) →
  entries_of d !! z = None ∧ d' = set_ledger_entries (<[z := row]> (entries_of d)) d.
Proof. intros Hrun. unfold insert_entry in Hrun. inv_store. by to_prop. Qed.

(** Appending to the table is appending to the chain. *)
Lemma append_ledger_event_ok c ev s s' e :
  json_faithful LedgerEvent → ledger_holds c (database s) →
  append_ledger_event ev s = (s', Ok e) →
  mode s = ReadWrite ∧ Ledger.chain_append ev c = (c ++ [e], Ok e) ∧
  ledger_holds (c ++ [e]) (database s') ∧ entries_of (database s) !! Z.of_nat (length c) = None ∧
  ∃ row, s' = with_database (set_ledger_entries
                (<[Z.of_nat (length c) := row]> (entries_of (database s))) (database s)) s.
Proof.
  intros Hj Hc Hrun. unfold append_ledger_event in Hrun. inv_store. split; [done|].
  match goal with H : (let '(_, _) := ?x in _) _ = _ |- _ => destruct x as [n p] end.
  match goal with H : follow _ = Ok _ |- _ => destruct (follow_last _ _ _ _ Hc H) as [-> ->] end.
  inv_store.
  match goal with H : insert_entry _ _ _ = _ |- _ => apply insert_entry_ok in H as [Hnone ->] end.
  simpl. match goal with H : Ledger.entry_new _ _ _ = Ok ?e' |- _ => rename e' into e; rename H into Hnew end.
  assert (Ledger.event e = ev ∧ Ledger.sequence e = N.of_nat (length c) ∧
    Ledger.previous_hash e = Ledger.chain_head c) as (He&Hs&Hp).
  { unfold Ledger.entry_new in Hnew. by apply result_bind_ok in Hnew as (?&_&[= <-]). }
  match goal with H : i64_of_u64 _ = Ok ?k |- _ => rename k into key; rename H into Hkey end.
  unfold i64_of_u64 in Hkey. destruct (_ <=? i64_max)%Z eqn:Hfit; [|done].
  injection Hkey as <-. to_prop. rewrite Hs in *.
  assert (Ledger.chain_append ev c = (c ++ [e], Ok e)) as Happ.
  { unfold Ledger.chain_append. run_method.
    rewrite Ledger.u64_try_from_le; [|unfold i64_max, u64_max in *; lia]. simpl. by rewrite Hnew. }
  destruct (Ledger.chain_append_linked _ _ _ _ _ (lh_linked _ _ Hc) Happ) as (_&Hl&_).
  rewrite nat_N_Z in *. split; [done|]. split; [|split; [done|by eexists]]. split.
  - intros i e' Hi. unfold entries_of at 1; simpl. apply lookup_app_Some in Hi as [Hi|[Hge Hi]].
    + destruct (lh_row _ _ Hc i e' Hi) as (row&Hrow&?). exists row. split; [|done].
      apply lookup_lt_Some in Hi. rewrite lookup_insert_ne by lia. done.
    + apply list_lookup_singleton_Some in Hi as [Hi <-]. assert (i = length c) as -> by lia.
      eexists. rewrite lookup_insert_eq. split; [done|]. simpl. split_and!; [|done|done].
      by apply Hj.
  - intros z. unfold entries_of at 1; simpl. rewrite length_app. simpl.
    intros [r [[<- _]|[_ Hr]]%lookup_insert_Some].
    + exists (length c). split; [done|lia].
    + destruct (lh_key _ _ Hc z) as (i&->&?); [by exists r|]. exists i. split; [done|lia].
  - unfold Ledger.chain_head. by rewrite last_snoc.
Qed.

Lemma append_ledger_event_atomic ev : atomic (append_ledger_event ev).
Proof. unfold append_ledger_event. solve_atomic. Qed.

Context `{Checkpoint.Ed25519, Persist Checkpoint.Checkpoint}.

(** A checkpoint is saved when it verifies against the entry it names. *)
Lemma save_checkpoint_ok c s s' u :
  save_checkpoint c s = (s', Ok u) →
  mode s = ReadWrite ∧ ∃ key row json created,
    i64_of_u64 (Checkpoint.sequence c) = Ok key ∧ entries_of (database s) !! key = Some row ∧
    Checkpoint.verify_embedded c (Some (Checkpoint.sequence c, ledger_hash row)) =
      Some Checkpoint.Valid ∧ json_encode c = Some json ∧
    s' = with_database (set_ledger_checkpoints (<[key :=
      {| checkpoint_json := json; checkpoint_created := created |}]> (checkpoints_of (database s)))
      (database s)) s.
Proof.
  intros Hrun. unfold save_checkpoint in Hrun. inv_store. split; [done|].
  match goal with H : Ok _ = Ok ?x |- _ => injection H as <- end.
  case_match eqn:Hv; inv_store. to_prop.
  destruct (entries_of (database s) !! x2) as [row|] eqn:Hrow; [|by destruct H10].
  do 4 eexists. split_and!; try done. simpl in *. congruence.
Qed.
Lemma save_checkpoint_atomic c : atomic (save_checkpoint c).
Proof. unfold save_checkpoint. solve_atomic. Qed.

Definition rest_of_ledger (d : Database) :=
  (workflow_tables d, plan_tables d, candidate_tables d, goal_tables d).
Lemma append_ledger_event_frame ev : preserves (on_database (same rest_of_ledger)) (append_ledger_event ev).
Proof. unfold append_ledger_event, insert_entry. solve_frame. Qed.
Lemma save_checkpoint_frame c :
  preserves (on_database (same (λ d, (rest_of_ledger d, entries_of d)))) (save_checkpoint c).
Proof. unfold save_checkpoint. solve_frame. Qed.
End ledger_lemmas.
End LedgerStore.
