(* ===== verification/StoreGoals.v ===== *)
(** Persisted goals (workflow-store/src/goals.rs): the goal of a project, the
    commands and amendments it takes, the goal a session works on, the revisions
    of its plan and the workflows of its milestones. *)
From S2P Require Import Prelude Text Ids Paths Canonical WorkflowMachine TaskMachine Requests Goals.
From S2P Require Import Verdicts Redaction Ledger Database StoreCommands.

Module GoalStore.
Export Commands.
Local Open Scope N_scope.

Definition MAX_DOCUMENT_BYTES : N := 8 * 1024 * 1024.

Record GoalPlanRecord : Type := {
  record_content : string; record_digest : ContentDigest; record_created : WorkflowTimestamp;
  record_revision : N; record_session : string;
}.

(** What the event of an amendment writes. *)
Record AmendmentAppended : Type := { appended_sequence : N; appended_digest : ContentDigest }.

(** A goal is written field by field and read through its check, and so is the
    goal inside a recorded answer. *)
#[export] Instance goal_persist `{Persist Goal.UncheckedGoal} : Persist Goal.Goal := {|
  json_encode g := json_encode (Goal.goal_unchecked g);
  json_decode s := u ← json_decode s;
    match Goal.goal_try_from u with Ok g => Some g | Err _ => None end;
|}.
#[export] Instance goal_result_persist `{Persist (PersistedResult Goal.GoalEvent Goal.UncheckedGoal)}
    : Persist (PersistedResult Goal.GoalEvent Goal.Goal) := {|
  json_encode r := json_encode {| persisted_events := persisted_events r;
                                  persisted_state := Goal.goal_unchecked (persisted_state r) |};
  json_decode s := u ← json_decode s;
    match Goal.goal_try_from (persisted_state u) with
    | Ok g => Some {| persisted_events := persisted_events u; persisted_state := g |}
    | Err _ => None
    end;
|}.

Definition goal_rows (d : Database) : gmap GoalId GoalRow := goals (goal_tables d).
Definition plan_rows (d : Database) : gmap (GoalId * N) GoalPlanRow := goal_plans (goal_tables d).

Section goals.
Context `{Sha256, Rfc3339, Persist Goal.UncheckedGoal, Persist Goal.GoalEvent,
  Persist (PersistedResult Goal.GoalEvent Goal.UncheckedGoal), Persist AmendmentAppended}.

Definition GoalApplyResult : Type := ApplyResult Goal.GoalEvent Goal.Goal.

Definition save_goal_once (goal_id : GoalId) (project_id : ProjectId) (goal : Goal.Goal)
    (timestamp : WorkflowTimestamp) : method Store StoreError bool :=
  _ ← require_writable;
  json ← m_lift (ok_or Serialization (json_encode goal));
  existing ← reading (λ s, Ok (goal_rows (database s) !! goal_id));
  match existing with
  | Some row =>
      if bool_decide (goal_project row = project_id) && bool_decide (goal_json row = json)
      then mret true else m_throw AggregateConflict
  | None =>
      autocommit (
        created ← time_text timestamp;
        _ ← m_modify (λ d, set_goals (<[goal_id :=
              {| goal_project := project_id; goal_json := json; goal_created := created;
                 goal_updated := created |}]> (goal_rows d)) d);
        mret false)
  end.

Definition load_goal (goal_id : GoalId) (s : Store)
    : result StoreError (option (ProjectId * Goal.Goal)) :=
  match goal_rows (database s) !! goal_id with
  | Some row => goal ← decode (goal_json row); Ok (Some (goal_project row, goal))
  | None => Ok None
  end.

(** [ORDER BY updated_at DESC, goal_id]. *)
Definition listed_before (a b : GoalId * GoalRow) : Prop :=
  if decide (goal_updated a.2 = goal_updated b.2) then key_le a.1 b.1
  else key_le (goal_updated b.2) (goal_updated a.2).
#[global] Instance listed_before_dec : RelDecision listed_before.
Proof. intros a b. unfold listed_before. case_decide; apply _. Defined.

Definition list_goals (project_id : ProjectId) (s : Store)
    : result StoreError (list (GoalId * Goal.Goal)) :=
  try_map (λ '(id, row), goal ← decode (goal_json row); Ok (id, goal))
    (merge_sort listed_before
       (filter (λ '(_, row), goal_project row = project_id)
          (map_to_list (goal_rows (database s))))).

(** [UPDATE goals SET goal_json = ?2, updated_at = ?3]. *)
Definition update_goal (goal_id : GoalId) (row : GoalRow) (json updated : string) : Statement unit :=
  m_modify (λ d, set_goals (<[goal_id :=
    {| goal_project := goal_project row; goal_json := json; goal_created := goal_created row;
       goal_updated := updated |}]> (goal_rows d)) d).

Definition apply_goal_command (goal_id : GoalId) (idempotency_key : string)
    (command : Goal.GoalCommand) (timestamp : WorkflowTimestamp)
    : method Store StoreError GoalApplyResult :=
  _ ← require_writable;
  _ ← m_lift (validate_idempotency_key idempotency_key);
  transaction (
    persisted ← recorded_result GoalAggregate goal_id idempotency_key;
    match persisted with
    | Some json =>
        result ← m_lift (decode json);
        mret (Rollback (repeated result))
    | None =>
        current ← select (λ d, goal_rows d !! goal_id);
        row ← one_row current;
        state ← m_lift (decode (goal_json row));
        '(state, events) ← m_lift (apply_to GoalFailure (Goal.goal_apply command) state);
        updated ← time_text timestamp;
        json ← encode state;
        _ ← update_goal goal_id row json updated;
        _ ← insert_events GoalAggregate goal_id updated events;
        _ ← insert_result GoalAggregate goal_id idempotency_key updated
              {| persisted_events := events; persisted_state := state |};
        mret (Commit (applied events state))
    end).

Definition append_goal_amendment (goal_id : GoalId) (idempotency_key text : string)
    (timestamp : WorkflowTimestamp) : method Store StoreError Goal.Goal :=
  _ ← require_writable;
  _ ← m_lift (validate_idempotency_key idempotency_key);
  transaction (
    persisted ← recorded_result AmendmentAggregate goal_id idempotency_key;
    match persisted with
    | Some json => goal ← m_lift (decode json); mret (Rollback goal)
    | None =>
        current ← select (λ d, goal_rows d !! goal_id);
        row ← one_row current;
        goal ← m_lift (decode (goal_json row));
        '(goal, _) ← m_lift (apply_to GoalFailure (Goal.goal_append_amendment text timestamp) goal);
        json ← encode goal;
        amendment ← m_lift (ok_or AggregateConflict (last (Request.amendments (Goal.request goal))));
        updated ← time_text timestamp;
        _ ← update_goal goal_id row json updated;
        digest ← or_panic (Request.amendment_digest amendment);
        _ ← insert_event GoalAggregate goal_id updated
              {| appended_sequence := Request.sequence amendment; appended_digest := digest |};
        _ ← insert_result AmendmentAggregate goal_id idempotency_key updated goal;
        mret (Commit goal)
    end).

Definition validate_session (value : string) : result StoreError unit :=
  reject_if (is_blank value || (512 <? str_len value) || contains_char nul value) AggregateConflict.

Definition focus_goal (project_id : ProjectId) (session_id : string) (goal_id : GoalId)
    (timestamp : WorkflowTimestamp) : method Store StoreError unit :=
  _ ← require_writable;
  _ ← m_lift (validate_session session_id);
  loaded ← reading (load_goal goal_id);
  owner ← m_lift (ok_or AggregateConflict (fst <$> loaded));
  if negb (bool_decide (owner = project_id)) then m_throw AggregateConflict else
  autocommit (
    updated ← time_text timestamp;
    d ← m_get;
    _ ← constraint (bool_decide (is_Some (goal_rows d !! goal_id)));
    m_modify (set_goal_focus (<[(project_id, session_id) :=
      {| focus_goal := goal_id; focus_updated := updated |}]> (goal_focus (goal_tables d))))).

Definition focused_goal (project_id : ProjectId) (session_id : string) (s : Store)
    : result StoreError (option GoalId) :=
  _ ← validate_session session_id;
  Ok (Store.focus_goal <$> goal_focus (goal_tables (database s)) !! (project_id, session_id)).

(** The revision of a goal's plan that has a content. *)
Definition revision_of_digest (goal_id : GoalId) (digest : ContentDigest) (d : Database) : option N :=
  head (omap (λ '((goal, n), row),
          if decide (goal = goal_id ∧ goal_plan_digest row = digest) then Some n else None)
        (map_to_list (plan_rows d))).

Definition save_goal_plan (goal_id : GoalId) (source_session_id content : string)
    (timestamp : WorkflowTimestamp) : method Store StoreError N :=
  _ ← require_writable;
  _ ← m_lift (validate_session source_session_id);
  _ ← m_lift (reject_if (is_blank content || (MAX_DOCUMENT_BYTES <? str_len content))
        AggregateConflict);
  let digest := digest_of content in
  existing ← reading (λ s, Ok (revision_of_digest goal_id digest (database s)));
  match existing with
  | Some revision => mret revision
  | None =>
      revision ← reading (λ s, Ok (next_number goal_id (plan_rows (database s))));
      _ ← m_lift (reject_if (u32_max <? revision) Sqlite);
      autocommit (
        created ← time_text timestamp;
        d ← m_get;
        _ ← constraint (bool_decide (is_Some (goal_rows d !! goal_id)));
        _ ← constraint (bool_decide (plan_rows d !! (goal_id, revision) = None));
        _ ← constraint (bool_decide (revision_of_digest goal_id digest d = None));
        _ ← m_modify (set_goal_plans (<[(goal_id, revision) :=
              {| goal_plan_session := source_session_id; goal_plan_content := content;
                 goal_plan_digest := digest; goal_plan_created := created |}]> (plan_rows d)));
        mret revision)
  end.

Definition load_latest_goal_plan (goal_id : GoalId) (s : Store)
    : result StoreError (option GoalPlanRecord) :=
  match last_row goal_id (plan_rows (database s)) with
  | Some (revision, row) =>
      created ← ok_or AggregateConflict (timestamp_parse (goal_plan_created row));
      Ok (Some {| record_content := goal_plan_content row; record_digest := goal_plan_digest row;
                  record_created := created; record_revision := revision;
                  record_session := goal_plan_session row |})
  | None => Ok None
  end.

Definition links (d : Database) : gmap WorkflowId GoalWorkflowRow := goal_workflows (goal_tables d).

Definition link_goal_workflow (goal_id : GoalId) (workflow_id : WorkflowId) (milestone_text : string)
    (timestamp : WorkflowTimestamp) : method Store StoreError unit :=
  _ ← require_writable;
  _ ← m_lift (reject_if (is_blank milestone_text || (4096 <? str_len milestone_text)
                         || contains_char nul milestone_text) AggregateConflict);
  existing ← reading (λ s, Ok (links (database s) !! workflow_id));
  match existing with
  | Some row =>
      if bool_decide (linked_goal row = goal_id) && bool_decide (milestone row = milestone_text)
      then mret tt else m_throw AggregateConflict
  | None =>
      autocommit (
        linked ← time_text timestamp;
        d ← m_get;
        _ ← constraint (bool_decide (is_Some (goal_rows d !! goal_id)));
        _ ← constraint (bool_decide (is_Some (workflows (workflow_tables d) !! workflow_id)));
        m_modify (set_goal_workflows (<[workflow_id :=
          {| linked_goal := goal_id; milestone := milestone_text; linked_at := linked |}]> (links d))))
  end.

(** [ORDER BY linked_at, workflow_id]. *)
Definition linked_before (a b : WorkflowId * GoalWorkflowRow) : Prop :=
  if decide (linked_at a.2 = linked_at b.2) then key_le a.1 b.1
  else key_le (linked_at a.2) (linked_at b.2).
#[global] Instance linked_before_dec : RelDecision linked_before.
Proof. intros a b. unfold linked_before. case_decide; apply _. Defined.
Definition goal_workflows_of (goal_id : GoalId) (s : Store) : list (WorkflowId * string) :=
  (λ '(id, row), (id, milestone row)) <$>
    merge_sort linked_before
      (filter (λ '(_, row), linked_goal row = goal_id) (map_to_list (links (database s)))).
End goals.

(** * Lemmas *)

Section goal_lemmas.
Context `{Sha256, Rfc3339, Persist Goal.UncheckedGoal, Persist Goal.GoalEvent,
  Persist (PersistedResult Goal.GoalEvent Goal.UncheckedGoal), Persist AmendmentAppended}.

(** What the goals' commands leave alone. *)
Definition rest_of_goals (d : Database) :=
  (workflows (workflow_tables d), tasks (workflow_tables d), leases (workflow_tables d),
   plan_tables d, candidate_tables d, ledger_tables d).

Lemma apply_goal_command_ok id key c t s s' r :
  apply_goal_command id key c t s = (s', Ok r) →
  mode s = ReadWrite ∧
  ((∃ json p, answer_of GoalAggregate id (database s) key json ∧ json_decode json = Some p ∧
      r = repeated p ∧ s' = s) ∨
   (∃ row g g' es json updated d', goal_rows (database s) !! id = Some row ∧
      json_decode (goal_json row) = Some g ∧ Goal.goal_apply c g = (g', Ok es) ∧
      r = applied es g' ∧ s' = with_database d' s ∧ json_encode g' = Some json ∧
      goal_rows d' = <[id := {| goal_project := goal_project row; goal_json := json;
        goal_created := goal_created row; goal_updated := updated |}]> (goal_rows (database s)) ∧
      answer_added GoalAggregate id key {| persisted_events := es; persisted_state := g' |}
        (database s) d' ∧ rest_of_goals d' = rest_of_goals (database s))).
Proof.
  intros Hrun. unfold apply_goal_command, update_goal in Hrun. inv_store.
  match goal with H : recorded_result _ _ _ _ = _ |- _ =>
    apply recorded_result_ok in H as [-> Hrec] end.
  split; [done|]. case_match; inv_store; [left; by eauto 10|].
  right. match goal with H : (let '(_, _) := ?x in _) _ = _ |- _ => destruct x as [g' es] end.
  inv_store.
  match goal with H : insert_events _ _ _ _ _ = _, H' : insert_result _ _ _ _ ?p _ = _ |- _ =>
    destruct (answer_added_intro _ _ _ _ p (database s) _ _ _ _ _ H H' eq_refl eq_refl)
      as (?&Hw&Ht&Hl&Hp&Hc&Hg&Hld) end.
  simpl in *. do 7 eexists. split_and!; try done.
  - unfold goal_rows at 1. by rewrite Hg.
  - unfold rest_of_goals. by rewrite Hw, Ht, Hl, Hp, Hc, Hld.
Qed.

Lemma append_goal_amendment_ok id key text t s s' g' :
  append_goal_amendment id key text t s = (s', Ok g') →
  mode s = ReadWrite ∧
  ((∃ json, answer_of AmendmentAggregate id (database s) key json ∧ json_decode json = Some g' ∧
      s' = s) ∨
   (∃ row g json updated event answer d', goal_rows (database s) !! id = Some row ∧
      json_decode (goal_json row) = Some g ∧ Goal.goal_append_amendment text t g = (g', Ok tt) ∧
      s' = with_database d' s ∧ json_encode g' = Some json ∧
      goal_rows d' = <[id := {| goal_project := goal_project row; goal_json := json;
        goal_created := goal_created row; goal_updated := updated |}]> (goal_rows (database s)) ∧
      command_deduplication (workflow_tables (database s)) !! key = None ∧
      events (workflow_tables d') = events (workflow_tables (database s)) ++ [event] ∧
      event_aggregate event = GoalAggregate ∧ event_aggregate_id event = id ∧
      command_deduplication (workflow_tables d') =
        <[key := answer]> (command_deduplication (workflow_tables (database s))) ∧
      aggregate_type answer = AmendmentAggregate ∧ aggregate_id answer = id ∧
      result_json answer = json ∧ rest_of_goals d' = rest_of_goals (database s))).
Proof.
  intros Hrun. unfold append_goal_amendment, update_goal, insert_event in Hrun. inv_store.
  match goal with H : recorded_result _ _ _ _ = _ |- _ =>
    apply recorded_result_ok in H as [-> Hrec] end.
  split; [done|]. case_match; inv_store; [left; by eauto 10|].
  right. match goal with H : (let '(_, _) := ?x in _) _ = _ |- _ => destruct x as [g1 u] end.
  inv_store.
  match goal with H : insert_result _ _ _ _ _ _ = _ |- _ =>
    apply insert_result_ok in H as (json&Hjson&Hkey&->) end.
  match goal with u : () |- _ => destruct u end.
  simpl in *. simplify_eq. do 7 eexists. split_and!; try done.
  by destruct u.
Qed.

Lemma apply_goal_command_atomic id key c t : atomic (apply_goal_command id key c t).
Proof. unfold apply_goal_command. solve_atomic. Qed.
Lemma append_goal_amendment_atomic id key text t : atomic (append_goal_amendment id key text t).
Proof. unfold append_goal_amendment. solve_atomic. Qed.
Lemma save_goal_once_atomic id p g t : atomic (save_goal_once id p g t).
Proof. unfold save_goal_once. solve_atomic. Qed.
Lemma focus_goal_atomic p x id t : atomic (focus_goal p x id t).
Proof. unfold focus_goal. solve_atomic. Qed.
Lemma save_goal_plan_atomic id x content t : atomic (save_goal_plan id x content t).
Proof. unfold save_goal_plan. solve_atomic. Qed.
Lemma link_goal_workflow_atomic id w m t : atomic (link_goal_workflow id w m t).
Proof. unfold link_goal_workflow. solve_atomic. Qed.

Lemma save_goal_once_ok id p g t s s' b :
  save_goal_once id p g t s = (s', Ok b) →
  mode s = ReadWrite ∧ ∃ json, json_encode (Goal.goal_unchecked g) = Some json ∧
  if b then s' = s ∧ ∃ row, goal_rows (database s) !! id = Some row ∧ goal_project row = p ∧
              goal_json row = json
  else goal_rows (database s) !! id = None ∧ ∃ created,
    s' = with_database (set_goals (<[id := {| goal_project := p; goal_json := json;
           goal_created := created; goal_updated := created |}]> (goal_rows (database s)))
           (database s)) s.
Proof.
  unfold save_goal_once. intros Hcall. inv_store.
  split; [done|]. eexists. split; [eassumption|].
  match goal with Hr : Ok _ = Ok _ |- _ => injection Hr as Hr end.
  case_match; inv_store; [case_match eqn:Hsame; inv_store; to_prop|]; subst; eauto 12.
Qed.

Lemma focus_goal_ok p x id t s s' u :
  focus_goal p x id t s = (s', Ok u) →
  mode s = ReadWrite ∧ ∃ row updated, goal_rows (database s) !! id = Some row ∧ goal_project row = p ∧
    s' = with_database (set_goal_focus (<[(p, x) := {| Store.focus_goal := id;
           focus_updated := updated |}]> (goal_focus (goal_tables (database s)))) (database s)) s.
Proof.
  unfold focus_goal. intros Hcall. inv_store. case_match eqn:Howner; inv_store. to_prop.
  split; [done|]. unfold load_goal in *. destruct (goal_rows (database s) !! id) as [row|]; [|by simplify_eq/=].
  match goal with Hl : decode _ ≫= _ = Ok _ |- _ => apply result_bind_ok in Hl as (?&_&[= <-]) end.
  simplify_eq/=. by eexists _, _.
Qed.

Lemma link_goal_workflow_ok id w m t s s' u :
  link_goal_workflow id w m t s = (s', Ok u) →
  mode s = ReadWrite ∧
  ((s' = s ∧ ∃ row, links (database s) !! w = Some row ∧ linked_goal row = id ∧ milestone row = m) ∨
   (links (database s) !! w = None ∧ is_Some (goal_rows (database s) !! id) ∧
    is_Some (workflows (workflow_tables (database s)) !! w) ∧ ∃ linked,
    s' = with_database (set_goal_workflows (<[w := {| linked_goal := id; milestone := m;
           linked_at := linked |}]> (links (database s))) (database s)) s)).
Proof.
  unfold link_goal_workflow. intros Hcall. inv_store. split; [done|].
  match goal with Hr : Ok _ = Ok _ |- _ => injection Hr as Hr end.
  case_match; inv_store; [case_match eqn:Hsame; inv_store; to_prop; left|to_prop; right];
    subst; eauto 12.
Qed.

Definition only_goals (d : Database) :=
  (workflow_tables d, plan_tables d, candidate_tables d, ledger_tables d).
Lemma save_goal_once_frame id p g t : preserves (on_database (same only_goals)) (save_goal_once id p g t).
Proof. unfold save_goal_once. solve_frame. Qed.
Lemma focus_goal_frame p x id t : preserves (on_database (same only_goals)) (focus_goal p x id t).
Proof. unfold focus_goal. solve_frame. Qed.
Lemma save_goal_plan_frame id x content t :
  preserves (on_database (same only_goals)) (save_goal_plan id x content t).
Proof. unfold save_goal_plan. solve_frame. Qed.
Lemma link_goal_workflow_frame id w m t :
  preserves (on_database (same only_goals)) (link_goal_workflow id w m t).
Proof. unfold link_goal_workflow. solve_frame. Qed.

(** * The revisions of a goal's plan *)

(** Revisions count from one without a gap, each with the digest of its content,
    and no content is in two revisions. *)
Record goal_plans_ok (d : Database) : Prop := {
  gp_numbered : numbered_rows (plan_rows d);
  gp_digest id n row : plan_rows d !! (id, n) = Some row →
    goal_plan_digest row = digest_of (goal_plan_content row);
  gp_unique id n n' row row' : plan_rows d !! (id, n) = Some row → plan_rows d !! (id, n') = Some row' →
    goal_plan_digest row = goal_plan_digest row' → n = n';
}.

Lemma revision_of_digest_some id dg d n :
  revision_of_digest id dg d = Some n →
  ∃ row, plan_rows d !! (id, n) = Some row ∧ goal_plan_digest row = dg.
Proof.
  unfold revision_of_digest. intros Hh%head_Some_elem_of.
  apply list_elem_of_omap in Hh as ([[g k] row]&Hin&Hk). case_decide as Hc; [|done].
  destruct Hc as [-> <-]. simplify_eq. exists row. by apply elem_of_map_to_list in Hin.
Qed.
Lemma revision_of_digest_none id dg d n row :
  revision_of_digest id dg d = None → plan_rows d !! (id, n) = Some row → goal_plan_digest row ≠ dg.
Proof.
  unfold revision_of_digest. intros Hnone%head_None Hrow Hdg.
  set (f := λ '((goal, n), row), if decide (goal = id ∧ goal_plan_digest row = dg) then Some n else None) in *.
  assert (n ∈ omap f (map_to_list (plan_rows d))) as Hin.
  { apply list_elem_of_omap. exists ((id, n), row). split; [by apply elem_of_map_to_list|].
    unfold f. by rewrite decide_True. }
  rewrite Hnone in Hin. by apply elem_of_nil in Hin.
Qed.

Lemma save_goal_plan_ok id x content t s s' n :
  save_goal_plan id x content t s = (s', Ok n) →
  mode s = ReadWrite ∧ is_blank content = false ∧ str_len content ≤ MAX_DOCUMENT_BYTES ∧
  ((s' = s ∧ ∃ row, plan_rows (database s) !! (id, n) = Some row ∧
      goal_plan_digest row = digest_of content) ∨
   (n = next_number id (plan_rows (database s)) ∧ n ≤ u32_max ∧
    revision_of_digest id (digest_of content) (database s) = None ∧
    is_Some (goal_rows (database s) !! id) ∧ ∃ created,
    s' = with_database (set_goal_plans (<[(id, n) :=
      {| goal_plan_session := x; goal_plan_content := content;
         goal_plan_digest := digest_of content; goal_plan_created := created |}]>
      (plan_rows (database s))) (database s)) s)).
Proof.
  intros Hrun. unfold save_goal_plan in Hrun. inv_store.
  match goal with H : Ok _ = Ok ?x |- _ => injection H as <- end.
  split; [done|]. to_prop. split_and!; [done|done|].
  case_match eqn:Hrev; inv_store.
  - left. split; [done|]. by apply revision_of_digest_some.
  - right. to_prop. match goal with H : Ok _ = Ok ?x |- _ => injection H as <- end.
    split_and!; try done. by eexists.
Qed.

Lemma save_goal_plan_keeps id x content t s s' n :
  goal_plans_ok (database s) → save_goal_plan id x content t s = (s', Ok n) →
  goal_plans_ok (database s').
Proof.
  intros [Hn Hd Hu] (_&_&_&[[-> _]|(->&_&Hnone&_&created&->)])%save_goal_plan_ok; [done|].
  split; unfold plan_rows in *; simpl.
  - by apply numbered_rows_insert.
  - intros g k row [[[= <- <-] <-]|[_ ?]]%lookup_insert_Some; [done|by eapply Hd].
  - intros g k k' row row' [[[= <- <-] <-]|[Hk Hr]]%lookup_insert_Some
      [[Heq <-]|[Hk' Hr']]%lookup_insert_Some Hdg; simpl in *.
    + by injection Heq.
    + symmetry in Hdg. by eapply revision_of_digest_none in Hdg.
    + injection Heq as <- <-. by eapply revision_of_digest_none in Hdg.
    + by eapply Hu.
Qed.

(** * Reading a goal back *)

Lemma goal_json_decode g json :
  json_faithful Goal.UncheckedGoal → json_encode g = Some json →
  json_decode json = match Goal.goal_try_from (Goal.goal_unchecked g) with
                     | Ok g => Some g | Err _ => None end.
Proof. intros Hj Hg%Hj. simpl. by rewrite Hg. Qed.

Lemma goal_decoded_wf json g :
  json_decode json = Some g → Goal.goal_fields_ok g ∧ Goal.max_continuations g ≠ 0 ∧
    Goal.continuations g ≤ Goal.max_continuations g.
Proof.
  simpl. intros (u&_&Hg)%bind_Some. case_match eqn:Hu; [|done]. simplify_eq.
  by apply Goal.goal_try_from_ok in Hu as (_&?&?&?).
Qed.

(** A goal that a command leaves above its limit is not read back, and so none
    of the project's goals are listed; within its limit it is. *)
Lemma written_goal_decodes c g g' es json json0 :
  json_faithful Goal.UncheckedGoal → json_decode json0 = Some g →
  Goal.goal_apply c g = (g', Ok es) → json_encode g' = Some json →
  json_decode json = if Goal.continuations g' <=? Goal.max_continuations g' then Some g' else None.
Proof.
  intros Hj ((Hf1&Hf2&Hf3&Hf4)&Hm&_)%goal_decoded_wf Happ Henc.
  rewrite (goal_json_decode _ _ Hj Henc).
  destruct (Goal.goal_apply_fields _ _ _ _ Happ) as (Hr&Hs&Hc&Hn&Hmax&_).
  destruct (_ <=? _) eqn:Hle; to_prop.
  - rewrite (proj2 (Goal.goal_try_from_ok (Goal.goal_unchecked g') g')); [done|].
    split; [done|]. unfold Goal.goal_fields_ok, Goal.objective in *. rewrite Hr, Hs, Hc, Hn. split_and!; congruence.
  - case_match eqn:Htry; [|done]. apply Goal.goal_try_from_ok in Htry as (Heq&_&_&?).
    pose proof (f_equal Goal.u_continuations Heq) as Hc'.
    pose proof (f_equal Goal.u_max_continuations Heq) as Hm'. simpl in *. lia.
Qed.

Lemma load_goal_fails id s row :
  goal_rows (database s) !! id = Some row → (json_decode (goal_json row) : option Goal.Goal) = None →
  load_goal id s = Err Serialization ∧ list_goals (goal_project row) s = Err Serialization.
Proof.
  intros Hrow Hd. unfold load_goal, list_goals. rewrite Hrow. unfold decode at 1. rewrite Hd.
  split; [done|].
  assert ((id, row) ∈ merge_sort listed_before (filter (λ '(_, r), goal_project r = goal_project row)
    (map_to_list (goal_rows (database s))))) as Hin.
  { rewrite merge_sort_Permutation. apply list_elem_of_filter. split; [done|]. by apply elem_of_map_to_list. }
  revert Hin. generalize (merge_sort listed_before (filter (λ '(_, r), goal_project r = goal_project row)
    (map_to_list (goal_rows (database s))))). intros l.
  induction l as [|[i r] l IH]; [by intros ?%elem_of_nil|]. intros [[= <- <-]|Hin]%elem_of_cons; simpl.
  - unfold decode. by rewrite Hd.
  - destruct (decode (goal_json r)) as [g|e] eqn:Hr; simpl; [by rewrite (IH Hin)|].
    unfold decode, ok_or in Hr. case_match; congruence.
Qed.

(** Every later command on it fails and changes nothing. *)
Lemma unreadable_goal_refuses id key c t s row :
  goal_rows (database s) !! id = Some row → (json_decode (goal_json row) : option Goal.Goal) = None →
  command_deduplication (workflow_tables (database s)) !! key = None →
  ∃ e, apply_goal_command id key c t s = (s, Err e).
Proof.
  intros Hrow Hd Hkey. destruct (apply_goal_command id key c t s) as [s' [r|e]] eqn:Hrun.
  - apply apply_goal_command_ok in Hrun as (_&[(json&p&(r'&Hr'&_)&_)|(row'&g&?&?&?&?&?&Hrow'&Hg&_)]).
    + congruence.
    + simplify_eq.
  - apply apply_goal_command_atomic in Hrun as ->. by exists e.
Qed.

(** No command changes it, not even one that is answered from the record. *)
Lemma unreadable_goal_unmoved id key c t s row :
  goal_rows (database s) !! id = Some row → (json_decode (goal_json row) : option Goal.Goal) = None →
  ∃ answer, apply_goal_command id key c t s = (s, answer) ∧
    (command_deduplication (workflow_tables (database s)) !! key = None → is_ok answer = false).
Proof.
  intros Hrow Hd. destruct (apply_goal_command id key c t s) as [s' [r|e]] eqn:Hrun.
  - pose proof Hrun as Hok.
    apply apply_goal_command_ok in Hok as (_&[(json&p&_&_&_&->)|(row'&g&?&?&?&?&?&Hrow'&Hg&_)]).
    + exists (Ok r). split; [done|]. intros Hkey.
      destruct (unreadable_goal_refuses id key c t s row Hrow Hd Hkey) as [e He]. congruence.
    + simplify_eq.
  - apply apply_goal_command_atomic in Hrun as ->. by exists (Err e).
Qed.
End goal_lemmas.
End GoalStore.
