(* ===== verification/StoreRun.v ===== *)
(** The store as a whole: every operation of workflow-store that writes, in any
    order, and what every store they lead to keeps (the files of
    workflow-store/src together). *)
From Stdlib Require Import Ascii String.
From S2P Require Import Prelude Text Ids Paths Canonical WorkflowMachine TaskMachine Requests Goals.
From S2P Require Import Dag Verdicts Candidates Plans Redaction Ledger History Database StoreCommands.
From S2P Require Import StoreLeases StoreCandidates StoreDocuments StoreLedger StoreGoals.

Module Persistence.
Export Documents.
Import Leases LedgerStore GoalStore.
Local Open Scope N_scope.

Section store.
Context {Value : Type} `{Sha256, Rfc3339, Checkpoint.Ed25519}.
Context `{ToJson (list (string * string * bool)), ToJson Plan.ArchitecturePlan,
  ToJson Arbiter.ArbiterVerdict, ToJson Event.LedgerEvent}.
Context `{Persist Value, Persist Workflow.Workflow, Persist Workflow.WorkflowEvent,
  Persist (PersistedResult Workflow.WorkflowEvent Workflow.Workflow),
  Persist Task.Task, Persist Task.TaskEvent, Persist (PersistedResult Task.TaskEvent Task.Task),
  Persist Lease.Lease, Persist Request.RequestRecordUnchecked, Persist UncheckedPlan,
  Persist Candidate.CandidateManifestUnchecked, Persist Evidence.EvidenceRecord,
  Persist Review.ReviewVerdict, Persist Arbiter.ArbiterVerdict, Persist Receipt.ArbitrationReceipt,
  Persist Event.LedgerEvent, Persist Checkpoint.Checkpoint, Persist Goal.UncheckedGoal,
  Persist Goal.GoalEvent, Persist (PersistedResult Goal.GoalEvent Goal.UncheckedGoal),
  Persist AmendmentAppended}.

(** A call of an operation that writes; what an operation draws (a new lease's
    identifier) is an argument. *)
Inductive StoreCall : Type :=
| ApplyWorkflow (id : WorkflowId) (key : string) (c : Workflow.WorkflowCommand) (t : WorkflowTimestamp)
| ApplyTask (w : WorkflowId) (id : TaskId) (key : string) (c : Task.TaskCommand) (t : WorkflowTimestamp)
| AcquireLease (new_id : LeaseId) (t : TaskId) (owner : SessionId) (now duration : Z)
    (safety : Lease.ActionSafety)
| HeartbeatLease (id : LeaseId) (now duration : Z)
| ReleaseLease (id : LeaseId)
| SaveCandidate (w : WorkflowId) (m : Candidate.CandidateManifest) (diff : string)
    (files : list CandidateFilePayload) (t : WorkflowTimestamp)
| ReserveDelivery (w : WorkflowId) (c : CandidateId) (digest : ContentDigest) (t : WorkflowTimestamp)
| ReleaseDelivery (w : WorkflowId) (c : CandidateId) (digest : ContentDigest)
| BindJournal (w : WorkflowId) (c : CandidateId) (digest : ContentDigest)
    (expected : option ContentDigest) (journal : ContentDigest)
| DeliverReserved (w : WorkflowId) (c : CandidateId) (digest journal : ContentDigest) (key : string)
    (t : WorkflowTimestamp)
| SaveRequest (w : WorkflowId) (p : ProjectId) (r : Request.RequestRecord) (t : WorkflowTimestamp)
| SaveConstraint (w : WorkflowId) (kind : string) (digest : ContentDigest) (v : Value)
    (t : WorkflowTimestamp)
| SaveArchitecture (w : WorkflowId) (p : Plan.ArchitecturePlan) (t : WorkflowTimestamp)
| SaveVerificationPlan (id : VerificationPlanId) (w : WorkflowId) (v : Value) (t : WorkflowTimestamp)
| SaveEvidence (p : VerificationPlanId) (w : WorkflowId) (c : CandidateId)
    (r : Evidence.EvidenceRecord) (output : string) (mandatory : bool) (t : WorkflowTimestamp)
| SaveReview (w : WorkflowId) (c : CandidateId) (v : Review.ReviewVerdict) (t : WorkflowTimestamp)
| SaveArbitration (w : WorkflowId) (c : CandidateId) (v : Arbiter.ArbiterVerdict)
    (r : Receipt.ArbitrationReceipt) (t : WorkflowTimestamp)
| AppendLedger (e : Event.LedgerEvent)
| SaveCheckpoint (c : Checkpoint.Checkpoint)
| SaveGoal (id : GoalId) (p : ProjectId) (g : Goal.Goal) (t : WorkflowTimestamp)
| ApplyGoal (id : GoalId) (key : string) (c : Goal.GoalCommand) (t : WorkflowTimestamp)
| AmendGoal (id : GoalId) (key text : string) (t : WorkflowTimestamp)
| FocusGoal (p : ProjectId) (session : string) (id : GoalId) (t : WorkflowTimestamp)
| SaveGoalPlan (id : GoalId) (session content : string) (t : WorkflowTimestamp)
| LinkGoal (id : GoalId) (w : WorkflowId) (milestone : string) (t : WorkflowTimestamp).

Definition void {A} (m : method Store StoreError A) : method Store StoreError unit :=
  _ ← m; mret tt.

(** The operation of a call, without its answer. *)
Definition perform (c : StoreCall) : method Store StoreError unit :=
  match c with
  | ApplyWorkflow id key c t => void (apply_workflow_command id key c t)
  | ApplyTask w id key c t => void (apply_task_command w id key c t)
  | AcquireLease new_id t owner now duration safety =>
      void (acquire_lease new_id t owner now duration safety)
  | HeartbeatLease id now duration => void (heartbeat_lease id now duration)
  | ReleaseLease id => void (release_lease id)
  | SaveCandidate w m diff files t => void (save_candidate_once w m diff files t)
  | ReserveDelivery w c digest t => void (reserve_candidate_delivery w c digest t)
  | ReleaseDelivery w c digest => void (release_candidate_delivery w c digest)
  | BindJournal w c digest expected journal =>
      void (bind_candidate_delivery_journal w c digest expected journal)
  | DeliverReserved w c digest journal key t =>
      void (deliver_reserved_candidate w c digest journal key t)
  | SaveRequest w p r t => void (save_request_once w p r t)
  | SaveConstraint w kind digest v t => void (save_constraint_once w kind digest v t)
  | SaveArchitecture w p t => void (save_architecture_once w p t)
  | SaveVerificationPlan id w v t => void (save_verification_plan_once id w v t)
  | SaveEvidence p w c r output mandatory t => void (save_evidence_once p w c r output mandatory t)
  | SaveReview w c v t => void (save_review_once w c v t)
  | SaveArbitration w c v r t => void (save_arbitration_once w c v r t)
  | AppendLedger e => void (append_ledger_event e)
  | SaveCheckpoint c => void (save_checkpoint c)
  | SaveGoal id p g t => void (save_goal_once id p g t)
  | ApplyGoal id key c t => void (apply_goal_command id key c t)
  | AmendGoal id key text t => void (append_goal_amendment id key text t)
  | FocusGoal p session id t => void (focus_goal p session id t)
  | SaveGoalPlan id session content t => void (save_goal_plan id session content t)
  | LinkGoal id w milestone t => void (link_goal_workflow id w milestone t)
  end.

(** The store a call leaves, whether it succeeds or not. *)
Definition run_call (c : StoreCall) (s : Store) : Store := (perform c s).1.
Definition run_calls (calls : list StoreCall) (s : Store) : Store :=
  foldl (λ s c, run_call c s) s calls.

(** A new store. *)
Definition store_new (limit : N) : Store := store_open 0 empty_database limit.

(** What the types of the arguments already say: a manifest is one its
    constructors give. *)
Definition call_ok (c : StoreCall) : Prop :=
  match c with SaveCandidate _ m _ _ _ => Candidate.loadable m | _ => True end.

(** What serde_json documents of the types the store reads back. *)
Record store_json_faithful : Prop := {
  jf_workflow : json_faithful Workflow.Workflow;
  jf_workflow_result : json_faithful (PersistedResult Workflow.WorkflowEvent Workflow.Workflow);
  jf_task : json_faithful Task.Task;
  jf_task_result : json_faithful (PersistedResult Task.TaskEvent Task.Task);
  jf_lease : json_faithful Lease.Lease;
  jf_manifest : json_faithful Candidate.CandidateManifestUnchecked;
  jf_plan : json_faithful UncheckedPlan;
  jf_evidence : json_faithful Evidence.EvidenceRecord;
  jf_review : json_faithful Review.ReviewVerdict;
  jf_event : json_faithful Event.LedgerEvent;
}.

(** The rows of an aggregate: a run of its state machine, recorded command by
    command, whose state is the stored one. *)
Definition workflow_recorded (id : WorkflowId) (d : Database) : Prop :=
  ∃ h w, journal_run Workflow.workflow_apply Workflow.workflow_default h w ∧
    journal_stored WorkflowAggregate id h d ∧ current_workflow id d = Ok w ∧
    (h = [] ↔ workflows (workflow_tables d) !! id = None).
Definition task_recorded (id : TaskId) (d : Database) : Prop :=
  ∃ h t, journal_run Task.task_apply Task.task_new h t ∧
    journal_stored TaskAggregate id h d ∧ current_task id d = Ok t ∧
    (h = [] ↔ tasks (workflow_tables d) !! id = None).

Record database_ok (d : Database) : Prop := {
  db_workflows id : workflow_recorded id d;
  db_tasks id : task_recorded id d;
  db_owned : tasks_owned d;
  db_leases : leases_ok d;
  db_candidates : candidates_ok d;
  db_reservations : reservations_ok d;
  db_plans : plans_ok d;
  db_evidence : evidence_ok d;
  db_reviews : reviews_ok d;
  db_goal_plans : goal_plans_ok d;
  db_ledger : ∃ c, ledger_holds c d;
}.

(** The documents of workflows are only added. *)
Definition documents_grow : relation Database := λ d d',
  requests d ⊆ requests d' ∧ constraints d ⊆ constraints d' ∧ versions d ⊆ versions d' ∧
  verification_plans d ⊆ verification_plans d' ∧ evidence d ⊆ evidence d' ∧
  attempts d ⊆ attempts d' ∧ reviews d ⊆ reviews d' ∧ arbitrations d ⊆ arbitrations d'.
#[local] Instance documents_grow_preorder : PreOrder documents_grow.
Proof.
  split; [intros d; by split_and!|]. intros d1 d2 d3 (?&?&?&?&?&?&?&?) (?&?&?&?&?&?&?&?).
  split_and!; by etrans.
Qed.

(** What was written once stays: the answers and events of commands, candidates
    with their files, requests, constraints, the revisions of plans, verification
    plans, evidence with its attempts, reviews, arbitrations, ledger entries, the
    revisions of goals' plans and the workflows linked to goals. *)
Record grows (d d' : Database) : Prop := {
  gr_answers : answers_grow d d';
  gr_candidates : candidate_rows d ⊆ candidate_rows d';
  gr_files id p : is_Some (candidate_rows d !! id) →
    workflow_candidate_files (candidate_tables d') !! (id, p) =
    workflow_candidate_files (candidate_tables d) !! (id, p);
  gr_documents : documents_grow d d';
  gr_ledger : entries_of d ⊆ entries_of d';
  gr_goal_plans : plan_rows d ⊆ plan_rows d';
  gr_links : links d ⊆ links d';
}.
#[global] Instance grows_preorder : PreOrder grows.
Proof.
  split; [intros d; by split|]. intros d1 d2 d3 [] []. split; try by etrans.
  intros id p Hid. rewrite gr_files1; [by apply gr_files0|]. by eapply lookup_weaken_is_Some.
Qed.

(** * What each call keeps *)

Definition kept (d d' : Database) : Prop := database_ok d → database_ok d' ∧ grows d d'.
#[local] Instance kept_preorder : PreOrder kept.
Proof.
  split; [by intros d|]. intros d1 d2 d3 Hk1 Hk2 Hok. destruct (Hk1 Hok) as [Hok2 Hg12].
  destruct (Hk2 Hok2) as [Hok3 Hg23]. split; [done|]. by etrans.
Qed.

Lemma void_state {A} (m : method Store StoreError A) s : (void m s).1 = (m s).1.
Proof. unfold void. run_method. by destruct (m s) as [s' [a|e]]. Qed.
Lemma void_atomic {A} (m : method Store StoreError A) : atomic m → atomic (void m).
Proof.
  intros Hm s s' e. unfold void. run_method. destruct (m s) as [s1 [a|e']] eqn:E; [done|].
  intros [= <- <-]. by eapply Hm.
Qed.
Lemma void_ok {A} (m : method Store StoreError A) s s' u :
  void m s = (s', Ok u) ↔ ∃ a, m s = (s', Ok a).
Proof.
  unfold void. run_method. destruct (m s) as [s1 [a|e']]; destruct u; split;
    [intros [= ->]; eauto|intros [a' [= -> _]]; done|done|by intros [a' ?]].
Qed.

Lemma kept_call {A} (m : method Store StoreError A) s :
  atomic m → (∀ s' a, m s = (s', Ok a) → kept (database s) (database s')) →
  kept (database s) (database (m s).1).
Proof.
  intros Hatomic Hok. destruct (m s) as [s' [a|e]] eqn:E; simpl; [by eapply Hok|].
  by rewrite (Hatomic _ _ _ E).
Qed.

Hypothesis faithful : store_json_faithful.

(** ** Workflows, tasks and goals *)

Lemma workflow_recorded_same id d d' :
  events (workflow_tables d') = events (workflow_tables d) →
  command_deduplication (workflow_tables d') = command_deduplication (workflow_tables d) →
  workflows (workflow_tables d') !! id = workflows (workflow_tables d) !! id →
  workflow_recorded id d → workflow_recorded id d'.
Proof.
  intros He Hd Hw (h&w&Hrun&Hst&Hcur&Hnil). exists h, w. unfold current_workflow in *. rewrite Hw.
  split_and!; try done. by eapply journal_stored_same.
Qed.
Lemma task_recorded_same id d d' :
  events (workflow_tables d') = events (workflow_tables d) →
  command_deduplication (workflow_tables d') = command_deduplication (workflow_tables d) →
  tasks (workflow_tables d') !! id = tasks (workflow_tables d) !! id →
  task_recorded id d → task_recorded id d'.
Proof.
  intros He Hd Hw (h&w&Hrun&Hst&Hcur&Hnil). exists h, w. unfold current_task in *. rewrite Hw.
  split_and!; try done. by eapply journal_stored_same.
Qed.

(** An answer about another aggregate. *)
Lemma workflow_recorded_other {E T} `{Persist E, Persist (PersistedResult E T)} id kind id' key
    (p : PersistedResult E T) d d' :
  (WorkflowAggregate, id) ≠ (kind, id') → answer_added kind id' key p d d' →
  workflows (workflow_tables d') !! id = workflows (workflow_tables d) !! id →
  workflow_recorded id d → workflow_recorded id d'.
Proof.
  intros Hne Hadd Hw (h&w&Hrun&Hst&Hcur&Hnil). exists h, w. unfold current_workflow in *. rewrite Hw.
  split_and!; try done. by eapply journal_stored_other.
Qed.
Lemma task_recorded_other {E T} `{Persist E, Persist (PersistedResult E T)} id kind id' key
    (p : PersistedResult E T) d d' :
  (TaskAggregate, id) ≠ (kind, id') → answer_added kind id' key p d d' →
  tasks (workflow_tables d') !! id = tasks (workflow_tables d) !! id →
  task_recorded id d → task_recorded id d'.
Proof.
  intros Hne Hadd Hw (h&w&Hrun&Hst&Hcur&Hnil). exists h, w. unfold current_task in *. rewrite Hw.
  split_and!; try done. by eapply journal_stored_other.
Qed.

(** A fresh command is one more step of the run. *)
Lemma workflow_written_recorded id key c w w' es d d' :
  current_workflow id d = Ok w → Workflow.workflow_apply c w = (w', Ok es) →
  workflow_written id key {| persisted_events := es; persisted_state := w' |} d d' →
  command_deduplication (workflow_tables d) !! key = None →
  (∀ i, workflow_recorded i d) → ∀ i, workflow_recorded i d'.
Proof.
  intros Hcur Happly (Hadd&Hsame&_&json&updated&Hjson&Hrows) Hkey Hall i.
  destruct (decide (i = id)) as [->|Hne].
  - destruct (Hall id) as (h&w0&Hrun&Hst&Hcur0&_). rewrite Hcur in Hcur0. injection Hcur0 as <-.
    exists (h ++ [{| entry_key := key; entry_command := c; entry_result :=
              {| persisted_events := es; persisted_state := w' |} |}]), w'.
    split_and!.
    + eapply journal_command; [done| |done]. by eapply journal_stored_key.
    + by eapply journal_stored_snoc.
    + unfold current_workflow. rewrite Hrows, lookup_insert_eq. simpl.
      apply decode_ok. by apply (jf_workflow faithful).
    + rewrite Hrows, lookup_insert_eq. split; [|done]. intros Hnil. by destruct h.
  - refine (workflow_recorded_other _ _ _ _ _ _ _ _ Hadd _ (Hall i)); [congruence|].
    by rewrite Hrows, lookup_insert_ne by done.
Qed.
Lemma task_written_recorded wid id key c w w' es d d' :
  current_task id d = Ok w → Task.task_apply c w = (w', Ok es) →
  task_written wid id key {| persisted_events := es; persisted_state := w' |} d d' →
  command_deduplication (workflow_tables d) !! key = None →
  (∀ i, task_recorded i d) → ∀ i, task_recorded i d'.
Proof.
  intros Hcur Happly (Hadd&Hsame&_&_&_&json&updated&Hjson&Hrows) Hkey Hall i.
  destruct (decide (i = id)) as [->|Hne].
  - destruct (Hall id) as (h&w0&Hrun&Hst&Hcur0&_). rewrite Hcur in Hcur0. injection Hcur0 as <-.
    exists (h ++ [{| entry_key := key; entry_command := c; entry_result :=
              {| persisted_events := es; persisted_state := w' |} |}]), w'.
    split_and!.
    + eapply journal_command; [done| |done]. by eapply journal_stored_key.
    + by eapply journal_stored_snoc.
    + unfold current_task. rewrite Hrows, lookup_insert_eq. simpl.
      apply decode_ok. by apply (jf_task faithful).
    + rewrite Hrows, lookup_insert_eq. split; [|done]. intros Hnil. by destruct h.
  - refine (task_recorded_other _ _ _ _ _ _ _ _ Hadd _ (Hall i)); [congruence|].
    by rewrite Hrows, lookup_insert_ne by done.
Qed.

(** ** What follows when the tables of a group are left alone *)

Lemma commands_same d d' :
  workflow_tables d' = workflow_tables d → candidate_tables d' = candidate_tables d → database_ok d →
  (∀ id, workflow_recorded id d') ∧ (∀ id, task_recorded id d') ∧ tasks_owned d' ∧ leases_ok d' ∧
  candidates_ok d' ∧ reservations_ok d'.
Proof.
  intros Hw Hc []. split_and!.
  - intros i. eapply workflow_recorded_same; [..|done]; by rewrite Hw.
  - intros i. eapply task_recorded_same; [..|done]; by rewrite Hw.
  - unfold tasks_owned. by rewrite Hw.
  - eapply leases_ok_mono; [..|done]; unfold leases_of; by rewrite Hw.
  - eapply candidates_ok_mono; [..|done]; unfold candidate_rows, workflows_grow; by rewrite ?Hc, ?Hw.
  - eapply reservations_ok_mono; [..|done]; unfold reservations, candidate_rows, workflows_grow;
      by rewrite ?Hc, ?Hw.
Qed.

Lemma documents_same d d' :
  plan_tables d' = plan_tables d → candidate_rows d ⊆ candidate_rows d' →
  database_ok d → plans_ok d' ∧ evidence_ok d' ∧ reviews_ok d'.
Proof.
  intros Hp Hc []. split_and!.
  - eapply plans_ok_mono; [..|done]; unfold plans, versions, requests; by rewrite Hp.
  - eapply evidence_ok_mono; [..|done]; unfold evidence, attempts; by rewrite ?Hp.
  - eapply reviews_ok_mono; [..|done]; unfold reviews, versions, evidence; by rewrite ?Hp.
Qed.

Lemma goal_plans_same d d' : plan_rows d' = plan_rows d → goal_plans_ok d → goal_plans_ok d'.
Proof. intros E []. split; by rewrite E. Qed.

Lemma ledger_same d d' :
  ledger_tables d' = ledger_tables d → (∃ c, ledger_holds c d) → ∃ c, ledger_holds c d'.
Proof. intros E [c Hc]. exists c. by eapply ledger_holds_same. Qed.

Lemma documents_grow_same d d' : plan_tables d' = plan_tables d → documents_grow d d'.
Proof.
  intros Hp. unfold documents_grow, requests, constraints, versions, verification_plans,
    evidence, attempts, reviews, arbitrations. rewrite Hp. by split_and!.
Qed.

(** Every table but those of workflows and candidates is the same. *)
Lemma grows_commands d d' :
  answers_grow d d' → candidate_rows d ⊆ candidate_rows d' →
  (∀ id p, is_Some (candidate_rows d !! id) →
     workflow_candidate_files (candidate_tables d') !! (id, p) =
     workflow_candidate_files (candidate_tables d) !! (id, p)) →
  plan_tables d' = plan_tables d → goal_tables d' = goal_tables d →
  ledger_tables d' = ledger_tables d → grows d d'.
Proof.
  intros Ha Hc Hf Hp Hg Hl.
  split; try done; [by apply documents_grow_same|..]; unfold entries_of, plan_rows, links;
    by rewrite ?Hg, ?Hl.
Qed.

(** Every table but those of workflows and candidates changes. *)
Lemma grows_others d d' :
  workflow_tables d' = workflow_tables d → candidate_tables d' = candidate_tables d →
  documents_grow d d' → entries_of d ⊆ entries_of d' → plan_rows d ⊆ plan_rows d' →
  links d ⊆ links d' → grows d d'.
Proof.
  intros Hw Hc Hd He Hp Hl.
  split; try done; unfold answers_grow, candidate_rows; rewrite ?Hw, ?Hc; by split_and?.
Qed.

Lemma workflow_written_kept id key c w w' es d d' :
  current_workflow id d = Ok w → Workflow.workflow_apply c w = (w', Ok es) →
  workflow_written id key {| persisted_events := es; persisted_state := w' |} d d' →
  command_deduplication (workflow_tables d) !! key = None →
  candidate_rows d' = candidate_rows d →
  workflow_candidate_files (candidate_tables d') = workflow_candidate_files (candidate_tables d) →
  (reservations_ok d → workflows_grow d d' → reservations_ok d') → kept d d'.
Proof.
  intros Hcur Happly Hwritten Hkey Hc Hf Hres Hok.
  pose proof Hwritten as (Hadd&(Hl&Hp&Hg&Hled)&Ht&json&updated&_&Hrows).
  assert (workflows_grow d d') as Hgrow.
  { intros i Hi. rewrite Hrows. destruct (decide (i = id)) as [->|]; [by rewrite lookup_insert_eq|].
    by rewrite lookup_insert_ne. }
  destruct (documents_same d d' Hp ltac:(by rewrite Hc) Hok) as (?&?&?). split.
  2: { apply grows_commands; rewrite ?Hc, ?Hf; [exact (answer_added_grows _ _ _ _ _ _ Hadd)|done..]. }
  destruct Hok. split; try done.
  - by eapply workflow_written_recorded.
  - intros i. refine (task_recorded_other _ _ _ _ _ _ _ _ Hadd _ _); [done|by rewrite Ht|done].
  - intros i row Hi. apply Hgrow. rewrite Ht in Hi. by eapply db_owned0.
  - eapply leases_ok_mono; [| |done]; [done|by rewrite Ht].
  - by eapply candidates_ok_mono.
  - by apply Hres.
  - eapply goal_plans_same; [|done]. unfold plan_rows. by rewrite Hg.
  - by eapply ledger_same.
Qed.

Lemma apply_workflow_command_kept id key c t s :
  kept (database s) (database (apply_workflow_command id key c t s).1).
Proof.
  apply kept_call; [apply apply_workflow_command_atomic|].
  intros s' r (_&_&[(?&?&?&?&?&->)|(w&w'&es&d'&Hkey&Hcur&Happly&_&->&Hw&Hc)])%apply_workflow_command_ok;
    [done|]. simpl.
  eapply workflow_written_kept; [done..|unfold candidate_rows; by rewrite Hc|by rewrite Hc|].
  intros Hr Hg. eapply reservations_ok_mono; [..|done]; unfold reservations, candidate_rows; by rewrite ?Hc.
Qed.

Lemma deliver_reserved_candidate_kept w c dg j key t s :
  kept (database s) (database (deliver_reserved_candidate w c dg j key t s).1).
Proof.
  apply kept_call; [apply deliver_reserved_candidate_atomic|]. intros s' r Hok.
  apply deliver_reserved_candidate_ok in Hok
    as (_&Hkey&row&st&st'&es&d'&_&_&_&_&Hcur&_&Happly&_&->&Hw&Hc&Hf&Hr). simpl.
  eapply workflow_written_kept; [done..|]. intros Hro Hg.
  eapply (reservations_ok_mono (set_candidate_delivery_reservations
    (delete c (reservations (database s))) (database s))); [..|by apply reservations_ok_delete].
  - done.
  - by rewrite Hc.
  - exact Hg.
Qed.

Lemma apply_task_command_kept w id key c t s :
  kept (database s) (database (apply_task_command w id key c t s).1).
Proof.
  apply kept_call; [apply apply_task_command_atomic|]. intros s' r Hcall Hok.
  apply apply_task_command_ok in Hcall as [_ Hcall]; [|apply Hok].
  destruct Hcall as [(?&?&_&_&_&->)|(st&st'&es&d'&Hkey&Hcur&Happly&_&->&Hw)]; [by split|].
  pose proof Hw as (Hadd&(Hl&Hp&Hg&Hled)&Hwf&Hc&Hexists&json&updated&_&Hrows).
  destruct (documents_same (database s) d' Hp ltac:(unfold candidate_rows; by rewrite Hc) Hok)
    as (?&?&?). simpl. split.
  2: { apply grows_commands; unfold candidate_rows; rewrite ?Hc; try done.
       exact (answer_added_grows _ _ _ _ _ _ Hadd). }
  assert (∀ i, is_Some (tasks (workflow_tables (database s)) !! i) →
               is_Some (tasks (workflow_tables d') !! i)) as Htasks.
  { intros i Hi. rewrite Hrows. destruct (decide (i = id)) as [->|]; [by rewrite lookup_insert_eq|].
    by rewrite lookup_insert_ne. }
  destruct Hok. split; try done.
  - intros i. refine (workflow_recorded_other _ _ _ _ _ _ _ _ Hadd _ _); [done|by rewrite Hwf|done].
  - by eapply task_written_recorded.
  - intros i row Hi. rewrite Hwf. rewrite Hrows in Hi.
    apply lookup_insert_Some in Hi as [[_ <-]|[_ Hi]]; [done|]. by eapply db_owned0.
  - eapply leases_ok_mono; [| |done]; done.
  - eapply candidates_ok_mono; [..|done]; unfold candidate_rows, workflows_grow; by rewrite ?Hc, ?Hwf.
  - eapply reservations_ok_mono; [..|done]; unfold reservations, candidate_rows, workflows_grow;
      by rewrite ?Hc, ?Hwf.
  - eapply goal_plans_same; [|done]. unfold plan_rows. by rewrite Hg.
  - by eapply ledger_same.
Qed.

(** ** Leases and candidates *)

(** Only the rows of leases change. *)
Lemma leases_kept d d' :
  (leases_ok d → leases_ok d') → rest_of_leases d' = rest_of_leases d → kept d d'.
Proof.
  intros Hl [= Hw Ht He Hd Hp Hc Hg Hled] Hok.
  destruct (documents_same d d' Hp ltac:(unfold candidate_rows; by rewrite Hc) Hok) as (?&?&?). split.
  2: { apply grows_commands; unfold candidate_rows; rewrite ?Hc; try done.
       split; [by rewrite He|by rewrite Hd]. }
  destruct Hok. split; try done.
  - intros i. eapply workflow_recorded_same; [..|done]; by rewrite ?Hw.
  - intros i. eapply task_recorded_same; [..|done]; by rewrite ?Ht.
  - intros i row. rewrite Ht, Hw. apply db_owned0.
  - by apply Hl.
  - eapply candidates_ok_mono; [..|done]; unfold candidate_rows, workflows_grow; by rewrite ?Hc, ?Hw.
  - eapply reservations_ok_mono; [..|done]; unfold reservations, candidate_rows, workflows_grow;
      by rewrite ?Hc, ?Hw.
  - eapply goal_plans_same; [|done]. unfold plan_rows. by rewrite Hg.
  - by eapply ledger_same.
Qed.

(** An operation that keeps the part [f]. *)
Lemma frame_of {X A} (f : Database → X) (m : method Store StoreError A) s s' r :
  preserves (on_database (same f)) m → m s = (s', r) → f (database s') = f (database s).
Proof. intros Hf Hm. specialize (Hf s). rewrite Hm in Hf. by destruct Hf as (_&_&_&Hf). Qed.

Lemma acquire_lease_kept new_id t owner now duration safety s :
  kept (database s) (database (acquire_lease new_id t owner now duration safety s).1).
Proof.
  apply kept_call; [apply acquire_lease_atomic|]. intros s' r Hcall. apply leases_kept.
  - intros Hl. apply acquire_lease_ok in Hcall as (_&d'&->&Hacq).
    eapply acquisition_keeps; [apply (jf_lease faithful)|done|exact Hacq].
  - eapply frame_of; [apply acquire_lease_frame|done].
Qed.
Lemma heartbeat_lease_kept id now duration s :
  kept (database s) (database (heartbeat_lease id now duration s).1).
Proof.
  apply kept_call; [apply heartbeat_lease_atomic|]. intros s' r Hcall. apply leases_kept.
  - intros Hl. eapply heartbeat_keeps; [apply (jf_lease faithful)|done|done].
  - eapply frame_of; [apply heartbeat_lease_frame|done].
Qed.
Lemma release_lease_kept id s : kept (database s) (database (release_lease id s).1).
Proof.
  apply kept_call; [apply release_lease_atomic|]. intros s' r Hcall. apply leases_kept.
  - intros Hl. by eapply release_keeps.
  - eapply frame_of; [apply release_lease_frame|done].
Qed.

(** Only the reservations change. *)
Lemma reservations_kept rows d :
  (reservations_ok d → reservations_ok (set_candidate_delivery_reservations rows d)) →
  kept d (set_candidate_delivery_reservations rows d).
Proof.
  intros Hr Hok. destruct (documents_same d (set_candidate_delivery_reservations rows d) eq_refl
    (reflexivity _) Hok) as (?&?&?). split; [|by apply grows_commands].
  destruct Hok. split; try done.
  - intros i. eapply workflow_recorded_same; [..|done]; done.
  - intros i. eapply task_recorded_same; [..|done]; done.
  - eapply leases_ok_mono; [..|done]; done.
  - eapply candidates_ok_mono; [..|done]; try done. by intros w.
  - by apply Hr.
  - eapply goal_plans_same; [..|done]; done.
  - eapply ledger_same; [|done]; done.
Qed.

Lemma reserve_candidate_delivery_kept w c dg t s :
  kept (database s) (database (reserve_candidate_delivery w c dg t s).1).
Proof.
  apply kept_call; [apply reserve_candidate_delivery_atomic|].
  intros s' [] [_ Hcall]%reserve_candidate_delivery_ok; [by destruct Hcall as [-> _]|].
  destruct Hcall as (_&Hfree&Hcrow&Hwrow&started&->). apply reservations_kept. intros Hr.
  apply reservations_ok_insert; [done| |done..]. intros c' r Hc' Hw. exfalso.
  apply (eq_true_false_abs _) in Hfree; [done|]. apply delivery_reserved_true. by exists c', r.
Qed.
Lemma release_candidate_delivery_kept w c dg s :
  kept (database s) (database (release_candidate_delivery w c dg s).1).
Proof.
  apply kept_call; [apply release_candidate_delivery_atomic|].
  intros s' u (_&row&_&_&_&->)%release_candidate_delivery_ok. apply reservations_kept.
  apply reservations_ok_delete.
Qed.
Lemma bind_candidate_delivery_journal_kept w c dg e j s :
  kept (database s) (database (bind_candidate_delivery_journal w c dg e j s).1).
Proof.
  apply kept_call; [apply bind_candidate_delivery_journal_atomic|].
  intros s' u (_&row&Hrow&<-&_&_&->)%bind_candidate_delivery_journal_ok. apply reservations_kept.
  intros Hr. destruct (ro_rows _ Hr c row Hrow) as [Hcr Hwr].
  apply reservations_ok_insert; [done| |exact Hcr|exact Hwr].
  intros c' r Hc' Hw. by eapply ro_unique.
Qed.

Lemma save_candidate_once_kept w m diff files t s :
  Candidate.loadable m → kept (database s) (database (save_candidate_once w m diff files t s).1).
Proof.
  intros Hm. apply kept_call; [apply save_candidate_once_atomic|]. intros s' [] Hcall Hok.
  { apply save_candidate_once_ok in Hcall as (_&_&norm&json&_&_&->&_). by split. }
  apply save_candidate_once_new in Hcall
    as (Hfresh&[row Hrows]&_&Hfiles&Hwf&Hp&Hg&Hled&Hres&Hco); [|apply Hok].
  specialize (Hco (jf_manifest faithful) Hm).
  assert (candidate_rows (database s) ⊆ candidate_rows (database s')) as Hsub.
  { rewrite Hrows. by apply insert_subseteq. }
  destruct (documents_same _ _ Hp Hsub Hok) as (?&?&?). split.
  2: { apply grows_commands; try done; [unfold answers_grow; by rewrite Hwf|].
       intros o q [? Ho]. apply Hfiles. intros ->. congruence. }
  destruct Hok. split; try done.
  - intros i. eapply workflow_recorded_same; [..|done]; by rewrite ?Hwf.
  - intros i. eapply task_recorded_same; [..|done]; by rewrite ?Hwf.
  - unfold tasks_owned. by rewrite ?Hwf.
  - eapply leases_ok_mono; [..|done]; unfold leases_of; by rewrite ?Hwf.
  - eapply reservations_ok_mono; [done| | |done]; [|by unfold workflows_grow; rewrite ?Hwf].
    intros i [r Hi]. exists r. by eapply lookup_weaken.
  - eapply goal_plans_same; [|done]. unfold plan_rows. by rewrite Hg.
  - by eapply ledger_same.
Qed.

(** ** Documents *)

Lemma save_architecture_once_leaves w p t :
  preserves (on_database (same (λ d, (constraints d, verification_plans d, evidence d, attempts d,
    reviews d, arbitrations d)))) (save_architecture_once w p t).
Proof. solve_frame. Qed.
Lemma save_evidence_once_leaves p w c r o m t :
  preserves (on_database (same (λ d, (requests d, plans d, versions d, constraints d,
    verification_plans d, reviews d, arbitrations d)))) (save_evidence_once p w c r o m t).
Proof. solve_frame. Qed.

Lemma documents_kept d d' :
  rest_of_plans d' = rest_of_plans d → (database_ok d → documents_grow d d') →
  (plans_ok d → plans_ok d') → (evidence_ok d → evidence_ok d') →
  (database_ok d → evidence d ⊆ evidence d' → versions d ⊆ versions d' → reviews_ok d') → kept d d'.
Proof.
  intros [= Hw Hc Hg Hled] Hgrow Hp He Hr Hok. pose proof (Hgrow Hok) as Hdocs.
  assert (reviews_ok d') as Hreviews by (destruct Hdocs as (_&_&?&_&?&_); by apply Hr).
  destruct (commands_same d d' Hw Hc Hok) as (?&?&?&?&?&?). split.
  - destruct Hok. split; try done; [by apply Hp|by apply He| |by eapply ledger_same].
    eapply goal_plans_same; [|done]. unfold plan_rows. by rewrite Hg.
  - apply grows_others; try done; unfold entries_of, plan_rows, links; by rewrite ?Hg, ?Hled.
Qed.

(** One of the documents that nothing else depends on. *)
Lemma document_added d d' :
  rest_of_plans d' = rest_of_plans d → plans d' = plans d → versions d' = versions d →
  evidence d' = evidence d → attempts d' = attempts d → reviews d' = reviews d →
  documents_grow d d' → kept d d'.
Proof.
  intros Hrest Hp Hv He Ha Hr Hgrow. apply documents_kept; [done|done|..].
  - intros Hok. eapply plans_ok_mono; [done|done|apply Hgrow|done].
  - intros Hok. injection Hrest as ? Hc ??.
    eapply evidence_ok_mono; [done|done|unfold candidate_rows; by rewrite Hc|done].
  - intros Hok ??. injection Hrest as ? Hc ??.
    eapply reviews_ok_mono; [done|unfold candidate_rows; by rewrite Hc|done|done|apply Hok].
Qed.

Lemma save_request_once_kept w p r t s :
  kept (database s) (database (save_request_once w p r t s).1).
Proof.
  apply kept_call; [apply save_request_once_atomic|].
  intros s' [] [_ Hcall]%save_request_once_ok; [by destruct Hcall as [-> _]|].
  destruct Hcall as (Hnone&json&created&_&->).
  apply document_added; try done. split_and!; try done. by apply insert_subseteq.
Qed.
Lemma save_constraint_once_kept w kind dg (v : Value) t s :
  kept (database s) (database (save_constraint_once w kind dg v t s).1).
Proof.
  apply kept_call; [apply save_constraint_once_atomic|].
  intros s' [] [_ Hcall]%save_constraint_once_ok; [by destruct Hcall as [-> _]|].
  destruct Hcall as (Hnone&_&json&created&_&->).
  apply document_added; try done. split_and!; try done. by apply insert_subseteq.
Qed.
Lemma save_verification_plan_once_kept id w (v : Value) t s :
  kept (database s) (database (save_verification_plan_once id w v t s).1).
Proof.
  apply kept_call; [apply save_verification_plan_once_atomic|].
  intros s' [] [_ Hcall]%save_verification_plan_once_ok; [by destruct Hcall as [-> _]|].
  destruct Hcall as (Hnone&_&json&created&_&->).
  apply document_added; try done. split_and!; try done. by apply insert_subseteq.
Qed.
Lemma save_arbitration_once_kept w c v r t s :
  kept (database s) (database (save_arbitration_once w c v r t s).1).
Proof.
  apply kept_call; [apply save_arbitration_once_atomic|].
  intros s' [] (_&_&_&_&_&row&_&_&_&_&Hcall)%save_arbitration_once_ok; [by destruct Hcall as [-> _]|].
  destruct Hcall as (Hnone&_&_&->).
  apply document_added; try done. split_and!; try done. by apply insert_subseteq.
Qed.

Lemma save_review_once_kept w c v t s :
  kept (database s) (database (save_review_once w c v t s).1).
Proof.
  apply kept_call; [apply save_review_once_atomic|]. intros s' [] Hcall;
    pose proof Hcall as [_ (role&json&_&_&Heffect)]%save_review_once_ok;
    [by destruct Heffect as [-> _]|].
  destruct Heffect as (?&?&?&?&finalized&Hnone&_&_&_&_&_&_&_&_&_&Hs).
  apply documents_kept; rewrite Hs; [done|..].
  - intros _. split_and!; try done. by apply insert_subseteq.
  - intros Hok. eapply plans_ok_mono; [..|exact Hok]; done.
  - intros Hok. eapply evidence_ok_mono; [..|exact Hok]; done.
  - intros Hok _ _. rewrite <-Hs.
    eapply save_review_once_keeps; [apply (jf_review faithful)|apply Hok..|exact Hcall].
Qed.

Lemma save_architecture_once_kept w p t s :
  kept (database s) (database (save_architecture_once w p t s).1).
Proof.
  apply kept_call; [apply save_architecture_once_atomic|]. intros s' [] Hcall;
    pose proof Hcall as [_ Heffect]%save_architecture_once_ok; [by destruct Heffect as [-> _]|].
  destruct Heffect as (d'&->&Hadded). simpl.
  pose proof (frame_of _ _ _ _ _ (save_architecture_once_frame w p t) Hcall) as Hrest.
  pose proof (frame_of _ _ _ _ _ (save_architecture_once_leaves w p t) Hcall) as Hleaves. simpl in *.
  injection Hleaves as Hc Hv He Ha Hr Harb. pose proof Hrest as [= _ Hcand _ _].
  apply documents_kept; [exact Hrest|..].
  - intros _. destruct Hadded as (?&?&row&?&_&_&_&_&_&_&_&_&Hfresh&_&Hversions&Hreq).
    split_and!; rewrite ?Hc, ?Hv, ?He, ?Ha, ?Hr, ?Harb, ?Hreq; try done.
    rewrite Hversions. by apply insert_subseteq.
  - intros Hp. eapply revision_added_ok; [apply (jf_plan faithful)|done..].
  - intros Hok. eapply evidence_ok_mono; [done|done|unfold candidate_rows; by rewrite Hcand|done].
  - intros Hok ??. eapply reviews_ok_mono; [done|unfold candidate_rows; by rewrite Hcand|done|done|apply Hok].
Qed.

Lemma save_evidence_once_kept p w c r o m t s :
  kept (database s) (database (save_evidence_once p w c r o m t s).1).
Proof.
  apply kept_call; [apply save_evidence_once_atomic|]. intros s' [] Hcall;
    pose proof Hcall as (_&Hvalid&_&json&crow&prow&Hjson&_&_&Hcrow&_&Hdigest&Heffect)%save_evidence_once_ok;
    [by rewrite Heffect|].
  destruct Heffect as (d'&->&Hadded). simpl.
  pose proof (frame_of _ _ _ _ _ (save_evidence_once_frame p w c r o m t) Hcall) as Hrest.
  pose proof (frame_of _ _ _ _ _ (save_evidence_once_leaves p w c r o m t) Hcall) as Hleaves. simpl in *.
  injection Hleaves as Hreq Hp Hver Hc Hvp Hr Harb.
  apply documents_kept; [exact Hrest|..].
  - intros _. destruct Hadded as [_ [(Hnone&Ha&created&He)|(row&created&Hrow&_&He&Ha)]];
      split_and!; rewrite ?Hreq, ?Hc, ?Hver, ?Hvp, ?He, ?Ha, ?Hr, ?Harb; try done;
      apply insert_subseteq; [done|apply next_number_fresh].
  - intros Hok. eapply plans_ok_mono; [done|done|by rewrite Hreq|done].
  - intros Hok. eapply evidence_added_ok; [apply (jf_evidence faithful)|done..].
  - intros Hok Hsub _. destruct Hadded as [Hcand _].
    eapply reviews_ok_mono; [done|by rewrite Hcand|by rewrite Hver|done|apply Hok].
Qed.

(** ** The ledger *)

(** Only the rows of the ledger change. *)
Lemma ledger_kept d d' :
  rest_of_ledger d' = rest_of_ledger d →
  ((∃ c, ledger_holds c d) → (∃ c, ledger_holds c d') ∧ entries_of d ⊆ entries_of d') → kept d d'.
Proof.
  intros [= Hw Hp Hc Hg] Hl Hok. destruct (Hl (db_ledger _ Hok)) as [Hholds Hsub].
  destruct (documents_same d d' Hp ltac:(unfold candidate_rows; by rewrite Hc) Hok) as (?&?&?).
  destruct (commands_same d d' Hw Hc Hok) as (?&?&?&?&?&?). split.
  - destruct Hok. split; try done. eapply goal_plans_same; [|done]. unfold plan_rows. by rewrite Hg.
  - apply grows_others; try done; [by apply documents_grow_same|..]; unfold plan_rows, links;
      by rewrite Hg.
Qed.

Lemma append_ledger_event_kept ev s : kept (database s) (database (append_ledger_event ev s).1).
Proof.
  apply kept_call; [apply append_ledger_event_atomic|]. intros s' e Hcall.
  apply ledger_kept; [eapply frame_of; [apply append_ledger_event_frame|done]|].
  intros [c Hc].
  eapply append_ledger_event_ok in Hcall as (_&_&Hholds&Hnone&row&Hs); [|apply (jf_event faithful)|done].
  split; [by eexists|]. rewrite Hs. by apply insert_subseteq.
Qed.
Lemma save_checkpoint_kept c s : kept (database s) (database (save_checkpoint c s).1).
Proof.
  apply kept_call; [apply save_checkpoint_atomic|]. intros s' u Hcall.
  pose proof (frame_of _ _ _ _ _ (save_checkpoint_frame c) Hcall) as Hrest. simpl in Hrest.
  injection Hrest as ???? He. apply ledger_kept; [unfold rest_of_ledger; congruence|].
  intros [ch [Hrow Hkey Hlink]]. rewrite He. split; [|done]. exists ch. split; by rewrite ?He.
Qed.

(** ** Goals *)

Lemma apply_goal_command_leaves id key c t :
  preserves (on_database (same (λ d, (plan_rows d, goal_focus (goal_tables d), links d))))
    (apply_goal_command id key c t).
Proof. solve_frame. Qed.
Lemma append_goal_amendment_leaves id key text t :
  preserves (on_database (same (λ d, (plan_rows d, goal_focus (goal_tables d), links d))))
    (append_goal_amendment id key text t).
Proof. solve_frame. Qed.

Lemma goal_tables_kept d d' :
  only_goals d' = only_goals d → (goal_plans_ok d → goal_plans_ok d') →
  plan_rows d ⊆ plan_rows d' → links d ⊆ links d' → kept d d'.
Proof.
  intros [= Hw Hp Hc Hled] Hg Hsub Hlinks Hok.
  destruct (documents_same d d' Hp ltac:(unfold candidate_rows; by rewrite Hc) Hok) as (?&?&?).
  destruct (commands_same d d' Hw Hc Hok) as (?&?&?&?&?&?). split.
  - destruct Hok. split; try done; [by apply Hg|by eapply ledger_same].
  - apply grows_others; try done; [by apply documents_grow_same|]. unfold entries_of. by rewrite Hled.
Qed.

Lemma save_goal_once_kept id p g t s : kept (database s) (database (save_goal_once id p g t s).1).
Proof.
  apply kept_call; [apply save_goal_once_atomic|].
  intros s' [] [_ (json&_&Hcall)]%save_goal_once_ok; [by destruct Hcall as [-> _]|].
  destruct Hcall as (_&created&->). apply goal_tables_kept; try done.
  intros Hok. eapply goal_plans_same; [|exact Hok]; done.
Qed.
Lemma focus_goal_kept p x id t s : kept (database s) (database (focus_goal p x id t s).1).
Proof.
  apply kept_call; [apply focus_goal_atomic|]. intros s' [] (_&row&updated&_&_&->)%focus_goal_ok.
  apply goal_tables_kept; try done. intros Hok. eapply goal_plans_same; [|exact Hok]; done.
Qed.
Lemma link_goal_workflow_kept id w m t s :
  kept (database s) (database (link_goal_workflow id w m t s).1).
Proof.
  apply kept_call; [apply link_goal_workflow_atomic|].
  intros s' [] [_ [[-> _]|(Hnone&_&_&linked&->)]]%link_goal_workflow_ok; [done|].
  apply goal_tables_kept; try done; [|by apply insert_subseteq].
  intros Hok. eapply goal_plans_same; [|exact Hok]; done.
Qed.
Lemma save_goal_plan_kept id x content t s :
  kept (database s) (database (save_goal_plan id x content t s).1).
Proof.
  apply kept_call; [apply save_goal_plan_atomic|]. intros s' n Hcall.
  apply goal_tables_kept.
  - eapply frame_of; [apply save_goal_plan_frame|exact Hcall].
  - intros Hok. by eapply save_goal_plan_keeps.
  - apply save_goal_plan_ok in Hcall as (_&_&_&[[-> _]|(->&_&_&_&created&->)]); [done|].
    apply insert_subseteq, next_number_fresh.
  - apply save_goal_plan_ok in Hcall as (_&_&_&[[-> _]|(->&_&_&_&created&->)]); done.
Qed.

(** Events and an answer about a goal. *)
Lemma goal_answer_kept d d' new key row :
  rest_of_goals d' = rest_of_goals d → plan_rows d' = plan_rows d → links d' = links d →
  events (workflow_tables d') = events (workflow_tables d) ++ new →
  Forall (λ e, event_aggregate e = GoalAggregate) new →
  command_deduplication (workflow_tables d) !! key = None →
  command_deduplication (workflow_tables d') =
    <[key := row]> (command_deduplication (workflow_tables d)) →
  aggregate_type row = GoalAggregate ∨ aggregate_type row = AmendmentAggregate → kept d d'.
Proof.
  intros [= Hw Ht Hl Hp Hc Hled] Hplans Hlinks He Hnew Hkey Hd Hkind Hok.
  assert (∀ kind id, kind = WorkflowAggregate ∨ kind = TaskAggregate →
    Forall (λ e, ¬ about kind id e) new ∧ (aggregate_type row, aggregate_id row) ≠ (kind, id)) as Hother.
  { intros kind id Hk. split.
    - eapply Forall_impl; [exact Hnew|]. intros e Hgoal [Habout _]. rewrite Hgoal in Habout.
      destruct Hk; congruence.
    - intros [= Hrow _]. destruct Hk, Hkind; congruence. }
  destruct (documents_same d d' Hp ltac:(unfold candidate_rows; by rewrite Hc) Hok) as (?&?&?). split.
  - destruct Hok. split; try done.
    + intros i. destruct (db_workflows0 i) as (h&w&Hrun&Hst&Hcur&Hnil). exists h, w.
      unfold current_workflow in *. rewrite Hw. split_and!; try done.
      destruct (Hother WorkflowAggregate i); [by left|]. by eapply journal_stored_elsewhere.
    + intros i. destruct (db_tasks0 i) as (h&w&Hrun&Hst&Hcur&Hnil). exists h, w.
      unfold current_task in *. rewrite Ht. split_and!; try done.
      destruct (Hother TaskAggregate i); [by right|]. by eapply journal_stored_elsewhere.
    + unfold tasks_owned. by rewrite Ht, Hw.
    + eapply leases_ok_mono; [..|done]; unfold leases_of; by rewrite ?Hl, ?Ht.
    + eapply candidates_ok_mono; [..|done]; unfold candidate_rows, workflows_grow; by rewrite ?Hc, ?Hw.
    + eapply reservations_ok_mono; [..|done]; unfold reservations, candidate_rows, workflows_grow;
        by rewrite ?Hc, ?Hw.
    + eapply goal_plans_same; done.
    + by eapply ledger_same.
  - split; unfold candidate_rows, entries_of; rewrite ?Hc, ?Hled, ?Hplans, ?Hlinks; try done.
    + split; [rewrite He; by eexists|]. rewrite Hd. by apply insert_subseteq.
    + by apply documents_grow_same.
Qed.

Lemma apply_goal_command_kept id key c t s :
  kept (database s) (database (apply_goal_command id key c t s).1).
Proof.
  apply kept_call; [apply apply_goal_command_atomic|]. intros s' r Hcall.
  pose proof (frame_of _ _ _ _ _ (apply_goal_command_leaves id key c t) Hcall) as [= Hplans _ Hlinks].
  apply apply_goal_command_ok in Hcall as [_ [(?&?&_&_&_&->)|Hcall]]; [done|].
  destruct Hcall as (row&g&g'&es&json&updated&d'&_&_&_&_&->&_&_&Hadd&Hrest). simpl in *.
  destruct Hadd as (jsons&answer&created&_&_&Hkey&He&Hd).
  eapply goal_answer_kept; try done; [|by left].
  apply Forall_fmap, Forall_true. done.
Qed.
Lemma append_goal_amendment_kept id key text t s :
  kept (database s) (database (append_goal_amendment id key text t s).1).
Proof.
  apply kept_call; [apply append_goal_amendment_atomic|]. intros s' g' Hcall.
  pose proof (frame_of _ _ _ _ _ (append_goal_amendment_leaves id key text t) Hcall) as [= Hplans _ Hlinks].
  apply append_goal_amendment_ok in Hcall as [_ [(?&_&_&->)|Hcall]]; [done|].
  destruct Hcall as (row&g&json&updated&event&answer&d'&_&_&_&->&_&_&Hkey&He&Hgoal&_&Hd&Hk&_&_&Hrest).
  simpl in *. eapply goal_answer_kept; try done; [|by right]. by apply Forall_singleton.
Qed.

(** * Every store *)

Lemma run_call_kept c s : call_ok c → kept (database s) (database (run_call c s)).
Proof.
  unfold run_call. destruct c; simpl; intros Hc; rewrite void_state;
    eauto using apply_workflow_command_kept, apply_task_command_kept, acquire_lease_kept,
      heartbeat_lease_kept, release_lease_kept, save_candidate_once_kept,
      reserve_candidate_delivery_kept, release_candidate_delivery_kept,
      bind_candidate_delivery_journal_kept, deliver_reserved_candidate_kept, save_request_once_kept,
      save_constraint_once_kept, save_architecture_once_kept, save_verification_plan_once_kept,
      save_evidence_once_kept, save_review_once_kept, save_arbitration_once_kept,
      append_ledger_event_kept, save_checkpoint_kept, save_goal_once_kept, apply_goal_command_kept,
      append_goal_amendment_kept, focus_goal_kept, save_goal_plan_kept, link_goal_workflow_kept.
Qed.

Lemma run_calls_kept calls s : Forall call_ok calls → kept (database s) (database (run_calls calls s)).
Proof.
  intros Hcalls. revert s. induction Hcalls as [|c calls Hc _ IH]; intros s; [done|]. simpl.
  etrans; [by apply run_call_kept|apply IH].
Qed.

Lemma numbered_rows_empty {Row} : numbered_rows (∅ : gmap (uuid * N) Row).
Proof.
  intros owner n. rewrite lookup_empty. unfold next_number, last_row. rewrite map_fold_empty. simpl.
  split; [by intros [? ?]|lia].
Qed.

Lemma empty_database_ok : database_ok empty_database.
Proof.
  split.
  - intros id. exists [], Workflow.workflow_default. split_and!; [constructor| |done|done].
    apply journal_stored_empty; [done|]. intros key json (row&Hrow&_). done.
  - intros id. exists [], Task.task_new. split_and!; [constructor| |done|done].
    apply journal_stored_empty; [done|]. intros key json (row&Hrow&_). done.
  - done.
  - split; [done|done|]. by intros t [? ?].
  - split; [done|]. by intros id p [? ?].
  - split; done.
  - split; [|done..]. apply numbered_rows_empty.
  - split; [done|done|]. apply numbered_rows_empty.
  - done.
  - split; [|done|done]. apply numbered_rows_empty.
  - exists []. apply ledger_holds_empty.
Qed.

(** The mode of a store and its bound on readers are not written by the calls. *)
Lemma run_calls_ok calls limit :
  Forall call_ok calls → database_ok (database (run_calls calls (store_new limit))).
Proof. intros Hcalls. apply run_calls_kept; [done|]. apply empty_database_ok. Qed.

(** No call changes the mode a store was opened in. *)
#[local] Instance any_preorder : PreOrder (λ _ _ : Database, True).
Proof. by split. Qed.
Lemma run_call_mode c s : mode (run_call c s) = mode s.
Proof.
  unfold run_call. destruct c; simpl; rewrite void_state; match goal with |- mode (?m s).1 = _ =>
    enough (preserves (on_database (λ _ _, True)) m) as Hm by apply Hm end; solve_frame; done.
Qed.
Lemma run_calls_mode calls s : mode (run_calls calls s) = mode s.
Proof.
  revert s. induction calls as [|c calls IH]; intros s; [done|]. simpl. rewrite IH. apply run_call_mode.
Qed.

(** A call that fails leaves no trace, and a store of a later schema takes none. *)
Lemma perform_atomic c : atomic (perform c).
Proof.
  destruct c; simpl; apply void_atomic;
    first [apply apply_workflow_command_atomic|apply apply_task_command_atomic
      |apply acquire_lease_atomic|apply heartbeat_lease_atomic|apply release_lease_atomic
      |apply save_candidate_once_atomic|apply reserve_candidate_delivery_atomic
      |apply release_candidate_delivery_atomic|apply bind_candidate_delivery_journal_atomic
      |apply deliver_reserved_candidate_atomic|apply save_request_once_atomic
      |apply save_constraint_once_atomic|apply save_architecture_once_atomic
      |apply save_verification_plan_once_atomic|apply save_evidence_once_atomic
      |apply save_review_once_atomic|apply save_arbitration_once_atomic
      |apply append_ledger_event_atomic|apply save_checkpoint_atomic|apply save_goal_once_atomic
      |apply apply_goal_command_atomic|apply append_goal_amendment_atomic|apply focus_goal_atomic
      |apply save_goal_plan_atomic|apply link_goal_workflow_atomic].
Qed.
Lemma perform_writable c s s' u : perform c s = (s', Ok u) → mode s = ReadWrite.
Proof.
  destruct c; simpl; intros [a Hcall]%void_ok; apply method_bind_ok in Hcall as (s1&[]&Hcall&_);
    first [apply require_writable_ok in Hcall|apply writable_connection_ok in Hcall]; apply Hcall.
Qed.

End store.
Arguments StoreCall Value : clear implicits.
End Persistence.
