(* ===== verification/StoreSample.v ===== *)
(** A store in use, for the examples of the store's theorems: encodings of the
    values its rows hold and the calls of one workflow from intake to delivery. *)
From Stdlib Require Import Ascii String.
From S2P Require Import Prelude Text Ids Paths Canonical WorkflowMachine TaskMachine Requests Goals.
From S2P Require Import Dag Verdicts Candidates Plans Redaction Ledger History Database StoreCommands.
From S2P Require Import StoreLeases StoreCandidates StoreDocuments StoreLedger StoreGoals StoreRun.

Module Sample.
Export Persistence.
Import Leases.
Local Open Scope N_scope.

#[export] Existing Instances toy_sha256 toy_rfc3339.
#[export] Existing Instance Checkpoint.toy_ed25519.

(** A type whose values no example writes. *)
Definition not_written {A} : Persist A := {| json_encode _ := None; json_decode _ := None |}.
Lemma not_written_faithful {A} : @json_faithful A not_written.
Proof. done. Qed.

#[export] Instance payload_json : ToJson (list (string * string * bool)) := λ _, Some "payload".
#[export] Instance plan_json_bytes : ToJson Plan.ArchitecturePlan := λ _, Some "plan".
#[export] Instance verdict_json_bytes : ToJson Arbiter.ArbiterVerdict := λ _, Some "verdict".
#[export] Existing Instance Ledger.toy_event_json.

(** * The documents *)

Definition workflow : WorkflowId := word_of 128 1.
Definition project : ProjectId := word_of 128 2.
Definition task : TaskId := word_of 128 3.
Definition session : SessionId := word_of 128 4.
Definition lease : LeaseId := word_of 128 5.
Definition evidence_id : EvidenceId := word_of 128 6.
Definition verification : VerificationPlanId := word_of 128 7.
Definition candidate : CandidateId := word_of 128 8.

Definition request : Request.RequestRecord :=
  {| Request.original_text := "build it"; Request.attachment_hashes := []; Request.amendments := [] |}.

Definition plan : Plan.ArchitecturePlan :=
  {| Plan.assumptions := []; Plan.integration_checks := ["run it"];
     Plan.request_digest := default (word_of 256 0) (Request.request_digest request);
     Plan.requirements := [{| Plan.requirement_criteria := ["it builds"];
                              Plan.requirement_key := "REQ-1"; Plan.statement := "it is built" |}];
     Plan.risks := [];
     Plan.tasks := [{| Plan.task_criteria := ["it builds"]; Plan.task_dependencies := [];
                       Plan.task_id := task; Plan.objective := "build"; Plan.requirement_ids := ["REQ-1"];
                       Plan.title := "build"; Plan.verification_commands := ["make"];
                       Plan.task_write_scopes := ["src"] |}] |}.

Definition files : list CandidateFilePayload :=
  [payload_new "src/b.rs" "b"; payload_with_executable "src/a.sh" "a" true].
Definition diff : string := "a diff".
Definition manifest : Candidate.CandidateManifest :=
  {| Candidate.candidate_id := candidate; Candidate.base_revision := Some "main";
     Candidate.files :=
       [{| Candidate.executable := true; Candidate.path := "src/a.sh";
           Candidate.file_digest := Some (digest_of "a"); Candidate.kind := Candidate.Added |};
        {| Candidate.executable := false; Candidate.path := "src/b.rs";
           Candidate.file_digest := Some (digest_of "b"); Candidate.kind := Candidate.Modified |}];
     Candidate.diff_digest := digest_of diff; Candidate.dependency_state_digest := word_of 256 2;
     Candidate.configuration_digest := word_of 256 3; Candidate.environment_digest := word_of 256 4;
     Candidate.delivery_payload_digest := json_digest (payload_entries files);
     Candidate.evidence_ids := [] |}.
Definition content : ContentDigest := default (word_of 256 0) (Candidate.candidate_digest manifest).

Definition record : Evidence.EvidenceRecord :=
  {| Evidence.id := evidence_id; Evidence.candidate_digest := content;
     Evidence.kind := Evidence.Inspection; Evidence.invocation := "make"; Evidence.tool := "make";
     Evidence.tool_version := "4"; Evidence.started_at := 1%Z; Evidence.finished_at := 2%Z;
     Evidence.exit_code := Some 0%Z; Evidence.output_digest := word_of 256 5;
     Evidence.status := Evidence.Passed; Evidence.skip_reason := None |}.

Definition review : Review.ReviewVerdict :=
  {| Review.candidate_digest := content; Review.decision := Review.Approved; Review.findings := [];
     Review.repair_target := None;
     Review.requirements := [{| requirement_id := "REQ-1"; requirement_status := Satisfied;
                                requirement_evidence := {[evidence_id]} |}];
     Review.role := FunctionalReviewer |}.

Definition event (n : N) : Event.LedgerEvent :=
  {| Event.actor := Event.sample_actor; Event.candidate_id := None;
     Event.data := Event.WorkflowData "step"; Event.event_id := word_of 128 n;
     Event.evidence_ids := ∅; Event.files := ∅; Event.metadata := ∅; Event.project_id := project;
     Event.task_id := None; Event.timestamp := Z.of_N n; Event.workflow_id := Some workflow |}.

(** * The encodings *)

Definition commands : list Workflow.WorkflowCommand :=
  [Workflow.CompleteIntake; Workflow.Route Workflow.Full; Workflow.ArchitectureAccepted;
   Workflow.CandidateReady candidate; Workflow.VerificationPassed; Workflow.ReviewsReady;
   Workflow.Approve true; Workflow.Deliver].
(** The answers of the workflow's commands, in order. *)
Fixpoint answers (state : Workflow.Workflow) (cs : list Workflow.WorkflowCommand)
    : list (PersistedResult Workflow.WorkflowEvent Workflow.Workflow) :=
  match cs with
  | [] => []
  | c :: cs' =>
      match Workflow.workflow_apply c state with
      | (state', Ok es) =>
          {| persisted_events := es; persisted_state := state' |} :: answers state' cs'
      | _ => []
      end
  end.
Definition workflow_answers := answers Workflow.workflow_default commands.

#[export] Existing Instances Workflow.WorkflowMode_eq_dec Workflow.RepairTarget_eq_dec
  Workflow.WorkflowState_eq_dec Workflow.WorkflowEvent_eq_dec Workflow.Workflow_eq_dec.
#[export] Existing Instances Task.TaskState_eq_dec.
#[export] Instance PersistedResult_eq_dec {E T} `{EqDecision E, EqDecision T} :
  EqDecision (PersistedResult E T).
Proof. solve_decision. Defined.
#[export] Instance TaskEvent_eq_dec : EqDecision Task.TaskEvent.
Proof. solve_decision. Defined.
#[export] Instance Task_eq_dec : EqDecision Task.Task.
Proof. solve_decision. Defined.
#[export] Instance ActionSafety_eq_dec : EqDecision Lease.ActionSafety.
Proof. solve_decision. Defined.
#[export] Instance Lease_eq_dec : EqDecision Lease.Lease.
Proof. solve_decision. Defined.
#[export] Instance CandidateFileKind_eq_dec : EqDecision Candidate.CandidateFileKind.
Proof. solve_decision. Defined.
#[export] Instance CandidateFile_eq_dec : EqDecision Candidate.CandidateFile.
Proof. solve_decision. Defined.
#[export] Instance CandidateManifestUnchecked_eq_dec : EqDecision Candidate.CandidateManifestUnchecked.
Proof. solve_decision. Defined.
#[export] Existing Instance Evidence.EvidenceKind_eq_dec.
#[export] Existing Instance Evidence.EvidenceStatus_eq_dec.
#[export] Instance EvidenceRecord_eq_dec : EqDecision Evidence.EvidenceRecord.
Proof. solve_decision. Defined.
#[export] Instance RequirementDecision_eq_dec : EqDecision RequirementDecision.
Proof. solve_decision. Defined.
#[export] Instance FindingSeverity_eq_dec : EqDecision FindingSeverity.
Proof. solve_decision. Defined.
#[export] Instance Finding_eq_dec : EqDecision Finding.
Proof. solve_decision. Defined.
#[export] Instance ReviewDecision_eq_dec : EqDecision Review.ReviewDecision.
Proof. solve_decision. Defined.
#[export] Instance ReviewVerdict_eq_dec : EqDecision Review.ReviewVerdict.
Proof. solve_decision. Defined.
#[export] Instance Requirement_eq_dec : EqDecision Plan.Requirement.
Proof. solve_decision. Defined.
#[export] Instance PlannedTask_eq_dec : EqDecision Plan.PlannedTask.
Proof. solve_decision. Defined.
#[export] Instance ArchitecturePlan_eq_dec : EqDecision Plan.ArchitecturePlan.
Proof. solve_decision. Defined.
#[export] Instance UncheckedPlan_eq_dec : EqDecision UncheckedPlan.
Proof. solve_decision. Defined.
#[export] Existing Instance Request.RequestAmendment_eq_dec.
#[export] Instance RequestRecordUnchecked_eq_dec : EqDecision Request.RequestRecordUnchecked.
Proof. solve_decision. Defined.
#[export] Instance ModelIdentity_eq_dec : EqDecision Event.ModelIdentity.
Proof. solve_decision. Defined.
#[export] Instance Actor_eq_dec : EqDecision Event.Actor.
Proof. solve_decision. Defined.
#[export] Instance EventData_eq_dec : EqDecision Event.EventData.
Proof. solve_decision. Defined.
#[export] Instance LedgerEvent_eq_dec : EqDecision Event.LedgerEvent.
Proof. solve_decision. Defined.

(** What is written and never read. *)
Definition only_written {A} : Persist A := {| json_encode _ := Some "written"; json_decode _ := None |}.

Definition task_answer : PersistedResult Task.TaskEvent Task.Task :=
  match Task.task_apply Task.DependenciesSatisfied Task.task_new with
  | (state, Ok es) => {| persisted_events := es; persisted_state := state |}
  | (state, Err _) => {| persisted_events := []; persisted_state := state |}
  end.
Definition held_lease : Lease.Lease :=
  {| Lease.lease_id := lease; Lease.task_id := task; Lease.owner := session;
     Lease.acquired_at_unix_millis := 1000; Lease.expires_at_unix_millis := 6000;
     Lease.safety := Lease.NonIdempotent |}%Z.

#[export] Instance text_persist : Persist string := {| json_encode s := Some s; json_decode s := Some s |}.
#[export] Instance workflow_persist : Persist Workflow.Workflow :=
  table_persist (persisted_state <$> workflow_answers).
#[export] Instance workflow_event_persist : Persist Workflow.WorkflowEvent := only_written.
#[export] Instance workflow_result_persist :
  Persist (PersistedResult Workflow.WorkflowEvent Workflow.Workflow) := table_persist workflow_answers.
#[export] Instance task_persist : Persist Task.Task := table_persist [persisted_state task_answer].
#[export] Instance task_event_persist : Persist Task.TaskEvent := only_written.
#[export] Instance task_result_persist : Persist (PersistedResult Task.TaskEvent Task.Task) :=
  table_persist [task_answer].
#[export] Instance lease_persist : Persist Lease.Lease := table_persist [held_lease].
#[export] Instance request_unchecked_persist : Persist Request.RequestRecordUnchecked :=
  table_persist [Request.unchecked request].
#[export] Instance unchecked_plan_persist : Persist UncheckedPlan := table_persist [Unchecked plan].
#[export] Instance manifest_unchecked_persist : Persist Candidate.CandidateManifestUnchecked :=
  table_persist [Candidate.candidate_unchecked manifest].
#[export] Instance evidence_persist : Persist Evidence.EvidenceRecord := table_persist [record].
#[export] Instance review_persist : Persist Review.ReviewVerdict := table_persist [review].
#[export] Instance verdict_persist : Persist Arbiter.ArbiterVerdict := not_written.
#[export] Instance receipt_persist : Persist Receipt.ArbitrationReceipt := not_written.
#[export] Instance event_persist : Persist Event.LedgerEvent := table_persist (event <$> [1; 2; 3]).
#[export] Instance checkpoint_persist : Persist Checkpoint.Checkpoint := not_written.
#[export] Instance unchecked_goal_persist : Persist Goal.UncheckedGoal := not_written.
#[export] Instance goal_event_persist : Persist Goal.GoalEvent := not_written.
#[export] Instance unchecked_goal_result_persist :
  Persist (PersistedResult Goal.GoalEvent Goal.UncheckedGoal) := not_written.
#[export] Instance amendment_persist : Persist GoalStore.AmendmentAppended := not_written.

Lemma faithful : store_json_faithful.
Proof. split; apply table_persist_faithful. Qed.

(** * The calls *)

Definition command (n : nat) (key : string) : StoreCall string :=
  ApplyWorkflow workflow key (default Workflow.Cancel (commands !! n)) (Z.of_nat n).
(** The workflow's plan is accepted and its task taken. *)
Definition planned : list (StoreCall string) :=
  [SaveRequest workflow project request 0%Z; command 0 "intake"; command 1 "route";
   AppendLedger (event 1); SaveArchitecture workflow plan 1%Z; command 2 "plan";
   ApplyTask workflow task "task" Task.DependenciesSatisfied 2%Z;
   AcquireLease lease task session 1000 5000 Lease.NonIdempotent].
(** Its candidate is saved, verified and reviewed. *)
Definition saved : StoreCall string := SaveCandidate workflow manifest diff files 3%Z.
Definition reviewed : list (StoreCall string) :=
  [command 3 "candidate"; SaveVerificationPlan verification workflow "make" 4%Z;
   SaveEvidence verification workflow candidate record "ok" true 4%Z; command 4 "verified";
   SaveReview workflow candidate review 5%Z; AppendLedger (event 2)].
(** It is approved and its delivery reserved. *)
Definition reserved : list (StoreCall string) :=
  [command 5 "reviews"; command 6 "approved"; ReserveDelivery workflow candidate content 6%Z;
   BindJournal workflow candidate content None (word_of 256 9)].
Definition delivery : StoreCall string :=
  DeliverReserved workflow candidate content (word_of 256 9) "deliver" 7%Z.

Abbreviation store_of calls := (run_calls (Value := string) calls (store_new 4)).

(** Every one of the calls succeeds. *)
Fixpoint all_succeed (calls : list (StoreCall string)) (s : Store) : bool :=
  match calls with
  | [] => true
  | c :: calls' => let '(s', r) := perform c s in is_ok r && all_succeed calls' s'
  end.
Example calls_succeed :
  all_succeed (planned ++ [saved] ++ reviewed ++ reserved ++ [delivery]) (store_new 4) = true.
Proof. vm_compute. reflexivity. Qed.

Lemma sample_loadable : Candidate.loadable manifest.
Proof. vm_compute. reflexivity. Qed.
Lemma sample_calls_ok : Forall call_ok (planned ++ [saved] ++ reviewed ++ reserved ++ [delivery]).
Proof. repeat constructor. Qed.

(** What the stores along the way hold. *)
Definition stored_state (s : Store) : option Workflow.WorkflowState :=
  match load_workflow workflow s with Ok (Some w) => Some (Workflow.state w) | _ => None end.
Example state_reserved :
  stored_state (store_of (planned ++ [saved] ++ reviewed ++ reserved)) = Some Workflow.Delivery.
Proof. vm_compute. reflexivity. Qed.
Example state_delivered :
  stored_state (run_call delivery (store_of (planned ++ [saved] ++ reviewed ++ reserved))) =
    Some Workflow.Completed.
Proof. vm_compute. reflexivity. Qed.
Definition reservation_is_of (w : WorkflowId) (s : Store) : bool :=
  match reservations (database s) !! candidate with
  | Some row => word_val (reservation_workflow row) =? word_val w
  | None => false
  end.
Example workflow_reserved :
  reservation_is_of workflow (store_of (planned ++ [saved] ++ reviewed ++ reserved)) = true.
Proof. vm_compute. reflexivity. Qed.

Definition ledger_has_entries (s : Store) : bool :=
  match LedgerStore.load_ledger s with Ok (_ :: _) => true | _ => false end.
Example planned_ledger : ledger_has_entries (store_of planned) = true.
Proof. vm_compute. reflexivity. Qed.

Definition has_reviews (s : Store) : bool :=
  match load_reviews candidate s with Ok (_ :: _) => true | _ => false end.
Example candidate_reviewed : has_reviews (store_of (planned ++ [saved] ++ reviewed)) = true.
Proof. vm_compute. reflexivity. Qed.
End Sample.
