(* ===== verification/StoreGuarantees.v ===== *)
(** What workflow-store promises its callers, over any sequence of its calls:
    idempotent commands, a stored state that is the replay of its journal,
    deliveries and leases that nothing else disturbs, byte-exact candidates, an
    append-only ledger, and documents bound to what they are about. *)
From Stdlib Require Import Ascii String.
From S2P Require Import Prelude Text Ids Paths Canonical WorkflowMachine TaskMachine Requests Goals.
From S2P Require Import Dag Verdicts Candidates Plans Redaction Ledger History Database StoreCommands.
From S2P Require Import StoreLeases StoreCandidates StoreDocuments StoreLedger StoreGoals StoreRun StoreSample.

Module Guarantees.
Export Persistence.
Import Leases LedgerStore GoalStore.
Local Open Scope N_scope.

Section store.
Context {Value : Type} `{Sha256, Rfc3339, Checkpoint.Ed25519}.
Context `{ToJson (list (string * string * bool)), ToJson Plan.ArchitecturePlan,
  ToJson Arbiter.ArbiterVerdict, ToJson Event.LedgerEvent}.
Context `{Persist Value, Persist Workflow.Workflow, Persist Workflow.WorkflowEvent,
  Persist (PersistedResult Workflow.WorkflowEvent Workflow.Workflow),
  Persist Task.Task, Persist Task.TaskEvent, Persist (PersistedResult Task.TaskEvent Task.Task),
  Persist Lease.Lease, Persist Request.RequestRecordUnchecked, Persist UncheckedPlan,
  Persist Candidate.CandidateManifestUnchecked, Persist Evidence.EvidenceRecord,
  Persist Review.ReviewVerdict, Persist Arbiter.ArbiterVerdict, Persist Receipt.ArbitrationReceipt,
  Persist Event.LedgerEvent, Persist Checkpoint.Checkpoint, Persist Goal.UncheckedGoal,
  Persist Goal.GoalEvent, Persist (PersistedResult Goal.GoalEvent Goal.UncheckedGoal),
  Persist AmendmentAppended}.
Hypothesis faithful : store_json_faithful.
Implicit Types calls before after : list (StoreCall Value).

(** * Lemmas *)

(** A store that calls lead to, and what later calls keep of it. *)
Lemma run_calls_later calls after limit :
  Forall call_ok calls → Forall call_ok after →
  let s := run_calls calls (store_new limit) in
  database_ok (database s) ∧ database_ok (database (run_calls after s)) ∧
  grows (database s) (database (run_calls after s)) ∧
  mode s = ReadWrite ∧ mode (run_calls after s) = ReadWrite.
Proof.
  intros Hcalls Hafter s.
  assert (database_ok (database s)) as Hok by by apply run_calls_ok.
  destruct (run_calls_kept faithful after s Hafter Hok). unfold s. by rewrite !run_calls_mode.
Qed.

Lemma files_grow id d d' :
  grows d d' → is_Some (candidate_rows d !! id) → files_of id d' = files_of id d.
Proof. intros Hg Hid. apply file_rows_ext. intros p. by apply (gr_files _ _ Hg). Qed.

Lemma candidate_saved_grows w m diff files d d' :
  grows d d' → candidate_saved w m diff files d → candidate_saved w m diff files d'.
Proof.
  intros Hg (row&Hrow&?&?&?&?&Hfiles). exists row.
  split_and!; try done; [by eapply lookup_weaken, gr_candidates|].
  rewrite <-Hfiles. by apply files_grow.
Qed.

Lemma run_calls_snoc before c s : run_calls (before ++ [c]) s = run_call c (run_calls before s).
Proof. unfold run_calls. by rewrite foldl_snoc. Qed.

(** A command's answer is on record, and its key valid. *)
Lemma workflow_command_recorded id key c t s s' r :
  database_ok (database s) → apply_workflow_command id key c t s = (s', Ok r) →
  ∃ json p, answer_of WorkflowAggregate id (database s') key json ∧ json_decode json = Some p ∧
    repeated p = {| duplicate := true; result_events := result_events r;
                    result_state := result_state r |}.
Proof.
  intros Hok (_&_&[(json&p&Hans&Hdec&->&->)|(w&w'&es&d'&_&_&_&->&->&(Hadd&_)&_)])
    %apply_workflow_command_ok; [by exists json, p|].
  destruct (answer_added_answers _ _ _ _ _ _ Hadd) as (json&Hjson&Hans).
  exists json. eexists. split; [done|]. split; [by apply (jf_workflow_result faithful)|done].
Qed.

(** * Commands *)

(** C6. A workflow command takes effect once: after it was answered, and whatever
    calls came in between, asking again with the same idempotency key, whatever
    command comes with it, does not change the store. It gives the answer again,
    marked as a duplicate; or, while a candidate of the workflow has its delivery
    reserved, only the error that says so. *)
Theorem command_takes_effect_once before after limit id key c c' t t' s1 r :
  Forall call_ok before → Forall call_ok after →
  apply_workflow_command id key c t (run_calls before (store_new limit)) = (s1, Ok r) →
  let s2 := run_calls after s1 in
  apply_workflow_command id key c' t' s2 =
    (s2, if delivery_reserved id (database s2) then Err DeliveryInProgress
         else Ok {| duplicate := true; result_events := result_events r;
                    result_state := result_state r |}).
Proof.
  intros Hbefore Hafter Hcall s2.
  assert (s1 = run_call (ApplyWorkflow (Value:=Value) id key c t) (run_calls before (store_new limit))) as Hs1.
  { unfold run_call, perform. by rewrite void_state, Hcall. }
  destruct (run_calls_later (before ++ [ApplyWorkflow id key c t]) after limit) as (Hok1&_&Hg&_&Hmode);
    [by apply Forall_app_2; [|repeat constructor]|done|].
  rewrite run_calls_snoc, <-Hs1 in Hg, Hmode. fold s2 in Hg, Hmode.
  pose proof (apply_workflow_command_key _ _ _ _ _ _ _ Hcall) as Hkey.
  apply workflow_command_recorded in Hcall as (json&p&Hans&Hdec&<-); [|by apply run_calls_ok].
  destruct (delivery_reserved id (database s2)) eqn:Hreserved.
  - by apply apply_workflow_command_reserved.
  - eapply apply_workflow_command_repeats; try done. by eapply answer_of_grows, Hans; apply Hg.
Qed.

(** C9. The stored state of a workflow, and of a task, is the replay of its
    journal: for any calls there is a run of the state machine, a command per
    key, whose events are the rows of the events table in order, whose answers
    are the recorded ones, and whose last state is what a load gives; nothing
    loads when no command was accepted. *)
Theorem stored_states_are_their_journals calls limit :
  Forall call_ok calls →
  let s := run_calls calls (store_new limit) in
  (∀ id, ∃ h w, journal_run Workflow.workflow_apply Workflow.workflow_default h w ∧
     journal_stored WorkflowAggregate id h (database s) ∧
     load_workflow id s = Ok (if h is [] then None else Some w)) ∧
  (∀ id, ∃ h t, journal_run Task.task_apply Task.task_new h t ∧
     journal_stored TaskAggregate id h (database s) ∧
     load_task id s = Ok (if h is [] then None else Some t)).
Proof.
  intros Hcalls s. assert (database_ok (database s)) as Hok by by apply run_calls_ok.
  split; intros id.
  - destruct (db_workflows _ Hok id) as (h&w&Hrun&Hst&Hcur&Hnil). exists h, w. split_and!; try done.
    rewrite load_workflow_current. destruct (workflows _ !! id) as [row|] eqn:Hrow.
    + rewrite Hcur. destruct h; [|done]. discriminate (proj1 Hnil eq_refl).
    + by rewrite (proj2 Hnil eq_refl).
  - destruct (db_tasks _ Hok id) as (h&w&Hrun&Hst&Hcur&Hnil). exists h, w. split_and!; try done.
    unfold load_task, current_task in *. destruct (tasks _ !! id) as [row|] eqn:Hrow.
    + simpl in Hcur. rewrite Hcur. destruct h; [|done]. discriminate (proj1 Hnil eq_refl).
    + by rewrite (proj2 Hnil eq_refl).
Qed.

(** A call that fails leaves the store as it was, and a store whose schema
    is of a later version takes no call at all. *)
Theorem failed_calls_leave_the_store (c : StoreCall Value) s :
  (∃ s' e, perform c s = (s', Err e)) ∨ mode s ≠ ReadWrite → run_call c s = s.
Proof.
  intros Hfail. unfold run_call. destruct (perform c s) as [s' [u|e]] eqn:Hcall; simpl.
  - destruct Hfail as [(?&?&[=])|Hmode]. by apply perform_writable in Hcall.
  - exact (perform_atomic c _ _ _ Hcall).
Qed.

(** * Deliveries *)

(** The rows of workflows are written by their commands and deliveries alone. *)
Lemma other_calls_keep_workflows (c : StoreCall Value) s :
  match c with
  | ApplyWorkflow _ _ _ _ | DeliverReserved _ _ _ _ _ _ => True
  | _ => workflows (workflow_tables (database (run_call c s))) =
         workflows (workflow_tables (database s))
  end.
Proof.
  destruct c; try done; unfold run_call, perform; rewrite void_state;
    match goal with |- _ (_ (database (?m s).1)) = _ =>
      enough (preserves (on_database (same (λ d, workflows (workflow_tables d)))) m) as Hm by apply Hm end;
    unfold save_request_once, save_constraint_once, save_verification_plan_once,
      save_arbitration_once, once; solve_frame.
Qed.

(** C7. While the delivery of a candidate is reserved its workflow's stored
    state changes only by that delivery, asked for with the reserved digest and
    the journal bound to it; it applies Deliver and ends the reservation. *)
Theorem reserved_workflow_changes_only_by_its_delivery calls limit cand row (c : StoreCall Value) :
  Forall call_ok calls →
  let s := run_calls calls (store_new limit) in let w := reservation_workflow row in
  reservations (database s) !! cand = Some row →
  load_workflow w (run_call c s) ≠ load_workflow w s →
  ∃ j key t state state' events,
    c = DeliverReserved w cand (reservation_digest row) j key t ∧ journal_digest row = Some j ∧
    Workflow.workflow_apply Workflow.Deliver state = (state', Ok events) ∧
    load_workflow w s = Ok (Some state) ∧ load_workflow w (run_call c s) = Ok (Some state') ∧
    reservations (database (run_call c s)) !! cand = None.
Proof.
  intros Hcalls s w Hres Hchange. assert (database_ok (database s)) as Hok by by apply run_calls_ok.
  assert (workflows (workflow_tables (database (run_call c s))) !! w ≠
          workflows (workflow_tables (database s)) !! w) as Hrow.
  { intros E. apply Hchange. unfold load_workflow. by rewrite E. }
  pose proof (other_calls_keep_workflows c s) as Hframe.
  destruct c; try (by rewrite Hframe in Hrow); clear Hframe;
    unfold run_call, perform in *; rewrite void_state in *.
  - destruct (apply_workflow_command id key c t s) as [s' [r|e]] eqn:Hcall;
      [|by rewrite (apply_workflow_command_atomic _ _ _ _ _ _ _ Hcall) in Hrow].
    apply apply_workflow_command_ok in Hcall as (_&Hfree&[(?&?&_&_&_&->)|Hcall]); [done|].
    destruct Hcall as (?&?&?&d'&_&_&_&_&->&(_&_&_&?&?&_&Hrows)&_). simpl in Hrow.
    destruct (decide (id = w)) as [->|]; [|by rewrite Hrows, lookup_insert_ne in Hrow].
    assert (delivery_reserved w (database s) = true) by (apply delivery_reserved_true; by exists cand, row).
    congruence.
  - destruct (deliver_reserved_candidate w0 c digest journal key t s) as [s' [r|e]] eqn:Hcall;
      [|by rewrite (deliver_reserved_candidate_atomic _ _ _ _ _ _ _ _ _ Hcall) in Hrow].
    apply deliver_reserved_candidate_ok in Hcall
      as (_&_&row'&st&st'&es&d'&Hrow'&Hw&Hdig&Hj&Hcur&Hsome&Happly&_&->&(_&_&_&?&?&Hjson&Hrows)&_&_&Hdel).
    simpl in *. destruct (decide (w0 = w)) as [->|]; [|by rewrite Hrows, lookup_insert_ne in Hrow].
    assert (c = cand) as -> by by eapply (ro_unique _ (db_reservations _ Hok)).
    rewrite Hres in Hrow'. injection Hrow' as <-. subst digest.
    exists journal, key, t, st, st', es. split_and!; try done.
    + rewrite load_workflow_current. destruct Hsome as [? ->]. by rewrite Hcur.
    + unfold load_workflow. simpl. rewrite Hrows, lookup_insert_eq. apply result_bind_ok. exists st'.
      split; [|done]. apply decode_ok. by apply (jf_workflow faithful).
    + simpl. by rewrite Hdel, lookup_delete_eq.
Qed.

(** * Candidates *)

(** C12. A candidate that was saved loads as it was saved after any further
    calls: its workflow, manifest, diff and every file, in the order of the
    paths. *)
Theorem saved_candidate_loads_unchanged before after limit w m diff files t s1 b :
  Forall call_ok before → Forall call_ok after → Candidate.loadable m →
  save_candidate_once w m diff files t (run_calls before (store_new limit)) = (s1, Ok b) →
  load_candidate (Candidate.candidate_id m) (run_calls after s1) =
    Ok (Some {| stored_diff := diff; exact_files := Some (merge_sort payload_le files);
                stored_manifest := m; stored_workflow := w |}).
Proof.
  intros Hbefore Hafter Hm Hcall.
  assert (s1 = run_call (SaveCandidate (Value:=Value) w m diff files t)
                 (run_calls before (store_new limit))) as Hs1.
  { unfold run_call, perform. by rewrite void_state, Hcall. }
  destruct (run_calls_later (before ++ [SaveCandidate w m diff files t]) after limit)
    as (_&Hok2&Hg&_); [by apply Forall_app_2; [|repeat constructor]|done|].
  rewrite run_calls_snoc, <-Hs1 in Hok2, Hg.
  assert (database_ok (database (run_calls before (store_new limit)))) as Hok by by apply run_calls_ok.
  apply candidate_saved_loads; [apply (jf_manifest faithful)|done|apply Hok2|].
  apply (candidate_saved_grows _ _ _ _ _ _ Hg). destruct b.
  - apply save_candidate_once_ok in Hcall as (_&_&norm&json&Hv&_&->&Hsaved).
    by apply validated_payload_iff in Hv as (_&_&_&->).
  - apply save_candidate_once_new in Hcall as (_&_&?&_); [done|apply Hok].
Qed.

(** * Leases *)

Lemma other_calls_keep_leases (c : StoreCall Value) s :
  match c with
  | AcquireLease _ _ _ _ _ _ | HeartbeatLease _ _ _ | ReleaseLease _ => True
  | _ => leases_of (database (run_call c s)) = leases_of (database s)
  end.
Proof.
  destruct c; try done; unfold run_call, perform; rewrite void_state;
    match goal with |- _ (database (?m s).1) = _ =>
      enough (preserves (on_database (same leases_of)) m) as Hm by apply Hm end;
    unfold save_request_once, save_constraint_once, save_verification_plan_once,
      save_arbitration_once, once; solve_frame.
Qed.

Lemma same_lease_refl l : same_lease l l.
Proof. done. Qed.
Lemma same_lease_trans l1 l2 l3 : same_lease l1 l2 → same_lease l2 l3 → same_lease l1 l3.
Proof. intros (?&?&?) (?&?&?). split_and!; congruence. Qed.

Lemma lease_held_through (c : StoreCall Value) s t l :
  database_ok (database s) → holds t l (database s) → Lease.safety l ≠ Lease.Idempotent →
  c ≠ ReleaseLease (Lease.lease_id l) →
  ∃ l', holds t l' (database (run_call c s)) ∧ same_lease l l'.
Proof.
  intros Hok Hl Hunsafe Hc. pose proof (db_leases _ Hok) as Hleases.
  pose proof (other_calls_keep_leases c s) as Hframe.
  destruct c;
    try (exists l; split; [destruct Hl as (row&?&?); exists row; by rewrite Hframe|done]); clear Hframe;
    unfold run_call, perform; rewrite void_state.
  - destruct (acquire_lease new_id t0 owner now duration safety s) as [s' [r|e]] eqn:Hcall;
      [|rewrite (acquire_lease_atomic _ _ _ _ _ _ _ _ _ Hcall); by exists l].
    apply acquire_lease_ok in Hcall as (_&d'&->&Hacq).
    pose proof (acquisition_held _ _ _ _ _ _ _ _ _ _ _ Hleases Hl Hacq) as Hheld.
    exists l. split; [|done]. destruct r; [|done..]. case_bool_decide; [|done]. by destruct Hheld.
  - destruct (heartbeat_lease id now duration s) as [s' [r|e]] eqn:Hcall;
      [|rewrite (heartbeat_lease_atomic _ _ _ _ _ _ Hcall); by exists l].
    by eapply heartbeat_keeps in Hcall as [_ Hheld]; [apply Hheld|apply (jf_lease faithful)|].
  - destruct (release_lease id s) as [s' [r|e]] eqn:Hcall;
      [|rewrite (release_lease_atomic _ _ _ _ Hcall); by exists l].
    exists l. split; [|done]. eapply release_held; [done|done| |done]. congruence.
Qed.

(** C15. The lease of an action that is not idempotent stays with its owner until
    it is released: through any calls but that release, expiry and other
    sessions' acquisitions included, its task's row holds the same lease, and an
    acquisition of the task is never granted. *)
Theorem unsafe_lease_held_until_released before after limit t l :
  Forall call_ok before → Forall call_ok after →
  let s := run_calls before (store_new limit) in
  holds t l (database s) → Lease.safety l ≠ Lease.Idempotent →
  ReleaseLease (Lease.lease_id l) ∉ after →
  (∃ l', holds t l' (database (run_calls after s)) ∧ same_lease l l') ∧
  ∀ id owner now duration safety s' taken,
    acquire_lease id t owner now duration safety (run_calls after s) ≠ (s', Ok (Acquired taken)).
Proof.
  intros Hbefore Hafter s Hl Hunsafe Hrel.
  assert (∃ l', holds t l' (database (run_calls after s)) ∧ same_lease l l') as Hheld.
  { assert (database_ok (database s)) as Hok by by apply run_calls_ok.
    clearbody s. revert s l Hok Hl Hunsafe Hrel.
    induction Hafter as [|c after Hc _ IH]; intros s l Hok Hl Hunsafe Hrel; [by exists l|].
    apply not_elem_of_cons in Hrel as [Hne Hrel].
    destruct (lease_held_through c s t l) as (l1&Hl1&Hsame); [done..|].
    pose proof Hsame as (Hid&_&Hsafety).
    destruct (IH (run_call c s) l1) as (l2&?&?); [by apply run_call_kept|done|congruence|congruence|].
    exists l2. split; [done|]. by eapply same_lease_trans. }
  split; [done|]. intros id owner now duration safety s' taken Hcall.
  destruct Hheld as (l'&Hl'&_&_&Hsafety).
  destruct (run_calls_later before after limit Hbefore Hafter) as (_&Hok2&_).
  apply acquire_lease_ok in Hcall as (_&d'&->&Hacq).
  eapply acquisition_held in Hl'; [|apply Hok2|exact Hacq]. simpl in Hl'.
  rewrite bool_decide_true in Hl' by done. destruct Hl'. congruence.
Qed.

(** * The ledger *)

(** Later rows of the ledger extend its chain. *)
Lemma ledger_grows c1 c2 d d' :
  ledger_holds c1 d → ledger_holds c2 d' → entries_of d ⊆ entries_of d' → c1 `prefix_of` c2.
Proof.
  intros Hc1 Hc2 Hsub.
  assert (∀ i e, c1 !! i = Some e → c2 !! i = Some e) as Hsame.
  { intros i e Hi. destruct (lh_row _ _ Hc1 i e Hi) as (row&Hrow&Hev&Hh&Hp).
    pose proof (lookup_weaken _ _ _ _ Hrow Hsub) as Hrow'.
    destruct (lh_key _ _ Hc2 (Z.of_nat i)) as (j&?&Hj); [by eexists|]. assert (j = i) as -> by lia.
    destruct (lookup_lt_is_Some_2 _ _ Hj) as [e2 He2]. etrans; [exact He2|]. f_equal.
    destruct (lh_row _ _ Hc2 i e2 He2) as (row2&Hrow2&Hev2&Hh2&Hp2).
    destruct (linked_sequence _ _ _ _ _ _ (lh_linked _ _ Hc1) Hi) as [Hs _].
    destruct (linked_sequence _ _ _ _ _ _ (lh_linked _ _ Hc2) He2) as [Hs2 _].
    destruct e, e2; simpl in *. congruence. }
  exists (drop (length c1) c2). rewrite <-(take_drop (length c1) c2) at 1. f_equal.
  apply list_eq. intros i. destruct (decide (i < length c1)%nat) as [Hi|Hi].
  - rewrite lookup_take_lt by done. destruct (lookup_lt_is_Some_2 _ _ Hi) as [e He].
    etrans; [apply (Hsame _ _ He)|by rewrite He].
  - rewrite lookup_take_ge, lookup_ge_None_2 by lia. done.
Qed.

(** C16. The persisted ledger loads as a chain that verifies, whatever calls were
    made; an append extends that chain by the entry it returns exactly as
    [LedgerChain::append] does, and what was loaded once is a prefix of what
    loads after any further calls. *)
Theorem persisted_ledger_is_an_append_only_chain before after limit :
  Forall call_ok before → Forall call_ok after →
  let s := run_calls before (store_new limit) in
  ∃ chain, load_ledger s = Ok chain ∧
    Ledger.chain_verify (Ledger.chain_head chain) chain =
      Ledger.Valid (length chain) (Ledger.chain_head chain) ∧
    (∀ event s' entry, append_ledger_event event s = (s', Ok entry) →
       Ledger.chain_append event chain = (chain ++ [entry], Ok entry) ∧
       load_ledger s' = Ok (chain ++ [entry])) ∧
    ∃ later, load_ledger (run_calls after s) = Ok later ∧ chain `prefix_of` later.
Proof.
  intros Hbefore Hafter s.
  destruct (run_calls_later before after limit Hbefore Hafter) as (Hok&Hok2&Hg&_).
  destruct (db_ledger _ Hok) as [chain Hchain]. destruct (db_ledger _ Hok2) as [later Hlater].
  exists chain. split; [by apply ledger_holds_loads|]. split; [|split].
  - apply Ledger.chain_verify_valid. split_and!; [done|apply Hchain|done].
  - intros event s' entry Hcall.
    eapply append_ledger_event_ok in Hcall as (_&Happ&Hholds&_); [|apply (jf_event faithful)|exact Hchain].
    split; [done|]. by apply ledger_holds_loads.
  - exists later. split; [by apply ledger_holds_loads|]. eapply ledger_grows; [done..|apply Hg].
Qed.

(** * Documents *)

(** The plan a workflow loads is always a valid one that answers the
    request stored for the workflow: it binds that request's digest. *)
Theorem loaded_plan_answers_the_request calls limit w plan :
  Forall call_ok calls →
  let s := run_calls calls (store_new limit) in
  load_architecture w s = Ok (Some plan) →
  Plan.plan_ok plan ∧ ∃ project request, load_request w s = Ok (Some (project, request)) ∧
    Request.request_digest request = Some (Plan.request_digest plan).
Proof. intros Hcalls s Hload. apply load_architecture_bound; [by apply run_calls_ok|done]. Qed.


(** Every evidence record loaded for a candidate is consistent and about
    that candidate's content: a load of the candidate gives a manifest with the
    digest the record names. *)
Theorem loaded_evidence_is_about_its_candidate calls limit c records r output mandatory stored :
  Forall call_ok calls →
  let s := run_calls calls (store_new limit) in
  load_candidate_evidence c s = Ok records → (r, output, mandatory) ∈ records →
  load_candidate c s = Ok (Some stored) →
  Evidence.evidence_validate r = Ok tt ∧
  Candidate.candidate_digest (stored_manifest stored) = Some (Evidence.candidate_digest r).
Proof.
  intros Hcalls s Hload Hin Hcand. assert (database_ok (database s)) as Hok by by apply run_calls_ok.
  destruct (load_candidate_evidence_ok _ _ _ _ _ _ (db_evidence _ Hok) Hload Hin)
    as (row&json&_&_&Hjson&(r'&crow&Hr'&_&Hvalid&Hcrow&Hdig)&_).
  rewrite Hjson in Hr'. injection Hr' as <-. split; [done|].
  destruct (load_candidate_row _ _ _ (db_candidates _ Hok) Hcand) as (crow'&Hcrow'&_&Hdigest).
  congruence.
Qed.

Lemma load_reviews_elem c s verdicts v :
  load_reviews c s = Ok verdicts → v ∈ verdicts →
  ∃ role row, reviews (database s) !! (c, role) = Some row ∧ json_decode (review_json row) = Some v.
Proof.
  intros Hload Hin. unfold load_reviews in Hload.
  apply (try_map_ok) in Hload. apply list_elem_of_lookup in Hin as [i Hi].
  destruct (Forall2_lookup_r _ _ _ _ _ Hload Hi) as (row&Hrow&Hdec%decode_ok).
  apply list_elem_of_lookup_2, list_elem_of_omap in Hrow as (role&_&Hrow). eauto.
Qed.

(** C24. Every review loaded for a candidate was sound when it was saved and
    stays so: it is by a reviewer and about the candidate's content, and it
    answers each requirement of a saved revision of the workflow's plan with
    evidence that is on record for the candidate. *)
Theorem loaded_reviews_are_sound calls limit c verdicts v stored :
  Forall call_ok calls →
  let s := run_calls calls (store_new limit) in
  load_reviews c s = Ok verdicts → v ∈ verdicts → load_candidate c s = Ok (Some stored) →
  is_Some (review_role (Review.role v)) ∧
  Candidate.candidate_digest (stored_manifest stored) = Some (Review.candidate_digest v) ∧
  ∃ n row plan, versions (database s) !! (stored_workflow stored, n) = Some row ∧
    json_decode (plan_json row) = Some plan ∧ Plan.plan_ok plan ∧
    Review.review_sound v (plan_requirements plan) (evidence_about c (database s)).
Proof.
  intros Hcalls s Hload Hin Hcand. assert (database_ok (database s)) as Hok by by apply run_calls_ok.
  destruct (load_reviews_elem _ _ _ _ Hload Hin) as (role&row&Hrow&Hdec).
  destruct (db_reviews _ Hok _ _ _ Hrow) as (v'&crow&n&prow&plan&Hv'&Hrole&Hcrow&Hdig&Hprow&Hplan&Hsound).
  rewrite Hdec in Hv'. injection Hv' as <-.
  destruct (load_candidate_row _ _ _ (db_candidates _ Hok) Hcand) as (crow'&Hcrow'&Hw&Hdigest).
  split; [by eexists|]. split; [congruence|]. exists n, prow, plan.
  rewrite Hcrow in Hcrow'. injection Hcrow' as <-. rewrite <-Hw. split_and!; try done.
  by apply plan_decoded_ok in Hplan as [? _].
Qed.

(** * Goals *)

(** Rows that do not decode stay, whatever the call. *)
Lemma other_calls_keep_goals (c : StoreCall Value) s :
  match c with
  | SaveGoal _ _ _ _ | ApplyGoal _ _ _ _ | AmendGoal _ _ _ _ => True
  | _ => goal_rows (database (run_call c s)) = goal_rows (database s)
  end.
Proof.
  destruct c; try done; unfold run_call, perform; rewrite void_state;
    match goal with |- _ (database (?m s).1) = _ =>
      enough (preserves (on_database (same goal_rows)) m) as Hm by apply Hm end;
    unfold save_request_once, save_constraint_once, save_verification_plan_once,
      save_arbitration_once, once; solve_frame.
Qed.

Lemma unreadable_goal_stays (c : StoreCall Value) s id row :
  goal_rows (database s) !! id = Some row → (json_decode (goal_json row) : option Goal.Goal) = None →
  goal_rows (database (run_call c s)) !! id = Some row.
Proof.
  intros Hrow Hdec. pose proof (other_calls_keep_goals c s) as Hother.
  destruct (perform c s) as [s' [u|e]] eqn:Hcall.
  2: { by rewrite (failed_calls_leave_the_store c s); [|left; eauto]. }
  destruct c; try (by rewrite Hother); unfold run_call; rewrite Hcall; simpl; clear Hother;
    unfold perform in Hcall; apply void_ok in Hcall as [r Hcall].
  - apply save_goal_once_ok in Hcall as (_&json&_&Hcall). destruct r; [by destruct Hcall as [-> _]|].
    destruct Hcall as (Hnone&created&->). unfold goal_rows in *. simpl.
    rewrite lookup_insert_ne; [done|congruence].
  - apply apply_goal_command_ok in Hcall as (_&[(?&?&_&_&_&->)|Hcall]); [done|].
    destruct Hcall as (row'&g&g'&es&json&updated&d'&Hrow'&Hg&_&_&->&_&Hrows&_). simpl.
    rewrite Hrows, lookup_insert_ne; [done|congruence].
  - apply append_goal_amendment_ok in Hcall as (_&[(?&_&_&->)|Hcall]); [done|].
    destruct Hcall as (row'&g&json&updated&ev&ans&d'&Hrow'&Hg&_&->&_&Hrows&_). simpl.
    rewrite Hrows, lookup_insert_ne; [done|congruence].
Qed.

Lemma unreadable_goal_remains calls s id row :
  goal_rows (database s) !! id = Some row → (json_decode (goal_json row) : option Goal.Goal) = None →
  goal_rows (database (run_calls calls s)) !! id = Some row.
Proof.
  revert s. induction calls as [|c calls IH]; intros s Hrow Hdec; [done|]. simpl.
  apply IH; [by apply unreadable_goal_stays|done].
Qed.

(** C17. A goal that a command, not a repeated one, leaves within its limit on
    continuations loads as the command answered it, if goals decode to what was
    encoded. One that a command leaves past the limit never
    loads again: after any further calls of the store, loading it and listing
    its project's goals fail, and a command on it, whatever its key, changes
    nothing and fails if its key is not on record (one whose key is on record
    may still get its recorded answer). *)
Theorem stored_goal_loads_iff_within_limit id key c t s s' r :
  json_faithful Goal.UncheckedGoal →
  apply_goal_command id key c t s = (s', Ok r) → duplicate r = false →
  let g := result_state r in
  if Goal.continuations g <=? Goal.max_continuations g
  then ∃ project, load_goal id s' = Ok (Some (project, g))
  else ∀ after, let s'' := run_calls after s' in
    load_goal id s'' = Err Serialization ∧
    (∃ row, goal_rows (database s'') !! id = Some row ∧
       list_goals (goal_project row) s'' = Err Serialization) ∧
    ∀ key' c' t', ∃ answer, apply_goal_command id key' c' t' s'' = (s'', answer) ∧
      (command_deduplication (workflow_tables (database s'')) !! key' = None → is_ok answer = false).
Proof.
  intros Hj [_ [(?&?&_&_&->&_)|Hcall]]%apply_goal_command_ok Hdup; [done|]. clear Hdup.
  destruct Hcall as (row&g&g'&es&json&updated&d'&Hrow&Hdec&Happly&->&->&Hjson&Hrows&_). simpl.
  pose proof (written_goal_decodes _ _ _ _ _ _ Hj Hdec Happly Hjson) as Hwritten.
  set (row' := {| goal_project := goal_project row; goal_json := json;
                  goal_created := goal_created row; goal_updated := updated |}) in *.
  assert (goal_rows (database (with_database d' s)) !! id = Some row') as Hrow'
    by (simpl; rewrite Hrows; apply lookup_insert_eq).
  destruct (Goal.continuations g' <=? Goal.max_continuations g').
  - exists (goal_project row). unfold load_goal. rewrite Hrow'. apply result_bind_ok. exists g'.
    split; [by apply decode_ok|done].
  - intros after. apply (unreadable_goal_remains after) in Hrow'; [|done].
    destruct (load_goal_fails _ _ _ Hrow' Hwritten) as [Hload Hlist].
    split; [done|]. split; [by exists row'|]. intros key' c' t'.
    by eapply unreadable_goal_unmoved.
Qed.

End store.

(** * Examples *)
Import Sample.

Lemma succeeds {A} (m : method Store StoreError A) s :
  is_ok (m s).2 = true → ∃ a, m s = ((m s).1, Ok a).
Proof. destruct (m s) as [s' [a|e]]; simpl; [by exists a|done]. Qed.
Lemma calls_ok_app calls1 calls2 :
  Forall (call_ok (Value := string)) calls1 → Forall call_ok calls2 → Forall call_ok (calls1 ++ calls2).
Proof. apply Forall_app_2. Qed.
Lemma planned_ok : Forall call_ok planned.
Proof. repeat constructor. Qed.
Lemma reviewed_ok : Forall call_ok ([saved] ++ reviewed).
Proof. repeat constructor. Qed.
Lemma reserved_ok : Forall call_ok (planned ++ [saved] ++ reviewed ++ reserved).
Proof. repeat constructor. Qed.

Lemma command_takes_effect_once_witness :
  ∃ s1 r, apply_workflow_command workflow "candidate" (Workflow.CandidateReady candidate) 3%Z
            (store_of (planned ++ [saved])) = (s1, Ok r) ∧ duplicate r = false ∧
    (let s2 := run_calls (tail reviewed) s1 in
     apply_workflow_command workflow "candidate" Workflow.Cancel 9%Z s2 =
       (s2, Ok {| duplicate := true; result_events := result_events r;
                  result_state := result_state r |})) ∧
    (let s2 := run_calls (tail reviewed ++ reserved) s1 in
     apply_workflow_command workflow "candidate" Workflow.Cancel 9%Z s2 = (s2, Err DeliveryInProgress)).
Proof.
  set (m := apply_workflow_command workflow "candidate" (Workflow.CandidateReady candidate) 3%Z).
  destruct (succeeds m (store_of (planned ++ [saved]))) as [r Hr]; [vm_compute; reflexivity|].
  exists (m (store_of (planned ++ [saved]))).1, r. split; [exact Hr|].
  assert (match (m (store_of (planned ++ [saved]))).2 with Ok r => duplicate r | Err _ => true end
          = false) as Hdup by (vm_compute; reflexivity).
  split; [by rewrite Hr in Hdup|].
  pose proof (λ after Hafter, command_takes_effect_once faithful (planned ++ [saved]) after 4 workflow
    "candidate" (Workflow.CandidateReady candidate) Workflow.Cancel 3%Z 9%Z _ r
    ltac:(repeat constructor) Hafter Hr) as Honce.
  assert (delivery_reserved workflow (database (run_calls (tail reviewed)
    (m (store_of (planned ++ [saved]))).1)) = false) as Hfree by (vm_compute; reflexivity).
  assert (delivery_reserved workflow (database (run_calls (tail reviewed ++ reserved)
    (m (store_of (planned ++ [saved]))).1)) = true) as Hreserved by (vm_compute; reflexivity).
  split; cbv zeta.
  - specialize (Honce (tail reviewed) ltac:(repeat constructor)). cbv zeta in Honce.
    rewrite Hfree in Honce. exact Honce.
  - specialize (Honce (tail reviewed ++ reserved) ltac:(repeat constructor)). cbv zeta in Honce.
    rewrite Hreserved in Honce. exact Honce.
Defined.

Lemma stored_states_are_their_journals_witness :
  let s := store_of (planned ++ [saved] ++ reviewed) in
  is_ok (load_workflow workflow s) = true ∧
  ∃ h w, journal_run Workflow.workflow_apply Workflow.workflow_default h w ∧
     journal_stored WorkflowAggregate workflow h (database s) ∧
     load_workflow workflow s = Ok (if h is [] then None else Some w).
Proof.
  split; [vm_compute; reflexivity|].
  assert (Forall call_ok (planned ++ [saved] ++ reviewed)) as Hok by repeat constructor.
  exact (proj1 (stored_states_are_their_journals faithful (planned ++ [saved] ++ reviewed) 4 Hok) workflow).
Defined.

Lemma failed_calls_leave_the_store_witness :
  run_call (command 3 "candidate") (store_of []) = store_of [].
Proof.
  apply (failed_calls_leave_the_store (command 3 "candidate") (store_of [])). left.
  eexists _, _. vm_compute. reflexivity.
Defined.

Lemma reservation_is_of_row w s :
  reservation_is_of w s = true →
  ∃ row, reservations (database s) !! candidate = Some row ∧ reservation_workflow row = w.
Proof.
  unfold reservation_is_of. destruct (reservations (database s) !! candidate) as [row|]; [|done].
  intros Hw%N.eqb_eq%word_val_inj. by exists row.
Qed.
Lemma stored_state_differs s s' :
  stored_state s' ≠ stored_state s → load_workflow workflow s ≠ load_workflow workflow s'.
Proof. unfold stored_state. intros Hne E. by rewrite E in Hne. Qed.

Lemma reserved_workflow_changes_only_by_its_delivery_witness :
  let s := store_of (planned ++ [saved] ++ reviewed ++ reserved) in
  ∃ row, reservations (database s) !! candidate = Some row ∧ ∃ j key t state state' events,
    delivery = DeliverReserved (reservation_workflow row) candidate (reservation_digest row) j key t ∧
    journal_digest row = Some j ∧
    Workflow.workflow_apply Workflow.Deliver state = (state', Ok events) ∧
    load_workflow (reservation_workflow row) s = Ok (Some state) ∧
    load_workflow (reservation_workflow row) (run_call delivery s) = Ok (Some state') ∧
    reservations (database (run_call delivery s)) !! candidate = None.
Proof.
  destruct (reservation_is_of_row _ _ workflow_reserved) as (row&Hrow&Hw).
  exists row. split; [exact Hrow|].
  apply (reserved_workflow_changes_only_by_its_delivery faithful
    (planned ++ [saved] ++ reviewed ++ reserved) 4 candidate row delivery reserved_ok Hrow).
  rewrite Hw. apply stored_state_differs. rewrite state_reserved, state_delivered. discriminate.
Defined.

Lemma run_calls_saving before after s :
  run_calls (before ++ [saved] ++ after) s =
  run_calls after (save_candidate_once workflow manifest diff files 3%Z (run_calls before s)).1.
Proof.
  unfold run_calls. rewrite !foldl_app. cbn [foldl]. f_equal. unfold run_call, perform, saved.
  apply void_state.
Qed.

Lemma saved_candidate_loads_unchanged_witness :
  load_candidate candidate (store_of (planned ++ [saved] ++ reviewed)) =
    Ok (Some {| stored_diff := diff; exact_files := Some (merge_sort payload_le files);
                stored_manifest := manifest; stored_workflow := workflow |}).
Proof.
  destruct (succeeds (save_candidate_once workflow manifest diff files 3%Z) (store_of planned))
    as [b Hb]; [vm_compute; reflexivity|].
  rewrite (run_calls_saving planned reviewed (store_new 4)).
  apply (saved_candidate_loads_unchanged faithful planned reviewed 4 workflow manifest diff files 3%Z _ b).
  - exact planned_ok.
  - repeat constructor.
  - exact sample_loadable.
  - exact Hb.
Defined.

Lemma unsafe_lease_held_until_released_witness :
  let s := store_of (planned ++ [saved]) in
  holds task held_lease (database s) ∧
  (∃ l', holds task l' (database (run_calls reviewed s)) ∧ same_lease held_lease l') ∧
  ∀ id owner now duration safety s' taken,
    acquire_lease id task owner now duration safety (run_calls reviewed s) ≠ (s', Ok (Acquired taken)).
Proof.
  intros s. assert (holds task held_lease (database s)) as Hl.
  { destruct (leases_of (database s) !! task) as [row|] eqn:Hrow.
    2: { assert (bool_decide (is_Some (leases_of (database s) !! task)) = true) as Hsome
           by (vm_compute; reflexivity). apply bool_decide_eq_true in Hsome as [? ?]. congruence. }
    exists row. split; [done|].
    assert (bool_decide ((λ r, (json_decode (lease_json r) : option Lease.Lease, row_lease_id r,
        lease_expires r)) <$> leases_of (database s) !! task =
      Some (Some held_lease, lease, 6000%Z)) = true) as Hall by (vm_compute; reflexivity).
    apply bool_decide_eq_true in Hall. rewrite Hrow in Hall. injection Hall as Hj Hid Hexp.
    split_and!; [exact Hj|by rewrite Hid|done|by rewrite Hexp]. }
  split; [exact Hl|].
  apply (unsafe_lease_held_until_released faithful (planned ++ [saved]) reviewed 4 task held_lease).
  - repeat constructor.
  - repeat constructor.
  - exact Hl.
  - done.
  - intros Hin. repeat (apply elem_of_cons in Hin as [Hin|Hin]; [discriminate Hin|]).
    by apply elem_of_nil in Hin.
Defined.

Lemma ledger_has_entries_nonempty s chain :
  ledger_has_entries s = true → load_ledger s = Ok chain → chain ≠ [].
Proof. unfold ledger_has_entries. intros Hs Hload ->. by rewrite Hload in Hs. Qed.

Lemma persisted_ledger_is_an_append_only_chain_witness :
  let s := store_of planned in
  ∃ chain, load_ledger s = Ok chain ∧ chain ≠ [] ∧
    Ledger.chain_verify (Ledger.chain_head chain) chain =
      Ledger.Valid (length chain) (Ledger.chain_head chain) ∧
    (∀ event s' entry, append_ledger_event event s = (s', Ok entry) →
       Ledger.chain_append event chain = (chain ++ [entry], Ok entry) ∧
       load_ledger s' = Ok (chain ++ [entry])) ∧
    ∃ later, load_ledger (run_calls ([saved] ++ reviewed) s) = Ok later ∧ chain `prefix_of` later.
Proof.
  intros s. destruct (persisted_ledger_is_an_append_only_chain faithful planned ([saved] ++ reviewed) 4
    planned_ok reviewed_ok) as (chain&Hload&Hrest).
  exists chain. split; [exact Hload|]. split; [|exact Hrest].
  by apply (ledger_has_entries_nonempty _ _ planned_ledger).
Defined.

Lemma loaded_plan_answers_the_request_witness :
  let s := store_of planned in
  load_architecture workflow s = Ok (Some plan) ∧
  Plan.plan_ok plan ∧ ∃ project request, load_request workflow s = Ok (Some (project, request)) ∧
    Request.request_digest request = Some (Plan.request_digest plan).
Proof.
  intros s. assert (load_architecture workflow s = Ok (Some plan)) as Hload by (vm_compute; reflexivity).
  split; [exact Hload|].
  exact (loaded_plan_answers_the_request faithful planned 4 workflow plan planned_ok Hload).
Defined.

Lemma sample_candidate_loads :
  load_candidate candidate (store_of (planned ++ [saved] ++ reviewed)) =
    Ok (Some {| stored_diff := diff; exact_files := Some (merge_sort payload_le files);
                stored_manifest := manifest; stored_workflow := workflow |}).
Proof. vm_compute. reflexivity. Qed.

Lemma loaded_evidence_is_about_its_candidate_witness :
  let s := store_of (planned ++ [saved] ++ reviewed) in
  ∃ stored, load_candidate candidate s = Ok (Some stored) ∧
  Evidence.evidence_validate record = Ok tt ∧
  Candidate.candidate_digest (stored_manifest stored) = Some (Evidence.candidate_digest record).
Proof.
  intros s. eexists. split; [exact sample_candidate_loads|].
  apply (loaded_evidence_is_about_its_candidate faithful (planned ++ [saved] ++ reviewed) 4 candidate
    [(record, "ok", true)] record "ok" true).
  - repeat constructor.
  - vm_compute. reflexivity.
  - by left.
  - exact sample_candidate_loads.
Defined.

Lemma reviews_found s :
  has_reviews s = true → ∃ v rest, load_reviews candidate s = Ok (v :: rest).
Proof.
  unfold has_reviews. destruct (load_reviews candidate s) as [[|v rest]|e]; try done. by exists v, rest.
Qed.

Lemma loaded_reviews_are_sound_witness :
  let s := store_of (planned ++ [saved] ++ reviewed) in
  ∃ v rest stored, load_reviews candidate s = Ok (v :: rest) ∧ load_candidate candidate s = Ok (Some stored) ∧
  is_Some (review_role (Review.role v)) ∧
  Candidate.candidate_digest (stored_manifest stored) = Some (Review.candidate_digest v) ∧
  ∃ n row plan, versions (database s) !! (stored_workflow stored, n) = Some row ∧
    json_decode (plan_json row) = Some plan ∧ Plan.plan_ok plan ∧
    Review.review_sound v (plan_requirements plan) (evidence_about candidate (database s)).
Proof.
  destruct (reviews_found _ candidate_reviewed) as (v&rest&Hload).
  eexists v, rest, _. split; [exact Hload|]. split; [exact sample_candidate_loads|].
  apply (loaded_reviews_are_sound faithful (planned ++ [saved] ++ reviewed) 4 candidate (v :: rest) v).
  - repeat constructor.
  - exact Hload.
  - by left.
  - exact sample_candidate_loads.
Defined.

(** A goal that was resumed at its limit continues once more. *)
Definition goal_id : GoalId := word_of 128 20.
Definition over_goal : Goal.Goal := (Goal.goal_apply Goal.Continue (Goal.sample_goal_after 5)).1.
#[local] Existing Instances Goal.GoalState_eq_dec Request.RequestRecord_eq_dec.
#[local] Instance UncheckedGoal_eq_dec : EqDecision Goal.UncheckedGoal.
Proof. solve_decision. Defined.
#[local] Instance goal_table : Persist Goal.UncheckedGoal | 0 :=
  table_persist (Goal.goal_unchecked <$> [Goal.sample_goal_after 5; over_goal]).
#[local] Instance goal_events_written : Persist Goal.GoalEvent | 0 := only_written.
#[local] Instance goal_results_written :
  Persist (PersistedResult Goal.GoalEvent Goal.UncheckedGoal) | 0 := only_written.

Lemma stored_goal_loads_iff_within_limit_witness :
  let s := (save_goal_once goal_id project (Goal.sample_goal_after 5) 1%Z (store_new 4)).1 in
  ∃ s' r, apply_goal_command goal_id "continue" Goal.Continue 2%Z s = (s', Ok r) ∧
    (Goal.continuations (result_state r) <=? Goal.max_continuations (result_state r)) = false ∧
    load_goal goal_id (run_calls (planned ++ [saved]) s') = Err Serialization.
Proof.
  intros s. destruct (succeeds (apply_goal_command goal_id "continue" Goal.Continue 2%Z) s) as [r Hr];
    [vm_compute; reflexivity|].
  exists (apply_goal_command goal_id "continue" Goal.Continue 2%Z s).1, r. split; [exact Hr|].
  assert (match (apply_goal_command goal_id "continue" Goal.Continue 2%Z s).2 with
    | Ok r => negb (duplicate r) &&
        negb (Goal.continuations (result_state r) <=? Goal.max_continuations (result_state r))
    | Err _ => false end = true) as Hres by (vm_compute; reflexivity).
  rewrite Hr in Hres. apply andb_true_iff in Hres as [Hdup%negb_true_iff Hover%negb_true_iff].
  split; [exact Hover|].
  pose proof (stored_goal_loads_iff_within_limit (Value := string) goal_id "continue" Goal.Continue 2%Z s _ r
    (table_persist_faithful _) Hr Hdup) as Hgoal.
  cbv zeta in Hgoal. rewrite Hover in Hgoal. exact (proj1 (Hgoal (planned ++ [saved]))).
Defined.

End Guarantees.
