(* ===== verification/FileSystem.v ===== *)
(** The file system a candidate is delivered to: the operations that
    [RepositoryFs] of workflowd/src/candidate.rs and the journal code take from
    [cap_std] and [std::fs], with the faults a delivery has to survive.

    A repository is a map from a path relative to its root to what is there;
    directories are entries of their own. The files the delivery keeps under the
    Git directory are a second map, [control]. Every operation that changes
    something asks the fault oracle first: it goes through, it fails and changes
    nothing, or the process ends there. Only a write can have a partial effect:
    it leaves the bytes that were written when it was cut short. A process that
    ends between two operations ends at the next of them, so the oracle covers
    every point a delivery can be interrupted at. A hard link is a second entry
    with the same content and mode; the delivery writes to no file that has two
    entries. Reads do not fail, a symbolic link is never resolved in the middle
    of a path (a delivery refuses such destinations), and what a power failure
    leaves of unsynchronised data is not modelled: a synchronisation is an
    operation without an effect that can fail. *)
From Stdlib Require Import Ascii String.
From S2P Require Import Prelude Text Ids Paths.

Module RepositoryFs.

(** * State *)

(** A link says whether it leads to a regular file. *)
Inductive Node : Type :=
| FileNode (content : string) (mode : N)
| DirNode
| LinkNode (to_file : bool)
| OtherNode.
#[export] Instance Node_eq_dec : EqDecision Node.
Proof. solve_decision. Defined.

Abbreviation Tree := (gmap string Node).

(** What happens to one operation; [written] is how far a write gets. *)
Inductive Outcome : Type :=
| Proceeds
| Fails (written : nat)
| Interrupts (written : nat).

Record State : Type := {
  tree : Tree;
  control : gmap string string;
  reserved : option ContentDigest;
}.

Record World : Type := {
  state : State;
  faults : list Outcome;
  sync_faults : list Outcome;
}.

Definition set_tree (t : Tree) (s : State) : State :=
  {| tree := t; control := control s; reserved := reserved s |}.
Definition set_control (c : gmap string string) (s : State) : State :=
  {| tree := tree s; control := c; reserved := reserved s |}.
Definition set_reserved (d : option ContentDigest) (s : State) : State :=
  {| tree := tree s; control := control s; reserved := d |}.
Definition set_state (s : State) (w : World) : World :=
  {| state := s; faults := faults w; sync_faults := sync_faults w |}.
Definition set_faults (l : list Outcome) (w : World) : World :=
  {| state := state w; faults := l; sync_faults := sync_faults w |}.
Definition set_sync_faults (l : list Outcome) (w : World) : World :=
  {| state := state w; faults := faults w; sync_faults := l |}.

(** * Errors *)

(** [std::io::ErrorKind], as far as the delivery tells kinds apart. *)
Inductive ErrorKind : Type :=
| NotFound | AlreadyExists | NotADirectory | IsADirectory | DirectoryNotEmpty | Other.
#[export] Instance ErrorKind_eq_dec : EqDecision ErrorKind.
Proof. solve_decision. Defined.

(** [CandidateFreezeError]; the text of [GitFailed] is the fixed part of its
    message. [Panicked] stands for a panic, which ends the call too. *)
Inductive CandidateFreezeError : Type :=
| Core
| DirtyWorktree
| GitFailed (message : string)
| InvalidBaseRevision
| InvalidRepository
| Io (kind : ErrorKind)
| ManifestFailure
| NonUtf8Path
| PayloadMismatch
| PayloadTooLarge
| UnsupportedExecutableMode
| Serialization
| Panicked.

(** How a computation ends without a value: with an error the code returns, or
    because the process ended, which no code sees. *)
Inductive Failure : Type :=
| Failed (error : CandidateFreezeError)
| Stopped.

Abbreviation fs := (method World Failure).

Definition failed {A} (error : CandidateFreezeError) : fs A := m_throw (Failed error).
Definition lift {A} (r : result CandidateFreezeError A) : fs A := m_lift (map_err Failed r).

(** [if c { return Err(e) }]. *)
Definition fail_if (c : bool) (e : CandidateFreezeError) : fs unit :=
  if c then failed e else mret tt.

Definition get_tree : fs Tree := λ w, (w, Ok (tree (state w))).
Definition get_control : fs (gmap string string) := λ w, (w, Ok (control (state w))).

(** [match c { Err(error) => handler(error), ok => ok }] : the handler of an error the
    code sees. *)
Definition catch {A} (c : fs A) (handler : CandidateFreezeError → fs A) : fs A := λ w,
  match c w with
  | (w', Err (Failed e)) => handler e w'
  | r => r
  end.

(** * Operations under the oracle *)

(** One operation that changes the state: [effect] is what it does when it goes
    through, [partial n] what is left when it is cut short after [n] bytes. *)
Definition operate (effect : State → result ErrorKind State) (partial : nat → State → State)
    : fs unit := λ w,
  let outcome := default Proceeds (head (faults w)) in
  let w := set_faults (tail (faults w)) w in
  match outcome with
  | Proceeds =>
      match effect (state w) with
      | Ok s => (set_state s w, Ok tt)
      | Err k => (w, Err (Failed (Io k)))
      end
  | Fails n => (set_state (partial n (state w)) w, Err (Failed (Io Other)))
  | Interrupts n => (set_state (partial n (state w)) w, Err Stopped)
  end.

(** An operation on the repository that takes effect at once. *)
Definition change (op : Tree → result ErrorKind Tree) : fs unit :=
  operate (λ s, match op (tree s) with Ok t => Ok (set_tree t s) | Err k => Err k end) (λ _ s, s).

(** The same on the files under the Git directory. *)
Definition change_control (op : gmap string string → result ErrorKind (gmap string string))
    : fs unit :=
  operate (λ s, match op (control s) with Ok c => Ok (set_control c s) | Err k => Err k end)
    (λ _ s, s).

(** [sync_all]. *)
Definition sync : fs unit := λ w,
  let outcome := default Proceeds (head (sync_faults w)) in
  let w := set_sync_faults (tail (sync_faults w)) w in
  match outcome with
  | Proceeds => (w, Ok tt)
  | Fails _ => (w, Err (Failed (Io Other)))
  | Interrupts _ => (w, Err Stopped)
  end.

(** * What the operations do *)

(** [Path::parent] of a relative path, empty for a path of one segment. *)
Definition parent_path (path : string) : string := join_segments (removelast (segments path)).

Definition is_dir_node (n : Node) : bool := match n with DirNode => true | _ => false end.
Definition is_file_node (n : Node) : bool := match n with FileNode _ _ => true | _ => false end.
Definition is_link_node (n : Node) : bool := match n with LinkNode _ => true | _ => false end.

(** Whether entries can be made in the directory a path is in. *)
Definition has_parent (t : Tree) (path : string) : bool :=
  let parent := parent_path path in
  bool_decide (parent = "") || match t !! parent with Some n => is_dir_node n | None => false end.

Definition child_of (path : string) (entry : string * Node) : bool := extends_path entry.1 path.

Definition op_create_new (mode : N) (path : string) (t : Tree) : result ErrorKind Tree :=
  match t !! path with
  | Some _ => Err AlreadyExists
  | None => if has_parent t path then Ok (<[path := FileNode "" mode]> t) else Err NotFound
  end.

Definition op_write (content path : string) (t : Tree) : result ErrorKind Tree :=
  match t !! path with
  | Some (FileNode _ mode) => Ok (<[path := FileNode content mode]> t)
  | _ => Err NotFound
  end.

(** A regular file is renamed; an existing file at the new name is replaced. *)
Definition op_rename (source target : string) (t : Tree) : result ErrorKind Tree :=
  match t !! source with
  | Some (FileNode content mode) =>
      if negb (has_parent t target) then Err NotFound
      else if bool_decide (t !! target = Some DirNode) then Err IsADirectory
      else Ok (<[target := FileNode content mode]> (delete source t))
  | Some _ => Err Other
  | None => Err NotFound
  end.

Definition op_hard_link (source target : string) (t : Tree) : result ErrorKind Tree :=
  match t !! source with
  | None => Err NotFound
  | Some DirNode => Err Other
  | Some n =>
      match t !! target with
      | Some _ => Err AlreadyExists
      | None => if has_parent t target then Ok (<[target := n]> t) else Err NotFound
      end
  end.

Definition op_remove_file (path : string) (t : Tree) : result ErrorKind Tree :=
  match t !! path with
  | None => Err NotFound
  | Some DirNode => Err IsADirectory
  | Some _ => Ok (delete path t)
  end.

Definition op_remove_dir (path : string) (t : Tree) : result ErrorKind Tree :=
  match t !! path with
  | Some DirNode =>
      if existsb (child_of path) (map_to_list t) then Err DirectoryNotEmpty
      else Ok (delete path t)
  | Some _ => Err NotADirectory
  | None => Err NotFound
  end.

Definition op_create_dir (path : string) (t : Tree) : result ErrorKind Tree :=
  match t !! path with
  | Some _ => Err AlreadyExists
  | None => if has_parent t path then Ok (<[path := DirNode]> t) else Err NotFound
  end.

Definition op_set_mode (mode : N) (path : string) (t : Tree) : result ErrorKind Tree :=
  match t !! path with
  | Some (FileNode content _) => Ok (<[path := FileNode content mode]> t)
  | _ => Err NotFound
  end.

(** * The operations of the program *)

(** [RepositoryFs::metadata]: no entry where the path does not exist. *)
Definition metadata (path : string) : fs (option Node) := t ← get_tree; mret (t !! path).

(** [RepositoryFs::digest]. *)
Definition digest `{Sha256} (path : string) : fs ContentDigest :=
  t ← get_tree;
  match t !! path with
  | Some (FileNode content _) => mret (digest_of content)
  | _ => failed PayloadMismatch
  end.

(** [permissions().mode() & 0o111 != 0] of an opened regular file, against what is
    expected. *)
Definition is_executable (mode : N) : bool := negb (N.land mode 73 =? 0)%N.
Definition executable_matches_cap (path : string) (expected : bool) : fs bool :=
  t ← get_tree;
  match t !! path with
  | Some (FileNode _ mode) => mret (Bool.eqb (is_executable mode) expected)
  | Some _ => failed (Io Other)
  | None => failed (Io NotFound)
  end.

(** [set_executable_cap]: [set_mode(0o755)] or [set_mode(0o644)], then a sync. *)
Definition executable_mode (executable : bool) : N := if executable then 493 else 420.
Definition set_executable_cap (path : string) (executable : bool) : fs unit :=
  _ ← change (op_set_mode (executable_mode executable) path);
  sync.

Definition sync_repository : fs unit := sync.

Definition rename (source target : string) : fs unit := change (op_rename source target).
Definition hard_link (source target : string) : fs unit := change (op_hard_link source target).
Definition remove_file (path : string) : fs unit := change (op_remove_file path).
Definition remove_dir (path : string) : fs unit := change (op_remove_dir path).
Definition create_dir (path : string) : fs unit := change (op_create_dir path).

(** The prefixes of a path by whole components, shortest first. *)
Fixpoint prefixes_from (prefix : string) (components : list string) : list string :=
  match components with
  | [] => []
  | component :: rest =>
      let prefix := (if bool_decide (prefix = "") then "" else prefix +:+ "/") +:+ component in
      prefix :: prefixes_from prefix rest
  end.
Definition path_prefixes (path : string) : list string := prefixes_from "" (segments path).

(** [create_dir_all]: a directory that is there is left alone. *)
Definition ensure_dir (path : string) : fs unit :=
  t ← get_tree;
  match t !! path with
  | Some DirNode => mret tt
  | Some _ => failed (Io AlreadyExists)
  | None => create_dir path
  end.
Definition create_dir_all (path : string) : fs unit := m_for_each ensure_dir (path_prefixes path).

(** [RepositoryFs::remove_file_if_exists]. *)
Definition remove_file_if_exists (path : string) : fs unit :=
  catch (remove_file path) (λ e,
    match e with
    | Io NotFound => mret tt
    | _ => failed (GitFailed "candidate delivery artifact removal failed")
    end).

(** [write_new_file]: [creation_mode] is the mode the platform gives a new file. *)
Definition write_content (path content : string) : fs unit :=
  operate (λ s, match op_write content path (tree s) with
                | Ok t => Ok (set_tree t s) | Err k => Err k end)
    (λ n s, match op_write (String.substring 0 n content) path (tree s) with
            | Ok t => set_tree t s | Err _ => s end).
Definition write_new_file (creation_mode : N) (path content : string) : fs unit :=
  _ ← catch (change (op_create_new creation_mode path))
        (λ _, failed (GitFailed "candidate staging open failed"));
  _ ← catch (write_content path content)
        (λ _, failed (GitFailed "candidate staging write failed"));
  catch sync (λ _, failed (GitFailed "candidate staging sync failed")).

(** * The files under the Git directory *)

(** [path.exists()] and [fs::read]. *)
Definition control_exists (path : string) : fs bool :=
  c ← get_control; mret (bool_decide (is_Some (c !! path))).
Definition control_read (path : string) : fs string :=
  c ← get_control;
  match c !! path with Some bytes => mret bytes | None => failed (Io NotFound) end.

Definition op_control_new (path : string) (c : gmap string string)
    : result ErrorKind (gmap string string) :=
  match c !! path with Some _ => Err AlreadyExists | None => Ok (<[path := ""]> c) end.
Definition op_control_link (source target : string) (c : gmap string string)
    : result ErrorKind (gmap string string) :=
  match c !! source, c !! target with
  | None, _ => Err NotFound
  | _, Some _ => Err AlreadyExists
  | Some bytes, None => Ok (<[target := bytes]> c)
  end.
Definition op_control_remove (path : string) (c : gmap string string)
    : result ErrorKind (gmap string string) :=
  match c !! path with Some _ => Ok (delete path c) | None => Err NotFound end.

(** [OpenOptions::new().create_new(true)], [write_all], [fs::hard_link] and
    [fs::remove_file]. *)
Definition control_new (path : string) : fs unit := change_control (op_control_new path).
Definition control_write (path bytes : string) : fs unit :=
  operate (λ s, Ok (set_control (<[path := bytes]> (control s)) s))
    (λ n s, set_control (<[path := String.substring 0 n bytes]> (control s)) s).
Definition control_link (source target : string) : fs unit :=
  change_control (op_control_link source target).
Definition control_remove (path : string) : fs unit := change_control (op_control_remove path).

(** [fs::create_dir_all] of the directory of the journals, opening the lock file
    in it and taking the lock: operations that leave the maps as they are. *)
Definition control_touch : fs unit := change_control (λ c, Ok c).

(** [remove_if_exists]. *)
Definition remove_if_exists (path : string) : fs unit :=
  present ← control_exists path;
  if (present : bool) then control_remove path else mret tt.

(** [sync_parent]. *)
Definition sync_parent : fs unit := sync.

(** * Paths and what is above them *)

Lemma prefixes_from_next prefix components : prefix ≠ "" →
  ∀ q, q ∈ prefixes_from prefix components ↔
    ∃ l1 l2, components = l1 ++ l2 ∧ l1 ≠ [] ∧ q = join_segments (prefix :: l1).
Proof.
  revert prefix. induction components as [|c components IH]; intros prefix Hp q; simpl.
  - rewrite elem_of_nil. split; [done|]. intros ([|]&?&?&?&?); done.
  - rewrite bool_decide_false by done. rewrite elem_of_cons, IH.
    2:{ intros Heq. by destruct prefix. }
    split.
    + intros [->|(l1&l2&->&Hl1&->)].
      * exists [c], components. split_and!; [done..|]. simpl. by rewrite <-str_app_assoc.
      * exists (c :: l1), l2. split_and!; [done..|]. destruct l1 as [|x l1]; [done|].
        simpl. by rewrite <-!str_app_assoc.
    + intros ([|x l1]&l2&Heq&?&->); [done|]. simplify_eq/=. destruct l1 as [|y l1].
      * left. by rewrite <-str_app_assoc.
      * right. exists (y :: l1), l2. split_and!; [done..|]. simpl. by rewrite <-!str_app_assoc.
Qed.

(** The prefixes of a path are the non-empty prefixes of its segments. *)
Lemma prefixes_from_start components : Forall (λ w, w ≠ "") components →
  ∀ q, q ∈ prefixes_from "" components ↔
    ∃ l1 l2, components = l1 ++ l2 ∧ l1 ≠ [] ∧ q = join_segments l1.
Proof.
  intros Hall q. destruct Hall as [|c components Hc Hall]; simpl.
  - rewrite elem_of_nil. split; [done|]. intros ([|]&?&?&?&?); done.
  - rewrite elem_of_cons, prefixes_from_next by done. split.
    + intros [->|(l1&l2&->&?&->)]; [by exists [c], components|]. by exists (c :: l1), l2.
    + intros ([|x [|y l1]]&l2&Heq&?&->); simplify_eq/=; [by left|right].
      by exists (y :: l1), l2.
Qed.

Lemma segments_join l : l ≠ [] → Forall (λ w, str_any is_slash w = false) l →
  segments (join_segments l) = l.
Proof.
  intros Hl Hall. induction Hall as [|w l Hw Hall IH]; [done|].
  destruct l as [|x l]; [by apply split_on_single|].
  rewrite join_segments_cons. unfold segments, is_slash in *. rewrite split_on_app_sep.
  rewrite IH by done. by rewrite split_on_single.
Qed.

(** A proper ancestor of a path. *)
Definition above (q p : string) : Prop := parent_path p ≠ "" ∧ q ∈ path_prefixes (parent_path p).

Definition whole_segments (p : string) : Prop := Forall (λ w, w ≠ "") (segments p).

Lemma parent_segments p : whole_segments p → parent_path p ≠ "" →
  segments (parent_path p) = removelast (segments p) ∧
  ∃ x, segments p = removelast (segments p) ++ [x].
Proof.
  intros Hp Hne. unfold parent_path in *.
  destruct (removelast (segments p)) as [|y l] eqn:Hl; [done|]. rewrite <-Hl in *.
  assert (segments p ≠ []) as Hs by (intros Hs; by rewrite Hs in Hl).
  pose proof (app_removelast_last "" Hs) as Heq. split; [|eauto].
  apply segments_join; [by rewrite Hl|].
  apply Forall_forall. intros w Hw. apply (split_on_no_sep _ p).
  change (w ∈ segments p). rewrite Heq. apply elem_of_app. by left.
Qed.

Lemma above_iff q p : whole_segments p →
  above q p ↔ ∃ l1 l2, segments p = l1 ++ l2 ∧ l1 ≠ [] ∧ l2 ≠ [] ∧ q = join_segments l1.
Proof.
  intros Hp. unfold above. split.
  - intros [Hne Hq]. destruct (parent_segments p) as (Hseg&x&Hx); [done..|].
    unfold path_prefixes in Hq. rewrite Hseg in Hq. apply prefixes_from_start in Hq.
    + destruct Hq as (l1&l2&Heq&?&->). rewrite Heq in Hx.
      exists l1, (l2 ++ [x]). rewrite Hx, <-app_assoc. split_and!; [done..|by destruct l2|done].
    + unfold whole_segments in Hp. rewrite Hx in Hp. by apply Forall_app in Hp as [? _].
  - intros (l1&l2&Heq&Hl1&Hl2&->).
    assert (removelast (segments p) = l1 ++ removelast l2) as Hrem.
    { rewrite Heq. by apply removelast_app. }
    assert (parent_path p ≠ "") as Hne.
    { unfold parent_path. rewrite Hrem. unfold whole_segments in Hp. rewrite Heq in Hp.
      apply Forall_app in Hp as [Hl _]. destruct l1 as [|w l1]; [done|].
      apply Forall_cons in Hl as [Hw _]. cbn [app]. destruct (l1 ++ removelast l2); [done|].
      rewrite join_segments_cons. by destruct w. }
    split; [done|]. destruct (parent_segments p) as (Hseg&x&Hx); [done..|].
    unfold path_prefixes. rewrite Hseg, Hrem. apply prefixes_from_start; [|by eauto].
    rewrite <-Hrem. unfold whole_segments in Hp. rewrite Hx in Hp. by apply Forall_app in Hp as [? _].
Qed.

Lemma above_prefix q p : whole_segments p → above q p → ∃ r, p = q +:+ "/" +:+ r.
Proof.
  intros Hp (l1&[|x l2]&Heq&?&?&->)%above_iff; [done| |done].
  exists (join_segments (x :: l2)). rewrite <-(join_segments_split p), Heq.
  by apply join_segments_app.
Qed.

Lemma parent_above p : whole_segments p → parent_path p ≠ "" → above (parent_path p) p.
Proof.
  intros Hp Hne. destruct (parent_segments p) as (Hseg&x&Hx); [done..|].
  apply above_iff; [done|]. exists (removelast (segments p)), [x].
  split_and!; [done| |done|done]. intros Hnil. unfold parent_path in Hne. by rewrite Hnil in Hne.
Qed.

Lemma above_whole q p : whole_segments p → above q p → q ≠ "".
Proof.
  intros Hp (l1&l2&Heq&Hl1&_&->)%above_iff; [|done]. unfold whole_segments in Hp.
  rewrite Heq in Hp. apply Forall_app in Hp as [Hl _]. destruct Hl as [|w [|x l1] Hw]; [done..|].
  rewrite join_segments_cons. by destruct w.
Qed.

(** * Reasoning about computations *)

(** [wp c Q E s] : started in a state [s], the computation ends in a state and with
    a value of [Q], or without a value in a state of [E]. It is stated for the
    fault oracles in which no synchronisation fails, and, unless [faulty] holds,
    nothing else does either; so a failure in [E] that the code did not decide on
    is one where [faulty] holds. *)
Definition lossless (l : list Outcome) : Prop := Forall (λ o, o = Proceeds) l.
Definition never_fails (l : list Outcome) : Prop :=
  Forall (λ o, match o with Fails _ => False | _ => True end) l.

Section logic.
Context (faulty : Prop).

Definition steady (w : World) : Prop :=
  (faulty ∨ (lossless (faults w) ∧ lossless (sync_faults w))) ∧ never_fails (sync_faults w).

Definition wp {A} (c : fs A) (Q : A → State → Prop) (E : State → Prop) (s : State) : Prop :=
  ∀ w, steady w → state w = s →
  let (w', r) := c w in
  steady w' ∧
  match r with
  | Ok a => Q a (state w')
  | Err (Failed _) => E (state w')
  | Err Stopped => faulty ∧ E (state w')
  end.

Lemma wp_ret {A} (a : A) Q E s : Q a s → wp (mret a) Q E s.
Proof. intros HQ w Hw <-. simpl. done. Qed.

Lemma wp_bind {A B} (c : fs A) (k : A → fs B) Q E s :
  wp c (λ a, wp (k a) Q E) E s → wp (c ≫= k) Q E s.
Proof.
  intros Hc w Hw Hs. specialize (Hc w Hw Hs). unfold mbind, method_bind.
  destruct (c w) as [w' [a|[e|]]]; destruct Hc as [Hw' Hc]; [|done|done].
  by apply Hc.
Qed.

Lemma wp_mono {A} (c : fs A) (Q Q' : A → State → Prop) (E E' : State → Prop) s :
  wp c Q E s → (∀ a s', Q a s' → Q' a s') → (∀ s', E s' → E' s') → wp c Q' E' s.
Proof.
  intros Hc HQ HE w Hw Hs. specialize (Hc w Hw Hs).
  destruct (c w) as [w' [a|[e|]]]; naive_solver.
Qed.

Lemma wp_failed {A} e (Q : A → State → Prop) E s : E s → wp (failed e) Q E s.
Proof. intros HE w Hw <-. simpl. done. Qed.

Lemma wp_lift {A} (r : result CandidateFreezeError A) Q E s :
  (∀ a, r = Ok a → Q a s) → (is_ok r = false → E s) → wp (lift r) Q E s.
Proof. intros HQ HE w Hw <-. destruct r; simpl; auto. Qed.

Lemma wp_fail_if (c : bool) e (Q : unit → State → Prop) E s :
  (c = false → Q tt s) → (c = true → E s) → wp (fail_if c e) Q E s.
Proof. intros HQ HE. destruct c; [apply wp_failed|apply wp_ret]; auto. Qed.

Lemma wp_get_tree Q E s : Q (tree s) s → wp get_tree Q E s.
Proof. intros HQ w Hw <-. simpl. done. Qed.
Lemma wp_get_control Q E s : Q (control s) s → wp get_control Q E s.
Proof. intros HQ w Hw <-. simpl. done. Qed.

Lemma steady_tail w :
  steady w → steady (set_faults (tail (faults w)) w) ∧
  (faulty ∨ default Proceeds (head (faults w)) = Proceeds).
Proof.
  unfold steady, set_faults. simpl. intros [Hq Hn]. split; [split|]; [|done|].
  - destruct Hq as [?|[Hf ?]]; [by left|right]. split; [|done].
    destruct Hf; [constructor|]. done.
  - destruct Hq as [?|[Hf _]]; [by left|right]. destruct Hf as [|? ? ->]; done.
Qed.

Lemma wp_operate effect partial Q E s :
  (faulty → ∀ n, E (partial n s)) →
  match effect s with Ok s' => Q tt s' | Err _ => E s end →
  wp (operate effect partial) Q E s.
Proof.
  intros Hf Hq w Hw <-. unfold operate. destruct (steady_tail w Hw) as [Hw' Ho].
  destruct (default Proceeds (head (faults w))); simpl.
  - destruct (effect (state w)); simpl; auto.
  - destruct Ho as [?|]; [|done]. auto.
  - destruct Ho as [?|]; [|done]. auto.
Qed.

Lemma wp_change op Q E s :
  (faulty → E s) →
  match op (tree s) with Ok t => Q tt (set_tree t s) | Err _ => E s end →
  wp (change op) Q E s.
Proof. intros Hf Hq. apply wp_operate; [auto|]. by destruct (op (tree s)). Qed.

Lemma wp_change_control op Q E s :
  (faulty → E s) →
  match op (control s) with Ok c => Q tt (set_control c s) | Err _ => E s end →
  wp (change_control op) Q E s.
Proof. intros Hf Hq. apply wp_operate; [auto|]. by destruct (op (control s)). Qed.

Lemma wp_sync Q E s : (faulty → E s) → Q tt s → wp sync Q E s.
Proof.
  intros Hf Hq w [Hw Hn] <-. unfold sync, set_sync_faults. simpl.
  destruct (sync_faults w) as [|o l] eqn:Hl; simpl.
  { split; [|done]. split; simpl; [|constructor].
    destruct Hw as [?|[? _]]; [by left|right]. split; [done|constructor]. }
  apply Forall_cons in Hn as [Ho Hn].
  assert (faulty ∨ lossless (faults w) ∧ lossless l ∧ o = Proceeds) as Hw'.
  { destruct Hw as [?|[? [? ?]%Forall_cons]]; auto. }
  destruct o; simpl; [|done|]; unfold steady; simpl; naive_solver.
Qed.

Lemma wp_catch {A} (c : fs A) h Q E s :
  wp c Q (λ s', (faulty → E s') ∧ ∀ e, wp (h e) Q E s') s → wp (catch c h) Q E s.
Proof.
  intros Hc w Hw Hs. specialize (Hc w Hw Hs). unfold catch.
  destruct (c w) as [w' [a|[e|]]]; destruct Hc as [Hw' Hc]; [done| |tauto].
  destruct Hc as [_ Hh]. by apply Hh.
Qed.

(** A loop keeps an invariant indexed by the elements it has been through. *)
Lemma wp_for_each {A} (Inv : list A → State → Prop) (f : A → fs unit) xs E s :
  (∀ pre x post s', xs = pre ++ x :: post → Inv pre s' →
    wp (f x) (λ _, Inv (pre ++ [x])) E s') →
  Inv [] s → wp (m_for_each f xs) (λ _, Inv xs) E s.
Proof.
  intros Hf. assert (∀ pre post s', xs = pre ++ post → Inv pre s' →
    wp (m_for_each f post) (λ _, Inv xs) E s') as Hgen.
  { intros pre post. revert pre. induction post as [|x post IH]; intros pre s' Heq HI.
    - rewrite app_nil_r in Heq. subst pre. by apply wp_ret.
    - apply wp_bind. eapply wp_mono; [by eapply Hf| |done].
      intros [] s'' HI'. apply (IH (pre ++ [x])); [|done]. by rewrite <-app_assoc. }
  by apply Hgen.
Qed.

(** ** The operations of the program *)

Lemma wp_metadata p Q E s : Q (tree s !! p) s → wp (metadata p) Q E s.
Proof. intros HQ w Hw <-. simpl. done. Qed.

Lemma wp_control_exists p Q E s :
  Q (bool_decide (is_Some (control s !! p))) s → wp (control_exists p) Q E s.
Proof. intros HQ w Hw <-. simpl. done. Qed.

Lemma wp_control_read p b Q E s : control s !! p = Some b → Q b s → wp (control_read p) Q E s.
Proof. intros Hp HQ w Hw <-. unfold control_read, mbind, method_bind, get_tree, get_control. rewrite Hp. done. Qed.

Lemma wp_digest `{Sha256} p c m Q E s :
  tree s !! p = Some (FileNode c m) → Q (digest_of c) s → wp (digest p) Q E s.
Proof. intros Hp HQ w Hw <-. unfold digest, mbind, method_bind, get_tree, get_control. rewrite Hp. done. Qed.

Lemma wp_executable p c m b Q E s :
  tree s !! p = Some (FileNode c m) → Q (Bool.eqb (is_executable m) b) s →
  wp (executable_matches_cap p b) Q E s.
Proof. intros Hp HQ w Hw <-. unfold executable_matches_cap, mbind, method_bind, get_tree, get_control. rewrite Hp. done. Qed.

Lemma wp_remove_file_if_exists p Q E s :
  (faulty → E s) → tree s !! p ≠ Some DirNode →
  (tree s !! p = None → Q tt s) → Q tt (set_tree (delete p (tree s)) s) →
  wp (remove_file_if_exists p) Q E s.
Proof.
  intros HE Hd HQ1 HQ2 w Hw <-.
  unfold remove_file_if_exists, catch, remove_file, change, operate.
  destruct (steady_tail w Hw) as [Hw' Ho].
  destruct (default Proceeds (head (faults w))).
  - change (state (set_faults (tail (faults w)) w)) with (state w).
    unfold op_remove_file. destruct (tree (state w) !! p) as [[]|]; try done. split; [done|]. auto.
  - destruct Ho as [?|]; [|done]. simpl. auto.
  - destruct Ho as [?|]; [|done]. simpl. auto.
Qed.

Lemma wp_remove_if_exists p Q E s :
  (faulty → E s) →
  (control s !! p = None → Q tt s) → Q tt (set_control (delete p (control s)) s) →
  wp (remove_if_exists p) Q E s.
Proof.
  intros HE HQ1 HQ2. apply wp_bind, wp_control_exists. case_bool_decide as Hp.
  - apply wp_change_control; [done|]. unfold op_control_remove. by destruct Hp as [b ->].
  - apply wp_ret, HQ1. by apply eq_None_not_Some.
Qed.
End logic.

Arguments wp : simpl never.
End RepositoryFs.
