(* ===== verification/Freeze.v ===== *)
(** Freezing a candidate (workflowd/src/candidate.rs): what Git says of a clean
    worktree becomes the manifest, the exact diff and the exact files that the
    reviews, the receipt and the delivery are bound to, and the checks that a
    payload and a destination answer to that manifest.

    Git is a parameter: the output of a command run in a repository, by its
    arguments. A command that writes more than its bound is killed by the code;
    here the bound is compared with the whole output. *)
From Stdlib Require Import Ascii String.
From S2P Require Import Prelude Text Ids Paths Canonical WorkflowMachine TaskMachine Goals Verdicts.
From S2P Require Import Candidates Redaction Ledger Database StoreCommands StoreCandidates.
From S2P Require Import FileSystem.

Module Freeze.
Export Candidate RepositoryFs.
Abbreviation CandidateFilePayload := Payloads.CandidateFilePayload.
Abbreviation payload_path := Payloads.payload_path.
Abbreviation payload_content := Payloads.payload_content.
Abbreviation payload_executable := Payloads.payload_executable.

#[export] Instance CandidateFileKind_eq_dec : EqDecision CandidateFileKind.
Proof. solve_decision. Defined.
#[export] Instance CandidateFile_eq_dec : EqDecision CandidateFile.
Proof. solve_decision. Defined.
#[export] Instance CandidateManifest_eq_dec : EqDecision CandidateManifest.
Proof. solve_decision. Defined.

#[export] Existing Instance Payloads.CandidateFilePayload_eq_dec.
#[export] Existing Instance Payloads.payload_le_dec.

Definition MAX_CANDIDATE_PAYLOAD_BYTES : N := 128 * 1024 * 1024.

(** * Git and the platform *)

Abbreviation frozen := (result CandidateFreezeError).

(** The standard output of [git -C repository arguments]; whether a command
    succeeds; [git apply --check] of a diff on standard input. *)
Class Git := {
  git : Tree → list string → frozen string;
  git_status : Tree → list string → frozen bool;
  git_apply_check : Tree → string → frozen unit;
}.

(** [std::env::consts] and the mode the platform gives a new file. *)
Class Platform := {
  platform_architecture : string;
  platform_operating_system : string;
  creation_mode : N;
}.

Record VerificationEnvironment : Type := {
  architecture : string;
  environment_git : string;
  operating_system : string;
}.

Record FrozenCandidate : Type := {
  exact_diff : string;
  exact_files : list CandidateFilePayload;
  manifest : CandidateManifest;
}.

(** * Text *)

(** [output_text]. *)
Definition output_text (stdout : string) : frozen string :=
  value ← ok_or (GitFailed "Git returned non-UTF-8 output") (from_utf8 stdout);
  let value := trim value in
  if bool_decide (value = "") then Err (GitFailed "Git returned empty output") else Ok value.

(** [str::parse::<u64>]: digits, perhaps after a plus. *)
Fixpoint parse_digits (acc : N) (l : list ascii) : option N :=
  match l with
  | [] => Some acc
  | a :: l' =>
      if is_ascii_digit a then
        let acc := (acc * 10 + (code a - 48))%N in
        if (acc <=? u64_max)%N then parse_digits acc l' else None
      else None
  end.
Definition parse_u64 (s : string) : option N :=
  match str_chars s with
  | [] => None
  | a :: l =>
      if is_char "+" a then match l with [] => None | _ => parse_digits 0 l end
      else parse_digits 0 (a :: l)
  end.

(** [nul_fields]. *)
Definition nul_fields (encoded : string) : frozen (list string) :=
  try_map (λ value, ok_or NonUtf8Path (from_utf8 value))
    (filter (λ value, value ≠ "") (split_on (is_char nul) encoded)).

(** [rsplit('/').next()]: the last component. *)
Definition file_name (path : string) : string := default path (last (segments path)).

Definition dependency_file (path : string) : bool :=
  let name := file_name path in
  bool_decide (name ∈ ["Cargo.lock"; "Gemfile.lock"; "Pipfile.lock"; "bun.lock"; "bun.lockb";
    "composer.lock"; "go.sum"; "package-lock.json"; "pnpm-lock.yaml"; "poetry.lock"; "uv.lock";
    "yarn.lock"])
  || starts_with "requirements" name && ends_with ".txt" name.

Definition configuration_file (path : string) : bool :=
  let name := file_name path in
  bool_decide (name ∈ ["Cargo.toml"; "Dockerfile"; "biome.json"; "biome.jsonc"; "composer.json";
    "deno.json"; "deno.jsonc"; "go.mod"; "package.json"; "pyproject.toml"])
  || starts_with "tsconfig" name && ends_with ".json" name
  || starts_with "eslint.config." name
  || starts_with "vite.config." name
  || starts_with "next.config." name
  || starts_with "compose." name
     && match last (split_on (is_char dot) name) with
        | Some extension => bool_decide (extension ∈ ["yaml"; "yml"])
        | None => false
        end.

Definition generated_path (path : string) : bool :=
  existsb (λ component, bool_decide (component ∈ ["build"; "dist"; "generated"; "out"]))
    (segments path).

(** The value of the next call of a function that returned [Ok]. *)
Tactic Notation "next_ok" hyp(Hrun) "as" simple_intropattern(pat) :=
  rewrite result_bind_ok in Hrun; destruct Hrun as pat.

(** * Reading Git *)

Section git.
Context `{Git, Platform, Sha256, ToJson VerificationEnvironment, ToJson (list (string * string)),
  ToJson (list (string * string * bool))}.

Definition require_clean (t : Tree) : frozen unit :=
  status ← git t ["status"; "--porcelain=v1"; "-z"; "--untracked-files=all"];
  if bool_decide (status = "") then Ok tt else Err DirtyWorktree.

Definition git_stdout_bounded (t : Tree) (arguments : list string) (limit : N) : frozen string :=
  bytes ← git t arguments;
  if (limit <? str_len bytes)%N then Err PayloadTooLarge else Ok bytes.

(** The fields of [slice.split(|byte| *byte == sep)]. *)
Definition split_bytes (sep : ascii) (s : string) : list string := split_on (is_char sep) s.

(** [output.strip_suffix(&[0])]. *)
Definition strip_nul (s : string) : option string :=
  match reverse (str_chars s) with
  | a :: l => if is_char nul a then Some (chars_str (reverse l)) else None
  | [] => None
  end.

(** [git_tree_entry_at]: whether the entry of a revision at a path is executable,
    and its object. *)
Definition git_tree_entry_at (t : Tree) (revision path : string) : frozen (bool * string) :=
  output ← git t ["ls-tree"; "-z"; revision; "--"; path];
  entry ← ok_or PayloadMismatch (strip_nul output);
  observed_path ← ok_or PayloadMismatch (after_first (String "009" "") entry);
  let metadata := before_first (is_char "009") entry in
  _ ← reject_if (negb (bool_decide (observed_path = path))) PayloadMismatch;
  match split_bytes " " metadata with
  | [mode; kind; object] =>
      _ ← reject_if (negb (bool_decide (kind = "blob"))) PayloadMismatch;
      executable ← (if bool_decide (mode = "100644") then Ok false
                    else if bool_decide (mode = "100755") then Ok true
                    else Err PayloadMismatch);
      object_id ← ok_or PayloadMismatch (from_utf8 object);
      Ok (executable, object_id)
  | _ => Err PayloadMismatch
  end.

Definition git_tree_entry (t : Tree) (path : string) : frozen (bool * string) :=
  git_tree_entry_at t "HEAD" path.

Definition git_blob_digest (t : Tree) (object_id : string) : frozen ContentDigest :=
  bytes ← git_stdout_bounded t ["cat-file"; "blob"; object_id] MAX_CANDIDATE_PAYLOAD_BYTES;
  Ok (digest_of bytes).

Definition git_worktree_digest_at (t : Tree) (revision path : string) : frozen ContentDigest :=
  bytes ← git t ["cat-file"; "--filters"; "--path=" +:+ path; revision +:+ ":" +:+ path];
  Ok (digest_of bytes).

Definition git_preimage_matches (t : Tree) (revision path object_id : string)
    (actual : ContentDigest) : frozen bool :=
  blob ← git_blob_digest t object_id;
  if bool_decide (actual = blob) then Ok true else
  worktree ← git_worktree_digest_at t revision path;
  Ok (bool_decide (actual = worktree)).

(** [VerificationEnvironment::detect] and [digest]. *)
Definition detect (t : Tree) : frozen VerificationEnvironment :=
  output ← git t ["--version"];
  version ← output_text output;
  Ok {| architecture := platform_architecture; environment_git := version;
        operating_system := platform_operating_system |}.
Definition environment_digest_of (e : VerificationEnvironment) : frozen ContentDigest :=
  ok_or Panicked (json_digest e).

(** * The files of a candidate *)

(** [fields.chunks_exact(2)]. *)
Fixpoint chunks_of_two {A} (l : list A) : list (A * A) :=
  match l with
  | x :: y :: l' => (x, y) :: chunks_of_two l'
  | _ => []
  end.

(** The first loop of [candidate_files]: the tree entries of the files that stay,
    and the bound on their bytes. *)
Definition measure_file (t : Tree) (acc : N * gmap string (bool * string)) (pair : string * string)
    : frozen (N * gmap string (bool * string)) :=
  if bool_decide (pair.1 = "D") then Ok acc else
  entry ← git_tree_entry t pair.2;
  output ← git t ["cat-file"; "-s"; entry.2];
  text ← output_text output;
  size ← ok_or PayloadMismatch (parse_u64 text);
  payload_bytes ← ok_or PayloadTooLarge (checked_add u64_max acc.1 size);
  _ ← reject_if (MAX_CANDIDATE_PAYLOAD_BYTES <? payload_bytes)%N PayloadTooLarge;
  Ok (payload_bytes, <[pair.2 := entry]> acc.2).

Definition change_kind (pair : string * string) : CandidateFileKind :=
  if bool_decide (pair.1 = "A")
  then if generated_path pair.2 then Generated else Added
  else if bool_decide (pair.1 = "D") then Deleted else Modified.

(** The second loop: the content of each file that stays, within what remains of
    the bound. *)
Definition read_file (t : Tree) (entries : gmap string (bool * string))
    (acc : N * (list CandidateFile * list CandidateFilePayload)) (pair : string * string)
    : frozen (N * (list CandidateFile * list CandidateFilePayload)) :=
  let '(remaining, (files, exact_files)) := acc in
  let kind := change_kind pair in
  if is_deleted kind then
    file ← map_err (λ _, Core) (candidate_file_new pair.2 None kind);
    Ok (remaining, (files ++ [with_executable false file], exact_files))
  else
    entry ← ok_or PayloadMismatch (entries !! pair.2);
    content ← git_stdout_bounded t ["cat-file"; "blob"; entry.2] remaining;
    remaining ← ok_or PayloadTooLarge
      (if (str_len content <=? remaining)%N then Some (remaining - str_len content)%N else None);
    let exact := Payloads.payload_with_executable pair.2 content entry.1 in
    file ← map_err (λ _, Core) (candidate_file_new pair.2 (Some (digest_of content)) kind);
    Ok (remaining, (files ++ [with_executable entry.1 file], exact_files ++ [exact])).

Definition candidate_files (t : Tree) (encoded : string) (exact_diff_bytes : N)
    : frozen (list CandidateFile * list CandidateFilePayload) :=
  fields ← nul_fields encoded;
  _ ← reject_if (negb (Nat.even (length fields)))
        (GitFailed "Git returned a malformed change list");
  let pairs := chunks_of_two fields in
  measured ← try_fold (measure_file t) (exact_diff_bytes, ∅) pairs;
  let remaining := (MAX_CANDIDATE_PAYLOAD_BYTES - exact_diff_bytes)%N in
  read ← try_fold (read_file t measured.2) (remaining, ([], [])) pairs;
  Ok (read.2.1, merge_sort Payloads.payload_le read.2.2).

(** [selected_files_digest]; a path through a link is not a regular file. *)
Definition selected_file (t : Tree) (path : string) : frozen (option (string * string)) :=
  match t !! path with
  | Some (FileNode content _) => Ok (Some (path, digest_to_string (digest_of content)))
  | Some (LinkNode true) => Err ManifestFailure
  | _ => Ok None
  end.
Definition selected_files_digest (t : Tree) (tracked : list string) (selected : string → bool)
    : frozen ContentDigest :=
  entries ← try_map (selected_file t) (filter (λ path, selected path = true) tracked);
  ok_or Serialization (json_digest (omap (λ entry, entry) entries : list (string * string))).

(** [payload_digest]. *)
Definition payload_entry (file : CandidateFilePayload) : string * string * bool :=
  (payload_path file, digest_to_string (digest_of (payload_content file)), payload_executable file).
Definition payload_digest (exact_files : list CandidateFilePayload) : frozen ContentDigest :=
  ok_or Serialization (json_digest (payload_entry <$> exact_files)).

(** [validate_platform_modes], which only refuses modes on Windows. *)
Definition validate_platform_modes (m : CandidateManifest) : frozen unit := Ok tt.

(** The discovered root is the repository: [rev-parse --show-toplevel] gives the
    path it was asked for, both canonical. *)
Definition require_root (t : Tree) (repository : string) : frozen unit :=
  output ← git t ["rev-parse"; "--show-toplevel"];
  discovered ← output_text output;
  reject_if (negb (bool_decide (discovered = repository))) InvalidRepository.

Definition freeze (t : Tree) (repository base_revision : string) (candidate_id : CandidateId)
    (evidence_ids : list EvidenceId) : frozen FrozenCandidate :=
  _ ← require_root t repository;
  _ ← require_clean t;
  output ← git t ["rev-parse"; base_revision +:+ "^{commit}"];
  resolved_base ← output_text output;
  _ ← (if negb (bool_decide (resolved_base = base_revision)) then Err InvalidBaseRevision else
       ancestor ← git_status t ["merge-base"; "--is-ancestor"; base_revision; "HEAD"];
       reject_if (negb ancestor) InvalidBaseRevision);
  exact_diff ← git_stdout_bounded t
    ["diff"; "--binary"; "--no-ext-diff"; "--full-index"; base_revision; "HEAD"; "--"]
    MAX_CANDIDATE_PAYLOAD_BYTES;
  changes ← git t ["diff"; "--name-status"; "-z"; "--no-renames"; base_revision; "HEAD"; "--"];
  contents ← candidate_files t changes (str_len exact_diff);
  listed ← git t ["ls-files"; "-z"];
  tracked ← nul_fields listed;
  dependency_state_digest ← selected_files_digest t tracked dependency_file;
  configuration_digest ← selected_files_digest t tracked configuration_file;
  detected ← detect t;
  environment_digest ← environment_digest_of detected;
  manifest ← map_err (λ _, Core) (candidate_new candidate_id (Some base_revision) contents.1
    {| configuration := configuration_digest; dependency_state := dependency_state_digest;
       diff := digest_of exact_diff; environment := environment_digest |} evidence_ids);
  payload ← payload_digest contents.2;
  let manifest := with_delivery_payload_digest (Some payload) manifest in
  _ ← validate_platform_modes manifest;
  _ ← require_clean t;
  Ok {| exact_diff := exact_diff; exact_files := contents.2; manifest := manifest |}.

Definition verify_frozen (t : Tree) (repository : string) (m : CandidateManifest)
    (diff : string) (files : list CandidateFilePayload) : frozen bool :=
  base_revision ← ok_or InvalidBaseRevision (base_revision m);
  observed ← freeze t repository base_revision (candidate_id m) (evidence_ids m);
  Ok (bool_decide (manifest observed = m) && bool_decide (exact_diff observed = diff)
      && bool_decide (exact_files observed = files)).

(** * A payload against its manifest *)

(** [lengths.try_fold(0, usize::checked_add).is_some_and(..)]. *)
Definition payload_size_allowed (lengths : list N) : bool :=
  match foldl (λ total length, total ← total; checked_add u64_max total length) (Some 0%N) lengths with
  | Some total => (total <=? MAX_CANDIDATE_PAYLOAD_BYTES)%N
  | None => false
  end.

(** The map of what the manifest expects: a file that stays has a digest, or the
    code panics. *)
Definition expect_file (expected : gmap string (ContentDigest * bool)) (file : CandidateFile)
    : frozen (gmap string (ContentDigest * bool)) :=
  if is_deleted (kind file) then Ok expected else
  digest ← ok_or Panicked (file_digest file);
  Ok (<[path file := (digest, executable file)]> expected).

(** The map of what the payload holds: a path occurs once. *)
Definition observe_file (observed : gmap string (ContentDigest * bool)) (file : CandidateFilePayload)
    : frozen (gmap string (ContentDigest * bool)) :=
  match observed !! payload_path file with
  | Some _ => Err PayloadMismatch
  | None => Ok (<[payload_path file :=
                   (digest_of (payload_content file), payload_executable file)]> observed)
  end.

Definition validate_payload (m : CandidateManifest) (diff : string)
    (files : list CandidateFilePayload) : frozen unit :=
  _ ← reject_if (negb (payload_size_allowed
        (str_len diff :: ((λ file, str_len (payload_content file)) <$> files)))) PayloadTooLarge;
  _ ← reject_if (negb (bool_decide (digest_of diff = diff_digest m))) PayloadMismatch;
  payload ← payload_digest files;
  _ ← reject_if (negb (bool_decide (delivery_payload_digest m = Some payload))) PayloadMismatch;
  expected ← try_fold expect_file ∅ (Candidate.files m);
  observed ← try_fold observe_file ∅ files;
  if bool_decide (observed = expected) then Ok tt else Err PayloadMismatch.

(** * Lemmas *)

(** What a delivery puts at the path of a file that stays. *)
Definition kept_file (f : CandidateFile) : option (string * (ContentDigest * bool)) :=
  if is_deleted (kind f) then None else d ← file_digest f; Some (path f, (d, executable f)).
Definition held_file (f : CandidateFilePayload) : string * (ContentDigest * bool) :=
  (payload_path f, (digest_of (payload_content f), payload_executable f)).

(** A deleted file has no digest and every other file has one. *)
Definition digest_state (f : CandidateFile) : Prop :=
  is_deleted (kind f) = true ↔ file_digest f = None.

Lemma fold_insert_map {V} (l : list (string * V)) (m : gmap string V) :
  NoDup l.*1 → foldl (λ m p, <[p.1 := p.2]> m) m l = list_to_map l ∪ m.
Proof.
  revert m. induction l as [|[k v] l IH]; intros m; cbn [fmap list_fmap].
  - intros _. simpl. by rewrite (left_id_L ∅ (∪)).
  - intros [Hk Hnd]%NoDup_cons. simpl. rewrite IH by done.
    rewrite <-insert_union_r by by apply not_elem_of_list_to_map_1.
    by rewrite insert_union_l.
Qed.

Lemma expect_fold fs m : Forall digest_state fs →
  try_fold expect_file m fs = Ok (foldl (λ m p, <[p.1 := p.2]> m) m (omap kept_file fs)).
Proof.
  intros Hall. revert m. induction Hall as [|f fs Hf _ IH]; intros m; [done|].
  cbn [try_fold omap list_omap]. unfold expect_file, kept_file, digest_state in *.
  destruct (is_deleted (kind f)); [by rewrite IH|].
  destruct (file_digest f); simpl; [by rewrite IH|]. destruct Hf as [_ Hf]. by specialize (Hf eq_refl).
Qed.

Lemma observe_fold es m : NoDup (held_file <$> es).*1 →
  Forall (λ e, m !! payload_path e = None) es →
  try_fold observe_file m es = Ok (foldl (λ m p, <[p.1 := p.2]> m) m (held_file <$> es)).
Proof.
  revert m. induction es as [|e es IH]; intros m; [done|].
  rewrite Forall_cons. cbn [fmap list_fmap try_fold]. intros [Hk Hnd]%NoDup_cons [He Hes].
  unfold observe_file at 1. rewrite He. apply IH; [done|].
  apply Forall_forall. intros x Hx. rewrite lookup_insert_ne; [by eapply Forall_forall in Hes|].
  intros Heq. apply Hk. apply list_elem_of_fmap. exists (held_file x). split; [done|].
  by apply list_elem_of_fmap_2.
Qed.

Lemma lengths_fold ls a : (a + foldr N.add 0 ls <= MAX_CANDIDATE_PAYLOAD_BYTES)%N →
  foldl (λ total length, total ← total; checked_add u64_max total length) (Some a) ls
    = Some (a + foldr N.add 0 ls)%N.
Proof.
  revert a. induction ls as [|l ls IH]; intros a Hle; cbn [foldl foldr] in *.
  - by rewrite N.add_0_r.
  - unfold checked_add at 2. cbn.
    assert ((a + l <=? u64_max)%N = true) as ->.
    { apply N.leb_le. unfold MAX_CANDIDATE_PAYLOAD_BYTES, u64_max in *. lia. }
    rewrite IH by lia. f_equal. lia.
Qed.

Definition total_bytes (es : list CandidateFilePayload) : N :=
  foldr N.add 0%N ((λ file, str_len (payload_content file)) <$> es).

Lemma total_bytes_app es es' : total_bytes (es ++ es') = (total_bytes es + total_bytes es')%N.
Proof.
  unfold total_bytes. rewrite fmap_app. induction ((λ file, str_len (payload_content file)) <$> es);
    simpl; lia.
Qed.

(** What the second loop keeps: the files and the payload say the same, in the
    same order, and the bytes read are those that no longer remain. *)
Definition read_so_far (start : N)
    (acc : N * (list CandidateFile * list CandidateFilePayload)) : Prop :=
  omap kept_file acc.2.1 = held_file <$> acc.2.2 ∧ Forall digest_state acc.2.1 ∧
  (acc.1 + total_bytes acc.2.2 = start)%N.

Lemma candidate_file_new_ok p d k f : candidate_file_new p d k = Ok f →
  f = {| executable := false; path := p; file_digest := d; kind := k |} ∧
  (is_deleted k = true ↔ d = None).
Proof.
  unfold candidate_file_new. case_match; [done|]. case_match eqn:Hd; [done|]. intros [= <-].
  split; [done|]. apply negb_false_iff, Bool.eqb_prop in Hd.
  destruct (is_deleted k); symmetry in Hd; to_prop; naive_solver.
Qed.

Lemma read_file_step t entries start acc pair acc' :
  read_so_far start acc → read_file t entries acc pair = Ok acc' → read_so_far start acc'.
Proof.
  destruct acc as [remaining [fs es]]. intros (Hmap&Hstate&Hsum). unfold read_file.
  destruct (is_deleted (change_kind pair)) eqn:Hk; simpl.
  - rewrite result_bind_ok. intros (f&Hf&[= <-]). apply map_err_ok, candidate_file_new_ok in Hf.
    destruct Hf as [-> Hf]. simpl in *. split_and!; simpl; [|by apply Forall_app; repeat constructor; try apply Hf|done].
    rewrite omap_app, Hmap. simpl. unfold kept_file. simpl. by rewrite Hk, app_nil_r.
  - rewrite result_bind_ok. intros (entry&_&Hrun). rewrite result_bind_ok in Hrun.
    destruct Hrun as (content&_&Hrun). rewrite result_bind_ok in Hrun.
    destruct Hrun as (left&Hleft&Hrun). rewrite result_bind_ok in Hrun.
    destruct Hrun as (f&Hf&[= <-]). apply map_err_ok, candidate_file_new_ok in Hf as [-> Hf].
    apply ok_or_ok in Hleft. case_match eqn:Hle; [|done]. simplify_eq. to_prop. simpl in *.
    split_and!; simpl.
    + rewrite omap_app, fmap_app, Hmap. simpl. unfold kept_file. simpl. by rewrite Hk.
    + apply Forall_app. split; [done|]. constructor; [|done]. unfold digest_state. simpl. done.
    + rewrite total_bytes_app. unfold total_bytes at 2. simpl. lia.
Qed.

Lemma read_files_ok t entries start pairs acc acc' :
  read_so_far start acc → try_fold (read_file t entries) acc pairs = Ok acc' →
  read_so_far start acc'.
Proof.
  revert acc. induction pairs as [|p pairs IH]; intros acc Hacc; cbn [try_fold].
  - by intros [= <-].
  - destruct (read_file t entries acc p) eqn:Hr; [|done]. eapply IH. by eapply read_file_step.
Qed.

Lemma candidate_files_ok t encoded size fs es :
  (size <= MAX_CANDIDATE_PAYLOAD_BYTES)%N →
  candidate_files t encoded size = Ok (fs, es) →
  omap kept_file fs ≡ₚ held_file <$> es ∧ Forall digest_state fs ∧
  (size + total_bytes es <= MAX_CANDIDATE_PAYLOAD_BYTES)%N.
Proof.
  unfold candidate_files. intros Hsize Hrun.
  next_ok Hrun as (fields&_&Hrun).
  apply result_then_ok in Hrun as [_ Hrun].
  next_ok Hrun as (measured&_&Hrun).
  next_ok Hrun as ([left [fs' es']]&Hread&[= <- <-]).
  eapply (read_files_ok _ _ (MAX_CANDIDATE_PAYLOAD_BYTES - size)) in Hread as (Hmap&Hs&Hsum).
  - simpl in *. split_and!; [by rewrite merge_sort_Permutation, Hmap|done|].
    assert (total_bytes (merge_sort Payloads.payload_le es') = total_bytes es') as ->; [|lia].
    unfold total_bytes. apply (foldr_permutation_proper eq N.add 0%N); [lia|].
    by rewrite merge_sort_Permutation.
  - split_and!; [done|constructor|]. unfold total_bytes. simpl. lia.
Qed.

Lemma kept_paths fs : (omap kept_file fs).*1 `sublist_of` (path <$> fs).
Proof.
  induction fs as [|f fs IH]; [done|]. cbn [omap list_omap fmap list_fmap].
  unfold kept_file at 1. destruct (is_deleted (kind f)); [by constructor|].
  destruct (file_digest f); simpl; by constructor.
Qed.

(** The payload of a manifest is accepted when it holds what the manifest says. *)
Lemma validate_payload_ok m diff es d :
  (str_len diff + total_bytes es <= MAX_CANDIDATE_PAYLOAD_BYTES)%N →
  digest_of diff = diff_digest m → payload_digest es = Ok d → delivery_payload_digest m = Some d →
  NoDup (path <$> files m) → Forall digest_state (files m) →
  omap kept_file (files m) ≡ₚ held_file <$> es →
  validate_payload m diff es = Ok tt.
Proof.
  intros Hsize Hdiff Hd Hm Hnd Hstate Hperm. unfold validate_payload, payload_size_allowed.
  rewrite lengths_fold by done. rewrite N.add_0_l. cbn [foldr]. fold (total_bytes es).
  assert ((str_len diff + total_bytes es <=? MAX_CANDIDATE_PAYLOAD_BYTES)%N = true) as ->
    by by apply N.leb_le.
  rewrite bool_decide_true by done. rewrite Hd. simpl. rewrite bool_decide_true by done. simpl.
  assert (NoDup (omap kept_file (files m)).*1) as Hk.
  { eapply sublist_NoDup; [done|apply kept_paths]. }
  rewrite expect_fold by done. simpl.
  rewrite observe_fold; [|by rewrite <-Hperm|by apply Forall_true].
  simpl. rewrite bool_decide_true; [done|].
  rewrite !fold_insert_map by (try rewrite <-Hperm; done).
  f_equal. symmetry. by apply list_to_map_proper.
Qed.

(** Sorted evidence gives the same manifest. *)
Lemma candidate_new_again id base fs d ev m :
  candidate_new id base fs d ev = Ok m → candidate_new id base fs d (evidence_ids m) = Ok m.
Proof.
  rewrite !candidate_new_ok. intros (?&?&->). split_and!; [done|simpl; by rewrite sort_unstable_perm|].
  unfold manifest_of. simpl. f_equal. symmetry. apply sort_unstable_idemp.
Qed.

(** What a successful [freeze] has read. *)
Lemma freeze_ok t repository base id evidence f :
  freeze t repository base id evidence = Ok f →
  ∃ changes fs m payload,
    (str_len (exact_diff f) <= MAX_CANDIDATE_PAYLOAD_BYTES)%N ∧
    candidate_files t changes (str_len (exact_diff f)) = Ok (fs, exact_files f) ∧
    payload_digest (exact_files f) = Ok payload ∧
    manifest f = with_delivery_payload_digest (Some payload) m ∧
    diff_digest m = digest_of (exact_diff f) ∧ base_revision m = Some base ∧
    candidate_id m = id ∧ files m = merge_sort path_le fs ∧ NoDup (path <$> fs) ∧
    freeze t repository base id (evidence_ids m) = Ok f.
Proof.
  unfold freeze. intros Hrun.
  next_ok Hrun as (u1&E1&Hrun).
  next_ok Hrun as (u2&E2&Hrun).
  next_ok Hrun as (o1&E3&Hrun).
  next_ok Hrun as (o2&E4&Hrun).
  next_ok Hrun as (u3&E5&Hrun).
  next_ok Hrun as (diff&E6&Hrun).
  next_ok Hrun as (changes&E7&Hrun).
  next_ok Hrun as ([fs es]&E8&Hrun).
  next_ok Hrun as (o3&E9&Hrun).
  next_ok Hrun as (o4&E10&Hrun).
  next_ok Hrun as (o5&E11&Hrun).
  next_ok Hrun as (o6&E12&Hrun).
  next_ok Hrun as (o7&E13&Hrun).
  next_ok Hrun as (o8&E14&Hrun).
  next_ok Hrun as (m&E15&Hrun).
  next_ok Hrun as (payload&Hpayload&Hrun). next_ok Hrun as (u4&_&Hrun).
  next_ok Hrun as (u5&_&[= <-]).
  apply map_err_ok in E15. pose proof (candidate_new_again _ _ _ _ _ _ E15) as Hm'.
  apply (map_err_ok (λ _, Core)) in Hm'.
  exists changes, fs, m, payload. apply candidate_new_ok in E15 as (Hnd&_&Heq). simpl.
  assert ((str_len diff <= MAX_CANDIDATE_PAYLOAD_BYTES)%N).
  { unfold git_stdout_bounded in E6. rewrite result_bind_ok in E6.
    destruct E6 as (bytes&_&Hlimit). case_match eqn:Hl; [done|]. simplify_eq. by to_prop. }
  split_and!; try done; try (by rewrite Heq). simpl in *.
  repeat match goal with H : ?r = Ok _ |- context [?r] => rewrite H; simpl end. done.
Qed.

(** C10. A frozen candidate is deliverable and verifies: the payload that
    [freeze] returns is the one its manifest is bound to, within the bound on a
    payload, and freezing the unchanged worktree again confirms all of it. *)
Theorem frozen_candidate_valid t repository base id evidence f :
  freeze t repository base id evidence = Ok f →
  validate_payload (manifest f) (exact_diff f) (exact_files f) = Ok tt ∧
  verify_frozen t repository (manifest f) (exact_diff f) (exact_files f) = Ok true.
Proof.
  intros (changes&fs&m&payload&Hdiff&Hfiles&Hp&Hm&Hd&Hb&Hid&Hfs&Hnd&Hagain)%freeze_ok.
  apply candidate_files_ok in Hfiles as (Hperm&Hstate&Hsize); [|done]. split.
  - eapply validate_payload_ok; rewrite ?Hm; simpl; rewrite ?Hfs; try done.
    + by rewrite merge_sort_Permutation.
    + by rewrite merge_sort_Permutation.
    + by rewrite <-Hperm, merge_sort_Permutation.
  - unfold verify_frozen. rewrite Hm. simpl. rewrite Hb, Hid. simpl. rewrite Hagain. simpl.
    rewrite <-Hm. by rewrite !bool_decide_true.
Qed.
End git.

(** * Examples *)

(** A repository whose [HEAD] adds [src/new.rs], by the output of the commands
    [freeze] runs. *)
Definition example_git (t : Tree) (arguments : list string) : frozen string :=
  match arguments with
  | ["rev-parse"; "--show-toplevel"] => Ok "/repository"
  | ["status"; _; _; _] => Ok ""
  | ["rev-parse"; _] => Ok "c0ffee"
  | ["diff"; "--binary"; _; _; _; _; _] => Ok "diff --git"
  | ["diff"; _; _; _; _; _; _] => Ok ("A" +:+ String nul ("src/new.rs" +:+ String nul ""))
  | ["ls-tree"; _; _; _; path] =>
      Ok ("100755 blob f00d" +:+ String "009" (path +:+ String nul ""))
  | ["cat-file"; "-s"; _] => Ok "7"
  | ["cat-file"; "blob"; _] => Ok "content"
  | ["ls-files"; _] => Ok ("src/new.rs" +:+ String nul "")
  | ["--version"] => Ok "git version 2"
  | _ => Err (GitFailed "unknown command")
  end.
#[local] Instance example_sha : Sha256 := λ s, word_of 256 (be_value s).
#[local] Instance example_repository : Git := {|
  git := example_git; git_status _ _ := Ok true; git_apply_check _ _ := Ok tt;
|}.
#[local] Instance example_platform : Platform := {|
  platform_architecture := "x86_64"; platform_operating_system := "linux"; creation_mode := 420;
|}.
#[local] Instance example_environment_json : ToJson VerificationEnvironment :=
  λ e, Some (environment_git e).
#[local] Instance example_entries_json : ToJson (list (string * string)) := λ _, Some "[]".
#[local] Instance example_payload_json : ToJson (list (string * string * bool)) :=
  λ l, Some (join_segments ((λ p, p.1.1) <$> l)).

Lemma frozen_candidate_valid_witness : ∃ f,
  freeze ∅ "/repository" "c0ffee" (word_of 128 1) [word_of 128 9; word_of 128 2] = Ok f ∧
  validate_payload (manifest f) (exact_diff f) (exact_files f) = Ok tt ∧
  verify_frozen ∅ "/repository" (manifest f) (exact_diff f) (exact_files f) = Ok true.
Proof.
  destruct (freeze ∅ "/repository" "c0ffee" (word_of 128 1) [word_of 128 9; word_of 128 2])
    as [f|e] eqn:Hf.
  - exists f. split; [done|]. eapply frozen_candidate_valid. exact Hf.
  - exfalso. assert (is_ok (freeze ∅ "/repository" "c0ffee" (word_of 128 1)
      [word_of 128 9; word_of 128 2]) = true) as Hok by (vm_compute; reflexivity).
    rewrite Hf in Hok. discriminate Hok.
Defined.
End Freeze.
