(* ===== verification/Delivery.v ===== *)
(** The delivery of an approved candidate into the user's repository
    (workflowd/src/candidate.rs): the journal of what was there, the staged
    files, the displacement and the no-clobber installation, the committed
    marker, the rollback, and the recovery that finishes or undoes an interrupted
    delivery before the next one starts. *)
From Stdlib Require Import Ascii String.
From stdpp Require Import pretty.
From S2P Require Import Prelude Text Ids Paths Canonical WorkflowMachine TaskMachine Goals Verdicts.
From S2P Require Import Candidates Redaction Ledger Database StoreCommands StoreCandidates.
From S2P Require Import FileSystem Freeze.

Module Delivery.
Export Freeze.

Definition DELIVERY_JOURNAL_DIRECTORY : string := "opencode-cycle-delivery".
Definition LEGACY_DELIVERY_JOURNAL_DIRECTORY : string := "opencode-workflow-delivery".
Definition DELIVERY_TEMPORARY_PREFIX : string := ".opencode-cycle-".

Record DeliveryJournalFile : Type := {
  approved_digest : option ContentDigest;
  approved_executable : bool;
  original_digest : option ContentDigest;
  original_directory : bool;
  original_executable : bool;
  saved_path : string;
}.

Record DeliveryJournal : Type := {
  journal_candidate : CandidateId;
  journal_files : list DeliveryJournalFile;
  journal_nonce : string;
}.

(** * Names *)

(** [Display] of a [Uuid]: its bytes in five groups. *)
Definition uuid_text (id : uuid) : string :=
  let hex := hex_of_bytes (uuid_bytes id) in
  String.substring 0 8 hex +:+ "-" +:+ String.substring 8 4 hex +:+ "-" +:+
  String.substring 12 4 hex +:+ "-" +:+ String.substring 16 4 hex +:+ "-" +:+
  String.substring 20 12 hex.

(** [adjacent_delivery_path]. *)
Definition adjacent_delivery_path (journal : DeliveryJournal) (kind : string) (index : nat) : string :=
  DELIVERY_TEMPORARY_PREFIX +:+ uuid_text (journal_candidate journal) +:+ "-" +:+
  journal_nonce journal +:+ "-" +:+ kind +:+ "-" +:+ pretty (N.of_nat index).

(** The files of a delivery under the Git directory. *)
Definition journal_path (root : string) (id : CandidateId) : string :=
  root +:+ "/" +:+ uuid_text id +:+ ".json".
Definition committed_path (root : string) (id : CandidateId) : string :=
  root +:+ "/" +:+ uuid_text id +:+ ".committed".
(** [path.with_extension("json.tmp")] of a journal. *)
Definition temporary_path (journal : string) : string := journal +:+ ".tmp".

(** [path.matches('/').count()]. *)
Definition depth (path : string) : nat := length (segments path) - 1.

(** [other.path.starts_with(&format!("{}/", path))]. *)
Definition below (path other : string) : bool := starts_with (path +:+ "/") other.

(** [sort_unstable_by_key]: the order of equal keys is not specified; here they
    keep their order. *)
Definition index_le (key : nat → nat) (i j : nat) : Prop := key i ≤ key j.
#[export] Instance index_le_dec key : RelDecision (index_le key) :=
  λ i j, decide (key i ≤ key j).
Definition index_ge (key : nat → nat) (i j : nat) : Prop := key j ≤ key i.
#[export] Instance index_ge_dec key : RelDecision (index_ge key) :=
  λ i j, decide (key j ≤ key i).

(** [index] of a vector; out of range it panics. *)
Definition index_of {A} (l : list A) (i : nat) : fs A :=
  match l !! i with Some x => mret x | None => m_throw Stopped end.
(** [expect]. *)
Definition expect {A} (o : option A) : fs A :=
  match o with Some x => mret x | None => m_throw Stopped end.

(** [safe_relative_path]. *)
Definition safe_relative_path (path : string) : bool :=
  negb (bool_decide (path = "")) &&
  negb (contains_char backslash path) &&
  negb (starts_with "/" path) &&
  negb (match byte_at 1 path with Some byte => is_char colon byte | None => false end) &&
  forallb safe_segment (segments path).

(** [journal_matches_manifest]. *)
Definition saved_matches (saved : DeliveryJournalFile) (approved : CandidateFile) : bool :=
  safe_relative_path (saved_path saved) &&
  bool_decide (saved_path saved = path approved) &&
  bool_decide (approved_digest saved = file_digest approved) &&
  Bool.eqb (approved_executable saved) (executable approved).
Fixpoint all_saved_match (saved : list DeliveryJournalFile) (approved : list CandidateFile) : bool :=
  match saved, approved with
  | s :: saved, a :: approved => saved_matches s a && all_saved_match saved approved
  | _, _ => true
  end.
Definition journal_matches_manifest (journal : DeliveryJournal) (m : CandidateManifest) : bool :=
  bool_decide (journal_candidate journal = candidate_id m) &&
  (str_len (journal_nonce journal) =? 32)%N &&
  str_all is_lower_hex (journal_nonce journal) &&
  Nat.eqb (length (journal_files journal)) (length (files m)) &&
  all_saved_match (journal_files journal) (files m).

Definition is_deleted_file (f : CandidateFile) : bool := is_deleted (kind f).

Section delivery.
Context `{Git, Platform, Sha256, ToJson VerificationEnvironment, ToJson (list (string * string)),
  ToJson (list (string * string * bool)), Persist DeliveryJournal}.
Implicit Types (m : CandidateManifest) (journal : DeliveryJournal).

(** * Checks *)

Definition modes_of (exact_files : list CandidateFilePayload) : gmap string bool :=
  foldl (λ modes file, <[payload_path file := payload_executable file]> modes) ∅ exact_files.
Definition contents_of (exact_files : list CandidateFilePayload) : gmap string string :=
  foldl (λ payload file, <[payload_path file := payload_content file]> payload) ∅ exact_files.

(** One turn of the loop of [verify_promoted_fs]: whether the file is as approved. *)
Definition verify_file m (modes : gmap string bool) (file : CandidateFile) : fs bool :=
  found ← metadata (path file);
  match kind file with
  | Deleted =>
      match found with
      | None => mret true
      | Some n =>
          mret (is_dir_node n &&
            existsb (λ other, negb (is_deleted_file other) && below (path file) (path other))
              (files m))
      end
  | _ =>
      match found with
      | Some (FileNode _ _) =>
          observed ← digest (path file);
          approved ← expect (file_digest file);
          if negb (bool_decide (observed = approved)) then mret false else
          mode ← lift (ok_or PayloadMismatch (modes !! path file));
          executable_matches_cap (path file) mode
      | _ => mret false
      end
  end.
Fixpoint verify_all m (modes : gmap string bool) (todo : list CandidateFile) : fs bool :=
  match todo with
  | [] => mret true
  | file :: todo =>
      exact ← verify_file m modes file;
      if (exact : bool) then verify_all m modes todo else mret false
  end.
Definition verify_promoted_fs m (exact_files : list CandidateFilePayload) : fs bool :=
  verify_all m (modes_of exact_files) (files m).

(** [validate_destination]: no component is a link, none on the way is a file,
    unless the candidate deletes it. *)
Fixpoint validate_components m (prefix : string) (components : list string) : fs unit :=
  match components with
  | [] => mret tt
  | component :: rest =>
      let prefix := (if bool_decide (prefix = "") then "" else prefix +:+ "/") +:+ component in
      found ← metadata prefix;
      match found with
      | None => validate_components m prefix rest
      | Some n =>
          let last := match rest with [] => true | _ => false end in
          if is_link_node n
             || (negb last && negb (is_dir_node n)
                 && negb (existsb (λ file, bool_decide (path file = prefix) && is_deleted_file file)
                            (files m)))
             || (last && negb (is_file_node n) && negb (is_dir_node n))
          then failed PayloadMismatch
          else validate_components m prefix rest
      end
  end.
Definition validate_destination m (relative : string) : fs unit :=
  validate_components m "" (segments relative).

(** [self.digest(path).is_ok_and(|value| value == digest)]. *)
Definition digest_is (path : string) (expected : ContentDigest) : fs bool :=
  catch (value ← digest path; mret (bool_decide (value = expected))) (λ _, mret false).

Definition matches_snapshot_cap (path : string) (snapshot : DeliveryJournalFile) : fs bool :=
  match original_digest snapshot with
  | None => mret false
  | Some expected =>
      same ← digest_is path expected;
      if (same : bool) then executable_matches_cap path (original_executable snapshot)
      else mret false
  end.

Definition matches_approved_cap (path : string) (snapshot : DeliveryJournalFile) : fs bool :=
  match approved_digest snapshot with
  | None => mret false
  | Some expected =>
      found ← metadata path;
      match found with
      | Some (FileNode _ _) =>
          value ← digest path;
          if bool_decide (value = expected)
          then executable_matches_cap path (approved_executable snapshot) else mret false
      | _ => mret false
      end
  end.

(** * What was there *)

Definition base_mismatch : CandidateFreezeError :=
  GitFailed "candidate destination does not match its approved base".

Definition validate_preimage_file m (base : string) (file : CandidateFile) : fs unit :=
  match kind file with
  | Modified | Deleted =>
      t ← get_tree;
      entry ← lift (git_tree_entry_at t base (path file));
      found ← metadata (path file);
      match found with
      | Some (FileNode _ _) =>
          actual ← digest (path file);
          same ← lift (git_preimage_matches t base (path file) entry.2 actual);
          _ ← fail_if (negb same) base_mismatch;
          exact ← executable_matches_cap (path file) entry.1;
          fail_if (negb exact) base_mismatch
      | _ => failed base_mismatch
      end
  | Added | Generated =>
      found ← metadata (path file);
      match found with
      | None => mret tt
      | Some n =>
          fail_if (negb (is_dir_node n &&
              existsb (λ other, is_deleted_file other && below (path file) (path other)) (files m)))
            (GitFailed "candidate destination already exists")
      end
  end.
Definition validate_preimage m : fs unit :=
  base ← lift (ok_or InvalidBaseRevision (base_revision m));
  m_for_each (validate_preimage_file m base) (files m).

Definition capture_file m (base : string) (file : CandidateFile) : fs DeliveryJournalFile :=
  _ ← validate_destination m (path file);
  original ← (match kind file with
    | Modified | Deleted =>
        t ← get_tree;
        entry ← lift (git_tree_entry_at t base (path file));
        actual ← digest (path file);
        same ← lift (git_preimage_matches t base (path file) entry.2 actual);
        _ ← fail_if (negb same) base_mismatch;
        mret (Some (actual, entry.1))
    | Added | Generated => mret None
    end : fs (option (ContentDigest * bool)));
  mret {|
    approved_digest := file_digest file;
    approved_executable := executable file;
    original_digest := fst <$> original;
    original_directory := bool_decide (original = None) &&
      existsb (λ other, is_deleted_file other && below (path file) (path other)) (files m);
    original_executable := match original with Some value => value.2 | None => false end;
    saved_path := path file;
  |}.

(** [capture_journal]: [entropy] is what [getrandom] fills the nonce with. *)
Definition capture_journal (entropy : option string) m : fs DeliveryJournal :=
  nonce ← lift (ok_or (GitFailed "operating-system entropy is unavailable") entropy);
  base ← lift (ok_or InvalidBaseRevision (base_revision m));
  saved ← m_map (capture_file m base) (files m);
  mret {| journal_candidate := candidate_id m; journal_files := saved;
          journal_nonce := hex_of_bytes nonce |}.

(** * The journal and the marker *)

Definition encode_journal journal : fs string :=
  lift (ok_or Serialization (json_encode journal)).
Definition delivery_journal_digest journal : fs ContentDigest :=
  encoded ← encode_journal journal; mret (digest_of encoded).

Definition write_journal (path : string) journal : fs unit :=
  encoded ← encode_journal journal;
  let temporary := temporary_path path in
  _ ← remove_if_exists temporary;
  catch
    (_ ← control_new temporary;
     _ ← control_write temporary encoded;
     _ ← sync;
     _ ← catch (control_link temporary path)
           (λ _, failed (GitFailed "candidate delivery journal publication failed"));
     _ ← sync_parent;
     _ ← catch (control_remove temporary)
           (λ _, failed (GitFailed "candidate journal temporary cleanup failed"));
     sync_parent)
    (λ error,
     _ ← catch (remove_if_exists temporary) (λ _, mret tt);
     failed error).

Definition write_committed_marker (path : string) : fs unit :=
  _ ← catch (control_new path) (λ _, failed (GitFailed "candidate committed marker failed"));
  _ ← sync;
  sync_parent.

(** * Rollback *)

Definition preserve_concurrent journal (index : nat) (target : string) : fs unit :=
  let preserved := adjacent_delivery_path journal "concurrent" index in
  _ ← catch (hard_link target preserved)
        (λ _, failed (GitFailed "concurrent candidate destination could not be preserved"));
  remove_file target.

(** The directory of a path, when it is not the root, with what is above it. *)
Definition create_parents (path : string) : fs unit :=
  let parent := parent_path path in
  if bool_decide (parent = "") then mret tt else create_dir_all parent.

Definition approved_descendants journal (file : DeliveryJournalFile) : bool :=
  existsb (λ other, bool_decide (is_Some (approved_digest other))
                    && below (saved_path file) (saved_path other)) (journal_files journal).

Definition rollback_order journal : list nat :=
  merge_sort (index_le (λ i, match journal_files journal !! i with
                             | Some file => depth (saved_path file) | None => 0 end))
    (seq 0 (length (journal_files journal))).

(** The first loop: what was installed goes, what somebody else put there is
    kept aside, and the staged file goes. *)
Definition withdraw journal (index : nat) : fs unit :=
  file ← index_of (journal_files journal) index;
  found ← metadata (saved_path file);
  _ ← match found with
      | Some (FileNode _ _) =>
          original ← matches_snapshot_cap (saved_path file) file;
          if (original : bool) then mret tt else
          approved ← matches_approved_cap (saved_path file) file;
          if (approved : bool) then remove_file (saved_path file)
          else preserve_concurrent journal index (saved_path file)
      | Some DirNode =>
          if original_directory file then mret tt
          else if approved_descendants journal file then
            catch (remove_dir (saved_path file)) (λ error,
              match error with Io DirectoryNotEmpty => mret tt | _ => failed error end)
          else failed (GitFailed "concurrent candidate directory was preserved")
      | _ => mret tt
      end;
  remove_file_if_exists (adjacent_delivery_path journal "incoming" index).

(** The second: the directories that took the place of a file. *)
Definition withdraw_directory journal (index : nat) : fs unit :=
  file ← index_of (journal_files journal) index;
  if original_directory file then mret tt
  else if approved_descendants journal file then
    found ← metadata (saved_path file);
    match found with
    | Some DirNode => remove_dir (saved_path file)
    | _ => mret tt
    end
  else mret tt.

(** The third: the files that were there come back. *)
Definition restore journal (index : nat) : fs unit :=
  file ← index_of (journal_files journal) index;
  let backup := adjacent_delivery_path journal "backup" index in
  if original_directory file then
    found ← metadata (saved_path file);
    match found with None => create_dir_all (saved_path file) | Some _ => mret tt end
  else
    saved ← metadata backup;
    match saved with
    | None => mret tt
    | Some _ =>
        exact ← matches_snapshot_cap backup file;
        found ← metadata (saved_path file);
        if negb exact then
          _ ← match found with
              | None =>
                  _ ← create_parents (saved_path file);
                  _ ← hard_link backup (saved_path file);
                  sync_repository
              | Some _ => mret tt
              end;
          failed (GitFailed "candidate delivery backup no longer matches its journal")
        else
          _ ← match found with
              | None =>
                  _ ← create_parents (saved_path file);
                  hard_link backup (saved_path file)
              | Some _ =>
                  same ← matches_snapshot_cap (saved_path file) file;
                  fail_if (negb same)
                    (GitFailed "candidate destination was concurrently recreated during rollback")
              end;
          remove_file backup
    end.

Definition rollback_payload journal (journal_file committed : string) : fs unit :=
  let indices := rollback_order journal in
  _ ← m_for_each (withdraw journal) indices;
  _ ← m_for_each (withdraw_directory journal) (reverse indices);
  _ ← m_for_each (restore journal) indices;
  _ ← sync_repository;
  _ ← remove_if_exists journal_file;
  remove_if_exists committed.

(** * Installation *)

(** The first loop of [apply_payload_staged]: the new contents beside the tree. *)
Definition stage m (exact_files : list CandidateFilePayload) journal (entry : nat * CandidateFile)
    : fs unit :=
  let '(index, file) := entry in
  _ ← validate_destination m (path file);
  match contents_of exact_files !! path file with
  | None => mret tt
  | Some content =>
      let incoming := adjacent_delivery_path journal "incoming" index in
      _ ← write_new_file creation_mode incoming content;
      exact ← lift (ok_or PayloadMismatch
        (find (λ exact, bool_decide (payload_path exact = path file)) exact_files));
      set_executable_cap incoming (payload_executable exact)
  end.

Definition apply_order m : list nat :=
  merge_sort (index_ge (λ i, match files m !! i with
                             | Some file => depth (path file) | None => 0 end))
    (seq 0 (length (files m))).

(** What is in the way of a file moves to its backup; it must still be what the
    journal says. *)
Definition displace m journal (index : nat) : fs unit :=
  file ← index_of (files m) index;
  _ ← validate_destination m (path file);
  found ← metadata (path file);
  match found with
  | Some (FileNode _ _) =>
      let backup := adjacent_delivery_path journal "backup" index in
      collision ← metadata backup;
      _ ← fail_if (bool_decide (is_Some collision))
            (GitFailed "candidate delivery backup collision");
      _ ← rename (path file) backup;
      saved ← index_of (journal_files journal) index;
      exact ← matches_snapshot_cap backup saved;
      if negb exact then
        again ← metadata (path file);
        _ ← match again with
            | None => rename backup (path file)
            | Some _ => mret tt
            end;
        failed (GitFailed "candidate destination changed during promotion")
      else sync_repository
  | Some DirNode =>
      saved ← index_of (journal_files journal) index;
      _ ← fail_if (negb (original_directory saved))
            (GitFailed "candidate destination was concurrently recreated as a directory");
      t ← get_tree;
      _ ← fail_if (existsb (child_of (path file)) (map_to_list t))
            (GitFailed "candidate destination directory changed during promotion");
      _ ← remove_dir (path file);
      sync_repository
  | _ => mret tt
  end.

(** The directories above a file that are missing, the deepest first. *)
Definition create_ancestor (deleted_paths : list string) (relative : string) : fs unit :=
  if bool_decide (relative ∈ deleted_paths) then mret tt else
  found ← metadata relative;
  match found with None => create_dir relative | Some _ => mret tt end.
Definition create_ancestors m (file : CandidateFile) : fs unit :=
  if is_deleted_file file then mret tt else
  let parent := parent_path (path file) in
  if bool_decide (parent = "") then mret tt else
  m_for_each (create_ancestor (path <$> filter (λ f, is_deleted_file f = true) (files m)))
    (reverse (path_prefixes parent)).

(** A staged file becomes the destination, which must not exist. *)
Definition install m journal (entry : nat * CandidateFile) : fs unit :=
  let '(index, file) := entry in
  if is_deleted_file file then mret tt else
  _ ← create_parents (path file);
  _ ← validate_destination m (path file);
  let incoming := adjacent_delivery_path journal "incoming" index in
  _ ← catch (hard_link incoming (path file)) (λ error,
        match error with
        | Io AlreadyExists =>
            failed (GitFailed "candidate destination was concurrently recreated")
        | _ => failed (GitFailed "candidate no-clobber install failed")
        end);
  _ ← catch (remove_file incoming) (λ _, failed (GitFailed "candidate incoming cleanup failed"));
  sync_repository.

(** [iter().enumerate()]. *)
Definition enumerate {A} (l : list A) : list (nat * A) := imap pair l.

Definition apply_payload_staged m (exact_files : list CandidateFilePayload) journal
    (journal_file committed : string) : fs unit :=
  _ ← m_for_each (stage m exact_files journal) (enumerate (files m));
  catch
    (_ ← m_for_each (displace m journal) (apply_order m);
     _ ← m_for_each (create_ancestors m) (files m);
     _ ← m_for_each (install m journal) (enumerate (files m));
     exact ← verify_promoted_fs m exact_files;
     fail_if (negb exact) PayloadMismatch)
    (λ error,
     _ ← catch (rollback_payload journal journal_file committed)
           (λ _, failed (GitFailed "candidate delivery failed; rollback failed"));
     failed error).

(** * Recovery *)

Definition cleanup_file journal (index : nat) : fs unit :=
  _ ← remove_file_if_exists (adjacent_delivery_path journal "backup" index);
  remove_file_if_exists (adjacent_delivery_path journal "incoming" index).
Definition cleanup_delivery journal (journal_file committed : string) : fs unit :=
  _ ← m_for_each (cleanup_file journal) (seq 0 (length (journal_files journal)));
  _ ← remove_if_exists journal_file;
  _ ← sync_parent;
  _ ← remove_if_exists committed;
  sync_parent.

Definition no_longer_verifies : CandidateFreezeError :=
  GitFailed "committed candidate delivery no longer verifies".

Definition recover_delivery_bound m (exact_files : list CandidateFilePayload)
    (journal_file committed : string) (expected_journal_digest : option ContentDigest) : fs unit :=
  journal_exists ← control_exists journal_file;
  committed_exists ← control_exists committed;
  if negb journal_exists then
    if (committed_exists : bool) then
      exact ← verify_promoted_fs m exact_files;
      _ ← fail_if (negb exact) no_longer_verifies;
      remove_if_exists committed
    else mret tt
  else
    encoded ← control_read journal_file;
    _ ← fail_if (negb (bool_decide (expected_journal_digest = Some (digest_of encoded))))
          PayloadMismatch;
    journal ← lift (ok_or Serialization (json_decode encoded));
    _ ← fail_if (negb (journal_matches_manifest journal m)) PayloadMismatch;
    if (committed_exists : bool) then
      exact ← verify_promoted_fs m exact_files;
      _ ← fail_if (negb exact) no_longer_verifies;
      cleanup_delivery journal journal_file committed
    else rollback_payload journal journal_file committed.

Definition recover_legacy_delivery m (exact_files : list CandidateFilePayload)
    (expected_journal_digest : option ContentDigest) (current_journal current_committed : string)
    : fs unit :=
  let legacy_journal := journal_path LEGACY_DELIVERY_JOURNAL_DIRECTORY (candidate_id m) in
  let legacy_committed := committed_path LEGACY_DELIVERY_JOURNAL_DIRECTORY (candidate_id m) in
  c ← get_control;
  if negb (bool_decide (is_Some (c !! legacy_journal)))
     && negb (bool_decide (is_Some (c !! legacy_committed))) then mret tt
  else if bool_decide (is_Some (c !! current_journal))
          || bool_decide (is_Some (c !! current_committed))
  then failed (GitFailed "legacy and current candidate delivery journals coexist")
  else recover_delivery_bound m exact_files legacy_journal legacy_committed
         expected_journal_digest.

(** * Delivery *)

Definition apply_payload (entropy : option string) m (exact_diff : string)
    (exact_files : list CandidateFilePayload) (expected_journal_digest : option ContentDigest)
    (bind_journal : option ContentDigest → ContentDigest → fs unit) : fs ContentDigest :=
  _ ← control_touch;
  let journal_file := journal_path DELIVERY_JOURNAL_DIRECTORY (candidate_id m) in
  let committed := committed_path DELIVERY_JOURNAL_DIRECTORY (candidate_id m) in
  _ ← recover_legacy_delivery m exact_files expected_journal_digest journal_file committed;
  _ ← recover_delivery_bound m exact_files journal_file committed expected_journal_digest;
  promoted ← verify_promoted_fs m exact_files;
  if (promoted : bool) then
    journal_digest ← lift (ok_or PayloadMismatch
      (match expected_journal_digest with
       | Some digest => Some digest | None => delivery_payload_digest m end));
    _ ← bind_journal expected_journal_digest journal_digest;
    mret journal_digest
  else
    t ← get_tree;
    _ ← lift (git_apply_check t exact_diff);
    _ ← validate_preimage m;
    journal ← capture_journal entropy m;
    journal_digest ← delivery_journal_digest journal;
    _ ← bind_journal expected_journal_digest journal_digest;
    _ ← write_journal journal_file journal;
    t ← get_tree;
    _ ← lift (git_apply_check t exact_diff);
    _ ← apply_payload_staged m exact_files journal journal_file committed;
    _ ← catch (write_committed_marker committed) (λ error,
          _ ← rollback_payload journal journal_file committed;
          failed error);
    _ ← cleanup_delivery journal journal_file committed;
    mret journal_digest.

Definition promote_bound (repository : string) (entropy : option string) m (exact_diff : string)
    (exact_files : list CandidateFilePayload) (expected_journal_digest : option ContentDigest)
    (bind_journal : option ContentDigest → ContentDigest → fs unit)
    : fs (list string * ContentDigest) :=
  t ← get_tree;
  _ ← lift (require_root t repository);
  base_revision ← lift (ok_or InvalidBaseRevision (base_revision m));
  output ← lift (git t ["rev-parse"; "HEAD"]);
  head ← lift (output_text output);
  _ ← fail_if (negb (bool_decide (head = base_revision))) InvalidBaseRevision;
  _ ← lift (validate_platform_modes m);
  _ ← lift (validate_payload m exact_diff exact_files);
  journal_digest ← apply_payload entropy m exact_diff exact_files expected_journal_digest
    bind_journal;
  mret (path <$> files m, journal_digest).

(** Whether something of a delivery is left that a recovery has to look at. *)
Definition delivery_recovery_required (candidate : CandidateId) : fs bool :=
  c ← get_control;
  mret (existsb (λ root, bool_decide (is_Some (c !! journal_path root candidate))
                         || bool_decide (is_Some (c !! committed_path root candidate)))
          [DELIVERY_JOURNAL_DIRECTORY; LEGACY_DELIVERY_JOURNAL_DIRECTORY]).

(** * The reservation *)

(** The digest the store has reserved the delivery under
    ([candidate_delivery_journal_digest], [bind_candidate_delivery_journal] and
    [release_candidate_delivery] of the store, each one transaction on the row
    of the candidate). *)
Definition get_reserved : fs (option ContentDigest) := λ w, (w, Ok (reserved (state w))).
Definition bind_reservation (expected_digest : option ContentDigest) (digest : ContentDigest)
    : fs unit :=
  catch (operate (λ s, if bool_decide (reserved s = expected_digest)
                       then Ok (set_reserved (Some digest) s) else Err Other) (λ _ s, s))
    (λ _, failed (GitFailed "candidate delivery reservation binding failed")).
Definition release_reservation : fs unit :=
  operate (λ s, Ok (set_reserved None s)) (λ _ s, s).

(** One request to promote the candidate, as the daemon serves it: a failure that
    leaves nothing to recover gives the reservation back. *)
Definition deliver (repository : string) (entropy : option string) m (exact_diff : string)
    (exact_files : list CandidateFilePayload) : fs (list string * ContentDigest) :=
  journal_digest ← get_reserved;
  catch (promote_bound repository entropy m exact_diff exact_files journal_digest bind_reservation)
    (λ error,
     required ← delivery_recovery_required (candidate_id m);
     if (required : bool) then failed error
     else _ ← release_reservation; failed error).
End delivery.
End Delivery.
