(* ===== verification/DeliverySlots.v ===== *)
(** The safety of a delivery: whatever interrupts it, and however often, a
    recovery leaves every file of the candidate as it was, or every file as it
    was approved, and nothing beside them.

    The proof follows the journal. A file of the candidate has three places: its
    target, its backup and its staged content. [pending] says what they may hold
    while the journal is there and the committed marker is not; every step of
    staging, displacing, installing and rolling back keeps it, so that it holds
    wherever the process ends, and a rollback from it restores the original. *)
From Stdlib Require Import Ascii String.
From stdpp Require Import pretty.
From S2P Require Import Prelude Text Ids Paths Canonical WorkflowMachine TaskMachine Goals Verdicts.
From S2P Require Import Candidates Redaction Ledger Database StoreCommands StoreCandidates.
From S2P Require Import FileSystem Freeze Delivery.

Module DeliverySlots.
Export Delivery.

(** * Names *)

Lemma adjacent_inj j k i1 i2 :
  adjacent_delivery_path j k i1 = adjacent_delivery_path j k i2 → i1 = i2.
Proof.
  unfold adjacent_delivery_path. intros Heq.
  do 7 apply str_app_inv_head in Heq.
  apply pretty_N_inj in Heq. lia.
Qed.

Lemma adjacent_kinds j i1 i2 :
  adjacent_delivery_path j "backup" i1 ≠ adjacent_delivery_path j "incoming" i2.
Proof.
  unfold adjacent_delivery_path. intros Heq.
  do 5 apply str_app_inv_head in Heq. discriminate Heq.
Qed.

Lemma adjacent_reserved j k i : starts_with DELIVERY_TEMPORARY_PREFIX (adjacent_delivery_path j k i) = true.
Proof. apply starts_with_iff. unfold adjacent_delivery_path. eauto. Qed.

(** The backup and the staged content of a file; sealed, since names are told
    apart by the lemmas above and never by computing them. *)
Definition backup_aux : seal (λ j i, adjacent_delivery_path j "backup" i).
Proof. by eexists. Qed.
Definition backup_of (j : DeliveryJournal) (i : nat) : string := unseal backup_aux j i.
Lemma backup_of_eq j i : backup_of j i = adjacent_delivery_path j "backup" i.
Proof. unfold backup_of. by rewrite seal_eq. Qed.
Definition incoming_aux : seal (λ j i, adjacent_delivery_path j "incoming" i).
Proof. by eexists. Qed.
Definition incoming_of (j : DeliveryJournal) (i : nat) : string := unseal incoming_aux j i.
Lemma incoming_of_eq j i : incoming_of j i = adjacent_delivery_path j "incoming" i.
Proof. unfold incoming_of. by rewrite seal_eq. Qed.

Lemma backup_inj j i1 i2 : backup_of j i1 = backup_of j i2 → i1 = i2.
Proof. rewrite !backup_of_eq. apply adjacent_inj. Qed.
Lemma incoming_inj j i1 i2 : incoming_of j i1 = incoming_of j i2 → i1 = i2.
Proof. rewrite !incoming_of_eq. apply adjacent_inj. Qed.
Lemma backup_not_incoming j i1 i2 : backup_of j i1 ≠ incoming_of j i2.
Proof. rewrite backup_of_eq, incoming_of_eq. apply adjacent_kinds. Qed.

(** Look up entries after changes at other names. *)
Ltac look := repeat match goal with
  | |- context [<[?k := _]> ?t !! ?k] => rewrite (lookup_insert_eq t k)
  | |- context [delete ?k ?t !! ?k] => rewrite (lookup_delete_eq t k)
  | |- context [<[?k := _]> ?t !! ?p] => rewrite (lookup_insert_ne t k p) by congruence
  | |- context [delete ?k ?t !! ?p] => rewrite (lookup_delete_ne t k p) by congruence
  end.

(** What a reader sees of an entry: the digest and the mode of a regular file. *)
Definition view `{Sha256} (o : option Node) : option (ContentDigest * bool) :=
  match o with Some (FileNode c mode) => Some (digest_of c, is_executable mode) | _ => None end.
Definition regular (o : option Node) : Prop :=
  match o with None | Some (FileNode _ _) => True | _ => False end.

Definition snapshot (f : DeliveryJournalFile) : option (ContentDigest * bool) :=
  d ← original_digest f; Some (d, original_executable f).
Definition approval (f : DeliveryJournalFile) : option (ContentDigest * bool) :=
  d ← approved_digest f; Some (d, approved_executable f).
(** What the manifest approves at the path of a file. *)
Definition approved (f : CandidateFile) : option (ContentDigest * bool) :=
  d ← file_digest f; Some (d, executable f).

Section safety.
Context `{Git, Platform, Sha256, ToJson VerificationEnvironment, ToJson (list (string * string)),
  ToJson (list (string * string * bool)), Persist DeliveryJournal}.
Context (faulty : Prop) (m : CandidateManifest) (t0 : Tree).

(** A path above a file of the candidate. *)
Definition ancestor (q : string) : Prop := ∃ f, f ∈ files m ∧ above q (path f).

(** A manifest none of whose paths lies below another or is named like an artifact
    of a delivery. *)
Record deliverable : Prop := {
  paths_nodup : NoDup (path <$> files m);
  paths_whole f : f ∈ files m → whole_segments (path f);
  paths_safe f : f ∈ files m → is_safe_relative (path f) = true;
  paths_flat f g : f ∈ files m → g ∈ files m → below (path f) (path g) = false;
  paths_free f : f ∈ files m → starts_with DELIVERY_TEMPORARY_PREFIX (path f) = false;
  digests_stated f : f ∈ files m → digest_state f;
}.

(** A repository whose entries are in directories, without an artifact. *)
Record tidy : Prop := {
  rooted p n q : t0 !! p = Some n → above q p → t0 !! q = Some DirNode;
  artifact_free p : starts_with DELIVERY_TEMPORARY_PREFIX p = true → t0 !! p = None;
}.

Context (Hm : deliverable) (Ht0 : tidy).

Lemma ancestor_not_path q f : ancestor q → f ∈ files m → q ≠ path f.
Proof.
  intros (g&Hg&Hq) Hf ->. destruct (above_prefix (path f) (path g)) as [r Hr]; [by apply Hm|done|].
  pose proof (paths_flat Hm f g Hf Hg) as Hflat. unfold below in Hflat.
  assert (starts_with (path f +:+ "/") (path g) = true); [|congruence].
  apply starts_with_iff. exists r. by rewrite Hr, str_app_assoc.
Qed.

Lemma ancestor_free q : ancestor q → starts_with DELIVERY_TEMPORARY_PREFIX q = false.
Proof.
  intros (g&Hg&Hq). destruct (above_prefix q (path g)) as [r Hr]; [by apply Hm|done|].
  destruct (starts_with DELIVERY_TEMPORARY_PREFIX q) eqn:Hs; [|done].
  apply starts_with_iff in Hs as [r' ->]. rewrite <-(paths_free Hm g Hg), Hr.
  symmetry. apply starts_with_iff. eexists. by rewrite <-!str_app_assoc.
Qed.

(** * How the tree changes *)

(** An entry stays, or a directory is made above a file of the candidate. *)
Definition grown (t t' : Tree) (p : string) : Prop :=
  t' !! p = t !! p ∨ (t !! p = None ∧ t' !! p = Some DirNode ∧ ancestor p).

Lemma grown_refl t p : grown t t p.
Proof. by left. Qed.
Lemma grown_trans t1 t2 t3 p : grown t1 t2 p → grown t2 t3 p → grown t1 t3 p.
Proof. unfold grown. intros [?|(?&?&?)] [?|(?&?&?)]; naive_solver congruence. Qed.

Section journal.
Context (j : DeliveryJournal).

Abbreviation backup := (backup_of j).
Abbreviation incoming := (incoming_of j).

(** What is captured of the repository when the journal is written. *)
Definition captured (saved : DeliveryJournalFile) (f : CandidateFile) : Prop :=
  saved_path saved = path f ∧ approved_digest saved = file_digest f ∧
  approved_executable saved = executable f ∧ original_directory saved = false ∧
  regular (t0 !! path f) ∧ snapshot saved = view (t0 !! path f).
Record fits : Prop := {
  fits_candidate : journal_candidate j = candidate_id m;
  fits_length : (str_len (journal_nonce j) =? 32)%N = true;
  fits_hex : str_all is_lower_hex (journal_nonce j) = true;
  fits_files : Forall2 captured (journal_files j) (files m);
}.
Context (Hj : fits).

Abbreviation saved_at i f := (journal_files j !! i = Some f).

Lemma saved_file i f : saved_at i f → ∃ g, files m !! i = Some g ∧ captured f g.
Proof. intros Hi. eapply Forall2_lookup_l; [apply Hj|done]. Qed.

Lemma saved_elem i f : saved_at i f → ∃ g, g ∈ files m ∧ path g = saved_path f.
Proof.
  intros Hi. destruct (saved_file i f Hi) as (g&Hg&Hc). exists g.
  split; [by eapply list_elem_of_lookup_2|]. symmetry. apply Hc.
Qed.

Lemma saved_path_inj i1 i2 f1 f2 : saved_at i1 f1 → saved_at i2 f2 →
  saved_path f1 = saved_path f2 → i1 = i2.
Proof.
  intros H1' H2' Heq. destruct (saved_file i1 f1) as (g1&Hg1&Hp1); [done|].
  destruct (saved_file i2 f2) as (g2&Hg2&Hp2); [done|].
  eapply (NoDup_lookup (path <$> files m)); [apply Hm| |].
  - by rewrite list_lookup_fmap, Hg1.
  - rewrite list_lookup_fmap, Hg2. simpl. f_equal. destruct Hp1 as [<- _], Hp2 as [<- _]. done.
Qed.

Lemma saved_path_free i f : saved_at i f → starts_with DELIVERY_TEMPORARY_PREFIX (saved_path f) = false.
Proof. intros Hi. destruct (saved_elem i f Hi) as (g&Hg&<-). by apply Hm. Qed.

Lemma target_not_backup i k f : saved_at i f → saved_path f ≠ backup k.
Proof.
  intros Hi Heq. pose proof (saved_path_free i f Hi) as Hf. rewrite Heq in Hf.
  by rewrite backup_of_eq, adjacent_reserved in Hf.
Qed.
Lemma target_not_incoming i k f : saved_at i f → saved_path f ≠ incoming k.
Proof.
  intros Hi Heq. pose proof (saved_path_free i f Hi) as Hf. rewrite Heq in Hf.
  by rewrite incoming_of_eq, adjacent_reserved in Hf.
Qed.
Lemma ancestor_not_target q i f : saved_at i f → ancestor q → q ≠ saved_path f.
Proof.
  intros Hi Hq. destruct (saved_elem i f Hi) as (g&Hg&<-). by apply ancestor_not_path.
Qed.
Lemma ancestor_not_backup q i : ancestor q → q ≠ backup i.
Proof.
  intros Hq Heq. apply ancestor_free in Hq. rewrite Heq in Hq.
  by rewrite backup_of_eq, adjacent_reserved in Hq.
Qed.
Lemma ancestor_not_incoming q i : ancestor q → q ≠ incoming i.
Proof.
  intros Hq Heq. apply ancestor_free in Hq. rewrite Heq in Hq.
  by rewrite incoming_of_eq, adjacent_reserved in Hq.
Qed.

(** The places of one file. *)
Definition place (i : nat) (f : DeliveryJournalFile) (p : string) : Prop :=
  p = saved_path f ∨ p = backup i ∨ p = incoming i.
Definition touched (p : string) : Prop := ∃ i f, saved_at i f ∧ place i f p.

Lemma place_distinct i k f g p : saved_at i f → saved_at k g → i ≠ k → place i f p → ¬ place k g p.
Proof.
  intros Hi Hk Hne Hp Hp'. unfold place in *.
  destruct Hp as [Hp|[Hp|Hp]], Hp' as [Hp'|[Hp'|Hp']]; rewrite Hp in Hp'.
  - apply Hne. by eapply (saved_path_inj i k f g).
  - exact (target_not_backup i k f Hi Hp').
  - exact (target_not_incoming i k f Hi Hp').
  - exact (target_not_backup k i g Hk (eq_sym Hp')).
  - apply Hne. by eapply backup_inj.
  - by eapply backup_not_incoming.
  - exact (target_not_incoming k i g Hk (eq_sym Hp')).
  - symmetry in Hp'. by eapply backup_not_incoming.
  - apply Hne. by eapply incoming_inj.
Qed.

Lemma ancestor_not_place q i f : saved_at i f → ancestor q → ¬ place i f q.
Proof.
  intros Hi Hq [-> | [-> | ->] ].
  - by eapply ancestor_not_target.
  - by eapply ancestor_not_backup.
  - by eapply ancestor_not_incoming.
Qed.

(** Everything but the places of the candidate's files is as it was. *)
Definition framed (t : Tree) : Prop := ∀ p, ¬ touched p → grown t0 t p.

(** A property of the three places of a file. *)
Definition Slot : Type := option Node → option Node → option Node → Prop.
Definition at_slot (Φ : Slot) (i : nat) (f : DeliveryJournalFile) (t : Tree) : Prop :=
  Φ (t !! saved_path f) (t !! backup i) (t !! incoming i).

(** Work on one file leaves everything else. *)
Definition moved (i : nat) (f : DeliveryJournalFile) (s s' : State) : Prop :=
  (∀ p, ¬ place i f p → grown (tree s) (tree s') p) ∧
  control s' = control s ∧ reserved s' = reserved s.

Lemma moved_refl i f s : moved i f s s.
Proof. split; [intros; apply grown_refl|done]. Qed.
Lemma moved_trans i f s1 s2 s3 : moved i f s1 s2 → moved i f s2 s3 → moved i f s1 s3.
Proof.
  intros (Hg&?&?) (Hg'&?&?). split; [|split; congruence].
  intros p Hp. eapply grown_trans; [by apply Hg|by apply Hg'].
Qed.

Lemma moved_place i f s t : (∀ p, ¬ place i f p → t !! p = tree s !! p) → moved i f s (set_tree t s).
Proof. intros Ht. split; [|done]. intros p Hp. left. simpl. auto. Qed.

Lemma moved_insert i f s p n : place i f p → moved i f s (set_tree (<[p := n]> (tree s)) s).
Proof. intros Hp. apply moved_place. intros q Hq. apply lookup_insert_ne. by intros ->. Qed.
Lemma moved_delete i f s p : place i f p → moved i f s (set_tree (delete p (tree s)) s).
Proof. intros Hp. apply moved_place. intros q Hq. apply lookup_delete_ne. by intros ->. Qed.

Lemma not_place i f p : ¬ place i f p → p ≠ saved_path f ∧ p ≠ backup i ∧ p ≠ incoming i.
Proof. unfold place. tauto. Qed.

(** What holds of another file's places goes on holding. *)
Lemma moved_other i k f g s s' (Φ : Slot) : saved_at i f → saved_at k g → i ≠ k →
  moved i f s s' → at_slot Φ k g (tree s) → at_slot Φ k g (tree s').
Proof.
  intros Hi Hk Hne (Hg&_&_). unfold at_slot.
  assert (∀ p, place k g p → tree s' !! p = tree s !! p) as Hsame.
  { intros p Hp. destruct (Hg p) as [?|(_&_&Hanc)]; [|done|].
    - by eapply place_distinct.
    - by destruct (ancestor_not_place p k g). }
  rewrite !Hsame; unfold place; auto.
Qed.

Lemma moved_framed i f s s' : saved_at i f → moved i f s s' → framed (tree s) → framed (tree s').
Proof.
  intros Hi (Hg&_&_) Hf p Hp. eapply grown_trans; [by apply Hf|]. apply Hg.
  intros Hplace. apply Hp. by exists i, f.
Qed.

(** A state in which each file's places are as [Φ] says. *)
Definition slots (Φ : nat → DeliveryJournalFile → Slot) (s : State) : Prop :=
  framed (tree s) ∧ ∀ i f, saved_at i f → at_slot (Φ i f) i f (tree s).
Definition kept_control (s s' : State) : Prop :=
  control s' = control s ∧ reserved s' = reserved s.

(** A loop whose body works on one file at a time. *)
Lemma wp_slots {A} (idx : A → nat) (body : A → fs unit) (xs : list A)
    (G : Prop)
    (X Y Z : nat → DeliveryJournalFile → Slot) s :
  NoDup (idx <$> xs) →
  (∀ i f, saved_at i f → i ∈ idx <$> xs) →
  (∀ i f T B I, X i f T B I → Z i f T B I) → (∀ i f T B I, Y i f T B I → Z i f T B I) →
  (∀ x f s', x ∈ xs → saved_at (idx x) f → framed (tree s') →
     at_slot (X (idx x) f) (idx x) f (tree s') →
     wp faulty (body x)
       (λ _ s'', moved (idx x) f s' s'' ∧ at_slot (Y (idx x) f) (idx x) f (tree s''))
       (λ s'', G ∧ moved (idx x) f s' s'' ∧ at_slot (Z (idx x) f) (idx x) f (tree s'')) s') →
  (∀ x, x ∈ xs → is_Some (journal_files j !! idx x)) →
  slots X s →
  wp faulty (m_for_each body xs) (λ _ s', slots Y s' ∧ kept_control s s')
    (λ s', G ∧ slots Z s' ∧ kept_control s s') s.
Proof.
  intros Hnd Hall HXZ HYZ Hbody Hin Hs.
  set (Inv (pre : list A) s' := kept_control s s' ∧ framed (tree s') ∧
    ∀ i f, saved_at i f →
      (i ∈ idx <$> pre → at_slot (Y i f) i f (tree s')) ∧
      (i ∉ idx <$> pre → at_slot (X i f) i f (tree s'))).
  eapply (wp_mono _ _ (λ _, Inv xs) _ (λ s', G ∧ slots Z s' ∧ kept_control s s')); [apply wp_for_each| |done].
  - intros pre x post s' Heq (Hc&Hf&HI).
    assert (x ∈ xs) as Hx by (rewrite Heq; set_solver).
    destruct (Hin x Hx) as [f Hxf].
    assert (idx x ∉ idx <$> pre) as Hpre.
    { rewrite Heq, fmap_app in Hnd. cbn [fmap list_fmap] in Hnd.
      apply NoDup_app in Hnd as (_&Hd&_). intros Hp. apply (Hd _ Hp). by left. }
    assert (∀ i, i ∈ idx <$> pre ++ [x] ↔ i ∈ idx <$> pre ∨ i = idx x) as Hsnoc.
    { intros i. rewrite fmap_app, elem_of_app. cbn [fmap list_fmap].
      by rewrite list_elem_of_singleton. }
    eapply wp_mono; [apply (Hbody x f s')| |]; [done..|by apply HI| |].
    + intros [] s'' [Hmv HY]. split; [|split].
      * destruct Hc as [? ?], Hmv as (_&?&?). split; congruence.
      * by eapply moved_framed.
      * intros i g Hi. rewrite Hsnoc. destruct (decide (i = idx x)) as [->|Hne].
        -- assert (g = f) as -> by congruence. split; [done|]. intros Hno. destruct Hno. by right.
        -- split; intros Hi'; eapply (moved_other (idx x) i f g s' s''); eauto; apply HI; naive_solver.
    + intros s'' (HG&Hmv&HZ). split; [done|]. split; [split|].
      * by eapply moved_framed.
      * intros i g Hi. destruct (decide (i = idx x)) as [->|Hne].
        -- assert (g = f) as -> by congruence. done.
        -- eapply (moved_other (idx x) i f g s' s''); eauto.
           destruct (decide (i ∈ idx <$> pre)); [apply HYZ|apply HXZ]; by apply HI.
      * destruct Hc as [? ?], Hmv as (_&?&?). split; congruence.
  - split; [done|]. split; [apply Hs|]. intros i f Hi. split.
    + intros Hn. by apply elem_of_nil in Hn.
    + intros _. by apply Hs.
  - intros [] s' (Hc&Hf&HI). split; [|done]. split; [done|]. intros i f Hi. apply HI; eauto.
Qed.

(** ** The places of a file *)

(** While the journal is there and the marker is not. *)
Definition pending_slot (f : DeliveryJournalFile) : Slot := λ T B I,
  regular T ∧ regular B ∧ regular I ∧
  (T = None ∨ view T = snapshot f ∨ view T = approval f) ∧
  (B = None ∨ view B = snapshot f) ∧
  (B = None → snapshot f = None ∨ view T = snapshot f).
(** Nothing of the candidate is left in the target. *)
Definition withdrawn_slot (f : DeliveryJournalFile) : Slot := λ T B I,
  pending_slot f T B I ∧ I = None ∧ (T = None ∨ view T = snapshot f).
(** The file is as it was, with nothing beside it. *)
Definition restored_slot (f : DeliveryJournalFile) : Slot := λ T B I,
  regular T ∧ view T = snapshot f ∧ B = None ∧ I = None.

Lemma restored_pending f T B I : restored_slot f T B I → pending_slot f T B I.
Proof.
  intros (?&?&->&->). unfold pending_slot. split_and!; simpl; auto.
Qed.

Lemma pending_staged f T B I I' : regular I' → pending_slot f T B I → pending_slot f T B I'.
Proof. unfold pending_slot. tauto. Qed.

Lemma captured_flags i f : saved_at i f →
  original_directory f = false ∧ approved_descendants j f = false.
Proof.
  intros Hi. destruct (saved_file i f Hi) as (g&Hg&Hc). split; [apply Hc|].
  unfold approved_descendants. apply not_true_is_false. intros (o&Ho&Hb)%existsb_exists.
  to_prop. apply list_elem_of_In, list_elem_of_lookup in Ho as [k Hk].
  destruct (saved_elem k o Hk) as (h&Hh&Hp).
  destruct Hc as (Hpath&_). rewrite Hpath, <-Hp in *.
  rewrite (paths_flat Hm g h) in *; [done|by eapply list_elem_of_lookup_2|done].
Qed.

Lemma wp_index_of {A} (l : list A) i x Q E s :
  l !! i = Some x → Q x s → wp faulty (index_of l i) Q E s.
Proof. intros Hl HQ. unfold index_of. rewrite Hl. by apply wp_ret. Qed.

Lemma wp_matches_snapshot p f c mode Q E s : tree s !! p = Some (FileNode c mode) →
  Q (bool_decide (snapshot f = Some (digest_of c, is_executable mode))) s →
  wp faulty (matches_snapshot_cap p f) Q E s.
Proof.
  intros Hp HQ. unfold matches_snapshot_cap, snapshot in *.
  destruct (original_digest f) as [d|]; [|by apply wp_ret].
  apply wp_bind. unfold digest_is. apply wp_catch, wp_bind. eapply wp_digest; [done|]. apply wp_ret. simpl in HQ.
  destruct (decide (digest_of c = d)) as [Hd|Hd];
    [rewrite (bool_decide_true (digest_of c = d)) by done
    |rewrite (bool_decide_false (digest_of c = d)) by done].
  - eapply wp_executable; [done|].
    replace (Bool.eqb _ _) with (bool_decide (Some (d, original_executable f) =
      Some (digest_of c, is_executable mode))); [done|].
    apply eq_true_iff_eq. rewrite bool_decide_eq_true, Bool.eqb_true_iff. split; congruence.
  - apply wp_ret. rewrite bool_decide_false in HQ; [done|]. congruence.
Qed.

Lemma wp_matches_approved p f c mode Q E s : tree s !! p = Some (FileNode c mode) →
  Q (bool_decide (approval f = Some (digest_of c, is_executable mode))) s →
  wp faulty (matches_approved_cap p f) Q E s.
Proof.
  intros Hp HQ. unfold matches_approved_cap, approval in *.
  destruct (approved_digest f) as [d|]; [|by apply wp_ret].
  apply wp_bind, wp_metadata. rewrite Hp. apply wp_bind. eapply wp_digest; [done|]. simpl in HQ.
  destruct (decide (digest_of c = d)) as [Hd|Hd];
    [rewrite (bool_decide_true (digest_of c = d)) by done
    |rewrite (bool_decide_false (digest_of c = d)) by done].
  - eapply wp_executable; [done|].
    replace (Bool.eqb _ _) with (bool_decide (Some (d, approved_executable f) =
      Some (digest_of c, is_executable mode))); [done|].
    apply eq_true_iff_eq. rewrite bool_decide_eq_true, Bool.eqb_true_iff. split; congruence.
  - apply wp_ret. rewrite bool_decide_false in HQ; [done|]. congruence.
Qed.

Lemma place_facts i f : saved_at i f →
  saved_path f ≠ backup i ∧ saved_path f ≠ incoming i ∧ backup i ≠ incoming i.
Proof.
  intros Hi. split_and!.
  - by eapply target_not_backup.
  - by eapply target_not_incoming.
  - apply backup_not_incoming.
Qed.

(** ** Rolling back *)

Lemma withdraw_ok i f s : saved_at i f → at_slot (pending_slot f) i f (tree s) →
  wp faulty (withdraw j i)
    (λ _ s', moved i f s s' ∧ at_slot (withdrawn_slot f) i f (tree s'))
    (λ s', faulty ∧ moved i f s s' ∧ at_slot (pending_slot f) i f (tree s')) s.
Proof.
  intros Hi Hs. destruct (place_facts i f Hi) as (N1&N2&N3).
  destruct (captured_flags i f Hi) as [Hdir Hdesc].
  unfold at_slot in *.
  assert (∀ s1, moved i f s s1 → pending_slot f (tree s1 !! saved_path f) (tree s1 !! backup i)
      (tree s1 !! incoming i) →
    (tree s1 !! saved_path f = None ∨ view (tree s1 !! saved_path f) = snapshot f) →
    wp faulty (remove_file_if_exists (incoming i))
      (λ _ s', moved i f s s' ∧ withdrawn_slot f (tree s' !! saved_path f) (tree s' !! backup i)
        (tree s' !! incoming i))
      (λ s', faulty ∧ moved i f s s' ∧ pending_slot f (tree s' !! saved_path f)
        (tree s' !! backup i) (tree s' !! incoming i)) s1) as Hfinish.
  { intros s1 Hmv Hp HT. apply wp_remove_file_if_exists; [done| | |].
    - intros Hd. destruct Hp as (_&_&HI&_). by rewrite Hd in HI.
    - intros HI. split; [done|]. by split.
    - split; [eapply moved_trans; [done|]; apply moved_delete; by right; right|]. simpl.
      look.
      split; [by eapply pending_staged|done]. }
  unfold withdraw. apply wp_bind. eapply wp_index_of; [done|].
  apply wp_bind, wp_metadata. rewrite <-!incoming_of_eq. apply wp_bind.
  pose proof Hs as (RT&RB&RI&HT&HB&HBT).
  destruct (tree s !! saved_path f) as [[c mode| | |]|] eqn:Htarget; try done.
  - apply wp_bind. eapply wp_matches_snapshot; [done|]. case_bool_decide as Hsnap.
    + apply wp_ret, Hfinish; rewrite ?Htarget; [apply moved_refl|done|by right].
    + assert (approval f = Some (digest_of c, is_executable mode)) as Happ.
      { destruct HT as [?|[Hv|Hv]]; [done| |by rewrite <-Hv]. by destruct Hsnap. }
      apply wp_bind. eapply wp_matches_approved; [done|]. rewrite bool_decide_true by done.
      apply wp_change; [intros; split_and!; [done|apply moved_refl|by rewrite Htarget]|].
      unfold op_remove_file. rewrite Htarget.
      apply Hfinish; simpl; look.
      * apply moved_delete. by left.
      * split_and!; simpl; auto. intros HBn. destruct (HBT HBn) as [?|Hv]; [by left|].
        by destruct Hsnap.
      * by left.
  - apply wp_ret, Hfinish; rewrite ?Htarget; [apply moved_refl|done|by left].
Qed.

Lemma withdraw_directory_ok i f s (Φ : Slot) : saved_at i f → at_slot Φ i f (tree s) →
  wp faulty (withdraw_directory j i) (λ _ s', moved i f s s' ∧ at_slot Φ i f (tree s'))
    (λ s', faulty ∧ moved i f s s' ∧ at_slot Φ i f (tree s')) s.
Proof.
  intros Hi Hs. destruct (captured_flags i f Hi) as [Hdir Hdesc].
  unfold withdraw_directory. apply wp_bind. eapply wp_index_of; [done|].
  rewrite Hdir, Hdesc. apply wp_ret. split; [apply moved_refl|done].
Qed.

(** The directories above a file that was there are still there. *)
Lemma framed_dirs i f t q : saved_at i f → framed t → snapshot f ≠ None → above q (saved_path f) →
  t !! q = Some DirNode.
Proof.
  intros Hi Hf Hsnap Hq. destruct (saved_file i f Hi) as (g&Hg&Hp&_&_&_&_&Hv).
  assert (t0 !! q = Some DirNode) as Hq0.
  { rewrite Hp in Hq. destruct (t0 !! path g) as [n|] eqn:Hn; [|by rewrite Hv in Hsnap].
    by eapply (rooted Ht0). }
  destruct (Hf q) as [?|(?&_&_)]; [|congruence|congruence].
  intros (k&h&Hk&Hplace). eapply (ancestor_not_place q k h); [done| |done].
  exists g. rewrite <-Hp. split; [by eapply list_elem_of_lookup_2|done].
Qed.

Lemma wp_dirs_there l s Q E : (∀ q, q ∈ l → tree s !! q = Some DirNode) → Q tt s →
  wp faulty (m_for_each ensure_dir l) Q E s.
Proof.
  intros Hl HQ. induction l as [|q l IH]; [by apply wp_ret|].
  cbn [m_for_each]. apply wp_bind. unfold ensure_dir at 1. apply wp_bind, wp_get_tree.
  rewrite Hl by by left. apply wp_ret, IH. intros. apply Hl. by right.
Qed.

Lemma wp_parents_there p Q E s : (∀ q, above q p → tree s !! q = Some DirNode) → Q tt s →
  wp faulty (create_parents p) Q E s.
Proof.
  intros Hq HQ. unfold create_parents. case_bool_decide; [by apply wp_ret|].
  apply wp_dirs_there; [|done]. intros q Hin. by apply Hq.
Qed.

Lemma has_parent_there t p : whole_segments p → (∀ q, above q p → t !! q = Some DirNode) →
  has_parent t p = true.
Proof.
  intros Hp Hq. unfold has_parent. case_bool_decide as Hne; [done|].
  rewrite (Hq (parent_path p)); [done|]. by apply parent_above.
Qed.

Lemma restore_ok i f s : saved_at i f → framed (tree s) →
  at_slot (withdrawn_slot f) i f (tree s) →
  wp faulty (restore j i)
    (λ _ s', moved i f s s' ∧ at_slot (restored_slot f) i f (tree s'))
    (λ s', faulty ∧ moved i f s s' ∧ at_slot (pending_slot f) i f (tree s')) s.
Proof.
  intros Hi Hf Hs. destruct (place_facts i f Hi) as (N1&N2&N3).
  destruct (captured_flags i f Hi) as [Hdir _]. unfold at_slot in *.
  destruct Hs as (Hp&HI&HTs). pose proof Hp as (RT&RB&_&HT&HB&HBT).
  unfold restore. apply wp_bind. eapply wp_index_of; [done|]. rewrite Hdir. rewrite <-!backup_of_eq.
  apply wp_bind, wp_metadata.
  destruct (tree s !! backup i) as [[c mode| | |]|] eqn:Hbackup; try done.
  2:{ apply wp_ret. split; [apply moved_refl|]. unfold restored_slot. split_and!; [done| |done|done].
      destruct (HBT eq_refl) as [Hn|?]; [|done]. destruct HTs as [HTn|?]; [|done].
      by rewrite HTn, Hn. }
  destruct HB as [?|HB]; [done|]. simpl in HB.
  apply wp_bind. eapply wp_matches_snapshot; [done|]. rewrite bool_decide_true by done.
  apply wp_bind, wp_metadata. cbn [negb]. apply wp_bind.
  destruct (tree s !! saved_path f) as [[c' mode'| | |]|] eqn:Htarget; try done.
  - destruct HTs as [?|HTs]; [done|].
    apply wp_bind. eapply wp_matches_snapshot; [done|]. rewrite bool_decide_true by done.
    apply wp_fail_if; [intros _|done].
    apply wp_change; [intros; split_and!; [done|apply moved_refl|by rewrite Htarget, Hbackup]|].
    unfold op_remove_file. rewrite Hbackup. simpl.
    look.
    split; [apply moved_delete; by right; left|]. rewrite Htarget. unfold restored_slot. by split_and!.
  - assert (∀ q, above q (saved_path f) → tree s !! q = Some DirNode) as Hdirs.
    { intros q. eapply framed_dirs; [done..|]. by rewrite <-HB. }
    apply wp_bind, wp_parents_there; [done|].
    apply wp_change; [intros; split_and!; [done|apply moved_refl|by rewrite Htarget, Hbackup]|].
    unfold op_hard_link. rewrite Hbackup, Htarget, has_parent_there; [| |done].
    2:{ destruct (saved_elem i f Hi) as (g&?&<-). by apply Hm. }
    assert (moved i f s (set_tree (<[saved_path f := FileNode c mode]> (tree s)) s)) as Hmv.
    { apply moved_insert. by left. }
    apply wp_change; simpl.
    + intros Hfault. split; [done|]. split; [done|]. look.
      rewrite Hbackup, HI. unfold pending_slot. split_and!; simpl; auto.
    + unfold op_remove_file. look. rewrite Hbackup. simpl.
      look.
      split; [|unfold restored_slot; by split_and!].
      apply (moved_place i f s (delete (backup i) (<[saved_path f := FileNode c mode]> (tree s)))).
      intros p (?&?&?)%not_place. by look.
Qed.

(** A rollback restores every file; wherever it stops, another can go on. *)
Lemma slots_mono (Φ Ψ : nat → DeliveryJournalFile → Slot) s :
  (∀ i f T B I, Φ i f T B I → Ψ i f T B I) → slots Φ s → slots Ψ s.
Proof. intros Hmono [Hf Hs]. split; [done|]. intros i f Hi. by apply Hmono, Hs. Qed.

Lemma kept_control_trans s1 s2 s3 : kept_control s1 s2 → kept_control s2 s3 → kept_control s1 s3.
Proof. unfold kept_control. intros [? ?] [? ?]. split; congruence. Qed.

(** The orders of the loops go through every index once. *)
Definition all_indices (l : list nat) : Prop := l ≡ₚ seq 0 (length (journal_files j)).

Lemma rollback_order_all : all_indices (rollback_order j).
Proof. apply merge_sort_Permutation. Qed.
Lemma apply_order_all : all_indices (apply_order m).
Proof.
  unfold all_indices, apply_order. rewrite (Forall2_length _ _ _ (fits_files Hj)).
  apply merge_sort_Permutation.
Qed.

Lemma wp_indices (body : nat → fs unit) l (G : Prop) (X Y Z : nat → DeliveryJournalFile → Slot) s :
  all_indices l →
  (∀ i f T B I, X i f T B I → Z i f T B I) → (∀ i f T B I, Y i f T B I → Z i f T B I) →
  (∀ i f s', saved_at i f → framed (tree s') → at_slot (X i f) i f (tree s') →
     wp faulty (body i) (λ _ s'', moved i f s' s'' ∧ at_slot (Y i f) i f (tree s''))
       (λ s'', G ∧ moved i f s' s'' ∧ at_slot (Z i f) i f (tree s'')) s') →
  slots X s →
  wp faulty (m_for_each body l) (λ _ s', slots Y s' ∧ kept_control s s')
    (λ s', G ∧ slots Z s' ∧ kept_control s s') s.
Proof.
  unfold all_indices. intros Hl HXZ HYZ Hbody Hs.
  assert (∀ i, i ∈ l ↔ i < length (journal_files j)) as Hin.
  { intros i. rewrite Hl, elem_of_seq. lia. }
  apply (wp_slots id body l G X Y Z); rewrite ?list_fmap_id; try done.
  - rewrite Hl. apply NoDup_seq.
  - intros i f Hi. apply Hin. by eapply lookup_lt_Some.
  - intros x f s' _. apply Hbody.
  - intros x Hx. by apply lookup_lt_is_Some, Hin.
Qed.

Lemma rollback_slots s (k : fs unit) (Q : unit → State → Prop) (E : State → Prop) :
  slots (λ _, pending_slot) s →
  (∀ s', slots (λ _, restored_slot) s' → kept_control s s' → wp faulty k Q E s') →
  (∀ s', faulty → slots (λ _, pending_slot) s' → kept_control s s' → E s') →
  wp faulty
    (_ ← m_for_each (withdraw j) (rollback_order j);
     _ ← m_for_each (withdraw_directory j) (reverse (rollback_order j));
     _ ← m_for_each (restore j) (rollback_order j);
     k) Q E s.
Proof.
  intros Hs HQ HE. apply wp_bind. eapply wp_mono.
  { apply (wp_indices _ _ faulty (λ _, pending_slot) (λ _, withdrawn_slot) (λ _, pending_slot));
      [apply rollback_order_all|done|by intros ????? [? _]|by intros; apply withdraw_ok|done]. }
  2:{ intros s' (?&?&?). by apply HE. }
  intros _ s1 [Hs1 Hk1]. apply wp_bind. eapply wp_mono.
  { apply (wp_indices _ _ faulty (λ _, withdrawn_slot) (λ _, withdrawn_slot) (λ _, withdrawn_slot));
      [by unfold all_indices; rewrite reverse_Permutation; apply rollback_order_all|done|done
      |by intros; apply withdraw_directory_ok|done]. }
  2:{ intros s2 (Hfault&Hs2&Hk2). apply HE; [done| |by eapply kept_control_trans].
      eapply slots_mono; [|done]. by intros ????? [? _]. }
  intros _ s2 [Hs2 Hk2]. pose proof (kept_control_trans _ _ _ Hk1 Hk2) as Hk.
  apply wp_bind. eapply wp_mono.
  { apply (wp_indices _ _ faulty (λ _, withdrawn_slot) (λ _, restored_slot) (λ _, pending_slot));
      [apply rollback_order_all|by intros ????? [? _]|intros ?????; apply restored_pending
      |by intros; apply restore_ok|done]. }
  - intros _ s3 [Hs3 Hk3]. apply HQ; [done|]. by eapply kept_control_trans.
  - intros s3 (Hfault&Hs3&Hk3). apply HE; [done..|]. by eapply kept_control_trans.
Qed.

(** ** The payload and the manifest *)

(** What [validate_payload] establishes: the payload holds each file that stays
    once, with the content and the mode the manifest approves. *)
Record carried (es : list CandidateFilePayload) : Prop := {
  carried_nodup : NoDup (payload_path <$> es);
  carried_kept f : f ∈ files m → is_deleted (kind f) = false → ∃ e, e ∈ es ∧
    payload_path e = path f ∧ file_digest f = Some (digest_of (payload_content e)) ∧
    executable f = payload_executable e;
  carried_deleted f e : f ∈ files m → is_deleted (kind f) = true → e ∈ es →
    payload_path e ≠ path f;
}.

Lemma observe_fold_nodup es acc acc' : try_fold observe_file acc es = Ok acc' →
  NoDup (payload_path <$> es) ∧ Forall (λ e, acc !! payload_path e = None) es.
Proof.
  revert acc. induction es as [|e es IH]; intros acc; cbn [try_fold]; [by repeat constructor|].
  unfold observe_file at 1. destruct (acc !! payload_path e) eqn:He; [done|].
  intros [Hnd Hall]%IH. rewrite Forall_forall in Hall.
  cbn [fmap list_fmap]. rewrite NoDup_cons, Forall_cons, Forall_forall. split_and!; try done.
  - intros (e'&Hpath&He')%list_elem_of_fmap. specialize (Hall e' He').
    by rewrite <-Hpath, lookup_insert_eq in Hall.
  - intros e' He'. specialize (Hall e' He'). by apply lookup_insert_None in Hall as [? _].
Qed.

Lemma validated_carried diff es : validate_payload m diff es = Ok tt → carried es.
Proof.
  unfold validate_payload. intros [_ Hrun]%result_then_ok.
  apply result_then_ok in Hrun as [_ Hrun]. next_ok Hrun as (payload&_&Hrun).
  apply result_then_ok in Hrun as [_ Hrun]. next_ok Hrun as (expected&Hexp&Hrun).
  next_ok Hrun as (observed&Hobs&Hrun). case_bool_decide as Heq; [subst observed|done].
  pose proof (observe_fold_nodup _ _ _ Hobs) as [Hnd _].
  assert ((held_file <$> es).*1 = payload_path <$> es) as Hpaths.
  { rewrite <-list_fmap_compose. done. }
  assert (Forall digest_state (files m)) as Hstate.
  { apply Forall_forall. intros f Hf. by apply Hm. }
  rewrite expect_fold in Hexp by done.
  rewrite observe_fold in Hobs; [|by rewrite Hpaths|by apply Forall_true].
  injection Hexp as <-. injection Hobs as Hobs.
  assert (NoDup (omap kept_file (files m)).*1) as Hk.
  { eapply sublist_NoDup; [apply Hm|apply kept_paths]. }
  rewrite !fold_insert_map, !(right_id_L ∅ (∪)) in Hobs by (by rewrite ?Hpaths).
  assert (∀ p v, (p, v) ∈ held_file <$> es ↔ (p, v) ∈ omap kept_file (files m)) as Hiff.
  { intros p v. rewrite !(elem_of_list_to_map (M := gmap string)) by (by rewrite ?Hpaths).
    by rewrite Hobs. }
  split; [done| |].
  - intros f Hf Hdel. destruct (file_digest f) as [d|] eqn:Hd.
    2:{ pose proof (digests_stated Hm f Hf) as [_ Hx]. rewrite Hx in Hdel; done. }
    assert ((path f, (d, executable f)) ∈ omap kept_file (files m)) as Hin.
    { apply list_elem_of_omap. exists f. split; [done|]. unfold kept_file. by rewrite Hdel, Hd. }
    apply Hiff, list_elem_of_fmap in Hin as (e&He&Hin). unfold held_file in He. simplify_eq.
    by exists e.
  - intros f e Hf Hdel He Hpath.
    assert (held_file e ∈ held_file <$> es) as Hin by by apply list_elem_of_fmap_2.
    unfold held_file in Hin at 1. apply Hiff, list_elem_of_omap in Hin as (g&Hg&Hkept).
    unfold kept_file in Hkept. destruct (is_deleted (kind g)) eqn:Hdel'; [done|].
    destruct (file_digest g); simplify_eq/=.
    assert (f = g) as ->; [|congruence].
    apply list_elem_of_lookup in Hf as [a Ha]. apply list_elem_of_lookup in Hg as [b Hb].
    assert (a = b) as ->; [|congruence].
    eapply (NoDup_lookup (path <$> files m)); [apply Hm| |]; rewrite list_lookup_fmap.
    + by rewrite Ha.
    + rewrite Hb. simpl. congruence.
Qed.

Context (es : list CandidateFilePayload) (Hes : carried es).

Lemma fold_payload {V} (g : CandidateFilePayload → V) e : e ∈ es →
  foldl (λ acc file, <[payload_path file := g file]> acc) (∅ : gmap string V) es !! payload_path e
    = Some (g e).
Proof.
  intros He.
  assert (∀ l (acc : gmap string V), foldl (λ acc file, <[payload_path file := g file]> acc) acc l =
    foldl (λ acc p, <[p.1 := p.2]> acc) acc ((λ file, (payload_path file, g file)) <$> l)) as Hmap.
  { induction l as [|x l IH]; [done|]. intros acc. apply IH. }
  assert (((λ file, (payload_path file, g file)) <$> es).*1 = payload_path <$> es) as Hpaths.
  { rewrite <-list_fmap_compose. done. }
  rewrite Hmap, fold_insert_map, (right_id_L ∅ (∪)); [|rewrite Hpaths; apply Hes].
  apply elem_of_list_to_map; [rewrite Hpaths; apply Hes|].
  apply (list_elem_of_fmap_2 (λ file, (payload_path file, g file))). done.
Qed.

Lemma fold_payload_none {V} (g : CandidateFilePayload → V) p : (∀ e, e ∈ es → payload_path e ≠ p) →
  foldl (λ acc file, <[payload_path file := g file]> acc) (∅ : gmap string V) es !! p = None.
Proof.
  assert (∀ l (acc : gmap string V), (∀ e, e ∈ l → payload_path e ≠ p) → acc !! p = None →
    foldl (λ acc file, <[payload_path file := g file]> acc) acc l !! p = None) as Hgen.
  { induction l as [|x l IH]; [done|]. intros acc Hl Hacc. apply IH.
    - intros e He. apply Hl. by right.
    - rewrite lookup_insert_ne; [done|]. apply Hl. by left. }
  intros Hp. by apply Hgen.
Qed.

Lemma find_payload e : e ∈ es →
  find (λ exact, bool_decide (payload_path exact = payload_path e)) es = Some e.
Proof.
  intros He. destruct (find _ es) as [e'|] eqn:Hfind.
  - apply find_some in Hfind as [He' Heq]. to_prop. apply list_elem_of_In in He'. f_equal.
    apply list_elem_of_lookup in He as [a Ha]. apply list_elem_of_lookup in He' as [b Hb].
    assert (a = b) as ->; [|congruence].
    eapply (NoDup_lookup (payload_path <$> es)); [apply Hes| |]; rewrite list_lookup_fmap.
    + by rewrite Ha.
    + rewrite Hb. simpl. congruence.
  - eapply find_none in Hfind; [|by apply list_elem_of_In]. by to_prop.
Qed.

(** ** The check of a delivery *)

(** The target of a file is what the manifest approves. *)
Definition accepted_file (t : Tree) (f : CandidateFile) : Prop :=
  regular (t !! path f) ∧ view (t !! path f) = approved f.

Lemma no_descendant f (c : CandidateFile → bool) : f ∈ files m →
  existsb (λ other, c other && below (path f) (path other)) (files m) = false.
Proof.
  intros Hf. apply not_true_is_false. intros (g&Hg&Hb)%existsb_exists. to_prop.
  apply list_elem_of_In in Hg. by rewrite (paths_flat Hm f g) in *.
Qed.

Lemma wp_verify_file f Q E s : f ∈ files m →
  (∀ b : bool, (b = true ↔ accepted_file (tree s) f) → Q b s) →
  wp faulty (verify_file m (modes_of es) f) Q E s.
Proof.
  intros Hf HQ. unfold verify_file. apply wp_bind, wp_metadata.
  pose proof (digests_stated Hm f Hf) as Hstate. unfold digest_state in Hstate.
  unfold accepted_file, approved in HQ.
  destruct (is_deleted (kind f)) eqn:Hdel.
  - assert (kind f = Deleted) as -> by by destruct (kind f).
    rewrite (proj1 Hstate eq_refl) in HQ. simpl in HQ.
    destruct (tree s !! path f) as [n|]; apply wp_ret, HQ; [|done].
    rewrite no_descendant by done. rewrite andb_false_r. destruct n; simpl; (split; [done|by intros [??]]).
  - destruct (carried_kept _ Hes f Hf Hdel) as (e&He&Hpath&Hd&Hexec).
    assert (wp faulty (match tree s !! path f with
      | Some (FileNode _ _) => observed ← digest (path f); approved ← expect (file_digest f);
          if negb (bool_decide (observed = approved)) then mret false else
          mode ← lift (ok_or PayloadMismatch (modes_of es !! path f));
          executable_matches_cap (path f) mode
      | _ => mret false end) Q E s) as Hwp; [|by destruct (kind f)].
    rewrite Hd in *. simpl in HQ.
    destruct (tree s !! path f) as [[c mode| | |]|] eqn:Ht;
      try (apply wp_ret, HQ; simpl; split; [done|by intros [??]]).
    apply wp_bind. eapply wp_digest; [done|]. apply wp_bind. apply wp_ret.
    destruct (decide (digest_of c = digest_of (payload_content e))) as [Heq|Hne].
    + rewrite bool_decide_true by done. apply wp_bind, wp_lift; simpl.
      * intros a Ha. unfold modes_of in Ha. rewrite <-Hpath, fold_payload in Ha by done.
        simplify_eq/=. eapply wp_executable; [done|]. apply HQ. rewrite Bool.eqb_true_iff.
        rewrite Heq, Hexec. split; [by intros ->|]. intros [_ ?]. congruence.
      * unfold modes_of. rewrite <-Hpath, fold_payload by done. done.
    + rewrite bool_decide_false by done. apply wp_ret, HQ. split; [done|]. intros [_ Hv]. simpl in Hv. congruence.
Qed.

Lemma wp_verify Q E s :
  (∀ b : bool, (b = true ↔ ∀ f, f ∈ files m → accepted_file (tree s) f) → Q b s) →
  wp faulty (verify_promoted_fs m es) Q E s.
Proof.
  unfold verify_promoted_fs.
  assert (∀ l, (∀ f, f ∈ l → f ∈ files m) → ∀ Q,
    (∀ b : bool, (b = true ↔ ∀ f, f ∈ l → accepted_file (tree s) f) → Q b s) →
    wp faulty (verify_all m (modes_of es) l) Q E s) as Hgen.
  { clear Q. induction l as [|f l IH]; intros Hl Q HQ; cbn [verify_all].
    - apply wp_ret, HQ. split; [|done]. intros _ f Hf. by apply elem_of_nil in Hf.
    - apply wp_bind, wp_verify_file; [apply Hl; by left|]. intros b Hb. destruct b.
      + apply IH; [intros; apply Hl; by right|]. intros b Hb'. apply HQ. rewrite Hb'.
        split; intros Hall g Hg.
        * apply elem_of_cons in Hg as [->|Hg]; [by apply Hb|by apply Hall].
        * apply Hall. by right.
      + apply wp_ret, HQ. split; [done|]. intros Hall. apply Hb, Hall. by left. }
  intros HQ. by apply Hgen.
Qed.

(** ** Staging and installing *)

(** The new content waits beside the tree. *)
Definition staged_slot (f : DeliveryJournalFile) : Slot := λ T B I,
  regular T ∧ view T = snapshot f ∧ B = None ∧ regular I ∧ view I = approval f.
(** The way is free. *)
Definition displaced_slot (f : DeliveryJournalFile) : Slot := λ T B I,
  T = None ∧ regular B ∧ view B = snapshot f ∧ regular I ∧ view I = approval f.
(** The new content is in place. *)
Definition installed_slot (f : DeliveryJournalFile) : Slot := λ T B I,
  regular T ∧ view T = approval f ∧ regular B ∧ view B = snapshot f ∧ I = None.

Lemma regular_view_none o : regular o → view o = None → o = None.
Proof. by destruct o as [[]|]. Qed.

Lemma staged_pending f T B I : staged_slot f T B I → pending_slot f T B I.
Proof. intros (?&?&->&?&?). unfold pending_slot. split_and!; simpl; auto. Qed.
Lemma displaced_pending f T B I : displaced_slot f T B I → pending_slot f T B I.
Proof.
  intros (->&?&?&?&?). unfold pending_slot. split_and!; simpl; auto. intros ->. by left.
Qed.
Lemma installed_pending f T B I : installed_slot f T B I → pending_slot f T B I.
Proof.
  intros (?&?&?&Hv&->). unfold pending_slot. split_and!; simpl; auto.
  intros ->. by left.
Qed.

Lemma file_at i f g : saved_at i f → files m !! i = Some g → captured f g.
Proof. intros Hi Hg. destruct (saved_file i f Hi) as (g'&Hg'&Hc). by simplify_eq. Qed.

Lemma captured_approval f g : captured f g → approval f = approved g.
Proof. intros (_&Hd&He&_). unfold approval, approved. by rewrite Hd, He. Qed.

(** A check of a destination only reads. *)
Lemma wp_validate_destination p (Q : unit → State → Prop) E s :
  Q tt s → E s → wp faulty (validate_destination m p) Q E s.
Proof.
  intros HQ HE. unfold validate_destination. generalize "". induction (segments p) as [|w l IH].
  - intros prefix. by apply wp_ret.
  - intros prefix. cbn [validate_components]. apply wp_bind, wp_metadata.
    destruct (tree s !! _); [|apply IH]. case_match; [by apply wp_failed|apply IH].
Qed.

Lemma wp_write_new_file mode p c (Q : unit → State → Prop) E s :
  E s → (∀ c mode, E (set_tree (<[p := FileNode c mode]> (tree s)) s)) →
  Q tt (set_tree (<[p := FileNode c mode]> (tree s)) s) →
  wp faulty (write_new_file mode p c) Q E s.
Proof.
  intros HE HEc HQ. unfold write_new_file. apply wp_bind, wp_catch, wp_change.
  { intros _. split; [done|]. intros e. by apply wp_failed. }
  unfold op_create_new. destruct (tree s !! p) as [n|] eqn:Hp.
  { split; [done|]. intros e. by apply wp_failed. }
  destruct (has_parent (tree s) p).
  2:{ split; [done|]. intros e. by apply wp_failed. }
  apply wp_bind, wp_catch, wp_operate; unfold op_write; cbn [tree set_tree];
    rewrite lookup_insert_eq.
  { intros _ n. rewrite insert_insert_eq. split; [intros _; apply HEc|].
    intros e. apply wp_failed. apply HEc. }
  rewrite insert_insert_eq. apply wp_catch, wp_sync; [|done].
  intros _. split; [intros _; apply HEc|]. intros e. apply wp_failed. apply HEc.
Qed.

Lemma executable_mode_view (b : bool) : is_executable (executable_mode b) = b.
Proof. by destruct b. Qed.

Lemma stage_ok i g f s : files m !! i = Some g → saved_at i f → at_slot (restored_slot f) i f (tree s) →
  wp faulty (stage m es j (i, g))
    (λ _ s', moved i f s s' ∧ at_slot (staged_slot f) i f (tree s'))
    (λ s', moved i f s s' ∧ at_slot (pending_slot f) i f (tree s')) s.
Proof.
  intros Hg Hi Hs. destruct (place_facts i f Hi) as (N1&N2&N3). unfold at_slot in *.
  pose proof (file_at i f g Hi Hg) as Hc. pose proof (captured_approval f g Hc) as Happ.
  assert (g ∈ files m) as Hin by by eapply list_elem_of_lookup_2.
  assert (moved i f s s ∧ pending_slot f (tree s !! saved_path f) (tree s !! backup i)
    (tree s !! incoming i)) as HE.
  { split; [apply moved_refl|]. by apply restored_pending. }
  unfold stage. apply wp_bind, wp_validate_destination; [|done].
  destruct (is_deleted (kind g)) eqn:Hdel.
  - unfold contents_of. rewrite fold_payload_none by (intros e; by apply Hes).
    apply wp_ret. split; [apply moved_refl|]. destruct Hs as (?&?&?&HI).
    assert (approval f = None) as Hnone.
    { rewrite Happ. unfold approved. by rewrite (proj1 (digests_stated Hm g Hin) Hdel). }
    unfold staged_slot. rewrite HI, Hnone. by split_and!.
  - destruct (carried_kept _ Hes g Hin Hdel) as (e&He&Hpath&Hd&Hexec).
    unfold contents_of. rewrite <-Hpath, fold_payload by done. rewrite <-!incoming_of_eq.
    assert (∀ c mode, moved i f s (set_tree (<[incoming i := FileNode c mode]> (tree s)) s) ∧
      pending_slot f (<[incoming i := FileNode c mode]> (tree s) !! saved_path f)
        (<[incoming i := FileNode c mode]> (tree s) !! backup i)
        (<[incoming i := FileNode c mode]> (tree s) !! incoming i)) as HEc.
    { intros c mode. split; [apply moved_insert; by right; right|]. look.
      eapply pending_staged; [|apply HE]. done. }
    apply wp_bind, wp_write_new_file; [done|done|].
    rewrite find_payload by done. apply wp_bind, wp_lift; [|done].
    intros a Ha. simpl in Ha. simplify_eq. unfold set_executable_cap.
    apply wp_bind, wp_change; [intros _; apply HEc|]. unfold op_set_mode. cbn [tree set_tree].
    rewrite lookup_insert_eq, insert_insert_eq.
    apply wp_sync; [intros _; apply HEc|]. split; [apply HEc|]. cbn [tree set_tree]. look.
    destruct Hs as (?&?&?&_). unfold staged_slot. split_and!; try done. simpl.
    rewrite executable_mode_view, Happ. unfold approved. by rewrite Hd, Hexec.
Qed.

Lemma displace_ok i f s : saved_at i f → at_slot (staged_slot f) i f (tree s) →
  wp faulty (displace m j i)
    (λ _ s', moved i f s s' ∧ at_slot (displaced_slot f) i f (tree s'))
    (λ s', moved i f s s' ∧ at_slot (pending_slot f) i f (tree s')) s.
Proof.
  intros Hi Hs. destruct (place_facts i f Hi) as (N1&N2&N3). unfold at_slot in *.
  destruct (saved_file i f Hi) as (g&Hg&Hc). pose proof Hc as (Hpath&_).
  assert (moved i f s s ∧ pending_slot f (tree s !! saved_path f) (tree s !! backup i)
    (tree s !! incoming i)) as HE.
  { split; [apply moved_refl|]. by apply staged_pending. }
  pose proof Hs as (RT&HT&HB&RI&HI).
  unfold displace. apply wp_bind. eapply wp_index_of; [done|]. rewrite <-Hpath.
  apply wp_bind, wp_validate_destination; [|done].
  apply wp_bind, wp_metadata. rewrite <-!backup_of_eq.
  destruct (tree s !! saved_path f) as [[c mode| | |]|] eqn:Htarget; try done.
  2:{ apply wp_ret. split; [apply moved_refl|]. rewrite Htarget, HB. by split_and!. }
  simpl in HT. apply wp_bind, wp_metadata. rewrite HB. apply wp_bind, wp_fail_if; [intros _|done].
  apply wp_bind, wp_change; [by rewrite Htarget|].
  unfold op_rename. rewrite Htarget. destruct (has_parent (tree s) (backup i)).
  2:{ done. }
  rewrite HB, bool_decide_false by done. cbn [negb].
  set (t := <[backup i := FileNode c mode]> (delete (saved_path f) (tree s))).
  assert (moved i f s (set_tree t s)) as Hmv.
  { apply moved_place. intros p (?&?&?)%not_place. subst t. by look. }
  assert (t !! saved_path f = None ∧ t !! backup i = Some (FileNode c mode) ∧
    t !! incoming i = tree s !! incoming i) as (E1&E2&E3) by (subst t; by look).
  assert (displaced_slot f (t !! saved_path f) (t !! backup i) (t !! incoming i)) as Hd.
  { rewrite E1, E2, E3. by split_and!. }
  apply wp_bind. eapply wp_index_of; [done|]. apply wp_bind.
  eapply wp_matches_snapshot; [exact E2|]. rewrite bool_decide_true by done. cbn [negb].
  apply wp_sync.
  - intros _. split; [done|]. by apply displaced_pending.
  - split; done.
Qed.

(** Directories made above the candidate's files. *)
Definition grew (s s' : State) : Prop :=
  (∀ p, grown (tree s) (tree s') p) ∧ kept_control s s'.

Lemma grew_refl s : grew s s.
Proof. split; [intros; apply grown_refl|done]. Qed.
Lemma grew_trans s1 s2 s3 : grew s1 s2 → grew s2 s3 → grew s1 s3.
Proof.
  intros [? ?] [? ?]. split; [|by eapply kept_control_trans]. intros p. by eapply grown_trans.
Qed.
Lemma grew_moved i f s s' : grew s s' → moved i f s s'.
Proof. intros [? [? ?]]. split; auto. Qed.
Lemma grew_slot i f s s' (Φ : Slot) : saved_at i f → grew s s' →
  at_slot Φ i f (tree s) → at_slot Φ i f (tree s').
Proof.
  intros Hi [Hg _]. unfold at_slot.
  assert (∀ p, place i f p → tree s' !! p = tree s !! p) as Hsame.
  { intros p Hp. destruct (Hg p) as [?|(_&_&?)]; [done|]. by destruct (ancestor_not_place p i f). }
  rewrite !Hsame; unfold place; auto.
Qed.
Lemma grew_slots (Φ : nat → DeliveryJournalFile → Slot) s s' :
  grew s s' → slots Φ s → slots Φ s'.
Proof.
  intros Hg [Hf Hs]. split; [|intros i f Hi; eapply grew_slot; eauto].
  intros p Hp. eapply grown_trans; [by apply Hf|apply Hg].
Qed.

Lemma wp_create_dir q (Q : unit → State → Prop) (E : State → Prop) s : ancestor q → tree s !! q = None →
  (∀ s', grew s s' → Q tt s') → E s → wp faulty (create_dir q) Q E s.
Proof.
  intros Hq Hn HQ HE. apply wp_change; [done|]. unfold op_create_dir. rewrite Hn.
  destruct (has_parent (tree s) q); [|done]. apply HQ. split; [|done].
  intros p. destruct (decide (p = q)) as [->|]; [right|left]; simpl; by look.
Qed.

Lemma wp_grow_each {A} (body : A → fs unit) l (Q : unit → State → Prop) (E : State → Prop) s :
  (∀ x s', x ∈ l → wp faulty (body x) (λ _ s'', grew s' s'') (λ s'', grew s' s'') s') →
  (∀ s', grew s s' → Q tt s') → (∀ s', grew s s' → E s') →
  wp faulty (m_for_each body l) Q E s.
Proof.
  intros Hb HQ HE.
  eapply (wp_mono _ _ (λ _, grew s) _ (grew s)); [|intros []; apply HQ|done].
  apply (wp_for_each _ (λ _, grew s)); [|apply grew_refl].
  intros pre x post s' Heq Hg. eapply wp_mono; [apply Hb; rewrite Heq; set_solver| |].
  - intros [] s'' ?. by eapply grew_trans.
  - intros s'' ?. by eapply grew_trans.
Qed.

Lemma wp_ensure_dir q s : ancestor q →
  wp faulty (ensure_dir q) (λ _ s', grew s s') (λ s', grew s s') s.
Proof.
  intros Hq. unfold ensure_dir. apply wp_bind, wp_get_tree.
  destruct (tree s !! q) as [[]|] eqn:Hn;
    [apply wp_failed|apply wp_ret|apply wp_failed|apply wp_failed|]; try apply grew_refl.
  apply wp_create_dir; auto using grew_refl.
Qed.

Lemma wp_create_parents f (Q : unit → State → Prop) (E : State → Prop) s : f ∈ files m →
  (∀ s', grew s s' → Q tt s') → (∀ s', grew s s' → E s') →
  wp faulty (create_parents (path f)) Q E s.
Proof.
  intros Hf HQ HE. unfold create_parents. case_bool_decide as Hne; [apply wp_ret, HQ, grew_refl|].
  apply wp_grow_each; [|done..]. intros q s' Hq. apply wp_ensure_dir. by exists f.
Qed.

Lemma wp_create_ancestors f (Q : unit → State → Prop) (E : State → Prop) s : f ∈ files m →
  (∀ s', grew s s' → Q tt s') → (∀ s', grew s s' → E s') →
  wp faulty (create_ancestors m f) Q E s.
Proof.
  intros Hf HQ HE. unfold create_ancestors.
  destruct (is_deleted_file f); [apply wp_ret, HQ, grew_refl|].
  case_bool_decide as Hne; [apply wp_ret, HQ, grew_refl|].
  apply wp_grow_each; [|done..]. intros q s' Hq. rewrite elem_of_reverse in Hq.
  unfold create_ancestor. case_bool_decide; [apply wp_ret, grew_refl|].
  apply wp_bind, wp_metadata. destruct (tree s' !! q) eqn:Hn; [apply wp_ret, grew_refl|].
  apply wp_create_dir; auto using grew_refl. by exists f.
Qed.

Lemma install_ok i g f s : files m !! i = Some g → saved_at i f →
  at_slot (displaced_slot f) i f (tree s) →
  wp faulty (install m j (i, g))
    (λ _ s', moved i f s s' ∧ at_slot (installed_slot f) i f (tree s'))
    (λ s', moved i f s s' ∧ at_slot (pending_slot f) i f (tree s')) s.
Proof.
  intros Hg Hi Hs. destruct (place_facts i f Hi) as (N1&N2&N3).
  pose proof (file_at i f g Hi Hg) as Hc. pose proof (captured_approval f g Hc) as Happ.
  assert (g ∈ files m) as Hin by by eapply list_elem_of_lookup_2.
  unfold install, is_deleted_file. destruct (is_deleted (kind g)) eqn:Hdel.
  { apply wp_ret. split; [apply moved_refl|]. destruct Hs as (HT&RB&HB&RI&HI).
    assert (approval f = None) as Hnone.
    { rewrite Happ. unfold approved. by rewrite (proj1 (digests_stated Hm g Hin) Hdel). }
    rewrite Hnone in *. apply regular_view_none in HI; [|done].
    unfold at_slot, installed_slot. rewrite HT, HI, Hnone. by split_and!. }
  apply wp_bind, wp_create_parents; [done|intros s1 Hgrew|intros s1 Hgrew].
  2:{ split; [by apply grew_moved|]. eapply grew_slot; [done..|]. by apply displaced_pending. }
  pose proof (grew_moved i f _ _ Hgrew) as Hmv. apply (grew_slot i f s s1) in Hs; [|done..].
  clear Hgrew. unfold at_slot in *.
  set (E := λ s', moved i f s s' ∧ pending_slot f (tree s' !! saved_path f)
    (tree s' !! backup i) (tree s' !! incoming i)).
  assert (E s1) as HE. { split; [done|]. by apply displaced_pending. }
  assert (∀ e : CandidateFreezeError, ∀ Q, wp faulty (match e with
    | Io AlreadyExists => failed (GitFailed "candidate destination was concurrently recreated")
    | _ => failed (GitFailed "candidate no-clobber install failed") end : fs unit) Q E s1) as Hfail.
  { intros e Q. destruct e as [| | | | |[]| | | | | | |]; by apply wp_failed. }
  apply wp_bind, wp_validate_destination; [|done]. rewrite <-!incoming_of_eq.
  pose proof Hs as (HT&RB&HB&RI&HI). destruct Hc as (Hpath&_). rewrite <-Hpath.
  apply wp_bind, wp_catch, wp_change.
  { intros _. by split. }
  unfold op_hard_link. rewrite HT.
  destruct (tree s1 !! incoming i) as [[c mode| | |]|] eqn:Hincoming; try done.
  destruct (has_parent (tree s1) (saved_path f)).
  2:{ by split. }
  set (t := <[saved_path f := FileNode c mode]> (tree s1)).
  assert (moved i f s (set_tree t s1)) as Hmv'.
  { eapply moved_trans; [done|]. apply moved_insert. by left. }
  assert (t !! saved_path f = Some (FileNode c mode) ∧ t !! backup i = tree s1 !! backup i ∧
    t !! incoming i = Some (FileNode c mode)) as (E1&E2&E3) by (subst t; by look).
  assert (E (set_tree t s1)) as HE'.
  { split; [done|]. cbn [tree set_tree]. rewrite E1, E2, E3. unfold pending_slot. split_and!; simpl; auto.
    intros Hn. rewrite Hn in HB. by left. }
  apply wp_bind, wp_catch, wp_change.
  { intros _. split; [done|]. intros e. by apply wp_failed. }
  unfold op_remove_file. cbn [tree set_tree]. rewrite E3.
  assert (moved i f s (set_tree (delete (incoming i) t) s1)) as Hmv''.
  { eapply moved_trans; [exact Hmv'|].
    apply (moved_delete i f (set_tree t s1)). by right; right. }
  assert (installed_slot f (delete (incoming i) t !! saved_path f) (delete (incoming i) t !! backup i)
    (delete (incoming i) t !! incoming i)) as Hins.
  { look. rewrite E1, E2. by split_and!. }
  apply wp_sync; [intros _|]; (split; [done|]); [|done]. by apply installed_pending.
Qed.

Lemma enumerate_fst {A} (l : list A) : (enumerate l).*1 = seq 0 (length l).
Proof.
  unfold enumerate. apply list_eq. intros i. rewrite list_lookup_fmap, list_lookup_imap.
  destruct (decide (i < length l)) as [Hi|Hi].
  - rewrite lookup_seq_lt by done. by destruct (lookup_lt_is_Some_2 l i Hi) as [x ->].
  - rewrite lookup_seq_ge, lookup_ge_None_2 by lia. done.
Qed.

(** The loops over the files with their indices. *)
Lemma wp_enumerate (body : nat * CandidateFile → fs unit) (X Y Z : nat → DeliveryJournalFile → Slot) s :
  (∀ i f T B I, X i f T B I → Z i f T B I) → (∀ i f T B I, Y i f T B I → Z i f T B I) →
  (∀ i g f s', files m !! i = Some g → saved_at i f → at_slot (X i f) i f (tree s') →
     wp faulty (body (i, g)) (λ _ s'', moved i f s' s'' ∧ at_slot (Y i f) i f (tree s''))
       (λ s'', moved i f s' s'' ∧ at_slot (Z i f) i f (tree s'')) s') →
  slots X s →
  wp faulty (m_for_each body (enumerate (files m))) (λ _ s', slots Y s' ∧ kept_control s s')
    (λ s', slots Z s' ∧ kept_control s s') s.
Proof.
  intros HXZ HYZ Hbody Hs.
  pose proof (Forall2_length _ _ _ (fits_files Hj)) as Hlen.
  eapply wp_mono; [apply (wp_slots fst body _ True X Y Z); rewrite ?enumerate_fst; try done|done
    |by intros s' (_&?)].
  - apply NoDup_seq.
  - intros i f Hi. apply elem_of_seq. apply lookup_lt_Some in Hi. lia.
  - intros [i g] f s' Hin Hi _ HX. apply elem_of_lookup_imap in Hin as (i'&g'&[= -> ->]&Hg).
    eapply wp_mono; [by apply Hbody|done|by split].
  - intros [i g] Hin. apply elem_of_lookup_imap in Hin as (i'&g'&[= -> ->]&Hg).
    apply lookup_lt_is_Some. apply lookup_lt_Some in Hg. simpl. lia.
Qed.

Lemma stage_slots s : slots (λ _, restored_slot) s →
  wp faulty (m_for_each (stage m es j) (enumerate (files m)))
    (λ _ s', slots (λ _, staged_slot) s' ∧ kept_control s s')
    (λ s', slots (λ _, pending_slot) s' ∧ kept_control s s') s.
Proof.
  apply wp_enumerate.
  - intros i f T B I. apply restored_pending.
  - intros i f T B I. apply staged_pending.
  - intros. by apply stage_ok.
Qed.

(** The second half of [apply_payload_staged], once everything is staged. *)
Lemma applied_slots s : slots (λ _, staged_slot) s →
  wp faulty
    (_ ← m_for_each (displace m j) (apply_order m);
     _ ← m_for_each (create_ancestors m) (files m);
     _ ← m_for_each (install m j) (enumerate (files m));
     exact ← verify_promoted_fs m es;
     fail_if (negb exact) PayloadMismatch)
    (λ _ s', slots (λ _, installed_slot) s' ∧ kept_control s s')
    (λ s', slots (λ _, pending_slot) s' ∧ kept_control s s') s.
Proof.
  intros Hs. apply wp_bind. eapply wp_mono.
  { apply (wp_indices _ _ True (λ _, staged_slot) (λ _, displaced_slot) (λ _, pending_slot));
      [apply apply_order_all|intros ?????; apply staged_pending|intros ?????; apply displaced_pending
      |intros; eapply wp_mono; [by apply displace_ok|done|by split]|done]. }
  2:{ by intros s' (_&?). }
  intros _ s1 [Hs1 Hk1]. apply wp_bind, wp_grow_each.
  { intros f s' Hf. apply wp_create_ancestors; auto. }
  2:{ intros s2 Hg. split; [|by eapply kept_control_trans; [|apply Hg]].
      eapply grew_slots; [done|]. eapply slots_mono; [|done].
      intros ?????; apply displaced_pending. }
  intros s2 Hg. pose proof (kept_control_trans _ _ _ Hk1 (proj2 Hg)) as Hk2.
  apply (grew_slots (λ _, displaced_slot)) in Hg; [|done]. apply wp_bind. eapply wp_mono.
  { apply (wp_enumerate _ (λ _, displaced_slot) (λ _, installed_slot) (λ _, pending_slot));
      [intros ?????; apply displaced_pending|intros ?????; apply installed_pending
      |intros; by apply install_ok|done]. }
  2:{ intros s3 [Hs3 Hk3]. split; [done|]. by eapply kept_control_trans. }
  intros _ s3 [Hs3 Hk3]. pose proof (kept_control_trans _ _ _ Hk2 Hk3) as Hk.
  apply wp_bind, wp_verify. intros b _. apply wp_fail_if; intros _; (split; [|done]); [done|].
  eapply slots_mono; [|done]. intros ?????; apply installed_pending.
Qed.
End journal.
End safety.
End DeliverySlots.
