(* ===== verification/DeliverySafety.v ===== *)
(** The safety of a delivery: whatever interrupts it, and however often, a
    recovery leaves every file of the candidate as it was, or every file as it
    was approved, and nothing beside them.

    [Undecided] and [Decided] are the states a delivery can be found in, before
    and after its committed marker; each operation of the protocol is shown to
    stay within them wherever it is cut short. *)
From Stdlib Require Import Ascii String.
From S2P Require Import Prelude Text Ids Paths Canonical WorkflowMachine TaskMachine Goals Verdicts.
From S2P Require Import Candidates Redaction Ledger Database StoreCommands StoreCandidates.
From S2P Require Import FileSystem Freeze Delivery DeliverySlots.

Module DeliverySafety.
Export DeliverySlots.

(** * The files under the Git directory *)

(** Sealed: they are told apart by [names_distinct], never by computing them. *)
Definition current_journal_aux : seal (λ m, journal_path DELIVERY_JOURNAL_DIRECTORY (candidate_id m)).
Proof. by eexists. Qed.
Definition current_journal (m : CandidateManifest) : string := unseal current_journal_aux m.
Definition current_committed_aux :
  seal (λ m, committed_path DELIVERY_JOURNAL_DIRECTORY (candidate_id m)).
Proof. by eexists. Qed.
Definition current_committed (m : CandidateManifest) : string := unseal current_committed_aux m.
Definition legacy_journal_aux :
  seal (λ m, journal_path LEGACY_DELIVERY_JOURNAL_DIRECTORY (candidate_id m)).
Proof. by eexists. Qed.
Definition legacy_journal (m : CandidateManifest) : string := unseal legacy_journal_aux m.
Definition legacy_committed_aux :
  seal (λ m, committed_path LEGACY_DELIVERY_JOURNAL_DIRECTORY (candidate_id m)).
Proof. by eexists. Qed.
Definition legacy_committed (m : CandidateManifest) : string := unseal legacy_committed_aux m.
Definition temporary_aux :
  seal (λ m, temporary_path (journal_path DELIVERY_JOURNAL_DIRECTORY (candidate_id m))).
Proof. by eexists. Qed.
Definition journal_temporary (m : CandidateManifest) : string := unseal temporary_aux m.

Lemma current_journal_eq m :
  journal_path DELIVERY_JOURNAL_DIRECTORY (candidate_id m) = current_journal m.
Proof. unfold current_journal. by rewrite seal_eq. Qed.
Lemma current_committed_eq m :
  committed_path DELIVERY_JOURNAL_DIRECTORY (candidate_id m) = current_committed m.
Proof. unfold current_committed. by rewrite seal_eq. Qed.
Lemma legacy_journal_eq m :
  journal_path LEGACY_DELIVERY_JOURNAL_DIRECTORY (candidate_id m) = legacy_journal m.
Proof. unfold legacy_journal. by rewrite seal_eq. Qed.
Lemma legacy_committed_eq m :
  committed_path LEGACY_DELIVERY_JOURNAL_DIRECTORY (candidate_id m) = legacy_committed m.
Proof. unfold legacy_committed. by rewrite seal_eq. Qed.
Lemma temporary_eq m : temporary_path (current_journal m) = journal_temporary m.
Proof. unfold journal_temporary. by rewrite seal_eq, <-current_journal_eq. Qed.

Record names_apart (m : CandidateManifest) : Prop := {
  apart_jc : current_journal m ≠ current_committed m;
  apart_jl : current_journal m ≠ legacy_journal m;
  apart_jlc : current_journal m ≠ legacy_committed m;
  apart_cl : current_committed m ≠ legacy_journal m;
  apart_clc : current_committed m ≠ legacy_committed m;
  apart_tj : journal_temporary m ≠ current_journal m;
  apart_tc : journal_temporary m ≠ current_committed m;
  apart_tl : journal_temporary m ≠ legacy_journal m;
  apart_tlc : journal_temporary m ≠ legacy_committed m;
}.

Lemma names_distinct m : names_apart m.
Proof.
  split; rewrite <-?temporary_eq, <-?current_journal_eq, <-?current_committed_eq,
    <-?legacy_journal_eq, <-?legacy_committed_eq;
    unfold temporary_path, journal_path, committed_path; intros Heq.
  all: rewrite <-?str_app_assoc in Heq.
  all: try (do 3 apply str_app_inv_head in Heq; discriminate Heq).
  all: discriminate Heq.
Qed.

(** * What a delivery may leave *)

Section states.
Context `{Sha256, Persist DeliveryJournal}.
Context (m : CandidateManifest) (t0 : Tree).

(** Nothing but directories above the candidate's files is new. *)
Definition elsewhere (t : Tree) : Prop := ∀ p, p ∉ path <$> files m → grown m t0 t p.
(** A file as it was: the same entry, or one with its content and mode. *)
Definition same_entry (a b : option Node) : Prop :=
  a = b ∨ (regular a ∧ regular b ∧ view a = view b).
Definition as_before (t : Tree) : Prop :=
  elsewhere t ∧ ∀ f, f ∈ files m → same_entry (t0 !! path f) (t !! path f).
Definition as_approved (t : Tree) : Prop :=
  elsewhere t ∧ ∀ f, f ∈ files m → accepted_file t f.

(** The journal is there, and the reservation is bound to it. *)
Definition journaled (j : DeliveryJournal) (s : State) : Prop :=
  fits m t0 j ∧ ∃ enc, json_encode j = Some enc ∧ control s !! current_journal m = Some enc ∧
    reserved s = Some (digest_of enc).
Definition unlegacy (s : State) : Prop :=
  control s !! legacy_journal m = None ∧ control s !! legacy_committed m = None.

(** What has been approved is in place. *)
Definition committed_slot (f : DeliveryJournalFile) : Slot := λ T B I,
  regular T ∧ view T = approval f ∧ regular B ∧ regular I.
Definition clean_slot (f : DeliveryJournalFile) : Slot := λ T B I,
  regular T ∧ view T = approval f ∧ B = None ∧ I = None.

Definition before (s : State) : Prop :=
  unlegacy s ∧ control s !! current_journal m = None ∧ control s !! current_committed m = None ∧
  as_before (tree s).
Definition underway (j : DeliveryJournal) (s : State) : Prop :=
  unlegacy s ∧ journaled j s ∧ control s !! current_committed m = None ∧
  slots m t0 j (λ _, pending_slot) s.
Definition committed (j : DeliveryJournal) (s : State) : Prop :=
  unlegacy s ∧ journaled j s ∧ is_Some (control s !! current_committed m) ∧
  slots m t0 j (λ _, committed_slot) s.
Definition finished (s : State) : Prop :=
  unlegacy s ∧ control s !! current_journal m = None ∧ as_approved (tree s).

Definition Undecided (s : State) : Prop := before s ∨ ∃ j, underway j s.
Definition Decided (s : State) : Prop := (∃ j, committed j s) ∨ finished s.
End states.

Section safety.
Context `{Git, Platform, Sha256, ToJson VerificationEnvironment, ToJson (list (string * string)),
  ToJson (list (string * string * bool)), Persist DeliveryJournal}.
Context (faulty : Prop) (m : CandidateManifest) (t0 : Tree).
Context (Hm : deliverable m) (Ht0 : tidy t0).
Context (Hjson : json_faithful DeliveryJournal).
Context (es : list CandidateFilePayload) (Hes : carried m es).

Abbreviation jf := (current_journal m).
Abbreviation cm := (current_committed m).
Abbreviation slots := (slots m t0).

(** ** Ends of a delivery *)

Lemma untouched_file j f : fits m t0 j → f ∈ files m → ∃ i sf,
  journal_files j !! i = Some sf ∧ captured t0 sf f.
Proof.
  intros Hj Hf. apply list_elem_of_lookup in Hf as [i Hi].
  destruct (Forall2_lookup_r _ _ _ _ _ (fits_files _ _ _ Hj) Hi) as (sf&Hsf&Hc). eauto.
Qed.

Lemma slots_elsewhere j (Φ : nat → DeliveryJournalFile → Slot) s : fits m t0 j →
  (∀ i f T B I, Φ i f T B I → B = None ∧ I = None) → slots j Φ s → elsewhere m t0 (tree s).
Proof.
  intros Hj HΦ [Hf Hs] p Hp.
  assert (∀ i sf, journal_files j !! i = Some sf → p = saved_path sf → False) as Hno.
  { intros i sf Hi ->. destruct (saved_elem m t0 j Hj i sf Hi) as (g&Hg&Heq).
    apply Hp. rewrite <-Heq. by apply list_elem_of_fmap_2. }
  assert (∀ i, is_Some (journal_files j !! i) → tree s !! backup_of j i = None ∧
    tree s !! incoming_of j i = None) as Hclean.
  { intros i [sf Hi]. eapply HΦ. by apply (Hs i sf). }
  assert ((∃ i, is_Some (journal_files j !! i) ∧ (p = backup_of j i ∨ p = incoming_of j i))
    ∨ ¬ touched j p) as [(i&Hi&Hpl)|Hnt]; [|left|by apply Hf].
  - destruct (decide (Exists (λ i, p = backup_of j i ∨ p = incoming_of j i)
      (seq 0 (length (journal_files j))))) as [Hex|Hex].
    + left. apply Exists_exists in Hex as (i&Hi%elem_of_seq&?). exists i. split; [|done].
      apply lookup_lt_is_Some. lia.
    + right. intros (i&sf&Hi&[?|Hpl]); [by eapply Hno|]. apply Hex, Exists_exists.
      exists i. split; [|done]. apply elem_of_seq. apply lookup_lt_Some in Hi. lia.
  - destruct (Hclean i Hi) as [Hb Hin].
    assert (starts_with DELIVERY_TEMPORARY_PREFIX p = true) as Hpre.
    { destruct Hpl as [-> | ->]; rewrite ?backup_of_eq, ?incoming_of_eq; apply adjacent_reserved. }
    rewrite (artifact_free _ Ht0 p Hpre). by destruct Hpl as [-> | ->].
Qed.

Lemma restored_before j s : fits m t0 j → slots j (λ _, restored_slot) s → as_before m t0 (tree s).
Proof.
  intros Hj Hs. split.
  - eapply slots_elsewhere; [done| |done]. by intros ????? (_&_&?&?).
  - intros f Hf. destruct (untouched_file j f Hj Hf) as (i&sf&Hi&Hc).
    destruct Hs as [_ Hs]. destruct (Hs i sf Hi) as (RT&HT&_).
    destruct Hc as (Hp&_&_&_&R0&V0). rewrite Hp in *. right. by rewrite HT, V0.
Qed.

Lemma clean_approved j s : fits m t0 j → slots j (λ _, clean_slot) s → as_approved m t0 (tree s).
Proof.
  intros Hj Hs. split.
  - eapply slots_elsewhere; [done| |done]. by intros ????? (_&_&?&?).
  - intros f Hf. destruct (untouched_file j f Hj Hf) as (i&sf&Hi&Hc).
    destruct Hs as [_ Hs]. destruct (Hs i sf Hi) as (RT&HT&_).
    pose proof (captured_approval _ _ _ Hc) as Happ. destruct Hc as (Hp&_). rewrite Hp in *.
    split; [done|]. by rewrite HT.
Qed.

Lemma committed_accepted j s : fits m t0 j → slots j (λ _, committed_slot) s →
  ∀ f, f ∈ files m → accepted_file (tree s) f.
Proof.
  intros Hj [_ Hs] f Hf. destruct (untouched_file j f Hj Hf) as (i&sf&Hi&Hc).
  destruct (Hs i sf Hi) as (RT&HT&_).
  pose proof (captured_approval _ _ _ Hc) as Happ. destruct Hc as (Hp&_). rewrite Hp in *.
  split; [done|]. by rewrite HT.
Qed.

(** ** Rolling back and cleaning up *)

Lemma underway_of j s s' (Φ : nat → DeliveryJournalFile → Slot) :
  underway m t0 j s → kept_control s s' →
  (∀ i f T B I, Φ i f T B I → pending_slot f T B I) → slots j Φ s' → underway m t0 j s'.
Proof.
  intros (Hl&[Hj Henc]&Hc&_) [Hk1 Hk2] HΦ Hs.
  unfold underway, journaled, unlegacy in *. rewrite Hk1, Hk2. split_and!; try apply Hl; try done.
  by eapply slots_mono.
Qed.

Lemma rollback_ok j s : underway m t0 j s →
  wp faulty (rollback_payload j jf cm) (λ _, before m t0)
    (λ s', faulty ∧ Undecided m t0 s') s.
Proof.
  intros Hu. pose proof Hu as (Hl&[Hj Henc]&Hc&Hs). destruct (names_distinct m).
  unfold rollback_payload. apply (rollback_slots faulty m t0 Hm Ht0 j Hj); [done| |].
  2:{ intros s' Hfault Hs' Hk. split; [done|]. right. exists j.
      by eapply (underway_of _ _ _ (λ _, pending_slot)). }
  intros s' Hs' Hk. assert (underway m t0 j s') as Hu'.
  { eapply underway_of; [done|done| |done]. intros ?????. apply restored_pending. }
  pose proof (restored_before j s' Hj Hs') as Hb.
  destruct Hu' as (Hl'&Hj'&Hc'&Hp').
  apply wp_bind, wp_sync; [intros Hfault; split; [done|]; right; by exists j|].
  apply wp_bind, wp_remove_if_exists; [intros Hfault; split; [done|]; right; by exists j| |].
  { destruct Hj' as [_ (enc&_&Hjf&_)]. congruence. }
  assert (before m t0 (set_control (delete jf (control s')) s')) as Hbefore.
  { unfold before, unlegacy in *. cbn [tree control set_control]. look. tauto. }
  apply wp_remove_if_exists; [intros Hfault; split; [done|]; by left|done|].
  unfold before, unlegacy in *. cbn [tree control set_control] in *. look. tauto.
Qed.

Lemma cleanup_file_ok j i f s : fits m t0 j → journal_files j !! i = Some f →
  at_slot j (committed_slot f) i f (tree s) →
  wp faulty (cleanup_file j i)
    (λ _ s', moved m j i f s s' ∧ at_slot j (clean_slot f) i f (tree s'))
    (λ s', faulty ∧ moved m j i f s s' ∧ at_slot j (committed_slot f) i f (tree s')) s.
Proof.
  intros Hj Hi Hs. destruct (place_facts m t0 Hm j Hj i f Hi) as (N1&N2&N3).
  unfold cleanup_file. rewrite <-!backup_of_eq, <-!incoming_of_eq.
  set (E := λ s', moved m j i f s s' ∧ at_slot j (committed_slot f) i f (tree s')).
  change (λ s', faulty ∧ _) with (λ s', faulty ∧ E s').
  assert (E s) as HE by (split; [apply moved_refl|done]).
  assert (∀ s1, E s1 → tree s1 !! backup_of j i = None →
    wp faulty (remove_file_if_exists (incoming_of j i))
      (λ _ s', moved m j i f s s' ∧ at_slot j (clean_slot f) i f (tree s'))
      (λ s', faulty ∧ E s') s1) as Hsecond.
  { intros s1 HE1 Hnb. pose proof HE1 as [Hmv (RT&HT&RB&RI)]. apply wp_remove_file_if_exists.
    - done.
    - intros Hd. by rewrite Hd in RI.
    - intros Hn. split; [done|]. unfold at_slot, clean_slot. by rewrite Hnb, Hn.
    - split; [eapply moved_trans; [done|]; apply moved_delete; by right; right|].
      unfold at_slot, clean_slot. cbn [tree set_tree]. look. by rewrite Hnb. }
  pose proof Hs as (RT&HT&RB&RI).
  apply wp_bind, wp_remove_file_if_exists; [done| | |].
  - intros Hd. by rewrite Hd in RB.
  - intros Hn. by apply Hsecond.
  - apply Hsecond; [|cbn [tree set_tree]; by look].
    split; [apply moved_delete; by right; left|].
    unfold at_slot, committed_slot. cbn [tree set_tree]. look. done.
Qed.

Lemma cleanup_ok j s : committed m t0 j s →
  wp faulty (cleanup_delivery j jf cm)
    (λ _ s', finished m t0 s' ∧ control s' !! cm = None)
    (λ s', faulty ∧ Decided m t0 s') s.
Proof.
  intros (Hl&[Hj Henc]&Hc&Hs). destruct (names_distinct m).
  assert (∀ s', kept_control s s' → slots j (λ _, committed_slot) s' → Decided m t0 s') as Hcom.
  { intros s' [Hk1 Hk2] Hs'. left. exists j. unfold committed, unlegacy, journaled.
    rewrite Hk1, Hk2. done. }
  unfold cleanup_delivery. apply wp_bind. eapply wp_mono.
  { apply (wp_indices faulty m t0 Hm Ht0 j Hj _ _ faulty (λ _, committed_slot) (λ _, clean_slot)
      (λ _, committed_slot)); [by unfold all_indices|done| | |done].
    - intros i f T B I (?&?&->&->). by repeat split.
    - intros i f s' Hi _. by apply cleanup_file_ok. }
  2:{ intros s' (Hfault&Hs'&Hk). split; [done|]. by apply Hcom. }
  intros _ s' [Hs' Hk]. pose proof (clean_approved j s' Hj Hs') as Ha.
  assert (Decided m t0 s') as Hd'.
  { apply Hcom; [done|]. eapply slots_mono; [|done]. intros i f T B I (?&?&->&->). by repeat split. }
  assert (unlegacy m s') as Hl' by (unfold unlegacy; by destruct Hk as [-> _]).
  assert (∀ c, c !! jf = None → c !! legacy_journal m = None → c !! legacy_committed m = None →
    finished m t0 (set_control c s')) as Hfin.
  { intros c ???. by repeat split; try apply Ha. }
  apply wp_bind, wp_remove_if_exists; [done| |].
  { destruct Henc as (enc&_&Hjf&_). destruct Hk as [-> _]. congruence. }
  destruct Hl' as [Hl1 Hl2].
  assert (finished m t0 (set_control (delete jf (control s')) s')) as Hf1 by (apply Hfin; by look).
  apply wp_bind, wp_sync; [intros Hfault; split; [done|]; by right|].
  apply wp_bind, wp_remove_if_exists; [intros Hfault; split; [done|]; by right| |].
  { intros Hn. apply wp_sync; [intros Hfault; split; [done|]; by right|]. done. }
  assert (finished m t0 (set_control (delete cm (delete jf (control s'))) s')) as Hf2
    by (apply Hfin; by look).
  apply wp_sync; [intros Hfault; split; [done|]; by right|]. split; [done|]. cbn [control set_control]. by look.
Qed.

(** ** Recovery *)

Lemma all_saved_match_ok saved approved : Forall2 (captured t0) saved approved →
  (∀ f, f ∈ approved → is_safe_relative (path f) = true) → all_saved_match saved approved = true.
Proof.
  induction 1 as [|s f saved approved Hc _ IH]; [done|]. intros Hsafe. cbn [all_saved_match].
  rewrite IH by (intros; apply Hsafe; by right).
  destruct Hc as (Hp&Hd&He&_). unfold saved_matches.
  assert (safe_relative_path (saved_path s) = true) as ->.
  { rewrite Hp. apply (Hsafe f). by left. }
  rewrite !bool_decide_true by done. rewrite He, Bool.eqb_reflx. done.
Qed.

Lemma fits_matches j : fits m t0 j → journal_matches_manifest j m = true.
Proof.
  intros [Hc Hlen Hhex Hf]. unfold journal_matches_manifest.
  rewrite bool_decide_true, Hlen, Hhex by done.
  rewrite (Forall2_length _ _ _ Hf), Nat.eqb_refl. simpl.
  apply all_saved_match_ok; [done|]. apply Hm.
Qed.

Lemma wp_expect_journal j enc s (k : DeliveryJournal → fs unit) Q E : fits m t0 j →
  json_encode j = Some enc → control s !! jf = Some enc → reserved s = Some (digest_of enc) →
  wp faulty (k j) Q E s →
  wp faulty
    (encoded ← control_read jf;
     _ ← fail_if (negb (bool_decide (reserved s = Some (digest_of encoded)))) PayloadMismatch;
     journal ← lift (ok_or Serialization (json_decode encoded));
     _ ← fail_if (negb (journal_matches_manifest journal m)) PayloadMismatch;
     k journal) Q E s.
Proof.
  intros Hj Henc Hjf Hr Hk. apply wp_bind. eapply wp_control_read; [done|].
  apply wp_bind, wp_fail_if; [intros _|by rewrite bool_decide_true].
  apply wp_bind, wp_lift; rewrite (Hjson j enc Henc); [|done]. simpl. intros j' [= <-].
  apply wp_bind, wp_fail_if; [done|]. by rewrite fits_matches.
Qed.

Lemma recover_undecided s : Undecided m t0 s →
  wp faulty (recover_delivery_bound m es jf cm (reserved s)) (λ _, before m t0)
    (λ s', faulty ∧ Undecided m t0 s') s.
Proof.
  intros Hu. unfold recover_delivery_bound. apply wp_bind, wp_control_exists.
  apply wp_bind, wp_control_exists. destruct Hu as [Hb|[j Hu]].
  - pose proof Hb as (_&Hjf&Hcm&_). rewrite Hjf, Hcm. by apply wp_ret.
  - pose proof Hu as (_&[Hj (enc&Henc&Hjf&Hr)]&Hcm&_). rewrite bool_decide_true by by rewrite Hjf.
    rewrite (bool_decide_false (is_Some (control s !! cm))).
    2:{ rewrite Hcm. by intros [? ?]. }
    cbn [negb]. eapply wp_expect_journal; [done..|]. by apply rollback_ok.
Qed.

Lemma recover_decided s : Decided m t0 s →
  wp faulty (recover_delivery_bound m es jf cm (reserved s))
    (λ _ s', finished m t0 s' ∧ control s' !! cm = None)
    (λ s', faulty ∧ Decided m t0 s') s.
Proof.
  intros Hd. destruct (names_distinct m). unfold recover_delivery_bound.
  apply wp_bind, wp_control_exists. apply wp_bind, wp_control_exists.
  destruct Hd as [[j Hc]|Hf].
  - pose proof Hc as (_&[Hj (enc&Henc&Hjf&Hr)]&Hcm&Hs).
    rewrite !bool_decide_true by (try done; by rewrite Hjf). cbn [negb].
    eapply wp_expect_journal; [done..|]. apply wp_bind, (wp_verify _ m Hm es Hes). intros b Hb.
    apply wp_bind, wp_fail_if; [intros _; by eapply cleanup_ok|].
    intros Hneg. assert (b = true) as ->; [|done]. by eapply Hb, committed_accepted.
  - pose proof Hf as (Hl&Hjf&Ha). rewrite Hjf. simpl. case_bool_decide as Hcm.
    + apply wp_bind, (wp_verify _ m Hm es Hes). intros b Hb. apply wp_bind, wp_fail_if.
      2:{ intros Hneg. assert (b = true) as ->; [|done]. apply Hb, Ha. }
      intros _. apply wp_remove_if_exists; [intros Hfault; split; [done|]; by right|done|].
      split; [|cbn [control set_control]; by look].
      unfold finished, unlegacy in *. cbn [tree control set_control]. look. done.
    + apply wp_ret. split; [done|]. by apply eq_None_not_Some.
Qed.

(** ** What the journal captures *)

(** The destination of a file answers to the base of the candidate. *)
Definition preimage_ok (base : string) (t : Tree) (f : CandidateFile) : Prop :=
  match kind f with
  | Modified | Deleted => ∃ entry c mode, git_tree_entry_at t base (path f) = Ok entry ∧
      t !! path f = Some (FileNode c mode) ∧ is_executable mode = entry.1
  | Added | Generated => t !! path f = None
  end.

Lemma wp_validate_preimage_file base f (Q : unit → State → Prop) E s : f ∈ files m →
  (preimage_ok base (tree s) f → Q tt s) → E s →
  wp faulty (validate_preimage_file m base f) Q E s.
Proof.
  intros Hf HQ HE. unfold validate_preimage_file, preimage_ok in *.
  assert (((∃ entry c mode, git_tree_entry_at (tree s) base (path f) = Ok entry ∧
      tree s !! path f = Some (FileNode c mode) ∧ is_executable mode = entry.1) → Q tt s) →
    wp faulty (t ← get_tree; entry ← lift (git_tree_entry_at t base (path f));
      found ← metadata (path f);
      match found with
      | Some (FileNode _ _) =>
          actual ← digest (path f);
          same ← lift (git_preimage_matches t base (path f) entry.2 actual);
          _ ← fail_if (negb same) base_mismatch;
          exact ← executable_matches_cap (path f) entry.1;
          fail_if (negb exact) base_mismatch
      | _ => failed base_mismatch
      end) Q E s) as Hthere.
  { clear HQ. intros HQ. apply wp_bind, wp_get_tree. apply wp_bind, wp_lift; [|done].
    intros entry Hentry. apply wp_bind, wp_metadata.
    destruct (tree s !! path f) as [[c mode| | |]|] eqn:Ht; try by apply wp_failed.
    apply wp_bind. eapply wp_digest; [done|]. apply wp_bind, wp_lift; [|done]. intros same _.
    apply wp_bind, wp_fail_if; [intros _|done].
    apply wp_bind. eapply wp_executable; [done|]. apply wp_fail_if; [|done].
    intros Hexact%negb_false_iff%Bool.eqb_prop. apply HQ. eauto 10. }
  assert ((tree s !! path f = None → Q tt s) →
    wp faulty (found ← metadata (path f);
      match found with
      | None => mret tt
      | Some n => fail_if (negb (is_dir_node n && existsb (λ other, is_deleted_file other &&
          below (path f) (path other)) (files m))) (GitFailed "candidate destination already exists")
      end) Q E s) as Hnew.
  { clear HQ. intros HQ. apply wp_bind, wp_metadata.
    destruct (tree s !! path f) as [n|]; [|by apply wp_ret, HQ].
    rewrite (no_descendant m Hm f is_deleted_file Hf), andb_false_r. by apply wp_failed. }
  destruct (kind f); auto.
Qed.

Lemma wp_validate_preimage (Q : unit → State → Prop) E s :
  (∀ base, base_revision m = Some base →
    (∀ f, f ∈ files m → preimage_ok base (tree s) f) → Q tt s) → E s →
  wp faulty (validate_preimage m) Q E s.
Proof.
  intros HQ HE. unfold validate_preimage. apply wp_bind, wp_lift; [|done].
  intros base Hbase%ok_or_ok.
  eapply (wp_mono _ _ (λ _ s', s' = s ∧ ∀ f, f ∈ files m → preimage_ok base (tree s) f) _ E).
  - apply (wp_for_each _ (λ pre s', s' = s ∧ ∀ f, f ∈ pre → preimage_ok base (tree s) f)).
    + intros pre f post s' Heq [-> Hpre]. apply wp_validate_preimage_file; [rewrite Heq; set_solver| |done].
      intros Hf. split; [done|]. intros g [Hg|Hg%list_elem_of_singleton]%elem_of_app; [auto|by subst].
    + split; [done|]. intros f Hf. by apply elem_of_nil in Hf.
  - intros [] s' [-> Hall]. by eapply HQ.
  - done.
Qed.

Lemma wp_capture_file base f E s : f ∈ files m → preimage_ok base (tree s) f →
  same_entry (t0 !! path f) (tree s !! path f) → E s →
  wp faulty (capture_file m base f) (λ saved s', s' = s ∧ captured t0 saved f) E s.
Proof.
  intros Hf Hpre Hsame HE. unfold capture_file. apply wp_bind, wp_validate_destination; [|done].
  assert (regular (tree s !! path f) →
    regular (t0 !! path f) ∧ view (t0 !! path f) = view (tree s !! path f)) as Hview.
  { intros Hr. destruct Hsame as [->|(?&?&?)]; done. }
  apply wp_bind. unfold preimage_ok in Hpre.
  assert (∀ original : option (ContentDigest * bool), original = view (tree s !! path f) →
    regular (tree s !! path f) → captured t0 {|
      approved_digest := file_digest f; approved_executable := executable f;
      original_digest := fst <$> original;
      original_directory := bool_decide (original = None) &&
        existsb (λ other, is_deleted_file other && below (path f) (path other)) (files m);
      original_executable := match original with Some value => value.2 | None => false end;
      saved_path := path f; |} f) as Hcap.
  { intros original Horig Hr. destruct (Hview Hr) as [Hr0 Hv0].
    unfold captured. simpl. rewrite (no_descendant m Hm f is_deleted_file Hf), andb_false_r.
    split_and!; try done. unfold snapshot. simpl. rewrite Hv0, <-Horig.
    by destruct original as [[]|]. }
  assert ((∃ entry c mode, git_tree_entry_at (tree s) base (path f) = Ok entry ∧
      tree s !! path f = Some (FileNode c mode) ∧ is_executable mode = entry.1) →
    wp faulty (t ← get_tree; entry ← lift (git_tree_entry_at t base (path f));
      actual ← digest (path f);
      same ← lift (git_preimage_matches t base (path f) entry.2 actual);
      _ ← fail_if (negb same) base_mismatch;
      mret (Some (actual, entry.1)))
      (λ original s', s' = s ∧ original = view (tree s !! path f) ∧ regular (tree s !! path f)) E s)
    as Hthere.
  { intros (entry&c&mode&Hentry&Ht&Hmode). apply wp_bind, wp_get_tree.
    apply wp_bind, wp_lift; rewrite Hentry; [|done]. intros a [= <-].
    apply wp_bind. eapply wp_digest; [done|]. apply wp_bind, wp_lift; [|done]. intros same _.
    apply wp_bind, wp_fail_if; [intros _|done]. apply wp_ret. rewrite Ht. simpl. by rewrite Hmode. }
  assert (tree s !! path f = None → wp faulty (mret None)
      (λ original s', s' = s ∧ original = view (tree s !! path f) ∧ regular (tree s !! path f)) E s)
    as Hnew.
  { intros Hn. apply wp_ret. by rewrite Hn. }
  eapply (wp_mono _ _
    (λ original s', s' = s ∧ original = view (tree s !! path f) ∧ regular (tree s !! path f)) _ E).
  - destruct (kind f); auto.
  - intros original s' (->&Horig&Hr). apply wp_ret. auto.
  - done.
Qed.

Lemma wp_m_map {A B} (f : A → fs B) (R : B → A → Prop) xs E s :
  (∀ x, x ∈ xs → wp faulty (f x) (λ y s', s' = s ∧ R y x) E s) →
  wp faulty (m_map f xs) (λ ys s', s' = s ∧ Forall2 R ys xs) E s.
Proof.
  induction xs as [|x xs IH]; intros Hf; cbn [m_map]; [by apply wp_ret|].
  apply wp_bind. eapply (wp_mono _ _ _ _ E); [apply Hf; by left| |done]. intros y s' [-> Hy].
  apply wp_bind. eapply (wp_mono _ _ _ _ E); [apply IH; intros; apply Hf; by right| |done].
  intros ys s' [-> Hys]. apply wp_ret. split; [done|]. by constructor.
Qed.

(** The nonce is the text of sixteen bytes. *)
Definition entropy_ok (entropy : option string) : Prop :=
  match entropy with Some nonce => String.length nonce = 16 | None => True end.

Lemma str_all_any p s : str_any (λ a, negb (p a)) s = false → str_all p s = true.
Proof.
  induction s as [|a s IH]; [done|]. simpl. intros [Ha Hs]%orb_false_iff.
  apply negb_false_iff in Ha. by rewrite Ha, IH.
Qed.

Lemma wp_capture_journal entropy E s (Q : DeliveryJournal → State → Prop) :
  entropy_ok entropy → as_before m t0 (tree s) → E s →
  (∀ base, base_revision m = Some base → ∀ f, f ∈ files m → preimage_ok base (tree s) f) →
  (∀ j, fits m t0 j → Q j s) →
  wp faulty (capture_journal entropy m) Q E s.
Proof.
  intros Hent Hb HE Hpre HQ. unfold capture_journal. apply wp_bind, wp_lift; [|done].
  intros nonce ->%ok_or_ok. apply wp_bind, wp_lift; [|done]. intros base Hbase%ok_or_ok.
  apply wp_bind. eapply (wp_mono _ _ _ _ E); [apply (wp_m_map _ (captured t0))| |done].
  - intros f Hf. apply wp_capture_file; [done|by apply Hpre| |done]. by apply Hb.
  - intros saved s' [-> Hsaved]. apply wp_ret, HQ. split; simpl; [done| | |done].
    + unfold str_len. rewrite length_hex_of_bytes. simpl in Hent. by rewrite Hent.
    + apply str_all_any, hex_of_bytes_lower.
Qed.

(** ** Writing the journal *)

(** The journal is there and nothing has been changed yet. *)
Definition ready (j : DeliveryJournal) (s : State) : Prop :=
  unlegacy m s ∧ journaled m t0 j s ∧ control s !! cm = None ∧ slots j (λ _, restored_slot) s.

Lemma ready_undecided j s : ready j s → Undecided m t0 s.
Proof.
  intros (?&?&?&?). right. exists j. split_and!; [done..|]. eapply slots_mono; [|done].
  intros ?????. apply restored_pending.
Qed.

(** The temporary file is nobody's business. *)
Definition same_control (c c' : gmap string string) : Prop :=
  ∀ p, p ≠ journal_temporary m → c' !! p = c !! p.

Lemma undecided_control s c : same_control (control s) c → Undecided m t0 s →
  Undecided m t0 (set_control c s).
Proof.
  destruct (names_distinct m). intros Hc [(Hl&Hj&Hcm&Hb)|[j (Hl&[Hj (enc&Henc&Hjf&Hr)]&Hcm&Hs)]].
  - left. unfold before, unlegacy in *. cbn [tree control set_control]. by rewrite !Hc by done.
  - right. exists j. unfold underway, journaled, unlegacy in *.
    cbn [tree control reserved set_control]. rewrite !Hc by done. split_and!; try apply Hl; try done.
    by exists enc.
Qed.

Lemma wp_remove_temporary (Q : unit → State → Prop) (E : State → Prop) s :
  Undecided m t0 s → (∀ s', Undecided m t0 s' → E s') →
  (∀ c, same_control (control s) c → c !! journal_temporary m = None → Q tt (set_control c s)) →
  wp faulty (remove_if_exists (journal_temporary m)) Q E s.
Proof.
  intros Hu HE HQ. apply wp_remove_if_exists; [by auto| |].
  - intros Hn. assert (s = set_control (control s) s) as -> by by destruct s. by apply HQ.
  - apply HQ; [|by look]. intros p Hp. by look.
Qed.

Lemma write_journal_ok j s enc : fits m t0 j → json_encode j = Some enc → before m t0 s →
  slots j (λ _, restored_slot) s → reserved s = Some (digest_of enc) →
  wp faulty (write_journal jf j) (λ _, ready j) (Undecided m t0) s.
Proof.
  intros Hj Henc Hb Hs Hr. destruct (names_distinct m).
  unfold write_journal, encode_journal. rewrite temporary_eq.
  apply wp_bind, wp_lift; rewrite Henc; [|done]. simpl. intros e [= <-].
  apply wp_bind, wp_remove_temporary; [by left|done|]. intros c Hc Hct.
  apply wp_catch. set (E := λ s' : State, _). set (s1 := set_control c s).
  assert (∀ s', Undecided m t0 s' → E s') as HE.
  { intros s' Hu. split; [done|]. intros error. apply wp_bind, wp_catch, wp_remove_temporary; [done| |].
    - intros s'' Hu'. split; [done|]. intros e. apply wp_ret. by apply wp_failed.
    - intros c' Hc' _. apply wp_failed. by apply undecided_control. }
  assert (∀ c', same_control (control s) c' → Undecided m t0 (set_control c' s1)) as Hany.
  { intros c' Hc'. apply (undecided_control s c'); [done|by left]. }
  clearbody E. apply wp_bind, wp_change_control; [intros _; by apply HE, (Hany c)|].
  unfold op_control_new. cbn [control s1 set_control]. rewrite Hct.
  assert (∀ x, same_control (control s) (<[journal_temporary m := x]> c)) as Hins.
  { intros x p Hp. look. by apply Hc. }
  apply wp_bind, wp_operate; cbn [control set_control].
  { intros _ n. rewrite insert_insert_eq. apply HE, Hany, Hins. }
  rewrite insert_insert_eq. set (c1 := <[journal_temporary m := enc]> c).
  assert (Undecided m t0 (set_control c1 s1)) as Hu1 by apply Hany, Hins.
  apply wp_bind, wp_sync; [intros _; by apply HE|].
  assert (c1 !! journal_temporary m = Some enc ∧ c1 !! jf = None) as [E1 E2].
  { subst c1. look. rewrite Hc by done. split; [done|apply Hb]. }
  apply wp_bind, wp_catch, wp_change_control.
  { intros _. split; [intros _; by apply HE|]. intros e. apply wp_failed. by apply HE. }
  unfold op_control_link. cbn [control set_control]. rewrite E1, E2.
  assert (∀ c', same_control (<[jf := enc]> c1) c' → ready j (set_control c' s1)) as Hready.
  { intros c' Hc'. unfold ready, journaled, unlegacy. cbn [tree control reserved set_control].
    rewrite !Hc' by done. subst c1. look. rewrite !Hc by done. destruct Hb as ([Hl1 Hl2]&_&Hcm&_).
    split_and!; try done. by exists enc. }
  assert (ready j (set_control (<[jf := enc]> c1) s1)) as Hr1 by by apply Hready.
  pose proof (ready_undecided _ _ Hr1) as Hu2.
  apply wp_bind, wp_sync; [intros _; by apply HE|].
  apply wp_bind, wp_catch, wp_change_control.
  { intros _. split; [intros _; by apply HE|]. intros e. apply wp_failed. by apply HE. }
  unfold op_control_remove. cbn [control set_control].
  rewrite lookup_insert_ne by done. rewrite E1.
  assert (ready j (set_control (delete (journal_temporary m) (<[jf := enc]> c1)) s1)) as Hr2.
  { apply Hready. intros p Hp. by look. }
  apply wp_sync; [intros _|done]. apply HE. by eapply ready_undecided.
Qed.

(** ** The commit *)

Lemma sync_runs w : steady faulty w → ∃ w' r, sync w = (w', r) ∧ steady faulty w' ∧
  state w' = state w ∧ (r = Ok tt ∨ (r = Err Stopped ∧ faulty)).
Proof.
  intros Hw. assert (wp faulty sync (λ _ s', s' = state w) (λ s', s' = state w) (state w)) as Hwp.
  { by apply wp_sync. }
  specialize (Hwp w Hw eq_refl). destruct (sync w) as [w' r] eqn:Hrun. exists w', r.
  unfold sync in Hrun. destruct Hw as [_ Hn].
  destruct (sync_faults w) as [|[| |] l]; simpl in Hrun; simplify_eq/=; try naive_solver.
  apply Forall_cons in Hn as [[] _].
Qed.

(** The marker is the point of decision: it is created or not, and a
    synchronisation that does not fail leaves it to the rest of the delivery. *)
Lemma wp_commit (h : CandidateFreezeError → fs unit) (Q : unit → State → Prop) (E : State → Prop) s :
  control s !! cm = None → (faulty → E s) → (∀ e, wp faulty (h e) Q E s) →
  Q tt (set_control (<[cm := ""]> (control s)) s) →
  (faulty → E (set_control (<[cm := ""]> (control s)) s)) →
  wp faulty (catch (write_committed_marker cm) h) Q E s.
Proof.
  intros Hcm HE Hh HQ HE' w Hw <-.
  unfold write_committed_marker, control_new, change_control, operate, mbind, method_bind, catch.
  cbv beta zeta. destruct (steady_tail faulty w Hw) as [Hw1 Ho].
  destruct (default Proceeds (head (faults w))).
  - change (state (set_faults (tail (faults w)) w)) with (state w).
    unfold op_control_new. rewrite Hcm.
    set (s1 := set_control (<[cm := ""]> (control (state w))) (state w)) in *.
    destruct (sync_runs (set_state s1 (set_faults (tail (faults w)) w))) as (w2&r2&->&Hw2&Hs2&Hr2);
      [done|].
    destruct Hr2 as [->|[-> Hf]]; [|rewrite Hs2; auto].
    unfold sync_parent. destruct (sync_runs w2) as (w3&r3&->&Hw3&Hs3&Hr3); [done|].
    destruct Hr3 as [->|[-> Hf]]; rewrite Hs3, Hs2; auto.
  - destruct Ho as [?|]; [|done]. by apply (Hh _ (set_faults (tail (faults w)) w)).
  - destruct Ho as [?|]; [|done]. simpl. auto.
Qed.

Lemma wp_bind_reservation expected d (Q : unit → State → Prop) (E : State → Prop) s :
  E s → Q tt (set_reserved (Some d) s) → wp faulty (bind_reservation expected d) Q E s.
Proof.
  intros HE HQ. apply wp_catch, wp_operate.
  - intros _ _. split; [done|]. intros e. by apply wp_failed.
  - case_bool_decide; [done|]. split; [done|]. intros e. by apply wp_failed.
Qed.

(** ** The whole delivery *)

Lemma before_slots j s : fits m t0 j → before m t0 s → slots j (λ _, restored_slot) s.
Proof.
  intros Hj (_&_&_&Helse&Hfiles). split.
  - intros p Hp. apply Helse. intros (f&->&Hf)%list_elem_of_fmap. apply Hp.
    destruct (untouched_file j f Hj Hf) as (i&sf&Hi&Hc). exists i, sf. split; [done|].
    left. symmetry. apply Hc.
  - intros i sf Hi. destruct (saved_file m t0 j Hj i sf Hi) as (f&Hf&Hc).
    apply list_elem_of_lookup_2 in Hf. destruct Hc as (Hp&_&_&_&R0&V0).
    assert (∀ p, starts_with DELIVERY_TEMPORARY_PREFIX p = true → tree s !! p = None) as Hfree.
    { intros p Hpre. destruct (Helse p) as [Heq|(_&_&Hanc)].
      - intros (g&->&Hg)%list_elem_of_fmap. by rewrite (paths_free m Hm g Hg) in Hpre.
      - rewrite Heq. by apply (artifact_free _ Ht0).
      - by rewrite (ancestor_free m Hm p Hanc) in Hpre. }
    unfold at_slot, restored_slot. rewrite Hp. split_and!.
    + destruct (Hfiles f Hf) as [<-|(_&?&_)]; done.
    + rewrite V0. destruct (Hfiles f Hf) as [<-|(_&_&<-)]; done.
    + apply Hfree. rewrite backup_of_eq. apply adjacent_reserved.
    + apply Hfree. rewrite incoming_of_eq. apply adjacent_reserved.
Qed.

Lemma staged_ok j s : ready j s →
  wp faulty (apply_payload_staged m es j jf cm)
    (λ _ s', underway m t0 j s' ∧ slots j (λ _, installed_slot) s') (Undecided m t0) s.
Proof.
  intros (Hl&Hj&Hcm&Hs). pose proof Hj as [Hfits _].
  assert (underway m t0 j s) as Hu.
  { split_and!; [done..|]. eapply slots_mono; [|done]. intros ?????. apply restored_pending. }
  unfold apply_payload_staged. apply wp_bind. eapply wp_mono;
    [by apply (stage_slots faulty m t0 Hm Ht0 j Hfits es Hes)| |].
  2:{ intros s' [Hs' Hk]. right. exists j. by eapply (underway_of _ _ _ (λ _, pending_slot)). }
  intros _ s1 [Hs1 Hk1]. assert (underway m t0 j s1) as Hu1.
  { eapply (underway_of j s s1 (λ _, staged_slot)); [done|done| |done].
    intros ?????. apply staged_pending. }
  apply wp_catch. eapply wp_mono; [by apply (applied_slots faulty m t0 Hm Ht0 j Hfits es Hes)| |].
  - intros _ s2 [Hs2 Hk2]. split; [|done]. eapply (underway_of j s1 s2); [done|done| |done].
    intros ?????. apply installed_pending.
  - intros s2 [Hs2 Hk2]. assert (underway m t0 j s2) as Hu2.
    { by eapply (underway_of _ _ _ (λ _, pending_slot)). }
    split; [intros _; right; by exists j|]. intros e. apply wp_bind, wp_catch.
    eapply wp_mono; [by apply rollback_ok| |].
    + intros [] s3 Hb. apply wp_failed. by left.
    + intros s3 [_ Hu3]. split; [done|]. intros e'. by apply wp_failed.
Qed.

Lemma installed_committed j s : underway m t0 j s → slots j (λ _, installed_slot) s →
  committed m t0 j (set_control (<[cm := ""]> (control s)) s).
Proof.
  intros (Hl&[Hj (enc&Henc&Hjf&Hr)]&Hcm&_) Hs. destruct (names_distinct m).
  unfold committed, unlegacy, journaled in *. cbn [tree control reserved set_control]. look.
  split_and!; try apply Hl; try done; [by exists enc|].
  eapply slots_mono; [|done]. intros i f T B I (?&?&?&?&->). by repeat split.
Qed.

Abbreviation Anywhere := (λ s, Undecided m t0 s ∨ Decided m t0 s).

(** What follows the recovery, from a repository as it was. *)
Lemma deliver_fresh entropy diff expected s : entropy_ok entropy → before m t0 s →
  wp faulty
    (t ← get_tree;
     _ ← lift (git_apply_check t diff);
     _ ← validate_preimage m;
     journal ← capture_journal entropy m;
     journal_digest ← delivery_journal_digest journal;
     _ ← bind_reservation expected journal_digest;
     _ ← write_journal jf journal;
     t ← get_tree;
     _ ← lift (git_apply_check t diff);
     _ ← apply_payload_staged m es journal jf cm;
     _ ← catch (write_committed_marker cm) (λ error,
           _ ← rollback_payload journal jf cm;
           failed error);
     _ ← cleanup_delivery journal jf cm;
     mret journal_digest)
    (λ _, Decided m t0) Anywhere s.
Proof.
  intros Hent Hb. assert (Anywhere s) as HE by (left; by left).
  apply wp_bind, wp_get_tree. apply wp_bind, wp_lift; [intros _ _|done].
  apply wp_bind, wp_validate_preimage; [|done]. intros base Hbase Hpre.
  apply wp_bind, wp_capture_journal; [done|apply Hb|done| |].
  { intros base' Hbase'. by simplify_eq. }
  intros j Hj. apply wp_bind. unfold delivery_journal_digest, encode_journal.
  apply wp_bind, wp_lift; [|done]. intros enc Henc%ok_or_ok. apply wp_ret.
  apply wp_bind, wp_bind_reservation; [done|].
  pose proof (before_slots j s Hj Hb) as Hslots.
  apply wp_bind. eapply wp_mono; [by apply (write_journal_ok j _ enc)|intros [] s1 Hs1|by left].
  assert (Anywhere s1) as HE1 by (left; by eapply ready_undecided).
  apply wp_bind, wp_get_tree. apply wp_bind, wp_lift; [intros _ _|done].
  apply wp_bind. eapply wp_mono; [by apply staged_ok|intros _ s2 [Hu2 Hs2]|by left].
  pose proof (installed_committed j s2 Hu2 Hs2) as Hcom.
  apply wp_bind, wp_commit.
  - apply Hu2.
  - intros _. left. right. by exists j.
  - intros e. apply wp_bind. eapply wp_mono; [by apply rollback_ok| |intros s3 [_ ?]; by left].
    intros [] s3 Hb3. apply wp_failed. left. by left.
  - apply wp_bind. eapply wp_mono; [by apply cleanup_ok| |intros s3 [_ ?]; by right].
    intros _ s3 [Hf _]. apply wp_ret. by right.
  - intros _. right. left. by exists j.
Qed.

Lemma wp_recover_legacy expected (Q : unit → State → Prop) E s : unlegacy m s → Q tt s →
  wp faulty (recover_legacy_delivery m es expected jf cm) Q E s.
Proof.
  intros [Hl1 Hl2] HQ. unfold recover_legacy_delivery. rewrite legacy_journal_eq, legacy_committed_eq.
  apply wp_bind, wp_get_control. rewrite Hl1, Hl2. by apply wp_ret.
Qed.

Lemma undecided_unlegacy s : Undecided m t0 s → unlegacy m s.
Proof. intros [Hb|[j Hu]]; [apply Hb|apply Hu]. Qed.
Lemma decided_unlegacy s : Decided m t0 s → unlegacy m s.
Proof. intros [[j Hc]|Hf]; [apply Hc|apply Hf]. Qed.

Lemma set_control_id s : set_control (control s) s = s.
Proof. by destruct s. Qed.

Lemma wp_control_touch (Q : unit → State → Prop) E s : E s → Q tt s → wp faulty control_touch Q E s.
Proof. intros HE HQ. apply wp_change_control; [done|]. by rewrite set_control_id. Qed.

Lemma apply_undecided entropy diff s : entropy_ok entropy → Undecided m t0 s →
  wp faulty (apply_payload entropy m diff es (reserved s) bind_reservation)
    (λ _, Decided m t0) Anywhere s.
Proof.
  intros Hent Hu. unfold apply_payload. rewrite current_journal_eq, current_committed_eq.
  apply wp_bind, wp_control_touch; [by left|].
  apply wp_bind, wp_recover_legacy; [by apply undecided_unlegacy|].
  apply wp_bind. eapply wp_mono; [by apply recover_undecided|intros [] s1 Hb|intros s1 [_ ?]; by left].
  assert (Anywhere s1) as HE by (left; by left).
  apply wp_bind, (wp_verify _ m Hm es Hes). intros b Hv. destruct b; [|by apply deliver_fresh].
  assert (∀ d, Decided m t0 (set_reserved d s1)) as Hd.
  { intros d. right. pose proof Hb as (Hl&Hjf&_&Helse&_). split_and!; try done.
    split; [done|]. by apply Hv. }
  apply wp_bind, wp_lift; [intros d _|done]. apply wp_bind, wp_bind_reservation; [done|].
  apply wp_ret, Hd.
Qed.

Lemma apply_decided entropy diff s : Decided m t0 s →
  wp faulty (apply_payload entropy m diff es (reserved s) bind_reservation)
    (λ _, Decided m t0) (Decided m t0) s.
Proof.
  intros Hd. unfold apply_payload. rewrite current_journal_eq, current_committed_eq.
  apply wp_bind, wp_control_touch; [done|].
  apply wp_bind, wp_recover_legacy; [by apply decided_unlegacy|].
  apply wp_bind. eapply wp_mono; [by apply recover_decided|intros _ s1 [Hf _]|by intros s1 [_ ?]].
  assert (Decided m t0 s1) as HE by by right.
  apply wp_bind, (wp_verify _ m Hm es Hes). intros b Hv.
  assert (b = true) as -> by (apply Hv, Hf).
  apply wp_bind, wp_lift; [intros d _|done]. apply wp_bind, wp_bind_reservation; [done|].
  apply wp_ret. by right.
Qed.

(** [promote_bound] is the delivery behind checks that only read. *)
Lemma promote_ok repository entropy diff expected s (P : State → Prop) :
  P s →
  wp faulty (apply_payload entropy m diff es expected bind_reservation) (λ _, Decided m t0) P s →
  wp faulty (promote_bound repository entropy m diff es expected bind_reservation)
    (λ _, Decided m t0) P s.
Proof.
  intros HE Hwp. unfold promote_bound. apply wp_bind, wp_get_tree.
  apply wp_bind, wp_lift; [intros _ _|done]. apply wp_bind, wp_lift; [intros base _|done].
  apply wp_bind, wp_lift; [intros output _|done]. apply wp_bind, wp_lift; [intros head _|done].
  apply wp_bind, wp_fail_if; [intros _|done]. apply wp_bind, wp_lift; [intros _ _|done].
  apply wp_bind, wp_lift; [intros _ _|done]. apply wp_bind.
  eapply wp_mono; [exact Hwp| |done]. intros d s' Hd. by apply wp_ret.
Qed.

(** Without a journal and a marker nothing depends on the reservation. *)
Lemma release_ok (P : State → Prop) s : P s → P = Undecided m t0 ∨ P = Decided m t0 →
  control s !! jf = None → control s !! cm = None → P (set_reserved None s).
Proof.
  intros HP HPP Hjf Hcm. destruct HPP as [-> | ->].
  - destruct HP as [Hb|[j (_&[_ (enc&_&Hj&_)]&_)]]; [by left|congruence].
  - destruct HP as [[j (_&_&Hc&_)]|Hf]; [rewrite Hcm in Hc; by destruct Hc|by right].
Qed.

Lemma wp_give_back (e : CandidateFreezeError) (Q : list string * ContentDigest → State → Prop)
    (P : State → Prop) s :
  P s → (control s !! jf = None → control s !! cm = None → P (set_reserved None s)) →
  wp faulty
    (required ← delivery_recovery_required (candidate_id m);
     if (required : bool) then failed e else _ ← release_reservation; failed e) Q P s.
Proof.
  intros HP Hrel. unfold delivery_recovery_required. apply wp_bind, wp_bind, wp_get_control.
  apply wp_ret. cbn [existsb].
  rewrite current_journal_eq, current_committed_eq, legacy_journal_eq, legacy_committed_eq.
  case_match eqn:Hreq; [by apply wp_failed|]. apply wp_bind, wp_operate; [done|].
  apply wp_failed. to_prop. apply Hrel; by apply eq_None_not_Some.
Qed.

Lemma wp_get_reserved Q E s : Q (reserved s) s → wp faulty get_reserved Q E s.
Proof. intros HQ w Hw <-. simpl. done. Qed.

Lemma deliver_undecided repository entropy diff s : entropy_ok entropy → Undecided m t0 s →
  wp faulty (deliver repository entropy m diff es) (λ _, Decided m t0) Anywhere s.
Proof.
  intros Hent Hu. unfold deliver. apply wp_bind, wp_get_reserved, wp_catch.
  eapply wp_mono; [apply (promote_ok _ _ _ _ _ Anywhere); [by left|by apply apply_undecided]|done|].
  intros s' Hany. split; [done|]. intros e. apply wp_give_back; [done|].
  intros Hjf Hcm. destruct Hany as [?|?]; [left|right]; apply (release_ok _ s'); auto.
Qed.

Lemma deliver_decided repository entropy diff s : Decided m t0 s →
  wp faulty (deliver repository entropy m diff es) (λ _, Decided m t0) (Decided m t0) s.
Proof.
  intros Hd. unfold deliver. apply wp_bind, wp_get_reserved, wp_catch.
  eapply wp_mono; [apply promote_ok; [done|by apply apply_decided]|done|].
  intros s' Hd'. split; [done|]. intros e. apply wp_give_back; [done|].
  intros Hjf Hcm. apply (release_ok _ s'); auto.
Qed.
End safety.

(** * Deliveries under faults *)

Section attempts.
Context `{Git, Platform, Sha256, ToJson VerificationEnvironment, ToJson (list (string * string)),
  ToJson (list (string * string * bool)), Persist DeliveryJournal}.
Context (repository : string) (m : CandidateManifest) (diff : string)
  (es : list CandidateFilePayload).

(** The candidate is promoted again and again, each time in a new process when the
    last one ended, with the faults the oracles have left. *)
Fixpoint attempts (entropies : list (option string)) (w : World)
    : World * list (result Failure (list string * ContentDigest)) :=
  match entropies with
  | [] => (w, [])
  | entropy :: entropies =>
      let (w, r) := deliver repository entropy m diff es w in
      let (w, rs) := attempts entropies w in
      (w, r :: rs)
  end.

(** A repository without a journal or a marker of this candidate. *)
Record undelivered (s : State) : Prop := {
  no_journal : control s !! current_journal m = None;
  no_marker : control s !! current_committed m = None;
  no_legacy_journal : control s !! legacy_journal m = None;
  no_legacy_marker : control s !! legacy_committed m = None;
}.

(** What a recovery leaves beside the tree: nothing. *)
Definition clean (s : State) : Prop :=
  undelivered s ∧
  ∀ p, starts_with DELIVERY_TEMPORARY_PREFIX p = true → tree s !! p = None.

Lemma elsewhere_clean t0 t : deliverable m → tidy t0 → elsewhere m t0 t →
  ∀ p, starts_with DELIVERY_TEMPORARY_PREFIX p = true → t !! p = None.
Proof.
  intros Hm Ht0 He p Hp. destruct (He p) as [Heq|(_&_&Ha)].
  - intros (g&->&Hg)%list_elem_of_fmap. by rewrite (paths_free m Hm g Hg) in Hp.
  - rewrite Heq. by apply artifact_free.
  - by rewrite (ancestor_free m Hm p Ha) in Hp.
Qed.

Lemma attempts_states t0 entropies w : deliverable m → tidy t0 → json_faithful DeliveryJournal →
  carried m es → Forall entropy_ok entropies → steady True w →
  Undecided m t0 (state w) ∨ Decided m t0 (state w) →
  steady True (attempts entropies w).1 ∧
  (Undecided m t0 (state (attempts entropies w).1) ∨ Decided m t0 (state (attempts entropies w).1)) ∧
  (Decided m t0 (state w) ∨ Exists (λ r, is_ok r = true) (attempts entropies w).2 →
   Decided m t0 (state (attempts entropies w).1)).
Proof.
  intros Hm Ht0 Hjson Hes Hall. revert w. induction Hall as [|e entropies He _ IH]; intros w Hw Hs.
  { split_and!; [done|done|]. intros [?|Hn]; [done|]. by apply Exists_nil in Hn. }
  cbn [attempts].
  assert (steady True (deliver repository e m diff es w).1 ∧
    (Undecided m t0 (state (deliver repository e m diff es w).1) ∨
     Decided m t0 (state (deliver repository e m diff es w).1)) ∧
    (Decided m t0 (state w) ∨ is_ok (deliver repository e m diff es w).2 = true →
     Decided m t0 (state (deliver repository e m diff es w).1))) as (Hw'&Hs'&Hd').
  { assert (∀ Hd : Decided m t0 (state w), steady True (deliver repository e m diff es w).1 ∧
      Decided m t0 (state (deliver repository e m diff es w).1)) as Hdec.
    { intros Hd. pose proof (deliver_decided True m t0 Hm Ht0 Hjson es Hes repository e diff _ Hd
        w Hw eq_refl) as Hrun.
      destruct (deliver repository e m diff es w) as [w' [a|[err|]]]; simpl; tauto. }
    destruct Hs as [Hu|Hd]; [|destruct (Hdec Hd); tauto].
    pose proof (deliver_undecided True m t0 Hm Ht0 Hjson es Hes repository e diff _ He Hu
      w Hw eq_refl) as Hrun.
    destruct (deliver repository e m diff es w) as [w' [a|[err|]]]; simpl in *;
      (split_and!; [tauto..|]); (intros [Hd|?]; [by apply Hdec|]); [tauto|done..]. }
  destruct (deliver repository e m diff es w) as [w' r]. simpl in Hw', Hs', Hd'.
  specialize (IH w' Hw' Hs'). destruct (attempts entropies w') as [w'' rs]. simpl in *.
  destruct IH as (?&?&IHd). split_and!; [done..|]. rewrite Exists_cons. tauto.
Qed.

(** C1. A delivery happens or it does not, up to the SHA-256 of contents and the
    executable bit of modes. Take a candidate that its payload was validated
    against and whose paths are distinct, safe, without an empty segment, not
    named like an artifact of a delivery and none of them below another (so a
    file that becomes a directory, or the reverse, is not covered), each with a
    digest exactly if it is not deleted. Take a repository whose entries are all
    in directories, with no artifact of a delivery and no journal or marker of
    the candidate, of this version or the earlier one; journals decode to what was
    encoded, and the random part of an artifact's name has its 16 characters.
    Promote the candidate any number of times while any operation may fail and
    the process may end at any of them, in the middle of a write too; only a
    synchronisation may be interrupted but not fail. Then one recovery that is not disturbed succeeds,
    and leaves every file of the candidate as it was (the same entry, or a
    regular file with the same SHA-256 and executable bit), or every file as it
    was approved (a regular file with the approved SHA-256 and executable bit,
    or none if it is deleted); no journal, no marker and no artifact; and
    nothing else changed but new directories above the candidate's files. It is
    what was approved if any of the attempts reported a delivery. *)
Theorem delivery_all_or_nothing entropies w w' rs w1 :
  deliverable m → tidy (tree (state w)) → undelivered (state w) →
  validate_payload m diff es = Ok tt → json_faithful DeliveryJournal →
  Forall entropy_ok entropies → never_fails (sync_faults w) →
  attempts entropies w = (w', rs) →
  state w1 = state w' → lossless (faults w1) → lossless (sync_faults w1) →
  ∃ w2, recover_delivery_bound m es (current_journal m) (current_committed m)
      (reserved (state w1)) w1 = (w2, Ok tt) ∧
    clean (state w2) ∧
    (as_before m (tree (state w)) (tree (state w2)) ∨
     as_approved m (tree (state w)) (tree (state w2))) ∧
    (Exists (λ r, is_ok r = true) rs → as_approved m (tree (state w)) (tree (state w2))).
Proof.
  intros Hm Ht0 [Hj Hc Hl1 Hl2] Hvalid Hjson Hent Hsync Hrun Hs1 Hf1 Hn1.
  pose proof (validated_carried m Hm diff es Hvalid) as Hes.
  set (t0 := tree (state w)) in *.
  assert (Undecided m t0 (state w)) as Hu.
  { left. do 3 (split; [done|]). split; [intros p _; apply grown_refl|by left]. }
  destruct (attempts_states t0 entropies w Hm Ht0 Hjson Hes Hent) as (Hw'&Hs'&Hd').
  { split; [by left|done]. }
  { by left. }
  rewrite Hrun in *. simpl in *. rewrite <-Hs1 in *.
  assert (steady False w1) as Hw1.
  { split; [by right|]. eapply Forall_impl; [exact Hn1|]. by intros ? ->. }
  assert (Decided m t0 (state w1) → ∃ w2,
    recover_delivery_bound m es (current_journal m) (current_committed m) (reserved (state w1)) w1
      = (w2, Ok tt) ∧ clean (state w2) ∧ as_approved m t0 (tree (state w2))) as Hdecided.
  { intros Hd. pose proof (recover_decided False m t0 Hm Ht0 Hjson es Hes _ Hd w1 Hw1 eq_refl) as Hrec.
    destruct (recover_delivery_bound _ _ _ _ _ w1) as [w2 [[]|[]]]; [|tauto..].
    destruct Hrec as [_ [([? ?]&?&Ha) ?]]. exists w2. split_and!; [done| |apply Ha..].
    split; [done|]. apply (elsewhere_clean t0); [done..|apply Ha]. }
  destruct Hs' as [Hu'|Hd].
  - pose proof (recover_undecided False m t0 Hm Ht0 Hjson es _ Hu' w1 Hw1 eq_refl) as Hrec.
    destruct (recover_delivery_bound _ _ _ _ _ w1) as [w2 [[]|[]]] eqn:Hrun2; [|tauto..].
    destruct Hrec as [_ ([? ?]&?&?&Hb)]. exists w2. split_and!; [done| |by left|].
    { split; [done|]. apply (elsewhere_clean t0); [done..|apply Hb]. }
    intros Hok. destruct Hdecided as (w3&Heq&_&Ha); [by apply Hd'; right|]. by simplify_eq.
  - destruct (Hdecided Hd) as (w2&?&?&?). exists w2. split_and!; auto.
Qed.
End attempts.
End DeliverySafety.
