(* ===== verification/DeliveryRuns.v ===== *)
(** A delivery carried out: a repository of four entries, a candidate that changes
    one file, deletes one and adds one in a directory, and the deliveries of it
    under different oracles. The hash, the encodings and Git are small functions
    that tell the values of the example apart. *)
From Stdlib Require Import Ascii String.
From S2P Require Import Prelude Text Ids Paths Canonical WorkflowMachine TaskMachine Goals Verdicts.
From S2P Require Import Candidates Redaction Ledger Database StoreCommands StoreCandidates.
From S2P Require Import FileSystem Freeze Delivery DeliverySlots DeliverySafety.

Module DeliveryRuns.
Export DeliverySafety.

(** * Checks of a concrete repository and candidate *)

Definition tidy_check (t : Tree) : bool :=
  forallb (λ e : string * Node,
    negb (starts_with DELIVERY_TEMPORARY_PREFIX e.1) &&
    (bool_decide (parent_path e.1 = "") ||
     forallb (λ q, bool_decide (t !! q = Some DirNode)) (path_prefixes (parent_path e.1))))
    (map_to_list t).

Lemma tidy_check_ok t : tidy_check t = true → tidy t.
Proof.
  unfold tidy_check. intros Hcheck. rewrite forallb_forall in Hcheck.
  assert (∀ p n, t !! p = Some n → starts_with DELIVERY_TEMPORARY_PREFIX p = false ∧
    (parent_path p = "" ∨ ∀ q, q ∈ path_prefixes (parent_path p) → t !! q = Some DirNode)) as Hall.
  { intros p n Hp. specialize (Hcheck (p, n)). simpl in Hcheck.
    apply elem_of_map_to_list, list_elem_of_In, Hcheck, andb_true_iff in Hp as [Hfree Hdirs].
    split; [by apply negb_true_iff|]. apply orb_true_iff in Hdirs as [Hd|Hd].
    - left. by to_prop.
    - right. intros q Hq%list_elem_of_In. rewrite forallb_forall in Hd. specialize (Hd q Hq).
      by to_prop. }
  split.
  - intros p n q Hp [Hne Hq]. destruct (Hall p n Hp) as [_ [?|Hd]]; [done|]. by apply Hd.
  - intros p Hp. destruct (t !! p) as [n|] eqn:Hn; [|done].
    destruct (Hall p n Hn) as [? _]. congruence.
Qed.

Definition digest_state_check (f : CandidateFile) : bool :=
  Bool.eqb (is_deleted (kind f)) (bool_decide (file_digest f = None)).
Definition deliverable_check (m : CandidateManifest) : bool :=
  bool_decide (NoDup (path <$> files m)) &&
  forallb (λ f, forallb (λ w, negb (bool_decide (w = ""))) (segments (path f)) &&
    is_safe_relative (path f) &&
    forallb (λ g, negb (below (path f) (path g))) (files m) &&
    negb (starts_with DELIVERY_TEMPORARY_PREFIX (path f)) && digest_state_check f) (files m).

Lemma deliverable_check_ok m : deliverable_check m = true → deliverable m.
Proof.
  unfold deliverable_check. intros [Hnd%bool_decide_eq_true Hcheck]%andb_true_iff.
  rewrite forallb_forall in Hcheck.
  assert (∀ f, f ∈ files m → whole_segments (path f) ∧ is_safe_relative (path f) = true ∧
    (∀ g, g ∈ files m → below (path f) (path g) = false) ∧
    starts_with DELIVERY_TEMPORARY_PREFIX (path f) = false ∧ digest_state f) as Hall.
  { intros f Hf. specialize (Hcheck f). rewrite <-list_elem_of_In in Hcheck.
    specialize (Hcheck Hf). rewrite !andb_true_iff, !forallb_forall in Hcheck.
    destruct Hcheck as ((((Hseg&Hsafe)&Hflat)&Hfree)&Hstate). split_and!; [|done| | |].
    - apply Forall_forall. intros w Hw%list_elem_of_In. specialize (Hseg w Hw). by to_prop.
    - intros g Hg%list_elem_of_In. specialize (Hflat g Hg). by to_prop.
    - by to_prop.
    - unfold digest_state_check, digest_state in *. apply Bool.eqb_prop in Hstate as ->.
      apply bool_decide_eq_true. }
  split; [done| | |intros f g Hf Hg; by apply Hall| |]; intros f Hf; by apply Hall.
Qed.

(** * The example *)

#[local] Instance run_sha : Sha256 := λ s, word_of 256 (be_value s).
#[local] Instance run_payload_json : ToJson (list (string * string * bool)) :=
  λ l, Some (join_segments ((λ p, p.1.1) <$> l)).
#[local] Instance run_environment_json : ToJson VerificationEnvironment :=
  λ e, Some (environment_git e).
#[local] Instance run_entries_json : ToJson (list (string * string)) := λ _, Some "[]".
#[local] Instance run_platform : Platform := {|
  platform_architecture := "x86_64"; platform_operating_system := "linux"; creation_mode := 384;
|}.

(** The base revision holds the content of each file under its own path. *)
Definition run_base (path : string) : string := "base of " +:+ path.
#[local] Instance run_git : Git := {|
  git _ arguments :=
    match arguments with
    | ["rev-parse"; "--show-toplevel"] => Ok "/repository"
    | ["rev-parse"; "HEAD"] => Ok "c0ffee"
    | ["ls-tree"; _; _; _; path] =>
        Ok ("100644 blob " +:+ path +:+ String "009" (path +:+ String nul ""))
    | ["cat-file"; "blob"; path] => Ok (run_base path)
    | _ => Err (GitFailed "unknown command")
    end;
  git_status _ _ := Ok true;
  git_apply_check _ _ := Ok tt;
|}.

Definition run_tree : Tree := list_to_map [
  ("README.md", FileNode (run_base "README.md") 416);
  ("old.txt", FileNode (run_base "old.txt") 420);
  ("src", DirNode);
  ("src/lib.rs", FileNode "kept" 420)].

Definition run_files : list CandidateFilePayload := [
  Payloads.payload_with_executable "README.md" "new text" false;
  Payloads.payload_with_executable "src/run.sh" "new script" true].
Definition run_diff : string := "diff --git".

Definition run_manifest : CandidateManifest := {|
  candidate_id := word_of 128 7;
  base_revision := Some "c0ffee";
  files := [
    {| executable := false; path := "README.md"; file_digest := Some (digest_of "new text");
       kind := Modified |};
    {| executable := false; path := "old.txt"; file_digest := None; kind := Deleted |};
    {| executable := true; path := "src/run.sh"; file_digest := Some (digest_of "new script");
       kind := Added |}];
  diff_digest := digest_of run_diff;
  dependency_state_digest := digest_of "";
  configuration_digest := digest_of "";
  environment_digest := digest_of "";
  delivery_payload_digest := match payload_digest run_files with Ok d => Some d | Err _ => None end;
  evidence_ids := [];
|}.

Definition run_nonces : list string := ["0123456789abcdef"; "fedcba9876543210"; "ABCDEFGHIJKLMNOP"].
Definition run_journal (nonce : string) : DeliveryJournal := {|
  journal_candidate := word_of 128 7;
  journal_files := [
    {| approved_digest := Some (digest_of "new text"); approved_executable := false;
       original_digest := Some (digest_of (run_base "README.md")); original_directory := false;
       original_executable := false; saved_path := "README.md" |};
    {| approved_digest := None; approved_executable := false;
       original_digest := Some (digest_of (run_base "old.txt")); original_directory := false;
       original_executable := false; saved_path := "old.txt" |};
    {| approved_digest := Some (digest_of "new script"); approved_executable := true;
       original_digest := None; original_directory := false;
       original_executable := false; saved_path := "src/run.sh" |}];
  journal_nonce := hex_of_bytes nonce;
|}.
#[local] Instance DeliveryJournalFile_eq_dec : EqDecision DeliveryJournalFile.
Proof. solve_decision. Defined.
#[local] Instance DeliveryJournal_eq_dec : EqDecision DeliveryJournal.
Proof. solve_decision. Defined.
#[local] Instance run_journal_json : Persist DeliveryJournal :=
  table_persist (run_journal <$> run_nonces).

Definition run_state : State := {| tree := run_tree; control := ∅; reserved := None |}.
Definition run_world (faults sync_faults : list Outcome) : World :=
  {| state := run_state; faults := faults; sync_faults := sync_faults |}.

Definition run_deliver (nonce : string) : fs (list string * ContentDigest) :=
  deliver "/repository" (Some nonce) run_manifest run_diff run_files.

(** The content and the mode bits at some paths. *)
Definition entry_text (t : Tree) (p : string) : string * N :=
  match t !! p with
  | Some (FileNode c mode) => (c, mode)
  | Some _ => ("not a file", 0%N)
  | None => ("nothing", 0%N)
  end.
Definition run_paths : list string := ["README.md"; "old.txt"; "src/lib.rs"; "src/run.sh"].

(** What the next process finds: the same state, with nothing left to go wrong. *)
Definition calm (w : World) : World := {| state := state w; faults := []; sync_faults := [] |}.
Definition run_recover (w : World) : World * result Failure unit :=
  recover_delivery_bound run_manifest run_files
    (journal_path DELIVERY_JOURNAL_DIRECTORY (candidate_id run_manifest))
    (committed_path DELIVERY_JOURNAL_DIRECTORY (candidate_id run_manifest))
    (reserved (state w)) (calm w).

(** The first delivery ends while the third file is being installed, the second
    while it rolls the first one back; the third goes through. *)
Definition run_faults : list Outcome :=
  replicate 17 Proceeds ++ [Interrupts 0] ++ replicate 4 Proceeds ++ [Interrupts 0].

Example run_interrupted : (is_ok <$> (attempts "/repository" run_manifest run_diff run_files
  (Some <$> run_nonces) (run_world run_faults [])).2) = [false; false; true].
Proof. vm_compute. reflexivity. Qed.

(** Every point at which the delivery can be interrupted, and what a recovery makes
    of it: the files are as they were up to the marker, and as approved from there. *)
Definition run_after (k : nat) : list string :=
  let w := (run_deliver "0123456789abcdef" (run_world (replicate k Proceeds ++ [Interrupts 3]) [])).1 in
  let recovered := run_recover w in
  if is_ok recovered.2
  then (entry_text (tree (state recovered.1)) <$> run_paths).*1 else [].
Example run_decides :
  forallb (λ k, bool_decide (run_after k =
    [run_base "README.md"; run_base "old.txt"; "kept"; "nothing"])) (seq 0 19) &&
  forallb (λ k, bool_decide (run_after k = ["new text"; "nothing"; "kept"; "new script"]))
    (seq 19 10) = true.
Proof. vm_compute. reflexivity. Qed.

Lemma delivery_all_or_nothing_witness : ∃ w' rs w2,
  attempts "/repository" run_manifest run_diff run_files (Some <$> run_nonces)
    (run_world run_faults []) = (w', rs) ∧
  run_recover w' = (w2, Ok tt) ∧ clean run_manifest (state w2) ∧
  as_approved run_manifest run_tree (tree (state w2)).
Proof.
  destruct (attempts "/repository" run_manifest run_diff run_files (Some <$> run_nonces)
    (run_world run_faults [])) as [w' rs] eqn:Hrun.
  destruct (delivery_all_or_nothing "/repository" run_manifest run_diff run_files (Some <$> run_nonces)
    (run_world run_faults []) w' rs (calm w')) as (w2&Hrec&Hclean&_&Hok).
  - apply deliverable_check_ok. vm_compute. reflexivity.
  - apply tidy_check_ok. vm_compute. reflexivity.
  - split; apply lookup_empty.
  - vm_compute. reflexivity.
  - apply table_persist_faithful.
  - repeat constructor.
  - constructor.
  - exact Hrun.
  - reflexivity.
  - constructor.
  - constructor.
  - exists w', rs, w2. unfold run_recover. rewrite current_journal_eq, current_committed_eq.
    split_and!; [reflexivity|exact Hrec|exact Hclean|].
    apply Hok. pose proof run_interrupted as Hrs. rewrite Hrun in Hrs. simpl in Hrs.
    destruct rs as [|r1 [|r2 [|r3 rs]]]; try discriminate Hrs.
    injection Hrs as _ _ Hr3. apply Exists_cons_tl, Exists_cons_tl, Exists_cons_hd. assumption.
Defined.

(** * A journal that is not the one the reservation is bound to *)

(** C14. A recovery touches nothing when the journal it finds is not its own: one
    whose bytes are not those the reservation is bound to, that does not read
    as a journal, or that does not answer to the manifest, ends it at once. *)
Theorem foreign_journal_untouched `{Sha256, Persist DeliveryJournal} m es journal_file committed
    expected w enc :
  control (state w) !! journal_file = Some enc →
  (expected ≠ Some (digest_of enc) ∨ json_decode enc = (None : option DeliveryJournal) ∨
   ∃ j, json_decode enc = Some j ∧ journal_matches_manifest j m = false) →
  ∃ e, recover_delivery_bound m es journal_file committed expected w = (w, Err (Failed e)).
Proof.
  intros Henc Hforeign. unfold recover_delivery_bound, control_exists, control_read.
  cbv [mbind method_bind get_control mret method_ret]. rewrite Henc. cbn [negb].
  rewrite bool_decide_true by done. cbn [negb].
  rewrite ?Henc. destruct (decide (expected = Some (digest_of enc))) as [Heq|Hne].
  2:{ rewrite bool_decide_false by done. exists PayloadMismatch. reflexivity. }
  rewrite bool_decide_true by done. cbn [negb fail_if mret method_ret]. unfold lift, m_lift.
  cbv [mret method_ret].
  destruct Hforeign as [?|[Hnone|(j&Hj&Hno)]]; [done| |].
  - rewrite Hnone. by exists Serialization.
  - rewrite Hj. simpl. rewrite Hno. by exists PayloadMismatch.
Qed.

Lemma foreign_journal_untouched_witness : ∃ e,
  recover_delivery_bound run_manifest run_files "journal" "committed" None
    {| state := {| tree := run_tree; control := <["journal" := "bytes"]> ∅; reserved := None |};
       faults := []; sync_faults := [] |}
  = ({| state := {| tree := run_tree; control := <["journal" := "bytes"]> ∅; reserved := None |};
        faults := []; sync_faults := [] |}, Err (Failed e)).
Proof.
  apply (foreign_journal_untouched _ _ _ _ _ _ "bytes"); [apply lookup_insert_eq|].
  left. discriminate.
Defined.

(** * What goes wrong *)

Lemma prefixes_from_last prefix components : prefix ≠ "" → components ≠ [] →
  ∃ l, prefixes_from prefix components = l ++ [join_segments (prefix :: components)].
Proof.
  revert prefix. induction components as [|c [|d components] IH]; intros prefix Hp Hne; [done| |].
  - exists []. cbn [prefixes_from app]. rewrite bool_decide_false by done.
    by rewrite <-str_app_assoc.
  - destruct (IH (prefix +:+ "/" +:+ c)) as [l Hl]; [intros Heq; by destruct prefix|done|].
    cbn [prefixes_from] in *. rewrite (bool_decide_false (prefix = "")) by done.
    rewrite <-str_app_assoc. eexists (_ :: l). rewrite Hl. cbn [app]. do 3 f_equal.
    rewrite !join_segments_cons. by rewrite <-!str_app_assoc.
Qed.

Lemma path_prefixes_last p : whole_segments p → ∃ l, path_prefixes p = l ++ [p].
Proof.
  assert (∀ components, Forall (λ w, w ≠ "") components → components ≠ [] →
    ∃ l, prefixes_from "" components = l ++ [join_segments components]) as Hall.
  { intros components [|c [|d rest] Hc _] Hne; [done|by exists []|].
    destruct (prefixes_from_last c (d :: rest)) as [l Hl]; [done|done|].
    exists (c :: l). change (prefixes_from "" (c :: d :: rest)) with
      (c :: prefixes_from c (d :: rest)). by rewrite Hl. }
  intros Hp. destruct (Hall (segments p) Hp (split_on_not_nil is_slash p)) as [l Hl].
  exists l. unfold path_prefixes. by rewrite Hl, join_segments_split.
Qed.

(** The directories above a file are made the deepest first, each with a call
    that makes one directory: a candidate that adds a file below two directories
    that do not exist cannot be delivered, without any fault. *)
Theorem nested_directories_refused m f w :
  is_deleted_file f = false → whole_segments (path f) →
  parent_path (path f) ≠ "" → parent_path (parent_path (path f)) ≠ "" →
  tree (state w) !! parent_path (path f) = None →
  tree (state w) !! parent_path (parent_path (path f)) = None →
  parent_path (path f) ∉ (path <$> filter (λ f, is_deleted_file f = true) (files m)) →
  lossless (faults w) →
  ∃ w', create_ancestors m f w = (w', Err (Failed (Io NotFound))) ∧ state w' = state w.
Proof.
  intros Hkept Hwhole Hp Hpp Hn Hnn Hdel Hfaults. unfold create_ancestors. rewrite Hkept.
  rewrite bool_decide_false by done.
  destruct (path_prefixes_last (parent_path (path f))) as [l ->].
  { unfold whole_segments. destruct (parent_segments (path f)) as (Hseg&x&Hx); [done..|].
    rewrite Hseg. unfold whole_segments in Hwhole. rewrite Hx in Hwhole.
    by apply Forall_app in Hwhole as [? _]. }
  rewrite reverse_app. cbn [reverse rev_append app m_for_each]. unfold create_ancestor.
  rewrite (bool_decide_false (parent_path (path f) ∈ _)) by done.
  cbv [mbind method_bind metadata get_tree mret method_ret]. rewrite Hn.
  unfold create_dir, change, operate.
  assert (default Proceeds (head (faults w)) = Proceeds) as ->.
  { destruct Hfaults as [|? ? ->]; done. }
  cbn [tree state set_faults]. unfold op_create_dir. rewrite Hn.
  assert (has_parent (tree (state w)) (parent_path (path f)) = false) as ->.
  { unfold has_parent. rewrite bool_decide_false by done. by rewrite Hnn. }
  by exists (set_faults (tail (faults w)) w).
Qed.

(** The example candidate with its script two new directories down. *)
Definition nested_file : CandidateFile := {|
  executable := true; path := "tools/bin/run.sh"; file_digest := Some (digest_of "new script");
  kind := Added |}.
Definition nested_manifest (payload : option ContentDigest) : CandidateManifest := {|
  candidate_id := word_of 128 8; base_revision := Some "c0ffee"; files := [nested_file];
  diff_digest := digest_of run_diff; dependency_state_digest := digest_of "";
  configuration_digest := digest_of ""; environment_digest := digest_of "";
  delivery_payload_digest := payload; evidence_ids := [] |}.

Lemma nested_directories_refused_witness : ∃ w',
  create_ancestors (nested_manifest None) nested_file (run_world [] [])
    = (w', Err (Failed (Io NotFound))) ∧ state w' = run_state.
Proof.
  apply (nested_directories_refused (nested_manifest None) nested_file (run_world [] [])).
  - reflexivity.
  - repeat constructor; discriminate.
  - discriminate.
  - discriminate.
  - vm_compute. reflexivity.
  - vm_compute. reflexivity.
  - apply not_elem_of_nil.
  - constructor.
Defined.

(** The whole delivery of it fails, without any fault, and is rolled back. *)
Definition nested_files : list CandidateFilePayload :=
  [Payloads.payload_with_executable "tools/bin/run.sh" "new script" true].
Definition nested_journal : DeliveryJournal := {|
  journal_candidate := word_of 128 8;
  journal_files := [
    {| approved_digest := Some (digest_of "new script"); approved_executable := true;
       original_digest := None; original_directory := false;
       original_executable := false; saved_path := "tools/bin/run.sh" |}];
  journal_nonce := hex_of_bytes "0123456789abcdef" |}.
Definition nested_persist : Persist DeliveryJournal := table_persist [nested_journal].
Example nested_delivery_fails :
  match payload_digest nested_files with
  | Ok payload =>
      let m := nested_manifest (Some payload) in
      let (w, r) := deliver (H5 := nested_persist) "/repository" (Some "0123456789abcdef") m run_diff
                      nested_files (run_world [] []) in
      match r with Err (Failed (Io NotFound)) => true | _ => false end &&
      bool_decide ((entry_text (tree (state w)) <$> run_paths).*1 =
        [run_base "README.md"; run_base "old.txt"; "kept"; "nothing"]) &&
      bool_decide (length (map_to_list (control (state w))) = 0)
  | Err _ => false
  end = true.
Proof. vm_compute. reflexivity. Qed.

(** The world after a delivery whose marker could not be synchronised and whose
    rollback was interrupted. *)
Definition marker_world : World := (run_deliver "0123456789abcdef"
  (run_world (replicate 21 Proceeds ++ [Interrupts 0]) (replicate 11 Proceeds ++ [Fails 0]))).1.

(** The marker is there when its synchronisation fails, and the rollback that
    follows leaves it there until its very end: a process that ends during that
    rollback leaves files that are neither as they were nor as approved, behind a
    marker that says they are delivered, and every recovery fails. *)
Theorem marker_sync_failure_wedges :
  (run_recover marker_world).2 = Err (Failed no_longer_verifies) ∧
  (entry_text (tree (state marker_world)) <$> run_paths).*1 =
    ["nothing"; "nothing"; "kept"; "new script"].
Proof. split; vm_compute; reflexivity. Qed.
End DeliveryRuns.
