(* ===== verification/VerificationPlans.v ===== *)
(** The verification plan of an architecture: workflowd/src/verification/plan.rs.
    The gates come from the plan's commands, from the project's own scripts and
    from what the write scopes touch.

    The standard library's view of the repository's directory, the [shlex] crate
    and serde_json's reader are arguments; [new_id i] is the identifier that the
    [i]th call of [EvidenceId::new] gives, one for every gate that is added. *)
From Stdlib Require Import Ascii String.
From S2P Require Import Prelude Text Ids Canonical Verdicts Plans Frames.

Module VerificationPlan.
Export Evidence.
Abbreviation ArchitecturePlan := Plan.ArchitecturePlan.

Definition DEFAULT_TIMEOUT_SECONDS : N := 600.

(** * Data *)

Inductive VerificationRisk : Type := InternalInspection | ProjectCode.

Inductive VerificationExecutor : Type :=
| CandidateIntegrity
| CommandExecutor (arguments : list string) (program : string)
| SecretScan
| Unavailable (reason : string).

Record VerificationGate : Type := {
  executor : VerificationExecutor;
  gate_id : EvidenceId;
  gate_kind : EvidenceKind;
  mandatory : bool;
  name : string;
  precondition : string;
  risk : VerificationRisk;
  timeout_seconds : N;
}.

Record VerificationPlan : Type := {
  gates : list VerificationGate;
  plan_id : VerificationPlanId;
}.

Inductive VerificationPlanError : Type :=
| InvalidCommand | InvalidGate | InvalidProjectConfiguration | Io.

(** [serde_json::Value]; the keys of an object are distinct. *)
Inductive Value : Type :=
| Null
| Bool (b : bool)
| Number (text : string)
| StringValue (s : string)
| Array (items : list Value)
| Object (members : list (string * Value)).

Definition object_get (key : string) (members : list (string * Value)) : option Value :=
  snd <$> find (λ member, bool_decide (member.1 = key)) members.
(** [Value::get] with a key, [as_object], [is_string]. *)
Definition value_get (key : string) (v : Value) : option Value :=
  match v with Object members => object_get key members | _ => None end.
Definition as_object (v : Value) : option (list (string * Value)) :=
  match v with Object members => Some members | _ => None end.
Definition is_string (v : Value) : bool := match v with StringValue _ => true | _ => false end.

(** * Text *)

Definition contains_any (value : string) (candidates : list string) : bool :=
  existsb (λ candidate, contains_str candidate value) candidates.

(** [str::trim_end_matches]: every repetition of the suffix, which is not empty. *)
Fixpoint drop_while_ends (fuel : nat) (suffix s : string) : string :=
  match fuel with
  | O => s
  | S fuel' =>
      if ends_with suffix s
      then drop_while_ends fuel' suffix (substring 0 (String.length s - String.length suffix) s)
      else s
  end.
Definition trim_end_matches (suffix s : string) : string :=
  drop_while_ends (String.length s) suffix s.

Definition unsafe_byte (a : ascii) : bool :=
  is_char nul a || is_char "010" a || is_char "013" a.

(** * Commands *)

Definition shell_operator (argument : string) : bool :=
  bool_decide (argument ∈ ["&&"; "||"; ";"; "|"; "<"; ">"]).

(** The name a program is judged by. *)
Definition executable_name (program : string) : string :=
  to_ascii_lowercase (trim_end_matches ".exe"
    (default program (last (split_on (is_char slash) (forward_slashes program))))).

Definition validate_command (program : string) (arguments : list string)
    : result VerificationPlanError unit :=
  _ ← reject_if (is_blank program || str_any unsafe_byte program
        || existsb (λ argument, str_any unsafe_byte argument || shell_operator argument) arguments)
        InvalidCommand;
  reject_if (bool_decide (executable_name program ∈
               ["cmd"; "del"; "git"; "powershell"; "pwsh"; "rm"; "sh"; "shutdown"])
      || existsb (λ argument, bool_decide (to_ascii_lowercase argument ∈
           ["deploy"; "destroy"; "drop"; "publish"; "push"; "reset"])) arguments)
    InvalidCommand.

Definition classify (command : string) : string * EvidenceKind :=
  let lower := to_ascii_lowercase command in
  if contains_any lower ["a11y"; "accessibility"; "axe"]
  then ("accessibility:" +:+ command, Browser)
  else if contains_any lower ["playwright"; "cypress"; "test:e2e"; "test:browser"; " e2e"]
  then ("browser:" +:+ command, Browser)
  else if contains_any lower
         ["database"; "migration"; "postgres"; "mysql"; " db"; ":db"; "db:"]
  then ("database:" +:+ command, Database)
  else if contains_any lower ["package:verify"; "test:package"; "artifact:verify"]
  then ("package:" +:+ command, Package)
  else if contains_any lower ["security"; "audit"; "vulnerab"; "secret"; "license"]
  then ("security:" +:+ command, Security)
  else if contains_any lower ["lint"; "clippy"; "format"; " fmt"]
  then ("lint:" +:+ command, Lint)
  else if contains_any lower ["build"; "compile"; "typecheck"; " check"]
  then ("build:" +:+ command, Build)
  else if contains_str "test" lower
  then ("test:" +:+ command, Test)
  else ("command:" +:+ command, Command).

(** * Scopes *)

Definition database_scope (scope : string) : bool :=
  ends_with ".sql" scope
  || contains_any scope ["database"; "migrations"; "schema"; "/db"; "db/"].

Definition user_interface_scope (scope : string) : bool :=
  existsb (λ extension, ends_with extension scope)
    [".css"; ".html"; ".jsx"; ".svelte"; ".tsx"; ".vue"]
  || contains_any scope ["components"; "frontend"; "pages"; "ui/"].

Definition dependency_scope (scope : string) : bool :=
  existsb (λ name, ends_with name scope)
    ["bun.lock"; "bun.lockb"; "cargo.lock"; "cargo.toml"; "composer.json"; "composer.lock";
     "go.mod"; "go.sum"; "package-lock.json"; "package.json"; "pnpm-lock.yaml"; "poetry.lock";
     "pom.xml"; "pyproject.toml"; "requirements.txt"; "yarn.lock"].

Definition packaging_scope (scope : string) : bool :=
  dependency_scope scope
  || contains_any scope ["installer"; "packaging"; "release"; "distribution"; "dockerfile"].

(** The write scopes of the plan's tasks, as they are compared. *)
Definition plan_scopes (architecture : ArchitecturePlan) : list string :=
  (λ scope, forward_slashes (to_ascii_lowercase scope)) <$>
    (Plan.tasks architecture ≫= Plan.task_write_scopes).

(** * Validation *)

Definition gate_in_bounds (g : VerificationGate) : bool :=
  negb (is_blank (name g)) && negb (is_blank (precondition g))
  && negb (timeout_seconds g =? 0)%N && (timeout_seconds g <=? 7200)%N.

(** One turn of the loop over the gates: the identifiers and names seen. *)
Definition validate_gate (seen : gset EvidenceId * gset string) (g : VerificationGate)
    : result VerificationPlanError (gset EvidenceId * gset string) :=
  _ ← reject_if (bool_decide (gate_id g ∈ seen.1) || bool_decide (name g ∈ seen.2)
                 || negb (gate_in_bounds g)) InvalidGate;
  _ ← match executor g with
      | CommandExecutor arguments program => validate_command program arguments
      | _ => Ok tt
      end;
  Ok ({[gate_id g]} ∪ seen.1, {[name g]} ∪ seen.2).

(** [VerificationPlan::validate]. *)
Definition verification_plan_validate (id : VerificationPlanId) (gates : list VerificationGate)
    : result VerificationPlanError VerificationPlan :=
  _ ← reject_if (match gates with [] => true | _ => false end
                 || (256 <? N.of_nat (length gates))%N) InvalidGate;
  _ ← try_fold validate_gate (∅, ∅) gates;
  Ok {| gates := gates; plan_id := id |}.

(** [VerificationPlan::evidence_ids]. *)
Definition plan_evidence_ids (p : VerificationPlan) : list EvidenceId := gate_id <$> gates p.

(** * Discovery *)

(** The two collections that discovery fills. *)
Record Discovery : Type := {
  found : list VerificationGate;
  invocations : gset string;
}.
Abbreviation discovering := (method Discovery VerificationPlanError).

Definition unit_separator : string := String "031" "".

Section discover.
Context `{FromJson Value} (shlex_split : string → option (list string))
  (is_file : string → bool) (read : string → option string) (new_id : nat → EvidenceId).

Definition push (g : EvidenceId → VerificationGate) : discovering unit :=
  m_modify (λ d, {| found := found d ++ [g (new_id (length (found d)))];
                    invocations := invocations d |}).

Definition add_command (command : string) (is_mandatory : bool) : discovering unit :=
  words ← m_lift (ok_or InvalidCommand (shlex_split command));
  match words with
  | [] => m_throw InvalidCommand
  | program :: arguments =>
      _ ← m_lift (validate_command program arguments);
      let invocation := String.concat unit_separator (program :: arguments) in
      d ← m_get;
      if decide (invocation ∈ invocations d) then mret tt else
        _ ← m_modify (λ d, {| found := found d; invocations := {[invocation]} ∪ invocations d |});
        let '(gate_name, kind) := classify command in
        push (λ id, {|
          executor := CommandExecutor arguments program;
          gate_id := id;
          gate_kind := kind;
          mandatory := is_mandatory;
          name := gate_name;
          precondition :=
            "The project command is configured and the candidate worktree is isolated.";
          risk := ProjectCode;
          timeout_seconds := DEFAULT_TIMEOUT_SECONDS |})
  end.

Definition package_script_names : list string :=
  ["format:check"; "lint"; "typecheck"; "check"; "build"; "test"; "test:integration";
   "test:database"; "test:db"; "db:test"; "test:e2e"; "e2e"; "test:browser"; "test:a11y";
   "test:accessibility"; "a11y"; "accessibility"; "security"; "audit"; "audit:dependencies";
   "license:check"; "licenses"; "test:package"; "package:verify"].

Definition package_manager : string :=
  if is_file "bun.lock" || is_file "bun.lockb" then "bun"
  else if is_file "pnpm-lock.yaml" then "pnpm"
  else if is_file "yarn.lock" then "yarn"
  else "npm".

Definition add_script (scripts : list (string * Value)) (script : string) : discovering unit :=
  if match object_get script scripts with Some v => is_string v | None => false end
  then add_command (package_manager +:+ " run " +:+ script) true
  else mret tt.

Definition discover_package_scripts : discovering unit :=
  if negb (is_file "package.json") then mret tt else
    bytes ← m_lift (ok_or Io (read "package.json"));
    _ ← m_lift (reject_if (4 * 1024 * 1024 <? str_len bytes)%N InvalidProjectConfiguration);
    value ← m_lift (ok_or InvalidProjectConfiguration (from_slice (str_chars bytes)));
    let scripts := default [] (value_get "scripts" value ≫= as_object) in
    m_for_each (add_script scripts) package_script_names.

Definition discover_cargo : discovering unit :=
  if negb (is_file "Cargo.toml") then mret tt else
    m_for_each (λ command, add_command command true)
      ["cargo fmt --check"; "cargo clippy --all-targets --all-features -- -D warnings";
       "cargo test --all-features"].

Definition unavailable (gate_name : string) (kind : EvidenceKind) (reason : string)
    (id : EvidenceId) : VerificationGate :=
  {| executor := Unavailable reason; gate_id := id; gate_kind := kind; mandatory := true;
     name := gate_name; precondition := reason; risk := InternalInspection;
     timeout_seconds := 1 |}.

Definition secret_scan_gate (id : EvidenceId) : VerificationGate :=
  {| executor := SecretScan; gate_id := id; gate_kind := Security; mandatory := true;
     name := "security:changed-content-secret-scan";
     precondition := "A frozen candidate exists."; risk := InternalInspection;
     timeout_seconds := 120 |}.
Definition candidate_integrity_gate (id : EvidenceId) : VerificationGate :=
  {| executor := CandidateIntegrity; gate_id := id; gate_kind := Inspection; mandatory := true;
     name := "candidate:immutable-bytes";
     precondition := "The frozen candidate and exact diff are available.";
     risk := InternalInspection; timeout_seconds := 120 |}.

Definition is_secret_scan (g : VerificationGate) : bool :=
  match executor g with SecretScan => true | _ => false end.
Definition has_kind (kind : EvidenceKind) (g : VerificationGate) : bool :=
  bool_decide (gate_kind g = kind).
Definition is_accessibility (g : VerificationGate) : bool :=
  starts_with "accessibility:" (name g).
Definition is_vulnerability_audit (g : VerificationGate) : bool :=
  has_kind Security g && contains_any (name g) ["audit"; "security"; "vulnerab"]
  && negb (is_secret_scan g).
Definition is_license_check (g : VerificationGate) : bool :=
  has_kind Security g && contains_str "license" (name g).

(** [if !gates.iter().any(p) { gates.push(gate) }]. *)
Definition require_gate (p : VerificationGate → bool) (g : EvidenceId → VerificationGate)
    : discovering unit :=
  d ← m_get;
  if existsb p (found d) then mret tt else push g.

Definition require_for_scopes (scopes : list string) : discovering unit :=
  _ ← (if existsb database_scope scopes then
        require_gate (has_kind Database)
          (unavailable "database:real-integration" Database
            "Persistence changes require a project-native real or disposable database check.")
      else mret tt);
  _ ← (if existsb user_interface_scope scopes then
        _ ← require_gate (has_kind Browser)
          (unavailable "browser:affected-user-flow" Browser
            "User-interface changes require a project-native browser flow.");
        require_gate is_accessibility
          (unavailable "accessibility:affected-user-flow" Browser
            "User-interface changes require a project-native accessibility check.")
      else mret tt);
  _ ← (if existsb dependency_scope scopes then
        _ ← require_gate is_vulnerability_audit
          (unavailable "security:dependency-vulnerability" Security
            "Dependency changes require a project-native vulnerability audit.");
        require_gate is_license_check
          (unavailable "security:dependency-license" Security
            "Dependency changes require a project-native license policy check.")
      else mret tt);
  if existsb packaging_scope scopes then
    require_gate (has_kind Package)
      (unavailable "package:production-artifact" Package
        "Packaging changes require a project-native production artifact and installation check.")
  else mret tt.

Definition discover_gates (architecture : ArchitecturePlan) : discovering unit :=
  _ ← m_for_each (λ command, add_command command true)
        (Plan.tasks architecture ≫= Plan.verification_commands);
  _ ← discover_package_scripts;
  _ ← discover_cargo;
  _ ← push secret_scan_gate;
  _ ← push candidate_integrity_gate;
  require_for_scopes (plan_scopes architecture).

(** [discover_for]. *)
Definition discover_for (architecture : ArchitecturePlan) (id : VerificationPlanId)
    : result VerificationPlanError VerificationPlan :=
  match discover_gates architecture {| found := []; invocations := ∅ |} with
  | (d, Ok _) => verification_plan_validate id (found d)
  | (_, Err e) => Err e
  end.

(** * What discovery gives *)

(** Gates are only added. *)
Definition grows (d d' : Discovery) : Prop := found d `prefix_of` found d'.
#[local] Instance grows_preorder : PreOrder grows.
Proof. split; unfold grows; [by intros d|]. intros d1 d2 d3 ??. by etrans. Qed.

(** A gate that says that nothing in the project does what it asks for. *)
Definition is_unavailable (g : VerificationGate) : Prop :=
  (∃ reason, executor g = Unavailable reason) ∧ mandatory g = true.

(** A step that adds only gates that cannot run, after which [Q] holds. *)
Definition adds (Q : list VerificationGate → Prop) (m : discovering unit) : Prop :=
  ∀ d d' u, m d = (d', Ok u) →
    Q (found d') ∧ ∃ more, found d' = found d ++ more ∧ Forall is_unavailable more.

Lemma adds_require p g :
  (∀ id, p (g id) = true) → (∀ id, is_unavailable (g id)) →
  adds (λ gs, existsb p gs = true) (require_gate p g).
Proof.
  intros Hp Hg d d' u. unfold require_gate. intros (d1&d2&[-> ->]%m_get_ok&Hd)%method_bind_ok.
  destruct (existsb p (found d)) eqn:E.
  - apply method_ret_ok in Hd as [-> _]. split; [done|]. exists []. by rewrite app_nil_r.
  - apply m_modify_ok in Hd as ->. simpl. rewrite existsb_app. simpl. rewrite Hp. split.
    + by rewrite orb_true_r.
    + eexists. split; [done|]. by constructor.
Qed.

Lemma adds_when (c : bool) Q m : adds Q m → adds (λ gs, c = true → Q gs) (if c then m else mret tt).
Proof.
  intros Hm d d' u. destruct c; intros Hd.
  - destruct (Hm _ _ _ Hd) as [? ?]. by split.
  - apply method_ret_ok in Hd as [-> _]. split; [done|]. exists []. by rewrite app_nil_r.
Qed.

(** What holds of a list of gates holds when more are added. *)
Class Monotone (Q : list VerificationGate → Prop) : Prop :=
  monotone gs more : Q gs → Q (gs ++ more).
#[local] Instance monotone_existsb p : Monotone (λ gs, existsb p gs = true).
Proof. intros gs more Hp. rewrite existsb_app. by rewrite Hp. Qed.
#[local] Instance monotone_impl (P : Prop) Q : Monotone Q → Monotone (λ gs, P → Q gs).
Proof. intros HQ gs more Himp HP. by apply HQ, Himp. Qed.
#[local] Instance monotone_and Q1 Q2 :
  Monotone Q1 → Monotone Q2 → Monotone (λ gs, Q1 gs ∧ Q2 gs).
Proof. intros H1 H2 gs more [??]. split; [by apply H1|by apply H2]. Qed.

Lemma adds_then Q1 Q2 m1 m2 `{!Monotone Q1} :
  adds Q1 m1 → adds Q2 m2 → adds (λ gs, Q1 gs ∧ Q2 gs) (_ ← m1; m2).
Proof.
  intros H1 H2 d d' u (d1&u1&[HQ (l1&Hl1&?)]%H1&[HQ2 (l2&Hl2&?)]%H2)%method_bind_ok.
  split.
  - split; [|done]. rewrite Hl2. by apply monotone.
  - exists (l1 ++ l2). split; [|by apply Forall_app]. by rewrite Hl2, Hl1, app_assoc.
Qed.

(** What the scopes ask of the gates. *)
Definition scopes_guarded (scopes : list string) (gs : list VerificationGate) : Prop :=
  (existsb database_scope scopes = true → existsb (has_kind Database) gs = true) ∧
  (existsb user_interface_scope scopes = true →
     existsb (has_kind Browser) gs = true ∧ existsb is_accessibility gs = true) ∧
  (existsb dependency_scope scopes = true →
     existsb is_vulnerability_audit gs = true ∧ existsb is_license_check gs = true) ∧
  (existsb packaging_scope scopes = true → existsb (has_kind Package) gs = true).

Lemma adds_required scopes : adds (scopes_guarded scopes) (require_for_scopes scopes).
Proof.
  unfold scopes_guarded, require_for_scopes.
  repeat (apply adds_then; [typeclasses eauto| |]); apply adds_when.
  all: repeat (apply adds_then; [typeclasses eauto| |]).
  all: apply adds_require; intros id; [reflexivity|]; split; [by eexists|done].
Qed.

(** * The gates of commands *)

Definition gate_invocation (g : VerificationGate) : option string :=
  match executor g with
  | CommandExecutor arguments program => Some (String.concat unit_separator (program :: arguments))
  | _ => None
  end.

(** A gate of a command that may be run. *)
Definition is_command_gate (g : VerificationGate) : Prop :=
  mandatory g = true ∧
  ∃ arguments program, executor g = CommandExecutor arguments program ∧
    validate_command program arguments = Ok tt ∧ timeout_seconds g = DEFAULT_TIMEOUT_SECONDS.

(** The state of discovery while commands are added: one gate per invocation. *)
Definition commands_found (d : Discovery) : Prop :=
  Forall is_command_gate (found d) ∧
  ∀ i, i ∈ invocations d ↔ Some i ∈ gate_invocation <$> found d.

(** Words without the unit separator can be told from their joined text. *)
Definition separator_free (words : list string) : Prop :=
  Forall (λ w, str_any (is_char "031") w = false) words.

Lemma split_joined words : words ≠ [] → separator_free words →
  split_on (is_char "031") (String.concat unit_separator words) = words.
Proof.
  intros Hne Hfree. induction Hfree as [|w words Hw Hrest IH]; [done|].
  destruct words as [|w' words]; [by apply split_on_single|].
  change (String.concat unit_separator (w :: w' :: words))
    with (w +:+ String "031" (String.concat unit_separator (w' :: words))).
  rewrite split_on_app_sep, split_on_single by done. by rewrite IH.
Qed.

Lemma joined_inj words words' : words ≠ [] → words' ≠ [] →
  separator_free words → separator_free words' →
  String.concat unit_separator words = String.concat unit_separator words' → words = words'.
Proof.
  intros ???? Heq. rewrite <-(split_joined words), <-(split_joined words') by done. by rewrite Heq.
Qed.

(** The command is one of the gates. *)
Definition runs (gs : list VerificationGate) (command : string) : Prop :=
  ∃ program arguments, shlex_split command = Some (program :: arguments) ∧
    Some (String.concat unit_separator (program :: arguments)) ∈ gate_invocation <$> gs.

Lemma add_command_ok command d d' u :
  commands_found d → add_command command true d = (d', Ok u) →
  commands_found d' ∧ grows d d' ∧ runs (found d') command.
Proof.
  intros [Hall Hinv] (d1&words&[-> Hwords%ok_or_ok]%m_lift_ok&Hd)%method_bind_ok.
  destruct words as [|program arguments]; [by apply m_throw_ok in Hd|].
  apply method_bind_ok in Hd as (d1&[]&[-> Hvalid]%m_lift_ok&Hd).
  apply method_bind_ok in Hd as (d1&d2&[-> ->]%m_get_ok&Hd). cbv zeta in Hd.
  case_decide as Hin.
  - apply method_ret_ok in Hd as [-> _]. split; [done|]. split; [reflexivity|].
    exists program, arguments. split; [done|]. by apply Hinv.
  - apply method_bind_ok in Hd as (d1&u1&->%m_modify_ok&Hd).
    destruct (classify command) as [gate_name kind]. apply m_modify_ok in Hd as ->.
    split; [split|split]; simpl in *.
    + apply Forall_app. split; [done|]. constructor; [|done]. split; [done|]. by do 2 eexists.
    + intros i. rewrite fmap_app, elem_of_app, elem_of_union, <-Hinv. simpl.
      rewrite elem_of_singleton, list_elem_of_singleton. unfold gate_invocation. simpl.
      naive_solver.
    + by eexists.
    + exists program, arguments. split; [done|]. simpl. rewrite fmap_app, elem_of_app. right.
      by apply list_elem_of_singleton.
Qed.

Lemma runs_grows d d' command : grows d d' → runs (found d) command → runs (found d') command.
Proof.
  intros [more ->] (program&arguments&?&?). exists program, arguments. split; [done|].
  rewrite fmap_app, elem_of_app. by left.
Qed.

(** A step that adds only gates of commands. *)
Definition adds_commands (m : discovering unit) : Prop :=
  ∀ d d' u, commands_found d → m d = (d', Ok u) → commands_found d' ∧ grows d d'.

Lemma adds_commands_skip : adds_commands (mret tt).
Proof. intros d d' u ? [-> _]%method_ret_ok. by split. Qed.

Lemma adds_commands_one command : adds_commands (add_command command true).
Proof. intros d d' u Hc Hd. by destruct (add_command_ok _ _ _ _ Hc Hd) as (?&?&?). Qed.

Lemma adds_commands_each {A} (f : A → discovering unit) l :
  (∀ x, adds_commands (f x)) → adds_commands (m_for_each f l).
Proof.
  intros Hf. induction l as [|x l IH]; simpl; [apply adds_commands_skip|].
  intros d d' u ? (d1&u1&[? ?]%Hf&[? ?]%IH)%method_bind_ok; try done. split; [done|]. by etrans.
Qed.

Lemma adds_commands_scripts : adds_commands discover_package_scripts.
Proof.
  unfold discover_package_scripts. case_match; [apply adds_commands_skip|].
  intros d d' u ? Hd. do 3 (apply method_bind_ok in Hd as (?&?&[-> _]%m_lift_ok&Hd)).
  revert Hd. apply adds_commands_each; [|done]. intros script. unfold add_script.
  case_match; [apply adds_commands_one|apply adds_commands_skip].
Qed.

Lemma adds_commands_cargo : adds_commands discover_cargo.
Proof.
  unfold discover_cargo. case_match; [apply adds_commands_skip|].
  apply adds_commands_each. intros command. apply adds_commands_one.
Qed.

Lemma add_commands_runs commands d d' u :
  commands_found d → m_for_each (λ command, add_command command true) commands d = (d', Ok u) →
  commands_found d' ∧ grows d d' ∧ Forall (runs (found d')) commands.
Proof.
  revert d. induction commands as [|c commands IH]; intros d Hd; simpl.
  { intros [-> _]%method_ret_ok. split; [done|]. by split. }
  intros (d1&u1&Hc&Hrest)%method_bind_ok. apply add_command_ok in Hc as (Hd1&?&?); [|done].
  destruct (IH _ Hd1 Hrest) as (?&?&?). split; [done|]. split; [by etrans|].
  constructor; [|done]. by eapply runs_grows.
Qed.

(** The gates of a discovered plan: its commands, the two inspections, and what
    nothing in the project provides. *)
Definition plan_shape (architecture : ArchitecturePlan) (gs : list VerificationGate) : Prop :=
  ∃ commands required,
    gs = commands ++ [secret_scan_gate (new_id (length commands));
                      candidate_integrity_gate (new_id (S (length commands)))] ++ required ∧
    Forall is_command_gate commands ∧ Forall is_unavailable required ∧
    Forall (runs commands) (Plan.tasks architecture ≫= Plan.verification_commands) ∧
    scopes_guarded (plan_scopes architecture) gs.

Lemma discover_gates_ok architecture d' u :
  discover_gates architecture {| found := []; invocations := ∅ |} = (d', Ok u) →
  plan_shape architecture (found d').
Proof.
  unfold discover_gates. intros (d1&u1&H1&Hd)%method_bind_ok.
  apply add_commands_runs in H1 as (Hc1&_&Hruns); [|split; [done|intros i; simpl; set_solver]].
  apply method_bind_ok in Hd as (d2&u2&[Hc2 G2]%adds_commands_scripts&Hd); [|done].
  apply method_bind_ok in Hd as (d3&u3&[Hc3 G3]%adds_commands_cargo&Hd); [|done].
  apply method_bind_ok in Hd as (d4&u4&H4&Hd). apply m_modify_ok in H4.
  apply method_bind_ok in Hd as (d5&u5&H5&Hd). apply m_modify_ok in H5.
  apply adds_required in Hd as [Hscopes (more&Hmore&Hun)].
  exists (found d3), more. subst d4 d5. simpl in *. split_and!; try done.
  - rewrite Hmore, <-!app_assoc, length_app, Nat.add_1_r. done.
  - apply Hc3.
  - eapply Forall_impl; [exact Hruns|]. intros c Hc. simpl.
    do 2 (eapply runs_grows; [eassumption|]). done.
Qed.

(** * What validation gives *)

Lemma validate_gate_ok seen g seen' :
  validate_gate seen g = Ok seen' ↔
  gate_id g ∉ seen.1 ∧ name g ∉ seen.2 ∧ gate_in_bounds g = true ∧
  (∀ arguments program, executor g = CommandExecutor arguments program →
     validate_command program arguments = Ok tt) ∧
  seen' = ({[gate_id g]} ∪ seen.1, {[name g]} ∪ seen.2).
Proof.
  unfold validate_gate. rewrite result_then_ok, result_then_ok, reject_if_ok.
  rewrite !orb_false_iff, !bool_decide_eq_false, negb_false_iff. split.
  - intros (((?&?)&?)&Hx&[= <-]). split_and!; try done. intros a p Hg. by rewrite Hg in Hx.
  - intros (?&?&?&Hx&->). split_and!; try done. destruct (executor g); try done. by apply Hx.
Qed.

Lemma validate_gates_ok gs seen seen' :
  try_fold validate_gate seen gs = Ok seen' →
  Forall (λ g, gate_id g ∉ seen.1 ∧ name g ∉ seen.2 ∧ gate_in_bounds g = true) gs ∧
  NoDup (gate_id <$> gs) ∧ NoDup (name <$> gs).
Proof.
  revert seen. induction gs as [|g gs IH]; intros seen; simpl; [by repeat constructor|].
  destruct (validate_gate seen g) as [seen1|] eqn:Hg; [|done].
  apply validate_gate_ok in Hg as (?&?&?&_&->). intros (Hall&?&?)%IH. simpl in *.
  rewrite Forall_forall in Hall. split_and!.
  - constructor; [done|]. apply Forall_forall. intros h Hh. specialize (Hall h Hh). set_solver.
  - constructor; [|done]. intros (h&Heq&Hh)%list_elem_of_fmap. specialize (Hall h Hh). set_solver.
  - constructor; [|done]. intros (h&Heq&Hh)%list_elem_of_fmap. specialize (Hall h Hh). set_solver.
Qed.

Lemma verification_plan_validate_ok id gs p :
  verification_plan_validate id gs = Ok p →
  p = {| gates := gs; plan_id := id |} ∧ gs ≠ [] ∧ (N.of_nat (length gs) ≤ 256)%N ∧
  NoDup (gate_id <$> gs) ∧ NoDup (name <$> gs) ∧ Forall (λ g, gate_in_bounds g = true) gs.
Proof.
  unfold verification_plan_validate.
  intros (u&Hlen%reject_if_ok&(seen&Hseen&[= <-])%result_bind_ok)%result_bind_ok.
  apply orb_false_iff in Hlen as [Hne Hlen%N.ltb_ge].
  apply validate_gates_ok in Hseen as (Hall&?&?). split_and!; try done.
  - by destruct gs.
  - eapply Forall_impl; [exact Hall|]. naive_solver.
Qed.

Lemma discovered_plan_facts architecture id p :
  discover_for architecture id = Ok p →
  plan_id p = id ∧ plan_shape architecture (gates p) ∧
  Forall (λ g, mandatory g = true) (gates p) ∧
  NoDup (gate_id <$> gates p) ∧ NoDup (name <$> gates p) ∧
  Forall (λ g, 0 < timeout_seconds g ≤ 7200)%N (gates p) ∧ length (gates p) ≤ 256.
Proof.
  unfold discover_for. destruct (discover_gates architecture _) as [d [u|]] eqn:Hd; [|done].
  intros (->&_&?&?&?&Hb)%verification_plan_validate_ok. apply discover_gates_ok in Hd.
  simpl. split_and!; try done; [| |lia].
  - destruct Hd as (commands&required&->&Hc&Hr&_). rewrite !Forall_app. split_and!.
    + eapply Forall_impl; [exact Hc|]. by intros g [? _].
    + by repeat constructor.
    + eapply Forall_impl; [exact Hr|]. by intros g [_ ?].
  - eapply Forall_impl; [exact Hb|]. intros g Hg. unfold gate_in_bounds in Hg. to_prop. lia.
Qed.

(** C11. A discovered plan checks what it has to: every gate is mandatory, with
    an identifier, a name and a time limit of its own; every verification
    command of the architecture is that of a gate, where two commands are the
    same if their words joined by the unit separator are, as the code compares
    them, and a gate's command is one that may be run; the secret scan and the
    check of the candidate's bytes come after every command, and after them only
    gates that run nothing; and a write scope that touches the database, the
    user interface, dependencies or packaging has a gate of its kind, which is
    one that the project cannot run if the project provides none. *)
Theorem discovered_plan_guards architecture id p :
  discover_for architecture id = Ok p →
  plan_id p = id ∧ plan_shape architecture (gates p) ∧
  Forall (λ g, mandatory g = true) (gates p) ∧
  NoDup (gate_id <$> gates p) ∧ NoDup (name <$> gates p) ∧
  Forall (λ g, 0 < timeout_seconds g ≤ 7200)%N (gates p) ∧ length (gates p) ≤ 256.
Proof. apply discovered_plan_facts. Qed.
End discover.

(** * Examples *)

Definition sample_shlex (command : string) : option (list string) :=
  Some (split_on (is_char " ") command).
Definition sample_json : FromJson Value := λ _, Some (Object
  [("name", StringValue "shop");
   ("scripts", Object [("test", StringValue "vitest"); ("lint", StringValue "eslint ."); ("db:test", Null)])]).
Definition sample_is_file (path : string) : bool :=
  bool_decide (path ∈ ["package.json"; "yarn.lock"; "Cargo.toml"]).
Definition sample_task (write_scopes commands : list string) : Plan.PlannedTask :=
  {| Plan.task_criteria := ["it works"]; Plan.task_dependencies := []; Plan.task_id := word_of 128 1;
     Plan.objective := "objective"; Plan.requirement_ids := ["R1"]; Plan.title := "title";
     Plan.verification_commands := commands; Plan.task_write_scopes := write_scopes |}.
Definition sample_architecture : ArchitecturePlan :=
  {| Plan.assumptions := []; Plan.integration_checks := ["run it"];
     Plan.request_digest := word_of 256 7; Plan.requirements := []; Plan.risks := [];
     Plan.tasks := [sample_task ["DB/orders.sql"; "src/Cart.tsx"] ["cargo test --all-features"];
                    sample_task ["package.json"] ["npx playwright test"; "cargo fmt --check"]] |}.
Definition sample_discovered : result VerificationPlanError VerificationPlan :=
  let _ := sample_json in
  discover_for sample_shlex sample_is_file (λ _, Some "{}") (λ i, word_of 128 (N.of_nat i))
    sample_architecture (word_of 128 9).

(** The names of the gates, in order: a command that is asked for twice is one gate. *)
Example sample_discovered_names :
  match sample_discovered with Ok p => name <$> gates p | Err _ => [] end =
  ["test:cargo test --all-features"; "browser:npx playwright test"; "lint:cargo fmt --check";
   "lint:yarn run lint"; "test:yarn run test";
   "lint:cargo clippy --all-targets --all-features -- -D warnings";
   "security:changed-content-secret-scan"; "candidate:immutable-bytes";
   "database:real-integration"; "accessibility:affected-user-flow";
   "security:dependency-vulnerability"; "security:dependency-license";
   "package:production-artifact"].
Proof. vm_compute. reflexivity. Qed.

(** A command for the denied shells is refused; but the extension is taken off
    before the case is, so a program that ends in [.EXE] is not recognised. *)
Example denied_program_by_case :
  validate_command "C:\tools\PowerShell.exe" ["-Command"; "x"] = Err InvalidCommand ∧
  validate_command "C:\tools\PowerShell.EXE" ["-Command"; "x"] = Ok tt.
Proof. split; vm_compute; reflexivity. Qed.

(** The markers are searched for inside words: a script for taxes counts as an
    accessibility check and as a browser flow. *)
Example classified_inside_a_word :
  classify "npm run test:taxes" = ("accessibility:npm run test:taxes", Browser).
Proof. vm_compute. reflexivity. Qed.

Lemma discovered_plan_guards_witness :
  match sample_discovered with
  | Ok p =>
      plan_id p = word_of 128 9 ∧
      plan_shape sample_shlex (λ i, word_of 128 (N.of_nat i)) sample_architecture (gates p) ∧
      Forall (λ g, mandatory g = true) (gates p) ∧
      NoDup (gate_id <$> gates p) ∧ NoDup (name <$> gates p) ∧
      Forall (λ g, 0 < timeout_seconds g ≤ 7200)%N (gates p) ∧ length (gates p) ≤ 256
  | Err _ => False
  end.
Proof.
  assert (is_ok sample_discovered = true) as Hok by (vm_compute; reflexivity).
  destruct sample_discovered as [p|] eqn:Hp; [|done].
  exact (discovered_plan_guards (H := sample_json) _ _ _ _ _ _ _ Hp).
Defined.
End VerificationPlan.
