(* ===== verification/VerificationRuns.v ===== *)
(** A verification run of a frozen candidate: workflowd/src/verification/runner.rs
    and secrets.rs. The gates of the plan are run in the worktree one after the
    other, and each leaves a record of evidence bound to the candidate.

    What a process does is an argument: for a worktree, a program, its arguments
    and a time limit, how it ended, the pieces its output streams are read in and
    the worktree it leaves. [clock i] is what the [i]th look at the clock gives.
    A link in the worktree is not followed. *)
From Stdlib Require Import Ascii String.
From S2P Require Import Prelude Text Ids Canonical Verdicts Candidates Redaction Plans Frames.
From S2P Require Import StoreCandidates FileSystem Freeze VerificationPlans.

Module VerificationRun.
Import Freeze VerificationPlan.

(** * Text *)

Definition replacement_character : list ascii := ["239"; "191"; "189"]%char.

(** The second bytes that may follow the first of a longer sequence. *)
Definition second_of_three (a b : ascii) : bool :=
  if (code a =? 224)%N then in_range 160 191 b
  else if (code a =? 237)%N then in_range 128 159 b
  else in_range 225 239 a && continuation b.
Definition second_of_four (a b : ascii) : bool :=
  if (code a =? 240)%N then in_range 144 191 b
  else if (code a =? 244)%N then in_range 128 143 b
  else in_range 241 243 a && continuation b.

(** [String::from_utf8_lossy]: the longest beginning of a sequence that cannot be
    completed becomes one replacement character. *)
Fixpoint lossy (l : list ascii) : list ascii :=
  match l with
  | [] => []
  | a :: l1 =>
      if (code a <? 128)%N then a :: lossy l1 else
      match l1 with
      | [] => replacement_character
      | b :: l2 =>
          if in_range 194 223 a then
            if continuation b then a :: b :: lossy l2 else replacement_character ++ lossy l1
          else if second_of_three a b then
            match l2 with
            | [] => replacement_character
            | c :: l3 =>
                if continuation c then a :: b :: c :: lossy l3
                else replacement_character ++ lossy l2
            end
          else if second_of_four a b then
            match l2 with
            | [] => replacement_character
            | c :: l3 =>
                if continuation c then
                  match l3 with
                  | [] => replacement_character
                  | d :: l4 =>
                      if continuation d then a :: b :: c :: d :: lossy l4
                      else replacement_character ++ lossy l3
                  end
                else replacement_character ++ lossy l2
            end
          else replacement_character ++ lossy l1
      end
  end.
Definition from_utf8_lossy (bytes : string) : string := chars_str (lossy (str_chars bytes)).

Definition trim_start (s : string) : string := chars_str (trim_front (str_chars s)).

(** [char::is_control] in UTF-8: U+0000 to U+001F and U+007F to U+009F. *)
Fixpoint has_control (l : list ascii) : bool :=
  match l with
  | [] => false
  | a :: l1 =>
      (code a <? 32)%N || (code a =? 127)%N
      || match l1 with b :: _ => (code a =? 194)%N && in_range 128 159 b | [] => false end
      || has_control l1
  end.

(** The first [n] characters ([char_indices().nth(n)] ends the slice). *)
Fixpoint take_chars (n : nat) (l : list ascii) : list ascii :=
  match l with
  | [] => []
  | a :: l' =>
      if continuation a then a :: take_chars n l'
      else match n with O => [] | S n' => a :: take_chars n' l' end
  end.

(** * The secret scan *)

Definition is_quote (a : ascii) : bool := is_char "'" a || is_char "034" a.

(** [assignment]; the line is lower-case. *)
Definition assignment (line name : string) : bool :=
  match after_first name line with
  | None => false
  | Some rest =>
      let suffix := trim_start rest in
      match strip_prefix "=" suffix, strip_prefix ":" suffix with
      | Some value, _ | None, Some value =>
          let value := trim_matches is_quote (trim value) in
          (8 <=? str_len value)%N
          && negb (contains_any value ["changeme"; "example"; "placeholder"; "redacted"])
      | None, None => false
      end
  end.

Definition sensitive (value : string) : bool :=
  contains_sensitive value
  || existsb (λ line, existsb (assignment (to_ascii_lowercase line))
                        ["api_key"; "apikey"; "password"; "secret"; "token"]) (lines value).

Section scan.
Context (io_message : ErrorKind → string).

Definition scan_file (t : Tree) (file : CandidateFile) : result string unit :=
  if is_deleted (Candidate.kind file) then Ok tt else
  match t !! Candidate.path file with
  | None => Err (io_message NotFound)
  | Some (FileNode content _) =>
      if (16 * 1024 * 1024 <? str_len content)%N then Ok tt
      else reject_if (sensitive (from_utf8_lossy content))
             ("credential-like content was detected in " +:+ Candidate.path file)
  | Some DirNode => Err (io_message IsADirectory)
  | Some _ => Err (io_message Other)
  end.

(** [secrets::scan]. *)
Definition scan (t : Tree) (m : CandidateManifest) (exact_diff : string) : result string unit :=
  _ ← reject_if (sensitive (from_utf8_lossy exact_diff))
        "credential-like content was detected in the exact candidate diff";
  try_for_each (scan_file t) (Candidate.files m).
End scan.

(** ** What the scan finds *)

(** A line, in lower case, that assigns a value to a name of a secret: what
    follows the first occurrence of the name is, after white space, an equals
    sign or a colon and a value of at least eight bytes, without white space and
    quotes around it, that has nothing of a placeholder. *)
Definition assigns_secret (line : string) : Prop :=
  ∃ name before rest separator text, let value := trim_matches is_quote (trim text) in
    name ∈ ["api_key"; "apikey"; "password"; "secret"; "token"] ∧
    line = before +:+ (name +:+ rest) ∧
    (∀ l r, line = l +:+ (name +:+ r) → (String.length before ≤ String.length l)%nat) ∧
    trim_start rest = String separator text ∧ (separator = "="%char ∨ separator = ":"%char) ∧
    (8 ≤ str_len value)%N ∧
    ∀ p, p ∈ ["changeme"; "example"; "placeholder"; "redacted"] → ¬ ∃ l r, value = l +:+ (p +:+ r).
Definition looks_secret (text : string) : Prop :=
  contains_sensitive text = true ∨ ∃ line, line ∈ lines text ∧ assigns_secret (to_ascii_lowercase line).

(** Neither the diff nor a file of the candidate that is scanned looks secret. *)
Definition without_secrets (t : Tree) (m : CandidateManifest) (exact_diff : string) : Prop :=
  ¬ looks_secret (from_utf8_lossy exact_diff) ∧
  ∀ f, f ∈ Candidate.files m → is_deleted (Candidate.kind f) = false →
    ∃ content mode, t !! Candidate.path f = Some (FileNode content mode) ∧
      ((16 * 1024 * 1024 < str_len content)%N ∨ ¬ looks_secret (from_utf8_lossy content)).

Lemma after_first_least name before rest :
  (∀ l r, before +:+ (name +:+ rest) = l +:+ (name +:+ r) →
     (String.length before ≤ String.length l)%nat) →
  after_first name (before +:+ (name +:+ rest)) = Some rest.
Proof.
  induction before as [|a before IH]; intros Hleast.
  - assert (strip_prefix name (name +:+ rest) = Some rest) as H by by apply strip_prefix_some.
    change ("" +:+ (name +:+ rest)) with (name +:+ rest). destruct (name +:+ rest); simpl in *; by rewrite H.
  - rewrite str_app_cons in *. cbn [after_first].
    destruct (strip_prefix name _) as [r|] eqn:Hr.
    + apply strip_prefix_some in Hr. specialize (Hleast "" r Hr). simpl in Hleast. lia.
    + apply IH. intros l r Heq. specialize (Hleast (String a l) r).
      rewrite str_app_cons, Heq in Hleast. specialize (Hleast eq_refl). simpl in Hleast. lia.
Qed.

Lemma assigns_secret_found line : assigns_secret line →
  existsb (assignment line) ["api_key"; "apikey"; "password"; "secret"; "token"] = true.
Proof.
  intros (name&before&rest&separator&text&Hname&->&Hleast&Htrim&Hsep&Hlen&Hplain).
  apply existsb_exists. exists name. split; [by apply list_elem_of_In|].
  unfold assignment. rewrite after_first_least, Htrim by done. cbv zeta.
  assert (match strip_prefix "=" (String separator text), strip_prefix ":" (String separator text) with
    | Some value, _ | None, Some value => value = text | None, None => False end) as Hvalue
    by by destruct Hsep as [-> | ->].
  destruct (strip_prefix "=" _) as [v|]; [|destruct (strip_prefix ":" _) as [v|]; [|done]];
    subst v; apply andb_true_iff; (split; [by apply N.leb_le|]); apply negb_true_iff, not_true_is_false;
    intros (p&Hp&Hc)%existsb_exists; apply contains_str_iff in Hc;
    by apply (Hplain p); [apply list_elem_of_In|].
Qed.

Lemma not_sensitive text : sensitive text = false → ¬ looks_secret text.
Proof.
  intros [Hred Hlines]%orb_false_iff [Hs|(line&Hin&Hline%assigns_secret_found)]; [congruence|].
  assert (existsb (λ line, existsb (assignment (to_ascii_lowercase line))
    ["api_key"; "apikey"; "password"; "secret"; "token"]) (lines text) = true); [|congruence].
  apply existsb_exists. exists line. split; [by apply list_elem_of_In|done].
Qed.

Lemma scan_ok io_message t m diff : scan io_message t m diff = Ok tt → without_secrets t m diff.
Proof.
  unfold scan. intros ([]&Hdiff%reject_if_ok&Hfiles)%result_bind_ok.
  split; [by apply not_sensitive|]. intros f Hf Hkept.
  apply try_for_each_ok in Hfiles. eapply Forall_forall in Hfiles; [|exact Hf].
  unfold scan_file in Hfiles. rewrite Hkept in Hfiles.
  destruct (t !! Candidate.path f) as [[content mode| | |]|]; try done.
  exists content, mode. split; [done|]. destruct (_ <? _)%N eqn:Hbig; [left; by apply N.ltb_lt|right].
  apply reject_if_ok in Hfiles. by apply not_sensitive.
Qed.

(** * Processes *)

Definition RETAINED_OUTPUT_BYTES : nat := 1048576.
Definition LEGACY_PROTOCOL_V1_VERIFICATION_OUTPUT_DOMAIN : string :=
  "opencode-workflow/verification-output/v1".

(** An output stream: the pieces it was read in, an error, or still held open by
    a descendant of the process when the wait for it is given up. *)
Inductive StreamEnd : Type := Closed (chunks : list string) | ReadFailed | LeftOpen.

(** What a process does; an end without a code is a signal or the time limit. *)
Record ProcessEnd : Type := {
  process_code : option Z;
  process_stdout : StreamEnd;
  process_stderr : StreamEnd;
}.
(** The worktree a process leaves, and [None] when it could not be started or
    waited for. *)
Class Processes :=
  run_process : Tree → string → list string → N → Tree * option ProcessEnd.

Record StreamCapture : Type := {
  captured_bytes : N;
  captured_digest : ContentDigest;
  retained : string;
  truncated : bool;
}.

Record CommandResult : Type := {
  command_exit_code : Z;
  command_output : string;
  command_output_digest : ContentDigest;
}.

(** [RunPanicked] stands for a panic. *)
Inductive VerificationRunError : Type := CandidateChanged | EvidenceMismatch | RunIo | RunPanicked.

(** The worktree and how often the clock was looked at. *)
Record RunState : Type := { worktree : Tree; looks : nat }.
Abbreviation running := (method RunState VerificationRunError).

Section processes.
Context `{Sha256, Processes} (clock : nat → WorkflowTimestamp).

(** [capture]: the bytes hashed so far, their number and those that are kept. *)
Definition capture_chunk (acc : string * N * string) (chunk : string) : string * N * string :=
  let '(hashed, bytes, kept) := acc in
  let remaining := RETAINED_OUTPUT_BYTES - String.length kept in
  (hashed +:+ chunk, saturating_add u64_max bytes (str_len chunk),
   kept +:+ substring 0 (Nat.min (String.length chunk) remaining) chunk).
Definition capture (chunks : list string) : StreamCapture :=
  let '(hashed, bytes, kept) := foldl capture_chunk ("", 0%N, "") chunks in
  {| captured_bytes := bytes; captured_digest := digest_of hashed; retained := kept;
     truncated := (N.of_nat RETAINED_OUTPUT_BYTES <? bytes)%N |}.

Definition combined_digest (stdout stderr : StreamCapture) : ContentDigest :=
  digest_of (LEGACY_PROTOCOL_V1_VERIFICATION_OUTPUT_DOMAIN
    +:+ be_bytes 8 (captured_bytes stdout) +:+ as_bytes (captured_digest stdout)
    +:+ be_bytes 8 (captured_bytes stderr) +:+ as_bytes (captured_digest stderr)).

Lemma substring_app n a b :
  substring 0 n (a +:+ b) = substring 0 n a +:+ substring 0 (n - String.length a) b.
Proof.
  revert n. induction a as [|c a IH]; intros n; simpl.
  { destruct n; simpl; rewrite ?Nat.sub_0_r; by destruct b. }
  destruct n as [|n]; simpl; [by destruct b|]. by rewrite str_app_cons, IH.
Qed.
Lemma substring_min n s : substring 0 (Nat.min (String.length s) n) s = substring 0 n s.
Proof. revert n. induction s as [|c s IH]; intros [|n]; simpl; [done..|]. by rewrite IH. Qed.
Lemma length_substring n s : String.length (substring 0 n s) = Nat.min n (String.length s).
Proof. revert n. induction s as [|c s IH]; intros [|n]; simpl; [done..|]. by rewrite IH. Qed.

(** What is captured of a stream does not depend on how it was read. *)
Lemma capture_whole chunks :
  let whole := foldr String.append "" chunks in
  capture chunks = {|
    captured_bytes := N.min u64_max (str_len whole);
    captured_digest := digest_of whole;
    retained := substring 0 RETAINED_OUTPUT_BYTES whole;
    truncated := (N.of_nat RETAINED_OUTPUT_BYTES <? N.min u64_max (str_len whole))%N |}.
Proof.
  cbv zeta. set (keep w := (w, N.min u64_max (str_len w), substring 0 RETAINED_OUTPUT_BYTES w)).
  assert (∀ w, foldl capture_chunk (keep w) chunks = keep (w +:+ foldr String.append "" chunks)) as Hfold.
  { induction chunks as [|chunk chunks IH]; intros w; simpl; [by rewrite str_app_nil_r|].
    rewrite str_app_assoc, <-IH. f_equal. unfold keep, capture_chunk. cbv zeta. f_equal; [f_equal|].
    - unfold saturating_add, str_len. rewrite length_str_app. lia.
    - rewrite substring_min, substring_app. do 2 f_equal. rewrite length_substring. lia. }
  unfold capture. change ("", 0%N, "") with (keep ""). by rewrite Hfold.
Qed.

(** [finish_captures]: [None] when a stream stays open. *)
Definition finish_captures (stdout stderr : StreamEnd)
    : option (result VerificationRunError (StreamCapture * StreamCapture)) :=
  match stdout, stderr with
  | LeftOpen, _ => None
  | ReadFailed, _ => Some (Err RunIo)
  | Closed _, LeftOpen => None
  | Closed _, ReadFailed => Some (Err RunIo)
  | Closed out, Closed err => Some (Ok (capture out, capture err))
  end.

Definition pipes_open_message : string :=
  "Verification process output pipes did not close after the process exited.".
Definition stderr_mark : string := String newline ("[stderr]" +:+ String newline "").
Definition truncation_mark : string :=
  String newline "[output truncated; full output digest retained]".

(** [execute_command]. *)
Definition execute_command (program : string) (arguments : list string) (timeout : N)
    : running CommandResult :=
  s ← m_get;
  let '(t, finished) := run_process (worktree s) program arguments timeout in
  _ ← m_modify (λ s, {| worktree := t; looks := looks s |});
  process ← m_lift (ok_or RunIo finished);
  let exit_code := default (-1)%Z (process_code process) in
  match finish_captures (process_stdout process) (process_stderr process) with
  | None => mret {| command_exit_code := -1; command_output := pipes_open_message;
                    command_output_digest := digest_of pipes_open_message |}
  | Some captures =>
      '(stdout, stderr) ← m_lift captures;
      mret {| command_exit_code := exit_code;
              command_output := from_utf8_lossy (retained stdout)
                +:+ (if bool_decide (retained stderr = "") then ""
                     else stderr_mark +:+ from_utf8_lossy (retained stderr))
                +:+ (if truncated stdout || truncated stderr then truncation_mark else "");
              command_output_digest := combined_digest stdout stderr |}
  end.

(** [WorkflowTimestamp::now]. *)
Definition now : running WorkflowTimestamp :=
  s ← m_get;
  _ ← m_modify (λ s, {| worktree := worktree s; looks := S (looks s) |});
  mret (clock (looks s)).

(** The first line that is not blank, cut to 512 characters. *)
Definition version_line (output : string) : option string :=
  line ← find (λ line, negb (bool_decide (line = ""))) (trim <$> lines output);
  Some (redact (chars_str (take_chars 512 (str_chars line)))).

Definition version_unavailable : string := "version command unavailable".

(** [probe_tool_version]; its failure is not an error of the run. *)
Definition probe_tool_version (program : string) : running string := λ s,
  match execute_command program ["--version"] 10 s with
  | (s', Ok command) =>
      (s', Ok (if (command_exit_code command =? 0)%Z then
                 match version_line (command_output command) with
                 | Some line => if bool_decide (line = "") then "version output unavailable" else line
                 | None => "version output unavailable"
                 end
               else version_unavailable))
  | (s', Err _) => (s', Ok version_unavailable)
  end.
End processes.

(** * Managed browsers *)

Record ManagedBrowserAttestation : Type := {
  attested_candidate : ContentDigest;
  receipt_digest : ContentDigest;
  receipt_json : string;
  attested_session : string;
}.

Record BrowserAction : Type := {
  action_digest : string;
  operation : string;
  action_timestamp : string;
  url : string;
}.
Record BrowserReceipt : Type := {
  actions : list BrowserAction;
  logs : list Value;
}.

Definition is_ascii_hexdigit (a : ascii) : bool :=
  is_ascii_digit a || in_range 97 102 a || in_range 65 70 a.
Definition text_has_control (s : string) : bool := has_control (str_chars s).

Definition allowed_operations : list string :=
  ["open"; "snapshot"; "click"; "fill"; "press"; "upload"; "check"; "screenshot"; "logs"; "close"].

Definition action_valid (a : BrowserAction) : bool :=
  bool_decide (operation a ∈ allowed_operations)
  && (str_len (action_digest a) =? 64)%N && str_all is_ascii_hexdigit (action_digest a)
  && negb (is_blank (action_timestamp a)) && (str_len (action_timestamp a) <=? 64)%N
  && (str_len (url a) <=? 4096)%N
  && (starts_with "http://" (url a) || starts_with "https://" (url a))
  && negb (text_has_control (url a)).

(** The loop that looks for the required operations in their order. *)
Definition advance (required : list string) (position : nat) (operation : string) : nat :=
  if bool_decide (required !! position = Some operation) then S position else position.

Section attestations.
Context `{Sha256, FromJson BrowserReceipt}.

Definition validate_browser_attestation (attestation : ManagedBrowserAttestation)
    (candidate_digest : ContentDigest) (required : list string)
    : option (string * list string * ContentDigest) :=
  if negb (bool_decide (attested_candidate attestation = candidate_digest))
     || is_blank (attested_session attestation)
     || (256 <? str_len (attested_session attestation))%N
     || text_has_control (attested_session attestation)
     || (2 * 1024 * 1024 <? str_len (receipt_json attestation))%N
     || negb (bool_decide (digest_of (receipt_json attestation) = receipt_digest attestation))
  then None else
  receipt ← from_slice (str_chars (receipt_json attestation));
  if bool_decide (actions receipt = []) || (1024 <? N.of_nat (length (actions receipt)))%N
     || (200 <? N.of_nat (length (logs receipt)))%N
  then None else
  if negb (forallb action_valid (actions receipt)) then None else
  let operations := operation <$> actions receipt in
  if negb (bool_decide (last operations = Some "close"))
     || negb (bool_decide (length (filter (λ o, o = "close") operations) = 1))
  then None else
  if bool_decide (foldl (advance required) 0 operations = length required)
  then Some (attested_session attestation, operations, receipt_digest attestation)
  else None.
End attestations.

(** * Gates *)

Record GateResult : Type := { gate_output : string; record : EvidenceRecord }.

Record VerificationRun : Type := {
  infrastructure_blocked : bool;
  mandatory_passed : bool;
  outputs : gmap EvidenceId string;
  records : list EvidenceRecord;
}.

(** [invocation]. *)
Definition invocation_of (g : VerificationGate) : string :=
  match executor g with
  | CandidateIntegrity => "candidate-integrity"
  | CommandExecutor arguments program => String.concat " " (program :: arguments)
  | SecretScan => "changed-content-secret-scan"
  | Unavailable _ => name g
  end.

(** The operations a managed browser has to have made for a gate. *)
Definition required_operations (g : VerificationGate) : option (list string) :=
  match executor g with
  | Unavailable _ =>
      if bool_decide (name g = "browser:affected-user-flow")
      then Some ["open"; "check"; "screenshot"; "logs"; "close"]
      else if bool_decide (name g = "accessibility:affected-user-flow")
      then Some ["open"; "snapshot"; "close"]
      else None
  | _ => None
  end.

Section runner.
Context `{Git, Platform, Sha256, ToJson VerificationEnvironment, ToJson (list (string * string)),
  ToJson (list (string * string * bool)), Rfc3339, Processes, FromJson BrowserReceipt}.
Context (clock : nat → WorkflowTimestamp) (io_message : ErrorKind → string)
  (package_version repository : string).

(** [manifest.digest()]. *)
Definition digest_of_manifest (m : CandidateManifest) : running ContentDigest :=
  m_lift (ok_or RunPanicked (Candidate.candidate_digest m)).

(** [find_map] over the attestations. *)
Definition valid_attestation (attestations : list ManagedBrowserAttestation)
    (candidate_digest : ContentDigest) (required : list string)
    : option (string * list string * ContentDigest) :=
  head (omap (λ a, validate_browser_attestation a candidate_digest required) attestations).

Definition browser_output (session_id : string) (operations : list string) (receipt : ContentDigest)
    : string :=
  "Managed browser receipt " +:+ digest_to_string receipt +:+ " from session " +:+ session_id
  +:+ " passed operations: " +:+ String.concat ", " operations +:+ ".".

Definition managed_browser_gate (g : VerificationGate) (m : CandidateManifest)
    (attestations : list ManagedBrowserAttestation) : running (option GateResult) :=
  match required_operations g with
  | None => mret None
  | Some required =>
      digest ← digest_of_manifest m;
      match valid_attestation attestations digest required with
      | None => mret None
      | Some (session_id, operations, receipt) =>
          started ← now clock;
          let output := browser_output session_id operations receipt in
          finished ← now clock;
          let r := {|
            id := gate_id g;
            candidate_digest := digest;
            kind := gate_kind g;
            invocation := invocation_of g;
            tool := "opencode-cycle-managed-browser";
            tool_version := package_version;
            started_at := started;
            finished_at := finished;
            exit_code := Some 0%Z;
            output_digest := digest_of output;
            status := Passed;
            skip_reason := None |} in
          mret (if is_ok (evidence_validate r)
                then Some {| gate_output := redact output; record := r |} else None)
      end
  end.

(** What running a gate's executor gives: the fields of its record. *)
Record Execution : Type := {
  x_exit_code : option Z; x_output : string; x_digest : ContentDigest; x_status : EvidenceStatus;
  x_skip : option string; x_tool : string; x_version : string;
}.

Definition execute_gate (g : VerificationGate) (m : CandidateManifest) (exact_diff : string)
    (exact_files : list CandidateFilePayload) : running Execution :=
  match executor g with
  | CandidateIntegrity =>
      s ← m_get;
      matches ← m_lift (map_err (λ _, CandidateChanged)
        (verify_frozen (worktree s) repository m exact_diff exact_files));
      let output := if matches : bool then "Frozen candidate bytes match the manifest."
                    else "Frozen candidate bytes no longer match the manifest." in
      mret {| x_exit_code := Some (if matches then 0 else 1)%Z; x_output := output;
              x_digest := digest_of output; x_status := if matches then Passed else Failed;
              x_skip := None; x_tool := "workflow-candidate-integrity";
              x_version := package_version |}
  | SecretScan =>
      s ← m_get;
      let '(code, output, status) :=
        match scan io_message (worktree s) m exact_diff with
        | Ok _ => (0%Z, "No credential-like content was detected in changed files.", Passed)
        | Err message => (1%Z, message, Failed)
        end in
      mret {| x_exit_code := Some code; x_output := output; x_digest := digest_of output;
              x_status := status; x_skip := None; x_tool := "workflow-secret-scan";
              x_version := package_version |}
  | Unavailable reason =>
      mret {| x_exit_code := None; x_output := reason; x_digest := digest_of reason;
              x_status := Skipped; x_skip := Some reason; x_tool := "unavailable";
              x_version := "unavailable" |}
  | CommandExecutor arguments program =>
      version ← probe_tool_version program;
      command ← execute_command program arguments (timeout_seconds g);
      mret {| x_exit_code := Some (command_exit_code command); x_output := command_output command;
              x_digest := command_output_digest command;
              x_status := if (command_exit_code command =? 0)%Z then Passed else Failed;
              x_skip := None; x_tool := program; x_version := version |}
  end.

Definition run_gate (g : VerificationGate) (m : CandidateManifest) (exact_diff : string)
    (exact_files : list CandidateFilePayload) : running GateResult :=
  started ← now clock;
  digest ← digest_of_manifest m;
  x ← execute_gate g m exact_diff exact_files;
  finished ← now clock;
  let r := {|
    id := gate_id g;
    candidate_digest := digest;
    kind := gate_kind g;
    invocation := invocation_of g;
    tool := x_tool x;
    tool_version := x_version x;
    started_at := started;
    finished_at := finished;
    exit_code := x_exit_code x;
    output_digest := x_digest x;
    status := x_status x;
    skip_reason := x_skip x |} in
  _ ← m_lift (map_err (λ _, EvidenceMismatch) (evidence_validate r));
  mret {| gate_output := redact (x_output x); record := r |}.

(** One turn of the loop over the gates. *)
Definition run_next (m : CandidateManifest) (exact_diff : string)
    (exact_files : list CandidateFilePayload) (attestations : list ManagedBrowserAttestation)
    (acc : VerificationRun) (g : VerificationGate) : running VerificationRun :=
  attested ← managed_browser_gate g m attestations;
  r ← match attested with
      | Some r => mret r
      | None => run_gate g m exact_diff exact_files
      end;
  let missed := mandatory g && negb (bool_decide (status (record r) = Passed)) in
  mret {| infrastructure_blocked := infrastructure_blocked acc
            || missed && bool_decide (status (record r) = Skipped);
          mandatory_passed := mandatory_passed acc && negb missed;
          outputs := <[gate_id g := gate_output r]> (outputs acc);
          records := records acc ++ [record r] |}.

Fixpoint run_gates (m : CandidateManifest) (exact_diff : string)
    (exact_files : list CandidateFilePayload) (attestations : list ManagedBrowserAttestation)
    (acc : VerificationRun) (gs : list VerificationGate) : running VerificationRun :=
  match gs with
  | [] => mret acc
  | g :: gs' =>
      acc' ← run_next m exact_diff exact_files attestations acc g;
      run_gates m exact_diff exact_files attestations acc' gs'
  end.

Definition empty_run : VerificationRun :=
  {| infrastructure_blocked := false; mandatory_passed := true; outputs := ∅; records := [] |}.

Definition run_with_attestations (plan : VerificationPlan) (m : CandidateManifest)
    (exact_diff : string) (exact_files : list CandidateFilePayload)
    (attestations : list ManagedBrowserAttestation) : running VerificationRun :=
  let planned : gset EvidenceId := list_to_set (plan_evidence_ids plan) in
  let frozen : gset EvidenceId := list_to_set (Candidate.evidence_ids m) in
  if negb (bool_decide (planned = frozen)) then m_throw EvidenceMismatch else
  s ← m_get;
  matches ← m_lift (map_err (λ _, CandidateChanged)
    (verify_frozen (worktree s) repository m exact_diff exact_files));
  if negb (matches : bool) then m_throw CandidateChanged else
  run_gates m exact_diff exact_files attestations empty_run (gates plan).

(** [run]. *)
Definition verification_run (plan : VerificationPlan) (m : CandidateManifest)
    (exact_diff : string) (exact_files : list CandidateFilePayload) : running VerificationRun :=
  run_with_attestations plan m exact_diff exact_files [].

(** * What a run shows *)

(** The record of a gate is valid and about the candidate and the gate. *)
Record record_for (m : CandidateManifest) (g : VerificationGate) (r : EvidenceRecord) : Prop := {
  rf_id : id r = gate_id g;
  rf_candidate : Candidate.candidate_digest m = Some (candidate_digest r);
  rf_kind : kind r = gate_kind g;
  rf_invocation : invocation r = invocation_of g;
  rf_valid : evidence_validate r = Ok tt;
}.

(** How a gate that was run came to its status, with the worktree it was run in
    and the one it left. *)
Inductive gate_ran (m : CandidateManifest) (exact_diff : string)
    (exact_files : list CandidateFilePayload) (attestations : list ManagedBrowserAttestation)
    (t : Tree) (g : VerificationGate) (r : EvidenceRecord) : Tree → Prop :=
| ran_attested required digest found :
    required_operations g = Some required → Candidate.candidate_digest m = Some digest →
    valid_attestation attestations digest required = Some found → status r = Passed →
    gate_ran m exact_diff exact_files attestations t g r t
| ran_integrity matches :
    executor g = CandidateIntegrity → verify_frozen t repository m exact_diff exact_files = Ok matches →
    (status r = Passed ↔ matches = true) →
    gate_ran m exact_diff exact_files attestations t g r t
| ran_scan :
    executor g = SecretScan → (status r = Passed ↔ scan io_message t m exact_diff = Ok tt) →
    gate_ran m exact_diff exact_files attestations t g r t
| ran_unavailable reason :
    executor g = Unavailable reason → status r = Skipped →
    gate_ran m exact_diff exact_files attestations t g r t
| ran_command arguments program t1 process t' :
    executor g = CommandExecutor arguments program →
    t1 = (run_process t program ["--version"] 10).1 →
    run_process t1 program arguments (timeout_seconds g) = (t', Some process) →
    (status r = Passed → process_code process = Some 0%Z) →
    gate_ran m exact_diff exact_files attestations t g r t'.

Lemma now_ok s s' x : now clock s = (s', Ok x) → worktree s' = worktree s.
Proof.
  unfold now. intros (s1&a&[-> ->]%m_get_ok&(s2&u&->%m_modify_ok&[-> _]%method_ret_ok)
    %method_bind_ok)%method_bind_ok. done.
Qed.

Lemma execute_command_tree program arguments timeout s :
  worktree (execute_command program arguments timeout s).1 =
  (run_process (worktree s) program arguments timeout).1.
Proof.
  unfold execute_command. run_method. destruct (run_process _ _ _ _) as [t [p|]]; [|done].
  simpl. destruct (finish_captures _ _) as [[[out err]|]|]; done.
Qed.

Lemma execute_command_ok program arguments timeout s s' c :
  execute_command program arguments timeout s = (s', Ok c) →
  ∃ process, run_process (worktree s) program arguments timeout = (worktree s', Some process) ∧
    (command_exit_code c = 0%Z → process_code process = Some 0%Z).
Proof.
  intros Hc. pose proof (execute_command_tree program arguments timeout s) as Ht.
  rewrite Hc in Ht. simpl in Ht. unfold execute_command in Hc. run_method in Hc.
  destruct (run_process _ _ _ _) as [t [p|]]; [|done]. simpl in *.
  exists p. split; [by rewrite Ht|].
  destruct (finish_captures _ _) as [[[out err]|]|]; simplify_eq/=; intros Hz; [|lia].
  destruct (process_code p); simpl in *; [by subst|lia].
Qed.

Lemma probe_tool_version_ok program s s' v :
  probe_tool_version program s = (s', Ok v) →
  worktree s' = (run_process (worktree s) program ["--version"] 10).1.
Proof.
  pose proof (execute_command_tree program ["--version"] 10 s) as Ht. unfold probe_tool_version.
  destruct (execute_command _ _ _ _) as [s1 [c|]]; intros [= <- _]; done.
Qed.

Lemma execute_gate_ok m diff files attestations g s s' x r :
  execute_gate g m diff files s = (s', Ok x) → status r = x_status x →
  gate_ran m diff files attestations (worktree s) g r (worktree s').
Proof.
  unfold execute_gate. intros Hx Hs. destruct (executor g) as [|arguments program| |reason] eqn:Hg.
  - apply method_bind_ok in Hx as (s1&a&[-> ->]%m_get_ok&Hx).
    apply method_bind_ok in Hx as (s1&matches&[-> Hm%map_err_ok]%m_lift_ok&[-> ->]%method_ret_ok).
    eapply ran_integrity; [done..|]. rewrite Hs. by destruct matches.
  - apply method_bind_ok in Hx as (s1&version&Hv%probe_tool_version_ok&Hx).
    apply method_bind_ok in Hx as (s2&c&Hc%execute_command_ok&[-> ->]%method_ret_ok).
    destruct Hc as (process&Hp&Hz). rewrite Hv in Hp. eapply ran_command; [exact Hg|reflexivity|exact Hp|].
    rewrite Hs. simpl. case_match eqn:E; [|done]. intros _. apply Hz. lia.
  - apply method_bind_ok in Hx as (s1&a&[-> ->]%m_get_ok&Hx).
    assert (worktree s' = worktree s ∧
      (x_status x = Passed ↔ scan io_message (worktree s) m diff = Ok tt)) as [-> ?].
    { destruct (scan _ _ _ _) as [[]|]; apply method_ret_ok in Hx as [-> ->]; done. }
    apply ran_scan; [done|]. by rewrite Hs.
  - apply method_ret_ok in Hx as [-> ->]. by eapply ran_unavailable.
Qed.

Lemma run_gate_ok m diff files attestations g s s' x :
  run_gate g m diff files s = (s', Ok x) →
  record_for m g (record x) ∧
  gate_ran m diff files attestations (worktree s) g (record x) (worktree s').
Proof.
  intros (s1&started&T1%now_ok&Hx)%method_bind_ok.
  apply method_bind_ok in Hx as (s2&digest&[-> Hd%ok_or_ok]%m_lift_ok&Hx).
  apply method_bind_ok in Hx as (s3&e&He&Hx).
  apply method_bind_ok in Hx as (s4&finished&T4%now_ok&Hx).
  apply method_bind_ok in Hx as (s5&u&[-> Hv%map_err_ok]%m_lift_ok&[-> ->]%method_ret_ok).
  destruct u. split; [by split|]. rewrite <-T1, T4. by eapply execute_gate_ok.
Qed.

Lemma managed_browser_gate_ok m diff files attestations g s s' o :
  managed_browser_gate g m attestations s = (s', Ok o) →
  worktree s' = worktree s ∧
  ∀ x, o = Some x → record_for m g (record x) ∧
    gate_ran m diff files attestations (worktree s) g (record x) (worktree s).
Proof.
  unfold managed_browser_gate. destruct (required_operations g) as [required|] eqn:Hr.
  2: { by intros [-> ->]%method_ret_ok. }
  intros (s1&digest&[-> Hd%ok_or_ok]%m_lift_ok&Hx)%method_bind_ok.
  destruct (valid_attestation _ _ _) as [[[session operations] receipt]|] eqn:Ha.
  2: { by apply method_ret_ok in Hx as [-> ->]. }
  apply method_bind_ok in Hx as (s2&started&T2%now_ok&Hx).
  apply method_bind_ok in Hx as (s3&finished&T3%now_ok&[-> ->]%method_ret_ok).
  split; [by rewrite T3|]. intros x Hx.
  destruct (evidence_validate _) as [[]|] eqn:Hv; simplify_eq/=.
  split; [by split|]. by eapply ran_attested.
Qed.

(** A mandatory gate that did not pass. *)
Definition missed (entry : VerificationGate * EvidenceRecord) : bool :=
  mandatory entry.1 && negb (bool_decide (status entry.2 = Passed)).
Definition blocked (entry : VerificationGate * EvidenceRecord) : bool :=
  missed entry && bool_decide (status entry.2 = Skipped).

Lemma run_next_ok m diff files attestations acc g s s' acc' :
  run_next m diff files attestations acc g s = (s', Ok acc') →
  ∃ r, record_for m g r ∧ gate_ran m diff files attestations (worktree s) g r (worktree s') ∧
    records acc' = records acc ++ [r] ∧
    mandatory_passed acc' = mandatory_passed acc && negb (missed (g, r)) ∧
    infrastructure_blocked acc' = infrastructure_blocked acc || blocked (g, r) ∧
    dom (outputs acc') = {[gate_id g]} ∪ dom (outputs acc).
Proof.
  intros (s1&attested&Ha%(managed_browser_gate_ok m diff files)&Hx)%method_bind_ok.
  destruct Ha as [T1 Ha]. apply method_bind_ok in Hx as (s2&x&Hx&[-> ->]%method_ret_ok).
  assert (record_for m g (record x) ∧
    gate_ran m diff files attestations (worktree s) g (record x) (worktree s2)) as [??].
  2: { exists (record x). split_and!; try done. unfold outputs at 1. apply dom_insert_L. }
  destruct attested as [x'|].
  - apply method_ret_ok in Hx as [-> ->]. rewrite T1. by apply Ha.
  - rewrite <-T1. by apply run_gate_ok.
Qed.

(** The gates of a plan run one after the other. *)
Inductive gates_ran (m : CandidateManifest) (exact_diff : string)
    (exact_files : list CandidateFilePayload) (attestations : list ManagedBrowserAttestation)
    : Tree → list VerificationGate → list EvidenceRecord → Tree → Prop :=
| gates_done t : gates_ran m exact_diff exact_files attestations t [] [] t
| gates_next t g r t1 gs rs t' :
    record_for m g r → gate_ran m exact_diff exact_files attestations t g r t1 →
    gates_ran m exact_diff exact_files attestations t1 gs rs t' →
    gates_ran m exact_diff exact_files attestations t (g :: gs) (r :: rs) t'.

Lemma run_gates_ok m diff files attestations acc gs s s' run :
  run_gates m diff files attestations acc gs s = (s', Ok run) →
  ∃ rs, records run = records acc ++ rs ∧
    gates_ran m diff files attestations (worktree s) gs rs (worktree s') ∧
    mandatory_passed run = mandatory_passed acc && negb (existsb missed (zip gs rs)) ∧
    infrastructure_blocked run = infrastructure_blocked acc || existsb blocked (zip gs rs) ∧
    dom (outputs run) = dom (outputs acc) ∪ list_to_set (gate_id <$> gs).
Proof.
  revert acc s. induction gs as [|g gs IH]; intros acc s; simpl.
  { intros [-> ->]%method_ret_ok. exists []. split_and!.
    - by rewrite app_nil_r. - constructor. - by rewrite andb_true_r. - by rewrite orb_false_r.
    - set_solver. }
  intros (s1&acc1&(r&Hr&Hg&E1&E2&E3&E4)%run_next_ok&(rs&R1&R2&R3&R4&R5)%IH)%method_bind_ok.
  exists (r :: rs). split_and!.
  - by rewrite R1, E1, <-app_assoc.
  - by eapply gates_next.
  - rewrite R3, E2. simpl. by rewrite negb_orb, andb_assoc.
  - rewrite R4, E3. simpl. by rewrite orb_assoc.
  - rewrite R5, E4. simpl. set_solver.
Qed.

Lemma gates_ran_app m diff files attestations t gs1 gs2 rs t' :
  gates_ran m diff files attestations t (gs1 ++ gs2) rs t' →
  ∃ rs1 t1 rs2, rs = rs1 ++ rs2 ∧ length rs1 = length gs1 ∧
    gates_ran m diff files attestations t gs1 rs1 t1 ∧
    gates_ran m diff files attestations t1 gs2 rs2 t'.
Proof.
  revert t rs. induction gs1 as [|g gs1 IH]; intros t rs Hr; simpl in *.
  { exists [], t, rs. split_and!; [done..|constructor|done]. }
  inversion Hr as [|? ? r t1 ? rs' ? Hrec Hran Hrest]; subst.
  apply IH in Hrest as (rs1&t2&rs2&->&<-&?&?). exists (r :: rs1), t2, rs2.
  split_and!; [done..|by eapply gates_next|done].
Qed.

Lemma gates_ran_records m diff files attestations t gs rs t' :
  gates_ran m diff files attestations t gs rs t' → Forall2 (record_for m) gs rs.
Proof. induction 1; by constructor. Qed.

Lemma run_with_attestations_ok plan m diff files attestations s s' run :
  run_with_attestations plan m diff files attestations s = (s', Ok run) →
  verify_frozen (worktree s) repository m diff files = Ok true ∧
  gates_ran m diff files attestations (worktree s) (gates plan) (records run) (worktree s') ∧
  mandatory_passed run = negb (existsb missed (zip (gates plan) (records run))) ∧
  infrastructure_blocked run = existsb blocked (zip (gates plan) (records run)) ∧
  dom (outputs run) = list_to_set (plan_evidence_ids plan) ∧
  list_to_set (C := gset EvidenceId) (plan_evidence_ids plan) = list_to_set (Candidate.evidence_ids m).
Proof.
  unfold run_with_attestations. case_bool_decide as Hids; [|done]. simpl.
  intros (s1&a&[-> ->]%m_get_ok&Hr)%method_bind_ok.
  apply method_bind_ok in Hr as (s1&matches&[-> Hm%map_err_ok]%m_lift_ok&Hr).
  destruct matches; [|done]. simpl in Hr. apply run_gates_ok in Hr as (rs&->&?&->&->&->). simpl.
  split_and!; try done. set_solver.
Qed.

(** The gates that can only be attested leave the worktree alone. *)
Lemma gates_ran_unavailable m diff files attestations t gs rs t' :
  gates_ran m diff files attestations t gs rs t' → Forall is_unavailable gs → t' = t.
Proof.
  induction 1 as [|t g r t1 gs rs t' Hrec Hran _ IH]; [done|]. intros [[[reason Hg] _] Hgs]%Forall_cons.
  rewrite IH; [|done]. by inversion Hran; congruence.
Qed.

(** Of every gate that ran to a pass: *)
Lemma gates_ran_passed m diff files attestations t gs rs t' g :
  gates_ran m diff files attestations t gs rs t' →
  Forall (λ r, status r = Passed) rs → g ∈ gs →
  ∃ r t1 t2, status r = Passed ∧ gate_ran m diff files attestations t1 g r t2.
Proof.
  induction 1 as [|t h r t1 gs rs t' Hrec Hran _ IH]; [by intros _ ?%not_elem_of_nil|].
  intros [Hr Hrs]%Forall_cons [->|Hg]%elem_of_cons; [by exists r, t, t1|by apply IH].
Qed.

Lemma not_missed_passed gs rs :
  length gs = length rs → Forall (λ g, mandatory g = true) gs → existsb missed (zip gs rs) = false →
  Forall (λ r, status r = Passed) rs.
Proof.
  revert rs. induction gs as [|g gs IH]; intros [|r rs]; try done. intros [= Hl].
  intros [Hg Hgs]%Forall_cons. simpl.
  intros [Hr Hrs]%orb_false_iff. unfold missed in Hr. simpl in Hr. rewrite Hg in Hr.
  apply negb_false_iff, bool_decide_eq_true in Hr. constructor; [done|by apply IH].
Qed.

(** The command ran to its end and succeeded: a run of its words, or, if the
    words of either hold a unit separator, of words that join to the same text. *)
Definition command_passed (shlex_split : string → option (list string)) (command : string) : Prop :=
  ∃ words program arguments t t' process,
    shlex_split command = Some words ∧
    String.concat unit_separator words = String.concat unit_separator (program :: arguments) ∧
    (separator_free words → separator_free (program :: arguments) → words = program :: arguments) ∧
    validate_command program arguments = Ok tt ∧
    run_process t program arguments DEFAULT_TIMEOUT_SECONDS = (t', Some process) ∧
    process_code process = Some 0%Z.

End runner.

(** * Examples *)

(** Output is hashed, counted and kept as a whole, however it was read. *)
Example capture_in_pieces :
  let _ := toy_sha256 in
  bool_decide (captured_digest (capture ["ab"; "c"; ""]) = captured_digest (capture ["abc"])) &&
  bool_decide (retained (capture ["ab"; "c"]) = "abc") = true.
Proof. vm_compute. reflexivity. Qed.

Definition run_tree : Tree := list_to_map [("src", DirNode); ("src/new.rs", FileNode "content" 493)].

(** Git sees a change of any file but those it ignores. *)
#[local] Instance run_git : Git := {|
  git t arguments :=
    match arguments with
    | ["status"; _; _; _] => Ok (if bool_decide (delete "target" t = run_tree) then "" else "?? cache")
    | _ => example_git t arguments
    end;
  git_status _ _ := Ok true; git_apply_check _ _ := Ok tt;
|}.
#[local] Existing Instance example_sha.
#[local] Existing Instance example_platform.
#[local] Existing Instance example_environment_json.
#[local] Existing Instance example_entries_json.
#[local] Existing Instance example_payload_json.

(** Every program succeeds; [cargo] leaves a directory that Git ignores, and
    [npx] a file that it does not, when [leaves] says so. *)
Definition run_programs (leaves : bool) : Processes := λ t program arguments _,
  (if bool_decide (program = "cargo") then <["target" := DirNode]> t
   else if leaves && bool_decide (program = "npx") then <["cache" := FileNode "" 420]> t else t,
   Some {| process_code := Some 0%Z; process_stdout := Closed ["version 1"; String newline ""];
           process_stderr := Closed [] |}).

Definition run_action (name : string) : BrowserAction :=
  {| action_digest := chars_str (replicate 64 "a"%char); operation := name;
     action_timestamp := "2024-01-01T00:00:00Z"; url := "http://localhost:3000" |}.
#[local] Instance run_receipts : FromJson BrowserReceipt := λ _,
  Some {| actions := run_action <$> ["open"; "click"; "snapshot"; "close"]; logs := [] |}.

Definition run_architecture : ArchitecturePlan :=
  {| Plan.assumptions := []; Plan.integration_checks := ["run it"];
     Plan.request_digest := word_of 256 7; Plan.requirements := []; Plan.risks := [];
     Plan.tasks := [sample_task ["src/Cart.tsx"] ["npx playwright test"; "cargo fmt --check"]] |}.
Definition run_plan : result VerificationPlanError VerificationPlan :=
  let _ := sample_json in
  discover_for sample_shlex (λ path, bool_decide (path = "Cargo.toml")) (λ _, None)
    (λ i, word_of 128 (N.of_nat i)) run_architecture (word_of 128 9).
Definition run_frozen : frozen FrozenCandidate :=
  freeze run_tree "/repository" "c0ffee" (word_of 128 1)
    ((λ i, word_of 128 (N.of_nat i)) <$> seq 0 7).

Definition run_attestation (m : CandidateManifest) : ManagedBrowserAttestation :=
  {| attested_candidate := default (word_of 256 0) (Candidate.candidate_digest m);
     receipt_digest := digest_of "{}"; receipt_json := "{}"; attested_session := "browser-1" |}.

Definition run_sample (leaves : bool) (plan : VerificationPlan) (f : FrozenCandidate)
    : RunState * result VerificationRunError VerificationRun :=
  let _ := run_programs leaves in
  run_with_attestations Z.of_nat (λ _, "i/o error") "1.0.0" "/repository" plan
    (Freeze.manifest f) (exact_diff f) (Freeze.exact_files f) [run_attestation (Freeze.manifest f)]
    {| worktree := run_tree; looks := 0 |}.

(** The statuses of the gates, and whether the run passed. *)
Definition run_outcome (leaves : bool) : option (list (string * EvidenceStatus) * bool) :=
  match run_plan, run_frozen with
  | Ok plan, Ok f =>
      match run_sample leaves plan f with
      | (_, Ok run) => Some (zip (name <$> gates plan) (status <$> records run), mandatory_passed run)
      | (_, Err _) => None
      end
  | _, _ => None
  end.

(** A command that leaves a file behind fails the run, although it succeeded. *)
Example run_outcomes :
  run_outcome false = Some (
    [("browser:npx playwright test", Passed); ("lint:cargo fmt --check", Passed);
     ("lint:cargo clippy --all-targets --all-features -- -D warnings", Passed);
     ("test:cargo test --all-features", Passed);
     ("security:changed-content-secret-scan", Passed); ("candidate:immutable-bytes", Passed);
     ("accessibility:affected-user-flow", Passed)], true) ∧
  run_outcome true = None.
Proof. split; vm_compute; reflexivity. Qed.

(** What the scan finds. *)
Example scan_examples :
  (sensitive "let password = 'hunter2hunter2';", sensitive "password: example", sensitive "ok",
   sensitive ("a" +:+ String newline "TOKEN := x")) = (true, false, false, false).
Proof. vm_compute. reflexivity. Qed.

End VerificationRun.
