(* ===== verification/Services.v ===== *)
(** The services the daemon's requests are made of: audit observations
    (workflowd/src/audit.rs, workflow-ipc/src/audit.rs), the evidence that
    routing decides on (routing.rs), the essentiality policy (essentiality.rs)
    and the routing of repairs (repair.rs).

    The daemon's state is its store and how often it has looked at the clock,
    drawn an identifier or called the store; what those looks give is the class
    [Environment], with the text of an identifier (the [uuid] crate) and the
    instants that the [time] crate represents. A call of the store can fail
    without effect, be it that SQLite refuses it or that the process ends before
    it ([gives_up_at]): what a handler leaves then is what its calls before left. *)
From stdpp Require Import pretty.
From Stdlib Require Import Ascii String.
From S2P Require Import Prelude Text Ids Paths Canonical WorkflowMachine TaskMachine Requests Goals.
From S2P Require Import Dag Verdicts Candidates Plans Routing Redaction Ledger History Database.
From S2P Require Import StoreCommands StoreLedger VerificationPlans.

Module Services.
Export Store Commands LedgerStore.
Import Routing.

(** * Lemmas on sets *)

Lemma bset_iter_nil {K} `{Countable K, Ordered K} (s : gset K) : bset_iter s = [] ↔ s = ∅.
Proof.
  split; [|intros ->; unfold bset_iter; by rewrite elements_empty].
  intros Hs. apply leibniz_equiv, elem_of_equiv_empty. intros x Hx.
  apply elem_of_bset_iter in Hx. rewrite Hs in Hx. by apply not_elem_of_nil in Hx.
Qed.
Lemma list_to_set_empty_iff (l : list string) : (list_to_set l : gset string) = ∅ ↔ l = [].
Proof. destruct l; [done|]. split; [|done]. simpl. set_solver. Qed.
Lemma omap_nil_iff {A B} (f : A → option B) l : omap f l = [] ↔ ∀ x, x ∈ l → f x = None.
Proof.
  induction l as [|x l IH]; simpl.
  { split; [|done]. intros _ x Hx. by apply not_elem_of_nil in Hx. }
  setoid_rewrite elem_of_cons. destruct (f x) eqn:E; naive_solver.
Qed.

(** * The daemon *)

Class Environment := {
  now_at : nat → WorkflowTimestamp;
  unix_millis_at : nat → option Z;
  fresh_at : nat → uuid;
  valid_instant : Z → bool;
  gives_up_at : nat → bool;
  uuid_to_string : uuid → string;
}.

Record Daemon : Type := { store : Store; ticks : nat }.

Definition tick (d : Daemon) : Daemon := {| store := store d; ticks := S (ticks d) |}.

(** [WorkflowTimestamp::now], [EventId::new] and the like. *)
Definition now `{Environment} {E} : method Daemon E WorkflowTimestamp :=
  d ← m_get; _ ← m_modify tick; mret (now_at (ticks d)).
Definition fresh `{Environment} {E} : method Daemon E uuid :=
  d ← m_get; _ ← m_modify tick; mret (fresh_at (ticks d)).

(** A call whose error is converted. *)
Definition converted {S E F A} (f : E → F) (m : method S E A) : method S F A := λ s,
  let '(s', r) := m s in (s', map_err f r).
Definition on_store `{Environment} {E A} (f : StoreError → E) (m : method Store StoreError A) : method Daemon E A :=
  λ d, if gives_up_at (ticks d) then (tick d, Err (f Sqlite)) else
       let '(s, r) := m (store d) in ({| store := s; ticks := S (ticks d) |}, map_err f r).
(** A read of the store. *)
Definition asking {E A} (f : StoreError → E) (q : Store → result StoreError A) : method Daemon E A :=
  d ← m_get; m_lift (map_err f (q (store d))).

(** * Audit observations *)

Record AuditModel : Type := { audit_model : string; audit_provider : string }.

Inductive AuditData : Type :=
| AuditWorkflow (action : string)
| AuditTool (invocation_digest : ContentDigest) (tool : string)
| AuditPermission (decision permission : string)
| AuditGit (externally_attributed : bool) (revision : string)
| AuditVerification (gate status : string).

Record AuditObservation : Type := {
  observed_actor : string;
  observed_candidate : option CandidateId;
  observed_data : AuditData;
  observed_evidence : gset EvidenceId;
  observed_files : gset string;
  observed_metadata : gmap string string;
  observed_model : option AuditModel;
  observed_project_key : string;
  observed_role : option WorkflowRole;
  observed_session : option string;
  observed_task : option TaskId;
  timestamp_unix_millis : Z;
  observed_workflow : option WorkflowId;
}.

Inductive AuditError : Type :=
| EventFailure (error : Event.EventError)
| InvalidTimestamp
| AuditStore (error : StoreError).

(** The match that makes an [EventData]. *)
Definition event_data (data : AuditData) : Event.EventData :=
  match data with
  | AuditWorkflow action => Event.WorkflowData action
  | AuditTool invocation_digest tool => Event.ToolData (digest_to_string invocation_digest) tool
  | AuditPermission decision permission => Event.PermissionData decision permission
  | AuditGit externally_attributed revision => Event.GitData externally_attributed revision
  | AuditVerification gate status => Event.VerificationData gate status
  end.

Section audit.
Context `{Environment, Sha256, Rfc3339, Checkpoint.Ed25519, ToJson Event.LedgerEvent,
  Persist Event.LedgerEvent, Persist Checkpoint.Checkpoint}.

(** The milliseconds in nanoseconds fit in an [i128]. *)
Definition audit_timestamp (millis : Z) : result AuditError WorkflowTimestamp :=
  let nanos := (millis * 1000000)%Z in
  if valid_instant nanos then Ok nanos else Err InvalidTimestamp.

Definition audit_event (new_id : EventId) (o : AuditObservation) (timestamp : WorkflowTimestamp)
    : result AuditError Event.LedgerEvent :=
  map_err EventFailure (Event.ledger_event_new new_id
    {| Event.actor_id := observed_actor o;
       Event.actor_model := (λ m, {| Event.model_name := audit_model m;
                                     Event.provider := audit_provider m |}) <$> observed_model o;
       Event.actor_role := observed_role o;
       Event.session_id := observed_session o |}
    (observed_candidate o) (event_data (observed_data o)) (bset_iter (observed_evidence o))
    (bset_iter (observed_files o)) (observed_metadata o)
    (from_stable_key (observed_project_key o)) (observed_task o) timestamp (observed_workflow o)
    (redactor_new [])).

(** [audit::record]; a panic of the signature is a panic of the store's text. *)
Definition audit_record (checkpoint_key : Checkpoint.SigningKey) (o : AuditObservation)
    : method Daemon AuditError Ledger.LedgerEntry :=
  timestamp ← m_lift (audit_timestamp (timestamp_unix_millis o));
  new_id ← fresh;
  event ← m_lift (audit_event new_id o timestamp);
  entry ← on_store AuditStore (append_ledger_event event);
  _ ← (if (Ledger.sequence entry mod 100 =? 0)%N then
         checkpoint ← m_lift (ok_or (AuditStore Panicked)
           (Checkpoint.checkpoint_sign (Ledger.sequence entry) (Ledger.hash entry)
              (Event.timestamp (Ledger.event entry)) checkpoint_key));
         on_store AuditStore (save_checkpoint checkpoint)
       else mret tt);
  mret entry.
End audit.

(** * Routing *)

Record RoutingEvidence : Type := {
  evidence_facts : list RiskFact;
  rationales : gmap RiskCategory (list string);
}.

Record RoutingRequest : Type := {
  request_approval : option ReceiptId;
  request_evidence : RoutingEvidence;
  request_preference : UserRoutingPreference;
  request_project_key : string;
  request_unix_millis : Z;
  request_workflow : WorkflowId;
}.

Definition REQUEST_MARKERS : list (RiskCategory * list string) := [
  (Authentication, ["authentication"; "login"; "sign-in"]);
  (Authorization, ["authorization"; "rbac"; "access control"]);
  (Cryptography, ["cryptography"; "encryption"; "cipher"]);
  (Secrets, ["secret"; "credential"; "api key"]);
  (TrustBoundary, ["trust boundary"; "sandbox"; "isolation"]);
  (DatabaseMigration, ["database migration"; "schema migration"]);
  (Persistence, ["persistence"; "sqlite"; "postgres"]);
  (DataIntegrity, ["data integrity"; "transaction"; "atomic"]);
  (NewDependency, ["new dependency"; "add dependency"]);
  (PublicApi, ["public api"; "api endpoint"; "public interface"]);
  (Protocol, ["protocol"; "ipc"; "wire format"]);
  (Schema, ["schema"]);
  (Compatibility, ["compatibility"; "cross-platform"]);
  (CrossLayer, ["frontend"; "backend"; "full-stack"; "cross-layer"]);
  (Concurrency, ["concurrency"; "parallel"; "thread-safe"]);
  (DistributedSystem, ["distributed"; "cluster"]);
  (Packaging, ["packaging"; "installer"; "archive"]);
  (Installation, ["installation"]);
  (Update, ["breaking update"; "version upgrade"]);
  (Release, ["release"; "publish"]);
  (Deployment, ["deployment"; "deploy"]);
  (LargeRefactor, ["large refactor"; "rewrite"]);
  (HighImpact, ["high impact"; "critical"]);
  (DifficultToReverse, ["irreversible"; "difficult to reverse"])].

Definition is_token_byte (a : ascii) : bool := is_ascii_alphanumeric a || is_char "_" a.

Definition contains_marker (text marker : string) : bool :=
  if contains_char " " marker || contains_char "-" marker then contains_str marker text
  else existsb (λ token, bool_decide (token = marker))
         (split_on (λ a, negb (is_token_byte a)) text).

Abbreviation Rationales := (gmap RiskCategory (gset string)).

(** [rationales.entry(category).or_default().insert(reason)]. *)
Definition add_reason (category : RiskCategory) (reason : string) (r : Rationales) : Rationales :=
  <[category := {[reason]} ∪ default ∅ (r !! category)]> r.
Definition add_if (c : bool) (category : RiskCategory) (reason : string) (r : Rationales) : Rationales :=
  if c then add_reason category reason r else r.

Definition path_mappings : list (RiskCategory * list string) :=
  [(DatabaseMigration, ["/migrations/"; ".sql"]); (Packaging, ["/installer/"; "/packaging/"]);
   (Deployment, ["/deploy/"; "/k8s/"])].
Definition dependency_manifests : list string :=
  ["cargo.toml"; "package.json"; "pyproject.toml"; "requirements.txt"; "go.mod"; "pom.xml"].

Definition classify_path (path : string) (r : Rationales) : Rationales :=
  let normalized := to_ascii_lowercase (forward_slashes path) in
  let r := foldl (λ r '(category, markers),
    add_if (VerificationPlan.contains_any normalized markers) category path r) r path_mappings in
  let r := add_if (existsb (λ manifest, ends_with manifest normalized) dependency_manifests)
             NewDependency path r in
  add_if (starts_with "docs/" normalized || ends_with ".md" normalized) Documentation path r.

Definition is_path_reason (reason : string) : bool :=
  negb (bool_decide (reason = "original_request")) && negb (bool_decide (reason = "bounded_path_count"))
  && negb (bool_decide (reason = "test_only_paths")).

Definition test_path (path : string) : bool :=
  VerificationPlan.contains_any (to_ascii_lowercase path) ["test"; "spec"; "fixture"].

(** The rationales that [automatic_evidence] collects. *)
Definition collect_rationales (original_request : string) (affected_paths : list string)
    : Rationales :=
  let normalized := to_ascii_lowercase original_request in
  let r := foldl (λ r '(category, markers),
    add_if (existsb (contains_marker normalized) markers) category "original_request" r)
    (∅ : Rationales) REQUEST_MARKERS in
  let r := foldl (λ r path, classify_path path r) r affected_paths in
  if forallb (λ category, negb (is_critical category)) (btree_keys r) then
    let some := negb (bool_decide (affected_paths = [])) in
    let r := add_if (some && (length affected_paths <=? 3)) LocalizedChange "bounded_path_count" r in
    add_if (some && forallb test_path affected_paths) TestOnly "test_only_paths" r
  else r.

Definition automatic_evidence (original_request : string) (affected_paths : list string)
    : RoutingEvidence :=
  let r := collect_rationales original_request affected_paths in
  {| evidence_facts := (λ '(category, reasons), {| category := category;
         path_backed := existsb is_path_reason (bset_iter reasons);
         source := Deterministic |}) <$> btree_iter r;
     rationales := bset_iter <$> r |}.

(** The derived [Debug] of a category and of a mode, in lower case. *)
Definition category_name (c : RiskCategory) : string :=
  match c with
  | Authentication => "authentication" | Authorization => "authorization"
  | Cryptography => "cryptography" | Secrets => "secrets" | TrustBoundary => "trustboundary"
  | DatabaseMigration => "databasemigration" | Persistence => "persistence"
  | DataIntegrity => "dataintegrity" | NewDependency => "newdependency" | PublicApi => "publicapi"
  | Protocol => "protocol" | Schema => "schema" | Compatibility => "compatibility"
  | CrossLayer => "crosslayer" | Concurrency => "concurrency"
  | DistributedSystem => "distributedsystem" | Packaging => "packaging"
  | Installation => "installation" | Update => "update" | Release => "release"
  | Deployment => "deployment" | LargeRefactor => "largerefactor"
  | AmbiguousRequirement => "ambiguousrequirement" | HighImpact => "highimpact"
  | DifficultToReverse => "difficulttoreverse" | Documentation => "documentation"
  | LocalizedChange => "localizedchange" | TestOnly => "testonly"
  end.
Definition category_list (categories : list RiskCategory) : string :=
  String.concat "," (category_name <$> categories).
Definition enum_name (mode : Workflow.WorkflowMode) : string :=
  match mode with Workflow.Quick => "quick" | Workflow.Full => "full" end.

Section routing.
Context `{Environment, Sha256, Rfc3339, Checkpoint.Ed25519, ToJson Event.LedgerEvent,
  Persist Event.LedgerEvent, Persist Checkpoint.Checkpoint,
  ToJson (gmap RiskCategory (list string))}.

Definition routing_metadata (evidence : RoutingEvidence) (decision : RoutingDecision)
    : gmap string string :=
  list_to_map [
    ("mode", enum_name (decided_mode decision));
    ("critical_categories", category_list (critical_categories decision));
    ("advisory_categories", category_list (advisory_categories decision));
    ("rationale", default "{}" (to_vec (rationales evidence)));
    ("critical_downgrade_approval",
      from_option uuid_to_string "none" (downgrade_approval decision))].

Definition decide_and_record (checkpoint_key : Checkpoint.SigningKey) (request : RoutingRequest)
    : method Daemon AuditError (RoutingDecision * Ledger.LedgerEntry) :=
  let decision := route_workflow
    {| facts := evidence_facts (request_evidence request); preference := request_preference request;
       critical_downgrade_approval := request_approval request |} in
  entry ← audit_record checkpoint_key
    {| observed_actor := "workflowd"; observed_candidate := None;
       observed_data := AuditWorkflow "route_selected"; observed_evidence := ∅;
       observed_files := ∅;
       observed_metadata := routing_metadata (request_evidence request) decision;
       observed_model := None; observed_project_key := request_project_key request;
       observed_role := None; observed_session := None; observed_task := None;
       timestamp_unix_millis := request_unix_millis request;
       observed_workflow := Some (request_workflow request) |};
  mret (decision, entry).
End routing.

(** * Essentiality *)

Inductive AlternativeCheck : Type :=
| ExistingImplementation | StandardLibrary | NativePlatformCapability | InstalledDependency.
#[export] Instance AlternativeCheck_eq_dec : EqDecision AlternativeCheck.
Proof. solve_decision. Defined.

Inductive ProposedChangeKind : Type := NewAbstraction | NewCode | NewDependencyKind.

Record AlternativeEvidence : Type := {
  alternative_check : AlternativeCheck;
  alternative_source : string;
  viable : bool;
}.

Record ChangeProposal : Type := {
  alternatives : list AlternativeEvidence;
  proposal_kind : ProposedChangeKind;
  preserves_accessibility : bool;
  preserves_safety : bool;
  rationale : string;
  proposal_summary : string;
  proposal_task : TaskId;
}.

Record EssentialityPolicy : Type := {
  required_checks : list AlternativeCheck;
  require_accessibility_preservation : bool;
  require_safety_preservation : bool;
}.

Inductive EssentialityDecision : Type :=
| Allowed (constraint_digest : ContentDigest)
| Rejected (reasons : list string).

(** [EssentialityPolicy::default]. *)
Definition policy_default : EssentialityPolicy :=
  {| required_checks := [ExistingImplementation; StandardLibrary; NativePlatformCapability;
                         InstalledDependency];
     require_accessibility_preservation := true; require_safety_preservation := true |}.

(** The derived [Debug], in lower case. *)
Definition check_name (c : AlternativeCheck) : string :=
  match c with
  | ExistingImplementation => "existingimplementation"
  | StandardLibrary => "standardlibrary"
  | NativePlatformCapability => "nativeplatformcapability"
  | InstalledDependency => "installeddependency"
  end.

(** [evidence.get(check)] of the alternatives collected by their check: the last
    one of each counts. *)
Definition evidence_for (check : AlternativeCheck) (l : list AlternativeEvidence)
    : option AlternativeEvidence :=
  last (filter (λ item, alternative_check item = check) l).

(** What a required check adds to the reasons. *)
Definition check_reason (l : list AlternativeEvidence) (check : AlternativeCheck) : option string :=
  match evidence_for check l with
  | None => Some ("missing " +:+ check_name check +:+ " evidence")
  | Some item =>
      if is_blank (alternative_source item) then Some ("empty " +:+ check_name check +:+ " evidence")
      else if viable item then Some ("viable " +:+ check_name check +:+ " alternative exists")
      else None
  end.

Lemma check_reason_none l check :
  check_reason l check = None ↔ ∃ item, evidence_for check l = Some item ∧
    is_blank (alternative_source item) = false ∧ viable item = false.
Proof.
  unfold check_reason. destruct (evidence_for check l) as [item|].
  2: { split; [done|]. by intros (?&?&_). }
  destruct (is_blank (alternative_source item)) eqn:E1.
  { split; [done|]. intros (?&[= <-]&?&_). congruence. }
  destruct (viable item) eqn:E2.
  { split; [done|]. intros (?&[= <-]&_&?). congruence. }
  split; [by exists item|done].
Qed.

Definition reason_if (c : bool) (reason : string) : list string := if c then [reason] else [].

Section essentiality.
Context `{Sha256, ToJson EssentialityPolicy}.

(** [None] is the panic of a policy that is not serializable. *)
Definition policy_digest (p : EssentialityPolicy) : option ContentDigest := json_digest p.

Definition essentiality_reasons (p : EssentialityPolicy) (proposal : ChangeProposal) : gset string :=
  list_to_set (
    reason_if (is_blank (proposal_summary proposal) || is_blank (rationale proposal))
      "summary and rationale must be explicit"
    ++ reason_if (require_safety_preservation p && negb (preserves_safety proposal))
      "safety requirements cannot be removed by essentiality"
    ++ reason_if (require_accessibility_preservation p && negb (preserves_accessibility proposal))
      "accessibility requirements cannot be removed by essentiality"
    ++ omap (check_reason (alternatives proposal)) (required_checks p)).

(** [EssentialityPolicy::evaluate]. *)
Definition essentiality_evaluate (p : EssentialityPolicy) (proposal : ChangeProposal)
    : option EssentialityDecision :=
  let reasons := bset_iter (essentiality_reasons p proposal) in
  if bool_decide (reasons = []) then Allowed <$> policy_digest p else Some (Rejected reasons).

(** A change is allowed exactly when it is explained, keeps what has to be kept,
    and the last evidence for every required check names a source and says that
    the alternative is not viable. *)
Lemma essentiality_allowed_iff p proposal digest :
  essentiality_evaluate p proposal = Some (Allowed digest) ↔
  policy_digest p = Some digest ∧
  is_blank (proposal_summary proposal) = false ∧ is_blank (rationale proposal) = false ∧
  (require_safety_preservation p = true → preserves_safety proposal = true) ∧
  (require_accessibility_preservation p = true → preserves_accessibility proposal = true) ∧
  ∀ check, check ∈ required_checks p → ∃ item, evidence_for check (alternatives proposal) = Some item ∧
    is_blank (alternative_source item) = false ∧ viable item = false.
Proof.
  unfold essentiality_evaluate.
  assert (bset_iter (essentiality_reasons p proposal) = [] ↔
    is_blank (proposal_summary proposal) = false ∧ is_blank (rationale proposal) = false ∧
    (require_safety_preservation p = true → preserves_safety proposal = true) ∧
    (require_accessibility_preservation p = true → preserves_accessibility proposal = true) ∧
    omap (check_reason (alternatives proposal)) (required_checks p) = []) as Hnil.
  { rewrite bset_iter_nil. unfold essentiality_reasons. rewrite list_to_set_empty_iff.
    rewrite !app_nil. unfold reason_if.
    destruct (is_blank (proposal_summary proposal)), (is_blank (rationale proposal)),
      (require_safety_preservation p), (preserves_safety proposal),
      (require_accessibility_preservation p), (preserves_accessibility proposal);
      simpl; naive_solver. }
  assert (omap (check_reason (alternatives proposal)) (required_checks p) = [] ↔
    ∀ check, check ∈ required_checks p → ∃ item, evidence_for check (alternatives proposal) = Some item ∧
      is_blank (alternative_source item) = false ∧ viable item = false) as Hchecks.
  { rewrite omap_nil_iff. apply forall_proper. intros check.
    rewrite <-(check_reason_none (alternatives proposal) check). done. }
  case_bool_decide as Hr.
  - apply Hnil in Hr. rewrite Hchecks in Hr. destruct (policy_digest p); simpl; naive_solver.
  - split; [done|]. intros (_&Hrest). exfalso. apply Hr, Hnil. rewrite Hchecks. naive_solver.
Qed.
End essentiality.

(** * Repair *)

Inductive RepairCause : Type := ImplementationFinding | InfrastructureFailure | PlanDefect.

Record RepairOutcome : Type := {
  cycles : N;
  maximum : N;
  outcome_state : Workflow.WorkflowState;
}.

Definition outcome (w : Workflow.Workflow) : RepairOutcome :=
  {| cycles := Workflow.repair_cycles w; maximum := Workflow.max_repair_cycles w;
     outcome_state := Workflow.state w |}.

(** The derived [Debug]. *)
Definition target_name (t : Workflow.RepairTarget) : string :=
  match t with Workflow.RT_Execution => "Execution" | Workflow.RT_Architecture => "Architecture" end.
Definition repair_target_of (cause : RepairCause) : option Workflow.RepairTarget :=
  match cause with
  | ImplementationFinding => Some Workflow.RT_Execution
  | PlanDefect => Some Workflow.RT_Architecture
  | InfrastructureFailure => None
  end.

Section repair.
Context `{Environment, Rfc3339, Persist Workflow.Workflow, Persist Workflow.WorkflowEvent,
  Persist (PersistedResult Workflow.WorkflowEvent Workflow.Workflow)}.

(** [format!("{workflow_id}:{candidate_id}:...")]. *)
Definition candidate_key (workflow_id : WorkflowId) (candidate_id : CandidateId) (rest : string)
    : string := uuid_to_string workflow_id +:+ ":" +:+ uuid_to_string candidate_id +:+ ":" +:+ rest.

(** [repair::route]. *)
Definition repair_route (workflow_id : WorkflowId) (candidate_id : CandidateId)
    (cause : RepairCause) (timestamp : WorkflowTimestamp) : method Store StoreError RepairOutcome :=
  loaded ← reading (load_workflow workflow_id);
  current ← m_lift (ok_or AggregateConflict loaded);
  if negb (bool_decide (Workflow.current_candidate current = Some candidate_id))
  then m_throw AggregateConflict else
  match repair_target_of cause with
  | None =>
      retried ← apply_workflow_command workflow_id
        (candidate_key workflow_id candidate_id "infrastructure-retry")
        Workflow.RetryInfrastructure timestamp;
      mret (outcome (result_state retried))
  | Some target =>
      command ← m_lift (match Workflow.state current with
        | Workflow.Verification => Ok (Workflow.VerificationRejected target)
        | Workflow.Arbitration => Ok (Workflow.Reject target)
        | _ => Err (Transition Workflow.InvalidTransition)
        end);
      answer ← apply_workflow_command workflow_id
        (candidate_key workflow_id candidate_id ("reject:" +:+ target_name target))
        command timestamp;
      let rejected := result_state answer in
      if Workflow.state_is Workflow.Repair rejected then
        repairing ← apply_workflow_command workflow_id
          (candidate_key workflow_id candidate_id
             ("begin-repair:" +:+ pretty (Workflow.repair_cycles rejected)))
          Workflow.BeginRepair timestamp;
        mret (outcome (result_state repairing))
      else mret (outcome rejected)
  end.
End repair.

(** * Examples *)

(** A change under a directory is recognised at the top of a project only when
    another directory is above it. *)
Example top_level_deployment_unnoticed :
  (bool_decide (is_Some (classify_path "ops/deploy/prod.yml" ∅ !! Deployment)),
   bool_decide (is_Some (classify_path "deploy/prod.yml" ∅ !! Deployment))) = (true, false).
Proof. vm_compute. reflexivity. Qed.

(** The last evidence for a check hides what came before. *)
Definition sample_alternative (check : AlternativeCheck) (is_viable : bool) : AlternativeEvidence :=
  {| alternative_check := check; alternative_source := "searched"; viable := is_viable |}.
Example viable_alternative_hidden :
  let l := sample_alternative ExistingImplementation true ::
    ((λ check, sample_alternative check false) <$> required_checks policy_default) in
  omap (check_reason l) (required_checks policy_default) = [].
Proof. vm_compute. reflexivity. Qed.
End Services.
