(* ===== verification/Lifecycle.v ===== *)
(** The requests the daemon serves: workflowd/src/lifecycle.rs.

    A handler is a method of the daemon's state. Handlers that let go of the
    store while a worktree is read, frozen or verified come in two parts, before
    and after; what the other part gives is an argument of the second one, so
    that other requests may come in between. Freezing, discovery and runs are
    those of Freeze.v, VerificationPlans.v and VerificationRuns.v; a promotion's
    work on the repository is that of Delivery.v.

    An error keeps where it comes from instead of its text; [Refused] has the
    text of the handler's own refusals. *)
From stdpp Require Import pretty.
From Stdlib Require Import Ascii String.
From S2P Require Import Prelude Text Ids Paths Canonical WorkflowMachine TaskMachine Requests Goals.
From S2P Require Import Dag Verdicts Candidates Plans Routing Redaction Ledger History Policy Admission.
From S2P Require Import Database StoreCommands StoreLeases StoreCandidates StoreDocuments StoreLedger StoreGoals.
From S2P Require Import StoreRun FileSystem Freeze VerificationPlans VerificationRuns Services.

Module Lifecycle.
Export Documents Services.
Import (hints) Routing Workflow Arbiter Evidence Review.

Abbreviation Value := VerificationPlan.Value.
Abbreviation VerificationPlanT := VerificationPlan.VerificationPlan.

(** [serde_json::to_value] and [serde_json::from_value] at a type. *)
Class JsonValue (A : Type) := { to_value : A → option Value; from_value : Value → option A }.

#[export] Instance RequirementDecision_eq_dec : EqDecision RequirementDecision.
Proof. solve_decision. Defined.
#[export] Instance FindingSeverity_eq_dec : EqDecision FindingSeverity.
Proof. solve_decision. Defined.
#[export] Instance Finding_eq_dec : EqDecision Finding.
Proof. solve_decision. Defined.
#[export] Instance ArbiterVerdict_eq_dec : EqDecision Arbiter.ArbiterVerdict.
Proof. solve_decision. Defined.

Inductive DaemonError : Type :=
| StoreFailure (error : StoreError)
| AuditFailure (error : AuditError)
| DiscoveryFailure (error : VerificationPlan.VerificationPlanError)
| FreezeFailure (error : RepositoryFs.CandidateFreezeError)
| RunFailure (error : VerificationRun.VerificationRunError)
| InvalidVerdict (error : Arbiter.VerdictValidationError)
| SerializationFailure
| ClockFailure
| Crashed
| Refused (message : string)
| Coded (code : string) (error : DaemonError).

Abbreviation daemon := (method Daemon DaemonError).

Definition refuse_if (c : bool) (message : string) : daemon unit :=
  m_lift (reject_if c (Refused message)).
(** [.ok_or_else(|| message)?]. *)
Definition present {A} (o : option A) (message : string) : daemon A :=
  m_lift (ok_or (Refused message) o).
(** [expect] and the panics of digests. *)
Definition certain {A} (o : option A) : daemon A := m_lift (ok_or Crashed o).

(** * Messages *)

Inductive ExecutionOutcome : Type := ExecutionBlocked | ExecutionPlanDefect.

Inductive ProtocolPayload : Type :=
| RequestPayload (record : Request.RequestRecord)
| ArchitecturePayload (plan : Plan.ArchitecturePlan)
| CandidatePayload (candidate : Candidate.CandidateManifest)
| EvidencePayload (evidence : Evidence.EvidenceRecord)
| VerdictPayload (verdict : Arbiter.ArbiterVerdict).

(** [IpcRequest], with the payload of its envelope. *)
Record IpcRequest : Type := {
  affected_paths : list string;
  ipc_approval : option ReceiptId;
  ipc_payload : ProtocolPayload;
  ipc_project_key : string;
  ipc_preference : Routing.UserRoutingPreference;
  ipc_workflow : option WorkflowId;
}.

Record CandidateFreezeRequest : Type := {
  freeze_base_revision : string;
  freeze_candidate_id : CandidateId;
  freeze_evidence_ids : list EvidenceId;
  freeze_plan_id : VerificationPlanId;
  freeze_project_key : string;
  freeze_workflow_id : WorkflowId;
}.

Record VerificationRequest : Type := {
  verify_attestations : list VerificationRun.ManagedBrowserAttestation;
  verify_candidate_id : CandidateId;
  verify_plan_id : VerificationPlanId;
  verify_project_key : string;
  verify_workflow_id : WorkflowId;
}.

(** The name serde gives a state. *)
Definition workflow_state (s : Workflow.WorkflowState) : string :=
  match s with
  | Workflow.Intake => "intake" | Workflow.Routing => "routing"
  | Workflow.QuickExecution => "quick_execution" | Workflow.Architecture => "architecture"
  | Workflow.Execution => "execution" | Workflow.Verification => "verification"
  | Workflow.IndependentReviews => "independent_reviews" | Workflow.Arbitration => "arbitration"
  | Workflow.Delivery => "delivery" | Workflow.Repair => "repair" | Workflow.Paused => "paused"
  | Workflow.Blocked => "blocked" | Workflow.Completed => "completed"
  | Workflow.Cancelled => "cancelled"
  end.

Definition status_name (s : Evidence.EvidenceStatus) : string :=
  match s with Evidence.Passed => "passed" | Evidence.Failed => "failed" | Evidence.Skipped => "skipped" end.

Definition safe_relative (value : string) : bool := all_components_normal value.

Definition is_executing (s : Workflow.WorkflowState) : bool :=
  match s with Workflow.Execution | Workflow.QuickExecution => true | _ => false end.
Definition is_delivering (s : Workflow.WorkflowState) : bool :=
  match s with Workflow.Delivery | Workflow.Completed => true | _ => false end.

Definition admission_allowed (operation : Admission.AdmissionOperation) (s : Workflow.WorkflowState) : bool :=
  match operation with
  | Admission.Release => true
  | _ => match s with
         | Workflow.Paused | Workflow.Blocked | Workflow.Completed | Workflow.Cancelled => false
         | _ => true
         end
  end.

Definition role_name (role : WorkflowRole) : option string :=
  match role with
  | FunctionalReviewer => Some "functional_reviewer"
  | SecurityArchitectureReviewer => Some "security_architecture_reviewer"
  | Architect | Executor | Arbiter => None
  end.

Section handlers.
Context `{Environment, Sha256, Rfc3339, Checkpoint.Ed25519}.
Context `{ToJson (list (string * string * bool)), ToJson Plan.ArchitecturePlan,
  ToJson Arbiter.ArbiterVerdict, ToJson Review.ReviewVerdict, ToJson Event.LedgerEvent,
  ToJson EssentialityPolicy, ToJson (gmap Routing.RiskCategory (list string)),
  JsonValue VerificationPlanT, JsonValue EssentialityPolicy}.
Context `{Persist Value, Persist Workflow.Workflow, Persist Workflow.WorkflowEvent,
  Persist (PersistedResult Workflow.WorkflowEvent Workflow.Workflow),
  Persist Request.RequestRecordUnchecked, Persist UncheckedPlan,
  Persist Candidate.CandidateManifestUnchecked, Persist Evidence.EvidenceRecord,
  Persist Review.ReviewVerdict, Persist Arbiter.ArbiterVerdict, Persist Receipt.ArbitrationReceipt,
  Persist Event.LedgerEvent, Persist Checkpoint.Checkpoint}.
Context (checkpoint_key : Checkpoint.SigningKey).

Implicit Types workflow_id : WorkflowId.
Implicit Types candidate_id : CandidateId.

(** A call of the store, and a look at it. *)
Definition call {A} (m : method Store StoreError A) : daemon A := on_store StoreFailure m.
Definition look {A} (q : Store → result StoreError A) : daemon A := asking StoreFailure q.

(** [now_unix_millis]. *)
Definition now_unix_millis : daemon Z :=
  d ← m_get; _ ← m_modify tick; m_lift (ok_or ClockFailure (unix_millis_at (ticks d))).

(** [store.apply_workflow_command(.., WorkflowTimestamp::now())] and the state it
    answers. *)
Definition command_now workflow_id (key : string) (c : Workflow.WorkflowCommand)
    : daemon Workflow.Workflow :=
  timestamp ← now;
  answer ← call (apply_workflow_command workflow_id key c timestamp);
  mret (result_state answer).

Definition record_observation (o : AuditObservation) : daemon Ledger.LedgerEntry :=
  converted AuditFailure (audit_record checkpoint_key o).

(** The fields that all of the daemon's own observations share. *)
Definition workflowd_observation (candidate : option CandidateId) (data : AuditData)
    (evidence_ids : gset EvidenceId) (files : gset string) (metadata : gmap string string)
    (project_key : string) (role : option WorkflowRole) (session : option string) (millis : Z)
    (workflow : option WorkflowId) : AuditObservation :=
  {| observed_actor := "workflowd"; observed_candidate := candidate; observed_data := data;
     observed_evidence := evidence_ids; observed_files := files; observed_metadata := metadata;
     observed_model := None; observed_project_key := project_key; observed_role := role;
     observed_session := session; observed_task := None; timestamp_unix_millis := millis;
     observed_workflow := workflow |}.

Definition manifest_paths (m : Candidate.CandidateManifest) : gset string :=
  list_to_set (Candidate.path <$> Candidate.files m).

Definition current_workflow_of workflow_id : daemon Workflow.Workflow :=
  loaded ← look (load_workflow workflow_id);
  present loaded "workflow state does not exist".

(** * Checks *)

Definition validate_project (project_id : ProjectId) workflow_id : daemon unit :=
  loaded ← look (load_request workflow_id);
  stored ← present loaded "workflow request does not exist";
  refuse_if (negb (bool_decide (project_id = stored.1))) "workflow belongs to another project".

Definition validate_candidate_state workflow_id candidate_id : daemon unit :=
  w ← current_workflow_of workflow_id;
  refuse_if (negb (is_executing (Workflow.state w)
      || Workflow.state_is Workflow.Verification w
         && bool_decide (Workflow.current_candidate w = Some candidate_id)))
    "workflow is not ready to freeze this candidate".

Definition validate_worktree_request (project_key : string) workflow_id : daemon ProjectId :=
  let project_id := from_stable_key project_key in
  loaded ← look (load_request workflow_id);
  stored ← present loaded "workflow request does not exist";
  _ ← refuse_if (negb (bool_decide (project_id = stored.1))) "workflow belongs to another project";
  w ← current_workflow_of workflow_id;
  _ ← (if is_executing (Workflow.state w) then
         plan ← look (load_architecture workflow_id);
         refuse_if (bool_decide (plan = None)) "workflow is not ready for isolated execution"
       else m_throw (Refused "workflow is not ready for isolated execution"));
  mret project_id.

(** * Execution reports *)

Definition report_execution (project_key : string) workflow_id (outcome : ExecutionOutcome)
    (report_id : ReceiptId) : daemon Workflow.WorkflowState :=
  _ ← validate_project (from_stable_key project_key) workflow_id;
  current ← current_workflow_of workflow_id;
  command ← match outcome with
    | ExecutionBlocked =>
        _ ← refuse_if (match Workflow.state current with
             | Workflow.Blocked | Workflow.Cancelled | Workflow.Completed | Workflow.Paused => true
             | _ => false
             end) "workflow cannot be blocked from its current state";
        mret Workflow.BlockInfrastructure
    | ExecutionPlanDefect => mret Workflow.ReplanExecution
    end;
  w ← command_now workflow_id
        (uuid_to_string workflow_id +:+ ":execution-report:" +:+ uuid_to_string report_id) command;
  mret (Workflow.state w).

(** * Reviews and arbitration *)

Definition mandatory_unpassed (records : list (Evidence.EvidenceRecord * string * bool)) : bool :=
  existsb (λ '(r, _, mandatory), mandatory && negb (bool_decide (Evidence.status r = Evidence.Passed)))
    records.

Definition review_of (role : WorkflowRole) (reviews : list Review.ReviewVerdict)
    : option Review.ReviewVerdict := find (λ r, bool_decide (Review.role r = role)) reviews.
Definition approves (r : Review.ReviewVerdict) : bool :=
  match Review.decision r with Review.Approved => true | _ => false end.

(** The reviews of a mode: the digests that go into the receipt, and whether they
    approve. *)
Definition reviews_for (mode : option Workflow.WorkflowMode) (digest : ContentDigest)
    (reviews : list Review.ReviewVerdict)
    : result DaemonError (option ContentDigest * option ContentDigest * bool) :=
  match mode with
  | Some Workflow.Full =>
      _ ← reject_if (negb (length reviews =? 2)
                     || existsb (λ r, negb (bool_decide (Review.candidate_digest r = digest))) reviews)
            (Refused "both independent candidate reviews are required");
      functional ← ok_or (Refused "functional review is missing")
        (review_of FunctionalReviewer reviews);
      security ← ok_or (Refused "security and architecture review is missing")
        (review_of SecurityArchitectureReviewer reviews);
      functional_digest ← ok_or Crashed (Review.review_digest functional);
      security_digest ← ok_or Crashed (Review.review_digest security);
      Ok (Some functional_digest, Some security_digest, approves functional && approves security)
  | Some Workflow.Quick =>
      _ ← reject_if (negb (bool_decide (reviews = [])))
            (Refused "quick workflows cannot include independent reviews");
      Ok (None, None, true)
  | None => Err (Refused "workflow does not have a routing mode")
  end.

Definition repair_cause (target : option Workflow.RepairTarget) : option RepairCause :=
  match target with
  | Some Workflow.RT_Architecture => Some PlanDefect
  | Some Workflow.RT_Execution => Some ImplementationFinding
  | None => None
  end.

(** The command that a recorded verdict is followed by. *)
Definition advance_arbitration workflow_id candidate_id (verdict : Arbiter.ArbiterVerdict)
    (timestamp : WorkflowTimestamp) : daemon Workflow.WorkflowState :=
  match Arbiter.decision verdict with
  | Arbiter.Approved =>
      answer ← call (apply_workflow_command workflow_id (candidate_key workflow_id candidate_id "approved")
                 (Workflow.Approve true) timestamp);
      mret (Workflow.state (result_state answer))
  | Arbiter.Rejected =>
      cause ← present (repair_cause (Arbiter.repair_target verdict))
        "rejected verdict lacks a repair target";
      repaired ← call (repair_route workflow_id candidate_id cause timestamp);
      mret (outcome_state repaired)
  end.

Definition arbitration_action (d : Arbiter.ArbiterDecision) : string :=
  match d with
  | Arbiter.Approved => "arbitration_approved"
  | Arbiter.Rejected => "arbitration_rejected"
  end.

(** What a first verdict is checked against, and its receipt. *)
Definition arbitration_receipt workflow_id candidate_id (verdict : Arbiter.ArbiterVerdict)
    : daemon (Candidate.CandidateManifest * Receipt.ArbitrationReceipt) :=
  state ← current_workflow_of workflow_id;
  _ ← refuse_if (negb (Workflow.state_is Workflow.Arbitration state)
                 || negb (bool_decide (Workflow.current_candidate state = Some candidate_id)))
        "workflow is not ready to arbitrate this candidate";
  loaded ← look (load_request workflow_id);
  stored ← present loaded "immutable workflow request does not exist";
  loaded ← look (load_architecture workflow_id);
  architecture ← present loaded "workflow architecture does not exist";
  loaded ← look (load_candidate candidate_id);
  candidate ← present loaded "candidate does not exist";
  digest ← certain (Candidate.candidate_digest (stored_manifest candidate));
  _ ← refuse_if (negb (bool_decide (Arbiter.candidate_digest verdict = digest)))
        "arbiter verdict does not bind to the frozen candidate";
  records ← look (load_candidate_evidence candidate_id);
  let ids : gset EvidenceId := list_to_set ((λ r, Evidence.id r.1.1) <$> records) in
  _ ← m_lift (map_err InvalidVerdict
        (Arbiter.verdict_validate verdict (plan_requirements architecture) ids));
  reviews ← look (load_reviews candidate_id);
  found ← m_lift (reviews_for (Workflow.mode state) digest reviews);
  let '(functional, security, approved) := found in
  _ ← refuse_if (bool_decide (Arbiter.decision verdict = Arbiter.Approved)
                 && (negb approved || mandatory_unpassed records))
        "approval requirements have not passed";
  timestamp ← now;
  verdict_digest ← certain (Arbiter.verdict_digest verdict);
  receipt_id ← fresh;
  request_digest ← certain (Request.request_digest stored.2);
  mret (stored_manifest candidate,
    {| Receipt.arbiter_verdict_digest := verdict_digest; Receipt.candidate_digest := digest;
       Receipt.candidate_id := candidate_id; Receipt.evidence_ids := ids;
       Receipt.finalized_at := timestamp; Receipt.functional_review_digest := functional;
       Receipt.id := receipt_id; Receipt.request_digest := request_digest;
       Receipt.security_review_digest := security; Receipt.workflow_id := workflow_id |}).

Definition submit_arbitration (project_key : string) workflow_id candidate_id
    (verdict : Arbiter.ArbiterVerdict)
    : daemon (Receipt.ArbitrationReceipt * Workflow.WorkflowState) :=
  _ ← validate_project (from_stable_key project_key) workflow_id;
  existing ← look (load_arbitration candidate_id);
  match existing with
  | Some (owner, existing_verdict, receipt) =>
      _ ← refuse_if (negb (bool_decide (owner = workflow_id))
                     || negb (bool_decide (existing_verdict = verdict)))
            "candidate already has another arbitration verdict";
      state ← current_workflow_of workflow_id;
      mret (receipt, Workflow.state state)
  | None =>
      '(manifest, receipt) ← arbitration_receipt workflow_id candidate_id verdict;
      let timestamp := Receipt.finalized_at receipt in
      _ ← call (save_arbitration_once workflow_id candidate_id verdict receipt timestamp);
      next_state ← advance_arbitration workflow_id candidate_id verdict timestamp;
      receipt_digest ← certain (Receipt.receipt_digest receipt);
      millis ← now_unix_millis;
      _ ← record_observation (workflowd_observation (Some candidate_id)
            (AuditWorkflow (arbitration_action (Arbiter.decision verdict)))
            (Receipt.evidence_ids receipt) (manifest_paths manifest)
            {["receipt_digest" := digest_to_string receipt_digest]}
            project_key (Some Arbiter) None millis (Some workflow_id));
      mret (receipt, next_state)
  end.

Definition verdict_evidence (v : Review.ReviewVerdict) : gset EvidenceId :=
  list_to_set ((Review.requirements v ≫= λ r, elements (requirement_evidence r))
    ++ (Review.findings v ≫= λ f, elements (finding_evidence f))).

Definition submit_review (project_key : string) workflow_id candidate_id
    (verdict : Review.ReviewVerdict) : daemon bool :=
  _ ← validate_project (from_stable_key project_key) workflow_id;
  timestamp ← now;
  duplicate ← call (save_review_once workflow_id candidate_id verdict timestamp);
  _ ← (if duplicate : bool then mret tt else
         reviewer ← present (role_name (Review.role verdict)) "role is not an independent reviewer";
         millis ← now_unix_millis;
         _ ← record_observation (workflowd_observation (Some candidate_id)
               (AuditWorkflow "independent_review_finalized") (verdict_evidence verdict) ∅
               {["review_role" := reviewer]} project_key (Some (Review.role verdict)) None millis
               (Some workflow_id));
         mret tt);
  reviews ← look (load_reviews candidate_id);
  let reviews_ready := length reviews =? 2 in
  _ ← (if reviews_ready then
         state ← current_workflow_of workflow_id;
         if Workflow.state_is Workflow.IndependentReviews state then
           _ ← command_now workflow_id (candidate_key workflow_id candidate_id "reviews-ready")
                 Workflow.ReviewsReady;
           mret tt
         else mret tt
       else mret tt);
  mret reviews_ready.

(** * Planning verification *)

Definition json_value {A} `{JsonValue A} (v : Value) : daemon A :=
  m_lift (ok_or SerializationFailure (from_value v)).

(** [plan_verification] up to the discovery: a plan that is stored already, or the
    architecture to discover for. *)
Definition plan_verification_begin (project_key : string) workflow_id (plan_id : VerificationPlanId)
    : daemon (VerificationPlanT + Plan.ArchitecturePlan) :=
  _ ← validate_project (from_stable_key project_key) workflow_id;
  loaded ← look (load_verification_plan plan_id);
  match loaded with
  | Some (owner, value) =>
      _ ← refuse_if (negb (bool_decide (owner = workflow_id)))
            "verification plan belongs to another workflow";
      plan ← json_value value; mret (inl plan)
  | None =>
      state ← current_workflow_of workflow_id;
      _ ← refuse_if (negb (is_executing (Workflow.state state)))
            "workflow is not ready to plan verification";
      loaded ← look (load_architecture workflow_id);
      architecture ← present loaded "workflow architecture does not exist"; mret (inr architecture)
  end.

(** The rest, with what was discovered. *)
Definition plan_verification_finish (project_key : string) workflow_id (plan_id : VerificationPlanId)
    (discovered : result VerificationPlan.VerificationPlanError VerificationPlanT)
    : daemon VerificationPlanT :=
  plan ← m_lift (map_err DiscoveryFailure discovered);
  value ← m_lift (ok_or SerializationFailure (to_value plan));
  _ ← validate_project (from_stable_key project_key) workflow_id;
  timestamp ← now;
  _ ← call (save_verification_plan_once plan_id workflow_id value timestamp);
  mret plan.

(** * Verifying *)

Record VerificationInputs : Type := {
  inputs_plan : VerificationPlanT;
  inputs_candidate : StoredCandidate;
  inputs_files : list CandidateFilePayload;
}.

(** [verify_candidate] up to the run. *)
Definition verify_candidate_begin (r : VerificationRequest) : daemon VerificationInputs :=
  _ ← validate_project (from_stable_key (verify_project_key r)) (verify_workflow_id r);
  state ← current_workflow_of (verify_workflow_id r);
  _ ← refuse_if (negb (Workflow.state_is Workflow.Verification state)
        || negb (bool_decide (Workflow.current_candidate state = Some (verify_candidate_id r))))
        "workflow is not ready to verify this candidate";
  loaded ← look (load_verification_plan (verify_plan_id r));
  '(plan_owner, plan) ← present loaded "verification plan does not exist";
  loaded ← look (load_candidate (verify_candidate_id r));
  candidate ← present loaded "candidate does not exist";
  _ ← refuse_if (negb (bool_decide (plan_owner = verify_workflow_id r))
        || negb (bool_decide (stored_workflow candidate = verify_workflow_id r)))
        "verification inputs belong to another workflow";
  files ← m_lift (map_err StoreFailure (require_exact_files candidate));
  plan ← json_value plan;
  mret {| inputs_plan := plan; inputs_candidate := candidate; inputs_files := files |}.

(** A turn of the loop over the gates and their records. *)
Definition save_gate_evidence (r : VerificationRequest) (manifest : Candidate.CandidateManifest)
    (outputs : gmap EvidenceId string)
    (item : VerificationPlan.VerificationGate * Evidence.EvidenceRecord) : daemon unit :=
  let '(gate, record) := item in
  output ← present (outputs !! Evidence.id record) "verification output is missing";
  timestamp ← now;
  _ ← call (save_evidence_once (verify_plan_id r) (verify_workflow_id r) (verify_candidate_id r)
        record output (VerificationPlan.mandatory gate) timestamp);
  millis ← now_unix_millis;
  _ ← record_observation (workflowd_observation (Some (verify_candidate_id r))
        (AuditVerification (VerificationPlan.name gate) (status_name (Evidence.status record)))
        {[Evidence.id record]} (manifest_paths manifest)
        {["output_digest" := digest_to_string (Evidence.output_digest record)]}
        (verify_project_key r) None None millis (Some (verify_workflow_id r)));
  mret tt.

(** The rest, with the run. *)
Definition verify_candidate_finish (r : VerificationRequest) (inputs : VerificationInputs)
    (ran : result VerificationRun.VerificationRunError VerificationRun.VerificationRun)
    : daemon (VerificationRun.VerificationRun * Workflow.WorkflowState) :=
  run ← m_lift (map_err RunFailure ran);
  _ ← validate_project (from_stable_key (verify_project_key r)) (verify_workflow_id r);
  _ ← m_for_each (save_gate_evidence r (stored_manifest (inputs_candidate inputs))
                    (VerificationRun.outputs run))
        (zip (VerificationPlan.gates (inputs_plan inputs)) (VerificationRun.records run));
  if VerificationRun.mandatory_passed run then
    w ← command_now (verify_workflow_id r)
          (candidate_key (verify_workflow_id r) (verify_candidate_id r) "verification-passed")
          Workflow.VerificationPassed;
    mret (run, Workflow.state w)
  else if VerificationRun.infrastructure_blocked run then
    w ← command_now (verify_workflow_id r)
          (candidate_key (verify_workflow_id r) (verify_candidate_id r) "verification-blocked")
          Workflow.BlockInfrastructure;
    mret (run, Workflow.state w)
  else
    timestamp ← now;
    repaired ← call (repair_route (verify_workflow_id r) (verify_candidate_id r)
                       ImplementationFinding timestamp);
    mret (run, outcome_state repaired).

(** * Freezing *)

Definition ready_command workflow_id candidate_id : daemon Workflow.Workflow :=
  command_now workflow_id
    (uuid_to_string workflow_id +:+ ":candidate:" +:+ uuid_to_string candidate_id)
    (Workflow.CandidateReady candidate_id).

(** [freeze_candidate] up to the freezing: [Some] manifest of a candidate that was
    frozen before, or [None] to go on. *)
Definition freeze_candidate_begin (r : CandidateFreezeRequest)
    : daemon (option Candidate.CandidateManifest) :=
  let workflow_id := freeze_workflow_id r in
  let candidate_id := freeze_candidate_id r in
  _ ← validate_project (from_stable_key (freeze_project_key r)) workflow_id;
  loaded ← look (load_verification_plan (freeze_plan_id r));
  '(plan_owner, plan) ← present loaded "verification plan does not exist";
  _ ← refuse_if (negb (bool_decide (plan_owner = workflow_id)))
        "verification plan belongs to another workflow";
  plan ← json_value plan;
  let planned : gset EvidenceId := list_to_set (VerificationPlan.plan_evidence_ids plan) in
  let supplied : gset EvidenceId := list_to_set (freeze_evidence_ids r) in
  _ ← refuse_if (negb (bool_decide (planned = supplied))
                 || negb (size planned =? length (freeze_evidence_ids r)))
        "candidate evidence identifiers do not match the verification plan";
  loaded ← look (load_candidate candidate_id);
  match loaded with
  | Some candidate =>
      _ ← refuse_if (negb (bool_decide (stored_workflow candidate = workflow_id)))
            "candidate belongs to another workflow";
      _ ← m_lift (map_err StoreFailure (require_exact_files candidate));
      state ← current_workflow_of workflow_id;
      _ ← (if is_executing (Workflow.state state) then
             _ ← ready_command workflow_id candidate_id; mret tt
           else refuse_if (negb (Workflow.state_is Workflow.Verification state)
                  || negb (bool_decide (Workflow.current_candidate state = Some candidate_id)))
                  "workflow no longer accepts this candidate");
      mret (Some (stored_manifest candidate))
  | None => _ ← validate_candidate_state workflow_id candidate_id; mret None
  end.

(** The rest, with what was frozen. *)
Definition freeze_candidate_finish (r : CandidateFreezeRequest)
    (result : result RepositoryFs.CandidateFreezeError Freeze.FrozenCandidate)
    : daemon Candidate.CandidateManifest :=
  let workflow_id := freeze_workflow_id r in
  let candidate_id := freeze_candidate_id r in
  frozen ← m_lift (map_err FreezeFailure result);
  let manifest := Freeze.manifest frozen in
  _ ← validate_project (from_stable_key (freeze_project_key r)) workflow_id;
  _ ← validate_candidate_state workflow_id candidate_id;
  timestamp ← now;
  _ ← call (save_candidate_once workflow_id manifest (Freeze.exact_diff frozen)
        (Freeze.exact_files frozen) timestamp);
  _ ← ready_command workflow_id candidate_id;
  digest ← certain (Candidate.candidate_digest manifest);
  millis ← now_unix_millis;
  _ ← record_observation (workflowd_observation (Some candidate_id)
        (AuditWorkflow "candidate_frozen") (list_to_set (Candidate.evidence_ids manifest))
        (manifest_paths manifest) {["candidate_digest" := digest_to_string digest]}
        (freeze_project_key r) None None millis (Some workflow_id));
  mret manifest.

(** * Requests of the protocol *)

Definition coded {A} (code : string) (m : daemon A) : daemon A := converted (Coded code) m.

Definition workflow_key workflow_id (rest : string) : string :=
  uuid_to_string workflow_id +:+ ":" +:+ rest.

(** [start_workflow], with the record its payload is. *)
Definition start_workflow (r : IpcRequest) (record : Request.RequestRecord)
    : daemon (WorkflowId * Workflow.WorkflowMode) :=
  _ ← coded "invalid_project" (refuse_if
        (is_blank (ipc_project_key r) || (1024 <? str_len (ipc_project_key r))%N)
        "project key is invalid");
  _ ← coded "invalid_path" (refuse_if
        ((10000 <? N.of_nat (length (affected_paths r)))%N
         || existsb (λ path, negb (safe_relative path)) (affected_paths r))
        "affected paths must be bounded project-relative paths");
  workflow_id ← from_option mret fresh (ipc_workflow r);
  timestamp ← now;
  let project_id := from_stable_key (ipc_project_key r) in
  _ ← coded "request_rejected" (call (save_request_once workflow_id project_id record timestamp));
  loaded ← coded "intake_failed" (look (load_workflow workflow_id));
  state ← match loaded with
    | None =>
        answer ← coded "intake_failed" (call (apply_workflow_command workflow_id
          (workflow_key workflow_id "complete-intake") Workflow.CompleteIntake timestamp));
        mret (result_state answer)
    | Some state => mret state
    end;
  _ ← (if Workflow.state_is Workflow.Routing state then
         let evidence := automatic_evidence (Request.original_text record) (affected_paths r) in
         millis ← coded "clock_failed" now_unix_millis;
         '(decision, _) ← coded "routing_failed" (converted AuditFailure
           (decide_and_record checkpoint_key
              {| request_approval := ipc_approval r; request_evidence := evidence;
                 request_preference := ipc_preference r; request_project_key := ipc_project_key r;
                 request_unix_millis := millis; request_workflow := workflow_id |}));
         _ ← coded "routing_failed" (call (apply_workflow_command workflow_id
               (workflow_key workflow_id "route") (Workflow.Route (Routing.decided_mode decision))
               timestamp));
         mret tt
       else mret tt);
  loaded ← coded "routing_failed" (look (load_workflow workflow_id));
  mode ← coded "routing_failed" (present (loaded ≫= Workflow.mode)
           "workflow did not reach a routed state");
  mret (workflow_id, mode).

(** [accept_architecture], with the plan its payload is. *)
Definition accept_architecture (r : IpcRequest) (plan : Plan.ArchitecturePlan)
    : daemon (WorkflowId * Workflow.WorkflowMode) :=
  workflow_id ← coded "missing_workflow" (present (ipc_workflow r)
    "architecture submission requires a workflow identifier");
  loaded ← coded "architecture_rejected" (look (load_request workflow_id));
  stored ← coded "missing_workflow" (present loaded "workflow request does not exist");
  _ ← coded "project_mismatch" (refuse_if
        (negb (bool_decide (stored.1 = from_stable_key (ipc_project_key r))))
        "workflow belongs to another project");
  timestamp ← now;
  _ ← coded "architecture_rejected" (call (save_architecture_once workflow_id plan timestamp));
  value ← coded "constraint_failed" (m_lift (ok_or SerializationFailure (to_value policy_default)));
  constraint_digest ← certain (policy_digest policy_default);
  duplicate ← coded "constraint_failed" (call (save_constraint_once workflow_id "essentiality"
    constraint_digest value timestamp));
  _ ← (if duplicate : bool then mret tt else
         millis ← coded "clock_failed" now_unix_millis;
         _ ← coded "constraint_failed" (record_observation (workflowd_observation None
               (AuditWorkflow "essentiality_constraint_recorded") ∅ ∅
               {["constraint_digest" := digest_to_string constraint_digest]}
               (ipc_project_key r) None None millis (Some workflow_id)));
         mret tt);
  loaded ← coded "architecture_rejected" (look (load_workflow workflow_id));
  state ← coded "missing_workflow" (present loaded "workflow state does not exist");
  _ ← (if Workflow.state_is Workflow.Architecture state then
         digest ← certain (Plan.plan_digest plan);
         _ ← coded "architecture_rejected" (call (apply_workflow_command workflow_id
               (workflow_key workflow_id ("architecture-accepted:" +:+ digest_to_string digest))
               Workflow.ArchitectureAccepted timestamp));
         mret tt
       else coded "invalid_state" (refuse_if (negb (is_executing (Workflow.state state)))
              "workflow is not awaiting an architecture plan"));
  mode ← coded "routing_failed" (present (Workflow.mode state)
           "workflow does not have a routing mode");
  mret (workflow_id, mode).

Definition process_protocol_request (r : IpcRequest)
    : daemon (WorkflowId * Workflow.WorkflowMode) :=
  match ipc_payload r with
  | RequestPayload record => start_workflow r record
  | ArchitecturePayload plan => accept_architecture r plan
  | CandidatePayload _ | EvidencePayload _ | VerdictPayload _ =>
      coded "operation_unavailable" (m_throw (Refused
        "the protocol payload is not accepted in the current implementation stage"))
  end.

(** The digest that [handle_protocol_request] answers with. *)
Definition payload_digest (p : ProtocolPayload) : option ContentDigest :=
  match p with
  | RequestPayload record => Request.request_digest record
  | ArchitecturePayload plan => Some (Plan.request_digest plan)
  | CandidatePayload candidate => Candidate.candidate_digest candidate
  | EvidencePayload evidence => Some (Evidence.candidate_digest evidence)
  | VerdictPayload verdict => Some (Arbiter.candidate_digest verdict)
  end.

(** * Delivery *)

Definition bounded_text (s : string) : bool :=
  negb (bool_decide (s = "")) && (str_len s <=? 32768)%N && negb (contains_char nul s).

(** What a promotion starts with: the candidate, its files and the digest of the
    journal that its reservation has. *)
Record Promotion : Type := {
  promoted : StoredCandidate;
  promoted_files : list CandidateFilePayload;
  promoted_digest : ContentDigest;
  reserved_journal : option ContentDigest;
}.

(** The promotion of a candidate up to the work on the repository; [repository] is
    the canonical directory and [indexed] the one the project was indexed from. *)
Definition promote_candidate_begin (project_key project_directory : string)
    (repository : option string) (indexed : option string) workflow_id candidate_id
    : daemon Promotion :=
  _ ← refuse_if (negb (bounded_text project_key && bounded_text project_directory))
        "candidate promotion request is invalid";
  repository ← present repository "the directory cannot be resolved";
  indexed ← present indexed "project repository identity is unavailable";
  _ ← refuse_if (negb (bool_decide (repository = indexed)))
        "candidate promotion repository does not match the indexed project";
  state ← current_workflow_of workflow_id;
  _ ← refuse_if (negb (is_delivering (Workflow.state state))
                 || negb (bool_decide (Workflow.current_candidate state = Some candidate_id)))
        "workflow is not awaiting delivery of this candidate";
  loaded ← look (load_candidate candidate_id);
  candidate ← present loaded "candidate does not exist";
  loaded ← look (load_arbitration candidate_id);
  '(arbitration_owner, verdict, _) ← present loaded "approved arbitration does not exist";
  _ ← refuse_if (negb (bool_decide (stored_workflow candidate = workflow_id))
                 || negb (bool_decide (arbitration_owner = workflow_id))
                 || negb (bool_decide (Arbiter.decision verdict = Arbiter.Approved)))
        "candidate is not bound to an approved workflow";
  files ← m_lift (map_err StoreFailure (require_exact_files candidate));
  digest ← certain (Candidate.candidate_digest (stored_manifest candidate));
  timestamp ← now;
  _ ← call (reserve_candidate_delivery workflow_id candidate_id digest timestamp);
  journal ← look (λ s, Ok (candidate_delivery_journal_digest workflow_id candidate_id s));
  mret {| promoted := candidate; promoted_files := files; promoted_digest := digest;
          reserved_journal := journal |}.

(** The call-back of [promote_bound]. *)
Definition promote_candidate_bind workflow_id candidate_id (digest : ContentDigest)
    (expected : option ContentDigest) (journal : ContentDigest) : daemon unit :=
  call (bind_candidate_delivery_journal workflow_id candidate_id digest expected journal).

(** The rest, with what the work on the repository answered: the paths it changed
    and the digest of its journal, or an error and whether something is left to
    recover. *)
Definition promote_candidate_finish workflow_id candidate_id (digest : ContentDigest)
    (promotion : result (DaemonError * bool) (list string * ContentDigest))
    : daemon (list string * Workflow.WorkflowState) :=
  match promotion with
  | Err (error, true) => m_throw error
  | Err (error, false) =>
      _ ← call (release_candidate_delivery workflow_id candidate_id digest);
      m_throw error
  | Ok (changed_paths, journal) =>
      state ← current_workflow_of workflow_id;
      loaded ← look (load_candidate candidate_id);
      current ← present loaded "candidate does not exist";
      current_digest ← certain (Candidate.candidate_digest (stored_manifest current));
      _ ← refuse_if (negb (is_delivering (Workflow.state state))
            || negb (bool_decide (Workflow.current_candidate state = Some candidate_id))
            || negb (bool_decide (stored_workflow current = workflow_id))
            || negb (bool_decide (current_digest = digest)))
            "candidate state changed during promotion";
      if Workflow.state_is Workflow.Completed state then
        _ ← call (release_candidate_delivery workflow_id candidate_id digest);
        mret (changed_paths, Workflow.state state)
      else
        timestamp ← now;
        answer ← call (deliver_reserved_candidate workflow_id candidate_id digest journal
          ("delivery:" +:+ uuid_to_string candidate_id) timestamp);
        mret (changed_paths, Workflow.state (result_state answer))
  end.

(** * Admission *)

(** The state of the workflow an admission is for, when it is the project's. *)
Definition admission_eligibility (project_key workspace : string) workflow_id (s : Store)
    : result StoreError (option Workflow.WorkflowState) :=
  if negb (bounded_text project_key && bounded_text workspace) then Ok None else
  match load_request workflow_id s with
  | Err error => Err error
  | Ok None => Ok None
  | Ok (Some (project, _)) =>
      if negb (bool_decide (project = from_stable_key project_key)) then Ok None else
      match load_workflow workflow_id s with
      | Err error => Err error
      | Ok w => Ok (Workflow.state <$> w)
      end
  end.

Inductive AdmissionAnswer : Type :=
| AdmissionResult (result : Admission.AdmissionResult)
| NotRunnable
| NotMatching
| AdmissionFailed (error : StoreError).

(** The arm of [ClientMessage::Admission]: what is left of the admission and its
    answer; [None] is a panic. *)
Definition admission_arm (debug_assertions : bool) (operation : Admission.AdmissionOperation)
    (project_key workspace : string) workflow_id (sample : Policy.ResourceSample) (now : N)
    (s : Store) (a : Admission.RuntimeAdmission)
    : option (Admission.RuntimeAdmission * AdmissionAnswer) :=
  match admission_eligibility project_key workspace workflow_id s with
  | Err error => Some (a, AdmissionFailed error)
  | Ok None => Some (a, NotMatching)
  | Ok (Some state) =>
      if admission_allowed operation state then
        '(a, result) ← Admission.execute debug_assertions operation (from_stable_key project_key) workflow_id
                         sample now a;
        Some (a, AdmissionResult result)
      else Some (Admission.remove workflow_id a, NotRunnable)
  end.
End handlers.
End Lifecycle.
