(* ===== verification/Controls.v ===== *)
(** The requests that ask about the store, control a workflow or manage a goal:
    workflowd/src/history.rs, control.rs and goal.rs.

    An answer, a JSON document in the code, is a value with the document's
    fields. The sample of the machine's resources, what the file system says of a
    worktree's directory and the texts that serde_json gives are arguments. *)
From stdpp Require Import pretty.
From Stdlib Require Import Ascii String.
From S2P Require Import Prelude Text Ids Paths Canonical WorkflowMachine TaskMachine Requests Goals.
From S2P Require Import Dag Verdicts Candidates Plans Routing Redaction Ledger History Policy Admission.
From S2P Require Import Database StoreCommands StoreLeases StoreCandidates StoreDocuments StoreLedger StoreGoals.
From S2P Require Import StoreRun VerificationPlans Services Lifecycle.

Module Controls.
Export Lifecycle.
Import LedgerStore GoalStore.
Import (hints) Workflow Evidence Goal.

(** * History *)

Inductive HistoryError : Type :=
| InvalidLedger | InvalidProject | HistorySerialization | HistoryStore (error : StoreError).

Inductive HistoryOperation : Type :=
| ExportHistory
| QueryHistory (after_sequence : option N) (limit : nat)
| VerifyHistory.

Inductive HistoryAnswer : Type :=
| Exported (export : History.HistoryExport)
| Queried (page : History.HistoryPage)
| Verified (chain : Ledger.ChainVerification) (checkpoints : list (N * Checkpoint.CheckpointVerification)).

#[local] Instance CheckpointVerification_eq_dec : EqDecision Checkpoint.CheckpointVerification.
Proof. solve_decision. Defined.

Section history.
Context `{Sha256, Rfc3339, Checkpoint.Ed25519, ToJson Event.LedgerEvent, Persist Event.LedgerEvent,
  Persist Checkpoint.Checkpoint}.
Context (key : Checkpoint.SigningKey).

(** What the entry of a checkpoint's sequence says; a [u64] is an index of
    the vector as it is. *)
Definition checkpoint_entry (chain : Ledger.LedgerChain) (c : Checkpoint.Checkpoint)
    : option (N * ContentDigest) :=
  (λ entry, (Ledger.sequence entry, Ledger.hash entry)) <$>
    chain !! N.to_nat (Checkpoint.sequence c).
(** A signature's check; [None] is the panic of a time without a text. *)
Definition checkpoint_status (chain : Ledger.LedgerChain) (c : Checkpoint.Checkpoint)
    : option Checkpoint.CheckpointVerification :=
  Checkpoint.checkpoint_verify c (Some (Checkpoint.key_of key)) (checkpoint_entry chain c).

Definition verify_store (s : Store) : result HistoryError unit :=
  chain ← map_err HistoryStore (load_ledger s);
  _ ← match Ledger.chain_verify None chain with
      | Ledger.Valid _ _ => Ok tt
      | _ => Err InvalidLedger
      end;
  checkpoints ← map_err HistoryStore (load_checkpoints s);
  try_for_each (λ c,
    status ← ok_or (HistoryStore Panicked) (checkpoint_status chain c);
    reject_if (negb (bool_decide (status = Checkpoint.Valid))) InvalidLedger) checkpoints.

(** [history::execute]. *)
Definition history_execute (project_key : string) (operation : HistoryOperation) (s : Store)
    : result HistoryError HistoryAnswer :=
  _ ← reject_if (is_blank project_key) InvalidProject;
  chain ← map_err HistoryStore (load_ledger s);
  match operation with
  | QueryHistory after_sequence limit =>
      Ok (Queried (History.query chain
        {| History.f_actor := None; History.f_candidate_id := None; History.f_file := None;
           History.f_from := None; History.f_project_id := Some (from_stable_key project_key);
           History.f_role := None; History.f_task_id := None; History.f_to := None;
           History.f_workflow_id := None |} after_sequence limit))
  | VerifyHistory =>
      checkpoints ← map_err HistoryStore (load_checkpoints s);
      statuses ← try_map (λ c,
        status ← ok_or (HistoryStore Panicked) (checkpoint_status chain c);
        Ok (Checkpoint.sequence c, status)) checkpoints;
      Ok (Verified (Ledger.chain_verify None chain) statuses)
  | ExportHistory =>
      checkpoints ← map_err HistoryStore (load_checkpoints s);
      Ok (Exported (History.export_new chain checkpoints))
  end.
End history.

(** * Control *)

Inductive ControlOperation : Type :=
| Cancel | Doctor | EvidenceOperation | Pause | Recovery | Resume | Retry | Status | Tasks.

#[export] Instance ControlOperation_eq_dec : EqDecision ControlOperation.
Proof. solve_decision. Defined.

(** What a finalization is resumed from. *)
Record FinalRecovery : Type := {
  final_digest : ContentDigest;
  final_evidence : list (Evidence.EvidenceRecord * string * bool);
  final_sessions : list string;
  final_candidate : Candidate.CandidateManifest;
  final_request : string;
  final_plan : Plan.ArchitecturePlan;
  final_reviews : list Review.ReviewVerdict;
  final_verification_plan : VerificationPlanId;
}.
(** What planning and execution are resumed from. *)
Record EarlyRecovery : Type := {
  early_mode : Workflow.WorkflowMode;
  early_request : string;
  early_request_digest : ContentDigest;
  early_base : option string;
  early_plan : option Plan.ArchitecturePlan;
  early_feedback : option string;
}.

Inductive ControlAnswer : Type :=
| StatusAnswer (w : Workflow.Workflow)
| TasksAnswer (tasks : list (TaskId * Task.TaskState))
| EvidenceAnswer (candidate : option CandidateId) (evidence : list (Evidence.EvidenceRecord * bool))
| EarlyAnswer (r : EarlyRecovery)
| FinalAnswer (r : FinalRecovery)
| CommandAnswer (is_duplicate : bool) (state : Workflow.WorkflowState)
| DoctorAnswer (resources : Policy.ResourceSample) (read_only : StoreMode).

(** [command]; the operations that only read panic. *)
Definition control_command (operation : ControlOperation) (state : Workflow.WorkflowState)
    : option Workflow.WorkflowCommand :=
  match operation with
  | Pause => Some Workflow.Pause
  | Resume => Some Workflow.Resume
  | Cancel => Some Workflow.Cancel
  | Retry => Some (if bool_decide (state = Workflow.Blocked) then Workflow.ResumeInfrastructure
                   else Workflow.RetryInfrastructure)
  | Doctor | EvidenceOperation | Recovery | Status | Tasks => None
  end.

Section control.
Context `{Environment, Sha256, Rfc3339, Checkpoint.Ed25519}.
Context `{ToJson (list (string * string * bool)), ToJson Plan.ArchitecturePlan,
  ToJson Arbiter.ArbiterVerdict, ToJson Event.LedgerEvent}.
Context `{Persist Value, Persist Workflow.Workflow, Persist Workflow.WorkflowEvent,
  Persist (PersistedResult Workflow.WorkflowEvent Workflow.Workflow), Persist Task.Task,
  Persist Request.RequestRecordUnchecked, Persist UncheckedPlan,
  Persist Candidate.CandidateManifestUnchecked, Persist Evidence.EvidenceRecord,
  Persist Review.ReviewVerdict, Persist Arbiter.ArbiterVerdict, Persist Receipt.ArbitrationReceipt,
  Persist Event.LedgerEvent, Persist Checkpoint.Checkpoint}.
(** [serde_json::to_string] of a verdict and of the evidence that did not pass. *)
Context (verdict_text : Arbiter.ArbiterVerdict → option string).
Context (feedback_text : list (Evidence.EvidenceRecord * string * bool) → option string).
Context (checkpoint_key : Checkpoint.SigningKey).

Implicit Types workflow_id : WorkflowId.

(** [or_else]: the second call sees what the first one left. *)
Definition or_else {S E A} (m : method S E A) (retry : E → method S E A) : method S E A := λ s,
  match m s with
  | (s', Err e) => retry e s'
  | done => done
  end.

(** The commands of [execute]. *)
Definition control_apply workflow_id (state : Workflow.WorkflowState) (operation : ControlOperation)
    (operation_id : ReceiptId) : daemon ControlAnswer :=
  if bool_decide (operation = Retry) && bool_decide (state = Workflow.Delivery)
  then mret (CommandAnswer true state) else
  reserved ← look (λ s, Ok (delivery_reserved workflow_id (database s)));
  _ ← refuse_if reserved "workflow candidate delivery is in progress";
  command ← certain (control_command operation state);
  let key := "control:" +:+ uuid_to_string operation_id in
  let apply command := timestamp ← now; call (apply_workflow_command workflow_id key command timestamp) in
  answer ← or_else (apply command) (λ error,
    if bool_decide (operation = Retry) && bool_decide (state = Workflow.Blocked)
    then apply (Workflow.ResumeBlocked 5) else m_throw error);
  mret (CommandAnswer (duplicate answer) (Workflow.state (result_state answer))).

Definition repair_feedback workflow_id (candidate : StoredCandidate) : daemon (option string) :=
  let candidate_id := Candidate.candidate_id (stored_manifest candidate) in
  arbitration ← look (load_arbitration candidate_id);
  feedback ← match arbitration with
    | Some (owner, verdict, _) =>
        _ ← refuse_if (negb (bool_decide (owner = workflow_id)))
              "workflow arbitration ownership is invalid";
        text ← m_lift (ok_or SerializationFailure (verdict_text verdict)); mret (Some text)
    | None =>
        records ← look (load_candidate_evidence candidate_id);
        let failed := filter (λ r, Evidence.status r.1.1 ≠ Evidence.Passed) records in
        if bool_decide (failed = []) then mret None
        else text ← m_lift (ok_or SerializationFailure (feedback_text failed)); mret (Some text)
    end;
  _ ← refuse_if (match feedback with Some text => (64 * 1024 <? str_len text)%N | None => false end)
        "workflow repair feedback exceeds the recovery limit";
  mret feedback.

(** The base revision that the latest candidate and the ledger agree on. *)
Definition agreed_base (candidate ledger : option string) : result DaemonError (option string) :=
  match candidate, ledger with
  | Some c, Some l =>
      if bool_decide (c = l) then Ok (Some c)
      else Err (Refused "workflow worktree base revision is inconsistent")
  | Some c, None => Ok (Some c)
  | None, ledger => Ok ledger
  end.

(** [early_recovery]; [worktree_exists] is what the file system says, [None] an
    error other than that there is nothing. *)
Definition early_recovery (worktree_exists : option bool) workflow_id (state : Workflow.Workflow)
    (request : Request.RequestRecord) : daemon EarlyRecovery :=
  mode ← present (Workflow.mode state) "workflow mode does not exist";
  candidate ← look (load_latest_candidate_for_workflow workflow_id);
  _ ← refuse_if (match candidate with
       | Some c => negb (bool_decide (stored_workflow c = workflow_id))
       | None => false
       end) "workflow candidate ownership is invalid";
  ledger_revision ← look (load_worktree_base_revision workflow_id);
  base_revision ← m_lift (agreed_base
    (candidate ≫= λ c, Candidate.base_revision (stored_manifest c)) ledger_revision);
  _ ← refuse_if (match base_revision with Some r => negb (is_revision r) | None => false end)
        "workflow worktree base revision is invalid";
  exists_now ← present worktree_exists "workflow worktree cannot be inspected";
  _ ← refuse_if (negb (Bool.eqb exists_now (bool_decide (is_Some base_revision))))
        "workflow worktree recovery state is inconsistent";
  digest ← certain (Request.request_digest request);
  plan ← (if is_executing (Workflow.state state) then look (load_architecture workflow_id)
          else mret None);
  feedback ← match candidate with Some c => repair_feedback workflow_id c | None => mret None end;
  mret {| early_mode := mode; early_request := Request.original_text request;
          early_request_digest := digest; early_base := base_revision; early_plan := plan;
          early_feedback := feedback |}.

Definition recovery (worktree_exists : option bool) workflow_id (state : Workflow.Workflow)
    : daemon ControlAnswer :=
  loaded ← look (load_request workflow_id);
  stored ← present loaded "workflow request does not exist";
  if Workflow.state_is Workflow.Architecture state || is_executing (Workflow.state state) then
    r ← early_recovery worktree_exists workflow_id state stored.2; mret (EarlyAnswer r)
  else
    _ ← refuse_if (negb (match Workflow.state state with
         | Workflow.Verification | Workflow.IndependentReviews | Workflow.Arbitration
         | Workflow.Delivery => true
         | _ => false
         end)) "workflow is not in a recoverable finalization state";
    loaded ← look (load_architecture workflow_id);
    plan ← present loaded "workflow architecture does not exist";
    candidate_id ← present (Workflow.current_candidate state) "workflow has no current candidate";
    loaded ← look (load_candidate candidate_id);
    candidate ← present loaded "workflow candidate does not exist";
    _ ← refuse_if (negb (bool_decide (stored_workflow candidate = workflow_id)))
          "workflow candidate ownership is invalid";
    loaded ← look (load_latest_verification_plan_for_workflow workflow_id);
    verification_plan ← present loaded "workflow verification plan does not exist";
    records ← look (load_candidate_evidence candidate_id);
    reviews ← look (load_reviews candidate_id);
    sessions ← look (load_role_session_ids workflow_id Executor);
    digest ← certain (Candidate.candidate_digest (stored_manifest candidate));
    mret (FinalAnswer {| final_digest := digest; final_evidence := records;
      final_sessions := sessions; final_candidate := stored_manifest candidate;
      final_request := Request.original_text stored.2; final_plan := plan;
      final_reviews := reviews; final_verification_plan := verification_plan.1 |}).

(** The workflow a request is about. *)
Definition controlled_workflow (project_id : ProjectId) (requested : option WorkflowId)
    : daemon WorkflowId :=
  match requested with
  | Some workflow_id =>
      loaded ← look (load_request workflow_id);
      _ ← refuse_if (negb (bool_decide (fst <$> loaded = Some project_id)))
            "workflow does not belong to the project";
      mret workflow_id
  | None =>
      latest ← look (λ s, Ok (latest_workflow_for_project project_id s));
      present latest "project has no workflow"
  end.

Definition history_failure (e : HistoryError) : DaemonError :=
  match e with
  | HistoryStore e => StoreFailure e
  | HistorySerialization => SerializationFailure
  | InvalidLedger => Refused "stored ledger verification failed"
  | InvalidProject => Refused "project key cannot be empty"
  end.

(** [control::execute]. *)
Definition control_execute (sample : Policy.ResourceSample) (worktree_exists : option bool)
    (project_key : string) (requested : option WorkflowId) (operation : ControlOperation)
    (operation_id : ReceiptId) : daemon ControlAnswer :=
  _ ← refuse_if (negb (bounded_text project_key)) "project key is invalid";
  if bool_decide (operation = Doctor) then
    d ← m_get;
    _ ← m_lift (map_err history_failure (verify_store checkpoint_key (store d)));
    mret (DoctorAnswer sample (mode (store d)))
  else
  workflow_id ← controlled_workflow (from_stable_key project_key) requested;
  state ← current_workflow_of workflow_id;
  match operation with
  | Status => mret (StatusAnswer state)
  | Tasks =>
      tasks ← look (load_workflow_tasks workflow_id);
      mret (TasksAnswer ((λ t, (t.1, Task.state t.2)) <$> tasks))
  | EvidenceOperation =>
      match Workflow.current_candidate state with
      | Some candidate_id =>
          records ← look (load_candidate_evidence candidate_id);
          mret (EvidenceAnswer (Some candidate_id) ((λ r, (r.1.1, r.2)) <$> records))
      | None => mret (EvidenceAnswer None [])
      end
  | Recovery => recovery worktree_exists workflow_id state
  | Pause | Resume | Cancel | Retry =>
      control_apply workflow_id (Workflow.state state) operation operation_id
  | Doctor => m_throw Crashed
  end.
End control.

(** * Goals *)

Inductive GoalControlAction : Type :=
| StartPlanning | MarkReady | Activate | PauseGoal | ResumeGoal | Block | ResumeBlocked | Continue
| RequestCompletion | ApproveCompletion | RejectCompletion | AbortGoal.
#[export] Instance GoalControlAction_eq_dec : EqDecision GoalControlAction.
Proof. solve_decision. Defined.

Inductive GoalOperation : Type :=
| GoalCreate (constraints : list string) (goal_id : GoalId) (max_continuations : N)
    (non_goals : list string) (objective session_id : string) (success_criteria : list string)
| GoalAmend (goal_id : GoalId) (operation_id : ReceiptId) (text : string)
| GoalControl (action : GoalControlAction) (completion_evidence : option ContentDigest)
    (goal_id : GoalId) (operation_id : ReceiptId) (reason : option string)
| GoalFocus (goal_id : GoalId) (session_id : string)
| GoalLinkWorkflow (goal_id : GoalId) (milestone : string) (workflow_id : WorkflowId)
| GoalList
| GoalSavePlan (content : string) (goal_id : GoalId) (source_session_id : string)
| GoalStatus (goal_id : option GoalId) (session_id : string).

Record GoalSnapshot : Type := {
  snapshot_goal : Goal.Goal;
  snapshot_plan : option GoalPlanRecord;
  snapshot_workflows : list (string * Workflow.WorkflowState * WorkflowId);
}.

Inductive GoalAnswer : Type :=
| SnapshotAnswer (snapshot : GoalSnapshot)
| GoalsAnswer (goals : list (GoalId * Goal.Goal))
| PlanAnswer (goal_id : GoalId) (revision : N).

Definition goal_command (action : GoalControlAction) : Goal.GoalCommand :=
  match action with
  | StartPlanning => Goal.StartPlanning | MarkReady => Goal.MarkReady | Activate => Goal.Activate
  | PauseGoal => Goal.Pause | ResumeGoal => Goal.Resume | Block => Goal.Block
  | ResumeBlocked => Goal.ResumeBlocked | Continue => Goal.Continue
  | RequestCompletion => Goal.RequestCompletion | ApproveCompletion => Goal.ApproveCompletion
  | RejectCompletion => Goal.RejectCompletion | AbortGoal => Goal.Abort_
  end.

Definition action_name (action : GoalControlAction) : string :=
  match action with
  | StartPlanning => "goal_planning_started" | MarkReady => "goal_marked_ready"
  | Activate => "goal_activated" | PauseGoal => "goal_paused" | ResumeGoal => "goal_resumed"
  | Block => "goal_blocked" | ResumeBlocked => "goal_block_resolved" | Continue => "goal_continued"
  | RequestCompletion => "goal_completion_requested" | ApproveCompletion => "goal_completion_approved"
  | RejectCompletion => "goal_completion_rejected" | AbortGoal => "goal_aborted"
  end.

Definition state_name (s : Goal.GoalState) : string :=
  match s with
  | Goal.Draft => "draft" | Goal.Planning => "planning" | Goal.Ready => "ready"
  | Goal.Active => "active" | Goal.Paused => "paused" | Goal.Blocked => "blocked"
  | Goal.Completing => "completing" | Goal.Completed => "completed" | Goal.Aborted => "aborted"
  end.
Definition bool_name (b : bool) : string := if b then "true" else "false".

Definition needs_reason (action : GoalControlAction) : bool :=
  match action with AbortGoal | Block | RejectCompletion => true | _ => false end.
Definition completes (action : GoalControlAction) : bool :=
  match action with RequestCompletion | ApproveCompletion => true | _ => false end.
Definition is_bounded_reason (reason : option string) : bool :=
  match reason with
  | Some value => negb (is_blank value) && (str_len value <=? 4096)%N
  | None => false
  end.

Section goals.
Context `{Environment, Sha256, Rfc3339, Checkpoint.Ed25519, ToJson Event.LedgerEvent}.
Context `{Persist Workflow.Workflow, Persist Request.RequestRecordUnchecked,
  Persist Goal.UncheckedGoal, Persist Goal.GoalEvent,
  Persist (PersistedResult Goal.GoalEvent Goal.UncheckedGoal), Persist AmendmentAppended,
  Persist Event.LedgerEvent, Persist Checkpoint.Checkpoint}.
Context (checkpoint_key : Checkpoint.SigningKey).

Implicit Types goal_id : GoalId.

(** A turn of the loop over the linked workflows. *)
Definition add_milestone (s : Store) (milestones : gmap string bool) (link : WorkflowId * string)
    : result DaemonError (gmap string bool) :=
  loaded ← map_err StoreFailure (load_workflow link.1 s);
  state ← ok_or (Refused "linked workflow state does not exist") loaded;
  match Workflow.state state with
  | Workflow.Completed => Ok (<[link.2 := true]> milestones)
  | Workflow.Cancelled => Ok (<[link.2 := default false (milestones !! link.2)]> milestones)
  | _ => Err (Refused "linked workflows must be completed or cancelled before goal completion")
  end.

Definition validate_control goal_id (action : GoalControlAction)
    (completion_evidence : option ContentDigest) (reason : option string) (s : Store)
    : result DaemonError unit :=
  _ ← reject_if (bool_decide (is_Some completion_evidence)
                 && negb (bool_decide (action = ApproveCompletion)))
        (Refused "completion evidence is accepted only for completion approval");
  _ ← reject_if (needs_reason action && negb (is_bounded_reason reason))
        (Refused "this goal transition requires a bounded reason");
  _ ← (if bool_decide (action = MarkReady) then
         plan ← map_err StoreFailure (load_latest_goal_plan goal_id s);
         reject_if (negb (bool_decide (is_Some plan)))
           (Refused "goal cannot become ready without a versioned architecture plan")
       else Ok tt);
  _ ← (if completes action then
         let links := goal_workflows_of goal_id s in
         _ ← reject_if (bool_decide (links = []))
               (Refused "goal completion requires at least one linked workflow");
         milestones ← try_fold (add_milestone s) ∅ links;
         reject_if (existsb negb (btree_values milestones))
           (Refused "each linked milestone requires at least one completed workflow")
       else Ok tt);
  reject_if (bool_decide (action = ApproveCompletion) && negb (bool_decide (is_Some completion_evidence)))
    (Refused "goal completion requires independent arbiter evidence").

Definition require_owner (project_id : ProjectId) goal_id : daemon Goal.Goal :=
  loaded ← look (load_goal goal_id);
  '(owner, goal) ← present loaded "goal does not exist";
  _ ← refuse_if (negb (bool_decide (owner = project_id))) "goal belongs to another project";
  mret goal.

Definition snapshot (project_id : ProjectId) goal_id : daemon GoalSnapshot :=
  goal ← require_owner project_id goal_id;
  plan ← look (load_latest_goal_plan goal_id);
  links ← look (λ s, Ok (goal_workflows_of goal_id s));
  workflows ← m_map (λ link, w ← look (load_workflow link.1);
    state ← present w "linked workflow state does not exist";
    mret (link.2, Workflow.state state, link.1)) links;
  mret {| snapshot_goal := goal; snapshot_plan := plan; snapshot_workflows := workflows |}.

(** [goal::record]. *)
Definition goal_record (project_key : string) goal_id (session action : string)
    (metadata : gmap string string) : daemon unit :=
  millis ← now_unix_millis;
  _ ← record_observation checkpoint_key
        (workflowd_observation None (AuditWorkflow action) ∅ ∅
           (<["goal_id" := uuid_to_string goal_id]> metadata) project_key None (Some session) millis
           None);
  mret tt.

(** [format!("goal:{goal_id}:...")]. *)
Definition goal_key goal_id (rest : string) : string :=
  "goal:" +:+ uuid_to_string goal_id +:+ ":" +:+ rest.

Definition answer_snapshot (project_id : ProjectId) goal_id : daemon GoalAnswer :=
  s ← snapshot project_id goal_id; mret (SnapshotAnswer s).

(** The arm of [GoalOperation::Create]. *)
Definition create_goal (project_key : string) (constraints : list string) goal_id
    (max_continuations : N) (non_goals : list string) (objective session_id : string)
    (success_criteria : list string) : daemon GoalAnswer :=
  let project_id := from_stable_key project_key in
  _ ← refuse_if (max_continuations =? 0)%N "goal continuation limit must be greater than zero";
  goal ← m_lift (map_err (λ e, StoreFailure (GoalFailure e))
           (Goal.goal_new objective success_criteria constraints non_goals max_continuations));
  timestamp ← now;
  duplicate ← call (save_goal_once goal_id project_id goal timestamp);
  _ ← call (focus_goal project_id session_id goal_id timestamp);
  _ ← goal_record project_key goal_id session_id "goal_created"
        (list_to_map [("duplicate", bool_name duplicate);
                      ("objective_digest", digest_to_string (Goal.objective_digest goal))]);
  answer_snapshot project_id goal_id.

Definition amend_goal (project_key : string) goal_id (operation_id : ReceiptId) (text : string)
    : daemon GoalAnswer :=
  let project_id := from_stable_key project_key in
  _ ← require_owner project_id goal_id;
  timestamp ← now;
  goal ← call (append_goal_amendment goal_id
    (goal_key goal_id ("amend:" +:+ uuid_to_string operation_id)) text timestamp);
  digest ← certain (Goal.goal_request_digest goal);
  _ ← goal_record project_key goal_id "system" "goal_amended"
        {["request_digest" := digest_to_string digest]};
  answer_snapshot project_id goal_id.

Definition insert_some (key : string) (value : option string) (m : gmap string string)
    : gmap string string :=
  match value with Some v => <[key := v]> m | None => m end.

Definition control_goal (project_key : string) (action : GoalControlAction)
    (completion_evidence : option ContentDigest) goal_id (operation_id : ReceiptId)
    (reason : option string) : daemon GoalAnswer :=
  let project_id := from_stable_key project_key in
  _ ← require_owner project_id goal_id;
  d ← m_get;
  _ ← m_lift (validate_control goal_id action completion_evidence reason (store d));
  timestamp ← now;
  answer ← call (apply_goal_command goal_id
    (goal_key goal_id ("control:" +:+ uuid_to_string operation_id)) (goal_command action) timestamp);
  _ ← goal_record project_key goal_id "system" (action_name action)
        (insert_some "completion_evidence" (digest_to_string <$> completion_evidence)
           (insert_some "reason" reason
              (list_to_map [("duplicate", bool_name (duplicate answer));
                            ("state", state_name (Goal.state (result_state answer)))])));
  answer_snapshot project_id goal_id.

Definition link_workflow (project_key : string) goal_id (milestone : string)
    (workflow_id : WorkflowId) : daemon GoalAnswer :=
  let project_id := from_stable_key project_key in
  _ ← require_owner project_id goal_id;
  loaded ← look (load_request workflow_id);
  stored ← present loaded "workflow request does not exist";
  _ ← refuse_if (negb (bool_decide (stored.1 = project_id))) "workflow belongs to another project";
  timestamp ← now;
  _ ← call (link_goal_workflow goal_id workflow_id milestone timestamp);
  _ ← goal_record project_key goal_id "system" "goal_workflow_linked"
        (list_to_map [("milestone", milestone); ("workflow_id", uuid_to_string workflow_id)]);
  answer_snapshot project_id goal_id.

Definition save_plan (project_key : string) (content : string) goal_id (source_session_id : string)
    : daemon GoalAnswer :=
  goal ← require_owner (from_stable_key project_key) goal_id;
  _ ← (if bool_decide (Goal.state goal = Goal.Draft) then
         timestamp ← now;
         _ ← call (apply_goal_command goal_id (goal_key goal_id "start-planning")
                     Goal.StartPlanning timestamp);
         mret tt
       else refuse_if (negb (bool_decide (Goal.state goal = Goal.Planning)))
              "goal plans can only be saved while planning");
  timestamp ← now;
  revision ← call (save_goal_plan goal_id source_session_id content timestamp);
  _ ← goal_record project_key goal_id source_session_id "goal_plan_saved"
        (list_to_map [("plan_digest", digest_to_string (digest_of content));
                      ("revision", pretty revision)]);
  mret (PlanAnswer goal_id revision).

(** [goal::execute]. *)
Definition goal_execute (project_key : string) (operation : GoalOperation) : daemon GoalAnswer :=
  _ ← refuse_if (is_blank project_key || (1024 <? str_len project_key)%N
                 || contains_char nul project_key) "project key is invalid";
  let project_id := from_stable_key project_key in
  match operation with
  | GoalCreate constraints goal_id max_continuations non_goals objective session_id success_criteria =>
      create_goal project_key constraints goal_id max_continuations non_goals objective session_id
        success_criteria
  | GoalAmend goal_id operation_id text => amend_goal project_key goal_id operation_id text
  | GoalControl action completion_evidence goal_id operation_id reason =>
      control_goal project_key action completion_evidence goal_id operation_id reason
  | GoalFocus goal_id session_id =>
      _ ← require_owner project_id goal_id;
      timestamp ← now;
      _ ← call (focus_goal project_id session_id goal_id timestamp);
      _ ← goal_record project_key goal_id session_id "goal_focused" ∅;
      answer_snapshot project_id goal_id
  | GoalLinkWorkflow goal_id milestone workflow_id => link_workflow project_key goal_id milestone workflow_id
  | GoalList => goals ← look (list_goals project_id); mret (GoalsAnswer goals)
  | GoalSavePlan content goal_id source_session_id => save_plan project_key content goal_id source_session_id
  | GoalStatus goal_id session_id =>
      goal_id ← match goal_id with
        | Some goal_id => mret goal_id
        | None => focused ← look (focused_goal project_id session_id);
                  present focused "session has no focused goal"
        end;
      _ ← require_owner project_id goal_id;
      answer_snapshot project_id goal_id
  end.
End goals.
End Controls.
