(* ===== verification/DaemonSteps.v ===== *)
(** The steps of the daemon's requests as calls of the store: the relation of the
    daemons that calls of one kind lead from one to the other, with a lemma for
    each step that the handlers share and the tactic that walks through them. *)
From Stdlib Require Import Ascii String.
From S2P Require Import Prelude Text Ids Paths Canonical WorkflowMachine TaskMachine Requests Goals.
From S2P Require Import Dag Verdicts Candidates Plans Routing Redaction Ledger History Policy Admission.
From S2P Require Import Database StoreCommands StoreLeases StoreCandidates StoreDocuments StoreLedger StoreGoals.
From S2P Require Import StoreRun FileSystem Freeze VerificationPlans VerificationRuns Services Lifecycle Controls.

Module DaemonSteps.
Export Persistence Controls.
Import LedgerStore GoalStore.
Import (hints) Routing.

(** What follows a step only sees its answers. *)
Lemma preserves_bind_answer {S E A B} (R : relation S) `{!PreOrder R} (Q : A → Prop)
    (m : method S E A) (f : A → method S E B) :
  preserves R m → (∀ s s' a, m s = (s', Ok a) → Q a) → (∀ a, Q a → preserves R (f a)) →
  preserves R (m ≫= f).
Proof.
  intros Hm HQ Hf s. specialize (Hm s). unfold mbind, method_bind.
  destruct (m s) as [s1 [a|e]] eqn:Hs; [|done]. simpl in *. etrans; [exact Hm|]. eapply Hf, HQ, Hs.
Qed.
Lemma converted_preserves {S E F A} (R : relation S) (f : E → F) (m : method S E A) :
  preserves R m → preserves R (converted f m).
Proof. intros Hm s. specialize (Hm s). unfold converted. by destruct (m s). Qed.
Lemma or_else_preserves {S E A} (R : relation S) `{!PreOrder R} (m : method S E A) f :
  preserves R m → (∀ e, preserves R (f e)) → preserves R (or_else m f).
Proof.
  intros Hm Hf s. specialize (Hm s). unfold or_else. destruct (m s) as [s1 [a|e]]; [done|].
  simpl in *. etrans; [exact Hm|apply Hf].
Qed.

(** What the answers of the small steps say. *)
Lemma look_ok {A} (q : Store → result StoreError A) d d' a :
  look q d = (d', Ok a) ↔ d' = d ∧ q (store d) = Ok a.
Proof. unfold look, asking. split; [by intros; inv_method|]. intros [-> Hq]. run_method. by rewrite Hq. Qed.
Lemma present_ok {A} (o : option A) message d d' a :
  present o message d = (d', Ok a) ↔ d' = d ∧ o = Some a.
Proof. unfold present. by rewrite m_lift_ok, ok_or_ok. Qed.
Lemma certain_ok {A} (o : option A) d d' a : certain o d = (d', Ok a) ↔ d' = d ∧ o = Some a.
Proof. unfold certain. by rewrite m_lift_ok, ok_or_ok. Qed.
Lemma refuse_if_ok c message d d' u : refuse_if c message d = (d', Ok u) ↔ d' = d ∧ c = false.
Proof. unfold refuse_if. by rewrite m_lift_ok, reject_if_ok. Qed.
Lemma mapped_ok {E A} (f : E → DaemonError) (r : result E A) (d d' : Daemon) a :
  m_lift (map_err f r) d = (d', Ok a) ↔ d' = d ∧ r = Ok a.
Proof. by rewrite m_lift_ok, map_err_ok. Qed.
Lemma given_ok {A} e (o : option A) (d d' : Daemon) a :
  m_lift (ok_or (e : DaemonError) o) d = (d', Ok a) ↔ d' = d ∧ o = Some a.
Proof. by rewrite m_lift_ok, ok_or_ok. Qed.
Lemma coded_ok {A} code (m : daemon A) d d' a : coded code m d = (d', Ok a) ↔ m d = (d', Ok a).
Proof. unfold coded, converted. destruct (m d) as [d1 [x|e]]; simpl; naive_solver. Qed.

Section steps.
Context `{Environment, Sha256, Rfc3339, Checkpoint.Ed25519}.
Context `{ToJson (list (string * string * bool)), ToJson Plan.ArchitecturePlan,
  ToJson Arbiter.ArbiterVerdict, ToJson Review.ReviewVerdict, ToJson Event.LedgerEvent,
  ToJson EssentialityPolicy, ToJson (gmap Routing.RiskCategory (list string)),
  JsonValue VerificationPlanT, JsonValue EssentialityPolicy}.
Context `{Persist Value, Persist Workflow.Workflow, Persist Workflow.WorkflowEvent,
  Persist (PersistedResult Workflow.WorkflowEvent Workflow.Workflow),
  Persist Task.Task, Persist Task.TaskEvent, Persist (PersistedResult Task.TaskEvent Task.Task),
  Persist Lease.Lease, Persist Request.RequestRecordUnchecked, Persist UncheckedPlan,
  Persist Candidate.CandidateManifestUnchecked, Persist Evidence.EvidenceRecord,
  Persist Review.ReviewVerdict, Persist Arbiter.ArbiterVerdict, Persist Receipt.ArbitrationReceipt,
  Persist Event.LedgerEvent, Persist Checkpoint.Checkpoint, Persist Goal.UncheckedGoal,
  Persist Goal.GoalEvent, Persist (PersistedResult Goal.GoalEvent Goal.UncheckedGoal),
  Persist AmendmentAppended}.
Context (P : StoreCall Value → Prop).

(** The daemon that calls of this kind lead to; [allowed] marks what is left to
    show of a call. *)
Definition allowed (c : StoreCall Value) : Prop := P c.
Definition makes : relation Daemon := λ d d',
  ∃ calls, Forall P calls ∧ store d' = run_calls calls (store d).
#[global] Instance makes_preorder : PreOrder makes.
Proof.
  split.
  - intros d. by exists [].
  - intros d1 d2 d3 (cs1&Hcs1&Heq1) (cs2&Hcs2&Heq2). exists (cs1 ++ cs2). split.
    + by apply Forall_app.
    + unfold run_calls. rewrite foldl_app. unfold run_calls in *. congruence.
Qed.

Lemma call_makes {E A} (c : StoreCall Value) (m : method Store StoreError A) (f : StoreError → E) :
  perform c = void m → allowed c → preserves makes (on_store f m).
Proof.
  intros Hm Hc d. unfold on_store. destruct (gives_up_at (ticks d)); [by exists []|].
  exists [c]. split; [by constructor|]. unfold run_calls, run_call. simpl. rewrite Hm, void_state.
  by destruct (m (store d)).
Qed.

Lemma asking_makes {E A} (f : StoreError → E) (q : Store → result StoreError A) :
  preserves makes (asking f q).
Proof. intros d. exists []. by split. Qed.
Lemma now_makes {E} : preserves makes (now : method Daemon E WorkflowTimestamp).
Proof. intros d. exists []. by split. Qed.
Lemma fresh_makes {E} : preserves makes (fresh : method Daemon E uuid).
Proof. intros d. exists []. by split. Qed.
Lemma now_unix_millis_makes : preserves makes now_unix_millis.
Proof. intros d. unfold now_unix_millis. exists []. split; [done|]. simpl. done. Qed.
Lemma refuse_if_makes c message : preserves makes (refuse_if c message).
Proof. apply preserves_lift. typeclasses eauto. Qed.
Lemma present_makes {A} (o : option A) message : preserves makes (present o message).
Proof. apply preserves_lift. typeclasses eauto. Qed.
Lemma certain_makes {A} (o : option A) : preserves makes (certain o).
Proof. apply preserves_lift. typeclasses eauto. Qed.
End steps.
#[export] Hint Resolve refuse_if_makes present_makes certain_makes : keeps.

(** The call of the store in a goal. *)
Tactic Notation "is_call" uconstr(c) := eapply (call_makes _ c); [reflexivity|].
Ltac store_call :=
  first
    [ is_call (ApplyWorkflow _ _ _ _) | is_call (SaveCandidate _ _ _ _ _)
    | is_call (ReserveDelivery _ _ _ _) | is_call (ReleaseDelivery _ _ _)
    | is_call (BindJournal _ _ _ _ _) | is_call (DeliverReserved _ _ _ _ _ _)
    | is_call (SaveRequest _ _ _ _) | is_call (SaveConstraint _ _ _ _ _)
    | is_call (SaveArchitecture _ _ _) | is_call (SaveVerificationPlan _ _ _ _)
    | is_call (SaveEvidence _ _ _ _ _ _ _) | is_call (SaveReview _ _ _ _)
    | is_call (SaveArbitration _ _ _ _ _) | is_call (AppendLedger _)
    | is_call (SaveCheckpoint _) | is_call (SaveGoal _ _ _ _)
    | is_call (ApplyGoal _ _ _ _) | is_call (AmendGoal _ _ _ _)
    | is_call (FocusGoal _ _ _ _) | is_call (SaveGoalPlan _ _ _ _)
    | is_call (LinkGoal _ _ _ _) ].

(** Walks through a request's steps; what is left are its parts. *)
Ltac solve_makes :=
  repeat first
    [ progress cbv beta zeta
    | lazymatch goal with
      | |- preserves _ (call _) => unfold call; store_call
      | |- preserves _ (on_store _ _) => store_call
      | |- preserves _ (look _) => apply asking_makes
      | |- preserves _ (now_unix_millis) => apply now_unix_millis_makes
      | |- preserves _ now => apply now_makes
      | |- preserves _ fresh => apply fresh_makes
      | |- preserves _ (coded _ _) => apply converted_preserves
      | |- preserves _ (converted _ _) => apply converted_preserves
      | |- preserves _ (_ ≫= _) => apply preserves_bind; [typeclasses eauto| |intros ?]
      | |- preserves _ (m_for_each _ _) => apply preserves_for_each; [typeclasses eauto|intros ?]
      | |- preserves _ (m_map _ _) => apply preserves_map; [typeclasses eauto|intros ?]
      end
    | solve [eauto with keeps typeclass_instances]
    | case_match ].

(** * Steps that several handlers share *)

Section shared.
Context `{Environment, Sha256, Rfc3339, Checkpoint.Ed25519}.
Context `{ToJson (list (string * string * bool)), ToJson Plan.ArchitecturePlan,
  ToJson Arbiter.ArbiterVerdict, ToJson Review.ReviewVerdict, ToJson Event.LedgerEvent,
  ToJson EssentialityPolicy, ToJson (gmap Routing.RiskCategory (list string)),
  JsonValue VerificationPlanT, JsonValue EssentialityPolicy}.
Context `{Persist Value, Persist Workflow.Workflow, Persist Workflow.WorkflowEvent,
  Persist (PersistedResult Workflow.WorkflowEvent Workflow.Workflow),
  Persist Task.Task, Persist Task.TaskEvent, Persist (PersistedResult Task.TaskEvent Task.Task),
  Persist Lease.Lease, Persist Request.RequestRecordUnchecked, Persist UncheckedPlan,
  Persist Candidate.CandidateManifestUnchecked, Persist Evidence.EvidenceRecord,
  Persist Review.ReviewVerdict, Persist Arbiter.ArbiterVerdict, Persist Receipt.ArbitrationReceipt,
  Persist Event.LedgerEvent, Persist Checkpoint.Checkpoint, Persist Goal.UncheckedGoal,
  Persist Goal.GoalEvent, Persist (PersistedResult Goal.GoalEvent Goal.UncheckedGoal),
  Persist AmendmentAppended}.
Context (checkpoint_key : Checkpoint.SigningKey).

(** The calls of a record in the ledger, of a project and a workflow. *)
Inductive logged (key : string) (w : option WorkflowId) : StoreCall Value → Prop :=
| logged_event e : Event.project_id e = from_stable_key key → Event.workflow_id e = w →
    logged key w (AppendLedger e)
| logged_checkpoint c : logged key w (SaveCheckpoint c).

Context (P : StoreCall Value → Prop).

Lemma audit_record_makes o :
  (∀ c, logged (observed_project_key o) (observed_workflow o) c → P c) →
  preserves (makes P) (audit_record checkpoint_key o).
Proof.
  intros HP. unfold audit_record.
  do 2 (apply preserves_bind; [typeclasses eauto|solve_makes|intros ?]).
  apply (preserves_bind_answer _ (λ e, Event.project_id e = from_stable_key (observed_project_key o) ∧
    Event.workflow_id e = observed_workflow o)); [solve_makes| |].
  - intros d d' e [_ He%map_err_ok]%m_lift_ok. unfold Event.ledger_event_new in He.
    case_match; [done|]. apply result_bind_ok in He as (?&_&He). case_match; [done|]. by injection He as <-.
  - intros e [??]. apply preserves_bind; [typeclasses eauto|store_call; by apply HP, logged_event|intros ?].
    solve_makes. apply HP. constructor.
Qed.
Lemma record_observation_makes o :
  (∀ c, logged (observed_project_key o) (observed_workflow o) c → P c) →
  preserves (makes P) (record_observation checkpoint_key o).
Proof. intros HP. unfold record_observation. apply converted_preserves. by apply audit_record_makes. Qed.

Lemma command_now_makes w key c :
  (∀ t, P (ApplyWorkflow w key c t)) → preserves (makes P) (command_now w key c).
Proof. intros Hc. unfold command_now. solve_makes. apply Hc. Qed.
Lemma validate_project_makes p w : preserves (makes P) (validate_project p w).
Proof. unfold validate_project. solve_makes. Qed.
Lemma current_workflow_of_makes w : preserves (makes P) (current_workflow_of w).
Proof. unfold current_workflow_of. solve_makes. Qed.
Lemma validate_candidate_state_makes w c : preserves (makes P) (validate_candidate_state w c).
Proof.
  unfold validate_candidate_state. apply preserves_bind; [typeclasses eauto|apply current_workflow_of_makes|].
  intros ?. solve_makes.
Qed.
End shared.
#[export] Hint Resolve validate_project_makes current_workflow_of_makes validate_candidate_state_makes : keeps.
End DaemonSteps.
