(* ===== verification/DaemonRuns.v ===== *)
(** The daemon as a whole: every request that writes (the arms of
    [serve_connection] in workflowd/src/lifecycle.rs), in any order, with the
    parts of a request that lets go of the store anywhere among the others.

    Whatever a request does, however it ends, is a sequence of calls of the
    store: what StoreGuarantees.v says of every sequence of calls holds of the
    daemon. What only some of the commands may do is proved of those commands
    once, here ([request_within]). *)
From Stdlib Require Import Ascii String.
From S2P Require Import Prelude Text Ids Paths Canonical WorkflowMachine TaskMachine Requests Goals.
From S2P Require Import Dag Verdicts Candidates Plans Routing Redaction Ledger History Policy Admission.
From S2P Require Import Database StoreCommands StoreLeases StoreCandidates StoreDocuments StoreLedger StoreGoals.
From S2P Require Import StoreRun FileSystem Freeze VerificationPlans VerificationRuns Services Lifecycle Controls.
From S2P Require Import DaemonSteps.

Module DaemonRuns.
Export DaemonSteps.
Import LedgerStore GoalStore.
Import (hints) Routing.

Section daemon.
Context `{Environment, Sha256, Rfc3339, Checkpoint.Ed25519}.
Context `{ToJson (list (string * string * bool)), ToJson Plan.ArchitecturePlan,
  ToJson Arbiter.ArbiterVerdict, ToJson Review.ReviewVerdict, ToJson Event.LedgerEvent,
  ToJson EssentialityPolicy, ToJson (gmap Routing.RiskCategory (list string)),
  JsonValue VerificationPlanT, JsonValue EssentialityPolicy}.
Context `{Persist Value, Persist Workflow.Workflow, Persist Workflow.WorkflowEvent,
  Persist (PersistedResult Workflow.WorkflowEvent Workflow.Workflow),
  Persist Task.Task, Persist Task.TaskEvent, Persist (PersistedResult Task.TaskEvent Task.Task),
  Persist Lease.Lease, Persist Request.RequestRecordUnchecked, Persist UncheckedPlan,
  Persist Candidate.CandidateManifestUnchecked, Persist Evidence.EvidenceRecord,
  Persist Review.ReviewVerdict, Persist Arbiter.ArbiterVerdict, Persist Receipt.ArbitrationReceipt,
  Persist Event.LedgerEvent, Persist Checkpoint.Checkpoint, Persist Goal.UncheckedGoal,
  Persist Goal.GoalEvent, Persist (PersistedResult Goal.GoalEvent Goal.UncheckedGoal),
  Persist AmendmentAppended}.
Context (verdict_text : Arbiter.ArbiterVerdict → option string).
Context (feedback_text : list (Evidence.EvidenceRecord * string * bool) → option string).
Context (checkpoint_key : Checkpoint.SigningKey).

(** * Requests *)

(** The requests that write to the store. Those that let go of the store
    meanwhile have their parts: what the second part is given, that is, what was
    read before and what the work without the store gave, may be anything. *)
Inductive DaemonRequest : Type :=
| AuditRequest (o : AuditObservation)
| ProtocolRequest (r : IpcRequest)
| ControlRequest (sample : Policy.ResourceSample) (worktree_exists : option bool)
    (project_key : string) (requested : option WorkflowId) (operation : ControlOperation)
    (operation_id : ReceiptId)
| GoalRequest (project_key : string) (operation : GoalOperation)
| ReportRequest (project_key : string) (w : WorkflowId) (outcome : ExecutionOutcome)
    (report_id : ReceiptId)
| PlanRequest (project_key : string) (w : WorkflowId) (plan_id : VerificationPlanId)
    (discovered : result VerificationPlan.VerificationPlanError VerificationPlanT)
| FreezeBegins (r : CandidateFreezeRequest)
| FreezeEnds (r : CandidateFreezeRequest)
    (frozen : result RepositoryFs.CandidateFreezeError Freeze.FrozenCandidate)
| VerifyRequest (r : VerificationRequest)
    (run : VerificationInputs → result VerificationRun.VerificationRunError VerificationRun.VerificationRun)
| VerifyEnds (r : VerificationRequest) (inputs : VerificationInputs)
    (ran : result VerificationRun.VerificationRunError VerificationRun.VerificationRun)
| ReviewRequest (project_key : string) (w : WorkflowId) (c : CandidateId) (v : Review.ReviewVerdict)
| ArbitrationRequest (project_key : string) (w : WorkflowId) (c : CandidateId)
    (v : Arbiter.ArbiterVerdict)
| PromotionBegins (project_key project_directory : string) (repository indexed : option string)
    (w : WorkflowId) (c : CandidateId)
| PromotionBinds (w : WorkflowId) (c : CandidateId) (digest : ContentDigest)
    (expected : option ContentDigest) (journal : ContentDigest)
| PromotionEnds (w : WorkflowId) (c : CandidateId) (digest : ContentDigest)
    (promotion : result (DaemonError * bool) (list string * ContentDigest)).

(** A request without its answer. A verification in one piece runs with what it
    read; [VerifyEnds] is the end of one that others came before. *)
Definition ignoring {A} (m : daemon A) : daemon unit := _ ← m; mret tt.
Definition serve (r : DaemonRequest) : daemon unit :=
  match r with
  | AuditRequest o => ignoring (record_observation checkpoint_key o)
  | ProtocolRequest r => ignoring (process_protocol_request checkpoint_key r)
  | ControlRequest sample worktree_exists project_key requested operation operation_id =>
      ignoring (control_execute verdict_text feedback_text checkpoint_key sample worktree_exists
                  project_key requested operation operation_id)
  | GoalRequest project_key operation => ignoring (goal_execute checkpoint_key project_key operation)
  | ReportRequest project_key w outcome report_id =>
      ignoring (report_execution project_key w outcome report_id)
  | PlanRequest project_key w plan_id discovered =>
      ignoring (plan_verification_finish project_key w plan_id discovered)
  | FreezeBegins r => ignoring (freeze_candidate_begin r)
  | FreezeEnds r frozen => ignoring (freeze_candidate_finish checkpoint_key r frozen)
  | VerifyRequest r run =>
      inputs ← verify_candidate_begin r;
      ignoring (verify_candidate_finish checkpoint_key r inputs (run inputs))
  | VerifyEnds r inputs ran => ignoring (verify_candidate_finish checkpoint_key r inputs ran)
  | ReviewRequest project_key w c v => ignoring (submit_review checkpoint_key project_key w c v)
  | ArbitrationRequest project_key w c v =>
      ignoring (submit_arbitration checkpoint_key project_key w c v)
  | PromotionBegins project_key project_directory repository indexed w c =>
      ignoring (promote_candidate_begin project_key project_directory repository indexed w c)
  | PromotionBinds w c digest expected journal => promote_candidate_bind w c digest expected journal
  | PromotionEnds w c digest promotion => ignoring (promote_candidate_finish w c digest promotion)
  end.

(** The daemon that a request leaves, and that requests leave one after another. *)
Definition served (r : DaemonRequest) (d : Daemon) : Daemon := (serve r d).1.
Definition serve_all (requests : list DaemonRequest) (d : Daemon) : Daemon :=
  foldl (λ d r, served r d) d requests.
Definition daemon_new (limit : N) : Daemon := {| store := store_new limit; ticks := 0 |}.

(** What the types of the code say: a frozen manifest is one its constructors give. *)
Definition request_ok (r : DaemonRequest) : Prop :=
  match r with FreezeEnds _ (Ok frozen) => Candidate.loadable (Freeze.manifest frozen) | _ => True end.

(** * Requests as calls of the store *)

(** The commands that only an arbitration or a repair may give. *)
Definition ordinary_command (c : Workflow.WorkflowCommand) : Prop :=
  match c with
  | Workflow.Approve _ | Workflow.Reject _ | Workflow.VerificationRejected _ | Workflow.BeginRepair => False
  | _ => True
  end.
Definition ordinary (c : StoreCall Value) : Prop :=
  call_ok c ∧ match c with ApplyWorkflow _ _ command _ => ordinary_command command | _ => True end.

#[local] Notation reaches := (makes ordinary).

Ltac solve_reaches := solve_makes; try (unfold allowed; done).

Lemma ignoring_preserves {A} (R : relation Daemon) `{!PreOrder R} (m : daemon A) :
  preserves R m → preserves R (ignoring m).
Proof.
  intros Hm. apply preserves_bind; [typeclasses eauto|exact Hm|intros ?].
  apply preserves_ret. typeclasses eauto.
Qed.

Lemma audit_record_reaches o : preserves reaches (audit_record checkpoint_key o).
Proof. apply audit_record_makes. by intros ? []. Qed.
#[local] Hint Resolve audit_record_reaches : keeps.
Lemma record_observation_reaches o : preserves reaches (record_observation checkpoint_key o).
Proof. apply record_observation_makes. by intros ? []. Qed.
#[local] Hint Resolve record_observation_reaches : keeps.
Lemma command_now_reaches w key c : ordinary_command c → preserves reaches (command_now w key c).
Proof. intros Hc. by apply command_now_makes. Qed.
#[local] Hint Extern 2 (preserves reaches (command_now _ _ _)) =>
  apply command_now_reaches; exact I : keeps.

Lemma report_execution_reaches k w o id : preserves reaches (report_execution k w o id).
Proof.
  unfold report_execution.
  do 2 (apply preserves_bind; [typeclasses eauto|solve_reaches|intros ?]).
  apply (preserves_bind_answer _ ordinary_command); [solve_reaches| |].
  - intros d d' c Hc. destruct o; inv_method; done.
  - intros c Hc. apply preserves_bind; [typeclasses eauto| |solve_reaches].
    by apply command_now_reaches.
Qed.
Lemma submit_review_reaches k w c v : preserves reaches (submit_review checkpoint_key k w c v).
Proof. unfold submit_review. solve_reaches. Qed.
Lemma plan_verification_finish_reaches k w p r :
  preserves reaches (plan_verification_finish k w p r).
Proof. unfold plan_verification_finish. solve_reaches. Qed.
Lemma verify_candidate_begin_reaches r : preserves reaches (verify_candidate_begin r).
Proof. unfold verify_candidate_begin, json_value. solve_reaches. Qed.
Lemma save_gate_evidence_reaches r m o i :
  preserves reaches (save_gate_evidence checkpoint_key r m o i).
Proof. unfold save_gate_evidence. solve_reaches. Qed.
Lemma ready_command_reaches w c : preserves reaches (ready_command w c).
Proof. unfold ready_command. solve_reaches. Qed.
#[local] Hint Resolve ready_command_reaches : keeps.
Lemma freeze_candidate_begin_reaches r : preserves reaches (freeze_candidate_begin r).
Proof. unfold freeze_candidate_begin, json_value. solve_reaches. Qed.
Lemma freeze_candidate_finish_reaches r f :
  request_ok (FreezeEnds r f) → preserves reaches (freeze_candidate_finish checkpoint_key r f).
Proof.
  intros Hok. unfold freeze_candidate_finish.
  apply (preserves_bind_answer _ (λ frozen, Candidate.loadable (Freeze.manifest frozen)));
    [solve_reaches| |].
  - intros d d' frozen [_ ->%map_err_ok]%m_lift_ok. exact Hok.
  - intros frozen Hfrozen. solve_reaches.
Qed.
Lemma start_workflow_reaches r q : preserves reaches (start_workflow checkpoint_key r q).
Proof.
  unfold start_workflow, decide_and_record. solve_reaches.
  destruct (ipc_workflow r); simpl; solve_reaches.
Qed.
Lemma accept_architecture_reaches r p : preserves reaches (accept_architecture checkpoint_key r p).
Proof. unfold accept_architecture. solve_reaches. Qed.
Lemma process_protocol_request_reaches r : preserves reaches (process_protocol_request checkpoint_key r).
Proof.
  unfold process_protocol_request.
  destruct (ipc_payload r); auto using start_workflow_reaches, accept_architecture_reaches.
  all: apply converted_preserves; apply preserves_throw; typeclasses eauto.
Qed.
Lemma promote_candidate_begin_reaches k p r i w c :
  preserves reaches (promote_candidate_begin k p r i w c).
Proof. unfold promote_candidate_begin. solve_reaches. Qed.
Lemma promote_candidate_finish_reaches w c d p :
  preserves reaches (promote_candidate_finish w c d p).
Proof. unfold promote_candidate_finish. solve_reaches. Qed.
Lemma bind_reaches w c d e j : preserves reaches (promote_candidate_bind w c d e j).
Proof. unfold promote_candidate_bind. solve_reaches. Qed.

Lemma control_command_ordinary operation state c :
  control_command operation state = Some c → ordinary_command c.
Proof. destruct operation; simpl; intros [= <-]; try done. by case_match. Qed.
Lemma control_apply_reaches w s o id : preserves reaches (control_apply w s o id).
Proof.
  unfold control_apply. case_match; [solve_reaches|].
  do 2 (apply preserves_bind; [typeclasses eauto|solve_reaches|intros ?]).
  apply (preserves_bind_answer _ ordinary_command); [solve_reaches| |].
  - intros d d' c [_ Hc%ok_or_ok]%m_lift_ok. by eapply control_command_ordinary.
  - intros c Hc. apply preserves_bind; [typeclasses eauto| |solve_reaches].
    apply or_else_preserves; [typeclasses eauto|solve_reaches|intros e; solve_reaches].
Qed.
#[local] Hint Resolve control_apply_reaches : keeps.
Lemma control_execute_reaches sample e k w o id :
  preserves reaches (control_execute verdict_text feedback_text checkpoint_key sample e k w o id).
Proof.
  unfold control_execute, controlled_workflow, recovery, early_recovery, repair_feedback.
  solve_reaches.
Qed.

Lemma require_owner_reaches p g : preserves reaches (require_owner p g).
Proof. unfold require_owner. solve_reaches. Qed.
#[local] Hint Resolve require_owner_reaches : keeps.
Lemma answer_snapshot_reaches p g : preserves reaches (answer_snapshot p g).
Proof. unfold answer_snapshot, snapshot. solve_reaches. Qed.
Lemma goal_record_reaches k g x a m : preserves reaches (goal_record checkpoint_key k g x a m).
Proof. unfold goal_record. solve_reaches. Qed.
#[local] Hint Resolve answer_snapshot_reaches goal_record_reaches : keeps.
Lemma goal_execute_reaches k o : preserves reaches (goal_execute checkpoint_key k o).
Proof.
  unfold goal_execute, create_goal, amend_goal, control_goal, link_workflow, save_plan.
  solve_reaches.
Qed.

(** The evidence of a run. *)
Lemma save_run_reaches r m o items :
  preserves reaches (m_for_each (save_gate_evidence checkpoint_key r m o) items).
Proof. apply preserves_for_each; [typeclasses eauto|]. intros. apply save_gate_evidence_reaches. Qed.
Lemma arbitration_receipt_reaches w c v : preserves reaches (arbitration_receipt w c v).
Proof. unfold arbitration_receipt. solve_reaches. Qed.

(** The checks of a verdict only look at the store. *)
Lemma arbitration_receipt_reads w c v : preserves (same store) (arbitration_receipt w c v).
Proof.
  unfold arbitration_receipt, current_workflow_of.
  assert (∀ B (q : Store → result StoreError B), preserves (same store) (look q)) as Hlook.
  { intros B q d. reflexivity. }
  repeat first
    [ progress cbv beta zeta
    | lazymatch goal with
      | |- preserves _ (look _) => apply Hlook
      | |- preserves _ (_ ≫= _) => apply preserves_bind; [typeclasses eauto| |intros ?]
      | |- preserves _ now => intros d; reflexivity
      | |- preserves _ fresh => intros d; reflexivity
      | |- preserves _ _ => apply preserves_lift; typeclasses eauto
      end
    | case_match ].
Qed.

(** The calls of a repair. *)
Lemma repair_route_within (R : relation Store) `{!PreOrder R} w c cause t :
  (∀ key command s, (∀ gates, command ≠ Workflow.Approve gates) →
     R s (run_call (ApplyWorkflow w key command t : StoreCall Value) s)) →
  preserves R (repair_route w c cause t).
Proof.
  intros Hcall.
  assert (∀ key command, (∀ gates, command ≠ Workflow.Approve gates) →
    preserves R (apply_workflow_command w key command t)) as Happly.
  { intros key command Hne s. specialize (Hcall key command s Hne). unfold run_call in Hcall.
    simpl in Hcall. by rewrite void_state in Hcall. }
  assert (∀ B (m : method Store StoreError B), (∀ s, (m s).1 = s) → preserves R m) as Hlook.
  { intros B m Hm s. by rewrite Hm. }
  unfold repair_route. apply preserves_bind; [typeclasses eauto|by apply Hlook|intros loaded].
  apply preserves_bind; [typeclasses eauto|by apply Hlook|intros current].
  case_match; [by apply Hlook|]. case_match.
  - apply (preserves_bind_answer _ (λ c, ∀ gates, c ≠ Workflow.Approve gates)); [by apply Hlook| |].
    { intros s s' command [_ Hcommand]%m_lift_ok. case_match; naive_solver. }
    intros command Hcommand. apply preserves_bind; [typeclasses eauto|by apply Happly|intros answer].
    cbv zeta. case_match; [|by apply Hlook].
    apply preserves_bind; [typeclasses eauto|by apply Happly|intros ?]. by apply Hlook.
  - apply preserves_bind; [typeclasses eauto|by apply Happly|intros ?]. by apply Hlook.
Qed.

(** * Requests and a relation that the calls of the store are within *)

Section within.
Context (R : relation Store) `{!PreOrder R}.
Hypothesis ordinary_within : ∀ c s, ordinary c → R s (run_call c s).

Definition within : relation Daemon := λ d d', R (store d) (store d').
#[local] Instance within_preorder : PreOrder within.
Proof.
  unfold within. split.
  - by intros d.
  - intros d1 d2 d3 ??. by etrans.
Qed.

Lemma run_calls_within calls s : Forall ordinary calls → R s (run_calls calls s).
Proof.
  intros Hcalls. revert s. induction Hcalls as [|c calls Hc _ IH]; intros s; [done|].
  change (run_calls (c :: calls) s) with (run_calls calls (run_call c s)).
  etrans; [by apply ordinary_within|apply IH].
Qed.
Lemma reaches_within {A} (m : daemon A) : preserves reaches m → preserves within m.
Proof. intros Hm d. destruct (Hm d) as (calls&Hcalls&Heq). unfold within. rewrite Heq. by apply run_calls_within. Qed.

Definition repairs_within w : Prop := ∀ c cause t s, R s (repair_route w c cause t s).1.

Lemma repair_call_within w c cause t :
  repairs_within w → preserves within (call (repair_route w c cause t)).
Proof.
  intros repair_within d. unfold call, on_store, within. destruct (gives_up_at (ticks d)); [done|].
  pose proof (repair_within c cause t (store d)) as HR. by destruct (repair_route _ _ _ _ _).
Qed.

Lemma verify_candidate_finish_within r i ran :
  repairs_within (verify_workflow_id r) → preserves within (verify_candidate_finish checkpoint_key r i ran).
Proof.
  intros repair_within. unfold verify_candidate_finish.
  do 3 (apply preserves_bind; [typeclasses eauto
    |apply reaches_within; solve [apply save_run_reaches|solve_reaches]|intros ?]).
  destruct (VerificationRun.mandatory_passed _);
    [|destruct (VerificationRun.infrastructure_blocked _)].
  1-2: apply reaches_within;
    (apply preserves_bind; [typeclasses eauto|apply command_now_reaches; exact I|intros ?];
     apply preserves_ret; typeclasses eauto).
  apply preserves_bind; [typeclasses eauto|apply reaches_within; solve_reaches|intros ?].
  apply preserves_bind; [typeclasses eauto|by apply repair_call_within|intros ?].
  apply reaches_within; solve_reaches.
Qed.

(** What a verdict leads to once it was checked, for the first time, and saved. *)
Definition verdict_leads w c v (P : Store → Store → Prop) : Prop :=
  ∀ d d' manifest receipt b s',
    arbitration_receipt w c v d = (d', Ok (manifest, receipt)) → load_arbitration c (store d) = Ok None →
    save_arbitration_once w c v receipt (Receipt.finalized_at receipt) (store d) = (s', Ok b) →
    P (store d) s'.

Lemma saved_arbitration_within w c v receipt t s s' b :
  save_arbitration_once w c v receipt t s = (s', Ok b) → R s s'.
Proof.
  intros Hsaved. pose proof (ordinary_within (SaveArbitration w c v receipt t) s (conj I I)) as HR.
  unfold run_call in HR. simpl in HR. by rewrite void_state, Hsaved in HR.
Qed.

Lemma advance_within w c v :
  repairs_within w →
  (Arbiter.decision v = Arbiter.Approved → verdict_leads w c v (λ s s', ∀ key t,
     R s (run_call (ApplyWorkflow w key (Workflow.Approve true) t : StoreCall Value) s'))) →
  verdict_leads w c v (λ s s', ∀ t n,
    R s (store (advance_arbitration w c v t {| store := s'; ticks := n |}).1)).
Proof.
  intros repair_within approval_within d d' manifest receipt b s' Hchecked Hnone Hsaved t n.
  unfold advance_arbitration. pose proof (saved_arbitration_within _ _ _ _ _ _ _ _ Hsaved) as Hs'.
  destruct (Arbiter.decision v) eqn:Hdecision.
  - pose proof (approval_within eq_refl _ _ _ _ _ _ Hchecked Hnone Hsaved (candidate_key w c "approved") t)
      as HR. unfold run_call in HR. simpl in HR. rewrite void_state in HR.
    unfold call, on_store, mbind, method_bind. simpl. destruct (gives_up_at n); [done|].
    by destruct (apply_workflow_command _ _ _ _ s') as [s2 [r|e]].
  - etrans; [exact Hs'|]. change s' with (store {| store := s'; ticks := n |}) at 1.
    generalize {| store := s'; ticks := n |}. intros d0.
    assert (preserves within (
      cause ← present (repair_cause (Arbiter.repair_target v)) "rejected verdict lacks a repair target";
      repaired ← call (repair_route w c cause t); mret (outcome_state repaired))) as HR; [|apply HR].
    apply preserves_bind; [typeclasses eauto|apply reaches_within; solve_reaches|intros ?].
    apply preserves_bind; [typeclasses eauto|by apply repair_call_within|intros ?].
    apply reaches_within; solve_reaches.
Qed.

(** A step that only looks, and what follows it. *)
Lemma within_after_look {A B} (m : daemon A) (f : A → daemon B) d :
  preserves (same store) m →
  (∀ d' a, m d = (d', Ok a) → store d' = store d → within d (f a d').1) → within d ((m ≫= f) d).1.
Proof.
  intros Hm Hf. specialize (Hm d). unfold mbind, method_bind.
  destruct (m d) as [d' [a|e]]; unfold same in Hm; simpl in *; [by apply Hf|].
  unfold within. by rewrite Hm.
Qed.
Lemma validate_project_reads p w : preserves (same store) (validate_project p w).
Proof.
  unfold validate_project. do 2 (apply preserves_bind; [typeclasses eauto| |intros ?]); done.
Qed.

Lemma submit_arbitration_within k w c v :
  verdict_leads w c v (λ s s', ∀ t n,
    R s (store (advance_arbitration w c v t {| store := s'; ticks := n |}).1)) →
  preserves within (submit_arbitration checkpoint_key k w c v).
Proof.
  intros Hleads d. unfold submit_arbitration.
  apply within_after_look; [apply validate_project_reads|]. intros d1 _ _ Hd1.
  assert (∀ m : daemon (Receipt.ArbitrationReceipt * Workflow.WorkflowState),
    within d1 (m d1).1 → within d (m d1).1) as Hstart.
  { intros m. unfold within. by rewrite Hd1. }
  apply Hstart. apply within_after_look; [by intros ?|]. intros d2 existing Hexisting Hd2.
  assert (load_arbitration c (store d1) = Ok existing) as Hload.
  { unfold look, asking in Hexisting. by inv_method. }
  destruct existing as [[[owner verdict] receipt]|].
  { unfold within. rewrite <-Hd2. revert d2 Hd2 Hexisting. intros d2 _ _.
    assert (∀ m : daemon (Receipt.ArbitrationReceipt * Workflow.WorkflowState),
      preserves reaches m → R (store d2) (store (m d2).1)) as Hr.
    { intros m Hm. by apply (reaches_within m). }
    apply Hr. solve_reaches. }
  unfold within. rewrite <-Hd2 in Hload. rewrite <-Hd2. clear Hstart Hexisting.
  apply within_after_look; [apply arbitration_receipt_reads|]. intros d3 [manifest receipt] Hchecked Hd3.
  cbv beta iota zeta. unfold mbind at 1, method_bind at 1. unfold call at 1, on_store at 1.
  destruct (gives_up_at (ticks d3)); [by unfold within; rewrite <-Hd3|]. rewrite Hd3.
  destruct (save_arbitration_once w c v receipt (Receipt.finalized_at receipt) (store d2))
    as [s' [b|e]] eqn:Hsaved; simpl map_err; cbv iota beta.
  - pose proof (Hleads _ _ _ _ _ _ Hchecked Hload Hsaved (Receipt.finalized_at receipt) (S (ticks d3)))
      as Hadvance.
    unfold mbind at 1, method_bind at 1.
    destruct (advance_arbitration _ _ _ _ _) as [d4 [state|e]]; [|exact Hadvance].
    unfold within. etrans; [exact Hadvance|]. simpl fst at 1.
    match goal with |- R _ (store (?m d4).1) => enough (preserves reaches m) as Hm by by apply reaches_within end.
    solve_reaches.
  - pose proof (ordinary_within (SaveArbitration w c v receipt (Receipt.finalized_at receipt))
      (store d2) (conj I I)) as HR. unfold run_call in HR. simpl in HR.
    by rewrite void_state, Hsaved in HR.
Qed.

(** What a request needs besides its ordinary calls. *)
Definition others_within (r : DaemonRequest) : Prop :=
  match r with
  | VerifyRequest r _ => ∀ inputs ran d d', verify_candidate_begin r d = (d', Ok inputs) →
      within d (verify_candidate_finish checkpoint_key r inputs ran d').1
  | VerifyEnds r _ _ => repairs_within (verify_workflow_id r)
  | ArbitrationRequest _ w c v => verdict_leads w c v (λ s s', ∀ t n,
      R s (store (advance_arbitration w c v t {| store := s'; ticks := n |}).1))
  | _ => True
  end.

Lemma request_within r : request_ok r → others_within r → preserves within (serve r).
Proof.
  intros Hok Hothers. destruct r; simpl in *.
  all: try (apply ignoring_preserves; [typeclasses eauto|]).
  all: eauto using submit_arbitration_within, verify_candidate_finish_within.
  all: lazymatch goal with
    | |- preserves within (verify_candidate_begin _ ≫= _) => idtac
    | |- _ => apply reaches_within
    end.
  all: eauto using record_observation_reaches, process_protocol_request_reaches,
    control_execute_reaches, goal_execute_reaches, report_execution_reaches,
    plan_verification_finish_reaches, freeze_candidate_begin_reaches,
    freeze_candidate_finish_reaches, verify_candidate_begin_reaches, submit_review_reaches,
    promote_candidate_begin_reaches, bind_reaches, promote_candidate_finish_reaches.
  intros d. unfold mbind, method_bind.
  pose proof (reaches_within _ (verify_candidate_begin_reaches r) d) as Hbegin.
  destruct (verify_candidate_begin r d) as [d1 [inputs|e]] eqn:Hrun; [|done].
  specialize (Hothers inputs (run inputs) d d1 Hrun). unfold ignoring, mbind, method_bind.
  by destruct (verify_candidate_finish _ _ _ _ d1) as [d2 [a|e]].
Qed.
End within.

(** Whatever holds of the calls of the store but of approvals and repairs, and of
    those two as the daemon makes them, holds of every request. *)
Lemma serve_all_within (R : relation Store) `{!PreOrder R} requests d :
  (∀ c s, ordinary c → R s (run_call c s)) →
  (∀ w c cause t s, R s (repair_route w c cause t s).1) →
  (∀ w c v, Arbiter.decision v = Arbiter.Approved → verdict_leads w c v (λ s s', ∀ key t,
     R s (run_call (ApplyWorkflow w key (Workflow.Approve true) t : StoreCall Value) s'))) →
  Forall request_ok requests → R (store d) (store (serve_all requests d)).
Proof.
  intros Hordinary Hrepair Happroval Hok. revert d. induction Hok as [|r requests Hr _ IH]; intros d; [done|].
  change (serve_all (r :: requests) d) with (serve_all requests (served r d)).
  etrans; [|apply IH]. apply (request_within R Hordinary r Hr). destruct r; simpl; try done.
  - intros inputs ran d1 d2 Hbegin. pose proof (within_preorder R).
    etrans; [|by apply (verify_candidate_finish_within R Hordinary); intros c cause t s; apply Hrepair].
    pose proof (reaches_within R Hordinary _ (verify_candidate_begin_reaches r) d1) as Hb.
    by rewrite Hbegin in Hb.
  - intros c cause t s. apply Hrepair.
  - apply (advance_within R Hordinary); [intros c' cause t s; apply Hrepair|by apply Happroval].
Qed.

(** Sequences of calls of the store. *)
Definition calls_lead : relation Store := λ s s',
  ∃ calls : list (StoreCall Value), Forall call_ok calls ∧ s' = run_calls calls s.
#[local] Instance calls_lead_preorder : PreOrder calls_lead.
Proof.
  split.
  - intros s. by exists [].
  - intros s1 s2 s3 (cs1&Hcs1&->) (cs2&Hcs2&->). exists (cs1 ++ cs2). split; [by apply Forall_app|].
    unfold run_calls. by rewrite foldl_app.
Qed.
Lemma call_leads (c : StoreCall Value) s : call_ok c → calls_lead s (run_call c s).
Proof. intros Hc. exists [c]. by split; [constructor|]. Qed.

Lemma serve_all_calls requests d :
  Forall request_ok requests → calls_lead (store d) (store (serve_all requests d)).
Proof.
  apply (serve_all_within calls_lead).
  - intros c s [Hc _]. by apply call_leads.
  - intros w c cause t. apply (repair_route_within calls_lead). intros key command s _. by apply call_leads.
  - intros w c v _ d1 d' manifest receipt b s' _ _ Hsaved key t.
    etrans; [|by apply call_leads].
    pose proof (call_leads (SaveArbitration w c v receipt (Receipt.finalized_at receipt)) (store d1) I) as Hs.
    unfold run_call in Hs. simpl in Hs. by rewrite void_state, Hsaved in Hs.
Qed.

(** The daemon does to its store only what calls of workflow-store do: after
    any requests, in any order, however each ends, the store is the one that
    some sequence of calls leads to from a new store. What StoreGuarantees.v
    shows of every such sequence (idempotency, replay, byte-exact candidates, an
    append-only ledger, bound documents) is so of the daemon. *)
Theorem daemon_refines_the_store requests limit :
  Forall request_ok requests →
  ∃ calls : list (StoreCall Value), Forall call_ok calls ∧
    store (serve_all requests (daemon_new limit)) = run_calls calls (store_new limit).
Proof. apply serve_all_calls. Qed.
End daemon.
End DaemonRuns.
