(* ===== verification/DaemonCalls.v ===== *)
(** What each request may do to the store: the calls that are its own, with the
    arguments they have, and the requests that may do nothing at all. *)
From Stdlib Require Import Ascii String.
From S2P Require Import Prelude Text Ids Paths Canonical WorkflowMachine TaskMachine Requests Goals.
From S2P Require Import Dag Verdicts Candidates Plans Routing Redaction Ledger History Policy Admission.
From S2P Require Import Database StoreCommands StoreLeases StoreCandidates StoreDocuments StoreLedger StoreGoals.
From S2P Require Import StoreRun FileSystem Freeze VerificationPlans VerificationRuns Services Lifecycle Controls.
From S2P Require Import DaemonSteps DaemonRuns.

Module DaemonCalls.
Export DaemonRuns.
Import LedgerStore GoalStore.
Import (hints) Routing.

Section daemon.
Context `{Environment, Sha256, Rfc3339, Checkpoint.Ed25519}.
Context `{ToJson (list (string * string * bool)), ToJson Plan.ArchitecturePlan,
  ToJson Arbiter.ArbiterVerdict, ToJson Review.ReviewVerdict, ToJson Event.LedgerEvent,
  ToJson EssentialityPolicy, ToJson (gmap Routing.RiskCategory (list string)),
  JsonValue VerificationPlanT, JsonValue EssentialityPolicy}.
Context `{Persist Value, Persist Workflow.Workflow, Persist Workflow.WorkflowEvent,
  Persist (PersistedResult Workflow.WorkflowEvent Workflow.Workflow),
  Persist Task.Task, Persist Task.TaskEvent, Persist (PersistedResult Task.TaskEvent Task.Task),
  Persist Lease.Lease, Persist Request.RequestRecordUnchecked, Persist UncheckedPlan,
  Persist Candidate.CandidateManifestUnchecked, Persist Evidence.EvidenceRecord,
  Persist Review.ReviewVerdict, Persist Arbiter.ArbiterVerdict, Persist Receipt.ArbitrationReceipt,
  Persist Event.LedgerEvent, Persist Checkpoint.Checkpoint, Persist Goal.UncheckedGoal,
  Persist Goal.GoalEvent, Persist (PersistedResult Goal.GoalEvent Goal.UncheckedGoal),
  Persist AmendmentAppended}.
Context (verdict_text : Arbiter.ArbiterVerdict → option string).
Context (feedback_text : list (Evidence.EvidenceRecord * string * bool) → option string).
Context (checkpoint_key : Checkpoint.SigningKey).

(** * The calls of a request *)

(** The commands of a repair. *)
Inductive repair_command (target : Workflow.RepairTarget) : Workflow.WorkflowCommand → Prop :=
| repair_verification : repair_command target (Workflow.VerificationRejected target)
| repair_arbitration : repair_command target (Workflow.Reject target)
| repair_begins : repair_command target Workflow.BeginRepair.

(** What the end of a verification may do, by what its run gave. *)
Inductive verifies (r : VerificationRequest) (inputs : VerificationInputs)
    (run : VerificationRun.VerificationRun) : StoreCall Value → Prop :=
| verifies_evidence gate record output t :
    (gate, record) ∈ zip (VerificationPlan.gates (inputs_plan inputs)) (VerificationRun.records run) →
    VerificationRun.outputs run !! Evidence.id record = Some output →
    verifies r inputs run (SaveEvidence (verify_plan_id r) (verify_workflow_id r)
      (verify_candidate_id r) record output (VerificationPlan.mandatory gate) t)
| verifies_log c : logged (verify_project_key r) (Some (verify_workflow_id r)) c →
    verifies r inputs run c
| verifies_passed key t : VerificationRun.mandatory_passed run = true →
    verifies r inputs run (ApplyWorkflow (verify_workflow_id r) key Workflow.VerificationPassed t)
| verifies_blocked key t :
    VerificationRun.mandatory_passed run = false → VerificationRun.infrastructure_blocked run = true →
    verifies r inputs run (ApplyWorkflow (verify_workflow_id r) key Workflow.BlockInfrastructure t)
| verifies_failed key command t :
    VerificationRun.mandatory_passed run = false → VerificationRun.infrastructure_blocked run = false →
    repair_command Workflow.RT_Execution command →
    verifies r inputs run (ApplyWorkflow (verify_workflow_id r) key command t).

(** What a request of the protocol may do. *)
Inductive protocol_call (q : IpcRequest) : StoreCall Value → Prop :=
| protocol_request w record t :
    ipc_payload q = RequestPayload record → (∀ v, ipc_workflow q = Some v → w = v) →
    protocol_call q (SaveRequest w (from_stable_key (ipc_project_key q)) record t)
| protocol_intake w record key t :
    ipc_payload q = RequestPayload record → (∀ v, ipc_workflow q = Some v → w = v) →
    protocol_call q (ApplyWorkflow w key Workflow.CompleteIntake t)
| protocol_route w record key mode t :
    ipc_payload q = RequestPayload record → (∀ v, ipc_workflow q = Some v → w = v) →
    protocol_call q (ApplyWorkflow w key (Workflow.Route mode) t)
| protocol_architecture w plan t :
    ipc_payload q = ArchitecturePayload plan → ipc_workflow q = Some w →
    protocol_call q (SaveArchitecture w plan t)
| protocol_constraint w plan digest value t :
    ipc_payload q = ArchitecturePayload plan → ipc_workflow q = Some w →
    policy_digest policy_default = Some digest → to_value policy_default = Some value →
    protocol_call q (SaveConstraint w "essentiality" digest value t)
| protocol_accepted w plan key t :
    ipc_payload q = ArchitecturePayload plan → ipc_workflow q = Some w →
    protocol_call q (ApplyWorkflow w key Workflow.ArchitectureAccepted t)
| protocol_log w c :
    (∀ v, ipc_workflow q = Some v → w = v) → logged (ipc_project_key q) (Some w) c → protocol_call q c.

(** What an operation on goals may do. *)
Inductive goal_call (key : string) : GoalOperation → StoreCall Value → Prop :=
| goal_creates constraints id max non_goals objective session criteria g t :
    Goal.goal_new objective criteria constraints non_goals max = Ok g →
    goal_call key (GoalCreate constraints id max non_goals objective session criteria)
      (SaveGoal id (from_stable_key key) g t)
| goal_creates_focus constraints id max non_goals objective session criteria t :
    goal_call key (GoalCreate constraints id max non_goals objective session criteria)
      (FocusGoal (from_stable_key key) session id t)
| goal_amends id operation text k t :
    goal_call key (GoalAmend id operation text) (AmendGoal id k text t)
| goal_controls action evidence id operation reason k t :
    goal_call key (GoalControl action evidence id operation reason)
      (ApplyGoal id k (goal_command action) t)
| goal_focuses id session t :
    goal_call key (GoalFocus id session) (FocusGoal (from_stable_key key) session id t)
| goal_links id milestone w t :
    goal_call key (GoalLinkWorkflow id milestone w) (LinkGoal id w milestone t)
| goal_plans content id session t :
    goal_call key (GoalSavePlan content id session) (SaveGoalPlan id session content t)
| goal_starts content id session k t :
    goal_call key (GoalSavePlan content id session) (ApplyGoal id k Goal.StartPlanning t)
| goal_logs operation c : logged key None c →
    (match operation with GoalList | GoalStatus _ _ => False | _ => True end) →
    goal_call key operation c.

(** What a control operation may command. *)
Inductive control_call : ControlOperation → Workflow.WorkflowCommand → Prop :=
| control_pauses : control_call Pause Workflow.Pause
| control_resumes : control_call Resume Workflow.Resume
| control_cancels : control_call Cancel Workflow.Cancel
| control_retries : control_call Retry Workflow.RetryInfrastructure
| control_unblocks : control_call Retry Workflow.ResumeInfrastructure
| control_extends : control_call Retry (Workflow.ResumeBlocked 5).

(** What a request may do. *)
Inductive permitted : DaemonRequest → StoreCall Value → Prop :=
| permits_audit o c : logged (observed_project_key o) (observed_workflow o) c →
    permitted (AuditRequest o) c
| permits_protocol q c : protocol_call q c → permitted (ProtocolRequest q) c
| permits_control sample worktree project_key requested operation operation_id w command key t :
    (∀ v, requested = Some v → w = v) → control_call operation command →
    permitted (ControlRequest sample worktree project_key requested operation operation_id)
      (ApplyWorkflow w key command t)
| permits_goal project_key operation c : goal_call project_key operation c →
    permitted (GoalRequest project_key operation) c
| permits_blocked project_key w report_id key t :
    permitted (ReportRequest project_key w ExecutionBlocked report_id)
      (ApplyWorkflow w key Workflow.BlockInfrastructure t)
| permits_replan project_key w report_id key t :
    permitted (ReportRequest project_key w ExecutionPlanDefect report_id)
      (ApplyWorkflow w key Workflow.ReplanExecution t)
| permits_plan project_key w plan_id plan value t : to_value plan = Some value →
    permitted (PlanRequest project_key w plan_id (Ok plan)) (SaveVerificationPlan plan_id w value t)
| permits_ready r key t :
    permitted (FreezeBegins r)
      (ApplyWorkflow (freeze_workflow_id r) key (Workflow.CandidateReady (freeze_candidate_id r)) t)
| permits_frozen r frozen t :
    permitted (FreezeEnds r (Ok frozen))
      (SaveCandidate (freeze_workflow_id r) (Freeze.manifest frozen) (Freeze.exact_diff frozen)
         (Freeze.exact_files frozen) t)
| permits_frozen_ready r frozen key t :
    permitted (FreezeEnds r (Ok frozen))
      (ApplyWorkflow (freeze_workflow_id r) key (Workflow.CandidateReady (freeze_candidate_id r)) t)
| permits_frozen_log r frozen c : logged (freeze_project_key r) (Some (freeze_workflow_id r)) c →
    permitted (FreezeEnds r (Ok frozen)) c
| permits_verify r run inputs ran c : run inputs = Ok ran → verifies r inputs ran c →
    permitted (VerifyRequest r run) c
| permits_verify_ends r inputs ran c : verifies r inputs ran c →
    permitted (VerifyEnds r inputs (Ok ran)) c
| permits_review project_key w c v t :
    permitted (ReviewRequest project_key w c v) (SaveReview w c v t)
| permits_reviews_ready project_key w c v key t :
    permitted (ReviewRequest project_key w c v) (ApplyWorkflow w key Workflow.ReviewsReady t)
| permits_review_log project_key w c v call : logged project_key (Some w) call →
    permitted (ReviewRequest project_key w c v) call
| permits_verdict project_key w c v receipt t : Receipt.candidate_id receipt = c →
    Receipt.workflow_id receipt = w →
    permitted (ArbitrationRequest project_key w c v) (SaveArbitration w c v receipt t)
| permits_approval project_key w c v key t : Arbiter.decision v = Arbiter.Approved →
    permitted (ArbitrationRequest project_key w c v) (ApplyWorkflow w key (Workflow.Approve true) t)
| permits_rejection project_key w c v target command key t :
    Arbiter.decision v = Arbiter.Rejected → Arbiter.repair_target v = Some target →
    repair_command target command →
    permitted (ArbitrationRequest project_key w c v) (ApplyWorkflow w key command t)
| permits_verdict_log project_key w c v call : logged project_key (Some w) call →
    permitted (ArbitrationRequest project_key w c v) call
| permits_reservation project_key directory repository indexed w c digest t :
    is_Some repository → repository = indexed →
    permitted (PromotionBegins project_key directory repository indexed w c) (ReserveDelivery w c digest t)
| permits_binding w c digest expected journal :
    permitted (PromotionBinds w c digest expected journal) (BindJournal w c digest expected journal)
| permits_abandoned w c digest error :
    permitted (PromotionEnds w c digest (Err (error, false))) (ReleaseDelivery w c digest)
| permits_released w c digest changed journal :
    permitted (PromotionEnds w c digest (Ok (changed, journal))) (ReleaseDelivery w c digest)
| permits_delivered w c digest changed journal key t :
    permitted (PromotionEnds w c digest (Ok (changed, journal)))
      (DeliverReserved w c digest journal key t).

(** A call that a request may make, with the arguments that the types of the code
    guarantee. *)
Definition may (r : DaemonRequest) (c : StoreCall Value) : Prop := call_ok c ∧ permitted r c.

(** The project and the workflow, and the goal, that a request names. *)
Definition names_workflow (r : DaemonRequest) : option (string * WorkflowId) :=
  match r with
  | ReportRequest project_key w _ _ | PlanRequest project_key w _ _
  | ReviewRequest project_key w _ _ | ArbitrationRequest project_key w _ _
  | ControlRequest _ _ project_key (Some w) _ _ | GoalRequest project_key (GoalLinkWorkflow _ _ w) =>
      Some (project_key, w)
  | FreezeBegins r | FreezeEnds r _ => Some (freeze_project_key r, freeze_workflow_id r)
  | VerifyRequest r _ | VerifyEnds r _ _ => Some (verify_project_key r, verify_workflow_id r)
  | ProtocolRequest q =>
      match ipc_payload q with
      | ArchitecturePayload _ => w ← ipc_workflow q; Some (ipc_project_key q, w)
      | _ => None
      end
  | _ => None
  end.
Definition names_goal (r : DaemonRequest) : option (string * GoalId) :=
  match r with
  | GoalRequest project_key (GoalAmend id _ _ | GoalControl _ _ id _ _ | GoalFocus id _
      | GoalLinkWorkflow id _ _ | GoalSavePlan _ id _) => Some (project_key, id)
  | _ => None
  end.

(** A request that names a workflow or a goal of another project, or of none. *)
Definition foreign (r : DaemonRequest) (s : Store) : Prop :=
  (∃ key w, names_workflow r = Some (key, w) ∧
     ∀ request, load_request w s ≠ Ok (Some (from_stable_key key, request))) ∨
  (∃ key id, names_goal r = Some (key, id) ∧
     ∀ g, load_goal id s ≠ Ok (Some (from_stable_key key, g))).

(** * Every request makes its calls *)

Ltac solve_may :=
  solve_makes;
  try solve [ unfold allowed, may; split; [done|eauto using permitted, repair_command, control_call] ].

(** A record of the ledger, by the rule of its request. *)
Lemma record_makes r o :
  (∀ c, logged (observed_project_key o) (observed_workflow o) c → permitted r c) →
  preserves (makes (may r)) (record_observation checkpoint_key o).
Proof. intros Hr. apply record_observation_makes. intros c Hc. split; [by destruct Hc|by apply Hr]. Qed.

Lemma command_may r w key c :
  (∀ t, permitted r (ApplyWorkflow w key c t)) → preserves (makes (may r)) (command_now w key c).
Proof. intros Hr. apply command_now_makes. by split. Qed.

#[local] Hint Extern 2 (preserves (makes (may _)) (record_observation _ _)) =>
  apply record_makes; simpl; intros; eauto 4 using permitted, verifies, protocol_call, goal_call : keeps.
#[local] Hint Extern 2 (preserves (makes (may _)) (command_now _ _ _)) =>
  apply command_may; intros; eauto 4 using permitted, verifies : keeps.

Lemma report_makes k w o id : preserves (makes (may (ReportRequest k w o id))) (report_execution k w o id).
Proof.
  unfold report_execution.
  do 2 (apply preserves_bind; [typeclasses eauto|solve_makes|intros ?]).
  apply (preserves_bind_answer _ (λ c, ∀ key t, permitted (ReportRequest k w o id) (ApplyWorkflow w key c t)));
    [solve_makes| |].
  - intros d d' c Hc. destruct o; inv_method; constructor.
  - intros c Hc. apply preserves_bind; [typeclasses eauto|by apply command_may|solve_makes].
Qed.

Lemma plan_makes k w p found :
  preserves (makes (may (PlanRequest k w p found))) (plan_verification_finish k w p found).
Proof.
  unfold plan_verification_finish.
  apply (preserves_bind_answer _ (λ plan, found = Ok plan)); [solve_makes| |].
  { by intros d d' plan [_ Hplan]%mapped_ok. }
  intros plan ->. apply (preserves_bind_answer _ (λ value, to_value plan = Some value)); [solve_makes| |].
  { by intros d d' value [_ Hvalue]%given_ok. }
  intros value Hvalue. solve_may.
Qed.

Lemma ready_makes r w c :
  (∀ key t, permitted r (ApplyWorkflow w key (Workflow.CandidateReady c) t)) →
  preserves (makes (may r)) (ready_command w c).
Proof. intros Hr. unfold ready_command. by apply command_may. Qed.
#[local] Hint Extern 2 (preserves (makes (may _)) (ready_command _ _)) =>
  apply ready_makes; intros; eauto using permitted : keeps.

Lemma freeze_begin_makes r : preserves (makes (may (FreezeBegins r))) (freeze_candidate_begin r).
Proof.
  unfold freeze_candidate_begin, json_value. solve_may.
Qed.

Lemma freeze_finish_makes r frozen :
  request_ok (FreezeEnds r frozen) →
  preserves (makes (may (FreezeEnds r frozen))) (freeze_candidate_finish checkpoint_key r frozen).
Proof.
  intros Hok. unfold freeze_candidate_finish.
  apply (preserves_bind_answer _ (λ f, frozen = Ok f)); [solve_makes| |].
  { by intros d d' f [_ Hf]%mapped_ok. }
  intros f ->. solve_may.
Qed.

Lemma review_makes k w c v :
  preserves (makes (may (ReviewRequest k w c v))) (submit_review checkpoint_key k w c v).
Proof.
  unfold submit_review. solve_may.
Qed.

(** ** Repairs, verifications and verdicts *)

Lemma repair_makes P w c cause target t :
  repair_target_of cause = Some target →
  (∀ key command, repair_command target command → P (ApplyWorkflow w key command t)) →
  preserves (makes P) (call (repair_route w c cause t)).
Proof.
  intros Htarget HP d. unfold call, on_store. destruct (gives_up_at (ticks d)); [by exists []|].
  set (R := λ s s', ∃ calls, Forall P calls ∧ s' = run_calls calls s).
  assert (PreOrder R) as HR.
  { split; [by intros s; exists []|]. intros s1 s2 s3 (cs1&?&->) (cs2&?&->). exists (cs1 ++ cs2).
    split; [by apply Forall_app|]. unfold run_calls. by rewrite foldl_app. }
  assert (∀ key command, repair_command target command →
    preserves R (apply_workflow_command w key command t)) as Happly.
  { intros key command Hc s. exists [ApplyWorkflow w key command t]. split; [by repeat constructor; apply HP|].
    unfold run_calls, run_call. simpl. by rewrite void_state. }
  assert (∀ B (m : method Store StoreError B), (∀ s, (m s).1 = s) → preserves R m) as Hlook.
  { intros B m Hm s. by rewrite Hm. }
  assert (preserves R (repair_route w c cause t)) as Hroute.
  { unfold repair_route. apply preserves_bind; [done|by apply Hlook|intros loaded].
    apply preserves_bind; [done|by apply Hlook|intros current].
    case_match; [by apply Hlook|]. rewrite Htarget.
    apply (preserves_bind_answer _ (repair_command target)); [by apply Hlook| |].
    { intros s s' command [_ Hcommand]%m_lift_ok. case_match; simplify_eq/=; constructor. }
    intros command Hcommand. apply preserves_bind; [done|by apply Happly|intros answer]. cbv zeta.
    case_match; [|by apply Hlook].
    apply preserves_bind; [done|apply Happly; constructor|intros ?]. by apply Hlook. }
  specialize (Hroute (store d)). destruct (repair_route w c cause t (store d)) as [s' r].
  exact Hroute.
Qed.

(** A loop whose turns are over elements of its list. *)
Lemma preserves_for_each_in {S E A} (R : relation S) `{!PreOrder R} (f : A → method S E unit) xs :
  (∀ x, x ∈ xs → preserves R (f x)) → preserves R (m_for_each f xs).
Proof.
  induction xs as [|x xs IH]; intros Hf; simpl; [apply preserves_ret; typeclasses eauto|].
  apply preserves_bind; [typeclasses eauto|apply Hf; by left|intros ?]. apply IH. intros y Hy. apply Hf. by right.
Qed.

Lemma save_gate_evidence_makes q r inputs run item :
  item ∈ zip (VerificationPlan.gates (inputs_plan inputs)) (VerificationRun.records run) →
  (∀ c, verifies r inputs run c → permitted q c) →
  preserves (makes (may q)) (save_gate_evidence checkpoint_key r (stored_manifest (inputs_candidate inputs))
    (VerificationRun.outputs run) item).
Proof.
  intros Hin Hq. destruct item as [gate record]. unfold save_gate_evidence.
  apply (preserves_bind_answer _ (λ output, VerificationRun.outputs run !! Evidence.id record = Some output));
    [solve_makes| |].
  { by intros d d' output [_ Ho]%given_ok. }
  intros output Houtput. solve_makes. split; [done|]. apply Hq. by constructor.
Qed.

Lemma verify_finish_makes q r inputs ran :
  (∀ run c, ran = Ok run → verifies r inputs run c → permitted q c) →
  preserves (makes (may q)) (verify_candidate_finish checkpoint_key r inputs ran).
Proof.
  intros Hq. unfold verify_candidate_finish.
  apply (preserves_bind_answer _ (λ run, ran = Ok run)); [solve_makes| |].
  { by intros d d' run [_ Hrun]%mapped_ok. }
  intros run ->. apply preserves_bind; [typeclasses eauto|solve_makes|intros ?].
  apply preserves_bind; [typeclasses eauto| |intros ?].
  { apply preserves_for_each_in; [typeclasses eauto|]. intros item Hitem.
    apply save_gate_evidence_makes; eauto. }
  destruct (VerificationRun.mandatory_passed run) eqn:Hpassed;
    [|destruct (VerificationRun.infrastructure_blocked run) eqn:Hblocked].
  1-2: apply preserves_bind; [typeclasses eauto| |intros ?; solve_makes];
    apply command_may; intros t; eapply Hq; [done|by constructor].
  apply preserves_bind; [typeclasses eauto|solve_makes|intros t].
  apply preserves_bind; [typeclasses eauto| |intros ?; solve_makes].
  eapply repair_makes; [done|]. intros key command Hc. split; [done|]. eapply Hq; [done|by constructor].
Qed.

Lemma receipt_is_of w c v d d' manifest receipt :
  arbitration_receipt w c v d = (d', Ok (manifest, receipt)) →
  Receipt.candidate_id receipt = c ∧ Receipt.workflow_id receipt = w.
Proof.
  unfold arbitration_receipt. intros Hrun.
  repeat (first [apply method_bind_ok in Hrun as (?&?&_&Hrun) | case_match]; cbv beta zeta in Hrun).
  apply method_ret_ok in Hrun as [_ Heq]. injection Heq as _ ->. done.
Qed.

Lemma arbitration_makes k w c v :
  preserves (makes (may (ArbitrationRequest k w c v))) (submit_arbitration checkpoint_key k w c v).
Proof.
  unfold submit_arbitration. do 2 (apply preserves_bind; [typeclasses eauto|solve_makes|intros ?]).
  case_match; [solve_makes|].
  apply (preserves_bind_answer _ (λ a, Receipt.candidate_id a.2 = c ∧ Receipt.workflow_id a.2 = w)).
  { unfold arbitration_receipt. solve_makes. }
  { intros d d' [manifest receipt] Hrun. by eapply receipt_is_of. }
  intros [manifest receipt] [??]. cbn [snd] in *.
  apply preserves_bind; [typeclasses eauto|solve_may|intros ?].
  apply preserves_bind; [typeclasses eauto| |intros ?; solve_may].
  unfold advance_arbitration. destruct (Arbiter.decision v) eqn:Hdecision; [solve_may|].
  apply (preserves_bind_answer _ (λ cause, repair_cause (Arbiter.repair_target v) = Some cause)).
  { solve_makes. }
  { by intros d d' cause [_ Hcause]%given_ok. }
  intros cause Hcause. apply preserves_bind; [typeclasses eauto| |intros ?; solve_makes].
  destruct (Arbiter.repair_target v) as [target|] eqn:Htarget; [|done].
  apply (repair_makes _ _ _ _ target); [by destruct target; injection Hcause as <-|].
  intros key command Hc. split; [done|]. by eapply permits_rejection.
Qed.

(** ** The other requests *)

Lemma audit_makes o : preserves (makes (may (AuditRequest o))) (record_observation checkpoint_key o).
Proof. apply record_makes. by constructor. Qed.

Lemma start_makes q record :
  ipc_payload q = RequestPayload record →
  preserves (makes (may (ProtocolRequest q))) (start_workflow checkpoint_key q record).
Proof.
  intros Hq. unfold start_workflow.
  do 2 (apply preserves_bind; [typeclasses eauto|solve_makes|intros ?]).
  apply (preserves_bind_answer _ (λ w, ∀ v, ipc_workflow q = Some v → w = v)).
  { destruct (ipc_workflow q); simpl; solve_makes. }
  { intros d d' w Hw v Hv. rewrite Hv in Hw. simpl in Hw. by apply method_ret_ok in Hw as [_ ->]. }
  intros w Hw. unfold decide_and_record.
  assert (∀ c, logged (ipc_project_key q) (Some w) c → may (ProtocolRequest q) c) as Hlog.
  { intros c Hc. split; [by destruct Hc|]. constructor. by eapply protocol_log. }
  solve_may; try (split; [done|eauto using permitted, protocol_call]).
  by apply audit_record_makes.
Qed.
Lemma architecture_makes q plan :
  ipc_payload q = ArchitecturePayload plan →
  preserves (makes (may (ProtocolRequest q))) (accept_architecture checkpoint_key q plan).
Proof.
  intros Hq. unfold accept_architecture.
  apply (preserves_bind_answer _ (λ w, ipc_workflow q = Some w)); [solve_makes| |].
  { unfold coded, converted. intros d d' w Hw. destruct (ipc_workflow q); simpl in Hw; congruence. }
  intros w Hw. do 3 (apply preserves_bind; [typeclasses eauto|solve_makes|intros ?]).
  assert (∀ v, ipc_workflow q = Some v → w = v) as Hv by congruence.
  apply preserves_bind; [typeclasses eauto|solve_makes|intros t].
  apply preserves_bind; [typeclasses eauto
    |solve_makes; split; [done|eauto using permitted, protocol_call]|intros ?].
  apply (preserves_bind_answer _ (λ value, to_value policy_default = Some value)); [solve_makes| |].
  { unfold coded, converted. intros d d' value Hvalue.
    destruct (to_value policy_default); simpl in Hvalue; congruence. }
  intros value Hvalue.
  apply (preserves_bind_answer _ (λ digest, policy_digest policy_default = Some digest)); [solve_makes| |].
  { by intros d d' digest [_ Hd]%given_ok. }
  intros digest Hdigest. solve_may; try (split; [done|eauto using permitted, protocol_call]).
Qed.
Lemma protocol_makes q :
  preserves (makes (may (ProtocolRequest q))) (process_protocol_request checkpoint_key q).
Proof.
  unfold process_protocol_request. destruct (ipc_payload q) eqn:Hq; auto using start_makes, architecture_makes.
  all: apply converted_preserves; apply preserves_throw; typeclasses eauto.
Qed.

Lemma control_command_call operation state c :
  control_command operation state = Some c → control_call operation c.
Proof. destruct operation; simpl; intros [= <-]; try case_match; constructor. Qed.
Lemma control_makes sample worktree k requested operation id :
  preserves (makes (may (ControlRequest sample worktree k requested operation id)))
    (control_execute verdict_text feedback_text checkpoint_key sample worktree k requested operation id).
Proof.
  unfold control_execute. apply preserves_bind; [typeclasses eauto|solve_makes|intros ?].
  case_match; [solve_makes|].
  apply (preserves_bind_answer _ (λ w, ∀ v, requested = Some v → w = v)).
  { unfold controlled_workflow. solve_makes. }
  { intros d d' w Hw v ->. unfold controlled_workflow in Hw.
    do 2 apply method_bind_ok in Hw as (?&?&_&Hw). by apply method_ret_ok in Hw as [_ ->]. }
  intros w Hw. apply preserves_bind; [typeclasses eauto|solve_makes|intros state].
  assert (preserves (makes (may (ControlRequest sample worktree k requested operation id)))
    (control_apply w (Workflow.state state) operation id)) as Hcontrol.
  { unfold control_apply. case_match; [solve_makes|].
    do 2 (apply preserves_bind; [typeclasses eauto|solve_makes|intros ?]).
    apply (preserves_bind_answer _ (control_call operation)); [solve_makes| |].
    { intros d d' c [_ Hc]%certain_ok. by eapply control_command_call. }
    intros c Hc. apply preserves_bind; [typeclasses eauto| |intros ?; solve_makes].
    apply or_else_preserves; [typeclasses eauto|solve_may|intros e].
    case_match eqn:Hretry; [|solve_makes]. to_prop. subst. solve_may. }
  unfold recovery, early_recovery, repair_feedback. solve_makes; apply Hcontrol.
Qed.

Lemma goal_record_makes q k id x a m :
  (∀ c, logged k None c → permitted q c) →
  preserves (makes (may q)) (goal_record checkpoint_key k id x a m).
Proof. intros Hq. unfold goal_record. solve_may. Qed.
Lemma snapshot_makes q p id : preserves (makes (may q)) (answer_snapshot p id).
Proof. unfold answer_snapshot, snapshot, require_owner. solve_makes. Qed.
#[local] Hint Resolve snapshot_makes : keeps.
#[local] Hint Extern 2 (preserves (makes (may _)) (goal_record _ _ _ _ _ _)) =>
  apply goal_record_makes; intros; constructor; by apply goal_logs : keeps.
Lemma goal_makes k operation :
  preserves (makes (may (GoalRequest k operation))) (goal_execute checkpoint_key k operation).
Proof.
  unfold goal_execute. apply preserves_bind; [typeclasses eauto|solve_makes|intros ?]. cbv zeta.
  destruct operation as [constraints id max non_goals objective session criteria| | | | | | |].
  2-8: unfold amend_goal, control_goal, link_workflow, save_plan, require_owner; solve_makes;
    try (split; [done|eauto using permitted, goal_call]).
  unfold create_goal. cbv zeta. apply preserves_bind; [typeclasses eauto|solve_makes|intros ?].
  apply (preserves_bind_answer _ (λ g, Goal.goal_new objective criteria constraints non_goals max = Ok g));
    [solve_makes| |].
  { by intros d d' g [_ Hg]%mapped_ok. }
  intros g Hg. solve_makes; try (split; [done|eauto using permitted, goal_call]).
Qed.

Lemma promotion_begin_makes k p r i w c :
  preserves (makes (may (PromotionBegins k p r i w c))) (promote_candidate_begin k p r i w c).
Proof.
  unfold promote_candidate_begin. apply preserves_bind; [typeclasses eauto|solve_makes|intros ?].
  apply (preserves_bind_answer _ (λ x, r = Some x)); [solve_makes| |].
  { by intros d d' x [_ Hx]%given_ok. }
  intros x ->. apply (preserves_bind_answer _ (λ y, i = Some y)); [solve_makes| |].
  { by intros d d' y [_ Hy]%given_ok. }
  intros y ->. apply (preserves_bind_answer _ (λ _, x = y)); [solve_makes| |].
  { intros d d' u [_ Hsame]%refuse_if_ok. by to_prop. }
  intros _ ->. solve_may.
Qed.
Lemma promotion_end_makes w c digest promotion :
  preserves (makes (may (PromotionEnds w c digest promotion))) (promote_candidate_finish w c digest promotion).
Proof. unfold promote_candidate_finish. destruct promotion as [[? ?]|[? []]]; solve_may. Qed.

Lemma serve_makes r : request_ok r → preserves (makes (may r)) (serve verdict_text feedback_text checkpoint_key r).
Proof.
  intros Hok. destruct r; simpl.
  all: try (apply ignoring_preserves; [typeclasses eauto|]).
  all: eauto using audit_makes, protocol_makes, control_makes, goal_makes, report_makes, plan_makes,
    freeze_begin_makes, freeze_finish_makes, review_makes, arbitration_makes, promotion_begin_makes,
    promotion_end_makes.
  - apply preserves_bind; [typeclasses eauto| |intros inputs].
    { unfold verify_candidate_begin, json_value. solve_makes. }
    apply ignoring_preserves; [typeclasses eauto|]. apply verify_finish_makes.
    intros ran c Hran Hc. by eapply permits_verify.
  - apply verify_finish_makes. intros run c -> Hc. by econstructor.
  - unfold promote_candidate_bind. solve_may.
Qed.

(** * Requests of other projects *)

(** A step that leaves the store, and whose follow-up from there leaves it too. *)
Definition quiet {A} (m : daemon A) (d : Daemon) : Prop := store (m d).1 = store d.
Definition stops {A} (m : daemon A) (d : Daemon) : Prop := quiet m d ∧ is_ok (m d).2 = false.

Lemma stops_bind {A B} (m : daemon A) (f : A → daemon B) d : stops m d → stops (m ≫= f) d.
Proof.
  unfold stops, quiet, mbind, method_bind. intros [Hm He].
  by destruct (m d) as [d' [a|e]].
Qed.
Lemma quiet_stops {A B} (m : daemon A) (f : A → daemon B) d : stops m d → quiet (m ≫= f) d.
Proof. by intros [Hm _]%(stops_bind m f). Qed.
Lemma quiet_bind {A B} (m : daemon A) (f : A → daemon B) d :
  preserves (same store) m → (∀ a d', m d = (d', Ok a) → store d' = store d → quiet (f a) d') →
  quiet (m ≫= f) d.
Proof.
  unfold quiet, mbind, method_bind. intros Hm Hf. specialize (Hm d). unfold same in Hm.
  destruct (m d) as [d' [a|e]] eqn:Hd; simpl in *; [|done]. by rewrite Hf.
Qed.
Lemma quiet_ignoring {A} (m : daemon A) d : quiet m d → quiet (ignoring m) d.
Proof. unfold quiet, ignoring, mbind, method_bind. by destruct (m d) as [d' [a|e]]. Qed.
Lemma lift_keeps {A} (r : result DaemonError A) : preserves (same store) (m_lift r : daemon A).
Proof. by intros d. Qed.
Lemma coded_keeps {A} code (m : daemon A) : preserves (same store) m → preserves (same store) (coded code m).
Proof. apply converted_preserves. Qed.

(** A step that answers nothing. *)
Lemma stops_by {A} (m : daemon A) d :
  preserves (same store) m → (∀ d' a, m d ≠ (d', Ok a)) → stops m d.
Proof.
  intros Hm Hno. split; [apply Hm|]. destruct (m d) as [d' [a|e]] eqn:Hd; [by destruct (Hno d' a)|done].
Qed.

Lemma foreign_workflow_stops key w d :
  (∀ request, load_request w (store d) ≠ Ok (Some (from_stable_key key, request))) →
  stops (validate_project (from_stable_key key) w) d.
Proof.
  intros Hforeign. apply stops_by; [apply validate_project_reads|]. unfold validate_project.
  intros d' a (d1&loaded&[-> Hload]%look_ok&(d2&[p request]&[-> ->]%present_ok&[_ Hp]%refuse_if_ok)
    %method_bind_ok)%method_bind_ok.
  to_prop. cbn [fst] in *. subst. by destruct (Hforeign request).
Qed.
Lemma foreign_goal_stops key id d :
  (∀ g, load_goal id (store d) ≠ Ok (Some (from_stable_key key, g))) →
  stops (require_owner (from_stable_key key) id) d.
Proof.
  intros Hforeign. apply stops_by.
  { unfold require_owner. do 2 (apply preserves_bind; [typeclasses eauto|by intros ?|intros ?]).
    case_match. apply preserves_bind; [typeclasses eauto|by intros ?|by intros ? ?]. }
  unfold require_owner.
  intros d' a (d1&loaded&[-> Hload]%look_ok&(d2&[p g]&[-> ->]%present_ok&(d3&u&[-> Hp]%refuse_if_ok&_)
    %method_bind_ok)%method_bind_ok)%method_bind_ok.
  to_prop. subst. by destruct (Hforeign g).
Qed.

Lemma foreign_control sample worktree key w operation id d :
  (∀ request, load_request w (store d) ≠ Ok (Some (from_stable_key key, request))) →
  quiet (control_execute verdict_text feedback_text checkpoint_key sample worktree key (Some w) operation id) d.
Proof.
  intros Hforeign. unfold control_execute. apply quiet_bind; [apply lift_keeps|intros _ d1 _ Hd1].
  case_match.
  { apply quiet_bind; [by intros ?|intros d2 d3 _ _]. by apply quiet_bind; [apply lift_keeps|]. }
  apply quiet_stops, stops_by.
  { unfold controlled_workflow. do 2 (apply preserves_bind; [typeclasses eauto|by intros ?|intros ?]).
    by intros ?. }
  unfold controlled_workflow.
  intros d' a (d2&loaded&[-> Hload]%look_ok&(d3&u&[-> Hp]%refuse_if_ok&_)%method_bind_ok)%method_bind_ok.
  to_prop. rewrite Hd1 in Hload. destruct loaded as [[p request]|]; [|done]. injection Hp as ->.
  by destruct (Hforeign request).
Qed.

Lemma foreign_architecture q plan w d :
  ipc_workflow q = Some w →
  (∀ request, load_request w (store d) ≠ Ok (Some (from_stable_key (ipc_project_key q), request))) →
  quiet (accept_architecture checkpoint_key q plan) d.
Proof.
  intros Hw Hforeign. unfold accept_architecture.
  apply quiet_bind; [apply coded_keeps, lift_keeps|]. intros w' d1 [-> Hw']%coded_ok%present_ok _.
  rewrite Hw in Hw'. injection Hw' as <-.
  apply quiet_bind; [by apply coded_keeps|]. intros loaded d2 [-> Hload]%coded_ok%look_ok _.
  apply quiet_bind; [apply coded_keeps, lift_keeps|]. intros [p request] d2 [-> ->]%coded_ok%present_ok _.
  apply quiet_stops, stops_by; [apply coded_keeps, lift_keeps|].
  intros d' u [_ Hp]%coded_ok%refuse_if_ok. to_prop. cbn [fst] in *. subst.
  by destruct (Hforeign request).
Qed.

Lemma foreign_goal key operation d :
  match operation with
  | GoalAmend id _ _ | GoalControl _ _ id _ _ | GoalFocus id _ | GoalLinkWorkflow id _ _
  | GoalSavePlan _ id _ => ∀ g, load_goal id (store d) ≠ Ok (Some (from_stable_key key, g))
  | _ => False
  end → quiet (goal_execute checkpoint_key key operation) d.
Proof.
  intros Hforeign. unfold goal_execute. apply quiet_bind; [apply lift_keeps|intros _ d1 _ Hd1]. cbv zeta.
  rewrite <-Hd1 in Hforeign.
  destruct operation; try done; by apply quiet_stops, foreign_goal_stops.
Qed.
Lemma foreign_link key id milestone w d :
  (∀ request, load_request w (store d) ≠ Ok (Some (from_stable_key key, request))) →
  quiet (goal_execute checkpoint_key key (GoalLinkWorkflow id milestone w)) d.
Proof.
  intros Hforeign. unfold goal_execute, link_workflow. apply quiet_bind; [apply lift_keeps|intros _ d1 _ Hd1].
  cbv zeta. apply quiet_bind; [|intros g d2 _ Hd2].
  { unfold require_owner. repeat (apply preserves_bind; [typeclasses eauto|by intros ?|intros ?]).
    case_match. apply preserves_bind; [typeclasses eauto|by intros ?|by intros ? ?]. }
  rewrite <-Hd1, <-Hd2 in Hforeign. clear Hd1 Hd2.
  apply quiet_bind; [by intros ?|intros loaded d3 [-> Hload]%look_ok _].
  apply quiet_bind; [apply lift_keeps|intros [p request] d3 [-> ->]%present_ok _].
  apply quiet_stops, stops_by; [apply lift_keeps|].
  intros d' u [_ Hp]%refuse_if_ok. to_prop. cbn [fst] in *. subst. by destruct (Hforeign request).
Qed.

Lemma foreign_quiet r d : foreign r (store d) → quiet (serve verdict_text feedback_text checkpoint_key r) d.
Proof.
  intros [(key&w&Hnames&Hforeign)|(key&id&Hnames&Hforeign)].
  - destruct r; simpl in Hnames; try done; simplify_eq/=.
    all: try (apply quiet_ignoring; first
      [ apply quiet_stops; by apply foreign_workflow_stops
      | repeat (apply quiet_bind; [apply lift_keeps|intros ?? _ Hkept]; rewrite <-Hkept in Hforeign; clear Hkept);
        apply quiet_stops; by apply foreign_workflow_stops ]).
    + unfold process_protocol_request. destruct (ipc_payload r) eqn:Hq; try done.
      destruct (ipc_workflow r) as [v|] eqn:Hv; simpl in Hnames; [|done]. simplify_eq/=.
      apply quiet_ignoring. by eapply foreign_architecture.
    + destruct requested as [v|]; [|done]. simplify_eq/=. by apply quiet_ignoring, foreign_control.
    + destruct operation; try done. simplify_eq/=. by apply quiet_ignoring, foreign_link.
    + apply quiet_stops. unfold verify_candidate_begin. by apply stops_bind, foreign_workflow_stops.
  - destruct r; simpl in Hnames; try done. apply quiet_ignoring, foreign_goal.
    destruct operation; try done; by simplify_eq/=.
Qed.

End daemon.
End DaemonCalls.
