(* ===== verification/DaemonSafety.v ===== *)
(** What no request can do, in any order and with any failure of a call of the
    store: work is not delivered without an approval that was due, and a workflow
    that waits for a repair does not go back to work. *)
From Stdlib Require Import Ascii String.
From S2P Require Import Prelude Text Ids Paths Canonical WorkflowMachine TaskMachine Requests Goals.
From S2P Require Import Dag Verdicts Candidates Plans Routing Redaction Ledger History Policy Admission.
From S2P Require Import Database StoreCommands StoreLeases StoreCandidates StoreDocuments StoreLedger StoreGoals.
From S2P Require Import StoreRun StoreGuarantees FileSystem Freeze VerificationPlans VerificationRuns.
From S2P Require Import Services Lifecycle Controls DaemonRuns.

Module DaemonSafety.
Export DaemonRuns.
Import LedgerStore GoalStore.
Import (hints) Routing Workflow Evidence Review Arbiter.

Section daemon.
Context `{Environment, Sha256, Rfc3339, Checkpoint.Ed25519}.
Context `{ToJson (list (string * string * bool)), ToJson Plan.ArchitecturePlan,
  ToJson Arbiter.ArbiterVerdict, ToJson Review.ReviewVerdict, ToJson Event.LedgerEvent,
  ToJson EssentialityPolicy, ToJson (gmap Routing.RiskCategory (list string)),
  JsonValue VerificationPlanT, JsonValue EssentialityPolicy}.
Context `{Persist Value, Persist Workflow.Workflow, Persist Workflow.WorkflowEvent,
  Persist (PersistedResult Workflow.WorkflowEvent Workflow.Workflow),
  Persist Task.Task, Persist Task.TaskEvent, Persist (PersistedResult Task.TaskEvent Task.Task),
  Persist Lease.Lease, Persist Request.RequestRecordUnchecked, Persist UncheckedPlan,
  Persist Candidate.CandidateManifestUnchecked, Persist Evidence.EvidenceRecord,
  Persist Review.ReviewVerdict, Persist Arbiter.ArbiterVerdict, Persist Receipt.ArbitrationReceipt,
  Persist Event.LedgerEvent, Persist Checkpoint.Checkpoint, Persist Goal.UncheckedGoal,
  Persist Goal.GoalEvent, Persist (PersistedResult Goal.GoalEvent Goal.UncheckedGoal),
  Persist AmendmentAppended}.
Context (verdict_text : Arbiter.ArbiterVerdict → option string).
Context (feedback_text : list (Evidence.EvidenceRecord * string * bool) → option string).
Context (checkpoint_key : Checkpoint.SigningKey).
Hypothesis faithful : store_json_faithful.

Abbreviation serve_all := (serve_all verdict_text feedback_text checkpoint_key).

(** * How a stored workflow changes *)

(** A call changes the stored state of a workflow by a step of its machine, from
    the stored one or, of a workflow that is not there, from a new one. *)
Lemma call_steps_workflow (c : StoreCall Value) s id :
  load_workflow id (run_call c s) = load_workflow id s ∨
  ∃ command w w' events,
    (command = Workflow.Deliver ∨ ∃ key t, c = ApplyWorkflow id key command t) ∧
    (load_workflow id s = Ok (Some w) ∨ load_workflow id s = Ok None ∧ w = Workflow.workflow_default) ∧
    Workflow.workflow_apply command w = (w', Ok events) ∧
    load_workflow id (run_call c s) = Ok (Some w').
Proof.
  pose proof (Guarantees.other_calls_keep_workflows c s) as Hframe.
  destruct c; try (left; unfold load_workflow; by rewrite Hframe); clear Hframe;
    unfold run_call, perform in *; rewrite void_state in *.
  - destruct (apply_workflow_command id0 key c t s) as [s' [r|e]] eqn:Hcall;
      [|left; by rewrite (apply_workflow_command_atomic _ _ _ _ _ _ _ Hcall)].
    apply apply_workflow_command_ok in Hcall as (_&Hfree&[(?&?&_&_&_&->)|Hcall]); [by left|].
    destruct Hcall as (w&w'&es&d'&_&Hcur&Happly&_&->&(_&_&_&?&?&Hjson&Hrows)&_).
    destruct (decide (id0 = id)) as [->|];
      [right|left; unfold load_workflow; simpl; by rewrite Hrows, lookup_insert_ne].
    exists c, w, w', es. split_and!; [by eauto| |done|].
    + rewrite load_workflow_current. unfold current_workflow in *.
      destruct (workflows _ !! id); simpl in *; [left; by rewrite Hcur|right; naive_solver].
    + unfold load_workflow. simpl. rewrite Hrows, lookup_insert_eq. apply result_bind_ok. exists w'.
      split; [|done]. apply decode_ok. by apply (jf_workflow faithful).
  - destruct (deliver_reserved_candidate w c digest journal key t s) as [s' [r|e]] eqn:Hcall;
      [|left; by rewrite (deliver_reserved_candidate_atomic _ _ _ _ _ _ _ _ _ Hcall)].
    apply deliver_reserved_candidate_ok in Hcall
      as (_&_&row'&st&st'&es&d'&Hrow'&Hw&Hdig&Hj&Hcur&Hsome&Happly&_&->&(_&_&_&?&?&Hjson&Hrows)&_&_&Hdel).
    destruct (decide (w = id)) as [->|];
      [right|left; unfold load_workflow; simpl; by rewrite Hrows, lookup_insert_ne].
    exists Workflow.Deliver, st, st', es. split_and!; [by left| |done|].
    + left. rewrite load_workflow_current. destruct Hsome as [? ->]. by rewrite Hcur.
    + unfold load_workflow. simpl. rewrite Hrows, lookup_insert_eq. apply result_bind_ok. exists st'.
      split; [|done]. apply decode_ok. by apply (jf_workflow faithful).
Qed.

(** * Work that is delivered was approved *)

(** A workflow that is past its approval: delivering, delivered, or interrupted
    while delivering. *)
Definition past_approval (w : Workflow.Workflow) : bool := is_delivering (Workflow.origin w).

Lemma step_past_approval c w w' es :
  Workflow.workflow_wf w → Workflow.workflow_apply c w = (w', Ok es) → past_approval w' = true →
  Workflow.current_candidate w' = Workflow.current_candidate w ∧ Workflow.mode w' = Workflow.mode w ∧
  (past_approval w = true ∨
   (∃ gates, c = Workflow.Approve gates) ∧ Workflow.state w = Workflow.Arbitration ∧
     is_Some (Workflow.current_candidate w)).
Proof.
  intros Hwf Hs%Workflow.workflow_apply_sound.
  pose proof (Workflow.workflow_wf_shape w Hwf) as Hshape. clear Hwf. unfold past_approval, Workflow.origin.
  destruct w as [st md cc rt rc mx pf ib]; simpl in *.
  destruct Hshape as [(->&->&Hne)|[(s&->&->&Hs'&->)|(s&Hst&->&->&Hs')]];
    [destruct st; try done| |destruct Hst as [->| ->]];
    inversion Hs; subst; simpl in *; try done; intros Hp.
  all: try (by destruct_or?; destruct_and?).
  all: try (by split_and!; [done|done|left]).
  all: try (exfalso; subst next; clear -Hp; by repeat case_match).
  - split_and!; [done|done|right; by split_and!; eauto].
  - split_and!; [done|done|left; simplify_eq; match goal with x : Workflow.WorkflowState |- _ => destruct x end; done].
  - split_and!; [done|done|left; simplify_eq; match goal with x : Workflow.WorkflowState |- _ => destruct x end; done].
Qed.

(** What is on record for the approval of a candidate. *)
Definition passed_on_file (c : CandidateId) (e : EvidenceId) (d : Database) : Prop :=
  ∃ row json record, evidence d !! e = Some row ∧ evidence_candidate row = c ∧
    record_on_file e c json d ∧ json_decode json = Some record ∧
    (evidence_mandatory row = true → Evidence.status record = Evidence.Passed).
Definition approved_review (c : CandidateId) (digest : ContentDigest) (role : WorkflowRole)
    (d : Database) : Prop :=
  ∃ name row verdict, reviews d !! (c, name) = Some row ∧ json_decode (review_json row) = Some verdict ∧
    Review.role verdict = role ∧ Review.candidate_digest verdict = digest ∧
    Review.decision verdict = Review.Approved.

(** A stored verdict that approves the candidate as it was saved, valid for the
    requirements of a saved plan of the workflow and evidence on record for the
    candidate, whose mandatory records passed; in a full workflow with both
    independent reviews' approvals of the same content. *)
Definition approved (w : WorkflowId) (mode : option Workflow.WorkflowMode) (c : CandidateId)
    (d : Database) : Prop :=
  ∃ row verdict crow n prow plan ids,
    arbitrations d !! c = Some row ∧ arbitration_workflow row = w ∧
    json_encode verdict = Some (arbitration_json row) ∧ Arbiter.decision verdict = Arbiter.Approved ∧
    candidate_rows d !! c = Some crow ∧ Arbiter.candidate_digest verdict = manifest_digest crow ∧
    versions d !! (w, n) = Some prow ∧ json_decode (plan_json prow) = Some plan ∧
    Arbiter.verdict_validate verdict (plan_requirements plan) ids = Ok tt ∧
    (∀ e, e ∈ ids → passed_on_file c e d) ∧
    (mode = Some Workflow.Full → ∀ role, is_Some (role_name role) →
       approved_review c (manifest_digest crow) role d).

Lemma passed_on_file_grows c e d d' : grows d d' → passed_on_file c e d → passed_on_file c e d'.
Proof.
  intros Hg (row&json&record&Hrow&Hc&(r&crow&?&?&?&Hcrow&?)&?&?).
  destruct (gr_documents _ _ Hg) as (_&_&_&_&Hev&_).
  exists row, json, record. split_and!; try done; [by eapply lookup_weaken|].
  exists r, crow. split_and!; try done. by eapply lookup_weaken, gr_candidates.
Qed.
Lemma approved_review_grows c dg role d d' :
  grows d d' → approved_review c dg role d → approved_review c dg role d'.
Proof.
  intros Hg (name&row&v&Hrow&?&?&?&?). destruct (gr_documents _ _ Hg) as (_&_&_&_&_&_&Hr&_).
  exists name, row, v. split_and!; try done. by eapply lookup_weaken.
Qed.
Lemma approved_grows w m c d d' : grows d d' → approved w m c d → approved w m c d'.
Proof.
  intros Hg (row&v&crow&n&prow&plan&ids&Hrow&?&?&?&Hcrow&?&Hprow&?&?&Hids&Hreviews).
  destruct (gr_documents _ _ Hg) as (_&_&Hv&_&_&_&_&Ha).
  exists row, v, crow, n, prow, plan, ids. split_and!; try done; try by eapply lookup_weaken.
  - by eapply lookup_weaken, gr_candidates.
  - intros e He. by eapply passed_on_file_grows, Hids.
  - intros Hm role Hrole. by eapply approved_review_grows, Hreviews.
Qed.

(** Every workflow past its approval has one on record. *)
Record delivers_approved (s : Store) : Prop := {
  da_ok : database_ok (database s);
  da_wf id w : load_workflow id s = Ok (Some w) → Workflow.workflow_wf w;
  da_approved id w : load_workflow id s = Ok (Some w) → past_approval w = true →
    ∃ c, Workflow.current_candidate w = Some c ∧ approved id (Workflow.mode w) c (database s);
}.

Lemma call_delivers_approved (c : StoreCall Value) s :
  call_ok c →
  (∀ id key gates t w cand, c = ApplyWorkflow id key (Workflow.Approve gates) t →
     load_workflow id s = Ok (Some w) → Workflow.state w = Workflow.Arbitration →
     Workflow.current_candidate w = Some cand → approved id (Workflow.mode w) cand (database s)) →
  delivers_approved s → delivers_approved (run_call c s).
Proof.
  intros Hc Happrove [Hok Hwf Happroved]. destruct (run_call_kept faithful c s Hc Hok) as [Hok' Hg].
  assert (∀ id w, load_workflow id (run_call c s) = Ok (Some w) →
    Workflow.workflow_wf w ∧ (past_approval w = true →
      ∃ cand, Workflow.current_candidate w = Some cand ∧ approved id (Workflow.mode w) cand (database s)))
    as Hall.
  { intros id w' Hload. destruct (call_steps_workflow c s id) as [Heq|(cmd&w&w''&es&Hcmd&Hw&Hstep&Hload')].
    { rewrite Heq in Hload. split; [by eapply Hwf|by eapply Happroved]. }
    rewrite Hload in Hload'. injection Hload' as <-.
    assert (Workflow.workflow_wf w) as Hww.
    { destruct Hw as [Hw|[_ ->]]; [by eapply Hwf|by apply Workflow.workflow_new_wf]. }
    split; [by eapply Workflow.workflow_step_wf, Workflow.workflow_apply_sound|]. intros Hpast.
    destruct (step_past_approval _ _ _ _ Hww Hstep Hpast) as (->&->&[Hbefore|([gates ->]&Hstate&[cand Hcand])]).
    - destruct Hw as [Hw|[_ ->]]; [by eapply Happroved|done].
    - exists cand. split; [done|]. destruct Hcmd as [?|(key&t&->)]; [done|].
      destruct Hw as [Hw|[_ ->]]; [by eapply Happrove|done]. }
  split; [done|intros id w Hload; by eapply Hall|].
  intros id w Hload Hpast. destruct (Hall id w Hload) as [_ Hp].
  destruct (Hp Hpast) as (cand&Hcand&Ha). exists cand. split; [done|by eapply approved_grows].
Qed.

(** * What a first verdict is checked against *)

Ltac inv_daemon :=
  repeat (first
    [ inv_step
    | match goal with
      | T : look _ _ = (_, Ok _) |- _ => apply look_ok in T as [? T]
      | T : present _ _ _ = (_, Ok _) |- _ => apply present_ok in T as [? T]
      | T : certain _ _ = (_, Ok _) |- _ => apply certain_ok in T as [? T]
      | T : refuse_if _ _ _ = (_, Ok _) |- _ => apply refuse_if_ok in T as [? T]
      end ]; subst; cbv beta zeta in * ).

Lemma current_workflow_of_ok w d d' state :
  current_workflow_of w d = (d', Ok state) → d' = d ∧ load_workflow w (store d) = Ok (Some state).
Proof. unfold current_workflow_of. intros. inv_daemon. done. Qed.

Lemma arbitration_receipt_ok w c v d d' m r :
  arbitration_receipt w c v d = (d', Ok (m, r)) → ∃ state plan candidate records verdicts f g ok,
  let s := store d in
  load_workflow w s = Ok (Some state) ∧ Workflow.state state = Workflow.Arbitration ∧
  Workflow.current_candidate state = Some c ∧ load_architecture w s = Ok (Some plan) ∧
  load_candidate c s = Ok (Some candidate) ∧
  Candidate.candidate_digest (stored_manifest candidate) = Some (Arbiter.candidate_digest v) ∧
  load_candidate_evidence c s = Ok records ∧
  Arbiter.verdict_validate v (plan_requirements plan) (list_to_set ((λ r, Evidence.id r.1.1) <$> records))
    = Ok tt ∧
  load_reviews c s = Ok verdicts ∧
  reviews_for (Workflow.mode state) (Arbiter.candidate_digest v) verdicts = Ok (f, g, ok) ∧
  (Arbiter.decision v = Arbiter.Approved → ok = true ∧ mandatory_unpassed records = false).
Proof.
  unfold arbitration_receipt. intros Hrun.
  apply method_bind_ok in Hrun as (d1&state&[-> Hstate]%current_workflow_of_ok&Hrun).
  inv_daemon. do 2 case_match. inv_daemon. simplify_eq.
  repeat match goal with
    | T : _ || _ = false |- _ => apply orb_false_iff in T as [? ?]
    | u : () |- _ => destruct u
    end. unfold Workflow.state_is in *. to_prop. subst.
  do 8 eexists. split_and!; try done.
  intros Hd. match goal with T : bool_decide _ && _ = false |- _ => revert T end.
  rewrite bool_decide_true by done. simpl. by destruct b, (mandatory_unpassed _).
Qed.

(** * An approval is on record before it is acted on *)

Lemma load_architecture_version w s plan :
  plans_ok (database s) → load_architecture w s = Ok (Some plan) →
  ∃ n prow, versions (database s) !! (w, n) = Some prow ∧ json_decode (plan_json prow) = Some plan.
Proof.
  intros Hok Hload. unfold load_architecture in Hload.
  destruct (plans (database s) !! w) as [row|] eqn:Hrow; [|done].
  apply result_bind_ok in Hload as (p&Hdec%decode_ok&[= <-]).
  apply (po_current _ Hok) in Hrow. pose proof (last_row_spec w (versions (database s))) as Hlast.
  destruct (last_row w (versions (database s))) as [[n r]|]; [|done]. injection Hrow as ->.
  destruct Hlast as [Hn _]. by exists n, row.
Qed.

Lemma review_of_elem role verdicts v :
  review_of role verdicts = Some v → v ∈ verdicts ∧ Review.role v = role.
Proof.
  unfold review_of. intros [Hin Hrole]%List.find_some. apply bool_decide_eq_true in Hrole.
  split; [by apply list_elem_of_In|done].
Qed.

(** In a full workflow both reviews approve the candidate's content. *)
Lemma full_reviews_approve digest verdicts f g role c s :
  reviews_for (Some Workflow.Full) digest verdicts = Ok (f, g, true) →
  load_reviews c s = Ok verdicts → is_Some (role_name role) →
  approved_review c digest role (database s).
Proof.
  unfold reviews_for. intros Hr Hload Hrole.
  apply result_bind_ok in Hr as ([]&[_ Hdigests]%reject_if_ok%orb_false_iff&Hr).
  apply result_bind_ok in Hr as (functional&Hf%ok_or_ok%review_of_elem&Hr).
  apply result_bind_ok in Hr as (security&Hs%ok_or_ok%review_of_elem&Hr).
  apply result_bind_ok in Hr as (fd&_&Hr). apply result_bind_ok in Hr as (sd&_&[= _ _ Happrove]).
  apply andb_true_iff in Happrove as [Haf Has].
  assert (∀ v, v ∈ verdicts → approves v = true → Review.role v = role →
    approved_review c digest role (database s)) as Hon.
  { intros v Hv Ha Hvr. destruct (Guarantees.load_reviews_elem _ _ _ _ Hload Hv) as (name&row&Hrow&Hdec).
    exists name, row, v. split_and!; try done; [|unfold approves in Ha; by destruct (Review.decision v)].

    destruct (decide (Review.candidate_digest v = digest)); [done|exfalso].
    assert (existsb (λ r, negb (bool_decide (Review.candidate_digest r = digest))) verdicts = true); [|congruence].
    apply existsb_exists. exists v. split; [by apply list_elem_of_In|by rewrite bool_decide_false]. }
  destruct role; try (by destruct Hrole); destruct Hf, Hs; eauto.
Qed.

Lemma passed_evidence c s records e :
  database_ok (database s) → load_candidate_evidence c s = Ok records →
  mandatory_unpassed records = false → e ∈ (λ r, Evidence.id r.1.1) <$> records →
  passed_on_file c e (database s).
Proof.
  intros Hok Hload Hpassed ([[r output] mandatory]&->&Hin)%list_elem_of_fmap. simpl.
  destruct (load_candidate_evidence_ok _ _ _ _ _ _ (db_evidence _ Hok) Hload Hin)
    as (row&json&Hrow&?&?&?&->).
  exists row, json, r. split_and!; try done. intros Hm.
  destruct (decide (Evidence.status r = Evidence.Passed)); [done|exfalso].
  assert (mandatory_unpassed records = true); [|congruence].
  apply existsb_exists. exists (r, output, evidence_mandatory row).
  split; [by apply list_elem_of_In|]. rewrite Hm. by rewrite bool_decide_false.
Qed.

(** A verdict that went through its checks and was saved is an approval on record. *)
Lemma saved_approval_on_record w c v d d' m r b s' :
  database_ok (database (store d)) →
  arbitration_receipt w c v d = (d', Ok (m, r)) → Arbiter.decision v = Arbiter.Approved →
  save_arbitration_once w c v r (Receipt.finalized_at r) (store d) = (s', Ok b) →
  ∃ state, load_workflow w s' = Ok (Some state) ∧ Workflow.current_candidate state = Some c ∧
    approved w (Workflow.mode state) c (database s').
Proof.
  intros Hok Hchecked Hdecision Hsaved.
  apply arbitration_receipt_ok in Hchecked
    as (state&plan&candidate&records&verdicts&f&g&ok&Hw&_&Hc&Hplan&Hcand&Hdigest&Hev&Hvalid&Hrev&Hfor&Hgo).
  destruct (Hgo Hdecision) as [-> Hpassed].
  destruct (load_architecture_version _ _ _ (db_plans _ Hok) Hplan) as (n&prow&Hprow&Hdec).
  destruct (load_candidate_row _ _ _ (db_candidates _ Hok) Hcand) as (crow&Hcrow&_&Hcd).
  rewrite Hdigest in Hcd. injection Hcd as Hcd.
  apply save_arbitration_once_ok in Hsaved as (_&_&_&_&_&row&Hrw&Hjson&_&_&Hsaved).
  assert (approved w (Workflow.mode state) c (database s') ∧ load_workflow w s' = Ok (Some state)) as [??];
    [|by exists state].
  assert (workflows (workflow_tables (database s')) = workflows (workflow_tables (database (store d))) ∧
    candidate_rows (database s') = candidate_rows (database (store d)) ∧
    versions (database s') = versions (database (store d)) ∧
    evidence (database s') = evidence (database (store d)) ∧
    reviews (database s') = reviews (database (store d)) ∧
    arbitrations (database s') !! c = Some row) as (Ewf&Ec&Ev&Ee&Er&Ha).
  { destruct b; [destruct Hsaved as [-> ?]; by split_and!|].
    destruct Hsaved as (_&_&_&->). simpl. split_and!; try done. apply lookup_insert_eq. }
  split; [|unfold load_workflow; by rewrite Ewf].
  exists row, v, crow, n, prow, plan, (list_to_set ((λ r, Evidence.id r.1.1) <$> records)).
  rewrite Ec, Ev. split_and!; try done.
  - intros e He%elem_of_list_to_set.
    destruct (passed_evidence _ _ _ _ Hok Hev Hpassed He) as (erow&json&record&?&?&(r'&cr&?&?&?&?&?)&?&?).
    exists erow, json, record. rewrite Ee. split_and!; try done. exists r', cr. by rewrite Ec.
  - intros Hfull role Hrole. rewrite Hfull in Hfor. rewrite <-Hcd.
    destruct (full_reviews_approve _ _ _ _ _ _ _ Hfor Hrev Hrole) as (name&rrow&rv&?&?&?&?&?).
    exists name, rrow, rv. by rewrite Er.
Qed.

Lemma saved_arbitration_call w c v r t s s' b :
  save_arbitration_once w c v r t s = (s', Ok b) →
  s' = run_call (SaveArbitration w c v r t : StoreCall Value) s.
Proof. intros Hsaved. unfold run_call. simpl. by rewrite void_state, Hsaved. Qed.

Lemma store_new_delivers_approved limit : delivers_approved (store_new limit).
Proof. split; [apply empty_database_ok| |]; intros id w Hload; by apply (inj Ok) in Hload. Qed.

#[local] Instance kept_by_calls_preorder (P : Store → Prop) : PreOrder (λ s s', P s → P s').
Proof. split; [by intros s|]. intros s1 s2 s3. naive_solver. Qed.

Lemma serve_all_delivers_approved requests d :
  Forall request_ok requests → delivers_approved (store d) →
  delivers_approved (store (serve_all requests d)).
Proof.
  intros Hok. apply (serve_all_within verdict_text feedback_text checkpoint_key
    (λ s s', delivers_approved s → delivers_approved s')); [| | |done].
  - intros c s [Hc Hordinary]. apply call_delivers_approved; [done|].
    by intros id key gates t w cand ->.
  - intros w c cause t. apply (repair_route_within (λ s s', delivers_approved s → delivers_approved s')).
    intros key command s Hne.
    apply call_delivers_approved; [done|]. intros id key' gates t' w' cand [= _ _ Heq _]. by destruct (Hne gates).
  - intros w c v Hdecision d1 d' manifest receipt b s' Hchecked _ Hsaved key t Hd1.
    assert (delivers_approved s') as Hd'.
    { rewrite (saved_arbitration_call _ _ _ _ _ _ _ _ Hsaved). apply call_delivers_approved; [done| |done].
      by intros. }
    apply call_delivers_approved; [done| |done].
    intros id key' gates t' w' cand [= <- _ _ _] Hload _ Hcand.
    destruct (saved_approval_on_record _ _ _ _ _ _ _ _ _ (da_ok _ Hd1) Hchecked Hdecision Hsaved)
      as (state&Hstate&Hc&Happroved).
    rewrite Hstate in Hload. injection Hload as <-. rewrite Hc in Hcand. by injection Hcand as <-.
Qed.

(** C2. Work is delivered only once it was approved: whatever requests the daemon
    served, in any order, with calls of the store failing or the process ending
    between them, a workflow that is delivering or delivered, or was interrupted
    while delivering, has on record an approval of its candidate as it was saved:
    a verdict that answers every requirement of a saved plan from evidence on
    record for that candidate, none of whose mandatory records had failed, and in
    a full workflow the approvals of both reviewers of the same content. *)
Theorem delivered_work_was_approved requests limit id w :
  Forall request_ok requests →
  let s := store (serve_all requests (daemon_new limit)) in
  load_workflow id s = Ok (Some w) → past_approval w = true →
  ∃ c, Workflow.current_candidate w = Some c ∧ approved id (Workflow.mode w) c (database s).
Proof.
  intros Hok s. apply da_approved. apply serve_all_delivers_approved; [done|].
  apply store_new_delivers_approved.
Qed.

(** * A repair that is waited for *)

(** A workflow that waits for its repair to begin, or waited until it was
    cancelled. *)
Definition awaits_repair (w : Workflow.Workflow) : Prop :=
  Workflow.origin w = Workflow.Repair ∨ Workflow.state w = Workflow.Cancelled.

Lemma step_awaits_repair c w w' es :
  Workflow.workflow_apply c w = (w', Ok es) → c ≠ Workflow.BeginRepair →
  awaits_repair w → awaits_repair w'.
Proof.
  intros Hs%Workflow.workflow_apply_sound Hne. unfold awaits_repair, Workflow.origin.
  destruct w as [st md cc rt rc mx pf ib]; simpl in *.
  intros [Ho| ->].
  - destruct st; try done; simpl in Ho.
    all: inversion Hs; subst; simpl in *; try done; try by destruct_or?; destruct_and?.
    all: try by left.
    all: try by right.
    all: simplify_eq/=; by left.
  - inversion Hs; subst; simpl in *; try done; by destruct_or?; destruct_and?.
Qed.

Definition waiting (id : WorkflowId) (s : Store) : Prop :=
  ∃ w, load_workflow id s = Ok (Some w) ∧ awaits_repair w.

Lemma call_keeps_waiting id (c : StoreCall Value) s :
  (∀ key t, c ≠ ApplyWorkflow id key Workflow.BeginRepair t) → waiting id s → waiting id (run_call c s).
Proof.
  intros Hne (w&Hload&Hw).
  destruct (call_steps_workflow c s id) as [Heq|(cmd&w0&w'&es&Hcmd&Hw0&Hstep&Hload')].
  { exists w. by rewrite Heq. }
  exists w'. split; [done|]. destruct Hw0 as [Hw0|[Hw0 _]]; [|congruence].
  assert (w0 = w) as -> by congruence.
  eapply step_awaits_repair; [exact Hstep| |done].
  intros ->. destruct Hcmd as [?|(key&t&->)]; [done|by eapply Hne].
Qed.

Lemma repair_keeps_waiting id w c cause t s :
  waiting id s → waiting id (repair_route w c cause t s).1.
Proof.
  destruct (decide (w = id)) as [->|Hne].
  2: { revert s. apply (repair_route_within (λ s s', waiting id s → waiting id s')).
       intros key command s _. apply call_keeps_waiting. by intros key' t' [= ? _ _ _]. }
  intros Hwait. pose proof Hwait as (w&Hload&Hw). unfold repair_route.
  unfold mbind at 1, method_bind at 1. unfold reading, m_get. simpl. rewrite Hload. simpl.
  unfold mbind at 1, method_bind at 1, m_lift at 1. cbv beta iota.
  case_bool_decide; simpl; [|done]. destruct (repair_target_of cause) as [target|].
  - assert (match Workflow.state w with
      | Workflow.Verification => Ok (Workflow.VerificationRejected target)
      | Workflow.Arbitration => Ok (Workflow.Reject target)
      | _ => Err (Transition Workflow.InvalidTransition)
      end = Err (Transition Workflow.InvalidTransition)) as Herr.
    { destruct Hw as [Ho| ->]; [|done]. unfold Workflow.origin in Ho. by destruct (Workflow.state w). }
    unfold mbind, method_bind, m_lift. by rewrite Herr.
  - match goal with |- waiting _ (?m s).1 => assert (preserves (λ s s', waiting id s → waiting id s') m) as Hm; [|by apply Hm] end.
    apply preserves_bind; [typeclasses eauto| |intros ?; apply preserves_ret; typeclasses eauto].
    intros s0 Hs0.
    pose proof (call_keeps_waiting id (ApplyWorkflow id (candidate_key id c "infrastructure-retry")
      Workflow.RetryInfrastructure t) s0) as Hcall.
    unfold run_call in Hcall. simpl in Hcall. rewrite void_state in Hcall. by apply Hcall.
Qed.

(** C18. A workflow that is left waiting for its repair never works again: whatever
    requests the daemon serves from then on, it stays there, paused or blocked in
    between, unless it is cancelled. Only a rejection begins the repair of its
    own, in the same request; an exhausted budget that a retry extends leaves the
    workflow waiting, and so does a rejection that is cut short. *)
Theorem awaited_repair_never_begins requests d id w :
  Forall request_ok requests →
  load_workflow id (store d) = Ok (Some w) → Workflow.origin w = Workflow.Repair →
  ∃ w', load_workflow id (store (serve_all requests d)) = Ok (Some w') ∧ awaits_repair w'.
Proof.
  intros Hok Hload Hw.
  apply (serve_all_within verdict_text feedback_text checkpoint_key
    (λ s s', waiting id s → waiting id s')); [| | |done|by exists w; split; [|left]].
  - intros c s [_ Hc]. apply call_keeps_waiting. by intros key t ->.
  - intros. by apply repair_keeps_waiting.
  - intros w1 c v _ d1 d' manifest receipt b s' _ _ Hsaved key t Hwait.
    apply call_keeps_waiting; [done|]. rewrite (saved_arbitration_call _ _ _ _ _ _ _ _ Hsaved).
    by apply call_keeps_waiting.
Qed.

(** * A verdict that is recorded but not acted on *)

(** A workflow that waits for the verdict on its candidate, or waited until it was
    cancelled, and whose verdict is on record already. *)
Definition awaits_verdict (c : CandidateId) (w : Workflow.Workflow) : Prop :=
  (Workflow.origin w = Workflow.Arbitration ∨ Workflow.state w = Workflow.Cancelled) ∧
  Workflow.current_candidate w = Some c.
Definition judged (id : WorkflowId) (c : CandidateId) (s : Store) : Prop :=
  database_ok (database s) ∧ is_Some (arbitrations (database s) !! c) ∧
  ∃ w, load_workflow id s = Ok (Some w) ∧ awaits_verdict c w.

Definition judges (c : Workflow.WorkflowCommand) : Prop :=
  match c with Workflow.Approve _ | Workflow.Reject _ => True | _ => False end.

Lemma step_awaits_verdict c command w w' es :
  Workflow.workflow_apply command w = (w', Ok es) → ¬ judges command →
  awaits_verdict c w → awaits_verdict c w'.
Proof.
  intros Hs%Workflow.workflow_apply_sound Hne. unfold awaits_verdict, Workflow.origin.
  destruct w as [st md cc rt rc mx pf ib]; simpl in *.
  intros [[Ho| ->] ->].
  - destruct st; try done; simpl in Ho.
    all: inversion Hs; subst; simpl in *; try done; try by destruct_or?; destruct_and?; subst; simpl in Hne.
    all: try by split; [left|].
    all: try by split; [right|].
    all: simplify_eq/=; by split; [left|].
  - inversion Hs; subst; simpl in *; try done; by destruct_or?; destruct_and?.
Qed.

Lemma call_keeps_judged id cand (c : StoreCall Value) s :
  call_ok c → (∀ key command t, c = ApplyWorkflow id key command t → ¬ judges command) →
  judged id cand s → judged id cand (run_call c s).
Proof.
  intros Hc Hne (Hok&[row Hrow]&w&Hload&Hw). destruct (run_call_kept faithful c s Hc Hok) as [Hok' Hg].
  split; [done|]. split.
  { destruct (gr_documents _ _ Hg) as (_&_&_&_&_&_&_&Ha). exists row. by eapply lookup_weaken. }
  destruct (call_steps_workflow c s id) as [Heq|(cmd&w0&w'&es&Hcmd&Hw0&Hstep&Hload')].
  { exists w. by rewrite Heq. }
  exists w'. split; [done|]. destruct Hw0 as [Hw0|[Hw0 _]]; [|congruence].
  assert (w0 = w) as -> by congruence.
  eapply step_awaits_verdict; [exact Hstep| |done].
  destruct Hcmd as [->|(key&t&->)]; [by intros []|by eapply Hne].
Qed.

Lemma load_arbitration_none c s : load_arbitration c s = Ok None → arbitrations (database s) !! c = None.
Proof.
  unfold load_arbitration. destruct (arbitrations (database s) !! c) as [row|]; [|done].
  intros (v&_&(r&_&[=])%result_bind_ok)%result_bind_ok.
Qed.

Lemma awaits_verdict_not c w s :
  awaits_verdict c w → Workflow.state w = s → s ≠ Workflow.Verification.
Proof.
  intros [[Ho|Hs] _] <-; [|congruence]. unfold Workflow.origin in Ho. by destruct (Workflow.state w).
Qed.

Lemma verify_candidate_begin_ok r d d' inputs :
  verify_candidate_begin r d = (d', Ok inputs) →
  ∃ w, load_workflow (verify_workflow_id r) (store d) = Ok (Some w) ∧
    Workflow.state w = Workflow.Verification ∧
    Workflow.current_candidate w = Some (verify_candidate_id r).
Proof.
  unfold verify_candidate_begin. intros Hrun.
  apply method_bind_ok in Hrun as (d1&u&Hproject&Hrun).
  pose proof (validate_project_reads (from_stable_key (verify_project_key r)) (verify_workflow_id r) d) as Hd1.
  rewrite Hproject in Hd1. unfold same in Hd1. simpl in Hd1.
  apply method_bind_ok in Hrun as (d2&w&[-> Hw]%current_workflow_of_ok&Hrun).
  apply method_bind_ok in Hrun as (d3&?&[_ Hr]%refuse_if_ok&_). rewrite Hd1 in Hw.
  apply orb_false_iff in Hr as [Hs Hc]. unfold Workflow.state_is in Hs. to_prop. by exists w.
Qed.

(** The verifications of a workflow that let others come before their end. *)
Definition verifies_late (id : WorkflowId) (r : DaemonRequest) : Prop :=
  match r with VerifyEnds r _ _ => verify_workflow_id r = id | _ => False end.

Lemma other_repairs_keep_judged id cand w :
  w ≠ id → repairs_within (λ s s', judged id cand s → judged id cand s') w.
Proof.
  intros Hne c cause t. apply (repair_route_within (λ s s', judged id cand s → judged id cand s')).
  intros key command s _. apply call_keeps_judged; [done|]. by intros key' command' t' [= ? _ _ _].
Qed.

Lemma served_keeps_judged id cand r d :
  request_ok r → ¬ verifies_late id r → judged id cand (store d) →
  judged id cand (store (served verdict_text feedback_text checkpoint_key r d)).
Proof.
  intros Hok Hlate. set (R := λ s s', judged id cand s → judged id cand s').
  assert (∀ c s, ordinary c → R s (run_call c s)) as Hordinary.
  { intros c s [Hc Ho]. unfold R. apply call_keeps_judged; [done|]. intros key command t ->. by destruct command; simpl in *; try done; intros []. }
  apply (request_within verdict_text feedback_text checkpoint_key R Hordinary r Hok).
  destruct r as [| | | | | | | |r run|r inputs ran| |k w c v| | |]; simpl in *; try done.
  - intros inputs ran d1 d2 Hbegin Hj.
    pose proof (reaches_within R Hordinary _ (verify_candidate_begin_reaches r) d1) as Hb.
    rewrite Hbegin in Hb. specialize (Hb Hj). simpl in Hb. revert Hb.
    apply (verify_candidate_finish_within checkpoint_key R Hordinary). apply other_repairs_keep_judged.
    intros Heq. apply verify_candidate_begin_ok in Hbegin as (w&Hw&Hs&_). rewrite Heq in Hw.
    destruct Hj as (_&_&w'&Hw'&Hawaits). rewrite Hw in Hw'. injection Hw' as <-.
    by apply (awaits_verdict_not _ _ _ Hawaits Hs).
  - by apply other_repairs_keep_judged.
  - destruct (decide (w = id)) as [->|Hne].
    + intros d1 d2 m receipt b s' Hchecked Hnone _ t n Hj. exfalso.
      destruct Hj as (_&Hrow&w'&Hw'&_&Hc).
      apply arbitration_receipt_ok in Hchecked as (state&?&?&?&?&?&?&?&Hstate&_&Hcand&_).
      rewrite Hstate in Hw'. injection Hw' as <-. assert (c = cand) as -> by congruence.
      apply load_arbitration_none in Hnone. by rewrite Hnone in Hrow; destruct Hrow.
    + apply (advance_within R Hordinary); [by apply other_repairs_keep_judged|].
      intros _ d1 d2 m receipt b s' _ _ Hsaved key t Hj.
      apply call_keeps_judged; [done|by intros key' command' t' [= ? _ _ _]|].
      rewrite (saved_arbitration_call _ _ _ _ _ _ _ _ Hsaved). apply call_keeps_judged; [done|by intros|done].
Qed.

(** C19. A verdict that was recorded but whose command was lost, because the
    process ended between the two or the second call failed, holds its workflow
    up for good: with the verdict of its candidate on record, a workflow in
    arbitration stays there through any requests, paused or blocked in between,
    unless it is cancelled; submitting the verdict again only answers that it is
    recorded. Only the late end of a verification could still reject it. *)
Theorem recorded_verdict_is_not_acted_on before after limit id c w row :
  Forall request_ok (before ++ after) → Forall (λ r, ¬ verifies_late id r) after →
  let s := store (serve_all before (daemon_new limit)) in
  load_workflow id s = Ok (Some w) → Workflow.state w = Workflow.Arbitration →
  Workflow.current_candidate w = Some c → arbitrations (database s) !! c = Some row →
  ∃ w', load_workflow id (store (serve_all after (serve_all before (daemon_new limit)))) = Ok (Some w') ∧
    awaits_verdict c w'.
Proof.
  intros [Hbefore Hafter]%Forall_app Hlate s Hload Hstate Hc Hrow.
  assert (judged id c s) as Hj.
  { split; [|split; [by eexists|exists w; split; [done|split; [left|done]]]].
    - apply da_ok, serve_all_delivers_approved; [done|apply store_new_delivers_approved].
    - unfold Workflow.origin. by rewrite Hstate. }
  clear -faithful Hafter Hlate Hj. unfold s in Hj. revert Hj.
  generalize (serve_all before (daemon_new limit)). intros d Hj.
  assert (judged id c (store (serve_all after d))) as (_&_&Hw); [|exact Hw].
  revert d Hj. induction after as [|r after IH]; intros d Hj; [done|].
  apply Forall_cons in Hafter as [Hr Hafter]. apply Forall_cons in Hlate as [Hl Hlate].
  apply (IH Hafter Hlate). by apply served_keeps_judged.
Qed.
End daemon.
End DaemonSafety.
