(* ===== verification/DaemonSample.v ===== *)
(** A daemon in use, for the examples of the daemon's theorems: encodings of all
    that its store writes and requests from a task's start to its delivery. *)
From stdpp Require Import pretty.
From Stdlib Require Import Ascii String.
From S2P Require Import Prelude Text Ids Paths Canonical WorkflowMachine TaskMachine Requests Goals.
From S2P Require Import Dag Verdicts Candidates Plans Routing Redaction Ledger History Policy Admission.
From S2P Require Import Database StoreCommands StoreLeases StoreCandidates StoreDocuments StoreLedger StoreGoals.
From S2P Require Import StoreRun StoreSample FileSystem Freeze VerificationPlans VerificationRuns.
From S2P Require Import Services Lifecycle Controls DaemonRuns DaemonCalls DaemonSafety.

Module DaemonSample.
Export DaemonSafety DaemonCalls.
Import LedgerStore GoalStore.
Import (hints) Routing Workflow Evidence Review Arbiter Sample.

(** * Encodings *)

Abbreviation code_of := countable.encode.
Abbreviation of_code := countable.decode.

(** The bits of a number as text. *)
Fixpoint bits_text (p : positive) : string :=
  match p with
  | xH => ""
  | xO p => String "0" (bits_text p)
  | xI p => String "1" (bits_text p)
  end.
Fixpoint text_bits (s : string) : positive :=
  match s with
  | EmptyString => xH
  | String a s => if ascii_dec a "0" then xO (text_bits s) else xI (text_bits s)
  end.
Lemma text_bits_text p : text_bits (bits_text p) = p.
Proof. induction p; simpl; congruence. Qed.

(** A countable type is written as the text of its code. *)
Definition countable_persist {A} `{Countable A} : Persist A := {|
  json_encode a := Some (bits_text (code_of a));
  json_decode s := of_code (text_bits s);
|}.
Lemma countable_persist_faithful {A} `{Countable A} : @json_faithful A countable_persist.
Proof. intros a s [= <-]. simpl. by rewrite text_bits_text, decode_encode. Qed.

Definition data_code (d : Event.EventData) : list positive :=
  match d with
  | Event.WorkflowData action => [1%positive; code_of action]
  | Event.ToolData digest tool => [2%positive; code_of digest; code_of tool]
  | Event.PermissionData decision permission => [3%positive; code_of decision; code_of permission]
  | Event.GitData external revision => [4%positive; code_of external; code_of revision]
  | Event.VerificationData gate status => [5%positive; code_of gate; code_of status]
  end.
Definition data_of_code (l : list positive) : option Event.EventData :=
  match l with
  | [1%positive; action] => Event.WorkflowData <$> of_code action
  | [2%positive; digest; tool] => d ← of_code digest; t ← of_code tool; Some (Event.ToolData d t)
  | [3%positive; decision; permission] =>
      d ← of_code decision; p ← of_code permission; Some (Event.PermissionData d p)
  | [4%positive; external; revision] =>
      e ← of_code external; r ← of_code revision; Some (Event.GitData e r)
  | [5%positive; gate; status] => g ← of_code gate; s ← of_code status; Some (Event.VerificationData g s)
  | _ => None
  end.
#[local] Instance EventData_countable : Countable Event.EventData.
Proof. refine (inj_countable data_code data_of_code _). intros []; unfold data_code, data_of_code; by rewrite !decode_encode. Defined.

#[local] Instance ModelIdentity_countable : Countable Event.ModelIdentity.
Proof.
  refine (inj_countable' (λ m, (Event.model_name m, Event.provider m))
    (λ p, {| Event.model_name := p.1; Event.provider := p.2 |}) _). by intros [].
Defined.
#[local] Instance Actor_countable : Countable Event.Actor.
Proof.
  refine (inj_countable' (λ a, (Event.actor_id a, Event.actor_model a, Event.actor_role a, Event.session_id a))
    (λ p, {| Event.actor_id := p.1.1.1; Event.actor_model := p.1.1.2; Event.actor_role := p.1.2;
             Event.session_id := p.2 |}) _). by intros [].
Defined.

Definition event_code (e : Event.LedgerEvent) : list positive :=
  [code_of (Event.actor e); code_of (Event.candidate_id e); code_of (Event.data e);
   code_of (Event.event_id e); code_of (Event.evidence_ids e); code_of (Event.files e);
   code_of (Event.metadata e); code_of (Event.project_id e); code_of (Event.task_id e);
   code_of (Event.timestamp e); code_of (Event.workflow_id e)].
Definition event_of_code (l : list positive) : option Event.LedgerEvent :=
  match l with
  | [a; c; d; i; es; fs; m; p; t; s; w] =>
      actor ← of_code a; candidate ← of_code c; data ← of_code d; id ← of_code i;
      evidence ← of_code es; files ← of_code fs; metadata ← of_code m; project ← of_code p;
      task ← of_code t; timestamp ← of_code s; workflow ← of_code w;
      Some {| Event.actor := actor; Event.candidate_id := candidate; Event.data := data;
              Event.event_id := id; Event.evidence_ids := evidence; Event.files := files;
              Event.metadata := metadata; Event.project_id := project; Event.task_id := task;
              Event.timestamp := timestamp; Event.workflow_id := workflow |}
  | _ => None
  end.
#[local] Instance LedgerEvent_countable : Countable Event.LedgerEvent.
Proof. refine (inj_countable event_code event_of_code _). intros []; unfold event_code, event_of_code; by rewrite !decode_encode. Defined.

Definition receipt_code (r : Receipt.ArbitrationReceipt) : list positive :=
  [code_of (Receipt.arbiter_verdict_digest r); code_of (Receipt.candidate_digest r);
   code_of (Receipt.candidate_id r); code_of (Receipt.evidence_ids r); code_of (Receipt.finalized_at r);
   code_of (Receipt.functional_review_digest r); code_of (Receipt.id r);
   code_of (Receipt.request_digest r); code_of (Receipt.security_review_digest r);
   code_of (Receipt.workflow_id r)].
Definition receipt_of_code (l : list positive) : option Receipt.ArbitrationReceipt :=
  match l with
  | [v; c; i; es; t; f; n; r; s; w] =>
      verdict ← of_code v; digest ← of_code c; candidate ← of_code i; evidence ← of_code es;
      finalized ← of_code t; functional ← of_code f; id ← of_code n; request ← of_code r;
      security ← of_code s; workflow ← of_code w;
      Some {| Receipt.arbiter_verdict_digest := verdict; Receipt.candidate_digest := digest;
              Receipt.candidate_id := candidate; Receipt.evidence_ids := evidence;
              Receipt.finalized_at := finalized; Receipt.functional_review_digest := functional;
              Receipt.id := id; Receipt.request_digest := request;
              Receipt.security_review_digest := security; Receipt.workflow_id := workflow |}
  | _ => None
  end.
#[local] Instance Checkpoint_eq_dec : EqDecision Checkpoint.Checkpoint.
Proof. solve_decision. Defined.
#[local] Instance Checkpoint_countable : Countable Checkpoint.Checkpoint.
Proof.
  refine (inj_countable' (λ c, (Checkpoint.head c, Checkpoint.public_key c, Checkpoint.sequence c,
      Checkpoint.signature c, Checkpoint.signed_at c))
    (λ p, {| Checkpoint.head := p.1.1.1.1; Checkpoint.public_key := p.1.1.1.2;
             Checkpoint.sequence := p.1.1.2; Checkpoint.signature := p.1.2;
             Checkpoint.signed_at := p.2 |}) _). by intros [].
Defined.
#[local] Instance Receipt_eq_dec : EqDecision Receipt.ArbitrationReceipt.
Proof. solve_decision. Defined.
#[local] Instance Receipt_countable : Countable Receipt.ArbitrationReceipt.
Proof. refine (inj_countable receipt_code receipt_of_code _). intros []; unfold receipt_code, receipt_of_code; by rewrite !decode_encode. Defined.

(** * A project *)

(** A clock that ticks, identifiers in a row, and a call that fails, if any. *)
Definition environment (failing : option nat) : Environment := {|
  now_at n := Z.of_nat (1000 + n);
  unix_millis_at n := Some (Z.of_nat n);
  fresh_at n := word_of 128 (1000 + N.of_nat n);
  valid_instant _ := true;
  gives_up_at n := bool_decide (failing = Some n);
  uuid_to_string id := pretty (word_val id);
|}.

#[local] Instance review_bytes : ToJson Review.ReviewVerdict := λ _, Some "review".
#[local] Instance policy_bytes : ToJson EssentialityPolicy := λ _, Some "policy".
#[local] Instance rationale_bytes : ToJson (gmap Routing.RiskCategory (list string)) := λ _, Some "{}".

Definition gate : VerificationPlan.VerificationGate :=
  {| VerificationPlan.executor := VerificationPlan.CandidateIntegrity;
     VerificationPlan.gate_id := Sample.evidence_id; VerificationPlan.gate_kind := Evidence.Inspection;
     VerificationPlan.mandatory := true; VerificationPlan.name := "make";
     VerificationPlan.precondition := "none"; VerificationPlan.risk := VerificationPlan.InternalInspection;
     VerificationPlan.timeout_seconds := 1 |}.
Definition gates : VerificationPlanT :=
  {| VerificationPlan.gates := [gate]; VerificationPlan.plan_id := Sample.verification |}.
#[local] Instance plan_value : JsonValue VerificationPlanT := {|
  to_value _ := Some (VerificationPlan.StringValue "gates");
  from_value _ := Some gates;
|}.
#[local] Instance policy_value : JsonValue EssentialityPolicy := {|
  to_value _ := Some (VerificationPlan.StringValue "policy");
  from_value _ := Some policy_default;
|}.
#[local] Instance value_persist : Persist Value | 0 := {|
  json_encode v := match v with VerificationPlan.StringValue s => Some s | _ => None end;
  json_decode s := Some (VerificationPlan.StringValue s);
|}.

Definition verdict (d : Arbiter.ArbiterDecision) : Arbiter.ArbiterVerdict :=
  {| Arbiter.decision := d; Arbiter.candidate_digest := Sample.content;
     Arbiter.requirements := [{| requirement_id := "REQ-1"; requirement_status := Satisfied;
                                 requirement_evidence := {[Sample.evidence_id]} |}];
     Arbiter.findings := []; Arbiter.repair_target := None |}.

(** The states of the examples: a quick run, and one that uses up its repairs. *)
Definition quick_commands : list Workflow.WorkflowCommand :=
  [Workflow.CompleteIntake; Workflow.Route Workflow.Quick; Workflow.CandidateReady Sample.candidate;
   Workflow.VerificationPassed; Workflow.Approve true; Workflow.Deliver].
Definition round : list Workflow.WorkflowCommand :=
  [Workflow.CandidateReady Sample.candidate; Workflow.VerificationRejected Workflow.RT_Execution;
   Workflow.BeginRepair].
Definition spent_commands : list Workflow.WorkflowCommand :=
  [Workflow.CompleteIntake; Workflow.Route Workflow.Quick] ++ round ++ round ++ round ++ round ++
  take 2 round.
Definition sample_answers : list (PersistedResult Workflow.WorkflowEvent Workflow.Workflow) :=
  Sample.answers Workflow.workflow_default quick_commands ++
  Sample.answers Workflow.workflow_default
    (spent_commands ++ [Workflow.ResumeBlocked 5; Workflow.RetryInfrastructure; Workflow.Pause;
                        Workflow.Resume]).

#[local] Instance workflow_persist : Persist Workflow.Workflow | 0 :=
  table_persist (persisted_state <$> sample_answers).
#[local] Instance workflow_result_persist :
  Persist (PersistedResult Workflow.WorkflowEvent Workflow.Workflow) | 0 := table_persist sample_answers.
#[local] Instance verdict_persist : Persist Arbiter.ArbiterVerdict | 0 :=
  table_persist [verdict Arbiter.Approved].
#[local] Instance receipt_persist : Persist Receipt.ArbitrationReceipt | 0 := countable_persist.
#[local] Instance checkpoint_persist : Persist Checkpoint.Checkpoint | 0 := countable_persist.
#[local] Instance event_persist : Persist Event.LedgerEvent | 0 := countable_persist.

Lemma sample_faithful : store_json_faithful.
Proof. split; first [apply table_persist_faithful|apply countable_persist_faithful]. Qed.

(** * Requests *)

Definition protocol (payload : ProtocolPayload) : DaemonRequest :=
  ProtocolRequest {| affected_paths := ["src/a.sh"]; ipc_approval := None; ipc_payload := payload;
    ipc_project_key := "project"; ipc_preference := Routing.PreferAuto;
    ipc_workflow := Some Sample.workflow |}.
Definition freeze_request : CandidateFreezeRequest :=
  {| freeze_base_revision := "main"; freeze_candidate_id := Sample.candidate;
     freeze_evidence_ids := [Sample.evidence_id]; freeze_plan_id := Sample.verification;
     freeze_project_key := "project"; freeze_workflow_id := Sample.workflow |}.
Definition frozen : Freeze.FrozenCandidate :=
  {| Freeze.exact_diff := Sample.diff; Freeze.exact_files := Sample.files;
     Freeze.manifest := Sample.manifest |}.
Definition verification_request : VerificationRequest :=
  {| verify_attestations := []; verify_candidate_id := Sample.candidate;
     verify_plan_id := Sample.verification; verify_project_key := "project";
     verify_workflow_id := Sample.workflow |}.
Definition run : VerificationRun.VerificationRun :=
  {| VerificationRun.infrastructure_blocked := false; VerificationRun.mandatory_passed := true;
     VerificationRun.outputs := {[Sample.evidence_id := "ok"]};
     VerificationRun.records := [Sample.record] |}.

(** A request is routed and planned, its candidate frozen and verified. *)
Definition worked : list DaemonRequest :=
  [protocol (RequestPayload Sample.request); protocol (ArchitecturePayload Sample.plan);
   PlanRequest "project" Sample.workflow Sample.verification (Ok gates);
   FreezeBegins freeze_request; FreezeEnds freeze_request (Ok frozen);
   VerifyRequest verification_request (λ _, Ok run)].
Definition approving : DaemonRequest :=
  ArbitrationRequest "project" Sample.workflow Sample.candidate (verdict Arbiter.Approved).
Definition control (operation : ControlOperation) (n : N) : DaemonRequest :=
  ControlRequest {| Policy.available_disk_bytes := None; Policy.available_memory_bytes := None;
                    Policy.cpu_usage_percent := None; Policy.owned_processes := None |}
    None "project" (Some Sample.workflow) operation (word_of 128 n).

Definition no_verdict_text (v : Arbiter.ArbiterVerdict) : option string := None.
Definition no_feedback_text (l : list (Evidence.EvidenceRecord * string * bool)) : option string := None.
Definition key : @Checkpoint.SigningKey Checkpoint.toy_ed25519 := word_of 256 7.

(** The daemon after requests, and whether one of them succeeds. *)
Definition after_requests (failing : option nat) (requests : list DaemonRequest) (d : Daemon) : Daemon :=
  let _ := environment failing in serve_all no_verdict_text no_feedback_text key requests d.
Definition succeeds (failing : option nat) (r : DaemonRequest) (d : Daemon) : bool :=
  let _ := environment failing in is_ok (serve no_verdict_text no_feedback_text key r d).2.
Fixpoint all_succeed (requests : list DaemonRequest) (d : Daemon) : bool :=
  match requests with
  | [] => true
  | r :: requests => succeeds None r d && all_succeed requests (after_requests None [r] d)
  end.
Definition stored (d : Daemon) : option Workflow.Workflow :=
  match load_workflow Sample.workflow (store d) with Ok (Some w) => Some w | _ => None end.
Definition spent : Store :=
  run_calls (SaveRequest Sample.workflow (from_stable_key "project") Sample.request 0%Z ::
    imap (λ n c, ApplyWorkflow Sample.workflow (pretty (N.of_nat n)) c (Z.of_nat n)) spent_commands
    : list (StoreCall Value)) (store_new 4).

(** The requests of a day: an approval whose command is lost, and those after it. *)
Definition afterwards : list DaemonRequest :=
  [approving; control Retry 1; control Pause 2; control Resume 3].
Definition overspent : Daemon := {| store := spent; ticks := 0 |}.
Definition extended : Daemon := after_requests None [control Retry 1] overspent.
Definition stored_state (d : Daemon) : option Workflow.WorkflowState := Workflow.state <$> stored d.

(** Every request of the quick run succeeds, and the approval starts the delivery. *)
Example worked_succeeds : all_succeed (worked ++ [approving]) (daemon_new 4) = true.
Proof. vm_compute. reflexivity. Qed.
Example worked_delivers :
  stored_state (after_requests None (worked ++ [approving]) (daemon_new 4)) = Some Workflow.Delivery.
Proof. vm_compute. reflexivity. Qed.

(** The retry of a spent budget leaves the workflow in front of its repair. *)
Example spent_is_blocked : stored_state overspent = Some Workflow.Blocked.
Proof. vm_compute. reflexivity. Qed.
Example retried_waits :
  (λ n, stored_state (after_requests None (take n [control Retry 1; control Retry 2; control Pause 3;
     control Resume 4]) overspent)) <$> seq 1 4 =
  [Some Workflow.Repair; Some Workflow.Repair; Some Workflow.Paused; Some Workflow.Repair].
Proof. vm_compute. reflexivity. Qed.

Lemma stored_loaded d (P : Workflow.Workflow → bool) :
  from_option P false (stored d) = true →
  ∃ w, load_workflow Sample.workflow (store d) = Ok (Some w) ∧ P w = true.
Proof.
  unfold stored. destruct (load_workflow _ _) as [[w|]|]; try done. intros HP. by exists w.
Qed.

Definition before_repair (w : Workflow.Workflow) : bool :=
  bool_decide (Workflow.origin w = Workflow.Repair).
Definition judged_already (d : Daemon) (w : Workflow.Workflow) : bool :=
  bool_decide (Workflow.state w = Workflow.Arbitration ∧
    Workflow.current_candidate w = Some Sample.candidate ∧
    is_Some (arbitrations (database (store d)) !! Sample.candidate)).

(** The call that the approval of a verdict makes second. *)
Definition cut_short : nat := 33.

(** * The theorems at work *)

Lemma worked_ok : Forall request_ok (worked ++ [approving]).
Proof. repeat constructor; apply Sample.sample_loadable. Qed.

Lemma daemon_refines_the_store_witness :
  ∃ calls : list (StoreCall Value), Forall call_ok calls ∧
    store (after_requests None (worked ++ [approving]) (daemon_new 4)) = run_calls calls (store_new 4).
Proof.
  exact (daemon_refines_the_store (H := environment None) no_verdict_text no_feedback_text key
    (worked ++ [approving]) 4 worked_ok).
Defined.

(** The verdict of another project's key is refused before anything is saved. *)
Definition strange : DaemonRequest :=
  ArbitrationRequest "other" Sample.workflow Sample.candidate (verdict Arbiter.Approved).

Lemma delivered_work_was_approved_witness :
  let d := after_requests None (worked ++ [approving]) (daemon_new 4) in
  ∃ w c, load_workflow Sample.workflow (store d) = Ok (Some w) ∧
    Workflow.current_candidate w = Some c ∧
    approved Sample.workflow (Workflow.mode w) c (database (store d)).
Proof.
  intros d.
  destruct (stored_loaded d past_approval ltac:(vm_compute; reflexivity)) as (w&Hload&Hw).
  destruct (delivered_work_was_approved (H := environment None) no_verdict_text no_feedback_text key
    sample_faithful (worked ++ [approving]) 4 Sample.workflow w worked_ok Hload Hw) as (c&Hc&Happroved).
  exists w, c. exact (conj Hload (conj Hc Happroved)).
Defined.

Lemma awaited_repair_never_begins_witness :
  let d := after_requests None [control Retry 2; control Pause 3; control Resume 4] extended in
  ∃ w, load_workflow Sample.workflow (store d) = Ok (Some w) ∧ awaits_repair w.
Proof.
  destruct (stored_loaded extended before_repair
    ltac:(vm_compute; reflexivity)) as (w&Hload&Hw%bool_decide_eq_true).
  refine (awaited_repair_never_begins (H := environment None) no_verdict_text no_feedback_text key
    sample_faithful _ _ Sample.workflow w _ Hload Hw).
  repeat constructor.
Defined.

Lemma recorded_verdict_is_not_acted_on_witness :
  let d := after_requests (Some cut_short) (worked ++ [approving]) (daemon_new 4) in
  ∃ w, load_workflow Sample.workflow (store (after_requests (Some cut_short) afterwards d)) = Ok (Some w) ∧
    awaits_verdict Sample.candidate w.
Proof.
  intros d.
  destruct (stored_loaded d (judged_already d)
    ltac:(vm_compute; reflexivity)) as (w&Hload&(Hstate&Hcandidate&[row Hrow])%bool_decide_eq_true).
  refine (recorded_verdict_is_not_acted_on (H := environment (Some cut_short)) no_verdict_text
    no_feedback_text key sample_faithful (worked ++ [approving]) afterwards 4 Sample.workflow
    Sample.candidate w row _ _ Hload Hstate Hcandidate Hrow).
  - apply Forall_app. split; [apply worked_ok|repeat constructor].
  - repeat constructor; auto.
Defined.
End DaemonSample.
