(* ===== verification/CodeGraph.v ===== *)
(** The code graph of workflow-code-intel: its nodes, edges and partitions
    (graph/model.rs), the reconciliation of a partition with new facts
    (reconcile.rs), the traversals (query.rs) and what they give as context
    (context.rs). The text of a project identifier belongs to the uuid crate: it
    is the class [UuidText]. *)
From Stdlib Require Import Ascii String.
From S2P Require Import Prelude Text Ids Paths Canonical.

(** [Display] and [FromStr] of a [Uuid]. *)
Class UuidText := { uuid_text : uuid → string; uuid_parse : string → option uuid }.

Module CodeGraph.

(** * Facts *)

Abbreviation PartitionId := ContentDigest.
Abbreviation NodeId := ContentDigest.
Abbreviation EdgeId := ContentDigest.

Inductive FactConfidence : Type := Extracted | Inferred.
Inductive FactProvider : Type :=
| Inference (identity : string)
| LanguageServer (identity : string)
| ManifestProvider
| Parser (identity : string).
Inductive NodeKind : Type :=
| NK_Configuration | NK_File | NK_Module | NK_Route | NK_Schema | NK_Symbol.
Inductive EdgeKind : Type :=
| EK_Calls | EK_Configures | EK_Contains | EK_Defines | EK_DependsOn | EK_Implements | EK_Imports
| EK_Inherits | EK_RoutesTo.
#[export] Instance FactConfidence_eq_dec : EqDecision FactConfidence.
Proof. solve_decision. Defined.
#[export] Instance FactProvider_eq_dec : EqDecision FactProvider.
Proof. solve_decision. Defined.
#[export] Instance NodeKind_eq_dec : EqDecision NodeKind.
Proof. solve_decision. Defined.
#[export] Instance EdgeKind_eq_dec : EqDecision EdgeKind.
Proof. solve_decision. Defined.

Record SourceRange : Type := {
  end_byte : N; end_column : N; end_line : N;
  start_byte : N; start_column : N; start_line : N;
}.
#[export] Instance SourceRange_eq_dec : EqDecision SourceRange.
Proof. solve_decision. Defined.

Record GraphNode : Type := {
  node_confidence : FactConfidence;
  node_id : NodeId;
  node_kind : NodeKind;
  node_name : string;
  node_partition : PartitionId;
  node_provider : FactProvider;
  qualified_name : string;
  node_range : option SourceRange;
  node_path : string;
}.
Record GraphEdge : Type := {
  edge_confidence : FactConfidence;
  edge_id : EdgeId;
  edge_kind : EdgeKind;
  edge_partition : PartitionId;
  edge_provider : FactProvider;
  edge_range : option SourceRange;
  source : NodeId;
  edge_path : string;
  target : NodeId;
}.
#[export] Instance GraphNode_eq_dec : EqDecision GraphNode.
Proof. solve_decision. Defined.
#[export] Instance GraphEdge_eq_dec : EqDecision GraphEdge.
Proof. solve_decision. Defined.

Record NodeInput : Type := {
  input_confidence : FactConfidence;
  input_kind : NodeKind;
  input_name : string;
  input_partition : PartitionId;
  input_provider : FactProvider;
  input_qualified : string;
  input_range : option SourceRange;
  input_path : string;
}.
Record EdgeInput : Type := {
  einput_confidence : FactConfidence;
  einput_kind : EdgeKind;
  einput_partition : PartitionId;
  einput_provider : FactProvider;
  einput_range : option SourceRange;
  einput_source : NodeId;
  einput_path : string;
  einput_target : NodeId;
}.

Record GraphPartition : Type := {
  edges : gmap EdgeId GraphEdge;
  external_nodes : gset NodeId;
  partition_id : PartitionId;
  nodes : gmap NodeId GraphNode;
  project_id : ProjectId;
  scope : string;
}.
#[export] Instance GraphPartition_eq_dec : EqDecision GraphPartition.
Proof. solve_decision. Defined.

Inductive GraphError : Type :=
  EmptyIdentity | InvalidEdge | InvalidPartition | InvalidRange | UnsafePath.

(** [{:?}]. *)
Definition node_kind_name (k : NodeKind) : string :=
  match k with
  | NK_Configuration => "Configuration" | NK_File => "File" | NK_Module => "Module"
  | NK_Route => "Route" | NK_Schema => "Schema" | NK_Symbol => "Symbol"
  end.
Definition edge_kind_name (k : EdgeKind) : string :=
  match k with
  | EK_Calls => "Calls" | EK_Configures => "Configures" | EK_Contains => "Contains"
  | EK_Defines => "Defines" | EK_DependsOn => "DependsOn" | EK_Implements => "Implements"
  | EK_Imports => "Imports" | EK_Inherits => "Inherits" | EK_RoutesTo => "RoutesTo"
  end.

(** * Identities *)

Definition LEGACY_PROTOCOL_V1_CODE_GRAPH_DOMAIN : string := "opencode-workflow/code-graph/v1".

(** A part after its length, the largest one when it does not fit. *)
Definition part_bytes (part : string) : string :=
  be_bytes 8 (default u64_max (u64_try_from (String.length part))) +:+ part.
Definition digest_bytes (parts : list string) : string :=
  foldl (λ bytes part, bytes +:+ part_bytes part) LEGACY_PROTOCOL_V1_CODE_GRAPH_DOMAIN parts.
Definition graph_digest `{Sha256} (parts : list string) : ContentDigest := digest_of (digest_bytes parts).

Definition partition_id_new `{Sha256, UuidText} (project : ProjectId) (scope : string) : PartitionId :=
  graph_digest ["partition"; uuid_text project; scope].

(** The starts of a range are not after its ends. *)
Definition range_valid (r : SourceRange) : bool :=
  (start_byte r <=? end_byte r)%N &&
  ((start_line r <? end_line r)%N
   || (start_line r =? end_line r)%N && (start_column r <=? end_column r)%N).

Definition validate_identity (name qualified path : string) (range : option SourceRange)
    : result GraphError unit :=
  _ ← reject_if (is_blank name || is_blank qualified) EmptyIdentity;
  _ ← reject_if (negb (all_components_normal path)) UnsafePath;
  reject_if (match range with Some r => negb (range_valid r) | None => false end) InvalidRange.

Definition node_identity `{Sha256} (partition : PartitionId) (kind : NodeKind)
    (qualified path : string) : NodeId :=
  graph_digest ["node"; digest_to_string partition; node_kind_name kind; qualified; path].

(** [GraphNode::new]. *)
Definition node_new `{Sha256} (i : NodeInput) : result GraphError GraphNode :=
  _ ← validate_identity (input_name i) (input_qualified i) (input_path i) (input_range i);
  Ok {| node_confidence := input_confidence i;
        node_id := node_identity (input_partition i) (input_kind i) (input_qualified i) (input_path i);
        node_kind := input_kind i; node_name := input_name i; node_partition := input_partition i;
        node_provider := input_provider i; qualified_name := input_qualified i;
        node_range := input_range i; node_path := input_path i |}.

Definition edge_identity `{Sha256} (partition : PartitionId) (kind : EdgeKind) (from to : NodeId) : EdgeId :=
  graph_digest ["edge"; digest_to_string partition; edge_kind_name kind; digest_to_string from;
                digest_to_string to].

(** [GraphEdge::new]. *)
Definition edge_new `{Sha256} (i : EdgeInput) : result GraphError GraphEdge :=
  _ ← validate_identity "edge" "edge" (einput_path i) (einput_range i);
  Ok {| edge_confidence := einput_confidence i;
        edge_id := edge_identity (einput_partition i) (einput_kind i) (einput_source i) (einput_target i);
        edge_kind := einput_kind i; edge_partition := einput_partition i;
        edge_provider := einput_provider i; edge_range := einput_range i;
        source := einput_source i; edge_path := einput_path i; target := einput_target i |}.

(** * Partitions *)

Definition known (p : GraphPartition) (id : NodeId) : bool :=
  bool_decide (is_Some (nodes p !! id)) || bool_decide (id ∈ external_nodes p).

(** A fact whose key or partition is another one's. *)
Definition misplaced_node (p : GraphPartition) (entry : NodeId * GraphNode) : bool :=
  negb (bool_decide (entry.1 = node_id entry.2))
  || negb (bool_decide (node_partition entry.2 = partition_id p)).
Definition misplaced_edge (p : GraphPartition) (entry : EdgeId * GraphEdge) : bool :=
  negb (bool_decide (entry.1 = edge_id entry.2))
  || negb (bool_decide (edge_partition entry.2 = partition_id p)).

(** [GraphPartition::validate]. *)
Definition partition_validate `{Sha256, UuidText} (p : GraphPartition) : result GraphError unit :=
  _ ← reject_if (is_blank (scope p)
                 || negb (bool_decide (partition_id p = partition_id_new (project_id p) (scope p))))
        InvalidPartition;
  _ ← reject_if (existsb (misplaced_node p) (map_to_list (nodes p))
                 || existsb (misplaced_edge p) (map_to_list (edges p))) InvalidPartition;
  reject_if (existsb (λ entry : EdgeId * GraphEdge, negb (known p (source entry.2))
                                                    || negb (known p (target entry.2)))
               (map_to_list (edges p))) InvalidEdge.

(** * Reconciliation *)

Record ReconcileCandidate : Type := {
  complete : bool;
  new_edges : gmap EdgeId GraphEdge;
  new_external : gset NodeId;
  new_nodes : gmap NodeId GraphNode;
  owned_files : gset string;
  candidate_partition : PartitionId;
}.
Inductive ReconcileError : Type := ReconcileDomain (error : GraphError) | ReconcileIncomplete | ReconcilePartition.

(** The graph without the facts of the owned files, and with the new ones: an
    extended map takes the later value. *)
Definition removed_nodes (p : GraphPartition) (owned : gset string) : gset NodeId :=
  list_to_set (node_id <$> filter (λ n, node_path n ∈ owned) (map_to_list (nodes p)).*2).
Definition reconciled_nodes (p : GraphPartition) (c : ReconcileCandidate) : gmap NodeId GraphNode :=
  new_nodes c ∪ filter (λ entry : NodeId * GraphNode, node_path entry.2 ∉ owned_files c) (nodes p).
Definition reconciled_edges (p : GraphPartition) (c : ReconcileCandidate) : gmap EdgeId GraphEdge :=
  let removed := removed_nodes p (owned_files c) in
  new_edges c ∪ filter (λ entry : EdgeId * GraphEdge, edge_path entry.2 ∉ owned_files c ∧
      source entry.2 ∉ removed ∧ target entry.2 ∉ removed) (edges p).

Definition reconcile `{Sha256, UuidText} (readable : GraphPartition) (c : ReconcileCandidate)
    : result ReconcileError GraphPartition :=
  _ ← reject_if (negb (complete c)) ReconcileIncomplete;
  _ ← reject_if (negb (bool_decide (candidate_partition c = partition_id readable))
        || existsb (λ entry : NodeId * GraphNode,
             negb (bool_decide (node_partition entry.2 = partition_id readable))) (map_to_list (new_nodes c))
        || existsb (λ entry : EdgeId * GraphEdge,
             negb (bool_decide (edge_partition entry.2 = partition_id readable))) (map_to_list (new_edges c)))
        ReconcilePartition;
  let nodes := reconciled_nodes readable c in
  let result := {| edges := reconciled_edges readable c;
                   external_nodes := filter (λ id, nodes !! id = None)
                                       (external_nodes readable ∪ new_external c);
                   partition_id := partition_id readable; nodes := nodes;
                   project_id := project_id readable; scope := scope readable |} in
  _ ← map_err ReconcileDomain (partition_validate result);
  Ok result.

(** * Traversals *)

Inductive TraversalDirection : Type := Incoming | Outgoing.

Record TraversalResult : Type := {
  result_edges : list EdgeId;
  result_nodes : list NodeId;
  truncated : bool;
}.

(** Where an edge leads from and to in a direction. *)
Definition ends (direction : TraversalDirection) (e : GraphEdge) : NodeId * NodeId :=
  match direction with Incoming => (target e, source e) | Outgoing => (source e, target e) end.

Definition neighbors (p : GraphPartition) (node : NodeId) (direction : TraversalDirection) (limit : nat)
    : TraversalResult :=
  let matches := sort_unstable ((λ e, (edge_id e, (ends direction e).2)) <$>
    filter (λ e, (ends direction e).1 = node) (btree_values (edges p))) in
  let limit := max limit 1 in
  {| result_edges := (take limit matches).*1; result_nodes := (take limit matches).*2;
     truncated := limit <? length matches |}.

Abbreviation Adjacency := (gmap NodeId (list (EdgeId * NodeId))).

Definition add_adjacent (direction : TraversalDirection) (m : Adjacency) (e : GraphEdge) : Adjacency :=
  let '(from, to) := ends direction e in
  <[from := default [] (m !! from) ++ [(edge_id e, to)]]> m.
Definition adjacency (p : GraphPartition) (direction : TraversalDirection) : Adjacency :=
  sort_unstable <$> foldl (add_adjacent direction) ∅ (btree_values (edges p)).
(** [adjacency.get(&node).into_iter().flatten()]. *)
Definition adjacent (m : Adjacency) (node : NodeId) : list (EdgeId * NodeId) := default [] (m !! node).

(** The state of a search for a shortest path. *)
Record PathSearch : Type := {
  path_queue : list (NodeId * nat);
  path_visited : gset NodeId;
  previous : gmap NodeId (NodeId * EdgeId);
  path_truncated : bool;
}.

(** The inner loop; [true] when it reached the target. *)
Fixpoint visit_edges (goal : NodeId) (max_visited : nat) (node : NodeId) (depth : nat)
    (l : list (EdgeId * NodeId)) (s : PathSearch) : PathSearch * bool :=
  match l with
  | [] => (s, false)
  | (edge, next) :: l =>
      if max_visited <=? size (path_visited s)
      then ({| path_queue := path_queue s; path_visited := path_visited s; previous := previous s;
               path_truncated := true |}, false)
      else if decide (next ∈ path_visited s) then visit_edges goal max_visited node depth l s
      else
        let s := {| path_queue := path_queue s; path_visited := {[next]} ∪ path_visited s;
                    previous := <[next := (node, edge)]> (previous s);
                    path_truncated := path_truncated s |} in
        if decide (next = goal) then (s, true)
        else visit_edges goal max_visited node depth l
               {| path_queue := path_queue s ++ [(next, S depth)]; path_visited := path_visited s;
                  previous := previous s; path_truncated := path_truncated s |}
  end.

Fixpoint search_path (fuel : nat) (m : Adjacency) (goal : NodeId) (max_depth max_visited : nat)
    (s : PathSearch) : option (PathSearch * bool) :=
  match path_queue s with
  | [] => Some (s, false)
  | (node, depth) :: rest =>
      match fuel with
      | O => None
      | S fuel =>
          let popped truncated := {| path_queue := rest; path_visited := path_visited s;
            previous := previous s; path_truncated := truncated |} in
          if max_depth <=? depth
          then search_path fuel m goal max_depth max_visited (popped true)
          else match visit_edges goal max_visited node depth (adjacent m node) (popped (path_truncated s)) with
               | (s, true) => Some (s, true)
               | (s, false) => search_path fuel m goal max_depth max_visited s
               end
      end
  end.

(** The loop of [reconstruct], before the reversals; a missing parent panics. *)
Fixpoint walk_back (fuel : nat) (from : NodeId) (previous : gmap NodeId (NodeId * EdgeId))
    (at_node : NodeId) (edges : list EdgeId) (nodes : list NodeId) : option (list EdgeId * list NodeId) :=
  if decide (at_node = from) then Some (edges, nodes) else
  match fuel with
  | O => None
  | S fuel =>
      '(parent, edge) ← previous !! at_node;
      walk_back fuel from previous parent (edges ++ [edge]) (nodes ++ [parent])
  end.
Definition reconstruct (from goal : NodeId) (s : PathSearch) : option TraversalResult :=
  '(edges, nodes) ← walk_back (size (previous s)) from (previous s) goal [] [goal];
  Some {| result_edges := reverse edges; result_nodes := reverse nodes; truncated := path_truncated s |}.

Definition shortest_path (p : GraphPartition) (from goal : NodeId) (max_depth max_visited : nat)
    : option TraversalResult :=
  if decide (from = goal)
  then Some {| result_edges := []; result_nodes := [from]; truncated := false |} else
  let start := {| path_queue := [(from, 0)]; path_visited := {[from]}; previous := ∅;
                  path_truncated := false |} in
  '(s, found) ← search_path (S (size (edges p))) (adjacency p Outgoing) goal max_depth (max max_visited 1) start;
  if (found : bool) then reconstruct from goal s
  else Some {| result_edges := []; result_nodes := []; truncated := path_truncated s |}.

(** The state of an impact analysis. *)
Record ImpactSearch : Type := {
  impact_queue : list (NodeId * nat);
  impact_visited : gset NodeId;
  impact_edges : gset EdgeId;
  impact_truncated : bool;
}.

Fixpoint impact_visit (max_nodes : nat) (depth : nat) (l : list (EdgeId * NodeId)) (s : ImpactSearch)
    : ImpactSearch :=
  match l with
  | [] => s
  | (edge, next) :: l =>
      if max_nodes <=? size (impact_visited s)
      then {| impact_queue := impact_queue s; impact_visited := impact_visited s;
              impact_edges := impact_edges s; impact_truncated := true |}
      else
        let new : bool := bool_decide (next ∉ impact_visited s) in
        impact_visit max_nodes depth l
          {| impact_queue := if new then impact_queue s ++ [(next, S depth)] else impact_queue s;
             impact_visited := {[next]} ∪ impact_visited s;
             impact_edges := {[edge]} ∪ impact_edges s; impact_truncated := impact_truncated s |}
  end.

Fixpoint search_impact (fuel : nat) (m : Adjacency) (max_depth max_nodes : nat) (s : ImpactSearch)
    : option ImpactSearch :=
  match impact_queue s with
  | [] => Some s
  | (node, depth) :: rest =>
      match fuel with
      | O => None
      | S fuel =>
          let popped truncated := {| impact_queue := rest; impact_visited := impact_visited s;
            impact_edges := impact_edges s; impact_truncated := truncated |} in
          if max_depth <=? depth then search_impact fuel m max_depth max_nodes (popped true)
          else search_impact fuel m max_depth max_nodes
                 (impact_visit max_nodes depth (adjacent m node) (popped (impact_truncated s)))
      end
  end.

Definition impact (p : GraphPartition) (roots : gset NodeId) (direction : TraversalDirection)
    (max_depth max_nodes : nat) : option TraversalResult :=
  let start := {| impact_queue := (λ node, (node, 0)) <$> bset_iter roots; impact_visited := roots;
                  impact_edges := ∅; impact_truncated := false |} in
  s ← search_impact (size roots + size (edges p)) (adjacency p direction) max_depth
        (max max_nodes (size roots)) start;
  Some {| result_edges := bset_iter (impact_edges s); result_nodes := bset_iter (impact_visited s);
          truncated := impact_truncated s |}.

(** * Context *)

Inductive ContextLevel : Type := InventoryLevel | SubgraphLevel | SymbolLevel | SourceLevel.
#[export] Instance ContextLevel_eq_dec : EqDecision ContextLevel.
Proof. solve_decision. Defined.

Record ContextBudget : Type := { max_bytes : N; max_items : nat }.
Record ContextItem : Type := {
  item_confidence : FactConfidence;
  item_id : NodeId;
  item_kind : NodeKind;
  item_level : ContextLevel;
  item_name : string;
  item_provider : FactProvider;
  item_range : option SourceRange;
  item_source : option string;
  item_path : string;
}.
Record ContextBundle : Type := {
  bundle_bytes : N;
  bundle_items : list ContextItem;
  bundle_level : ContextLevel;
  bundle_truncated : bool;
}.

Definition in_context (level : ContextLevel) (selected : gset NodeId) (n : GraphNode) : bool :=
  match level with
  | InventoryLevel => bool_decide (node_kind n = NK_File)
  | SubgraphLevel => bool_decide (node_id n ∈ selected)
  | SymbolLevel | SourceLevel =>
      bool_decide (node_id n ∈ selected) && negb (bool_decide (node_kind n = NK_File))
  end.
Definition context_item (level : ContextLevel) (sources : gmap string string) (n : GraphNode) : ContextItem :=
  {| item_confidence := node_confidence n; item_id := node_id n; item_kind := node_kind n;
     item_level := level; item_name := node_name n; item_provider := node_provider n;
     item_range := node_range n;
     item_source := if decide (level = SourceLevel) then sources !! node_path n else None;
     item_path := node_path n |}.

Definition item_le (a b : ContextItem) : Prop := key_le (item_id a) (item_id b).
#[export] Instance item_le_dec : RelDecision item_le := λ a b, decide (key_le (item_id a) (item_id b)).

(** [sort_by_key] is stable, as a merge sort is. *)
Definition context_bundle `{ToJson ContextItem} (p : GraphPartition) (selected : gset NodeId)
    (level : ContextLevel) (sources : gmap string string) (budget : ContextBudget) : ContextBundle :=
  let candidates := merge_sort item_le (context_item level sources <$>
    filter (λ n, Is_true (in_context level selected n)) (btree_values (nodes p))) in
  let '(items, bytes) := take_within (λ item, str_len <$> to_vec item) (max_bytes budget) 0
    (take (max_items budget) candidates) in
  {| bundle_bytes := bytes; bundle_items := items; bundle_level := level;
     bundle_truncated := length items <? length candidates |}.

(** * Breadth-first search *)

(** What both searches keep, over their steps [E] from the roots [R]: the depth
    at which each node was visited, in [D], is the length of a way to it; the
    queue is in order of depth; and a visited node that is neither waiting nor
    at work ([cur]) has its neighbours visited, unless the search says that it
    was cut off ([cut]) by its depth or by its limit of nodes. *)
Section search.
Context (E : NodeId → NodeId → Prop) (R : NodeId → Prop) (max_depth limit : nat).

Inductive reach : nat → NodeId → Prop :=
| reach_root v : R v → reach 0 v
| reach_step n u v : reach n u → E u v → reach (S n) v.

Definition in_order (a b : NodeId * nat) : Prop := a.2 ≤ b.2 ∧ b.2 ≤ S a.2.
Definition explored (cut : bool) (D : gmap NodeId nat) (v : NodeId) (d : nat) : Prop :=
  (cut = true ∧ max_depth ≤ d) ∨ (cut = true ∧ limit ≤ size D) ∨
  ∀ w, E v w → ∃ d', D !! w = Some d' ∧ d' ≤ S d.

Record frontier (cut : bool) (cur : option NodeId) (q : list (NodeId * nat)) (D : gmap NodeId nat) : Prop := {
  fr_root v : R v → D !! v = Some 0;
  fr_reach v d : D !! v = Some d → reach d v;
  fr_queue v d : (v, d) ∈ q → D !! v = Some d;
  fr_order : StronglySorted in_order q;
  fr_deep v d k w : (w, k) ∈ q → D !! v = Some d → d ≤ S k;
  fr_explored v d : D !! v = Some d → (v, d) ∉ q → cur ≠ Some v → explored cut D v d;
}.

Lemma explored_mono cut cut' D w d0 v d :
  (cut = true → cut' = true) → D !! w = None → explored cut D v d → explored cut' (<[w := d0]> D) v d.
Proof.
  intros Hcut Hw [[? ?]|[[? ?]|Hall]].
  - left. auto.
  - right. left. rewrite map_size_insert_None by done. split; [auto|lia].
  - right. right. intros x (d'&Hd'&Hle)%Hall. exists d'. split; [|done].
    rewrite lookup_insert_ne; [done|]. by intros ->; rewrite Hw in Hd'.
Qed.

Lemma explored_cut cut cut' D v d : (cut = true → cut' = true) → explored cut D v d → explored cut' D v d.
Proof. intros Hcut [[? ?]|[[? ?]|Hall]]; [left|right; left|right; right]; auto. Qed.

(** A node at work, at depth [k], with what waits behind it. *)
Definition working (k : nat) (q : list (NodeId * nat)) (D : gmap NodeId nat) : Prop :=
  Forall (λ a, k ≤ a.2 ≤ S k) q ∧ ∀ v d, D !! v = Some d → d ≤ S k.

Lemma frontier_pop cut v k q D :
  frontier cut None ((v, k) :: q) D → frontier cut (Some v) q D ∧ working k q D.
Proof.
  intros [Hroot Hreach Hqueue Horder Hdeep Hexp]. apply StronglySorted_inv in Horder as [Horder Hhead].
  split; [|split; [done|intros w d Hw; apply (Hdeep w d k v); [by left|done]]].
  split; try done.
  - intros w d Hin. apply Hqueue. by right.
  - intros w d k' x Hin. apply (Hdeep w d k' x). by right.
  - intros w d Hw Hnot Hcur. apply Hexp; [done| |done]. intros [[= -> ->]|?]%elem_of_cons; done.
Qed.

Lemma frontier_add cut v k w q D :
  frontier cut (Some v) q D → working k q D → D !! v = Some k → D !! w = None → E v w →
  frontier cut (Some v) (q ++ [(w, S k)]) (<[w := S k]> D) ∧
  working k (q ++ [(w, S k)]) (<[w := S k]> D).
Proof.
  intros [Hroot Hreach Hqueue Horder Hdeep Hexp] [Hall Hle] Hv Hw Hvw.
  assert (∀ x d, <[w := S k]> D !! x = Some d → d ≤ S k) as Hle'.
  { intros x d [[<- <-]|[_ Hx]]%lookup_insert_Some; [done|by apply (Hle x)]. }
  split; [|split; [|done]].
  2: { apply Forall_app. split; [done|repeat constructor]. }
  split.
  - intros x Hx. rewrite lookup_insert_ne; [auto|]. intros ->. rewrite (Hroot _ Hx) in Hw. done.
  - intros x d [[<- <-]|[? Hx]]%lookup_insert_Some; [|auto]. apply reach_step with v; auto.
  - intros x d [Hx|[= -> ->]%list_elem_of_singleton]%elem_of_app; [|by rewrite lookup_insert_eq].
    apply Hqueue in Hx. rewrite lookup_insert_ne; [done|]. by intros ->; rewrite Hw in Hx.
  - apply StronglySorted_app. split_and!; [|done|repeat constructor].
    intros x1 x2 Hx1 ->%list_elem_of_singleton. rewrite Forall_forall in Hall.
    specialize (Hall _ Hx1). unfold in_order; simpl; lia.
  - intros x d k' y [Hy|[= -> ->]%list_elem_of_singleton]%elem_of_app Hx; apply Hle' in Hx; [|lia].
    rewrite Forall_forall in Hall. apply Hall in Hy. simpl in Hy. lia.
  - intros x d [[<- <-]|[? Hx]]%lookup_insert_Some Hnot Hcur.
    + destruct Hnot. apply elem_of_app. right. by apply list_elem_of_singleton.
    + apply (explored_mono cut cut); [done|done|]. apply Hexp; [done| |done]. intros Hin. apply Hnot, elem_of_app. by left.
Qed.

Lemma frontier_done cut cut' v k q D :
  frontier cut (Some v) q D → D !! v = Some k → (cut = true → cut' = true) →
  explored cut' D v k → frontier cut' None q D.
Proof.
  intros [Hroot Hreach Hqueue Horder Hdeep Hexp] Hv Hcut Hdone. split; try done.
  intros x d Hx Hnot _. destruct (decide (x = v)) as [->|Hne].
  - rewrite Hv in Hx. by injection Hx as <-.
  - apply (explored_cut cut cut'); [done|]. apply Hexp; congruence.
Qed.

(** Before a node of depth [k] is taken, all that is as near is visited. *)
Lemma frontier_nearer cut v k q D n u :
  frontier cut None ((v, k) :: q) D → k ≤ max_depth → size D < limit →
  reach n u → n ≤ k → ∃ d, D !! u = Some d ∧ d ≤ n.
Proof.
  intros [Hroot Hreach Hqueue Horder Hdeep Hexp] Hk Hlimit Hn. induction Hn as [u Hu|n u w Hu IH Hw]; intros Hle.
  - exists 0. split; [auto|done].
  - destruct (IH ltac:(lia)) as (d&Hd&Hdn).
    destruct (Hexp u d Hd) as [[_ ?]|[[_ ?]|Hall]]; [|done|lia|lia|].
    + apply StronglySorted_inv in Horder as [_ Hhead]. intros [[= -> ->]|Hin]%elem_of_cons; [lia|].
      rewrite Forall_forall in Hhead. specialize (Hhead _ Hin). unfold in_order in Hhead. simpl in *. lia.
    + destruct (Hall _ Hw) as (d'&Hd'&?). exists d'. split; [done|lia].
Qed.

(** When nothing waits, everything is visited that the limits allow. *)
Lemma frontier_empty cut D n u :
  frontier cut None [] D → (cut = true → n ≤ max_depth ∧ size D < limit) →
  reach n u → ∃ d, D !! u = Some d ∧ d ≤ n.
Proof.
  intros [Hroot Hreach Hqueue Horder Hdeep Hexp] Hcut Hn. induction Hn as [u Hu|n u w Hu IH Hw].
  - exists 0. split; [auto|done].
  - destruct IH as (d&Hd&Hdn).
    { intros Hc. specialize (Hcut Hc). split; [lia|apply Hcut]. }
    destruct (Hexp u d Hd) as [[Hc ?]|[[Hc ?]|Hall]]; [by intros ?%elem_of_nil|done| | |].
    + specialize (Hcut Hc). lia.
    + specialize (Hcut Hc). lia.
    + destruct (Hall _ Hw) as (d'&Hd'&?). exists d'. split; [done|lia].
Qed.
End search.

(** * The adjacency of a partition *)

(** An edge of a partition, in a direction. *)
Definition joins (p : GraphPartition) (direction : TraversalDirection) (edge : EdgeId) (u v : NodeId) : Prop :=
  ∃ k e, edges p !! k = Some e ∧ edge_id e = edge ∧ ends direction e = (u, v).
Definition step_to (p : GraphPartition) (direction : TraversalDirection) (u v : NodeId) : Prop :=
  ∃ edge, joins p direction edge u v.
(** Where edges lead. *)
Definition targets (p : GraphPartition) (direction : TraversalDirection) : gset NodeId :=
  list_to_set ((λ e, (ends direction e).2) <$> (map_to_list (edges p)).*2).

Lemma add_adjacent_lookup direction l m v :
  default [] (foldl (add_adjacent direction) m l !! v) =
  default [] (m !! v) ++
    ((λ e, (edge_id e, (ends direction e).2)) <$> filter (λ e, (ends direction e).1 = v) l).
Proof.
  revert m. induction l as [|e l IH]; intros m; simpl; [by rewrite app_nil_r|].
  rewrite IH. unfold add_adjacent. destruct (ends direction e) as [from to] eqn:He.
  rewrite filter_cons, He. simpl. case_decide as Hv; [subst|].
  - rewrite lookup_insert_eq, fmap_cons, He. simpl. by rewrite <-app_assoc.
  - by rewrite lookup_insert_ne.
Qed.

Lemma elem_of_adjacent p direction v edge w :
  (edge, w) ∈ adjacent (adjacency p direction) v ↔ joins p direction edge v w.
Proof.
  unfold adjacent, adjacency, joins. rewrite lookup_fmap.
  assert (∀ o : option (list (EdgeId * NodeId)),
    default [] (sort_unstable <$> o) = sort_unstable (default [] o)) as -> by by intros [].
  unfold sort_unstable. rewrite merge_sort_Permutation, add_adjacent_lookup, lookup_empty. simpl.
  rewrite list_elem_of_fmap. setoid_rewrite list_elem_of_filter. setoid_rewrite elem_of_btree_values.
  split.
  - intros (e&[= -> ->]&<-&k&Hk). exists k, e. split_and!; [done..|by destruct (ends direction e)].
  - intros (k&e&Hk&<-&Hends). exists e. rewrite Hends. split_and!; [done..|by exists k].
Qed.

Lemma elem_of_targets p direction edge v w : joins p direction edge v w → w ∈ targets p direction.
Proof.
  intros (k&e&Hk&_&Hends). apply elem_of_list_to_set, list_elem_of_fmap. exists e.
  rewrite Hends. split; [done|]. apply list_elem_of_fmap. exists (k, e).
  split; [done|by apply elem_of_map_to_list].
Qed.

Lemma size_list_to_set_le (l : list NodeId) : size (list_to_set l : gset NodeId) ≤ length l.
Proof.
  induction l as [|x l IH]; simpl; [done|].
  rewrite size_union_alt, size_singleton.
  assert (size (list_to_set l ∖ {[x]} : gset NodeId) ≤ size (list_to_set l : gset NodeId)); [|lia].
  apply subseteq_size. set_solver.
Qed.

Lemma unvisited_less {A} `{Countable A} (T V : gset A) w :
  w ∈ T → w ∉ V → S (size (T ∖ ({[w]} ∪ V))) = size (T ∖ V).
Proof.
  intros HT HV. assert (T ∖ V = {[w]} ∪ T ∖ V) as -> by set_solver.
  rewrite (size_union_alt {[w]}), size_singleton. simpl. do 2 f_equal. set_solver.
Qed.

Lemma size_targets p direction : size (targets p direction) ≤ size (edges p).
Proof.
  unfold targets. etrans; [apply size_list_to_set_le|].
  by rewrite !length_fmap, length_map_to_list.
Qed.

(** * Shortest paths *)

(** A walk: its edges, and the nodes after its first. *)
Inductive walk (p : GraphPartition) : NodeId → list EdgeId → list NodeId → NodeId → Prop :=
| walk_nil v : walk p v [] [] v
| walk_cons edge u v w es ns :
    joins p Outgoing edge u v → walk p v es ns w → walk p u (edge :: es) (v :: ns) w.

Lemma walk_reach p from R n es ns goal :
  reach (step_to p Outgoing) R n from → walk p from es ns goal →
  reach (step_to p Outgoing) R (length es + n) goal.
Proof.
  intros Hn Hw. revert n Hn. induction Hw as [|edge u v w es ns He Hw IH]; intros n Hn; simpl; [done|].
  rewrite <-Nat.add_succ_r. apply IH, (reach_step _ _ n u); [done|by exists edge].
Qed.

Section shortest.
Context (p : GraphPartition) (from goal : NodeId) (max_depth max_visited : nat).
Hypothesis apart : from ≠ goal.

Abbreviation front := (frontier (step_to p Outgoing) (λ v, v = from) max_depth max_visited).
Abbreviation reachable := (reach (step_to p Outgoing) (λ v, v = from)).

(** The parents of the visited nodes, with their depths. *)
Definition parents_ok (previous : gmap NodeId (NodeId * EdgeId)) (D : gmap NodeId nat) : Prop :=
  size D = S (size previous) ∧ D !! from = Some 0 ∧
  (∀ v, is_Some (previous !! v) → is_Some (D !! v)) ∧
  ∀ v d, D !! v = Some d → d ≤ size previous ∧
    (v = from ∨ ∃ u edge d', previous !! v = Some (u, edge) ∧ joins p Outgoing edge u v ∧
       D !! u = Some d' ∧ d = S d').

Record searching (cur : option NodeId) (s : PathSearch) (D : gmap NodeId nat) : Prop := {
  se_front : front (path_truncated s) cur (path_queue s) D;
  se_dom : dom D = path_visited s;
  se_parents : parents_ok (previous s) D;
  se_goal : D !! goal = None;
}.

Lemma parents_add previous D u edge w k :
  parents_ok previous D → D !! u = Some k → D !! w = None → joins p Outgoing edge u w →
  parents_ok (<[w := (u, edge)]> previous) (<[w := S k]> D).
Proof.
  intros (Hsize&Hfrom&Hdom&Hprev) Hu Hw Hedge.
  assert (previous !! w = None) as Hpw.
  { apply eq_None_not_Some. intros [? ?]%Hdom. congruence. }
  split_and!.
  - rewrite !map_size_insert_None by done. lia.
  - rewrite lookup_insert_ne; [done|]. intros ->. congruence.
  - intros v. rewrite !lookup_insert_is_Some. intros [->|[Hne Hv]]; [by left|right; auto].
  - intros v d. rewrite map_size_insert_None by done.
    intros [[<- <-]|[Hne Hv]]%lookup_insert_Some.
    + destruct (Hprev _ _ Hu) as [? _]. split; [lia|]. right. exists u, edge, k.
      rewrite lookup_insert_eq, lookup_insert_ne; [done|]. intros ->. congruence.
    + destruct (Hprev _ _ Hv) as [? Hor]. split; [lia|].
      destruct Hor as [->|(u'&e'&d'&Hp&He&Hd'&->)]; [by left|]. right. exists u', e', d'.
      rewrite !lookup_insert_ne; [done| |done]. intros ->. congruence.
Qed.

(** What a search that found its goal has. *)
Definition found_at (k : nat) (s : PathSearch) : Prop :=
  ∃ D, parents_ok (previous s) D ∧ D !! goal = Some (S k).

Lemma visit_edges_ok u k l s D :
  searching (Some u) s D → working k (path_queue s) D → D !! u = Some k →
  (∀ edge w, (edge, w) ∈ l → joins p Outgoing edge u w) →
  (∀ w, step_to p Outgoing u w →
     (∃ edge, (edge, w) ∈ l) ∨ ∃ d, D !! w = Some d ∧ d ≤ S k) →
  match visit_edges goal max_visited u k l s with
  | (s', true) => found_at k s' ∧ size D < max_visited
  | (s', false) => ∃ D', searching None s' D' ∧
      length (path_queue s') + size (targets p Outgoing ∖ path_visited s') ≤
      length (path_queue s) + size (targets p Outgoing ∖ path_visited s)
  end.
Proof.
  revert s D. induction l as [|[edge w] l IH]; intros s D Hs Hwork Hu Hl Hmore; simpl.
  { exists D. split; [|done]. destruct Hs as [Hf Hd Hp Hg]. split; try done.
    apply (frontier_done _ _ _ _ (path_truncated s) _ u k); [done..|].
    right. right. intros w [[? []%elem_of_nil]|Hw]%Hmore. done. }
  pose proof Hs as [Hf Hd Hp Hg].
  assert (size (path_visited s) = size D) as -> by by rewrite <-Hd, size_dom.
  destruct (max_visited <=? size D) eqn:Hlimit; [apply Nat.leb_le in Hlimit|apply Nat.leb_gt in Hlimit].
  { exists D. split; [|done]. split; try done. simpl.
    apply (frontier_done _ _ _ _ (path_truncated s) _ u k); [done..|]. right. left. done. }
  assert (joins p Outgoing edge u w) as Hedge by (apply Hl; left).
  assert (∀ e' w', (e', w') ∈ l → joins p Outgoing e' u w') as Hl' by (intros e' w' ?; apply Hl; by right).
  destruct (decide (w ∈ path_visited s)) as [Hin|Hnew].
  { apply (IH s D); [done..|]. intros w' Hw'.
    destruct (Hmore _ Hw') as [(e'&[[= -> ->]|Hin']%elem_of_cons)|?]; [|left; eauto|by right].
    right. rewrite <-Hd in Hin. apply elem_of_dom in Hin as [d Hin]. exists d. split; [done|]. by apply Hwork in Hin. }
  assert (D !! w = None) as Hw by by rewrite <-Hd in Hnew; apply not_elem_of_dom in Hnew.
  pose proof (parents_add _ _ u edge w k Hp Hu Hw Hedge) as Hp'.
  destruct (decide (w = goal)) as [->|Hne].
  { split; [|done]. exists (<[goal := S k]> D). split; [done|]. by rewrite lookup_insert_eq. }
  destruct (frontier_add _ _ _ _ _ _ _ _ _ _ Hf Hwork Hu Hw ltac:(by exists edge)) as [Hf' Hwork'].
  set (s1 := {| path_queue := path_queue s ++ [(w, S k)]; path_visited := {[w]} ∪ path_visited s;
                previous := <[w := (u, edge)]> (previous s); path_truncated := path_truncated s |}).
  assert (searching (Some u) s1 (<[w := S k]> D)) as Hs1.
  { split; [done|by rewrite dom_insert_L, Hd|done|by rewrite lookup_insert_ne]. }
  specialize (IH s1 (<[w := S k]> D) Hs1 Hwork').
  rewrite lookup_insert_ne in IH by congruence. specialize (IH Hu Hl').
  destruct (visit_edges goal max_visited u k l s1) as [s2 []].
  - destruct IH as [Hfound Hsize].
    { intros w' Hw'. destruct (decide (w' = w)) as [->|Hww].
      - right. exists (S k). by rewrite lookup_insert_eq.
      - rewrite lookup_insert_ne by done.
        destruct (Hmore _ Hw') as [(e'&[[= -> ->]|?]%elem_of_cons)|?]; [done|left; eauto|by right]. }
    split; [done|]. rewrite map_size_insert_None in Hsize by done. lia.
  - destruct IH as (D'&Hs'&Hle).
    { intros w' Hw'. destruct (decide (w' = w)) as [->|Hww].
      - right. exists (S k). by rewrite lookup_insert_eq.
      - rewrite lookup_insert_ne by done.
        destruct (Hmore _ Hw') as [(e'&[[= -> ->]|?]%elem_of_cons)|?]; [done|left; eauto|by right]. }
    exists D'. split; [done|]. etrans; [exact Hle|]. simpl. rewrite length_app. simpl.
    pose proof (unvisited_less (targets p Outgoing) (path_visited s) w
      (elem_of_targets _ _ _ _ _ Hedge) Hnew). lia.
Qed.

(** A search returns, and says what it found. *)
Lemma search_path_ok fuel s D :
  searching None s D →
  length (path_queue s) + size (targets p Outgoing ∖ path_visited s) ≤ fuel →
  ∃ s' found, search_path fuel (adjacency p Outgoing) goal max_depth max_visited s = Some (s', found) ∧
    if (found : bool) then ∃ k, found_at k s' ∧ k < max_depth ∧ ∀ n, reachable n goal → k < n
    else ∃ D', searching None s' D' ∧ path_queue s' = [].
Proof.
  revert s D. induction fuel as [|fuel IH]; intros s D Hs Hfuel; destruct s as [q V prev cut]; simpl in *.
  - destruct q; [|simpl in *; lia]. exists {| path_queue := []; path_visited := V; previous := prev; path_truncated := cut |}, false.
    split; [done|]. by exists D.
  - destruct q as [|[u k] q].
    { eexists _, false. split; [done|]. by exists D. }
    destruct Hs as [Hf Hd Hp Hg]; simpl in *.
    destruct (frontier_pop _ _ _ _ _ _ _ _ _ Hf) as [Hf' Hwork].
    assert (D !! u = Some k) as Hu by (eapply fr_queue; [exact Hf|left]).
    destruct (max_depth <=? k) eqn:Hdepth; [apply Nat.leb_le in Hdepth|apply Nat.leb_gt in Hdepth].
    + apply (IH _ D); [|simpl in *; lia]. split; try done. simpl.
      apply (frontier_done _ _ _ _ cut true u k); [done..|by left].
    + set (s1 := {| path_queue := q; path_visited := V; previous := prev; path_truncated := cut |}).
      pose proof (visit_edges_ok u k (adjacent (adjacency p Outgoing) u) s1 D
        ltac:(by split) Hwork Hu) as Hvisit.
      specialize (Hvisit (λ edge w, proj1 (elem_of_adjacent p Outgoing u edge w))).
      assert (∀ w, step_to p Outgoing u w → ∃ edge, (edge, w) ∈ adjacent (adjacency p Outgoing) u) as Hall.
      { intros w [edge Hw]. exists edge. by apply elem_of_adjacent. }
      specialize (Hvisit (λ w Hw, or_introl (Hall w Hw))).
      destruct (visit_edges goal max_visited u k _ s1) as [s2 []].
      * exists s2, true. split; [done|]. exists k. destruct Hvisit as [Hfound Hsize].
        split_and!; [done|done|]. intros n Hn. destruct (le_lt_dec n k) as [Hnk|]; [|done].
        destruct (frontier_nearer _ _ _ _ _ _ _ _ _ n goal Hf ltac:(lia) Hsize Hn Hnk) as (d&Hd'&_).
        congruence.
      * destruct Hvisit as (D'&Hs'&Hle). apply (IH s2 D'); [done|]. simpl in *. lia.
Qed.

(** The parents lead back along a walk. *)
Lemma walk_back_ok prev D fuel v d es ns :
  parents_ok prev D → D !! v = Some d → d ≤ fuel → walk p v es ns goal →
  ∃ es' ns', walk p from es' ns' goal ∧ length es' = d + length es ∧
    walk_back fuel from prev v (reverse es) (reverse (v :: ns)) = Some (reverse es', reverse (from :: ns')).
Proof.
  intros (_&Hfrom&_&Hprev). revert v d es ns.
  induction fuel as [|fuel IH]; intros v d es ns Hv Hd Hw; simpl.
  all: destruct (Hprev _ _ Hv) as [_ [->|(u&edge&d'&Hp&He&Hu&->)]].
  - exists es, ns. rewrite decide_True by done. rewrite Hfrom in Hv. injection Hv as <-. done.
  - lia.
  - exists es, ns. rewrite decide_True by done. rewrite Hfrom in Hv. injection Hv as <-. done.
  - rewrite decide_False. 2: { intros ->. rewrite Hfrom in Hv. done. }
    rewrite Hp. simpl. rewrite <-!reverse_cons.
    destruct (IH u d' (edge :: es) (v :: ns) Hu ltac:(lia)) as (es'&ns'&Hw'&Hlen&Hback).
    { by apply (walk_cons p edge u v). }
    exists es', ns'. split_and!; [done|simpl in *; lia|done].
Qed.

Lemma reconstruct_ok s k : found_at k s →
  ∃ es ns, walk p from es ns goal ∧ length es = S k ∧
    reconstruct from goal s =
    Some {| result_edges := es; result_nodes := from :: ns; truncated := path_truncated s |}.
Proof.
  intros (D&Hp&Hgoal).
  destruct (walk_back_ok (previous s) D (size (previous s)) goal (S k) [] [] Hp Hgoal) as (es&ns&Hw&Hlen&Hback).
  { by apply (proj2 (proj2 (proj2 Hp))) in Hgoal as [? _]. }
  { constructor. }
  exists es, ns. split; [done|]. split; [simpl in *; lia|].
  assert (walk_back (size (previous s)) from (previous s) goal [] [goal] =
    Some (reverse es, reverse (from :: ns))) as Hb by exact Hback.
  unfold reconstruct. rewrite Hb. simpl. by rewrite !reverse_involutive.
Qed.

Lemma visited_below prev D : parents_ok prev D → size D ≤ S (size (edges p)).
Proof.
  intros (_&_&_&Hprev). rewrite <-size_dom.
  assert (dom D ⊆ {[from]} ∪ targets p Outgoing) as Hsub.
  { intros v [d Hv]%elem_of_dom. destruct (Hprev _ _ Hv) as [_ [->|(u&edge&d'&_&He&_)]]; [set_solver|].
    apply elem_of_union. right. by apply elem_of_targets in He. }
  apply subseteq_size in Hsub. rewrite size_union_alt, size_singleton in Hsub.
  assert (size (targets p Outgoing ∖ {[from]}) ≤ size (targets p Outgoing)) by (apply subseteq_size; set_solver).
  pose proof (size_targets p Outgoing). lia.
Qed.

Lemma searching_start :
  searching None {| path_queue := [(from, 0)]; path_visited := {[from]}; previous := ∅;
                    path_truncated := false |} {[from := 0]}.
Proof.
  split; simpl.
  - split.
    + intros v ->. by rewrite lookup_singleton_eq.
    + intros v d [<- <-]%lookup_singleton_Some. by constructor.
    + intros v d [= -> ->]%list_elem_of_singleton. by rewrite lookup_singleton_eq.
    + repeat constructor.
    + intros v d k w [= -> ->]%list_elem_of_singleton [<- <-]%lookup_singleton_Some. lia.
    + intros v d [<- <-]%lookup_singleton_Some Hnot. destruct Hnot. by apply list_elem_of_singleton.
  - by rewrite dom_singleton_L.
  - split_and!; [by rewrite map_size_singleton, map_size_empty|by rewrite lookup_singleton_eq| |].
    + intros v [? ?]. done.
    + intros v d [<- <-]%lookup_singleton_Some. split; [lia|by left].
  - by rewrite lookup_singleton_ne.
Qed.
End shortest.

(** C33. The search for a shortest path decides bounded reachability: it always
    returns; a path it gives leads from the source to the target along edges of
    the partition, is within the depth limit and no walk is shorter; if it gives
    none without saying that it was cut off there is no walk at all, and if it
    was cut off every walk is longer than the depth limit or the limit on
    visited nodes is below the size of the partition. *)
Theorem shortest_path_decides p from goal max_depth max_visited :
  ∃ r, shortest_path p from goal max_depth max_visited = Some r ∧
    ((∃ ns, result_nodes r = from :: ns ∧ walk p from (result_edges r) ns goal ∧
        length (result_edges r) ≤ max_depth ∧
        ∀ es ns', walk p from es ns' goal → length (result_edges r) ≤ length es) ∨
     (result_nodes r = [] ∧ result_edges r = [] ∧
        ∀ es ns, walk p from es ns goal →
          truncated r = true ∧ (max_depth < length es ∨ max_visited ≤ S (size (edges p))))).
Proof.
  unfold shortest_path. destruct (decide (from = goal)) as [->|Hne].
  { eexists. split; [done|]. left. exists []. simpl. split_and!; [done|constructor|lia|lia]. }
  pose proof (size_targets p Outgoing) as Htargets.
  destruct (search_path_ok p from goal max_depth (max max_visited 1) (S (size (edges p)))
    _ _ (searching_start p from goal max_depth (max max_visited 1) Hne)) as (s&found&Hs&Hfound).
  { simpl. assert (size (targets p Outgoing ∖ {[from]}) ≤ size (targets p Outgoing)); [|lia].
    apply subseteq_size. set_solver. }
  rewrite Hs. simpl. destruct found.
  - destruct Hfound as (k&Hk&Hdepth&Hnear).
    destruct (reconstruct_ok p from goal s k Hk) as (es&ns&Hw&Hlen&->).
    eexists. split; [done|]. left. exists ns. simpl. split_and!; [done|done|lia|].
    intros es' ns' Hw'. specialize (Hnear (length es' + 0)). rewrite Hlen. apply Nat.le_succ_l.
    rewrite Nat.add_0_r in Hnear. apply Hnear. rewrite <-(Nat.add_0_r (length es')).
    by apply (walk_reach p from _ 0 _ ns'); [constructor|].
  - eexists. split; [done|]. right. simpl. split_and!; [done|done|]. intros es ns Hw.
    destruct Hfound as (D&[Hf Hd Hp Hgoal]&Hempty). rewrite Hempty in Hf.
    assert (reach (step_to p Outgoing) (λ v, v = from) (length es + 0) goal) as Hr
      by by apply (walk_reach p from _ 0 _ ns); [constructor|].
    rewrite Nat.add_0_r in Hr.
    destruct (path_truncated s) eqn:Hcut.
    + split; [done|]. destruct (le_lt_dec (length es) max_depth) as [Hle|]; [right|by left].
      destruct (le_lt_dec (max max_visited 1) (size D)) as [Hlimit|Hlimit].
      2: { destruct (frontier_empty _ _ _ _ _ _ _ _ Hf ltac:(done) Hr) as (d&?&_). congruence. }
      pose proof (visited_below p from goal Hne (previous s) D Hp). lia.
    + destruct (frontier_empty _ _ _ _ _ _ _ _ Hf ltac:(done) Hr) as (d&?&_). congruence.
Qed.

(** * Impact *)

Section impact.
Context (p : GraphPartition) (direction : TraversalDirection) (roots : gset NodeId).
Context (max_depth max_nodes : nat).

Abbreviation ifront := (frontier (step_to p direction) (λ v, v ∈ roots) max_depth max_nodes).
Abbreviation ireach := (reach (step_to p direction) (λ v, v ∈ roots)).

Record spreading (cur : option NodeId) (s : ImpactSearch) (D : gmap NodeId nat) : Prop := {
  sp_front : ifront (impact_truncated s) cur (impact_queue s) D;
  sp_dom : dom D = impact_visited s;
  sp_depth v d : D !! v = Some d → d ≤ max_depth;
  sp_size : size D ≤ max_nodes;
  sp_edges edge : edge ∈ impact_edges s →
    ∃ u v, joins p direction edge u v ∧ u ∈ impact_visited s ∧ v ∈ impact_visited s;
}.

Lemma impact_visit_ok u k l s D :
  spreading (Some u) s D → working k (impact_queue s) D → D !! u = Some k → k < max_depth →
  (∀ edge w, (edge, w) ∈ l → joins p direction edge u w) →
  (∀ w, step_to p direction u w →
     (∃ edge, (edge, w) ∈ l) ∨ ∃ d, D !! w = Some d ∧ d ≤ S k) →
  ∃ D', spreading None (impact_visit max_nodes k l s) D' ∧
    length (impact_queue (impact_visit max_nodes k l s)) +
      size (targets p direction ∖ impact_visited (impact_visit max_nodes k l s)) ≤
    length (impact_queue s) + size (targets p direction ∖ impact_visited s).
Proof.
  revert s D. induction l as [|[edge w] l IH]; intros s D Hs Hwork Hu Hk Hl Hmore; simpl.
  { exists D. split; [|done]. destruct Hs as [Hf Hd Hp Hg He]. split; try done.
    apply (frontier_done _ _ _ _ (impact_truncated s) _ u k); [done..|].
    right. right. intros w [[? []%elem_of_nil]|Hw]%Hmore. done. }
  pose proof Hs as [Hf Hd Hp Hg He].
  assert (size (impact_visited s) = size D) as -> by by rewrite <-Hd, size_dom.
  destruct (max_nodes <=? size D) eqn:Hlimit; [apply Nat.leb_le in Hlimit|apply Nat.leb_gt in Hlimit].
  { exists D. split; [|done]. split; try done. simpl.
    apply (frontier_done _ _ _ _ (impact_truncated s) _ u k); [done..|]. right. left. done. }
  assert (joins p direction edge u w) as Hedge by (apply Hl; left).
  assert (∀ e' w', (e', w') ∈ l → joins p direction e' u w') as Hl' by (intros e' w' ?; apply Hl; by right).
  assert (u ∈ impact_visited s) as Huv by (rewrite <-Hd; by apply elem_of_dom).
  assert (∀ V : gset NodeId, impact_visited s ⊆ V → w ∈ V →
    ∀ e', e' ∈ {[edge]} ∪ impact_edges s → ∃ u' v', joins p direction e' u' v' ∧ u' ∈ V ∧ v' ∈ V) as He'.
  { intros V HV Hw e' [->%elem_of_singleton|(u'&v'&?&?&?)%He]%elem_of_union; [exists u, w|exists u', v']; set_solver. }
  destruct (decide (w ∈ impact_visited s)) as [Hin|Hnew].
  - rewrite bool_decide_false by tauto.
    assert ({[w]} ∪ impact_visited s = impact_visited s) as -> by set_solver.
    refine (IH {| impact_queue := impact_queue s; impact_visited := impact_visited s;
      impact_edges := {[edge]} ∪ impact_edges s; impact_truncated := impact_truncated s |}
      D _ Hwork Hu Hk Hl' _).
    + split; simpl; try done. by apply He'.
    + intros w' Hw'. destruct (Hmore _ Hw') as [(e'&[[= -> ->]|Hin']%elem_of_cons)|?]; [|left; eauto|by right].
      right. rewrite <-Hd in Hin. apply elem_of_dom in Hin as [d Hin]. exists d. split; [done|]. by apply Hwork in Hin.
  - rewrite bool_decide_true by done.
    assert (D !! w = None) as Hw by by rewrite <-Hd in Hnew; apply not_elem_of_dom in Hnew.
    destruct (frontier_add _ _ _ _ _ _ _ _ _ _ Hf Hwork Hu Hw ltac:(by exists edge)) as [Hf' Hwork'].
    edestruct (IH {| impact_queue := impact_queue s ++ [(w, S k)]; impact_visited := {[w]} ∪ impact_visited s;
      impact_edges := {[edge]} ∪ impact_edges s; impact_truncated := impact_truncated s |} (<[w := S k]> D))
      as (D'&Hs'&Hle); simpl; [|done| |done|done| |].
    + split; simpl; [done|by rewrite dom_insert_L, Hd| | |].
      * intros v d [[<- <-]|[_ Hv]]%lookup_insert_Some; [lia|by apply Hp in Hv].
      * rewrite map_size_insert_None by done. lia.
      * apply He'; set_solver.
    + rewrite lookup_insert_ne by congruence. done.
    + intros w' Hw'. destruct (decide (w' = w)) as [->|Hww].
      * right. exists (S k). by rewrite lookup_insert_eq.
      * rewrite lookup_insert_ne by done.
        destruct (Hmore _ Hw') as [(e'&[[= -> ->]|?]%elem_of_cons)|?]; [done|left; eauto|by right].
    + exists D'. split; [done|]. etrans; [exact Hle|]. simpl. rewrite length_app. simpl.
      pose proof (unvisited_less (targets p direction) (impact_visited s) w
        (elem_of_targets _ _ _ _ _ Hedge) Hnew). lia.
Qed.

Lemma search_impact_ok fuel s D :
  spreading None s D →
  length (impact_queue s) + size (targets p direction ∖ impact_visited s) ≤ fuel →
  ∃ s' D', search_impact fuel (adjacency p direction) max_depth max_nodes s = Some s' ∧
    spreading None s' D' ∧ impact_queue s' = [].
Proof.
  revert s D. induction fuel as [|fuel IH]; intros s D Hs Hfuel; destruct s as [q V es cut]; simpl in *.
  - destruct q; [|simpl in *; lia]. by eexists _, D.
  - destruct q as [|[u k] q]; [by eexists _, D|].
    destruct Hs as [Hf Hd Hp Hg He]; simpl in *.
    destruct (frontier_pop _ _ _ _ _ _ _ _ _ Hf) as [Hf' Hwork].
    assert (D !! u = Some k) as Hu by (eapply fr_queue; [exact Hf|left]).
    destruct (max_depth <=? k) eqn:Hdepth; [apply Nat.leb_le in Hdepth|apply Nat.leb_gt in Hdepth].
    + apply (IH _ D); [|simpl in *; lia]. split; try done. simpl.
      apply (frontier_done _ _ _ _ cut true u k); [done..|by left].
    + set (s1 := {| impact_queue := q; impact_visited := V; impact_edges := es; impact_truncated := cut |}).
      destruct (impact_visit_ok u k (adjacent (adjacency p direction) u) s1 D
        ltac:(by split) Hwork Hu Hdepth (λ edge w, proj1 (elem_of_adjacent p direction u edge w)))
        as (D'&Hs'&Hle).
      { intros w [edge Hw]. left. exists edge. by apply elem_of_adjacent. }
      apply (IH _ D'); [done|]. simpl in *. lia.
Qed.
End impact.

(** An impact analysis always returns; every node it names is reached from a
    root within the depth limit and the roots are among them, the edges it names
    join nodes it names, and unless its limit of nodes was reached every node
    that is within the depth limit is named. If it does not say that it was cut
    off, it names everything that can be reached. *)
Theorem impact_covers p roots direction max_depth max_nodes :
  ∃ r, impact p roots direction max_depth max_nodes = Some r ∧
    NoDup (result_nodes r) ∧ length (result_nodes r) ≤ max max_nodes (size roots) ∧
    (∀ v, v ∈ result_nodes r → ∃ n, n ≤ max_depth ∧ reach (step_to p direction) (λ u, u ∈ roots) n v) ∧
    (∀ edge, edge ∈ result_edges r → ∃ u v, joins p direction edge u v ∧ u ∈ result_nodes r ∧ v ∈ result_nodes r) ∧
    (∀ n v, reach (step_to p direction) (λ u, u ∈ roots) n v →
       (truncated r = true → n ≤ max_depth ∧ length (result_nodes r) < max max_nodes (size roots)) →
       v ∈ result_nodes r).
Proof.
  unfold impact.
  set (D := gset_to_gmap 0 roots : gmap NodeId nat).
  set (start := {| impact_queue := (λ node, (node, 0)) <$> bset_iter roots; impact_visited := roots;
    impact_edges := ∅; impact_truncated := false |}).
  destruct (search_impact_ok p direction roots max_depth (max max_nodes (size roots))
    (size roots + size (edges p)) start D) as (s&D'&->&Hs&Hempty).
  { split; simpl; try done.
    - split.
      + intros v Hv. by apply lookup_gset_to_gmap_Some.
      + intros v d [Hv <-]%lookup_gset_to_gmap_Some. by constructor.
      + intros v d (x&[= -> ->]&Hx%elem_of_bset_iter)%list_elem_of_fmap. by apply lookup_gset_to_gmap_Some.
      + generalize (bset_iter roots). intros l. induction l as [|x l IH]; simpl; constructor; [done|].
        apply Forall_forall. intros y (z&->&_)%list_elem_of_fmap. unfold in_order; simpl. lia.
      + intros v d k w _ [_ <-]%lookup_gset_to_gmap_Some. lia.
      + intros v d [Hv <-]%lookup_gset_to_gmap_Some Hnot. destruct Hnot.
        apply list_elem_of_fmap. exists v. by rewrite elem_of_bset_iter.
    - apply dom_gset_to_gmap.
    - intros v d [_ <-]%lookup_gset_to_gmap_Some. lia.
    - unfold D. rewrite <-size_dom, dom_gset_to_gmap. lia. }
  { simpl. rewrite length_fmap. pose proof (size_targets p direction).
    assert (size (targets p direction ∖ roots) ≤ size (targets p direction)) by (apply subseteq_size; set_solver).
    assert (length (bset_iter roots) = size roots) as ->; [|lia].
    unfold bset_iter. by rewrite merge_sort_Permutation. }
  eexists. split; [done|]. destruct Hs as [Hf Hd Hp Hg He]. rewrite Hempty in Hf. simpl.
  assert (length (bset_iter (impact_visited s)) = size D') as Hlen.
  { rewrite <-Hd. unfold bset_iter. rewrite merge_sort_Permutation. by rewrite <-size_dom. }
  assert (∀ v, v ∈ bset_iter (impact_visited s) ↔ is_Some (D' !! v)) as Hin.
  { intros v. by rewrite elem_of_bset_iter, <-Hd, elem_of_dom. }
  split_and!.
  - apply NoDup_bset_iter.
  - by rewrite Hlen.
  - intros v [d Hv]%Hin. exists d. split; [by apply Hp in Hv|by apply (fr_reach _ _ _ _ _ _ _ _ Hf)].
  - intros edge (u&v&?&?&?)%elem_of_bset_iter%He. exists u, v. by rewrite !elem_of_bset_iter.
  - intros n v Hr Hcut. apply Hin. rewrite Hlen in Hcut.
    destruct (frontier_empty _ _ _ _ _ _ _ _ Hf Hcut Hr) as (d&Hv&_). by exists d.
Qed.

(** * Identities bind *)

(** The length of a text that can be told in 64 bits. *)
Definition sized (part : string) : Prop := is_Some (u64_try_from (String.length part)).

Lemma digest_bytes_written parts h :
  Forall sized parts → write_all write_str parts h = Some (foldl (λ bytes part, bytes +:+ part_bytes part) h parts).
Proof.
  revert h. induction parts as [|part parts IH]; intros h Hs; simpl; [done|].
  apply Forall_cons in Hs as [[n Hn] Hs]. unfold write_str, write_bytes, part_bytes. rewrite Hn. simpl.
  rewrite IH by done. done.
Qed.

(** Equal digests of as many parts: the parts are the same, or two different
    texts have one hash. *)
Lemma graph_digest_binds `{Sha256} parts parts' :
  Forall sized parts → Forall sized parts' → length parts = length parts' →
  graph_digest parts = graph_digest parts' →
  parts = parts' ∨ ∃ x y, x ≠ y ∧ sha256 x = sha256 y.
Proof.
  intros Hp Hp' Hlen Hd. unfold graph_digest, digest_of in Hd.
  destruct (decide (digest_bytes parts = digest_bytes parts')) as [Heq|Hne]; [left|right; by eauto].
  pose proof (digest_bytes_written parts LEGACY_PROTOCOL_V1_CODE_GRAPH_DOMAIN Hp) as H1.
  pose proof (digest_bytes_written parts' LEGACY_PROTOCOL_V1_CODE_GRAPH_DOMAIN Hp') as H2.
  assert (∀ l : list string, Forall anything l) as Hany by (intros l; by apply Forall_forall).
  destruct (write_all_reads anything (=) write_str prefix_code_bytes parts parts'
    LEGACY_PROTOCOL_V1_CODE_GRAPH_DOMAIN _ _ "" "" Hlen (Hany _) (Hany _) H1 H2) as [Hall _].
  { unfold digest_bytes in Heq. by rewrite Heq. }
  clear -Hall. induction Hall; [done|by subst].
Qed.

Lemma digest_to_string_inj' (a b : ContentDigest) : digest_to_string a = digest_to_string b → a = b.
Proof.
  unfold digest_to_string. intros Heq. apply as_bytes_inj, (inj Some).
  by rewrite <-!bytes_of_hex_of_bytes, Heq.
Qed.

(** The identifier of a node tells its partition, kind, name and file. *)
Lemma node_identity_binds `{Sha256} partition kind qualified path partition' kind' qualified' path' :
  sized qualified → sized path → sized qualified' → sized path' →
  node_identity partition kind qualified path = node_identity partition' kind' qualified' path' →
  (partition = partition' ∧ kind = kind' ∧ qualified = qualified' ∧ path = path') ∨
  ∃ x y, x ≠ y ∧ sha256 x = sha256 y.
Proof.
  intros Hq Hp Hq' Hp' Heq. unfold node_identity in Heq.
  assert (∀ d : ContentDigest, sized (digest_to_string d)) as Hd.
  { intros d. unfold sized, digest_to_string, as_bytes. rewrite length_hex_of_bytes, length_be_bytes. by eexists. }
  assert (∀ k, sized (node_kind_name k)) as Hk by (intros []; by eexists).
  assert (∀ d k q f, sized q → sized f →
    Forall sized ["node"; digest_to_string d; node_kind_name k; q; f]) as Hall.
  { intros d k q f Hsq Hsf. by repeat (constructor; [first [done|apply Hd|apply Hk|by eexists]|]). }
  destruct (graph_digest_binds _ _ (Hall partition kind _ _ Hq Hp) (Hall partition' kind' _ _ Hq' Hp')
    eq_refl Heq) as [Hparts|?]; [left|by right].
  split_and!.
  - apply digest_to_string_inj', (f_equal (λ l, nth 1 l "") Hparts).
  - pose proof (f_equal (λ l, nth 2 l "") Hparts) as Hkind. by destruct kind, kind'.
  - exact (f_equal (λ l, nth 3 l "") Hparts).
  - exact (f_equal (λ l, nth 4 l "") Hparts).
Qed.

(** * Partitions that validate *)

Record partition_ok `{Sha256, UuidText} (p : GraphPartition) : Prop := {
  po_scope : is_blank (scope p) = false;
  po_id : partition_id p = partition_id_new (project_id p) (scope p);
  po_nodes k n : nodes p !! k = Some n → k = node_id n ∧ node_partition n = partition_id p;
  po_edges k e : edges p !! k = Some e → k = edge_id e ∧ edge_partition e = partition_id p ∧
    known p (source e) = true ∧ known p (target e) = true;
}.

Lemma existsb_map_false {K V} `{Countable K} (f : K * V → bool) (m : gmap K V) :
  existsb f (map_to_list m) = false ↔ ∀ k v, m !! k = Some v → f (k, v) = false.
Proof.
  rewrite <-not_true_iff_false, existsb_exists. split.
  - intros Hno k v Hkv. destruct (f (k, v)) eqn:Hf; [|done]. destruct Hno. exists (k, v).
    split; [|done]. by apply list_elem_of_In, elem_of_map_to_list.
  - intros Hall ([k v]&Hin&Hf). apply list_elem_of_In, elem_of_map_to_list, Hall in Hin. congruence.
Qed.

Lemma partition_validate_ok `{Sha256, UuidText} p : partition_validate p = Ok tt ↔ partition_ok p.
Proof.
  unfold partition_validate. rewrite !result_then_ok, !reject_if_ok, !orb_false_iff, !negb_false_iff,
    bool_decide_eq_true, !existsb_map_false. split.
  - intros ([Hscope Hid]&[Hn He]&Hk). split; [done..| |].
    + intros k n Hkn. apply Hn in Hkn. unfold misplaced_node in Hkn. to_prop. done.
    + intros k e Hke. specialize (He _ _ Hke). specialize (Hk _ _ Hke). unfold misplaced_edge in He.
      simpl in *. to_prop. done.
  - intros [Hscope Hid Hn He]. split_and!; [done|done| | |].
    + intros k n Hkn. apply Hn in Hkn as [-> Hp]. unfold misplaced_node. simpl.
      by rewrite !bool_decide_true.
    + intros k e Hke. apply He in Hke as (->&Hp&_). unfold misplaced_edge. simpl.
      by rewrite !bool_decide_true.
    + intros k e Hke. apply He in Hke as (_&_&Hs&Ht). simpl. by rewrite Hs, Ht.
Qed.

(** What a reconciliation gives validates; every fact of a file that is not owned
    stays as it was, but for the edges to and from nodes of an owned file. *)
Lemma reconcile_ok `{Sha256, UuidText} p c p' :
  reconcile p c = Ok p' →
  partition_ok p' ∧ partition_id p' = partition_id p ∧
  (∀ k n, nodes p !! k = Some n → node_path n ∉ owned_files c → new_nodes c !! k = None →
     nodes p' !! k = Some n) ∧
  (∀ k n, nodes p' !! k = Some n → node_path n ∈ owned_files c → new_nodes c !! k = Some n).
Proof.
  unfold reconcile. rewrite !result_then_ok. intros (_&_&Hv%map_err_ok&[= <-]). split; [by apply partition_validate_ok|].
  split; [done|]. simpl. unfold reconciled_nodes. split.
  - intros k n Hkn Hnot Hnew. rewrite lookup_union_r by done. by apply map_lookup_filter_Some.
  - intros k n Hkn Hin. apply lookup_union_Some_raw in Hkn as [?|[_ Hkn]]; [done|].
    by apply map_lookup_filter_Some in Hkn as [_ Hn].
Qed.

(** What is taken as context fits its budget. *)
Lemma context_within_budget `{ToJson ContextItem} p selected level sources budget :
  (max_bytes budget < u64_max)%N →
  let b := context_bundle p selected level sources budget in
  (bundle_bytes b ≤ max_bytes budget)%N ∧ length (bundle_items b) ≤ max_items budget ∧
  bundle_bytes b = foldr (λ item n, default u64_max (str_len <$> to_vec item) + n)%N 0%N (bundle_items b).
Proof.
  intros Hmax. unfold context_bundle.
  set (l := take (max_items budget) (merge_sort item_le _)).
  pose proof (take_within_spec (λ item : ContextItem, str_len <$> to_vec item) (max_bytes budget) l 0
    ltac:(lia)) as Hspec.
  destruct (take_within _ (max_bytes budget) 0 l) as [items bytes].
  destruct Hspec as (rest&Hl&Hle&->&_). simpl. split_and!; [done| |by rewrite N.add_0_l].
  assert (length l ≤ max_items budget) as Hlen by (unfold l; rewrite length_take; lia).
  rewrite Hl, length_app in Hlen. lia.
Qed.

(** * Examples *)

Section examples.
#[local] Instance sample_sha256 : Sha256 := toy_sha256.
#[local] Instance sample_uuid_text : UuidText :=
  {| uuid_text u := uuid_bytes u; uuid_parse s := Some (word_of 128 (be_value s)) |}.

Definition sample_partition : PartitionId := partition_id_new (word_of 128 1) "src".
Definition sample_node (name path : string) : GraphNode :=
  {| node_confidence := Extracted; node_id := node_identity sample_partition NK_Symbol name path;
     node_kind := NK_Symbol; node_name := name; node_partition := sample_partition;
     node_provider := ManifestProvider; qualified_name := name; node_range := None; node_path := path |}.
Definition sample_edge (u v : GraphNode) : GraphEdge :=
  {| edge_confidence := Extracted;
     edge_id := edge_identity sample_partition EK_Calls (node_id u) (node_id v);
     edge_kind := EK_Calls; edge_partition := sample_partition; edge_provider := ManifestProvider;
     edge_range := None; source := node_id u; edge_path := node_path u; target := node_id v |}.
Definition keyed_nodes (l : list GraphNode) : gmap NodeId GraphNode :=
  list_to_map ((λ n, (node_id n, n)) <$> l).
Definition keyed_edges (l : list GraphEdge) : gmap EdgeId GraphEdge :=
  list_to_map ((λ e, (edge_id e, e)) <$> l).
Definition caller : GraphNode := sample_node "caller" "src/a.rs".
Definition callee : GraphNode := sample_node "callee" "src/b.rs".
Definition sample_graph : GraphPartition :=
  {| edges := keyed_edges [sample_edge caller callee]; external_nodes := ∅;
     partition_id := sample_partition; nodes := keyed_nodes [caller; callee];
     project_id := word_of 128 1; scope := "src" |}.

Example sample_graph_validates : partition_validate sample_graph = Ok tt.
Proof. vm_compute. reflexivity. Qed.
Example sample_path :
  (λ r, (result_nodes r, truncated r)) <$> shortest_path sample_graph (node_id caller) (node_id callee) 4 10 =
  Some ([node_id caller; node_id callee], false).
Proof. vm_compute. reflexivity. Qed.

(** A file that is read again without a change loses the edges that other files
    have to its nodes, although the nodes are still there. *)
Example reconciled_edge_lost :
  let again := {| complete := true; new_edges := ∅; new_external := ∅;
    new_nodes := keyed_nodes [callee]; owned_files := {["src/b.rs"]};
    candidate_partition := sample_partition |} in
  match reconcile sample_graph again with
  | Ok p => bool_decide (nodes p = nodes sample_graph) && bool_decide (edges p = ∅)
  | Err _ => false
  end = true.
Proof. vm_compute. reflexivity. Qed.
End examples.
End CodeGraph.
