(* ===== verification/Extract.v ===== *)
(** The extraction of facts from source files in workflow-code-intel: the run of a
    parser (parser/runtime.rs), the tables of the languages (languages/*.rs), the
    walk over a syntax tree that makes a partition (languages/adapter.rs), the
    fallback for other files (languages/fallback.rs) and the facts of a language
    server (lsp.rs). What a tree-sitter grammar makes of a source is not in the
    repository: it is the class [Grammars]. *)
From Stdlib Require Import Ascii String.
From S2P Require Import Prelude Text Ids Paths Canonical CodeGraph.

Module Extract.
Import CodeGraph.

(** * Syntax trees *)

(** [Node::start_byte] and the like; rows and columns are from zero. *)
Record Span : Type := {
  byte_start : N; row_start : N; column_start : N;
  byte_end : N; row_end : N; column_end : N;
}.

(** The visible nodes of a tree; a child may be the value of a field. *)
Inductive SyntaxNode : Type :=
| Syntax (kind : string) (named : bool) (span : Span) (children : list (option string * SyntaxNode)).

Definition kind (t : SyntaxNode) : string := let 'Syntax kind _ _ _ := t in kind.
Definition is_named (t : SyntaxNode) : bool := let 'Syntax _ named _ _ := t in named.
Definition span (t : SyntaxNode) : Span := let 'Syntax _ _ span _ := t in span.
Definition fields (t : SyntaxNode) : list (option string * SyntaxNode) := let 'Syntax _ _ _ l := t in l.
Definition children (t : SyntaxNode) : list SyntaxNode := (fields t).*2.

Definition child_by_field_name (field : string) (t : SyntaxNode) : option SyntaxNode :=
  snd <$> find (λ c : option string * SyntaxNode, bool_decide (c.1 = Some field)) (fields t).
Definition first_named_child (t : SyntaxNode) : option SyntaxNode :=
  find is_named (children t).

(** The bytes of a node. *)
Definition slice (source : string) (t : SyntaxNode) : string :=
  chars_str (take (N.to_nat (byte_end (span t) - byte_start (span t)))
               (drop (N.to_nat (byte_start (span t))) (str_chars source))).

Fixpoint tree_size (t : SyntaxNode) : nat :=
  let 'Syntax _ _ _ l := t in S (sum_list_with (λ c, tree_size c.2) l).

(** * Cursors *)

(** A cursor: the node it is at and, for each node above, its children to the
    right of the way down. *)
Record TreeCursor : Type := {
  cursor_node : SyntaxNode;
  above : list (SyntaxNode * list SyntaxNode);
}.
Definition goto_first_child (c : TreeCursor) : option TreeCursor :=
  match children (cursor_node c) with
  | [] => None
  | child :: rest => Some {| cursor_node := child; above := (cursor_node c, rest) :: above c |}
  end.
Definition goto_next_sibling (c : TreeCursor) : option TreeCursor :=
  match above c with
  | (parent, sibling :: rest) :: up => Some {| cursor_node := sibling; above := (parent, rest) :: up |}
  | _ => None
  end.
Definition goto_parent (c : TreeCursor) : option TreeCursor :=
  match above c with
  | (parent, _) :: up => Some {| cursor_node := parent; above := up |}
  | [] => None
  end.

(** The inner loop of [count_nodes]: up until there is a sibling; [None] when it
    returns. The path above a cursor has a node less after every turn. *)
Fixpoint climb (fuel : nat) (c : TreeCursor) : option TreeCursor :=
  match goto_next_sibling c with
  | Some c => Some c
  | None =>
      match goto_parent c with
      | None => None
      | Some c => match fuel with O => None | S fuel => climb fuel c end
      end
  end.
Fixpoint count_loop (fuel : nat) (c : TreeCursor) (count : N) : option N :=
  match fuel with
  | O => None
  | S fuel =>
      match goto_first_child c with
      | Some c => count_loop fuel c (count + 1)
      | None =>
          match goto_next_sibling c with
          | Some c => count_loop fuel c (count + 1)
          | None =>
              match climb (length (above c)) c with
              | Some c => count_loop fuel c (count + 1)
              | None => Some count
              end
          end
      end
  end.
Definition count_nodes (root : SyntaxNode) : option N :=
  count_loop (tree_size root) {| cursor_node := root; above := [] |} 1.

(** * The run of a parser *)

Record ParseLimits : Type := { parse_max_bytes : N; parse_max_millis : N }.
Record ParserRuntime : Type := { cancelled : bool; limits : ParseLimits }.
Record ParsedTree : Type := { has_error : bool; node_count : N; tree : SyntaxNode }.
Inductive ParseError : Type := Cancelled | ParseFailed | FileTooLarge | IncompatibleLanguage | TimedOut.

(** What a parser does with a source: its language may not fit the library, the
    progress callback may stop it, it may give no tree. *)
Inductive ParserOutcome : Type :=
| Incompatible
| StoppedByCancellation
| StoppedByTimeout
| NoTree
| Parsed (has_error : bool) (root : SyntaxNode).

(** The grammars, by the constant of their crate. *)
Class Grammars := parse_with_options : string → ParseLimits → string → ParserOutcome.

Definition parser_new (limits : ParseLimits) : ParserRuntime := {| cancelled := false; limits := limits |}.

(** [ParserRuntime::parse]. *)
Definition parse `{Grammars} (r : ParserRuntime) (language source : string) : result ParseError ParsedTree :=
  _ ← reject_if (parse_max_bytes (limits r) <? str_len source)%N FileTooLarge;
  _ ← reject_if (cancelled r) Cancelled;
  match parse_with_options language (limits r) source with
  | Incompatible => Err IncompatibleLanguage
  | StoppedByCancellation => Err Cancelled
  | StoppedByTimeout => Err TimedOut
  | NoTree => Err ParseFailed
  | Parsed has_error root =>
      count ← ok_or ParseFailed (count_nodes root);
      Ok {| has_error := has_error; node_count := count; tree := root |}
  end.

(** * Languages *)

Inductive LanguageId : Type :=
| Bash | C | CSharp | Cpp | Css | Dart | Go | Html | Java | Json | Kotlin | Php | PowerShell | Python | Ruby
| Rust | Sql | Swift | Toml | Tsx | TypeScript | Xml | Yaml.
#[export] Instance LanguageId_eq_dec : EqDecision LanguageId.
Proof. solve_decision. Defined.

(** [LanguageId::name]. *)
Definition language_name (l : LanguageId) : string :=
  match l with
  | Bash => "bash" | C => "c" | CSharp => "csharp" | Cpp => "cpp" | Css => "css" | Dart => "dart"
  | Go => "go" | Html => "html" | Java => "java" | Json => "json" | Kotlin => "kotlin" | Php => "php"
  | PowerShell => "powershell" | Python => "python" | Ruby => "ruby" | Rust => "rust" | Sql => "sql"
  | Swift => "swift" | Toml => "toml" | Tsx => "tsx" | TypeScript => "typescript" | Xml => "xml"
  | Yaml => "yaml"
  end.

Record AdapterCapabilities : Type := {
  cap_calls : bool; cap_configuration : bool; cap_dependencies : bool; cap_inheritance : bool;
  cap_routes : bool; cap_schemas : bool; cap_symbols : bool;
}.

Definition FULL : AdapterCapabilities :=
  {| cap_calls := true; cap_configuration := true; cap_dependencies := true; cap_inheritance := true;
     cap_routes := true; cap_schemas := true; cap_symbols := true |}.
Definition STRUCTURED_DATA : AdapterCapabilities :=
  {| cap_calls := false; cap_configuration := true; cap_dependencies := false; cap_inheritance := false;
     cap_routes := false; cap_schemas := false; cap_symbols := false |}.
Definition SHELL : AdapterCapabilities :=
  {| cap_calls := true; cap_configuration := true; cap_dependencies := true; cap_inheritance := false;
     cap_routes := false; cap_schemas := false; cap_symbols := true |}.
Definition SQL : AdapterCapabilities :=
  {| cap_calls := true; cap_configuration := false; cap_dependencies := true; cap_inheritance := false;
     cap_routes := false; cap_schemas := true; cap_symbols := true |}.
Definition WEB : AdapterCapabilities :=
  {| cap_calls := false; cap_configuration := true; cap_dependencies := true; cap_inheritance := false;
     cap_routes := false; cap_schemas := false; cap_symbols := true |}.

Record LanguageAdapter : Type := {
  capabilities : AdapterCapabilities;
  call_kinds : list string;
  configuration_kinds : list string;
  dependency_kinds : list string;
  language_id : LanguageId;
  inheritance_kinds : list string;
  language : string;
  route_kinds : list string;
  schema_kinds : list string;
  symbol_kinds : list string;
}.

(** c_family.rs *)
Definition c_family_adapter (id : LanguageId) (language : string) : LanguageAdapter :=
  {| capabilities := FULL;
     call_kinds := ["call_expression"];
     configuration_kinds := ["preproc_def"; "preproc_function_def"];
     dependency_kinds := ["preproc_include"];
     language_id := id;
     inheritance_kinds := ["base_class_clause"];
     language := language;
     route_kinds := [];
     schema_kinds := ["enum_specifier"; "struct_specifier"];
     symbol_kinds := ["class_specifier"; "enum_specifier"; "function_definition"; "struct_specifier"] |}.
Definition c_adapter : LanguageAdapter := c_family_adapter C "tree_sitter_c::LANGUAGE".
Definition cpp_adapter : LanguageAdapter := c_family_adapter Cpp "tree_sitter_cpp::LANGUAGE".

(** csharp.rs *)
Definition csharp_adapter : LanguageAdapter :=
  {| capabilities := FULL;
     call_kinds := ["invocation_expression"; "object_creation_expression"];
     configuration_kinds := ["attribute"];
     dependency_kinds := ["using_directive"];
     language_id := CSharp;
     inheritance_kinds := ["base_list"];
     language := "tree_sitter_c_sharp::LANGUAGE";
     route_kinds := ["attribute"];
     schema_kinds := ["class_declaration"; "record_declaration"; "struct_declaration"];
     symbol_kinds := ["class_declaration"; "interface_declaration"; "method_declaration";
                      "record_declaration"; "struct_declaration"] |}.

(** dart.rs *)
Definition dart_adapter : LanguageAdapter :=
  {| capabilities := FULL;
     call_kinds := ["selector"; "unconditional_assignable_selector"];
     configuration_kinds := ["metadata"];
     dependency_kinds := ["export_specification"; "import_specification"; "part_directive"];
     language_id := Dart;
     inheritance_kinds := ["interfaces"; "mixins"; "superclass"];
     language := "tree_sitter_dart::LANGUAGE";
     route_kinds := ["metadata"];
     schema_kinds := ["class_definition"; "enum_declaration"];
     symbol_kinds := ["class_definition"; "function_signature"; "method_signature"] |}.

(** data.rs *)
Definition data_adapter (id : LanguageId) (language : string) (configuration_kinds : list string)
    : LanguageAdapter :=
  {| capabilities := STRUCTURED_DATA;
     call_kinds := []; configuration_kinds := configuration_kinds; dependency_kinds := [];
     language_id := id; inheritance_kinds := []; language := language;
     route_kinds := []; schema_kinds := []; symbol_kinds := [] |}.
Definition json_adapter : LanguageAdapter := data_adapter Json "tree_sitter_json::LANGUAGE" ["pair"].
Definition yaml_adapter : LanguageAdapter :=
  data_adapter Yaml "tree_sitter_yaml::LANGUAGE" ["block_mapping_pair"; "flow_pair"].
Definition toml_adapter : LanguageAdapter :=
  data_adapter Toml "tree_sitter_toml_ng::LANGUAGE" ["pair"; "table"; "table_array_element"].
Definition xml_adapter : LanguageAdapter :=
  data_adapter Xml "tree_sitter_xml::LANGUAGE_XML" ["attribute"; "element"].

(** ecmascript.rs *)
Definition SYMBOLS : list string :=
  ["class_declaration"; "function_declaration"; "interface_declaration"; "method_definition";
   "type_alias_declaration"].
Definition DEPENDENCIES : list string := ["import_statement"; "export_statement"].
Definition CALLS : list string := ["call_expression"; "new_expression"].
Definition ecmascript_adapter (id : LanguageId) (language : string) : LanguageAdapter :=
  {| capabilities := FULL;
     call_kinds := CALLS;
     configuration_kinds := ["pair"];
     dependency_kinds := DEPENDENCIES;
     language_id := id;
     inheritance_kinds := ["class_heritage"];
     language := language;
     route_kinds := ["call_expression"];
     schema_kinds := ["interface_declaration"; "type_alias_declaration"];
     symbol_kinds := SYMBOLS |}.
Definition typescript_adapter : LanguageAdapter :=
  ecmascript_adapter TypeScript "tree_sitter_typescript::LANGUAGE_TYPESCRIPT".
Definition tsx_adapter : LanguageAdapter := ecmascript_adapter Tsx "tree_sitter_typescript::LANGUAGE_TSX".

(** go.rs *)
Definition go_adapter : LanguageAdapter :=
  {| capabilities := FULL;
     call_kinds := ["call_expression"];
     configuration_kinds := ["composite_literal"];
     dependency_kinds := ["import_declaration"; "import_spec"];
     language_id := Go;
     inheritance_kinds := ["interface_type"];
     language := "tree_sitter_go::LANGUAGE";
     route_kinds := ["call_expression"];
     schema_kinds := ["struct_type"];
     symbol_kinds := ["function_declaration"; "method_declaration"; "type_declaration"] |}.

(** jvm.rs *)
Definition java_adapter : LanguageAdapter :=
  {| capabilities := FULL;
     call_kinds := ["method_invocation"; "object_creation_expression"];
     configuration_kinds := ["annotation"];
     dependency_kinds := ["import_declaration"; "package_declaration"];
     language_id := Java;
     inheritance_kinds := ["superclass"; "super_interfaces"];
     language := "tree_sitter_java::LANGUAGE";
     route_kinds := ["annotation"];
     schema_kinds := ["class_declaration"; "enum_declaration"; "record_declaration"];
     symbol_kinds := ["class_declaration"; "constructor_declaration"; "interface_declaration";
                      "method_declaration"; "record_declaration"] |}.
Definition kotlin_adapter : LanguageAdapter :=
  {| capabilities := FULL;
     call_kinds := ["call_expression"];
     configuration_kinds := ["annotation"];
     dependency_kinds := ["import_header"; "package_header"];
     language_id := Kotlin;
     inheritance_kinds := ["delegation_specifier"];
     language := "tree_sitter_kotlin_ng::LANGUAGE";
     route_kinds := ["annotation"];
     schema_kinds := ["class_declaration"; "object_declaration"];
     symbol_kinds := ["class_declaration"; "function_declaration"; "object_declaration"] |}.

(** php.rs *)
Definition php_adapter : LanguageAdapter :=
  {| capabilities := FULL;
     call_kinds := ["function_call_expression"; "member_call_expression"; "object_creation_expression"];
     configuration_kinds := ["attribute"];
     dependency_kinds := ["namespace_use_declaration"; "require_expression"];
     language_id := Php;
     inheritance_kinds := ["base_clause"; "class_interface_clause"];
     language := "tree_sitter_php::LANGUAGE_PHP";
     route_kinds := ["attribute"];
     schema_kinds := ["class_declaration"; "enum_declaration"];
     symbol_kinds := ["class_declaration"; "function_definition"; "interface_declaration";
                      "method_declaration"; "trait_declaration"] |}.

(** python.rs *)
Definition python_adapter : LanguageAdapter :=
  {| capabilities := FULL;
     call_kinds := ["call"];
     configuration_kinds := ["dictionary"];
     dependency_kinds := ["import_from_statement"; "import_statement"];
     language_id := Python;
     inheritance_kinds := ["argument_list"];
     language := "tree_sitter_python::LANGUAGE";
     route_kinds := ["decorator"];
     schema_kinds := ["class_definition"];
     symbol_kinds := ["class_definition"; "function_definition"] |}.

(** ruby.rs *)
Definition ruby_adapter : LanguageAdapter :=
  {| capabilities := FULL;
     call_kinds := ["call"];
     configuration_kinds := ["pair"];
     dependency_kinds := ["call"];
     language_id := Ruby;
     inheritance_kinds := ["superclass"];
     language := "tree_sitter_ruby::LANGUAGE";
     route_kinds := ["call"];
     schema_kinds := ["class"];
     symbol_kinds := ["class"; "method"; "module"; "singleton_method"] |}.

(** rust.rs *)
Definition rust_adapter : LanguageAdapter :=
  {| capabilities := FULL;
     call_kinds := ["call_expression"; "macro_invocation"];
     configuration_kinds := ["attribute_item"];
     dependency_kinds := ["extern_crate_declaration"; "use_declaration"];
     language_id := Rust;
     inheritance_kinds := ["impl_item"; "trait_bounds"];
     language := "tree_sitter_rust::LANGUAGE";
     route_kinds := ["attribute_item"];
     schema_kinds := ["enum_item"; "struct_item"];
     symbol_kinds := ["enum_item"; "function_item"; "mod_item"; "struct_item"; "trait_item"] |}.

(** shell.rs *)
Definition bash_adapter : LanguageAdapter :=
  {| capabilities := SHELL;
     call_kinds := ["command"; "command_substitution"];
     configuration_kinds := ["variable_assignment"];
     dependency_kinds := ["command"];
     language_id := Bash;
     inheritance_kinds := [];
     language := "tree_sitter_bash::LANGUAGE";
     route_kinds := [];
     schema_kinds := [];
     symbol_kinds := ["function_definition"] |}.
Definition powershell_adapter : LanguageAdapter :=
  {| capabilities := SHELL;
     call_kinds := ["command"; "invokation_expression"];
     configuration_kinds := ["assignment_expression"; "hash_entry"];
     dependency_kinds := ["using_statement"];
     language_id := PowerShell;
     inheritance_kinds := [];
     language := "tree_sitter_powershell::LANGUAGE";
     route_kinds := [];
     schema_kinds := [];
     symbol_kinds := ["class_statement"; "function_statement"] |}.

(** sql.rs *)
Definition sql_adapter : LanguageAdapter :=
  {| capabilities := SQL;
     call_kinds := ["invocation"];
     configuration_kinds := [];
     dependency_kinds := ["relation"; "table_reference"];
     language_id := Sql;
     inheritance_kinds := [];
     language := "tree_sitter_sequel::LANGUAGE";
     route_kinds := [];
     schema_kinds := ["alter_table"; "alter_view"; "create_materialized_view"; "create_table"; "create_view"];
     symbol_kinds := ["create_function"; "function_declaration"] |}.

(** swift.rs *)
Definition swift_adapter : LanguageAdapter :=
  {| capabilities := FULL;
     call_kinds := ["call_expression"];
     configuration_kinds := ["attribute"];
     dependency_kinds := ["import_declaration"];
     language_id := Swift;
     inheritance_kinds := ["inheritance_specifier"];
     language := "tree_sitter_swift::LANGUAGE";
     route_kinds := ["attribute"];
     schema_kinds := ["class_declaration"; "enum_declaration"; "struct_declaration"];
     symbol_kinds := ["class_declaration"; "function_declaration"; "protocol_declaration";
                      "struct_declaration"] |}.

(** web.rs *)
Definition html_adapter : LanguageAdapter :=
  {| capabilities := WEB;
     call_kinds := [];
     configuration_kinds := ["attribute"];
     dependency_kinds := ["script_element"; "style_element"];
     language_id := Html;
     inheritance_kinds := [];
     language := "tree_sitter_html::LANGUAGE";
     route_kinds := [];
     schema_kinds := [];
     symbol_kinds := ["element"] |}.
Definition css_adapter : LanguageAdapter :=
  {| capabilities := WEB;
     call_kinds := [];
     configuration_kinds := ["declaration"];
     dependency_kinds := ["import_statement"];
     language_id := Css;
     inheritance_kinds := [];
     language := "tree_sitter_css::LANGUAGE";
     route_kinds := [];
     schema_kinds := [];
     symbol_kinds := ["class_selector"; "id_selector"; "tag_name"] |}.

(** [Path::file_name]: the last component when it is a normal one. *)
Definition path_file_name (path : string) : option string :=
  name ← last (filter (λ segment, segment ≠ "" ∧ segment ≠ ".") (segments path));
  if decide (name = "..") then None else Some name.
(** [Path::extension]: what follows the last dot that does not start the name. *)
Definition path_extension (path : string) : option string :=
  name ← path_file_name path;
  '(stem, extension) ← rsplit_once (is_char dot) name;
  if decide (stem = "") then None else Some extension.

Definition language_extensions : list (list string * LanguageAdapter) :=
  [(["ts"; "js"; "mjs"; "cjs"], typescript_adapter);
   (["tsx"; "jsx"], tsx_adapter);
   (["py"; "pyi"], python_adapter);
   (["rs"], rust_adapter);
   (["go"], go_adapter);
   (["java"], java_adapter);
   (["kt"; "kts"], kotlin_adapter);
   (["cs"], csharp_adapter);
   (["c"; "h"], c_adapter);
   (["cc"; "cpp"; "cxx"; "hh"; "hpp"; "hxx"], cpp_adapter);
   (["php"], php_adapter);
   (["rb"], ruby_adapter);
   (["swift"], swift_adapter);
   (["dart"], dart_adapter);
   (["sql"], sql_adapter);
   (["html"; "htm"], html_adapter);
   (["css"], css_adapter);
   (["sh"; "bash"], bash_adapter);
   (["ps1"; "psm1"; "psd1"], powershell_adapter);
   (["json"], json_adapter);
   (["yaml"; "yml"], yaml_adapter);
   (["toml"], toml_adapter);
   (["xml"], xml_adapter)].
Definition adapter_for (path : string) : option LanguageAdapter :=
  extension ← path_extension path;
  snd <$> find (λ row, bool_decide (to_ascii_lowercase extension ∈ row.1)) language_extensions.

Definition certified_languages : list LanguageId :=
  [TypeScript; Tsx; Python; Rust; Go; Java; Kotlin; CSharp; C; Cpp; Php; Ruby; Swift; Dart; Sql; Html; Css;
   Bash; PowerShell; Json; Yaml; Toml; Xml].

(** * Facts of a tree *)

Definition route_markers : list string :=
  [".delete("; ".delete"; ".get("; ".get"; ".head("; ".head"; ".options("; ".options"; ".patch("; ".patch";
   ".post("; ".post"; ".put("; ".put"; "@delete"; "@get"; "@patch"; "@post"; "@put"; "@route";
   "[httpdelete"; "[httpget"; "[httppatch"; "[httppost"; "[httpput"; "route("].
Definition is_route_candidate (name : string) : bool :=
  existsb (λ marker, contains_str marker (to_ascii_lowercase name)) route_markers.

Definition name_fields : list string :=
  ["name"; "function"; "type"; "path"; "source"; "module"; "table"; "object"; "tag_name"; "selector"].

(** [Iterator::find_map]. *)
Fixpoint find_map {A B} (f : A → option B) (l : list A) : option B :=
  match l with
  | [] => None
  | a :: l => match f a with Some b => Some b | None => find_map f l end
  end.

Definition naming_node (t : SyntaxNode) : SyntaxNode :=
  match find_map (λ field, child_by_field_name field t) name_fields with
  | Some named => named
  | None => default t (first_named_child t)
  end.
Definition syntax_name (t : SyntaxNode) (source : string) : string :=
  take_chars 256 (trim (default "" (from_utf8 (slice source (naming_node t))))).

Definition range (t : SyntaxNode) : SourceRange :=
  {| end_byte := N.min u64_max (byte_end (span t)); end_column := N.min u32_max (column_end (span t));
     end_line := N.min u32_max (row_end (span t)); start_byte := N.min u64_max (byte_start (span t));
     start_column := N.min u32_max (column_start (span t)); start_line := N.min u32_max (row_start (span t)) |}.

Definition push_fact (facts : list (NodeKind * EdgeKind)) (enabled : bool) (node_kind : NodeKind)
    (edge_kind : EdgeKind) : list (NodeKind * EdgeKind) :=
  if enabled then facts ++ [(node_kind, edge_kind)] else facts.

Definition kind_in (t : SyntaxNode) (kinds : list string) : bool := bool_decide (kind t ∈ kinds).

(** The facts [extract_node] collects about a node and its name. *)
Definition node_facts (a : LanguageAdapter) (t : SyntaxNode) (name : string) : list (NodeKind * EdgeKind) :=
  let facts := push_fact [] (kind_in t (symbol_kinds a)) NK_Symbol EK_Defines in
  let facts := push_fact facts (kind_in t (dependency_kinds a)) NK_Module EK_Imports in
  let facts := push_fact facts (kind_in t (call_kinds a)) NK_Symbol EK_Calls in
  let facts := push_fact facts (kind_in t (inheritance_kinds a)) NK_Symbol EK_Inherits in
  let facts := push_fact facts (kind_in t (route_kinds a) && is_route_candidate name) NK_Route EK_RoutesTo in
  let facts := push_fact facts (kind_in t (configuration_kinds a)) NK_Configuration EK_Configures in
  push_fact facts (kind_in t (schema_kinds a)) NK_Schema EK_DependsOn.

(** The nodes and edges of a partition with others; an entry that is there stays. *)
Definition with_fact (p : GraphPartition) (n : GraphNode) (e : GraphEdge) : GraphPartition :=
  {| edges := edges p ∪ {[edge_id e := e]}; external_nodes := external_nodes p;
     partition_id := partition_id p; nodes := nodes p ∪ {[node_id n := n]}; project_id := project_id p;
     scope := scope p |}.

Definition fact_confidence (edge_kind : EdgeKind) : FactConfidence :=
  match edge_kind with EK_Calls | EK_Inherits => Inferred | _ => Extracted end.
Definition fact_qualified_name (a : LanguageAdapter) (source_path : string) (node_kind : NodeKind)
    (name : string) : string :=
  language_name (language_id a) +:+ "::" +:+ source_path +:+ "::" +:+ node_kind_name node_kind +:+ "::" +:+ name.

Definition insert_fact `{Sha256} (a : LanguageAdapter) (source_path : string) (provider : FactProvider)
    (file : GraphNode) (t : SyntaxNode) (name : string) (p : GraphPartition) (fact : NodeKind * EdgeKind)
    : result GraphError GraphPartition :=
  let '(node_kind, edge_kind) := fact in
  target ← node_new
    {| input_confidence := fact_confidence edge_kind; input_kind := node_kind; input_name := name;
       input_partition := partition_id p; input_provider := provider;
       input_qualified := fact_qualified_name a source_path node_kind name;
       input_range := Some (range t); input_path := source_path |};
  edge ← edge_new
    {| einput_confidence := node_confidence target; einput_kind := edge_kind;
       einput_partition := partition_id p; einput_provider := provider;
       einput_range := node_range target; einput_source := node_id file;
       einput_path := source_path; einput_target := node_id target |};
  Ok (with_fact p target edge).

Definition extract_node `{Sha256} (a : LanguageAdapter) (source source_path : string) (provider : FactProvider)
    (file : GraphNode) (p : GraphPartition) (t : SyntaxNode) : result GraphError GraphPartition :=
  let name := syntax_name t source in
  if decide (name = "") then Ok p
  else try_fold (insert_fact a source_path provider file t name) p (node_facts a t name).

(** * Extraction *)

Record Extraction : Type := {
  extraction_capabilities : AdapterCapabilities;
  has_errors : bool;
  extraction_language : LanguageId;
  extraction_partition : GraphPartition;
}.

(** The loop over the stack, its top first; the children of a node go on it in
    their order. [None] when the fuel runs out. *)
Fixpoint extract_loop `{Sha256} (fuel : nat) (a : LanguageAdapter) (source source_path : string)
    (provider : FactProvider) (file : GraphNode) (stack : list SyntaxNode) (p : GraphPartition)
    : option (result GraphError GraphPartition) :=
  match stack with
  | [] => Some (Ok p)
  | t :: stack =>
      match fuel with
      | O => None
      | S fuel =>
          match extract_node a source source_path provider file p t with
          | Err error => Some (Err error)
          | Ok p => extract_loop fuel a source source_path provider file (reverse (children t) ++ stack) p
          end
      end
  end.

Definition EXTRACT_LIMITS : ParseLimits := {| parse_max_bytes := 4 * 1024 * 1024; parse_max_millis := 5000 |}.

(** The node of the file itself. *)
Definition file_node `{Sha256} (a : LanguageAdapter) (partition : PartitionId) (source_path : string)
    : result GraphError GraphNode :=
  node_new
    {| input_confidence := Extracted; input_kind := NK_File;
       input_name := default source_path (last (split_on is_slash source_path));
       input_partition := partition; input_provider := Parser (language_name (language_id a));
       input_qualified := source_path; input_range := None; input_path := source_path |}.

(** [extract]; [None] if the walk does not end. *)
Definition extract `{Sha256, UuidText, Grammars} (a : LanguageAdapter) (project : ProjectId)
    (scope source_path source : string) : option (result ParseError Extraction) :=
  match parse (parser_new EXTRACT_LIMITS) (language a) source with
  | Err error => Some (Err error)
  | Ok parsed =>
      let partition := partition_id_new project scope in
      match file_node a partition source_path with
      | Err _ => Some (Err ParseFailed)
      | Ok file =>
          let start := {| edges := ∅; external_nodes := ∅; partition_id := partition;
                          nodes := {[node_id file := file]}; project_id := project; scope := scope |} in
          result ← extract_loop (tree_size (tree parsed)) a source source_path
                     (Parser (language_name (language_id a))) file [tree parsed] start;
          Some (p ← map_err (λ _, ParseFailed) result;
                Ok {| extraction_capabilities := capabilities a; has_errors := has_error parsed;
                      extraction_language := language_id a; extraction_partition := p |})
      end
  end.

(** * Other files *)

Record FallbackExtraction : Type := {
  content_sha256 : string;
  matched_lines : list N;
  semantic : bool;
  fallback_path : string;
}.

(** [u32::try_from(line).unwrap_or(u32::MAX)] of the lines with the query. *)
Definition lines_with (query : string) (source : string) : list N :=
  omap (λ entry : nat * string, if contains_str query entry.2 then Some (N.min u32_max (N.of_nat entry.1)) else None)
    (imap pair (lines source)).
(** [fallback::extract]. *)
Definition fallback_extract `{Sha256} (source_path source : string) (query : option string)
    : FallbackExtraction :=
  {| content_sha256 := digest_to_string (digest_of source);
     matched_lines :=
       match query with
       | Some query =>
           if decide (query = "") then []
           else match from_utf8 source with Some source => lines_with query source | None => [] end
       | None => []
       end;
     semantic := false; fallback_path := source_path |}.

(** * Facts of a language server *)

Record LspFactBatch : Type := {
  batch_edges : gmap EdgeId GraphEdge;
  batch_nodes : gmap NodeId GraphNode;
  batch_partition : PartitionId;
  batch_provider : string;
}.
Inductive LspMergeError : Type := InvalidConfidence | LspPartition | InvalidProvider.

Definition foreign_fact (p : GraphPartition) (b : LspFactBatch) (partition : PartitionId)
    (confidence : FactConfidence) (provider : FactProvider) : bool :=
  negb (bool_decide (partition = partition_id p))
  || negb (bool_decide (confidence = Inferred))
  || negb (bool_decide (provider = LanguageServer (batch_provider b))).

(** The partition with the facts that are not there yet. *)
Definition with_batch (b : LspFactBatch) (p : GraphPartition) : GraphPartition :=
  {| edges := edges p ∪ batch_edges b; external_nodes := external_nodes p; partition_id := partition_id p;
     nodes := nodes p ∪ batch_nodes b; project_id := project_id p; scope := scope p |}.

(** [merge_lsp_facts], on the partition it changes. *)
Definition merge_lsp_facts `{Sha256, UuidText} (b : LspFactBatch) : method GraphPartition LspMergeError unit :=
  p ← m_get;
  _ ← m_lift (reject_if (negb (bool_decide (batch_partition b = partition_id p))) LspPartition);
  _ ← m_lift (reject_if (is_blank (batch_provider b)) InvalidProvider);
  _ ← m_lift (reject_if
        (existsb (λ n, foreign_fact p b (node_partition n) (node_confidence n) (node_provider n))
           (map_to_list (batch_nodes b)).*2
         || existsb (λ e, foreign_fact p b (edge_partition e) (edge_confidence e) (edge_provider e))
              (map_to_list (batch_edges b)).*2) InvalidConfidence);
  _ ← m_modify (with_batch b);
  p ← m_get;
  m_lift (map_err (λ _, LspPartition) (partition_validate p)).

(** * Counting the nodes of a tree *)

Definition sum_sizes (l : list SyntaxNode) : nat := sum_list_with tree_size l.
(** The nodes a cursor has not counted above it, and with those below it. *)
Definition rest_above (up : list (SyntaxNode * list SyntaxNode)) : nat := sum_list_with (λ u, sum_sizes u.2) up.
Definition cursor_rest (c : TreeCursor) : nat := sum_sizes (children (cursor_node c)) + rest_above (above c).

(** The nodes of a tree in the order the walk of [extract] meets them. *)
Fixpoint walk_order (t : SyntaxNode) : list SyntaxNode :=
  let 'Syntax _ _ _ l := t in t :: concat (reverse (map (λ c, walk_order c.2) l)).

(** The facts of a node, with the node and its name, and those of a list of nodes. *)
Definition node_steps (a : LanguageAdapter) (source : string) (t : SyntaxNode)
    : list (SyntaxNode * (string * (NodeKind * EdgeKind))) :=
  let name := syntax_name t source in
  if decide (name = "") then [] else (λ fact, (t, (name, fact))) <$> node_facts a t name.
Definition fact_steps (a : LanguageAdapter) (source : string) (l : list SyntaxNode) := l ≫= node_steps a source.

(** The facts of a tree: names with the kinds of their node and edge. *)
Definition tree_facts (a : LanguageAdapter) (source : string) (root : SyntaxNode)
    : list (string * (NodeKind * EdgeKind)) := (fact_steps a source (walk_order root)).*2.

Definition fact_id `{Sha256} (a : LanguageAdapter) (partition : PartitionId) (path : string)
    (fact : string * (NodeKind * EdgeKind)) : NodeId :=
  node_identity partition fact.2.1 (fact_qualified_name a path fact.2.1 fact.1) path.

Lemma tree_size_children t : tree_size t = S (sum_sizes (children t)).
Proof.
  destruct t as [k n s l]. simpl. f_equal. unfold children, sum_sizes. simpl.
  induction l as [|c l IH]; simpl; [done|]. by rewrite IH.
Qed.

Lemma climb_spec fuel c : length (above c) ≤ fuel →
  match climb fuel c with
  | Some c' => tree_size (cursor_node c') + rest_above (above c') = rest_above (above c)
  | None => rest_above (above c) = 0
  end.
Proof.
  revert c. induction fuel as [|fuel IH]; intros [node up] Hlen; simpl in *.
  - destruct up; simpl in *; [done|lia].
  - destruct up as [|[parent [|sibling rest]] up]; unfold goto_next_sibling, goto_parent; simpl in *;
      [done| |unfold rest_above; simpl; lia].
    specialize (IH {| cursor_node := parent; above := up |} ltac:(simpl; lia)). by destruct (climb fuel _).
Qed.

Lemma count_loop_ok fuel c n : cursor_rest c < fuel → count_loop fuel c n = Some (n + N.of_nat (cursor_rest c))%N.
Proof.
  revert c n. induction fuel as [|fuel IH]; intros c n Hfuel; [lia|]. simpl.
  unfold goto_first_child, cursor_rest in *.
  destruct (children (cursor_node c)) as [|child rest] eqn:Hc.
  - simpl in *. destruct (goto_next_sibling c) as [c'|] eqn:Hs.
    + unfold goto_next_sibling in Hs. destruct (above c) as [|[parent [|sibling rest]] up]; try done.
      injection Hs as <-. rewrite IH; simpl; unfold rest_above, sum_sizes in *; simpl in *;
        rewrite (tree_size_children sibling) in *; unfold sum_sizes in *; [f_equal; lia|lia].
    + pose proof (climb_spec (length (above c)) c (le_n _)) as Hclimb.
      destruct (climb _ c) as [c'|]; [|rewrite Hclimb; f_equal; lia].
      rewrite tree_size_children in Hclimb. rewrite IH; unfold cursor_rest; [f_equal; lia|lia].
  - assert (sum_sizes (child :: rest) = S (sum_sizes (children child)) + sum_sizes rest) as Hsize.
    { unfold sum_sizes at 1. simpl. by rewrite tree_size_children. }
    rewrite IH; simpl; unfold rest_above in *; simpl in *; [f_equal; lia|lia].
Qed.

(** Every node of a tree is counted once. *)
Lemma count_nodes_size root : count_nodes root = Some (N.of_nat (tree_size root)).
Proof.
  unfold count_nodes. rewrite count_loop_ok; unfold cursor_rest; simpl; rewrite tree_size_children.
  - f_equal. unfold rest_above. simpl. lia.
  - unfold rest_above. simpl. lia.
Qed.

(** * What the walk extracts *)

#[local] Arguments extract_node : simpl never.
#[local] Arguments node_identity : simpl never.
#[local] Arguments edge_identity : simpl never.
#[local] Arguments fact_qualified_name : simpl never.
#[local] Arguments range_valid : simpl never.
#[local] Arguments is_route_candidate : simpl never.
#[local] Arguments syntax_name : simpl never.
#[local] Arguments node_facts : simpl never.

Lemma walk_order_children t : walk_order t = t :: concat (walk_order <$> reverse (children t)).
Proof.
  destruct t as [k n s l]. simpl. f_equal. unfold children. simpl. rewrite fmap_reverse. f_equal. f_equal.
  induction l as [|c l IH]; simpl; [done|]. by rewrite IH.
Qed.

Lemma sum_sizes_app l k : sum_sizes (l ++ k) = sum_sizes l + sum_sizes k.
Proof. unfold sum_sizes. induction l as [|t l IH]; simpl; [done|]. rewrite IH. lia. Qed.
Lemma sum_sizes_reverse l : sum_sizes (reverse l) = sum_sizes l.
Proof.
  induction l as [|t l IH]; [done|]. rewrite reverse_cons, sum_sizes_app, IH. unfold sum_sizes. simpl. lia.
Qed.

Lemma extract_loop_fold `{Sha256} fuel a source path provider file stack p :
  sum_sizes stack ≤ fuel →
  extract_loop fuel a source path provider file stack p =
  Some (try_fold (extract_node a source path provider file) p (concat (walk_order <$> stack))).
Proof.
  revert stack p. induction fuel as [|fuel IH]; intros [|t stack] p Hfuel; try done.
  { unfold sum_sizes in Hfuel. simpl in Hfuel. rewrite tree_size_children in Hfuel. lia. }
  cbn [extract_loop fmap list_fmap concat]. rewrite walk_order_children. cbn [app try_fold].
  destruct (extract_node _ _ _ _ _ p t) as [p'|e]; [cbn [mbind result_bind]|done].
  rewrite IH, fmap_app, concat_app; [done|]. rewrite sum_sizes_app, sum_sizes_reverse.
  unfold sum_sizes in Hfuel at 1. simpl in Hfuel. rewrite tree_size_children in Hfuel. unfold sum_sizes in *. lia.
Qed.

Section facts.
Context `{Sha256} (a : LanguageAdapter) (path : string) (file : GraphNode) (partition : PartitionId).
Context (Hpath : all_components_normal path = true).
Let provider := Parser (language_name (language_id a)).

Definition fact_node (t : SyntaxNode) (fact : string * (NodeKind * EdgeKind)) : GraphNode :=
  {| node_confidence := fact_confidence fact.2.2; node_id := fact_id a partition path fact;
     node_kind := fact.2.1; node_name := fact.1; node_partition := partition; node_provider := provider;
     qualified_name := fact_qualified_name a path fact.2.1 fact.1; node_range := Some (range t);
     node_path := path |}.
Definition fact_edge (t : SyntaxNode) (fact : string * (NodeKind * EdgeKind)) : GraphEdge :=
  {| edge_confidence := fact_confidence fact.2.2;
     edge_id := edge_identity partition fact.2.2 (node_id file) (fact_id a partition path fact);
     edge_kind := fact.2.2; edge_partition := partition; edge_provider := provider;
     edge_range := Some (range t); source := node_id file; edge_path := path;
     target := fact_id a partition path fact |}.

Lemma qualified_name_not_blank node_kind name : is_blank (fact_qualified_name a path node_kind name) = false.
Proof.
  apply graphic_not_blank. unfold fact_qualified_name. apply str_any_exists.
  destruct (language_id a); eexists; (split; [simpl; left|reflexivity]).
Qed.

Lemma validate_identity_ok name qualified r :
  is_blank name = false → is_blank qualified = false → match r with Some r => range_valid r = true | None => True end →
  validate_identity name qualified path r = Ok tt.
Proof.
  intros Hn Hq Hr. unfold validate_identity. rewrite Hn, Hq, Hpath. simpl. destruct r as [r|]; [by rewrite Hr|done].
Qed.

Lemma insert_fact_ok t name p fact :
  is_blank name = false → range_valid (range t) = true → partition_id p = partition →
  insert_fact a path provider file t name p fact =
  Ok (with_fact p (fact_node t (name, fact)) (fact_edge t (name, fact))).
Proof.
  intros Hname Hrange Hp. destruct fact as [nk ek]. unfold insert_fact, node_new.
  cbn [input_name input_qualified input_path input_range].
  rewrite validate_identity_ok by (done || apply qualified_name_not_blank). cbn [mbind result_bind].
  unfold edge_new. cbn [einput_path einput_range node_range]. rewrite validate_identity_ok by done.
  cbn [mbind result_bind]. by rewrite Hp.
Qed.

Definition add_step (p : GraphPartition) (s : SyntaxNode * (string * (NodeKind * EdgeKind))) : GraphPartition :=
  with_fact p (fact_node s.1 s.2) (fact_edge s.1 s.2).

Lemma foldl_add_id l p : partition_id (foldl add_step p l) = partition_id p.
Proof. revert p. induction l as [|s l IH]; intros p; cbn [foldl]; [done|by rewrite IH]. Qed.

Lemma extract_node_ok text p t :
  range_valid (range t) = true → partition_id p = partition →
  extract_node a text path provider file p t = Ok (foldl add_step p (node_steps a text t)).
Proof.
  intros Hr Hp. unfold extract_node, node_steps.
  destruct (decide (syntax_name t text = "")) as [|Hne]; [done|].
  assert (is_blank (syntax_name t text) = false) as Hname by (by apply take_chars_trim_not_blank).
  generalize dependent (syntax_name t text). intros name _ Hname.
  revert p Hp. induction (node_facts a t name) as [|fact facts IH]; intros p Hp; [done|].
  cbn [try_fold fmap list_fmap foldl]. rewrite insert_fact_ok by done. cbn [mbind result_bind]. by apply IH.
Qed.

Lemma extract_nodes_ok text l p :
  Forall (λ t, range_valid (range t) = true) l → partition_id p = partition →
  try_fold (extract_node a text path provider file) p l = Ok (foldl add_step p (fact_steps a text l)).
Proof.
  intros Hl. revert p. induction Hl as [|t l Ht Hl IH]; intros p Hp; [done|].
  unfold fact_steps in *. cbn [try_fold]. rewrite extract_node_ok by done. cbn [mbind result_bind].
  rewrite IH by (by rewrite foldl_add_id). by rewrite <-foldl_app.
Qed.

Lemma nodes_add p s k :
  is_Some (nodes (add_step p s) !! k) ↔ is_Some (nodes p !! k) ∨ k = fact_id a partition path s.2.
Proof.
  unfold add_step, with_fact. cbn [nodes fact_node node_id]. rewrite lookup_union_is_Some, lookup_singleton_is_Some.
  naive_solver.
Qed.
Lemma edges_add p s k :
  is_Some (edges (add_step p s) !! k) ↔
  is_Some (edges p !! k) ∨ k = edge_identity partition s.2.2.2 (node_id file) (fact_id a partition path s.2).
Proof.
  unfold add_step, with_fact. cbn [edges fact_edge edge_id]. rewrite lookup_union_is_Some, lookup_singleton_is_Some.
  naive_solver.
Qed.

Lemma foldl_add_nodes l p k :
  is_Some (nodes (foldl add_step p l) !! k) ↔ is_Some (nodes p !! k) ∨ ∃ s, s ∈ l ∧ k = fact_id a partition path s.2.
Proof.
  revert p. induction l as [|s l IH]; intros p; cbn [foldl].
  { split; [by left|]. intros [?|(s&Hs&_)]; [done|by apply elem_of_nil in Hs]. }
  rewrite IH, nodes_add. setoid_rewrite elem_of_cons.
  split; [intros [[?|Hs]|(x&?&?)]|intros [?|(x&[->|?]&->)]]; eauto 6.
Qed.
Lemma foldl_add_edges l p k :
  is_Some (edges (foldl add_step p l) !! k) ↔
  is_Some (edges p !! k) ∨ ∃ s, s ∈ l ∧ k = edge_identity partition s.2.2.2 (node_id file) (fact_id a partition path s.2).
Proof.
  revert p. induction l as [|s l IH]; intros p; cbn [foldl].
  { split; [by left|]. intros [?|(s&Hs&_)]; [done|by apply elem_of_nil in Hs]. }
  rewrite IH, edges_add. setoid_rewrite elem_of_cons.
  split; [intros [[?|Hs]|(x&?&?)]|intros [?|(x&[->|?]&->)]]; eauto 6.
Qed.

Lemma known_mono p p' id :
  (∀ k, is_Some (nodes p !! k) → is_Some (nodes p' !! k)) → external_nodes p = external_nodes p' →
  known p id = true → known p' id = true.
Proof.
  unfold known. rewrite !orb_true_iff, !bool_decide_eq_true. intros Hn He. rewrite <-He. intros [Hk|]; [|by right].
  left. by apply Hn.
Qed.

(** A partition in which every edge starts at the file, with facts of it. *)
Definition star_of (p : GraphPartition) : Prop :=
  external_nodes p = ∅ ∧ is_Some (nodes p !! node_id file) ∧
  ∀ k e, edges p !! k = Some e → source e = node_id file ∧ edge_path e = path.

Lemma add_step_ok `{UuidText} p s :
  partition_ok p → partition_id p = partition → star_of p → partition_ok (add_step p s) ∧ star_of (add_step p s).
Proof.
  intros [Hscope Hid Hn He] Hp (Hext&Hfile&Hstar).
  assert (∀ k, is_Some (nodes p !! k) → is_Some (nodes (add_step p s) !! k)) as Hmono.
  { intros k Hk. simpl. rewrite lookup_union_is_Some. by left. }
  assert (known (add_step p s) (fact_id a partition path s.2) = true) as Htarget.
  { unfold known. rewrite orb_true_iff, bool_decide_eq_true. left. simpl. rewrite lookup_union_is_Some.
    right. by apply lookup_singleton_is_Some. }
  assert (known (add_step p s) (node_id file) = true) as Hsource.
  { unfold known. rewrite orb_true_iff, bool_decide_eq_true. left. by apply Hmono. }
  split; [split|split_and!]; try done; simpl.
  - intros k n [Hk|[_ [<- <-]%lookup_singleton_Some]]%lookup_union_Some_raw; [by apply Hn|].
    split; [done|]. simpl. by rewrite Hp.
  - intros k e [Hk|[_ [<- <-]%lookup_singleton_Some]]%lookup_union_Some_raw.
    + apply He in Hk as (?&?&Hs&Ht). split_and!; try done; by eapply known_mono.
    + split; [done|]. split; [simpl; by rewrite Hp|done].
  - by apply Hmono.
  - intros k e [Hk|[_ [<- <-]%lookup_singleton_Some]]%lookup_union_Some_raw; [by eapply Hstar|done].
Qed.
Lemma foldl_add_ok `{UuidText} l p :
  partition_ok p → partition_id p = partition → star_of p →
  partition_ok (foldl add_step p l) ∧ star_of (foldl add_step p l).
Proof.
  revert p. induction l as [|s l IH]; intros p Hok Hp Hs; simpl; [done|].
  destruct (add_step_ok p s Hok Hp Hs). by apply IH.
Qed.
End facts.

Definition source_name (path : string) : string := default path (last (split_on is_slash path)).

Lemma blank_path path : is_blank (source_name path) = false → is_blank path = false.
Proof.
  intros Hname. destruct (str_any (in_range 33 126) path) eqn:Hany; [by apply graphic_not_blank|].
  unfold source_name in Hname. rewrite split_on_single in Hname; [done|].
  apply not_true_iff_false. intros (c&Hin&Hc)%str_any_exists. apply is_char_true in Hc as ->.
  apply not_true_iff_false in Hany. apply Hany, str_any_exists. by exists slash.
Qed.

(** An extraction always returns. *)
Lemma extract_returns `{Sha256, UuidText, Grammars} a project scope path source :
  is_Some (extract a project scope path source).
Proof.
  unfold extract. destruct (parse _ _ _) as [parsed|]; [|by eexists].
  destruct (file_node _ _ _) as [file|]; [|by eexists]. rewrite extract_loop_fold; [by eexists|].
  unfold sum_sizes. simpl. lia.
Qed.

(** C30. What is extracted from a file is exactly its syntax tree's facts, by the
    identities of nodes and edges: for a path of normal components with a name
    that is not blank, a scope that is not blank, and a source within the limits
    whose grammar gives a tree with ordered ranges, the extraction succeeds with
    a partition that validates, whose nodes are the file and the facts of the
    named nodes of the tree, whose edges lead from the file to each of them, and
    which needs no node of another partition. The ranges and the confidence that
    nodes and edges carry are not part of the statement. *)
Theorem extraction_is_exact `{Sha256, UuidText, Grammars} a project scope path text errors root :
  is_blank (source_name path) = false → all_components_normal path = true → is_blank scope = false →
  (str_len text ≤ parse_max_bytes EXTRACT_LIMITS)%N →
  parse_with_options (language a) EXTRACT_LIMITS text = Parsed errors root →
  Forall (λ t, range_valid (range t) = true) (walk_order root) →
  ∃ p, let file := node_identity (partition_id p) NK_File path path in
    extract a project scope path text =
      Some (Ok {| extraction_capabilities := capabilities a; has_errors := errors;
                  extraction_language := language_id a; extraction_partition := p |}) ∧
    partition_validate p = Ok tt ∧ partition_id p = partition_id_new project scope ∧ external_nodes p = ∅ ∧
    (∀ k, is_Some (nodes p !! k) ↔
       k = file ∨ ∃ fact, fact ∈ tree_facts a text root ∧ k = fact_id a (partition_id p) path fact) ∧
    (∀ k, is_Some (edges p !! k) ↔ ∃ fact, fact ∈ tree_facts a text root ∧
       k = edge_identity (partition_id p) fact.2.2 file (fact_id a (partition_id p) path fact)) ∧
    (∀ k e, edges p !! k = Some e → source e = file).
Proof.
  intros Hname Hpath Hscope Hlen Hparse Hranges. unfold extract, parse. cbn [limits parser_new cancelled].
  rewrite (proj2 (N.ltb_ge _ _) Hlen), Hparse, count_nodes_size. cbn [reject_if mbind result_bind ok_or language tree].
  unfold file_node, node_new. cbn [input_name input_qualified input_path input_range].
  fold (source_name path). rewrite validate_identity_ok by (done || by apply blank_path).
  cbn [mbind result_bind input_partition input_kind input_qualified input_path input_confidence input_provider].
  set (partition := partition_id_new project scope). set (file := {| node_id := _ |}). set (start := {| nodes := {[_ := _]} |}).
  rewrite extract_loop_fold by (unfold sum_sizes; simpl; lia).
  assert (concat (walk_order <$> [root]) = walk_order root) as -> by (cbn; apply app_nil_r).
  rewrite (extract_nodes_ok a path file partition Hpath) by done.
  assert (partition_ok start ∧ star_of path file start) as [Hok Hstar].
  { split; [split|split_and!]; try done.
    - intros k n Hk. subst start. cbn [nodes] in Hk. by apply lookup_singleton_Some in Hk as [<- <-].
    - subst start. cbn [nodes]. by apply lookup_singleton_is_Some. }
  destruct (foldl_add_ok a path file partition (fact_steps a text (walk_order root)) start) as [Hok' (Hext&_&Hstar')];
    [done..|].
  exists (foldl (add_step a path file partition) start (fact_steps a text (walk_order root))).
  assert (partition_id (foldl (add_step a path file partition) start (fact_steps a text (walk_order root))) = partition) as Hid
    by (by rewrite foldl_add_id).
  assert (∀ P : string * (NodeKind * EdgeKind) → Prop, (∃ s, s ∈ fact_steps a text (walk_order root) ∧ P s.2) ↔
            ∃ fact, fact ∈ tree_facts a text root ∧ P fact) as Hfacts.
  { intros P. unfold tree_facts. setoid_rewrite list_elem_of_fmap. naive_solver. }
  cbn zeta. rewrite Hid. split_and!; try done.
  - by apply partition_validate_ok.
  - intros k. rewrite foldl_add_nodes, (Hfacts (λ fact, k = fact_id a partition path fact)).
    subst start. cbn [nodes]. rewrite lookup_singleton_is_Some. naive_solver.
  - intros k. rewrite foldl_add_edges, (Hfacts (λ fact, k = edge_identity partition fact.2.2 (node_id file)
      (fact_id a partition path fact))).
    subst start. cbn [edges]. rewrite lookup_empty. split; [intros [[? ?]|?]; done|by right].
  - intros k e He. by eapply Hstar'.
Qed.

(** * The tables of the languages *)

(** Whether an adapter says that it finds edges of a kind. *)
Definition declares (c : AdapterCapabilities) (k : EdgeKind) : bool :=
  match k with
  | EK_Calls => cap_calls c
  | EK_Configures => cap_configuration c
  | EK_Imports => cap_dependencies c
  | EK_Inherits => cap_inheritance c
  | EK_RoutesTo => cap_routes c
  | EK_DependsOn => cap_schemas c
  | EK_Defines => cap_symbols c
  | EK_Contains | EK_Implements => false
  end.
Definition all_edge_kinds : list EdgeKind :=
  [EK_Calls; EK_Configures; EK_Contains; EK_Defines; EK_DependsOn; EK_Implements; EK_Imports; EK_Inherits;
   EK_RoutesTo].
Definition kinds_for (a : LanguageAdapter) (k : EdgeKind) : list string :=
  match k with
  | EK_Calls => call_kinds a
  | EK_Configures => configuration_kinds a
  | EK_Imports => dependency_kinds a
  | EK_Inherits => inheritance_kinds a
  | EK_RoutesTo => route_kinds a
  | EK_DependsOn => schema_kinds a
  | EK_Defines => symbol_kinds a
  | EK_Contains | EK_Implements => []
  end.
Definition within_capabilities (a : LanguageAdapter) : bool :=
  forallb (λ k, declares (capabilities a) k || bool_decide (kinds_for a k = [])) all_edge_kinds.

Lemma tables_within_capabilities : forallb (λ row : list string * LanguageAdapter, within_capabilities row.2) language_extensions = true.
Proof. vm_compute. reflexivity. Qed.

Lemma elem_of_push_fact facts enabled nk ek fact :
  fact ∈ push_fact facts enabled nk ek ↔ fact ∈ facts ∨ enabled = true ∧ fact = (nk, ek).
Proof.
  unfold push_fact. destruct enabled; [rewrite elem_of_app, list_elem_of_singleton|]; naive_solver.
Qed.

(** A node gives a fact for a kind of edge when its own kind is in the adapter's
    table for it, and for a route when its name looks like one. *)
Lemma elem_of_node_facts a t name nk ek :
  (nk, ek) ∈ node_facts a t name → kind t ∈ kinds_for a ek ∧ (ek = EK_RoutesTo → is_route_candidate name = true).
Proof.
  unfold node_facts. rewrite !elem_of_push_fact, elem_of_nil. unfold kind_in.
  rewrite andb_true_iff, !bool_decide_eq_true. naive_solver.
Qed.

(** No file gives facts that its language's adapter does not declare. *)
Lemma facts_within_capabilities path a text root name nk ek :
  adapter_for path = Some a → (name, (nk, ek)) ∈ tree_facts a text root → declares (capabilities a) ek = true.
Proof.
  unfold adapter_for, tree_facts. intros (extension&_&Hrow)%bind_Some (s&Hs&Hin)%list_elem_of_fmap.
  apply fmap_Some in Hrow as (row&Hfind&->). apply find_some in Hfind as [Hfind _].
  apply list_elem_of_bind in Hin as (t&Hin&_). unfold node_steps in Hin.
  case_decide; [by apply elem_of_nil in Hin|]. apply list_elem_of_fmap in Hin as ([nk' ek']&->&Hfact).
  injection Hs as -> -> ->. apply elem_of_node_facts in Hfact as [Hkind _].
  pose proof (proj1 (forallb_forall _ _) tables_within_capabilities _ Hfind) as Hwithin.
  unfold within_capabilities in Hwithin.
  assert (∀ k : EdgeKind, k ∈ all_edge_kinds) as Hall by (intros []; apply (bool_decide_unpack _); vm_compute; done).
  specialize (Hall ek').
  apply list_elem_of_In, (proj1 (forallb_forall _ _) Hwithin) in Hall as Hek.
  apply orb_true_iff in Hek as [|Hnil]; [done|]. apply bool_decide_eq_true in Hnil. rewrite Hnil in Hkind.
  by apply elem_of_nil in Hkind.
Qed.

(** Every language is certified once, and has an adapter for its extensions. *)
Lemma languages_certified :
  NoDup certified_languages ∧ (∀ l : LanguageId, l ∈ certified_languages) ∧
  certified_languages ≡ₚ (λ row : list string * LanguageAdapter, language_id row.2) <$> language_extensions ∧
  NoDup (concat language_extensions.*1).
Proof.
  split_and!.
  - apply (bool_decide_unpack _). vm_compute. done.
  - intros []; unfold certified_languages; set_solver.
  - apply (bool_decide_unpack _). vm_compute. done.
  - apply (bool_decide_unpack _). vm_compute. done.
Qed.

(** * Facts of a language server *)

(** Merged facts are inferred by the provider, and nothing that was there changes. *)
Lemma merge_lsp_facts_ok `{Sha256, UuidText} b p p' :
  merge_lsp_facts b p = (p', Ok tt) →
  partition_ok p' ∧ p' = with_batch b p ∧ nodes p ⊆ nodes p' ∧ edges p ⊆ edges p' ∧
  (∀ k n, nodes p' !! k = Some n → nodes p !! k = None →
     node_confidence n = Inferred ∧ node_provider n = LanguageServer (batch_provider b)) ∧
  (∀ k e, edges p' !! k = Some e → edges p !! k = None →
     edge_confidence e = Inferred ∧ edge_provider e = LanguageServer (batch_provider b)).
Proof.
  unfold merge_lsp_facts. intros Hmerge. inv_method.
  match goal with H : partition_validate _ = Ok _ |- _ => apply partition_validate_ok in H as Hok end.
  match goal with H : _ || _ = false |- _ => apply orb_false_iff in H as [Hn He] end.
  assert (∀ {K V} `{Countable K} (m : gmap K V) f k (v : V), existsb f (map_to_list m).*2 = false → m !! k = Some v →
            f v = false) as Hall.
  { intros K V ?? m f k v Hno Hkv. apply not_true_iff_false. intros Hf.
    apply not_true_iff_false in Hno. apply Hno, existsb_exists. exists v. split; [|done].
    apply list_elem_of_In, list_elem_of_fmap. exists (k, v). split; [done|]. by apply elem_of_map_to_list. }
  split_and!; try done.
  - apply map_union_subseteq_l.
  - apply map_union_subseteq_l.
  - intros k n Hk Hnone. apply lookup_union_Some_raw in Hk as [Hk|[_ Hk]]; [congruence|].
    apply (Hall _ _ _ _ _ _ _ _ Hn) in Hk. unfold foreign_fact in Hk. to_prop. done.
  - intros k e Hk Hnone. apply lookup_union_Some_raw in Hk as [Hk|[_ Hk]]; [congruence|].
    apply (Hall _ _ _ _ _ _ _ _ He) in Hk. unfold foreign_fact in Hk. to_prop. done.
Qed.

(** * Examples *)

Section examples.
#[local] Instance sample_sha256 : Sha256 := toy_sha256.
#[local] Instance sample_uuid_text : UuidText :=
  {| uuid_text u := uuid_bytes u; uuid_parse s := Some (word_of 128 (be_value s)) |}.

Example adapters_by_extension :
  (λ path, language_id <$> adapter_for path) <$> ["src/main.rs"; "A.TS"; "lib/x.d.ts"; ".rs"; "Makefile"; "a/.."] =
  [Some Rust; Some TypeScript; Some TypeScript; None; None; None].
Proof. vm_compute. reflexivity. Qed.

(** The C and C++ adapters declare routes but have no kind of node for them. *)
Example declared_without_kinds :
  omap (λ row : list string * LanguageAdapter,
     if existsb (λ k, declares (capabilities row.2) k && bool_decide (kinds_for row.2 k = [])) all_edge_kinds
     then Some (language_id row.2) else None) language_extensions = [C; Cpp].
Proof. vm_compute. reflexivity. Qed.

(** [fn go() { run(); }] as a tree, and what is extracted from it. *)
Definition leaf (k : string) (from to : N) : SyntaxNode :=
  Syntax k true {| byte_start := from; row_start := 0; column_start := from;
                   byte_end := to; row_end := 0; column_end := to |} [].
Definition inner (k : string) (from to : N) (l : list (option string * SyntaxNode)) : SyntaxNode :=
  Syntax k true {| byte_start := from; row_start := 0; column_start := from;
                   byte_end := to; row_end := 0; column_end := to |} l.
Definition sample_text : string := "fn go() { run(); }".
Definition sample_tree : SyntaxNode :=
  inner "source_file" 0 18
    [(None, inner "function_item" 0 18
       [(Some "name", leaf "identifier" 3 5);
        (Some "body", inner "block" 8 18
           [(None, inner "call_expression" 10 15 [(Some "function", leaf "identifier" 10 13)])])])].
#[local] Instance sample_grammars : Grammars := λ _ _ _, Parsed false sample_tree.

Example sample_facts :
  tree_facts rust_adapter sample_text sample_tree = [("go", (NK_Symbol, EK_Defines)); ("run", (NK_Symbol, EK_Calls))].
Proof. vm_compute. reflexivity. Qed.
Example sample_count : count_nodes sample_tree = Some 6%N.
Proof. vm_compute. reflexivity. Qed.

Example fallback_lines :
  matched_lines (fallback_extract "a.xyz" (String.concat (String "010" "") ["alpha"; "beta"; "alpha"]) (Some "alpha")) =
  [0; 2]%N.
Proof. vm_compute. reflexivity. Qed.

(** A merge that is refused because the facts do not fit has added them already. *)
Definition lonely : GraphPartition :=
  {| edges := ∅; external_nodes := ∅; partition_id := sample_partition; nodes := ∅; project_id := word_of 128 1;
     scope := "src" |}.
Definition stray_edge : GraphEdge :=
  {| edge_confidence := Inferred; edge_id := edge_identity sample_partition EK_Calls (word_of 256 1) (word_of 256 2);
     edge_kind := EK_Calls; edge_partition := sample_partition; edge_provider := LanguageServer "ls";
     edge_range := None; source := word_of 256 1; edge_path := "src/a.rs"; target := word_of 256 2 |}.
Definition stray_batch : LspFactBatch :=
  {| batch_edges := {[edge_id stray_edge := stray_edge]}; batch_nodes := ∅; batch_partition := sample_partition;
     batch_provider := "ls" |}.
Example refused_merge_stays :
  let '(p, r) := merge_lsp_facts stray_batch lonely in
  (r, bool_decide (edges p = batch_edges stray_batch), partition_validate lonely, partition_validate p) =
  (Err LspPartition, true, Ok tt, Err InvalidEdge).
Proof. vm_compute. reflexivity. Qed.
End examples.

Lemma extraction_is_exact_witness : ∃ (S : Sha256) (U : UuidText) (G : Grammars) (p : GraphPartition),
  let file := node_identity (partition_id p) NK_File "src/a.rs" "src/a.rs" in
  extract rust_adapter (word_of 128 1) "src" "src/a.rs" sample_text =
    Some (Ok {| extraction_capabilities := FULL; has_errors := false; extraction_language := Rust;
                extraction_partition := p |}) ∧
  is_Some (edges p !! edge_identity (partition_id p) EK_Calls file
             (fact_id rust_adapter (partition_id p) "src/a.rs" ("run", (NK_Symbol, EK_Calls)))).
Proof.
  exists sample_sha256, sample_uuid_text, sample_grammars.
  destruct (@extraction_is_exact sample_sha256 sample_uuid_text sample_grammars rust_adapter (word_of 128 1) "src" "src/a.rs" sample_text false sample_tree)
    as (p&Hp&_&_&_&_&Hedges&_).
  - vm_compute. reflexivity.
  - vm_compute. reflexivity.
  - vm_compute. reflexivity.
  - vm_compute. discriminate.
  - reflexivity.
  - apply (bool_decide_unpack _). vm_compute. done.
  - exists p. split; [exact Hp|]. apply Hedges. exists ("run", (NK_Symbol, EK_Calls)).
    split; [|reflexivity]. rewrite sample_facts. right. left.
Defined.
End Extract.
