(* ===== verification/Inventory.v ===== *)
(** What workflow-code-intel knows of a project's files: which paths it takes
    (ignore_policy.rs, inventory.rs), the manifest of their contents and how it
    changes (manifest.rs), and the changes Git reports (git.rs). The walk over the
    directories and the patterns of a gitignore file belong to the ignore crate:
    they are arguments, as is what the operating system says of a file. *)
From Stdlib Require Import Ascii String.
From S2P Require Import Prelude Text Ids Paths.

Module Inventory.

(** * Files and their metadata *)

Record FileMetadata : Type := { length_bytes : N; modified_unix_nanos : option N }.
#[export] Instance FileMetadata_eq_dec : EqDecision FileMetadata.
Proof. solve_decision. Defined.

(** [std::fs::Metadata]: the type of the file, its length, and the time of its
    last change from the Unix epoch, where the platform has one. *)
Record StdMetadata : Type := {
  is_file : bool; is_symlink : bool; std_length : N; std_modified : option Z;
}.
(** [FileMetadata::from_std]: a time before the epoch or too late is none. *)
Definition from_std (m : StdMetadata) : FileMetadata :=
  {| length_bytes := std_length m;
     modified_unix_nanos :=
       nanos ← std_modified m;
       if bool_decide (0 ≤ nanos)%Z && (Z.to_N nanos <=? u64_max)%N then Some (Z.to_N nanos) else None |}.

Record ManifestEntry : Type := {
  content_hash : ContentDigest; entry_metadata : FileMetadata; relative_path : string;
}.
#[export] Instance ManifestEntry_eq_dec : EqDecision ManifestEntry.
Proof. solve_decision. Defined.
Abbreviation Manifest := (gmap string ManifestEntry).
Record InventoryEntry : Type := { found_metadata : FileMetadata; found_path : string }.

(** [Manifest::from_entries]: the last entry of a path stays. *)
Definition from_entries (entries : list ManifestEntry) : Manifest := index_by relative_path ∅ entries.

(** * The policy *)

Record IgnorePolicy : Type := {
  excluded_directories : list string;
  excludes : string → bool → bool;
  max_file_bytes : N;
}.
(** [IgnorePolicy::new], with the matcher of the extra patterns. *)
Definition policy_new (excludes : string → bool → bool) (max_file_bytes : N) : IgnorePolicy :=
  {| excluded_directories := [".git"; ".idea"; ".next"; ".venv"; ".vscode"; "build"; "coverage"; "dist";
                              "node_modules"; "target"; "vendor"];
     excludes := excludes; max_file_bytes := max_file_bytes |}.

Definition relative_components (path : string) : list string :=
  filter (λ segment, segment ≠ "") (segments path).
Definition permits (p : IgnorePolicy) (relative : string) (is_directory : bool) (size : N) : bool :=
  if existsb (λ component, bool_decide (component ∈ excluded_directories p)) (relative_components relative)
  then false
  else (size <=? max_file_bytes p)%N && negb (excludes p relative is_directory).

(** * The inventory *)

Record InventoryStats : Type := { files : N; skipped : N }.
Inductive InventoryError : Type := InvalidRoot | NonUtf8Path (path : string) | Walk.

(** What the walk gives for a path below the root: its path from the root, which
    may not be text, the type of the entry, if it has one, and its metadata. *)
Record WalkEntry : Type := {
  walk_relative : string;
  walk_symlink : option bool;
  walk_directory : bool;
  walk_metadata : option StdMetadata;
}.

(** One turn of the loop of [inventory]. *)
Definition take_entry (policy : IgnorePolicy) (acc : list InventoryEntry * InventoryStats)
    (walked : option WalkEntry) : result InventoryError (list InventoryEntry * InventoryStats) :=
  let '(entries, stats) := acc in
  let skip := Ok (entries, {| files := files stats; skipped := skipped stats + 1 |}) in
  entry ← ok_or Walk walked;
  if bool_decide (walk_symlink entry ≠ Some false) then skip
  else if walk_directory entry then Ok (entries, stats)
  else
    metadata ← ok_or Walk (walk_metadata entry);
    if negb (is_file metadata) || negb (permits policy (walk_relative entry) false (std_length metadata))
    then skip
    else
      path ← ok_or (NonUtf8Path (walk_relative entry)) (from_utf8 (walk_relative entry));
      Ok (entries ++ [{| found_metadata := from_std metadata; found_path := forward_slashes path |}],
          {| files := files stats + 1; skipped := skipped stats |}).
(** [inventory]: [root_ok] says that the root is an absolute directory; [walk]
    gives the entries below it whose path a filter permits. *)
Definition inventory (root_ok : bool) (policy : IgnorePolicy) (walk : (string → bool) → list (option WalkEntry))
    : result InventoryError (list InventoryEntry * InventoryStats) :=
  _ ← reject_if (negb root_ok) InvalidRoot;
  try_fold (take_entry policy) ([], {| files := 0; skipped := 0 |})
    (walk (λ relative, permits policy relative true 0)).

(** * Changes of a manifest *)

Inductive FileChange : Type :=
| ChangeAdded (metadata : FileMetadata) (path : string)
| ChangeDeleted (path : string)
| HashRequired (metadata : FileMetadata) (path : string).
Record ManifestPlan : Type := { changes : list FileChange; unchanged : list ManifestEntry }.

Definition plan_entry (prior : Manifest) (trust_metadata : bool) (plan : ManifestPlan) (entry : InventoryEntry)
    : ManifestPlan :=
  let change c := {| changes := changes plan ++ [c]; unchanged := unchanged plan |} in
  match prior !! found_path entry with
  | Some previous =>
      if trust_metadata && bool_decide (entry_metadata previous = found_metadata entry)
      then {| changes := changes plan; unchanged := unchanged plan ++ [previous] |}
      else change (HashRequired (found_metadata entry) (found_path entry))
  | None => change (ChangeAdded (found_metadata entry) (found_path entry))
  end.
(** [Manifest::plan]. *)
Definition manifest_plan (prior : Manifest) (inventory : list InventoryEntry) (trust_metadata : bool)
    : ManifestPlan :=
  let planned := foldl (plan_entry prior trust_metadata) {| changes := []; unchanged := [] |} inventory in
  {| changes := changes planned ++ (ChangeDeleted <$>
       filter (λ path, path ∉ found_path <$> inventory) (btree_keys prior));
     unchanged := unchanged planned |}.

Inductive ResolvedFileChange : Type :=
| Added (path : string) | Deleted (path : string) | Modified (path : string) | Renamed (from to : string).
Record ManifestUpdate : Type := { resolved : list ResolvedFileChange; manifest : Manifest }.
Inductive ManifestError : Type := ChangedDuringRead | ManifestIo | NotRegularFile.

(** What [hash_file] sees of a file: its metadata before, whether it opens, what
    each read gives, its metadata after. *)
Record FileObservation : Type := {
  metadata_before : option StdMetadata;
  opens : bool;
  reads : list (option string);
  metadata_after : option StdMetadata;
}.
(** The loop over [file.read]; a read of nothing is the end. *)
Fixpoint read_all (content : string) (reads : list (option string)) : result ManifestError string :=
  match reads with
  | [] => Ok content
  | None :: _ => Err ManifestIo
  | Some chunk :: reads => if decide (chunk = "") then Ok content else read_all (content +:+ chunk) reads
  end.
Definition hash_file `{Sha256} (o : FileObservation) : result ManifestError (FileMetadata * ContentDigest) :=
  before ← ok_or ManifestIo (metadata_before o);
  _ ← reject_if (negb (is_file before) || is_symlink before) NotRegularFile;
  _ ← reject_if (negb (opens o)) ManifestIo;
  content ← read_all "" (reads o);
  after ← ok_or ManifestIo (metadata_after o);
  _ ← reject_if (negb (bool_decide (from_std before = from_std after))) ChangedDuringRead;
  Ok (from_std after, digest_of content).

(** The state of the loop of [resolve]. *)
Record Resolution : Type := {
  entries : Manifest;
  deleted : Manifest;
  found : list ResolvedFileChange;
}.
Definition planned_deletion (prior : Manifest) (change : FileChange) : option (string * ManifestEntry) :=
  match change with
  | ChangeDeleted path => (path,.) <$> prior !! path
  | _ => None
  end.
(** The first deleted path whose content had the digest. *)
Definition renamed_from (deleted : Manifest) (hash : ContentDigest) : option string :=
  fst <$> find (λ entry : string * ManifestEntry, bool_decide (content_hash entry.2 = hash)) (btree_iter deleted).

Section resolve.
Context `{Sha256} (observe : string → FileObservation) (prior : Manifest).

Definition resolve_change (s : Resolution) (change : FileChange) : result ManifestError Resolution :=
  let read (metadata : FileMetadata) (path : string) (added : bool) :=
    '(observed, hash) ← hash_file (observe path);
    _ ← reject_if (negb (bool_decide (observed = metadata))) ChangedDuringRead;
    let entry := {| content_hash := hash; entry_metadata := metadata; relative_path := path |} in
    Ok (if added : bool then
          match renamed_from (deleted s) hash with
          | Some from => {| entries := <[path := entry]> (entries s); deleted := delete from (deleted s);
                            found := found s ++ [Renamed from path] |}
          | None => {| entries := <[path := entry]> (entries s); deleted := deleted s;
                       found := found s ++ [Added path] |}
          end
        else
          {| entries := <[path := entry]> (entries s); deleted := deleted s;
             found := match prior !! path with
                      | Some previous => if decide (content_hash previous = hash) then found s
                                         else found s ++ [Modified path]
                      | None => found s
                      end |}) in
  match change with
  | ChangeAdded metadata path => read metadata path true
  | HashRequired metadata path => read metadata path false
  | ChangeDeleted _ => Ok s
  end.
(** [ManifestPlan::resolve]. *)
Definition resolve (plan : ManifestPlan) : result ManifestError ManifestUpdate :=
  s ← try_fold resolve_change
        {| entries := from_entries (unchanged plan);
           deleted := list_to_map (reverse (omap (planned_deletion prior) (changes plan))); found := [] |}
        (changes plan);
  Ok {| resolved := found s ++ (Deleted <$> btree_keys (deleted s)); manifest := entries s |}.
End resolve.

(** * Changes reported by Git *)

Inductive GitChangeKind : Type :=
  G_Added | G_Copied | G_Deleted | G_Modified | G_Renamed | G_TypeChanged | G_Unmerged | G_Unknown.
Record GitChange : Type := {
  change_kind : GitChangeKind; change_path : string; previous_path : option string;
}.
Inductive GitParseError : Type := InvalidEncoding | MissingPath.

Definition status_kind (status : string) : GitChangeKind :=
  match status with
  | String "A" _ => G_Added | String "C" _ => G_Copied | String "D" _ => G_Deleted
  | String "M" _ => G_Modified | String "R" _ => G_Renamed | String "T" _ => G_TypeChanged
  | String "U" _ => G_Unmerged | _ => G_Unknown
  end.

(** The loop over the fields. *)
Fixpoint parse_fields (fields : list string) : result GitParseError (list GitChange) :=
  match fields with
  | [] => Ok []
  | status :: rest =>
      match status_kind status with
      | (G_Copied | G_Renamed) as kind =>
          match rest with
          | previous :: path :: rest =>
              changes ← parse_fields rest;
              Ok ({| change_kind := kind; change_path := forward_slashes path;
                     previous_path := Some (forward_slashes previous) |} :: changes)
          | _ => Err MissingPath
          end
      | kind =>
          match rest with
          | path :: rest =>
              changes ← parse_fields rest;
              Ok ({| change_kind := kind; change_path := forward_slashes path; previous_path := None |} :: changes)
          | [] => Err MissingPath
          end
      end
  end.
Definition parse_name_status_z (input : string) : result GitParseError (list GitChange) :=
  fields ← try_map (λ field, ok_or InvalidEncoding (from_utf8 field))
    (filter (λ field, field ≠ "") (split_on (is_char nul) input));
  parse_fields fields.

(** * The inventory keeps to its policy *)

Lemma take_entry_ok policy acc walked acc' :
  take_entry policy acc walked = Ok acc' →
  acc'.1 = acc.1 ∨ ∃ w m, walked = Some w ∧ walk_metadata w = Some m ∧ walk_symlink w = Some false ∧
    is_file m = true ∧ permits policy (walk_relative w) false (std_length m) = true ∧
    acc'.1 = acc.1 ++ [{| found_metadata := from_std m; found_path := forward_slashes (walk_relative w) |}].
Proof.
  destruct acc as [found stats]. unfold take_entry. intros (w&Hw&Hrest)%result_bind_ok.
  apply ok_or_ok in Hw. case_bool_decide as Hlink; [injection Hrest as <-; by left|].
  destruct (walk_directory w); [injection Hrest as <-; by left|].
  apply result_bind_ok in Hrest as (m&Hm&Hrest). apply ok_or_ok in Hm.
  destruct (negb (is_file m) || _) eqn:Hskip; [injection Hrest as <-; by left|].
  apply orb_false_iff in Hskip as [Hfile%negb_false_iff Hpermit%negb_false_iff].
  apply result_bind_ok in Hrest as (path&Hpath&[= <-]). apply ok_or_ok in Hpath. unfold from_utf8 in Hpath.
  destruct (valid_utf8 _); [|done]. injection Hpath as <-. right. exists w, m. split_and!; done.
Qed.

(** Every file of an inventory is a regular one that its policy permits. *)
Lemma inventory_permitted root_ok policy walk found stats e :
  inventory root_ok policy walk = Ok (found, stats) → e ∈ found →
  ∃ w m, Some w ∈ walk (λ relative, permits policy relative true 0) ∧ walk_metadata w = Some m ∧
    walk_symlink w = Some false ∧ is_file m = true ∧ permits policy (walk_relative w) false (std_length m) = true ∧
    e = {| found_metadata := from_std m; found_path := forward_slashes (walk_relative w) |}.
Proof.
  unfold inventory. rewrite result_then_ok. intros [_ Hfold]. revert Hfold.
  assert (∀ l acc, try_fold (take_entry policy) acc l = Ok (found, stats) → e ∈ found →
    e ∈ acc.1 ∨ ∃ w m, Some w ∈ l ∧ walk_metadata w = Some m ∧ walk_symlink w = Some false ∧ is_file m = true ∧
      permits policy (walk_relative w) false (std_length m) = true ∧
      e = {| found_metadata := from_std m; found_path := forward_slashes (walk_relative w) |}) as Hgen.
  { intros l. induction l as [|x l IH]; intros acc; simpl; [intros [= ->]; by left|].
    intros (acc'&Hx&Hl)%result_bind_ok Hin. destruct (IH acc' Hl Hin) as [Hacc|(w&m&Hw&Hrest)].
    - apply take_entry_ok in Hx as [Heq|(w&m&->&Hm&Hlink&Hfile&Hp&Heq)]; rewrite Heq in Hacc; [by left|].
      apply elem_of_app in Hacc as [|Hacc%list_elem_of_singleton]; [by left|]. subst e. right. exists w, m.
      split; [by left|done].
    - right. exists w, m. split; [by right|done]. }
  intros Hfold Hin. apply Hgen in Hfold as [Hnil|Hx]; [by apply elem_of_nil in Hnil|done|done].
Qed.

(** * What Git reports reads back *)

Definition kind_letter (k : GitChangeKind) : ascii :=
  match k with
  | G_Added => "A" | G_Copied => "C" | G_Deleted => "D" | G_Modified => "M" | G_Renamed => "R"
  | G_TypeChanged => "T" | G_Unmerged => "U" | G_Unknown => "X"
  end%char.
(** A change as [git diff --name-status -z] writes it; [score] follows the letter. *)
Definition git_fields (score : string) (c : GitChange) : list string :=
  String (kind_letter (change_kind c)) score ::
  match previous_path c with Some previous => [previous; change_path c] | None => [change_path c] end.
Definition git_output (fields : list string) : string :=
  foldr (λ field s, field +:+ String nul s) "" fields.

(** Text that can be a field: not empty, in UTF-8, without NUL. *)
Definition is_field (s : string) : bool :=
  negb (bool_decide (s = "")) && valid_utf8 (str_chars s) && negb (str_any (is_char nul) s).
Definition is_path_field (s : string) : bool := is_field s && negb (str_any (is_char backslash) s).
(** A change that Git can report: a copy or a rename has the path it comes from,
    no other change has. *)
Definition reportable (c : GitChange) : bool :=
  is_path_field (change_path c) &&
  match change_kind c, previous_path c with
  | (G_Copied | G_Renamed), Some previous => is_path_field previous
  | (G_Copied | G_Renamed), None => false
  | _, Some _ => false
  | _, None => true
  end.

Lemma forward_slashes_id s : str_any (is_char backslash) s = false → forward_slashes s = s.
Proof.
  induction s as [|a s IH]; simpl; [done|]. intros [Ha Hs]%orb_false_iff. by rewrite Ha, IH.
Qed.

Lemma split_output l :
  Forall (λ s, is_field s = true) l → split_on (is_char nul) (git_output l) = l ++ [""].
Proof.
  induction 1 as [|s l Hs Hl IH]; [done|]. simpl. rewrite split_on_app_sep, IH.
  unfold is_field in Hs. apply andb_true_iff in Hs as [_ Hs%negb_true_iff]. by rewrite split_on_single.
Qed.

Lemma parse_reported score l :
  Forall (λ c, reportable c = true) l → parse_fields (l ≫= git_fields score) = Ok l.
Proof.
  induction 1 as [|c l Hc Hl IH]; [done|]. destruct c as [kind path previous].
  unfold reportable in Hc. simpl in Hc. apply andb_true_iff in Hc as [Hpath Hprev].
  assert (∀ s, is_path_field s = true → forward_slashes s = s) as Hfs.
  { intros s Hs. apply forward_slashes_id. unfold is_path_field in Hs. by apply andb_true_iff in Hs as [_ ?%negb_true_iff]. }
  rewrite bind_cons.
  destruct kind, previous as [previous|]; try done; cbn [git_fields change_kind change_path previous_path kind_letter
    app parse_fields status_kind]; rewrite IH; simpl; by rewrite ?(Hfs path), ?(Hfs previous).
Qed.

Lemma reported_fields score l :
  str_any (is_char nul) score = false → valid_utf8 (str_chars score) = true →
  Forall (λ c, reportable c = true) l → Forall (λ s, is_field s = true) (l ≫= git_fields score).
Proof.
  intros Hnul Hutf Hl. apply Forall_forall. intros s (c&Hs&Hc)%list_elem_of_bind.
  eapply Forall_forall in Hl; [|exact Hc]. unfold reportable in Hl. apply andb_true_iff in Hl as [Hpath Hprev].
  unfold is_path_field in *.
  assert (is_field (String (kind_letter (change_kind c)) score) = true) as Hstatus.
  { unfold is_field. rewrite !andb_true_iff, !negb_true_iff, bool_decide_eq_false. simpl. rewrite Hnul, orb_false_r.
    destruct (change_kind c); simpl; by rewrite Hutf. }
  unfold git_fields in Hs. destruct (previous_path c) as [previous|].
  - rewrite !elem_of_cons, elem_of_nil in Hs. destruct Hs as [->|[->|[->|[]]]]; [done| |].
    + destruct (change_kind c); try done; by apply andb_true_iff in Hprev as [? _].
    + by apply andb_true_iff in Hpath as [? _].
  - rewrite !elem_of_cons, elem_of_nil in Hs. destruct Hs as [->|[->|[]]]; [done|].
    by apply andb_true_iff in Hpath as [? _].
Qed.

(** The changes Git writes are read back as they are. *)
Lemma git_changes_read_back score l :
  str_any (is_char nul) score = false → valid_utf8 (str_chars score) = true →
  Forall (λ c, reportable c = true) l → parse_name_status_z (git_output (l ≫= git_fields score)) = Ok l.
Proof.
  intros Hnul Hutf Hl. pose proof (reported_fields score l Hnul Hutf Hl) as Hfields.
  unfold parse_name_status_z. rewrite split_output, filter_app by done.
  rewrite (list_filter_all _ (l ≫= git_fields score)).
  2:{ eapply Forall_impl; [exact Hfields|]. by intros s Hs ->. }
  assert (filter (λ field, field ≠ "") [""] = []) as -> by (by rewrite filter_cons_False by naive_solver).
  rewrite app_nil_r.
  assert (try_map (λ field, ok_or InvalidEncoding (from_utf8 field)) (l ≫= git_fields score) = Ok (l ≫= git_fields score)) as ->.
  { induction Hfields as [|s k Hs Hk IH]; [done|]. simpl. unfold is_field in Hs.
    apply andb_true_iff in Hs as [[_ Hs]%andb_true_iff _].
    assert (from_utf8 s = Some s) as -> by (unfold from_utf8; by rewrite Hs). simpl. by rewrite IH. }
  simpl. by apply parse_reported.
Qed.

(** * Resolving a plan *)

Lemma from_entries_keyed l path e : from_entries l !! path = Some e → relative_path e = path.
Proof. apply index_by_keyed. intros k x Hx. by rewrite lookup_empty in Hx. Qed.

(** The path that a planned change reads, with the metadata it must have, and
    whether it is new. *)
Definition change_reads (c : FileChange) : option (FileMetadata * string * bool) :=
  match c with
  | ChangeAdded metadata path => Some (metadata, path, true)
  | HashRequired metadata path => Some (metadata, path, false)
  | ChangeDeleted _ => None
  end.

Lemma renamed_from_some d hash from : renamed_from d hash = Some from →
  ∃ e, d !! from = Some e ∧ content_hash e = hash.
Proof.
  unfold renamed_from. intros ([k e]&[Hin He]%find_some&->)%fmap_Some.
  exists e. apply list_elem_of_In, elem_of_btree_iter in Hin. by apply bool_decide_eq_true in He.
Qed.

Section resolving.
Context `{Sha256} (observe : string → FileObservation) (prior : Manifest).
Let step := resolve_change observe prior.

(** What one planned change does. *)
Lemma resolve_change_ok s c s' : step s c = Ok s' →
  match change_reads c with
  | None => s' = s
  | Some (metadata, path, added) =>
      ∃ hash, hash_file (observe path) = Ok (metadata, hash) ∧
        entries s' = <[path := {| content_hash := hash; entry_metadata := metadata; relative_path := path |}]> (entries s) ∧
        if (added : bool) then
          match renamed_from (deleted s) hash with
          | Some from => deleted s' = delete from (deleted s) ∧ found s' = found s ++ [Renamed from path]
          | None => deleted s' = deleted s ∧ found s' = found s ++ [Added path]
          end
        else deleted s' = deleted s ∧
          found s' = found s ++ match prior !! path with
                                | Some previous => if decide (content_hash previous = hash) then [] else [Modified path]
                                | None => []
                                end
  end.
Proof.
  unfold step, resolve_change. destruct c as [metadata path|path|metadata path]; simpl.
  - intros ([observed hash]&Hhash&Hr)%result_bind_ok. apply result_then_ok in Hr as [Hm [= <-]].
    apply reject_if_ok, negb_false_iff, bool_decide_eq_true in Hm as ->. exists hash.
    destruct (renamed_from (deleted s) hash); done.
  - congruence.
  - intros ([observed hash]&Hhash&Hr)%result_bind_ok. apply result_then_ok in Hr as [Hm [= <-]].
    apply reject_if_ok, negb_false_iff, bool_decide_eq_true in Hm as ->. exists hash. split; [done|]. split; [done|].
    split; [done|]. simpl. destruct (prior !! path); [case_decide|]; by rewrite ?app_nil_r.
Qed.

(** What is known of a path after some of the changes, [read] those that were read. *)
Record resolving (s0 s : Resolution) (read : list (FileMetadata * string * bool)) : Prop := {
  rv_kept path : path ∉ (λ r : FileMetadata * string * bool, r.1.2) <$> read → entries s !! path = entries s0 !! path;
  rv_read metadata path added : (metadata, path, added) ∈ read → ∃ hash,
    hash_file (observe path) = Ok (metadata, hash) ∧
    entries s !! path = Some {| content_hash := hash; entry_metadata := metadata; relative_path := path |} ∧
    if (added : bool) then Added path ∈ found s ∨ ∃ from e, Renamed from path ∈ found s ∧
                             deleted s0 !! from = Some e ∧ content_hash e = hash
    else ∀ previous, prior !! path = Some previous → content_hash previous ≠ hash → Modified path ∈ found s;
  rv_deleted path e : deleted s0 !! path = Some e →
    deleted s !! path = Some e ∨ ∃ to, Renamed path to ∈ found s;
  rv_subset : deleted s ⊆ deleted s0;
}.

Lemma resolve_changes_ok cs s s' :
  try_fold step s cs = Ok s' → NoDup ((λ r : FileMetadata * string * bool, r.1.2) <$> omap change_reads cs) →
  resolving s s' (omap change_reads cs) ∧ found s ⊆ found s'.
Proof.
  revert s. induction cs as [|c cs IH]; intros s; simpl.
  { intros [= <-] _. split; [|done]. split; [done|by intros ??? ?%elem_of_nil|by left|done]. }
  intros (s1&Hc&Hcs)%result_bind_ok Hnd. apply resolve_change_ok in Hc.
  destruct (change_reads c) as [[[metadata path] added]|] eqn:Hread; [|subst s1; by apply IH].
  cbn [fmap list_fmap] in Hnd. apply NoDup_cons in Hnd as [Hnew Hnd]. simpl in Hnew.
  destruct (IH s1 Hcs Hnd) as [[Hkept Hreads Hdel Hsub] Hfound].
  destruct Hc as (hash&Hhash&Hentries&Hrest).
  assert (deleted s1 ⊆ deleted s ∧ found s ⊆ found s1 ∧
    (∀ p e, deleted s !! p = Some e → deleted s1 !! p = Some e ∨ Renamed p path ∈ found s1) ∧
    if added then Added path ∈ found s1 ∨ ∃ from e, Renamed from path ∈ found s1 ∧ deleted s !! from = Some e ∧
                    content_hash e = hash
    else ∀ previous, prior !! path = Some previous → content_hash previous ≠ hash → Modified path ∈ found s1)
    as (Hsub1&Hfound1&Hdel1&Hadd).
  { destruct added.
    - destruct (renamed_from (deleted s) hash) as [from|] eqn:Hfrom; destruct Hrest as [Hd Hf]; rewrite Hd, Hf.
      + apply renamed_from_some in Hfrom as (e&He&Hhe). split; [apply delete_subseteq|]. split; [set_solver|].
        split; [|right; exists from, e; set_solver].
        intros p e' Hp. destruct (decide (p = from)) as [->|]; [right; set_solver|left].
        by rewrite lookup_delete_ne.
      + split; [done|]. split; [set_solver|]. split; [by left|left; set_solver].
    - destruct Hrest as [Hd Hf]. rewrite Hd, Hf. split; [done|]. split; [set_solver|]. split; [by left|].
      intros previous -> Hne. rewrite decide_False by done. set_solver. }
  split; [split|set_solver].
  - intros p Hp. apply not_elem_of_cons in Hp as [Hpne Hp]. rewrite (Hkept p Hp), Hentries.
    by rewrite lookup_insert_ne.
  - intros m p a [[= -> -> ->]|Hin]%elem_of_cons.
    + exists hash. split; [done|]. split; [rewrite (Hkept path Hnew), Hentries; apply lookup_insert_eq|].
      destruct added; [|intros; apply Hfound; by eapply Hadd].
      destruct Hadd as [?|(from&e&?&?&?)]; [left|right; exists from, e]; set_solver.
    + destruct (Hreads m p a Hin) as (h&?&?&Ha). exists h. split; [done|]. split; [done|].
      destruct a; [|done]. destruct Ha as [?|(from&e&?&Hde&?)]; [by left|right].
      exists from, e. split; [done|]. split; [|done]. by eapply lookup_weaken.
  - intros p e Hp. destruct (Hdel1 p e Hp) as [Hp1|Hr]; [|right; exists path; by apply Hfound].
    by apply Hdel.
  - by etrans.
Qed.
End resolving.

Lemma NoDup_fmap_same {A B} (f : A → B) (l : list A) x y :
  NoDup (f <$> l) → x ∈ l → y ∈ l → f x = f y → x = y.
Proof.
  induction l as [|z l IH]; [intros _ Hx; by apply elem_of_nil in Hx|]. cbn [fmap list_fmap].
  intros [Hz Hnd]%NoDup_cons Hx Hy Hxy. apply elem_of_cons in Hx as [->|Hx], Hy as [->|Hy]; [done| | |by apply IH].
  - destruct Hz. rewrite Hxy. by apply list_elem_of_fmap_2.
  - destruct Hz. rewrite <-Hxy. by apply list_elem_of_fmap_2.
Qed.

Section planning.
Context (prior : Manifest) (trust_metadata : bool).
Context (Hkeyed : ∀ path e, prior !! path = Some e → relative_path e = path).

(** The entry of the manifest that stays for a file, if one does. *)
Definition kept_entry (e : InventoryEntry) : option ManifestEntry :=
  previous ← prior !! found_path e;
  if trust_metadata && bool_decide (entry_metadata previous = found_metadata e) then Some previous else None.
Definition read_of (e : InventoryEntry) : FileMetadata * string * bool :=
  (found_metadata e, found_path e, bool_decide (prior !! found_path e = None)).

Lemma kept_entry_some e m : kept_entry e = Some m →
  trust_metadata = true ∧ prior !! found_path e = Some m ∧ entry_metadata m = found_metadata e.
Proof.
  unfold kept_entry. destruct (prior !! found_path e) as [m'|]; [|done]. simpl.
  destruct (trust_metadata && _) eqn:Hb; [|done]. intros [= ->]. to_prop. done.
Qed.

Lemma kept_entry_paths inventory : NoDup (found_path <$> inventory) → NoDup (relative_path <$> omap kept_entry inventory).
Proof.
  induction inventory as [|e l IH]; [constructor|]. cbn [fmap list_fmap]. intros [He Hnd]%NoDup_cons. simpl.
  destruct (kept_entry e) as [m|] eqn:Hm; [|by apply IH]. cbn [fmap list_fmap]. apply NoDup_cons.
  split; [|by apply IH]. intros (m'&Heq&(e'&He'&Hm')%list_elem_of_omap)%list_elem_of_fmap.
  apply kept_entry_some in Hm as (_&Hm%Hkeyed&_), Hm' as (_&Hm'%Hkeyed&_). destruct He.
  rewrite <-Hm, Heq, Hm'. by apply list_elem_of_fmap_2.
Qed.

Lemma plan_folded p inventory :
  omap change_reads (changes (foldl (plan_entry prior trust_metadata) p inventory)) =
    omap change_reads (changes p) ++ (read_of <$> filter (λ e, kept_entry e = None) inventory) ∧
  omap (planned_deletion prior) (changes (foldl (plan_entry prior trust_metadata) p inventory)) =
    omap (planned_deletion prior) (changes p) ∧
  unchanged (foldl (plan_entry prior trust_metadata) p inventory) = unchanged p ++ omap kept_entry inventory.
Proof.
  revert p. induction inventory as [|e inventory IH]; intros p; simpl; [by rewrite !app_nil_r|].
  destruct (IH (plan_entry prior trust_metadata p e)) as (->&->&->). unfold plan_entry, kept_entry, read_of.
  destruct (prior !! found_path e) as [previous|] eqn:Hp; simpl.
  - destruct (trust_metadata && _) eqn:Hb; simpl.
    + rewrite filter_cons_False by (rewrite Hp; simpl; by rewrite Hb). by rewrite <-app_assoc.
    + rewrite filter_cons_True by (rewrite Hp; simpl; by rewrite Hb). rewrite !omap_app. simpl.
      rewrite bool_decide_false by (by rewrite Hp). by rewrite <-app_assoc, app_nil_r.
  - rewrite filter_cons_True by (by rewrite Hp). rewrite !omap_app. simpl.
    rewrite bool_decide_true by done. by rewrite <-app_assoc, app_nil_r.
Qed.

Definition gone (inventory : list InventoryEntry) : list string :=
  filter (λ path, path ∉ found_path <$> inventory) (btree_keys prior).

Lemma plan_parts inventory :
  let p := manifest_plan prior inventory trust_metadata in
  omap change_reads (changes p) = read_of <$> filter (λ e, kept_entry e = None) inventory ∧
  unchanged p = omap kept_entry inventory ∧
  ∀ path e, (list_to_map (reverse (omap (planned_deletion prior) (changes p))) : Manifest) !! path = Some e ↔
    prior !! path = Some e ∧ path ∉ found_path <$> inventory.
Proof.
  cbv zeta. unfold manifest_plan. cbn [changes unchanged]. fold (gone inventory).
  destruct (plan_folded {| changes := []; unchanged := [] |} inventory) as (Hr&Hd&Hu).
  rewrite !omap_app, Hr, Hd, Hu. simpl.
  assert (∀ l, omap change_reads (ChangeDeleted <$> l) = []) as ->
    by (intros l; induction l as [|x l IH]; [done|apply IH]).
  split; [by rewrite app_nil_r|]. split; [done|]. intros path e.
  assert (omap (planned_deletion prior) (ChangeDeleted <$> gone inventory) =
          omap (λ path, (path,.) <$> prior !! path) (gone inventory)) as ->
    by (induction (gone inventory) as [|x l IH]; [done|]; simpl; destruct (prior !! x); simpl; [f_equal|]; apply IH).
  set (l := omap _ _).
  assert (∀ p x, (p, x) ∈ l ↔ prior !! p = Some x ∧ p ∉ found_path <$> inventory) as Hl.
  { intros p x. subst l. rewrite list_elem_of_omap. unfold gone. split.
    - intros (q&Hq&(y&Hy&[= <- <-])%fmap_Some). by apply list_elem_of_filter in Hq as [? _].
    - intros [Hp Hnot]. exists p. rewrite Hp. split; [|done]. apply list_elem_of_filter. split; [done|].
      apply elem_of_btree_keys. by rewrite Hp. }
  rewrite <-elem_of_list_to_map, elem_of_reverse, Hl; [done|].
  rewrite fmap_reverse, reverse_Permutation.
  assert (l.*1 = gone inventory) as ->; [|apply NoDup_filter, NoDup_btree_keys].
  subst l. clear Hl. assert (Forall (λ p, is_Some (prior !! p)) (gone inventory)) as Hall.
  { apply Forall_forall. intros p [_ Hp]%list_elem_of_filter. by apply elem_of_btree_keys. }
  induction Hall as [|p l [x Hx] Hl' IH]; [done|]. simpl. rewrite Hx. simpl. by f_equal.
Qed.
End planning.

(** What a resolved plan holds: what was read of each file that is not kept as it
    was, the entries that are kept, nothing else, and a change for every path that
    is gone. *)
Record plan_result `{Sha256} (observe : string → FileObservation) (prior : Manifest)
    (inventory : list InventoryEntry) (trust_metadata : bool) (u : ManifestUpdate) : Prop := {
  pr_read e : e ∈ inventory → kept_entry prior trust_metadata e = None →
    ∃ hash, hash_file (observe (found_path e)) = Ok (found_metadata e, hash) ∧
      manifest u !! found_path e = Some {| content_hash := hash; entry_metadata := found_metadata e;
                                           relative_path := found_path e |} ∧
      if bool_decide (prior !! found_path e = None)
      then Added (found_path e) ∈ resolved u ∨ ∃ from p, Renamed from (found_path e) ∈ resolved u ∧
        (prior !! from = Some p ∧ from ∉ found_path <$> inventory) ∧ content_hash p = hash
      else ∀ p, prior !! found_path e = Some p → content_hash p ≠ hash → Modified (found_path e) ∈ resolved u;
  pr_kept e m : e ∈ inventory → kept_entry prior trust_metadata e = Some m →
    manifest u !! found_path e = Some m ∧ trust_metadata = true ∧ prior !! found_path e = Some m ∧
    entry_metadata m = found_metadata e;
  pr_none path : path ∉ found_path <$> inventory → manifest u !! path = None;
  pr_gone path : is_Some (prior !! path) → path ∉ found_path <$> inventory →
    Deleted path ∈ resolved u ∨ ∃ to, Renamed path to ∈ resolved u;
}.

Lemma plan_resolved `{Sha256} observe prior inventory trust_metadata u :
  NoDup (found_path <$> inventory) → (∀ path e, prior !! path = Some e → relative_path e = path) →
  resolve observe prior (manifest_plan prior inventory trust_metadata) = Ok u →
  plan_result observe prior inventory trust_metadata u.
Proof.
  intros Hnd Hkeyed. unfold resolve. destruct (plan_parts prior trust_metadata inventory) as (Hreads&Hunchanged&Hgone).
  cbv zeta in *. set (plan := manifest_plan _ _ _) in *. intros (s&Hs&[= <-])%result_bind_ok.
  assert (NoDup ((λ r : FileMetadata * string * bool, r.1.2) <$> omap change_reads (changes plan))) as Hndr.
  { rewrite Hreads, <-list_fmap_compose. by apply NoDup_fmap_filter. }
  destruct (resolve_changes_ok observe prior _ _ _ Hs Hndr) as [[Hkept Hread Hdel Hsub] Hfound].
  rewrite Hreads in Hkept, Hread. cbn [entries deleted found] in *.
  assert (∀ x, x ∈ found s → x ∈ found s ++ (Deleted <$> btree_keys (deleted s))) as Hin
    by (intros x Hx; apply elem_of_app; by left).
  split; cbn [manifest resolved].
  - intros e He Hnone.
    destruct (Hread (found_metadata e) (found_path e) (bool_decide (prior !! found_path e = None)))
      as (hash&Hhash&Hm&Ha).
    { apply list_elem_of_fmap. exists e. split; [done|]. by apply list_elem_of_filter. }
    exists hash. split; [done|]. split; [done|]. case_bool_decide; [|intros p Hp Hne; by apply Hin, (Ha p)].
    destruct Ha as [?|(from&p&?&?%Hgone&?)]; [by left; apply Hin|right; exists from, p; auto].
  - intros e m He Hm. pose proof (kept_entry_some _ _ _ _ Hm) as (Ht&Hp&Hmeta).
    split; [|done]. rewrite Hkept.
    + rewrite Hunchanged. apply index_by_lookup; [by apply kept_entry_paths|].
      split; [|by apply Hkeyed]. apply list_elem_of_omap. by exists e.
    + intros (r&Hr&(e'&->&[Hnone He']%list_elem_of_filter)%list_elem_of_fmap)%list_elem_of_fmap. simpl in Hr.
      assert (e = e') as ->; [by eapply NoDup_fmap_same|congruence].
  - intros path Hnot. rewrite Hkept.
    + rewrite Hunchanged. apply eq_None_not_Some. unfold from_entries.
      rewrite index_by_dom by (by apply kept_entry_paths).
      intros (m&->&(e&He&Hm)%list_elem_of_omap)%list_elem_of_fmap. apply kept_entry_some in Hm as (_&Hm%Hkeyed&_).
      destruct Hnot. rewrite Hm. by apply list_elem_of_fmap_2.
    + intros (r&->&(e&->&[_ He]%list_elem_of_filter)%list_elem_of_fmap)%list_elem_of_fmap.
      destruct Hnot. simpl. by apply list_elem_of_fmap_2.
  - intros path [e He] Hp. destruct (Hdel path e) as [Hd|[to Hto]]; [by apply Hgone| |right; exists to; by apply Hin].
    left. apply elem_of_app. right. apply list_elem_of_fmap_2, elem_of_btree_keys. by rewrite Hd.
Qed.

(** A path of the manifest is that of an entry of the inventory, kept or read. *)
Lemma plan_result_path `{Sha256} observe prior inventory trust_metadata u path m :
  plan_result observe prior inventory trust_metadata u → manifest u !! path = Some m →
  ∃ e, e ∈ inventory ∧ path = found_path e ∧
    (kept_entry prior trust_metadata e = Some m ∨ kept_entry prior trust_metadata e = None).
Proof.
  intros Hu Hm. destruct (decide (path ∈ found_path <$> inventory)) as [(e&->&He)%list_elem_of_fmap|Hout];
    [|by rewrite (pr_none _ _ _ _ _ Hu path Hout) in Hm].
  exists e. split; [done|]. split; [done|]. destruct (kept_entry prior trust_metadata e) as [m'|] eqn:Hk; [left|by right].
  destruct (pr_kept _ _ _ _ _ Hu e m' He Hk). congruence.
Qed.

(** C32. A resolved plan is the manifest of the inventory, if the paths of the
    inventory are distinct and the prior manifest has each entry under its path:
    it has exactly the inventory's paths, each with the metadata the inventory
    saw and with the digest of what was read at that metadata, or the entry it
    had when the metadata is trusted. Its changes have every path that is gone
    (deleted or renamed away), every path that is new (added, or the target of a
    renaming of a path that is gone and had the same digest) and every path whose
    digest is not the prior one (modified); a file that was touched without a new
    digest has a new entry and need not be among the changes. *)
Theorem manifest_update_faithful `{Sha256} observe prior inventory trust_metadata u :
  NoDup (found_path <$> inventory) → (∀ path e, prior !! path = Some e → relative_path e = path) →
  resolve observe prior (manifest_plan prior inventory trust_metadata) = Ok u →
  (∀ path, is_Some (manifest u !! path) ↔ path ∈ found_path <$> inventory) ∧
  (∀ path e, manifest u !! path = Some e →
     relative_path e = path ∧ {| found_metadata := entry_metadata e; found_path := path |} ∈ inventory ∧
     (hash_file (observe path) = Ok (entry_metadata e, content_hash e) ∨ trust_metadata = true ∧ prior !! path = Some e)) ∧
  (∀ path, is_Some (prior !! path) → manifest u !! path = None →
     Deleted path ∈ resolved u ∨ ∃ to, Renamed path to ∈ resolved u) ∧
  (∀ path e, manifest u !! path = Some e → prior !! path = None →
     Added path ∈ resolved u ∨ ∃ from previous, Renamed from path ∈ resolved u ∧ prior !! from = Some previous ∧
       content_hash previous = content_hash e ∧ manifest u !! from = None) ∧
  (∀ path e previous, manifest u !! path = Some e → prior !! path = Some previous →
     content_hash previous ≠ content_hash e → Modified path ∈ resolved u).
Proof.
  intros Hnd Hkeyed Hu%plan_resolved; [|done..].
  pose proof (λ path m, plan_result_path observe prior inventory trust_metadata u path m Hu) as Hpath. destruct Hu as [Hread Hkept Hnone Hgone].
  assert (∀ path, manifest u !! path = None → path ∉ found_path <$> inventory) as Hnot.
  { intros path Hp (e&->&He)%list_elem_of_fmap. destruct (kept_entry prior trust_metadata e) as [m|] eqn:Hm.
    - destruct (Hkept e m He Hm). congruence.
    - destruct (Hread e He Hm) as (h&_&Hh&_). congruence. }
  split_and!.
  - intros path. split.
    + intros [m (e&He&->&_)%Hpath]. by apply list_elem_of_fmap_2.
    + intros Hin. destruct (manifest u !! path) eqn:Hp; [done|]. by destruct (Hnot path Hp).
  - intros path m Hm. destruct (Hpath path m Hm) as (e&He&->&[Hk|Hk]).
    + destruct (Hkept e m He Hk) as (_&Ht&Hp&Hmeta). rewrite Hmeta. destruct e.
      split; [by apply Hkeyed|]. by split; [|right].
    + destruct (Hread e He Hk) as (h&Hh&Hm'&_). rewrite Hm' in Hm. injection Hm as <-. simpl.
      destruct e. split; [done|]. by split; [|left].
  - intros path He Hp%Hnot. by apply Hgone.
  - intros path m Hm Hp. destruct (Hpath path m Hm) as (e&He&->&[Hk|Hk]); [destruct (Hkept e m He Hk); naive_solver|].
    destruct (Hread e He Hk) as (h&Hh&Hm'&Hadd). rewrite bool_decide_true in Hadd by done.
    rewrite Hm' in Hm. injection Hm as <-. simpl.
    destruct Hadd as [?|(from&p&?&[? Hfrom]&?)]; [by left|right]. exists from, p. rewrite (Hnone from Hfrom). auto.
  - intros path m previous Hm Hp Hne.
    destruct (Hpath path m Hm) as (e&He&->&[Hk|Hk]); [destruct (Hkept e m He Hk); naive_solver|].
    destruct (Hread e He Hk) as (h&Hh&Hm'&Hadd). rewrite bool_decide_false in Hadd by (by rewrite Hp).
    rewrite Hm' in Hm. injection Hm as <-. by apply (Hadd previous).
Qed.

(** * Examples *)

Section examples.
#[local] Instance sample_sha256 : Sha256 := λ s, word_of 256 (be_value s).

Definition regular (length : N) : StdMetadata :=
  {| is_file := true; is_symlink := false; std_length := length; std_modified := Some 7%Z |}.
Definition walked_file (path : string) (length : N) : option WalkEntry :=
  Some {| walk_relative := path; walk_symlink := Some false; walk_directory := false;
          walk_metadata := Some (regular length) |}.
Definition sample_policy : IgnorePolicy := policy_new (λ _ _, false) 10.

(** A large file and a file in an excluded directory are skipped; a backslash in a
    name becomes a separator, so that the entry names another path. *)
Example sample_inventory :
  (λ found : list InventoryEntry * InventoryStats, (found_path <$> found.1, files found.2, skipped found.2)) <$>
    match inventory true sample_policy
            (λ _, [walked_file "a.rs" 3; walked_file "big.rs" 11; walked_file "target/x.rs" 1;
                   walked_file "a\b.rs" 3]) with
    | Ok found => Some found
    | Err _ => None
    end = Some (["a.rs"; "a/b.rs"], 2%N, 2%N).
Proof. vm_compute. reflexivity. Qed.

Definition sample_observe (path : string) : FileObservation :=
  {| metadata_before := Some (regular 3); opens := true; reads := [Some "ab"; Some "c"];
     metadata_after := Some (regular 3) |}.
Definition sample_prior : Manifest :=
  from_entries [{| content_hash := digest_of "abc"; entry_metadata := from_std (regular 3); relative_path := "old.rs" |}].
Definition sample_inventory_entries : list InventoryEntry :=
  [{| found_metadata := from_std (regular 3); found_path := "new.rs" |}].
Definition sample_update : ManifestUpdate :=
  {| resolved := [Renamed "old.rs" "new.rs"];
     manifest := from_entries
       [{| content_hash := digest_of "abc"; entry_metadata := from_std (regular 3); relative_path := "new.rs" |}] |}.

Example sample_git : parse_name_status_z (git_output ["R100"; "a"; "b"; "M"; "c\d"]) =
  Ok [{| change_kind := G_Renamed; change_path := "b"; previous_path := Some "a" |};
      {| change_kind := G_Modified; change_path := "c/d"; previous_path := None |}].
Proof. vm_compute. reflexivity. Qed.
End examples.

Lemma manifest_update_faithful_witness : ∃ S : Sha256,
  resolve sample_observe sample_prior (manifest_plan sample_prior sample_inventory_entries true) = Ok sample_update ∧
  (Deleted "old.rs" ∈ resolved sample_update ∨ ∃ to, Renamed "old.rs" to ∈ resolved sample_update).
Proof.
  exists sample_sha256.
  assert (resolve (H := sample_sha256) sample_observe sample_prior
            (manifest_plan sample_prior sample_inventory_entries true) = Ok sample_update) as Hresolve
    by (vm_compute; reflexivity).
  split; [exact Hresolve|].
  refine (proj1 (proj2 (proj2 (@manifest_update_faithful sample_sha256 sample_observe sample_prior
    sample_inventory_entries true sample_update _ _ Hresolve))) "old.rs" _ _).
  - repeat constructor. intros Hin. by apply elem_of_nil in Hin.
  - exact (from_entries_keyed _).
  - vm_compute. by eexists.
  - vm_compute. reflexivity.
Defined.
End Inventory.
