(* ===== verification/CodeStore.v ===== *)
(** The store of workflow-code-intel (graph/store.rs): the tables of the code graph
    in the database of workflow-store (its migrations 5 and 14), the replacement and
    the loading of a partition, the manifest and the search over paths.

    A table is a map from its primary key to its other columns, as in [Database.v];
    a column that holds the text of an identifier, a digest or a number holds the
    value. The full-text search of SQLite is the class [PathSearchEngine]. *)
From Stdlib Require Import Ascii String.
From S2P Require Import Prelude Text Ids Paths Canonical CodeGraph Inventory Database.

(** [MATCH] and [ORDER BY rank] of the path search: the rows that match a query,
    the best first. *)
Class PathSearchEngine := path_match : string → list (ProjectId * string) → list (ProjectId * string).

Module CodeStore.
Import CodeGraph Inventory.
Local Open Scope Z_scope.

Inductive GraphStoreError : Type :=
| GraphDomain (error : GraphError) | Incomplete | GraphIntegerRange | MissingSchema
| GraphSerialization | GraphSqlite | GraphPanicked.

(** * Tables *)

Record PartitionRow : Type := {
  row_project : ProjectId; row_scope : string; head_generation : Z; partition_updated : string;
}.
Record CodeEdgeRow : Type := { row_source : NodeId; row_target : NodeId; edge_json : string }.
Record ManifestRow : Type := {
  row_length : Z; row_modified : option N; row_hash : ContentDigest; entry_json : string;
}.
Record IndexStateRow : Type := { repository_path : string; fingerprint : string; index_updated : string }.

Record CodeTables : Type := {
  code_partitions : gmap PartitionId PartitionRow;
  code_nodes : gmap (PartitionId * Z * NodeId) string;
  code_edges : gmap (PartitionId * Z * EdgeId) CodeEdgeRow;
  code_manifest : gmap (ProjectId * string) ManifestRow;
  code_index_state : gmap ProjectId IndexStateRow;
  code_paths_fts : list (ProjectId * string);
}.
Definition empty_tables : CodeTables :=
  {| code_partitions := ∅; code_nodes := ∅; code_edges := ∅; code_manifest := ∅; code_index_state := ∅;
     code_paths_fts := [] |}.

Definition set_partitions (rows : gmap PartitionId PartitionRow) (t : CodeTables) : CodeTables :=
  {| code_partitions := rows; code_nodes := code_nodes t; code_edges := code_edges t;
     code_manifest := code_manifest t; code_index_state := code_index_state t; code_paths_fts := code_paths_fts t |}.
Definition set_nodes (rows : gmap (PartitionId * Z * NodeId) string) (t : CodeTables) : CodeTables :=
  {| code_partitions := code_partitions t; code_nodes := rows; code_edges := code_edges t;
     code_manifest := code_manifest t; code_index_state := code_index_state t; code_paths_fts := code_paths_fts t |}.
Definition set_edges (rows : gmap (PartitionId * Z * EdgeId) CodeEdgeRow) (t : CodeTables) : CodeTables :=
  {| code_partitions := code_partitions t; code_nodes := code_nodes t; code_edges := rows;
     code_manifest := code_manifest t; code_index_state := code_index_state t; code_paths_fts := code_paths_fts t |}.
Definition set_manifest (rows : gmap (ProjectId * string) ManifestRow) (t : CodeTables) : CodeTables :=
  {| code_partitions := code_partitions t; code_nodes := code_nodes t; code_edges := code_edges t;
     code_manifest := rows; code_index_state := code_index_state t; code_paths_fts := code_paths_fts t |}.
Definition set_index_state (rows : gmap ProjectId IndexStateRow) (t : CodeTables) : CodeTables :=
  {| code_partitions := code_partitions t; code_nodes := code_nodes t; code_edges := code_edges t;
     code_manifest := code_manifest t; code_index_state := rows; code_paths_fts := code_paths_fts t |}.
Definition set_paths_fts (rows : list (ProjectId * string)) (t : CodeTables) : CodeTables :=
  {| code_partitions := code_partitions t; code_nodes := code_nodes t; code_edges := code_edges t;
     code_manifest := code_manifest t; code_index_state := code_index_state t; code_paths_fts := rows |}.

(** Statements, and a transaction of them: an error drops it with what it did. *)
Abbreviation Statement := (method CodeTables GraphStoreError).
Definition graph_transaction {A} (body : Statement A) : Statement A := λ t,
  match body t with (t', Ok a) => (t', Ok a) | (_, Err e) => (t, Err e) end.
Definition graph_constraint (holds : bool) : Statement unit := m_lift (reject_if (negb holds) GraphSqlite).
Definition graph_select {A} (q : CodeTables → A) : Statement A := t ← m_get; mret (q t).
Definition graph_encode `{Persist A} (a : A) : Statement string :=
  m_lift (ok_or GraphSerialization (json_encode a)).
Definition graph_decode `{Persist A} (s : string) : result GraphStoreError A :=
  ok_or GraphSerialization (json_decode s).

(** The rows of a table with a value in their first column, by the rest of the key. *)
Definition rows_of {A K V} `{Countable A, Countable K} (m : gmap (A * K) V) (a : A) : gmap K V :=
  list_to_map (omap (λ row : A * K * V, if decide (row.1.1 = a) then Some (row.1.2, row.2) else None)
                 (map_to_list m)).

(** * Opening *)

(** [GraphStore::open] on a database at a schema version. *)
Definition graph_store_open (user_version : N) : result GraphStoreError unit :=
  reject_if (user_version <? 5)%N MissingSchema.

(** * SQLite's LIKE *)

Definition percent : ascii := "037".
Definition underscore : ascii := "095".

Fixpoint drop_continuation (l : list ascii) : list ascii :=
  match l with a :: l' => if continuation a then drop_continuation l' else l | [] => [] end.

(** [text LIKE pattern ESCAPE '\']: the case of ASCII letters does not matter, a
    percent sign stands for any text, an underscore for any character. *)
Fixpoint like (pattern text : list ascii) : bool :=
  match pattern with
  | [] => match text with [] => true | _ => false end
  | c :: pattern' =>
      if ascii_dec c percent then
        (fix any (text : list ascii) : bool :=
           like pattern' text || match text with [] => false | _ :: text' => any text' end) text
      else if ascii_dec c underscore then
        match text with [] => false | _ :: text' => like pattern' (drop_continuation text') end
      else if ascii_dec c backslash then
        match pattern', text with
        | e :: pattern'', a :: text' => is_char (ascii_lower e) (ascii_lower a) && like pattern'' text'
        | _, _ => false
        end
      else
        match text with
        | a :: text' => is_char (ascii_lower c) (ascii_lower a) && like pattern' text'
        | [] => false
        end
  end.

Definition escape_like (value : string) : string :=
  replace_char underscore (String backslash (String underscore ""))
    (replace_char percent (String backslash (String percent ""))
       (replace_char backslash (String backslash (String backslash "")) value)).

(** The rows of a path that [replace_manifest_scopes] deletes for a scope:
    [instr(relative_path, '/') = 0] for the root, else the LIKE of the scope. *)
Definition deleted_for_scope (scope path : string) : bool :=
  if decide (scope = "root") then negb (contains_char slash path)
  else like (str_chars (escape_like scope +:+ "/%")) (str_chars path).

(** * Partitions *)

Section store.
Context `{Sha256, UuidText, Rfc3339, Persist GraphNode, Persist GraphEdge, Persist ManifestEntry}.

(** [INSERT INTO code_partitions ... ON CONFLICT(id) DO UPDATE] of the generation
    and the time; a project has a scope once. *)
Definition upsert_partition (p : GraphPartition) (generation : Z) (time : string) : Statement unit :=
  t ← m_get;
  _ ← graph_constraint (1 <=? generation);
  match code_partitions t !! partition_id p with
  | Some row =>
      m_modify (set_partitions (<[partition_id p :=
        {| row_project := row_project row; row_scope := row_scope row; head_generation := generation;
           partition_updated := time |}]> (code_partitions t)))
  | None =>
      _ ← graph_constraint (negb (bool_decide (map_Exists (λ _ row,
            row_project row = project_id p ∧ row_scope row = scope p) (code_partitions t))));
      m_modify (set_partitions (<[partition_id p :=
        {| row_project := project_id p; row_scope := scope p; head_generation := generation;
           partition_updated := time |}]> (code_partitions t)))
  end.
Definition insert_node (partition : PartitionId) (generation : Z) (n : GraphNode) : Statement unit :=
  json ← graph_encode n;
  t ← m_get;
  _ ← graph_constraint (bool_decide (code_nodes t !! (partition, generation, node_id n) = None));
  m_modify (set_nodes (<[(partition, generation, node_id n) := json]> (code_nodes t))).
Definition insert_edge (partition : PartitionId) (generation : Z) (e : GraphEdge) : Statement unit :=
  json ← graph_encode e;
  t ← m_get;
  _ ← graph_constraint (bool_decide (code_edges t !! (partition, generation, edge_id e) = None));
  m_modify (set_edges (<[(partition, generation, edge_id e) :=
    {| row_source := source e; row_target := target e; edge_json := json |}]> (code_edges t))).

(** A row of an earlier generation of a partition. *)
Definition outdated {K V} (partition : PartitionId) (generation : Z) (row : PartitionId * Z * K * V) : Prop :=
  row.1.1.1 = partition ∧ row.1.1.2 < generation.
#[export] Instance outdated_dec {K V} partition generation (row : PartitionId * Z * K * V) :
  Decision (outdated partition generation row).
Proof. unfold outdated. apply _. Defined.

(** [replace_partition_in_transaction]. *)
Definition replace_partition_in_transaction (p : GraphPartition) (timestamp : WorkflowTimestamp) : Statement N :=
  current ← graph_select (λ t, head_generation <$> code_partitions t !! partition_id p);
  generation ← m_lift (ok_or GraphIntegerRange (i64_checked_add (default 0 current) 1));
  time ← m_lift (ok_or GraphPanicked (timestamp_to_string timestamp));
  _ ← upsert_partition p generation time;
  _ ← m_for_each (insert_node (partition_id p) generation) (btree_values (nodes p));
  _ ← m_for_each (insert_edge (partition_id p) generation) (btree_values (edges p));
  _ ← m_modify (λ t, set_nodes (filter (λ row, ¬ outdated (partition_id p) generation row) (code_nodes t)) t);
  _ ← m_modify (λ t, set_edges (filter (λ row, ¬ outdated (partition_id p) generation row) (code_edges t)) t);
  m_lift (ok_or GraphIntegerRange (if 0 <=? generation then Some (Z.to_N generation) else None)).

(** [PartitionBatch::replace_partition], in the transaction of its batch. *)
Definition batch_replace_partition (p : GraphPartition) (timestamp : WorkflowTimestamp) : Statement N :=
  _ ← m_lift (map_err GraphDomain (partition_validate p));
  replace_partition_in_transaction p timestamp.

(** [GraphStore::replace_partition]. *)
Definition replace_partition (p : GraphPartition) (complete : bool) (timestamp : WorkflowTimestamp) : Statement N :=
  _ ← m_lift (reject_if (negb complete) Incomplete);
  _ ← m_lift (map_err GraphDomain (partition_validate p));
  graph_transaction (replace_partition_in_transaction p timestamp).

(** The JSON of the rows of a partition's generation, by identifier. *)
Definition node_rows (t : CodeTables) (partition : PartitionId) (generation : Z) : gmap NodeId string :=
  rows_of (code_nodes t) (partition, generation).
Definition edge_rows (t : CodeTables) (partition : PartitionId) (generation : Z) : gmap EdgeId string :=
  edge_json <$> rows_of (code_edges t) (partition, generation).

(** The identifiers that edges need from other partitions. *)
Definition add_external (nodes : gmap NodeId GraphNode) (external : gset NodeId) (e : GraphEdge) : gset NodeId :=
  let external := if bool_decide (is_Some (nodes !! source e)) then external else {[source e]} ∪ external in
  if bool_decide (is_Some (nodes !! target e)) then external else {[target e]} ∪ external.
Definition external_of (nodes : gmap NodeId GraphNode) (edges : gmap EdgeId GraphEdge) : gset NodeId :=
  foldl (add_external nodes) ∅ (btree_values edges).

(** [GraphStore::load_partition]. *)
Definition load_partition (id : PartitionId) (t : CodeTables) : result GraphStoreError (option GraphPartition) :=
  match code_partitions t !! id with
  | None => Ok None
  | Some row =>
      nodes ← try_map graph_decode (btree_values (node_rows t id (head_generation row)));
      edges ← try_map graph_decode (btree_values (edge_rows t id (head_generation row)));
      let nodes := index_by node_id ∅ nodes in
      let edges := index_by edge_id ∅ edges in
      let p := {| edges := edges; external_nodes := external_of nodes edges; partition_id := id; nodes := nodes;
                  project_id := row_project row; scope := row_scope row |} in
      _ ← map_err GraphDomain (partition_validate p);
      Ok (Some p)
  end.

(** * The manifest *)

(** [GraphStore::load_manifest]: the entries of a project by their path. *)
Definition project_rows (t : CodeTables) (project : ProjectId) : gmap string ManifestRow :=
  rows_of (code_manifest t) project.
Definition load_manifest (project : ProjectId) (t : CodeTables) : result GraphStoreError Manifest :=
  entries ← try_map (λ row, graph_decode (entry_json row)) (btree_values (project_rows t project));
  Ok (from_entries entries).

(** [insert_manifest_entry]. *)
Definition insert_manifest_entry (project : ProjectId) (e : ManifestEntry) : Statement unit :=
  length ← m_lift (ok_or GraphIntegerRange
    (let n := Z.of_N (length_bytes (entry_metadata e)) in if n <=? i64_max then Some n else None));
  json ← graph_encode e;
  t ← m_get;
  _ ← graph_constraint (bool_decide (code_manifest t !! (project, relative_path e) = None));
  m_modify (set_manifest (<[(project, relative_path e) :=
    {| row_length := length; row_modified := modified_unix_nanos (entry_metadata e); row_hash := content_hash e;
       entry_json := json |}]> (code_manifest t))).

(** [populate_path_search]. *)
Definition populate_path_search (project : ProjectId) (entries : list ManifestEntry) : Statement unit :=
  m_modify (λ t, set_paths_fts (code_paths_fts t ++ ((project,.) ∘ relative_path <$> entries)) t).

(** The deletions for one scope. *)
Definition delete_scope (project : ProjectId) (scope : string) : Statement unit :=
  _ ← m_modify (λ t, set_manifest
        (filter (λ row : ProjectId * string * ManifestRow,
           ¬ (row.1.1 = project ∧ deleted_for_scope scope row.1.2 = true)) (code_manifest t)) t);
  m_modify (λ t, set_paths_fts
    (filter (λ row : ProjectId * string, ¬ (row.1 = project ∧ deleted_for_scope scope row.2 = true))
       (code_paths_fts t)) t).

(** [replace_manifest_scopes_in_transaction]. *)
Definition replace_manifest_scopes_in_transaction (project : ProjectId) (scopes : gset string)
    (entries : list ManifestEntry) : Statement unit :=
  _ ← m_for_each (delete_scope project) (bset_iter scopes);
  _ ← m_for_each (insert_manifest_entry project) entries;
  populate_path_search project entries.
(** [GraphStore::replace_manifest_scopes]. *)
Definition replace_manifest_scopes (project : ProjectId) (scopes : gset string) (entries : list ManifestEntry)
    : Statement unit := graph_transaction (replace_manifest_scopes_in_transaction project scopes entries).

(** * The rest of the store *)

(** [GraphStore::reset_project]; the rows of a deleted partition go with it. *)
Definition reset_project (project : ProjectId) : Statement unit :=
  graph_transaction (
    _ ← m_modify (λ t, set_manifest (filter (λ row : ProjectId * string * ManifestRow, row.1.1 ≠ project)
                                        (code_manifest t)) t);
    _ ← m_modify (λ t, set_paths_fts (filter (λ row : ProjectId * string, row.1 ≠ project) (code_paths_fts t)) t);
    t ← m_get;
    let kept := filter (λ row : PartitionId * PartitionRow, row_project row.2 ≠ project) (code_partitions t) in
    _ ← m_modify (set_partitions kept);
    _ ← m_modify (λ t, set_nodes (filter (λ row : PartitionId * Z * NodeId * string, is_Some (kept !! row.1.1.1))
                                     (code_nodes t)) t);
    _ ← m_modify (λ t, set_edges (filter (λ row : PartitionId * Z * EdgeId * CodeEdgeRow,
                                            is_Some (kept !! row.1.1.1)) (code_edges t)) t);
    m_modify (λ t, set_index_state (delete project (code_index_state t)) t)).

Definition load_index_state (project : ProjectId) (t : CodeTables) : option (string * string) :=
  (λ row, (repository_path row, fingerprint row)) <$> code_index_state t !! project.
(** [GraphStore::save_index_state]; a fingerprint has 64 characters. *)
Definition save_index_state (project : ProjectId) (path fingerprint : string) (timestamp : WorkflowTimestamp)
    : Statement unit :=
  time ← m_lift (ok_or GraphPanicked (timestamp_to_string timestamp));
  _ ← graph_constraint (bool_decide (length (filter (λ a, continuation a = false) (str_chars fingerprint)) = 64%nat));
  m_modify (λ t, set_index_state (<[project :=
    {| repository_path := path; fingerprint := fingerprint; index_updated := time |}]> (code_index_state t)) t).

Definition quote : ascii := "034".
(** A term as a phrase of the query language: its quotes are doubled. *)
Definition phrase (term : string) : string :=
  String quote (replace_char quote (String quote (String quote "")) term +:+ String quote "").
(** [GraphStore::search_paths]. *)
Definition search_paths `{PathSearchEngine} (project : ProjectId) (terms : list string) (limit : nat) (t : CodeTables)
    : list string :=
  match terms with
  | [] => []
  | _ => take limit (filter (λ row : ProjectId * string, row.1 = project)
           (path_match (String.concat " OR " (phrase <$> terms)) (code_paths_fts t))).*2
  end.
(** [GraphStore::project_scopes]. *)
Definition project_scopes (project : ProjectId) (limit : nat) (t : CodeTables) : list string :=
  take limit (sort_unstable (row_scope <$>
    filter (λ row, row_project row = project) (map_to_list (code_partitions t)).*2)).
End store.

(** * What a LIKE of a scope matches *)

Definition escaped (l : list ascii) : list ascii :=
  l ≫= λ c, if decide (c ∈ [percent; underscore; backslash]) then [backslash; c] else [c].

Lemma replace_char_app c b s t : replace_char c b (s +:+ t) = replace_char c b s +:+ replace_char c b t.
Proof.
  induction s as [|a s IH]; [done|]. rewrite str_app_cons. simpl. destruct (ascii_dec a c); rewrite IH.
  - by rewrite str_app_assoc.
  - done.
Qed.

Lemma escape_like_chars value : str_chars (escape_like value) = escaped (str_chars value).
Proof.
  unfold escape_like. induction value as [|a value IH]; [done|].
  change (String a value) with (String a "" +:+ value). rewrite !replace_char_app, !str_chars_app, IH.
  unfold escaped. simpl. f_equal.
  destruct (ascii_dec a backslash) as [->|Hb]; [by vm_compute|]. simpl.
  destruct (ascii_dec a percent) as [->|Hp]; [by vm_compute|]. simpl.
  destruct (ascii_dec a underscore) as [->|Hu]; [by vm_compute|]. simpl.
  rewrite decide_False; [done|]. rewrite !elem_of_cons, elem_of_nil. naive_solver.
Qed.

(** A text without its beginning, whatever the case of the letters. *)
Fixpoint strip_folded (l text : list ascii) : option (list ascii) :=
  match l, text with
  | [], _ => Some text
  | c :: l, a :: text => if is_char (ascii_lower c) (ascii_lower a) then strip_folded l text else None
  | _ :: _, [] => None
  end.

Lemma like_escaped l pattern text :
  like (escaped l ++ pattern) text = match strip_folded l text with Some rest => like pattern rest | None => false end.
Proof.
  revert text. induction l as [|c l IH]; intros text; [done|].
  unfold escaped. rewrite bind_cons. fold (escaped l). rewrite <-app_assoc.
  destruct (decide (c ∈ [percent; underscore; backslash])) as [Hin|Hout]; simpl.
  - destruct text as [|a text]; [done|]. destruct (is_char _ _); [apply IH|done].
  - rewrite !elem_of_cons, elem_of_nil in Hout.
    destruct (ascii_dec c percent), (ascii_dec c underscore), (ascii_dec c backslash); try tauto.
    destruct text as [|a text]; [done|]. destruct (is_char _ _); [apply IH|done].
Qed.

Lemma like_percent text : like [percent] text = true.
Proof. induction text as [|a text IH]; [done|]. simpl in *. by rewrite IH. Qed.

Lemma strip_folded_some l text rest :
  strip_folded l text = Some rest ↔ ∃ l', text = l' ++ rest ∧ ascii_lower <$> l' = ascii_lower <$> l.
Proof.
  revert text. induction l as [|c l IH]; intros text; simpl.
  { split; [intros [= ->]; by exists []|]. by intros ([|]&->&?). }
  destruct text as [|a text]; [split; [done|by intros ([|]&?&?)]|].
  unfold is_char. destruct (ascii_dec (ascii_lower a) (ascii_lower c)) as [Heq|Hne].
  - rewrite IH. split.
    + intros (l'&->&Hl). exists (a :: l'). split; [done|]. cbn [fmap list_fmap]. by rewrite Heq, Hl.
    + intros ([|x l']&Hl'&Hl); [done|]. injection Hl' as -> ->. injection Hl as _ Hl. by exists l'.
  - split; [done|]. intros ([|x l']&Hl'&Hl); [done|]. injection Hl' as -> ->. by injection Hl.
Qed.

Lemma chars_str_chars s : chars_str (str_chars s) = s.
Proof. induction s as [|a s IH]; [done|]. simpl. by rewrite IH. Qed.
Lemma str_chars_inj s t : str_chars s = str_chars t → s = t.
Proof. intros Heq. by rewrite <-(chars_str_chars s), Heq, chars_str_chars. Qed.
Lemma str_chars_lower s : str_chars (to_ascii_lowercase s) = ascii_lower <$> str_chars s.
Proof. induction s as [|a s IH]; [done|]. simpl. by rewrite IH. Qed.
Lemma lower_slash c : ascii_lower c = slash → c = slash.
Proof. destruct c as [[] [] [] [] [] [] [] []]; vm_compute; congruence. Qed.

(** The rows of a scope that are deleted: the paths that start with it and a slash,
    however deep, and whatever the case of their letters. *)
Lemma deleted_for_scope_iff scope path : scope ≠ "root" →
  deleted_for_scope scope path = true ↔
  ∃ first rest, path = first +:+ String slash rest ∧ to_ascii_lowercase first = to_ascii_lowercase scope.
Proof.
  intros Hroot. unfold deleted_for_scope. rewrite decide_False by done.
  rewrite str_chars_app, escape_like_chars, like_escaped. split.
  - destruct (strip_folded _ _) as [rest|] eqn:Hs; [|done].
    apply strip_folded_some in Hs as (l&Hl&Hlow). simpl.
    destruct rest as [|c rest]; [done|]. intros [Hc _]%andb_true_iff. apply is_char_true, lower_slash in Hc as ->.
    exists (chars_str l), (chars_str rest). split.
    + apply str_chars_inj. rewrite str_chars_app. simpl. by rewrite !str_chars_chars.
    + apply str_chars_inj. by rewrite !str_chars_lower, str_chars_chars.
  - intros (first&rest&->&Hlow). rewrite str_chars_app.
    assert (strip_folded (str_chars scope) (str_chars first ++ str_chars (String slash rest)) =
            Some (str_chars (String slash rest))) as ->.
    { apply strip_folded_some. exists (str_chars first). split; [done|]. by rewrite <-!str_chars_lower, Hlow. }
    simpl. apply (like_percent (str_chars rest)).
Qed.

(** * Rows under a first column *)

Lemma rows_of_lookup {A K V} `{Countable A, Countable K} (m : gmap (A * K) V) a k :
  rows_of m a !! k = m !! (a, k).
Proof.
  unfold rows_of. set (l := omap _ _).
  assert (∀ x y, (x, y) ∈ l ↔ m !! (a, x) = Some y) as Hl.
  { intros x y. subst l. rewrite list_elem_of_omap. split.
    - intros ([[b q] v]&Hin&Hq). apply elem_of_map_to_list in Hin. simpl in Hq. case_decide; [|done].
      subst. by injection Hq as <- <-.
    - intros Hv. exists (a, x, y). split; [by apply elem_of_map_to_list|]. simpl. by rewrite decide_True. }
  apply option_eq. intros v. split.
  - intros Hv%elem_of_list_to_map_2. by apply Hl.
  - intros Hv. apply elem_of_list_to_map_1'; [|by apply Hl]. intros y Hy%Hl. congruence.
Qed.

(** Decoding the rows of encoded values gives them back. *)
Lemma decode_rows `{Persist B} {K} `{Countable K, Ordered K} (key : B → K) (values : gmap K B) (rows : gmap K string) :
  json_faithful B → (∀ k b, values !! k = Some b → key b = k) →
  (∀ k, rows !! k = values !! k ≫= json_encode) → (∀ k b, values !! k = Some b → is_Some (json_encode b)) →
  ∃ l, try_map graph_decode (btree_values rows) = Ok l ∧ index_by key ∅ l = values.
Proof.
  intros Hjson Hkey Hrows Henc.
  assert (∃ l, Forall2 (λ (r : K * string) b, values !! r.1 = Some b ∧ json_encode b = Some r.2) (btree_iter rows) l) as [l Hl].
  { assert (∀ r, r ∈ btree_iter rows → rows !! r.1 = Some r.2) as Hin by (intros [k j]; apply elem_of_btree_iter).
    induction (btree_iter rows) as [|[k j] rs IH]; [by exists []|].
    destruct IH as [l Hl]; [by intros r Hr; apply Hin; right|].
    specialize (Hin (k, j) ltac:(left)). simpl in Hin. rewrite Hrows in Hin.
    apply bind_Some in Hin as (b&Hb&Hj). exists (b :: l). by constructor. }
  exists l.
  assert (key <$> l = btree_keys rows) as Hkeys.
  { unfold btree_keys. induction Hl as [|[k j] b rs l [Hb _] Hl IH]; [done|]. simpl in *. f_equal; [by apply Hkey|done]. }
  split.
  - apply try_map_ok. unfold btree_values. clear Hkeys. induction Hl as [|[k j] b rs l [Hb Hj] Hl IH]; constructor; [|done].
    simpl. unfold graph_decode. by rewrite (Hjson b j Hj).
  - apply map_eq. intros k. apply option_eq. intros b.
    rewrite index_by_lookup by (rewrite Hkeys; apply NoDup_btree_keys). split.
    + intros [[i Hi]%list_elem_of_lookup <-].
      apply (Forall2_lookup_r _ _ _ _ _ Hl) in Hi as ([k j]&_&Hb&_). simpl in Hb. by rewrite (Hkey _ _ Hb).
    + intros Hb. split; [|by apply Hkey]. destruct (Henc _ _ Hb) as [j Hj].
      assert ((k, j) ∈ btree_iter rows) as Hin by (apply elem_of_btree_iter; rewrite Hrows, Hb; done).
      apply list_elem_of_lookup in Hin as [i Hi].
      apply (Forall2_lookup_l _ _ _ _ _ Hl) in Hi as (b'&Hi&Hb'&_). simpl in Hb'. rewrite Hb in Hb'.
      injection Hb' as <-. by apply list_elem_of_lookup_2 in Hi.
Qed.

(** * The replacement of a partition *)

Section replacement.
Context `{Sha256, UuidText, Rfc3339, Persist GraphNode, Persist GraphEdge, Persist ManifestEntry}.

(** Every row of a fact is of its partition's current generation, and a partition's
    identifier is that of its project and scope. *)
Record tables_ok (t : CodeTables) : Prop := {
  to_partition id row : code_partitions t !! id = Some row →
    id = partition_id_new (row_project row) (row_scope row) ∧ is_blank (row_scope row) = false ∧
    1 ≤ head_generation row;
  to_node id g k json : code_nodes t !! (id, g, k) = Some json →
    ∃ row, code_partitions t !! id = Some row ∧ g = head_generation row;
  to_edge id g k r : code_edges t !! (id, g, k) = Some r →
    ∃ row, code_partitions t !! id = Some row ∧ g = head_generation row;
}.

Lemma insert_node_ok id g n t t' : insert_node id g n t = (t', Ok tt) ↔
  ∃ json, json_encode n = Some json ∧ code_nodes t !! (id, g, node_id n) = None ∧
    t' = set_nodes (<[(id, g, node_id n) := json]> (code_nodes t)) t.
Proof.
  assert (insert_node id g n t = match json_encode n with
    | None => (t, Err GraphSerialization)
    | Some json => if bool_decide (code_nodes t !! (id, g, node_id n) = None)
                   then (set_nodes (<[(id, g, node_id n) := json]> (code_nodes t)) t, Ok tt) else (t, Err GraphSqlite)
    end) as ->.
  { unfold insert_node, graph_encode. destruct (json_encode n) as [json|]; [|done].
    unfold graph_constraint. cbn [ok_or]. run_method. by case_bool_decide. }
  destruct (json_encode n) as [json|]; [case_bool_decide|]; naive_solver.
Qed.
Lemma insert_edge_ok id g e t t' : insert_edge id g e t = (t', Ok tt) ↔
  ∃ row, (λ json, {| row_source := source e; row_target := target e; edge_json := json |}) <$> json_encode e = Some row ∧
    code_edges t !! (id, g, edge_id e) = None ∧
    t' = set_edges (<[(id, g, edge_id e) := row]> (code_edges t)) t.
Proof.
  assert (insert_edge id g e t = match json_encode e with
    | None => (t, Err GraphSerialization)
    | Some json => if bool_decide (code_edges t !! (id, g, edge_id e) = None)
                   then (set_edges (<[(id, g, edge_id e) := {| row_source := source e; row_target := target e;
                           edge_json := json |}]> (code_edges t)) t, Ok tt) else (t, Err GraphSqlite)
    end) as ->.
  { unfold insert_edge, graph_encode. destruct (json_encode e) as [json|]; [|done].
    unfold graph_constraint. cbn [ok_or]. run_method. by case_bool_decide. }
  destruct (json_encode e) as [json|]; [case_bool_decide|]; naive_solver.
Qed.
End replacement.

(** A loop of inserts into one table. *)
Section inserts.
Context {K B V : Type} `{Countable K} (get : CodeTables → gmap K V) (set : gmap K V → CodeTables → CodeTables).
Context (key : B → K) (row : B → option V) (insert_one : B → Statement unit).
Context (get_set : ∀ m t, get (set m t) = m) (set_set : ∀ m m' t, set m (set m' t) = set m t)
  (set_get : ∀ t, set (get t) t = t).
Context (insert_one_ok : ∀ b t t', insert_one b t = (t', Ok tt) ↔
  ∃ v, row b = Some v ∧ get t !! key b = None ∧ t' = set (<[key b := v]> (get t)) t).

Lemma inserts_ok l t t' : m_for_each insert_one l t = (t', Ok tt) →
  ∃ m, t' = set m t ∧ (∀ b, b ∈ l → is_Some (row b)) ∧
    ∀ k v, m !! k = Some v ↔ get t !! k = Some v ∨ ∃ b, b ∈ l ∧ k = key b ∧ row b = Some v.
Proof.
  revert t. induction l as [|b l IH]; intros t Hl.
  { injection Hl as ->. exists (get t'). split; [by rewrite set_get|]. split; [by intros b ?%elem_of_nil|].
    intros k v. split; [by left|]. intros [?|(b&?%elem_of_nil&_)]; done. }
  cbn [m_for_each] in Hl. apply method_bind_ok in Hl as (t1&[]&Hb&Hl).
  apply IH in Hl as (m&->&Henc&Hm). apply insert_one_ok in Hb as (v&Hv&Hnone&->).
  exists m. split; [apply set_set|]. split.
  - intros b' [->|Hin]%elem_of_cons; [by eexists|by apply Henc].
  - intros k w. rewrite Hm, get_set, lookup_insert_Some. setoid_rewrite elem_of_cons. split.
    + intros [[[<- <-]|[Hne Hk]]|(b'&?&?&?)]; [right; exists b; auto|by left|right; exists b'; auto].
    + intros [Hk|(b'&[->|Hin]&->&Hw)]; [left; right|left; left|right; eauto].
      * split; [|done]. intros <-. congruence.
      * split; [done|congruence].
Qed.

Lemma inserts_succeed l t :
  NoDup (key <$> l) → (∀ b, b ∈ l → is_Some (row b) ∧ get t !! key b = None) →
  ∃ t', m_for_each insert_one l t = (t', Ok tt).
Proof.
  revert t. induction l as [|b l IH]; intros t Hnd Hall; [by exists t|].
  cbn [fmap list_fmap] in Hnd. apply NoDup_cons in Hnd as [Hb Hnd].
  destruct (Hall b ltac:(left)) as [[v Hv] Hnone].
  destruct (IH (set (<[key b := v]> (get t)) t) Hnd) as [t' Ht'].
  { intros b' Hb'. destruct (Hall b' ltac:(by right)) as [? ?]. split; [done|].
    rewrite get_set, lookup_insert_ne; [done|]. intros Heq. destruct Hb. rewrite Heq. by apply list_elem_of_fmap_2. }
  exists t'. cbn [m_for_each].
  assert (insert_one b t = (set (<[key b := v]> (get t)) t, Ok tt)) as Hone by (apply insert_one_ok; eauto).
  by rewrite (method_bind_run _ _ _ _ _ Hone).
Qed.
End inserts.

Lemma keyed_values {K B} `{Countable K, Ordered K} (key : B → K) (m : gmap K B) :
  (∀ k b, m !! k = Some b → key b = k) → key <$> btree_values m = btree_keys m.
Proof.
  intros Hkey. unfold btree_values, btree_keys.
  assert (∀ r, r ∈ btree_iter m → key r.2 = r.1) as Hin.
  { intros [k b] Hr%elem_of_btree_iter. by apply Hkey. }
  induction (btree_iter m) as [|r l IH]; [done|]. simpl. f_equal; [apply Hin; left|].
  apply IH. intros r' Hr'. apply Hin. by right.
Qed.
Lemma NoDup_keyed_values {K B C} `{Countable K, Ordered K} (key : B → K) (c : C) (m : gmap K B) :
  (∀ k b, m !! k = Some b → key b = k) → NoDup ((λ b, (c, key b)) <$> btree_values m).
Proof.
  intros Hkey. rewrite (list_fmap_compose key (c,.)), keyed_values by done.
  apply NoDup_fmap_2; [apply _|apply NoDup_btree_keys].
Qed.

Section replacing.
Context `{Sha256, UuidText, Rfc3339, Persist GraphNode, Persist GraphEdge, Persist ManifestEntry}.

(** The project and the scope that the row of a partition has, or gets. *)
Definition on_record (p : GraphPartition) (t : CodeTables) : ProjectId * string :=
  default (project_id p, scope p) ((λ row, (row_project row, row_scope row)) <$> code_partitions t !! partition_id p).
(** The tables but for those of the facts of partitions. *)
Definition other_tables (t : CodeTables) := (code_manifest t, code_index_state t, code_paths_fts t).
Definition next_generation (p : GraphPartition) (t : CodeTables) : Z :=
  default 0 (head_generation <$> code_partitions t !! partition_id p) + 1.
Definition replaced_row (p : GraphPartition) (time : string) (t : CodeTables) : PartitionRow :=
  {| row_project := (on_record p t).1; row_scope := (on_record p t).2; head_generation := next_generation p t;
     partition_updated := time |}.

Lemma next_generation_positive p t : tables_ok t → 1 ≤ next_generation p t.
Proof.
  intros Ht. unfold next_generation. destruct (code_partitions t !! partition_id p) as [row|] eqn:Hrow; simpl; [|lia].
  pose proof (to_partition _ Ht _ _ Hrow) as (_&_&?). lia.
Qed.

Lemma upsert_partition_ok p time t t' : upsert_partition p (next_generation p t) time t = (t', Ok tt) →
  t' = set_partitions (<[partition_id p := replaced_row p time t]> (code_partitions t)) t.
Proof.
  unfold upsert_partition, replaced_row, on_record, graph_constraint. intros Hup. inv_method.
  by destruct (code_partitions t !! partition_id p) as [row|]; inv_method.
Qed.

Lemma upsert_partition_succeeds p time t : tables_ok t → partition_ok p →
  upsert_partition p (next_generation p t) time t =
  (set_partitions (<[partition_id p := replaced_row p time t]> (code_partitions t)) t, Ok tt).
Proof.
  intros Ht Hp. pose proof (next_generation_positive p t Ht) as Hpos.
  unfold upsert_partition, replaced_row, on_record, graph_constraint.
  rewrite (proj2 (Z.leb_le _ _) Hpos). run_method.
  destruct (code_partitions t !! partition_id p) as [row|] eqn:Hrow; [done|].
  rewrite bool_decide_false; [done|]. intros (id&row&Hid&Hproject&Hscope).
  pose proof (to_partition _ Ht _ _ Hid) as (->&_). rewrite Hproject, Hscope, <-(po_id _ Hp) in Hid. congruence.
Qed.

(** The rows of facts after the old ones are deleted: those of the new generation,
    and those of other partitions. *)
Lemma generation_rows {B V} (key : B → ContentDigest) (row : B → option V) (values : gmap ContentDigest B)
    (id : PartitionId) (g : Z) (old rows : gmap (PartitionId * Z * ContentDigest) V) :
  (∀ k b, values !! k = Some b → key b = k) →
  (∀ h k v, old !! (id, h, k) = Some v → h < g) →
  (∀ k v, rows !! k = Some v ↔ old !! k = Some v ∨ ∃ b, b ∈ btree_values values ∧ k = (id, g, key b) ∧ row b = Some v) →
  ∀ id' h k v, filter (λ r, ¬ outdated id g r) rows !! (id', h, k) = Some v ↔
    if decide (id' = id) then h = g ∧ (values !! k ≫= row) = Some v else old !! (id', h, k) = Some v.
Proof.
  intros Hkey Hold Hrows id' h k v. rewrite map_lookup_filter_Some, Hrows. unfold outdated. simpl.
  setoid_rewrite elem_of_btree_values. destruct (decide (id' = id)) as [->|Hne].
  - rewrite bind_Some. split.
    + intros [[Ho|(b&(k'&Hb)&[= -> ->]&Hv)] Hout].
      * apply Hold in Ho. tauto.
      * split; [done|]. exists b. by rewrite (Hkey _ _ Hb).
    + intros [-> (b&Hb&Hv)]. split; [|lia]. right. exists b. split; [by eexists|]. by rewrite (Hkey _ _ Hb).
  - split; [|intros Ho; split; [by left|tauto]]. intros [[Ho|(b&_&[= -> _ _]&_)] _]; done.
Qed.

Lemma replace_in_transaction_ok p ts t t' n : tables_ok t → partition_ok p →
  replace_partition_in_transaction p ts t = (t', Ok n) →
  n = Z.to_N (next_generation p t) ∧ next_generation p t ≤ i64_max ∧
  (∃ time, timestamp_to_string ts = Some time ∧
     code_partitions t' = <[partition_id p := replaced_row p time t]> (code_partitions t)) ∧
  other_tables t' = other_tables t ∧
  (∀ k n, nodes p !! k = Some n → is_Some (json_encode n)) ∧ (∀ k e, edges p !! k = Some e → is_Some (json_encode e)) ∧
  (∀ id g k json, code_nodes t' !! (id, g, k) = Some json ↔
     if decide (id = partition_id p) then g = next_generation p t ∧ (nodes p !! k ≫= json_encode) = Some json
     else code_nodes t !! (id, g, k) = Some json) ∧
  (∀ id g k row, code_edges t' !! (id, g, k) = Some row ↔
     if decide (id = partition_id p)
     then g = next_generation p t ∧ ∃ e, edges p !! k = Some e ∧ json_encode e = Some (edge_json row) ∧
       row_source row = source e ∧ row_target row = target e
     else code_edges t !! (id, g, k) = Some row).
Proof.
  intros Ht Hp. unfold replace_partition_in_transaction, graph_select. intros Hr. inv_method.
  match goal with H : i64_checked_add _ _ = Some _ |- _ => apply i64_checked_add_some in H as (Hg&_&Hmax) end.
  fold (next_generation p t) in Hg. subst x2.
  match goal with H : upsert_partition _ _ _ _ = (_, Ok ?u) |- _ => destruct u; apply upsert_partition_ok in H as -> end.
  repeat match goal with u : unit |- _ => destruct u end.
  match goal with H : m_for_each (insert_node _ _) _ _ = _ |- _ =>
    apply (inserts_ok code_nodes set_nodes _ _ _ (λ _ _, eq_refl) (λ _ _ _, eq_refl)
             ltac:(by intros []) (insert_node_ok _ _)) in H as (ns&->&Hnenc&Hns) end.
  match goal with H : m_for_each (insert_edge _ _) _ _ = _ |- _ =>
    apply (inserts_ok code_edges set_edges _ _ _ (λ _ _, eq_refl) (λ _ _ _, eq_refl)
             ltac:(by intros []) (insert_edge_ok _ _)) in H as (es&->&Heenc&Hes) end.
  match goal with H : (if _ then _ else _) = Some n |- _ =>
    rewrite (proj2 (Z.leb_le _ _)) in H by (pose proof (next_generation_positive p t Ht); lia); injection H as <- end.
  split; [done|]. split; [done|]. split; [by eexists|]. split; [done|].
  split; [intros k m Hm; apply Hnenc, elem_of_btree_values; by exists k|].
  split.
  { intros k e He. destruct (Heenc e) as [row [json [-> _]]%fmap_Some]; [apply elem_of_btree_values; by exists k|done]. }
  cbn [code_nodes code_edges code_partitions set_nodes set_edges set_partitions] in *.
  assert (∀ id g : Z, ∀ row, code_partitions t !! partition_id p = Some row → g = head_generation row →
            g < next_generation p t) as Hold.
  { intros _ g row Hrow ->. unfold next_generation. rewrite Hrow. simpl. lia. }
  split; intros id g k.
  - intros json. apply (generation_rows node_id json_encode (nodes p) _ _ (code_nodes t)); [| |exact Hns].
    + intros k' m Hm. by apply (po_nodes _ Hp) in Hm as [-> _].
    + intros h k' v Hv. apply (to_node _ Ht) in Hv as (row&Hrow&->). by apply (Hold 0 _ row).
  - intros row.
    rewrite (generation_rows edge_id (λ e, (λ json, {| row_source := source e; row_target := target e;
        edge_json := json |}) <$> json_encode e) (edges p) _ _ (code_edges t)); [| | |exact Hes].
    + destruct (decide (id = partition_id p)); [|done]. rewrite bind_Some. setoid_rewrite fmap_Some. split.
      * intros (->&edge&He&json&Hj&->). split; [done|]. by exists edge.
      * intros (->&edge&He&Hj&Hs&Hd). split; [done|]. exists edge. split; [done|]. exists (edge_json row).
        split; [done|]. destruct row. simpl in *. by subst.
    + intros k' e He. by apply (po_edges _ Hp) in He as [-> _].
    + intros h k' v Hv. apply (to_edge _ Ht) in Hv as (r&Hrow&->). by apply (Hold 0 _ r).
Qed.

(** The identifiers that edges need from elsewhere. *)
Lemma elem_of_external_of ns es id :
  id ∈ external_of ns es ↔ ns !! id = None ∧ ∃ k e, es !! k = Some e ∧ (id = source e ∨ id = target e).
Proof.
  unfold external_of.
  assert (∀ l X, id ∈ foldl (add_external ns) X l ↔
    id ∈ X ∨ ns !! id = None ∧ ∃ e, e ∈ l ∧ (id = source e ∨ id = target e)) as Hl.
  { intros l. induction l as [|e l IH]; intros X; cbn [foldl].
    { split; [by left|]. intros [?|(_&e&?%elem_of_nil&_)]; done. }
    rewrite IH. setoid_rewrite elem_of_cons. unfold add_external.
    assert (∀ s (Y : gset NodeId), id ∈ (if bool_decide (is_Some (ns !! s)) then Y else {[s]} ∪ Y) ↔
              id ∈ Y ∨ id = s ∧ ns !! id = None) as Hone.
    { intros s Y. destruct (ns !! s) eqn:Hs; [rewrite bool_decide_true by done; naive_solver congruence|].
      rewrite bool_decide_false by (by intros []). rewrite elem_of_union, elem_of_singleton. naive_solver. }
    rewrite !Hone. naive_solver. }
  rewrite Hl. setoid_rewrite elem_of_btree_values. set_solver.
Qed.

(** What is loaded after a replacement: the facts that were given, the external
    identifiers they need, and the project and scope on record. *)
Definition stored (p : GraphPartition) (t : CodeTables) : GraphPartition :=
  {| edges := edges p; external_nodes := external_of (nodes p) (edges p); partition_id := partition_id p;
     nodes := nodes p; project_id := (on_record p t).1; scope := (on_record p t).2 |}.

Lemma stored_ok p t : tables_ok t → partition_ok p → partition_ok (stored p t).
Proof.
  intros Ht [Hscope Hid Hn He]. unfold stored, on_record.
  assert (∃ project sc, default (project_id p, scope p)
      ((λ row, (row_project row, row_scope row)) <$> code_partitions t !! partition_id p) = (project, sc) ∧
      is_blank sc = false ∧ partition_id p = partition_id_new project sc) as (project&sc&->&Hsc&Hnew).
  { destruct (code_partitions t !! partition_id p) as [row|] eqn:Hrow; simpl; [|by eauto].
    destruct (to_partition _ Ht _ _ Hrow) as (?&?&_). eauto. }
  split; simpl; try done. intros k e Hk. destruct (He k e Hk) as (?&?&Hs&Hd). split; [done|]. split; [done|].
  unfold known. simpl. rewrite !orb_true_iff, !bool_decide_eq_true, !elem_of_external_of.
  split; [destruct (nodes p !! source e) eqn:Hx|destruct (nodes p !! target e) eqn:Hx]; eauto 10.
Qed.

Lemma replaced_tables_ok p ts t t' n : tables_ok t → partition_ok p →
  replace_partition_in_transaction p ts t = (t', Ok n) → tables_ok t'.
Proof.
  intros Ht Hp Hr. apply replace_in_transaction_ok in Hr as (_&_&(time&_&Hrows)&_&_&_&Hn&He); [|done..].
  pose proof (stored_ok p t Ht Hp) as Hs. split.
  - intros id row. rewrite Hrows. intros [[<- <-]|[_ Hrow]]%lookup_insert_Some; [|by eapply to_partition].
    split; [apply (po_id _ Hs)|]. split; [apply (po_scope _ Hs)|by apply next_generation_positive].
  - intros id g k json Hk. rewrite Hrows. apply Hn in Hk. destruct (decide (id = partition_id p)) as [->|Hne].
    + destruct Hk as [-> _]. rewrite lookup_insert_eq. by eexists.
    + rewrite lookup_insert_ne by done. by eapply to_node.
  - intros id g k row Hk. rewrite Hrows. apply He in Hk. destruct (decide (id = partition_id p)) as [->|Hne].
    + destruct Hk as [-> _]. rewrite lookup_insert_eq. by eexists.
    + rewrite lookup_insert_ne by done. by eapply to_edge.
Qed.

Lemma load_replaced p ts t t' n : json_faithful GraphNode → json_faithful GraphEdge → tables_ok t → partition_ok p →
  replace_partition_in_transaction p ts t = (t', Ok n) →
  load_partition (partition_id p) t' = Ok (Some (stored p t)) ∧
  ∀ id, id ≠ partition_id p → load_partition id t' = load_partition id t.
Proof.
  intros Hjn Hje Ht Hp Hr.
  apply replace_in_transaction_ok in Hr as (_&_&(time&_&Hrows)&_&Hnenc&Heenc&Hn&He); [|done..].
  unfold load_partition, node_rows, edge_rows. rewrite Hrows. split.
  - rewrite lookup_insert_eq. cbn [head_generation row_project row_scope replaced_row].
    destruct (decode_rows node_id (nodes p) (rows_of (code_nodes t') (partition_id p, next_generation p t)))
      as (l&->&Hl); [done| | |done|].
    { intros k m Hm. by apply (po_nodes _ Hp) in Hm as [-> _]. }
    { intros k. rewrite rows_of_lookup. apply option_eq. intros json.
      rewrite Hn, decide_True by done. split; [by intros [_ ?]|done]. }
    destruct (decode_rows edge_id (edges p) (edge_json <$> rows_of (code_edges t') (partition_id p, next_generation p t)))
      as (l'&->&Hl'); [done| | |done|].
    { intros k e Hk. by apply (po_edges _ Hp) in Hk as [-> _]. }
    { intros k. rewrite lookup_fmap, rows_of_lookup. apply option_eq. intros json.
      rewrite fmap_Some, bind_Some. split.
      - intros (row&Hrow%He&->). rewrite decide_True in Hrow by done. destruct Hrow as (_&e&Hk&Hj&_). by exists e.
      - intros (e&Hk&Hj). exists {| row_source := source e; row_target := target e; edge_json := json |}.
        split; [|done]. apply He. rewrite decide_True by done. split; [done|]. by exists e. }
    cbn [mbind result_bind]. rewrite Hl, Hl'. fold (stored p t).
    rewrite (proj2 (partition_validate_ok (stored p t))) by (by apply stored_ok). done.
  - intros id Hne. rewrite lookup_insert_ne by done. destruct (code_partitions t !! id) as [row|]; [|done].
    assert (rows_of (code_nodes t') (id, head_generation row) = rows_of (code_nodes t) (id, head_generation row)) as ->.
    { apply map_eq. intros k. rewrite !rows_of_lookup. apply option_eq. intros json.
      by rewrite Hn, decide_False. }
    assert (rows_of (code_edges t') (id, head_generation row) = rows_of (code_edges t) (id, head_generation row)) as ->.
    { apply map_eq. intros k. rewrite !rows_of_lookup. apply option_eq. intros r.
      by rewrite He, decide_False. }
    done.
Qed.

(** C31. A partition that replaces the stored one is what is loaded afterwards: its
    nodes and edges with the external identifiers they need, under the project and
    scope on record, which are its own for a new partition; every other partition,
    the manifest and the path search stay as they were; and the tables keep their
    invariant, that the facts of a partition are those of its current generation. *)
Theorem replaced_partition_loads p ts t t' n :
  json_faithful GraphNode → json_faithful GraphEdge → tables_ok t →
  replace_partition p true ts t = (t', Ok n) →
  tables_ok t' ∧ load_partition (partition_id p) t' = Ok (Some (stored p t)) ∧
  (code_partitions t !! partition_id p = None → external_nodes p = external_of (nodes p) (edges p) →
     stored p t = p) ∧
  (∀ id, id ≠ partition_id p → load_partition id t' = load_partition id t) ∧ other_tables t' = other_tables t ∧
  Z.of_N n = next_generation p t.
Proof.
  intros Hjn Hje Ht Hr. unfold replace_partition in Hr.
  apply method_bind_ok in Hr as (t1&[]&Hc&Hr). injection Hc as <-.
  apply method_bind_ok in Hr as (t1&[]&Hv&Hr). apply m_lift_ok in Hv as [-> Hv%map_err_ok%partition_validate_ok].
  unfold graph_transaction in Hr. destruct (replace_partition_in_transaction p ts t) as [t1 [a|e]] eqn:Hbody; [|done].
  injection Hr as <- <-.
  pose proof (replace_in_transaction_ok p ts t t1 a Ht Hv Hbody) as (->&_&_&Hother&_).
  destruct (load_replaced p ts t t1 _ Hjn Hje Ht Hv Hbody) as [Hload Helse].
  split; [by eapply replaced_tables_ok|]. split; [done|]. split; [|split; [done|]; split; [done|]].
  - intros Hnone Hext. unfold stored, on_record. rewrite Hnone, <-Hext. by destruct p.
  - pose proof (next_generation_positive p t Ht). lia.
Qed.

(** A replacement succeeds: what is valid, has a next generation, and can be
    written as JSON is stored. *)
Lemma replace_partition_succeeds p ts t time :
  tables_ok t → partition_ok p → next_generation p t ≤ i64_max → timestamp_to_string ts = Some time →
  (∀ k n, nodes p !! k = Some n → is_Some (json_encode n)) → (∀ k e, edges p !! k = Some e → is_Some (json_encode e)) →
  ∃ t', replace_partition p true ts t = (t', Ok (Z.to_N (next_generation p t))).
Proof.
  intros Ht Hp Hmax Htime Hn He. unfold replace_partition, replace_partition_in_transaction, graph_select, graph_transaction.
  rewrite (proj2 (partition_validate_ok p) Hp), Htime.
  assert (i64_checked_add (default 0 (head_generation <$> code_partitions t !! partition_id p)) 1 =
          Some (next_generation p t)) as Hadd.
  { apply i64_checked_add_some. pose proof (next_generation_positive p t Ht). unfold next_generation in *.
    unfold i64_max, i64_min in *. lia. }
  assert (∀ h k v, code_nodes t !! (partition_id p, h, k) = Some v → h < next_generation p t) as Hold.
  { intros h k v Hv. apply (to_node _ Ht) in Hv as (row&Hrow&->). unfold next_generation. rewrite Hrow. simpl. lia. }
  assert (∀ h k v, code_edges t !! (partition_id p, h, k) = Some v → h < next_generation p t) as Hold'.
  { intros h k v Hv. apply (to_edge _ Ht) in Hv as (row&Hrow&->). unfold next_generation. rewrite Hrow. simpl. lia. }
  run_method. rewrite Hadd. cbn [ok_or map_err negb]. rewrite upsert_partition_succeeds by done. run_method.
  set (t1 := set_partitions _ t).
  destruct (inserts_succeed code_nodes set_nodes (λ m, (partition_id p, next_generation p t, node_id m)) json_encode _
    (λ _ _, eq_refl) (insert_node_ok _ _) (btree_values (nodes p)) t1) as [t2 Ht2].
  { apply NoDup_keyed_values. intros k m Hk. by apply (po_nodes _ Hp) in Hk as [-> _]. }
  { intros m (k&Hk)%elem_of_btree_values. split; [by eapply Hn|]. apply eq_None_not_Some. intros [v Hv].
    apply Hold in Hv. lia. }
  rewrite Ht2. pose proof Ht2 as Hset.
  apply (inserts_ok code_nodes set_nodes _ _ _ (λ _ _, eq_refl) (λ _ _ _, eq_refl) ltac:(by intros [])
           (insert_node_ok _ _)) in Hset as (ns&->&_).
  destruct (inserts_succeed code_edges set_edges (λ e, (partition_id p, next_generation p t, edge_id e)) _ _
    (λ _ _, eq_refl) (insert_edge_ok _ _) (btree_values (edges p)) (set_nodes ns t1)) as [t3 Ht3].
  { apply NoDup_keyed_values. intros k e Hk. by apply (po_edges _ Hp) in Hk as [-> _]. }
  { intros e (k&Hk)%elem_of_btree_values. split; [apply fmap_is_Some; by eapply He|].
    apply eq_None_not_Some. intros [v Hv]. apply Hold' in Hv. lia. }
  rewrite Ht3, (proj2 (Z.leb_le _ _)) by (pose proof (next_generation_positive p t Ht); lia).
  by eexists.
Qed.
End replacing.

(** * The manifest of a store *)

Section manifests.
Context `{Sha256, UuidText, Rfc3339, Persist GraphNode, Persist GraphEdge, Persist ManifestEntry}.

(** Every row of the manifest holds the entry of its path. *)
Definition manifest_ok (t : CodeTables) : Prop :=
  ∀ project path row, code_manifest t !! (project, path) = Some row →
    ∃ e, json_decode (entry_json row) = Some e ∧ relative_path e = path.

(** The manifest that is loaded: the decoded row of each path. *)
Lemma load_manifest_rows project t : manifest_ok t →
  ∃ m, load_manifest project t = Ok m ∧
    ∀ path e, m !! path = Some e ↔
      ∃ row, code_manifest t !! (project, path) = Some row ∧ json_decode (entry_json row) = Some e.
Proof.
  intros Hok. unfold load_manifest. set (rows := project_rows t project).
  assert (∀ path row, (path, row) ∈ btree_iter rows ↔ code_manifest t !! (project, path) = Some row) as Hrows.
  { intros path row. rewrite elem_of_btree_iter. subst rows. unfold project_rows. by rewrite rows_of_lookup. }
  assert (∃ l, Forall2 (λ (r : string * ManifestRow) e, json_decode (entry_json r.2) = Some e ∧ relative_path e = r.1)
            (btree_iter rows) l) as [l Hl].
  { assert (∀ r, r ∈ btree_iter rows → ∃ e, json_decode (entry_json r.2) = Some e ∧ relative_path e = r.1) as Hall.
    { intros [path row] Hr%Hrows. by apply Hok in Hr. }
    clear Hrows. induction (btree_iter rows) as [|r rs IH]; [by exists []|].
    destruct IH as [l Hl]; [intros r' Hr'; apply Hall; by right|].
    destruct (Hall r ltac:(left)) as [e He]. exists (e :: l). by constructor. }
  exists (from_entries l).
  assert (relative_path <$> l = btree_keys rows) as Hkeys.
  { unfold btree_keys. clear Hrows. induction Hl as [|r e rs l [_ He] Hl IH]; [done|]. simpl. by f_equal. }
  split.
  - assert (try_map (λ row, graph_decode (entry_json row)) (btree_values rows) = Ok l) as ->; [|done].
    apply try_map_ok. unfold btree_values. clear Hkeys Hrows.
    induction Hl as [|r e rs l [He _] Hl IH]; constructor; [|done]. unfold graph_decode. by rewrite He.
  - intros path e. unfold from_entries. rewrite index_by_lookup by (rewrite Hkeys; apply NoDup_btree_keys). split.
    + intros [[i Hi]%list_elem_of_lookup <-]. apply (Forall2_lookup_r _ _ _ _ _ Hl) in Hi as ([path row]&Hr&He&->).
      exists row. split; [|done]. by apply list_elem_of_lookup_2, Hrows in Hr.
    + intros (row&Hrow&He). apply Hrows, list_elem_of_lookup in Hrow as [i Hi].
      apply (Forall2_lookup_l _ _ _ _ _ Hl) in Hi as (e'&Hi&He'&Hp). simpl in *. rewrite He in He'.
      injection He' as <-. split; [by eapply list_elem_of_lookup_2|done].
Qed.

Definition manifest_row (e : ManifestEntry) : option ManifestRow :=
  let n := Z.of_N (length_bytes (entry_metadata e)) in
  if n <=? i64_max then
    (λ json, {| row_length := n; row_modified := modified_unix_nanos (entry_metadata e); row_hash := content_hash e;
                entry_json := json |}) <$> json_encode e
  else None.

Lemma insert_manifest_entry_ok project e t t' : insert_manifest_entry project e t = (t', Ok tt) ↔
  ∃ row, manifest_row e = Some row ∧ code_manifest t !! (project, relative_path e) = None ∧
    t' = set_manifest (<[(project, relative_path e) := row]> (code_manifest t)) t.
Proof.
  unfold insert_manifest_entry, manifest_row, graph_encode, graph_constraint. cbv zeta. run_method.
  destruct (_ <=? i64_max); [|naive_solver]. destruct (json_encode e) as [json|]; [|naive_solver].
  cbn [ok_or]. case_bool_decide; naive_solver.
Qed.

Lemma delete_scopes_ok project l t t' : m_for_each (delete_scope project) l t = (t', Ok tt) →
  code_partitions t' = code_partitions t ∧ code_nodes t' = code_nodes t ∧ code_edges t' = code_edges t ∧
  code_index_state t' = code_index_state t ∧
  (∀ q path row, code_manifest t' !! (q, path) = Some row ↔ code_manifest t !! (q, path) = Some row ∧
     ¬ (q = project ∧ ∃ scope, scope ∈ l ∧ deleted_for_scope scope path = true)).
Proof.
  revert t. induction l as [|scope l IH]; intros t Hl.
  { injection Hl as ->. split_and!; try done. intros q path row. setoid_rewrite elem_of_nil. naive_solver. }
  cbn [m_for_each] in Hl. apply method_bind_ok in Hl as (t1&[]&Hs&Hl). apply IH in Hl as (->&->&->&->&Hm).
  unfold delete_scope in Hs. run_method in Hs. injection Hs as <-. split_and!; try done.
  intros q path row. rewrite Hm. cbn [code_manifest set_manifest set_paths_fts]. rewrite map_lookup_filter_Some.
  simpl. setoid_rewrite elem_of_cons. split.
  - intros [[Hr Hnot] Hl]. split; [done|]. intros (->&s&[->|Hin]&Hd); [tauto|]. apply Hl. eauto.
  - intros [Hr Hnot]. split; [split; [done|]|]; [intros [-> Hd]|intros (->&s&Hin&Hd)]; apply Hnot; eauto.
Qed.

(** What a replacement of scopes leaves of the manifest: the rows that are not
    deleted and those of the entries. *)
Lemma replace_scopes_ok project scopes entries t t' :
  replace_manifest_scopes_in_transaction project scopes entries t = (t', Ok tt) →
  code_partitions t' = code_partitions t ∧ code_nodes t' = code_nodes t ∧ code_edges t' = code_edges t ∧
  (∀ e, e ∈ entries → is_Some (manifest_row e)) ∧
  (∀ q path row, code_manifest t' !! (q, path) = Some row ↔
     (code_manifest t !! (q, path) = Some row ∧
        ¬ (q = project ∧ ∃ scope, scope ∈ scopes ∧ deleted_for_scope scope path = true)) ∨
     q = project ∧ ∃ e, e ∈ entries ∧ relative_path e = path ∧ manifest_row e = Some row).
Proof.
  unfold replace_manifest_scopes_in_transaction. intros Hr.
  apply method_bind_ok in Hr as (t1&[]&Hd&Hr). apply method_bind_ok in Hr as (t2&[]&Hi&Hr).
  unfold populate_path_search in Hr. run_method in Hr. injection Hr as <-.
  apply delete_scopes_ok in Hd as (Hp&Hn&He&_&Hm).
  apply (inserts_ok code_manifest set_manifest (λ e, (project, relative_path e)) _ _ (λ _ _, eq_refl)
           (λ _ _ _, eq_refl) ltac:(by intros []) (insert_manifest_entry_ok project)) in Hi as (m&->&Henc&Hrows).
  cbn [code_partitions code_nodes code_edges code_manifest set_paths_fts set_manifest]. split_and!; try done.
  intros q path row. rewrite Hrows, Hm. setoid_rewrite elem_of_bset_iter. split.
  - intros [?|(e&Hin&[= -> ->]&Hrow)]; [by left|right; split; [done|]; by exists e].
  - intros [?|(->&e&Hin&<-&Hrow)]; [by left|right; by exists e].
Qed.

Lemma replace_scopes_tables_ok project scopes entries t t' : tables_ok t →
  replace_manifest_scopes_in_transaction project scopes entries t = (t', Ok tt) → tables_ok t'.
Proof.
  intros [Hp Hn He] (Hp'&Hn'&He'&_)%replace_scopes_ok. split; rewrite ?Hp', ?Hn', ?He'; done.
Qed.
Lemma replace_scopes_manifest_ok project scopes entries t t' : json_faithful ManifestEntry → manifest_ok t →
  replace_manifest_scopes_in_transaction project scopes entries t = (t', Ok tt) → manifest_ok t'.
Proof.
  intros Hjson Hok (_&_&_&_&Hm)%replace_scopes_ok q path row Hrow. apply Hm in Hrow as [[Hrow _]|(->&e&_&<-&Hrow)].
  - by eapply Hok.
  - exists e. split; [|done]. unfold manifest_row in Hrow. case_match; [|done].
    apply fmap_Some in Hrow as (json&Hj&->). by apply Hjson.
Qed.

(** Nothing of a project is left after its reset, and nothing else is touched. *)
Lemma reset_project_ok project t t' : tables_ok t → reset_project project t = (t', Ok tt) →
  tables_ok t' ∧ (∀ path, code_manifest t' !! (project, path) = None) ∧ load_index_state project t' = None ∧
  (∀ id row, code_partitions t' !! id = Some row ↔ code_partitions t !! id = Some row ∧ row_project row ≠ project) ∧
  (∀ q path, q ≠ project → code_manifest t' !! (q, path) = code_manifest t !! (q, path)) ∧
  (∀ q, q ≠ project → load_index_state q t' = load_index_state q t).
Proof.
  intros Ht. unfold reset_project, graph_transaction. run_method. intros [= <-].
  assert (∀ id row, filter (λ r : PartitionId * PartitionRow, row_project r.2 ≠ project) (code_partitions t) !! id =
            Some row ↔ code_partitions t !! id = Some row ∧ row_project row ≠ project) as Hkept.
  { intros id row. by rewrite map_lookup_filter_Some. }
  unfold load_index_state.
  cbn [code_partitions code_nodes code_edges code_manifest code_index_state set_partitions set_nodes set_edges
       set_manifest set_paths_fts set_index_state].
  split_and!.
  - destruct Ht as [Hp Hn He]. split; cbn [code_partitions code_nodes code_edges code_manifest code_index_state
      set_partitions set_nodes set_edges set_manifest set_paths_fts set_index_state].
    + intros id row [Hrow _]%Hkept. by apply Hp.
    + intros id g k json [Hk [row Hrow]]%map_lookup_filter_Some. exists row. split; [done|].
      apply Hkept in Hrow as [Hrow _]. apply Hn in Hk as (row'&Hrow'&->). simpl in Hrow. congruence.
    + intros id g k r [Hk [row Hrow]]%map_lookup_filter_Some. exists row. split; [done|].
      apply Hkept in Hrow as [Hrow _]. apply He in Hk as (row'&Hrow'&->). simpl in Hrow. congruence.
  - intros path. apply map_lookup_filter_None. right. by intros ? _ [].
  - by rewrite lookup_delete_eq.
  - done.
  - intros q path Hne. destruct (code_manifest t !! (q, path)) as [row|] eqn:Hrow.
    + by apply map_lookup_filter_Some.
    + apply map_lookup_filter_None. by left.
  - intros q Hne. by rewrite lookup_delete_ne.
Qed.
End manifests.

(** * Examples *)

Section examples.
#[local] Instance store_sha256 : Sha256 := toy_sha256.
#[local] Instance store_uuid_text : UuidText := sample_uuid_text.
#[local] Instance store_rfc3339 : Rfc3339 := toy_rfc3339.

Definition kept_file (path : string) : ManifestEntry :=
  {| content_hash := word_of 256 1; entry_metadata := {| length_bytes := 3; modified_unix_nanos := None |};
     relative_path := path |}.
Definition kept_files : list ManifestEntry :=
  kept_file <$> ["src/a.rs"; "src/sub/b.rs"; "SRC/c.rs"; "other/d.rs"; "root/x.rs"; "y.rs"].
#[local] Instance node_persist : Persist GraphNode := table_persist [caller; callee].
#[local] Instance edge_persist : Persist GraphEdge := table_persist [sample_edge caller callee].
#[local] Instance entry_persist : Persist ManifestEntry := table_persist kept_files.

Definition kept_project : ProjectId := word_of 128 1.
(** The store after its first manifest. *)
Definition kept_tables : CodeTables := (replace_manifest_scopes kept_project ∅ kept_files empty_tables).1.
Definition kept_paths (t : CodeTables) : list string :=
  sort_unstable (omap (λ row : ProjectId * string * ManifestRow,
    if decide (row.1.1 = kept_project) then Some row.1.2 else None) (map_to_list (code_manifest t))).

(** A scope is replaced by what it has: the rows of the scopes below it and of one
    whose name differs in its case are deleted with it. *)
Example other_scopes_deleted :
  let '(t, r) := replace_manifest_scopes kept_project {["src"]} [kept_file "src/a.rs"] kept_tables in
  (r, kept_paths kept_tables, kept_paths t) =
  (Ok tt, ["SRC/c.rs"; "other/d.rs"; "root/x.rs"; "src/a.rs"; "src/sub/b.rs"; "y.rs"],
   ["other/d.rs"; "root/x.rs"; "src/a.rs"; "y.rs"]).
Proof. vm_compute. reflexivity. Qed.

(** The files of a directory called root have the scope of the files at the root,
    and their rows are not deleted with it: they cannot be written again. *)
Example root_directory_refused :
  (replace_manifest_scopes kept_project {["root"]} [kept_file "root/x.rs"; kept_file "y.rs"] kept_tables).2 =
  Err GraphSqlite.
Proof. vm_compute. reflexivity. Qed.

Definition stored_tables : CodeTables := (replace_partition sample_graph true 0%Z empty_tables).1.
Example generations_count :
  ((replace_partition sample_graph true 0%Z empty_tables).2, (replace_partition sample_graph true 0%Z stored_tables).2,
   size (code_nodes (replace_partition sample_graph true 0%Z stored_tables).1)) = (Ok 1%N, Ok 2%N, 2%nat).
Proof. vm_compute. reflexivity. Qed.

Lemma empty_tables_ok : tables_ok empty_tables.
Proof. split; [intros id row Hk|intros id g k json Hk|intros id g k r Hk]; simpl in Hk; by rewrite lookup_empty in Hk. Qed.
End examples.

Lemma replaced_partition_loads_witness :
  ∃ (S : Sha256) (U : UuidText) (R : Rfc3339) (N : Persist GraphNode) (E : Persist GraphEdge) (t : CodeTables),
  replace_partition sample_graph true 0%Z empty_tables = (t, Ok 1%N) ∧
  load_partition (partition_id sample_graph) t = Ok (Some (stored sample_graph empty_tables)).
Proof.
  exists store_sha256, store_uuid_text, store_rfc3339, node_persist, edge_persist, stored_tables.
  assert (@replace_partition store_sha256 store_uuid_text store_rfc3339 node_persist edge_persist sample_graph true 0%Z
            empty_tables = (stored_tables, Ok 1%N)) as Hr.
  { assert ((@replace_partition store_sha256 store_uuid_text store_rfc3339 node_persist edge_persist sample_graph true
              0%Z empty_tables).2 = Ok 1%N) as Hok by (vm_compute; reflexivity).
    unfold stored_tables. rewrite (surjective_pairing (@replace_partition _ _ _ _ _ _ _ _ _)) at 1. by rewrite Hok. }
  split; [exact Hr|].
  exact (proj1 (proj2 (@replaced_partition_loads store_sha256 store_uuid_text store_rfc3339 node_persist edge_persist
    sample_graph 0%Z empty_tables stored_tables 1%N (table_persist_faithful _) (table_persist_faithful _)
    (@empty_tables_ok) Hr))).
Defined.
End CodeStore.
