(* ===== verification/CodeIndex.v ===== *)
(** The index of a project in workflow-code-intel (index.rs), and the service of
    workflowd over it (code_intelligence.rs).

    The worker threads of [index_project] take the scopes one by one and send what
    they make of each over a channel; the main thread stores what arrives in one
    transaction. The order in which the scopes arrive is an argument, any order of
    them all; so is what the operating system says of each file when it is read. *)
From Stdlib Require Import Ascii String.
From S2P Require Import Prelude Text Ids Paths Canonical CodeGraph Extract Inventory Database CodeStore.

Module CodeIndex.
Import CodeGraph Extract Inventory CodeStore.

Inductive IndexError : Type :=
| IndexGraph (error : GraphStoreError) | IndexInventory (error : InventoryError) | IndexIo
| IndexParse (error : ParseError) | SourceChanged (path : string) | IndexPanicked.

(** [IndexReport] without its timings. *)
Record IndexReport : Type := {
  report_edges : N; hashed_files : N; report_inventory : InventoryStats; maximum_generation : N;
  report_nodes : N; parse_errors : N; parsed_files : N; persisted_partitions : N;
}.
Record IndexedScope : Type := {
  indexed_manifest : list ManifestEntry;
  indexed_errors : N;
  indexed_files : N;
  indexed_partition : GraphPartition;
}.

(** [scope_of]: the directory of a path. *)
Definition scope_of (path : string) : string :=
  match rsplit_once (is_char slash) path with Some (scope, _) => scope | None => "root" end.

(** What is seen of a file when its scope is indexed: [symlink_metadata], [read]
    and [metadata]. *)
Record FileRead : Type := {
  seen_before : option StdMetadata; seen_content : option string; seen_after : option StdMetadata;
}.

Section index.
Context `{Sha256, UuidText, Grammars, Rfc3339, Persist GraphNode, Persist GraphEdge, Persist ManifestEntry}.
Context (read : string → FileRead).

(** The partition of a scope with the facts of another file: an extended map takes
    the later value. *)
Definition with_extraction (p q : GraphPartition) : GraphPartition :=
  {| edges := edges q ∪ edges p; external_nodes := external_nodes p ∪ external_nodes q;
     partition_id := partition_id p; nodes := nodes q ∪ nodes p; project_id := project_id p; scope := scope p |}.

(** The part of the loop of [index_scope] before the extraction: the content of a
    file that is as the inventory saw it. *)
Definition read_source (entry : InventoryEntry) : result IndexError string :=
  let seen := read (found_path entry) in
  before ← ok_or IndexIo (seen_before seen);
  _ ← reject_if (negb (is_file before) || is_symlink before) (SourceChanged (found_path entry));
  source ← ok_or IndexIo (seen_content seen);
  after ← ok_or IndexIo (seen_after seen);
  _ ← reject_if (negb (bool_decide (from_std before = found_metadata entry))
                 || negb (bool_decide (from_std after = found_metadata entry))) (SourceChanged (found_path entry));
  Ok source.

(** One turn of the loop of [index_scope]. *)
Definition index_file (project : ProjectId) (scope : string) (acc : IndexedScope) (entry : InventoryEntry)
    : result IndexError IndexedScope :=
  source ← read_source entry;
  adapter ← ok_or IndexPanicked (adapter_for (found_path entry));
  extracted ← ok_or IndexPanicked (extract adapter project scope (found_path entry) source);
  extraction ← map_err IndexParse extracted;
  Ok {| indexed_manifest := indexed_manifest acc ++
          [{| content_hash := digest_of source; entry_metadata := found_metadata entry;
              relative_path := found_path entry |}];
        indexed_errors := (indexed_errors acc + if has_errors extraction then 1 else 0)%N;
        indexed_files := indexed_files acc;
        indexed_partition := with_extraction (indexed_partition acc) (extraction_partition extraction) |}.

Definition empty_partition (project : ProjectId) (scope : string) : GraphPartition :=
  {| edges := ∅; external_nodes := ∅; partition_id := partition_id_new project scope; nodes := ∅;
     project_id := project; scope := scope |}.

(** [index_scope]. *)
Definition index_scope (project : ProjectId) (scope : string) (files : list InventoryEntry)
    : result IndexError IndexedScope :=
  try_fold (index_file project scope)
    {| indexed_manifest := []; indexed_errors := 0;
       indexed_files := default u64_max (u64_try_from (length files));
       indexed_partition := empty_partition project scope |} files.

(** The files of the inventory that have a language, and those of a scope. *)
Definition supported (entries : list InventoryEntry) : list InventoryEntry :=
  filter (λ e, is_Some (adapter_for (found_path e))) entries.
Definition scope_files (entries : list InventoryEntry) (scope : string) : list InventoryEntry :=
  filter (λ e, scope_of (found_path e) = scope) (supported entries).

(** The scopes that are indexed again: those with a file that is new or whose
    metadata changed, those with a file that is gone, and those that are forced;
    all of them when there is no manifest. *)
Definition affected (prior : Manifest) (entries : list InventoryEntry) (forced : list string) : gset string :=
  let current : gmap string FileMetadata :=
    foldl (λ m e, <[found_path e := found_metadata e]> m) ∅ (supported entries) in
  let changed := filter (λ e : string * FileMetadata, entry_metadata <$> prior !! e.1 ≠ Some e.2)
                   (map_to_list current) in
  let gone := filter (λ path, current !! path = None) (btree_keys prior) in
  list_to_set (scope_of ∘ fst <$> changed) ∪ list_to_set (scope_of <$> gone) ∪ list_to_set (scope_of <$> forced)
  ∪ (if decide (prior = ∅) then list_to_set (scope_of ∘ found_path <$> supported entries) else ∅).

(** Calls of the store inside the indexer. *)
Definition index_call {A} (m : method CodeTables GraphStoreError A) : method CodeTables IndexError A := λ t,
  match m t with (t', Ok a) => (t', Ok a) | (t', Err e) => (t', Err (IndexGraph e)) end.

(** What the main thread does with the scopes that arrive. *)
Definition receive (project : ProjectId) (timestamp : WorkflowTimestamp) (entries : list InventoryEntry)
    (acc : IndexReport * list ManifestEntry) (scope : string)
    : method CodeTables IndexError (IndexReport * list ManifestEntry) :=
  indexed ← m_lift (index_scope project scope (scope_files entries scope));
  let '(report, manifest) := acc in
  generation ← index_call (batch_replace_partition (indexed_partition indexed) timestamp);
  mret ({| report_edges := report_edges report + N.of_nat (size (edges (indexed_partition indexed)));
           hashed_files := hashed_files report + indexed_files indexed;
           report_inventory := report_inventory report;
           maximum_generation := N.max (maximum_generation report) generation;
           report_nodes := report_nodes report + N.of_nat (size (nodes (indexed_partition indexed)));
           parse_errors := parse_errors report + indexed_errors indexed;
           parsed_files := parsed_files report + indexed_files indexed;
           persisted_partitions := persisted_partitions report + 1 |}%N,
        manifest ++ indexed_manifest indexed).

(** The batch: a transaction of what arrives and of the manifest. *)
Fixpoint receive_all (project : ProjectId) (timestamp : WorkflowTimestamp) (entries : list InventoryEntry)
    (acc : IndexReport * list ManifestEntry) (arrivals : list string)
    : method CodeTables IndexError (IndexReport * list ManifestEntry) :=
  match arrivals with
  | [] => mret acc
  | scope :: arrivals =>
      acc ← receive project timestamp entries acc scope;
      receive_all project timestamp entries acc arrivals
  end.
Definition index_batch {A} (body : method CodeTables IndexError A) : method CodeTables IndexError A := λ t,
  match body t with (t', Ok a) => (t', Ok a) | (_, Err e) => (t, Err e) end.

(** [index_project]; [arrivals] gives the order in which the scopes arrive. *)
Definition index_project (project : ProjectId)
    (inventoried : result InventoryError (list InventoryEntry * InventoryStats)) (forced : list string)
    (timestamp : WorkflowTimestamp) (arrivals : gset string → list string) : method CodeTables IndexError IndexReport :=
  '(entries, stats) ← m_lift (map_err IndexInventory inventoried);
  t ← m_get;
  prior ← m_lift (map_err IndexGraph (load_manifest project t));
  let scopes := affected prior entries forced in
  index_batch (
    '(report, manifest) ← receive_all project timestamp entries
       ({| report_edges := 0; hashed_files := 0; report_inventory := stats; maximum_generation := 0;
           report_nodes := 0; parse_errors := 0; parsed_files := 0; persisted_partitions := 0 |}, [])
       (arrivals scopes);
    _ ← index_call (replace_manifest_scopes_in_transaction project scopes manifest);
    mret report).
End index.

(** * The service *)

(** The terms a request is searched by: words of letters, digits, underscores and
    hyphens, in lower case, of three bytes at least, without the stop words. *)
Definition stop_words : list string :=
  ["add"; "and"; "build"; "change"; "create"; "for"; "from"; "implement"; "nel"; "per"; "the"; "this"; "update";
   "with"].
Definition is_stop_word (term : string) : bool := bool_decide (term ∈ stop_words).

(** [char::is_alphanumeric] of the characters that are not ASCII. *)
Class UnicodeTables := is_alphanumeric_char : string → bool.

(** The characters of a text, each with the bytes that continue it. *)
Fixpoint characters (l : list ascii) : list (list ascii) :=
  match l with
  | [] => []
  | a :: l =>
      match characters l with
      | (b :: char) :: rest => if continuation b then (a :: b :: char) :: rest else [a] :: (b :: char) :: rest
      | chars => [a] :: chars
      end
  end.

Section service.
Context `{Sha256, UuidText, Grammars, Rfc3339, Persist GraphNode, Persist GraphEdge, Persist ManifestEntry,
          PathSearchEngine, UnicodeTables}.

(** A character that ends a term. *)
Definition separates (char : list ascii) : bool :=
  match char with
  | [a] => negb (is_ascii_alphanumeric a || is_char underscore a || is_char "-" a)
  | _ => negb (is_alphanumeric_char (chars_str char))
  end.
Fixpoint split_chars (word : list ascii) (chars : list (list ascii)) : list string :=
  match chars with
  | [] => [chars_str word]
  | char :: chars =>
      if separates char then chars_str word :: split_chars [] chars else split_chars (word ++ char) chars
  end.
Definition search_terms (request : string) : list string :=
  take 8 (bset_iter (list_to_set (filter (λ term, (3 <=? str_len term)%N && negb (is_stop_word term) = true)
    (to_ascii_lowercase <$> split_chars [] (characters (str_chars request)))) : gset string)).

(** What a Git command gives: that it succeeded, and its output. *)
Definition git_fingerprint (head status : option (bool * string)) : option string :=
  '(head_ok, head) ← head;
  '(status_ok, status) ← status;
  if head_ok && status_ok then Some (digest_to_string (digest_of (head +:+ status))) else None.

Inductive ServiceError : Type :=
  NoDirectory | ServiceStore (error : GraphStoreError) | ServiceIndex (error : IndexError) | ProjectChanged.

(** The project directory while a call runs: its canonical path, if it is a
    directory, what Git says before and after, and what indexing sees of it. *)
Record Surroundings : Type := {
  root_path : option string;
  git_before : option (bool * string) * option (bool * string);
  git_after : option (bool * string) * option (bool * string);
  inventoried : result InventoryError (list InventoryEntry * InventoryStats);
  file_read : string → FileRead;
  arrival_order : gset string → list string;
  clock : WorkflowTimestamp;
}.

Record ContextNode : Type := {
  shown_kind : NodeKind; shown_name : string; shown_qualified : string; shown_path : string;
}.
Record ProjectContext : Type := {
  context_nodes : list ContextNode;
  context_paths : list string;
  context_scopes : list string;
  context_truncated : bool;
  context_report : option IndexReport;
}.

Definition shown (n : GraphNode) : ContextNode :=
  {| shown_kind := node_kind n; shown_name := take_chars 512 (node_name n);
     shown_qualified := take_chars 1024 (qualified_name n); shown_path := take_chars 1024 (node_path n) |}.

(** The nodes of a partition, those of matched files first. *)
Definition partition_nodes (paths : list string) (p : GraphPartition) : list GraphNode :=
  let ns := btree_values (nodes p) in
  filter (λ n, node_path n ∈ paths) ns ++ filter (λ n, node_path n ∉ paths) ns.
(** The loop over the scopes, which stops at 200 nodes. *)
Fixpoint collect_nodes (project : ProjectId) (paths : list string) (t : CodeTables) (acc : list ContextNode)
    (scopes : list string) : result GraphStoreError (list ContextNode) :=
  match scopes with
  | [] => Ok acc
  | scope :: scopes =>
      loaded ← load_partition (partition_id_new project scope) t;
      match loaded with
      | None => collect_nodes project paths t acc scopes
      | Some p =>
          let acc := take 200 (acc ++ (shown <$> partition_nodes paths p)) in
          if decide (length acc = 200) then Ok acc else collect_nodes project paths t acc scopes
      end
  end.

(** The part of [index_and_context] before the search: an index that is of another
    directory is reset; one whose fingerprint is the directory's is used again. *)
Definition refresh (project : ProjectId) (env : Surroundings) (path : string)
    : method CodeTables ServiceError (option IndexReport) :=
  let call {A} (m : method CodeTables GraphStoreError A) : method CodeTables ServiceError A := λ t,
    match m t with (t', Ok a) => (t', Ok a) | (t', Err e) => (t', Err (ServiceStore e)) end in
  t ← m_get;
  _ ← match load_index_state project t with
      | Some (stored_path, _) => if decide (stored_path = path) then mret tt else call (reset_project project)
      | None => mret tt
      end;
  t ← m_get;
  let before := git_fingerprint (git_before env).1 (git_before env).2 in
  let reusable := match before with
                  | Some fingerprint => bool_decide (load_index_state project t = Some (path, fingerprint))
                  | None => false
                  end in
  if reusable then mret None
  else
    report ← (λ t, match index_project (file_read env) project (inventoried env) [] (clock env) (arrival_order env) t with
                   | (t', Ok report) => (t', Ok report)
                   | (t', Err e) => (t', Err (ServiceIndex e))
                   end);
    let after := git_fingerprint (git_after env).1 (git_after env).2 in
    if bool_decide (is_Some before) && negb (bool_decide (before = after)) then m_throw ProjectChanged
    else
      _ ← match after with
          | Some fingerprint => call (save_index_state project path fingerprint (clock env))
          | None => mret tt
          end;
      mret (Some report).

(** [index_and_context]. *)
Definition index_and_context (project : ProjectId) (request : string) (env : Surroundings)
    : method CodeTables ServiceError ProjectContext :=
  path ← m_lift (ok_or NoDirectory (root_path env));
  report ← refresh project env path;
  t ← m_get;
  let paths := search_paths project (search_terms request) 128 t in
  let matched : gset string := list_to_set (scope_of <$> paths) in
  let scopes := take 20 (bset_iter (if decide (matched = ∅) then list_to_set (project_scopes project 20 t) else matched)) in
  shown_nodes ← m_lift (map_err ServiceStore (collect_nodes project paths t [] scopes));
  mret {| context_nodes := shown_nodes; context_paths := take_chars 1024 <$> paths; context_scopes := scopes;
          context_truncated := bool_decide (length shown_nodes = 200); context_report := report |}.
End service.

(** * What an indexed scope holds *)

(** The files of a project that have a language, with their metadata and content. *)
Abbreviation World := (gmap string (FileMetadata * string)).

Section indexing.
Context `{Sha256, UuidText, Grammars, Rfc3339, Persist GraphNode, Persist GraphEdge, Persist ManifestEntry}.
Context (read : string → FileRead) (project : ProjectId).

(** The facts of a file in a scope. *)
Definition file_facts (scope path text : string) : option GraphPartition :=
  a ← adapter_for path;
  match extract a project scope path text with
  | Some (Ok extraction) => Some (extraction_partition extraction)
  | _ => None
  end.
(** A file was read with a content and gave a partition. *)
Definition file_gives (scope : string) (e : InventoryEntry) (text : string) (q : GraphPartition) : Prop :=
  read_source read e = Ok text ∧ file_facts scope (found_path e) text = Some q.

Definition entry_for (e : InventoryEntry) (text : string) : ManifestEntry :=
  {| content_hash := digest_of text; entry_metadata := found_metadata e; relative_path := found_path e |}.

Lemma index_file_ok scope acc e acc' : index_file read project scope acc e = Ok acc' →
  ∃ text q, file_gives scope e text q ∧
    indexed_manifest acc' = indexed_manifest acc ++ [entry_for e text] ∧
    indexed_partition acc' = with_extraction (indexed_partition acc) q.
Proof.
  unfold index_file. intros (text&Hread&Hr)%result_bind_ok.
  apply result_bind_ok in Hr as (a&Ha&Hr). apply ok_or_ok in Ha.
  apply result_bind_ok in Hr as (extracted&Hx&Hr). apply ok_or_ok in Hx.
  apply result_bind_ok in Hr as (extraction&Hex&[= <-]). apply map_err_ok in Hex as ->.
  exists text, (extraction_partition extraction). split; [|done]. split; [done|].
  unfold file_facts. rewrite Ha. simpl. by rewrite Hx.
Qed.

Lemma index_files_ok scope l acc acc' : try_fold (index_file read project scope) acc l = Ok acc' →
  partition_id (indexed_partition acc') = partition_id (indexed_partition acc) ∧
  (∀ x, x ∈ indexed_manifest acc' ↔ x ∈ indexed_manifest acc ∨ ∃ e text q, e ∈ l ∧ file_gives scope e text q ∧ x = entry_for e text) ∧
  (∀ e, e ∈ l → ∃ text q, file_gives scope e text q) ∧
  (∀ k n, nodes (indexed_partition acc') !! k = Some n →
     nodes (indexed_partition acc) !! k = Some n ∨ ∃ e text q, e ∈ l ∧ file_gives scope e text q ∧ nodes q !! k = Some n) ∧
  (∀ k, is_Some (nodes (indexed_partition acc') !! k) ↔
     is_Some (nodes (indexed_partition acc) !! k) ∨ ∃ e text q, e ∈ l ∧ file_gives scope e text q ∧ is_Some (nodes q !! k)) ∧
  (∀ k n, edges (indexed_partition acc') !! k = Some n →
     edges (indexed_partition acc) !! k = Some n ∨ ∃ e text q, e ∈ l ∧ file_gives scope e text q ∧ edges q !! k = Some n) ∧
  (∀ k, is_Some (edges (indexed_partition acc') !! k) ↔
     is_Some (edges (indexed_partition acc) !! k) ∨ ∃ e text q, e ∈ l ∧ file_gives scope e text q ∧ is_Some (edges q !! k)).
Proof.
  revert acc. induction l as [|e l IH]; intros acc.
  { intros [= <-]. setoid_rewrite elem_of_nil. split_and!; naive_solver. }
  cbn [try_fold]. intros (acc1&He&Hl)%result_bind_ok. apply index_file_ok in He as (text&q&Hq&Hm&Hp).
  assert (∀ text' q', file_gives scope e text' q' → text' = text ∧ q' = q) as Hfun.
  { intros text' q' [Hr Hf]. destruct Hq as [Hr' Hf']. split; congruence. }
  apply IH in Hl as (Hid&Hman&Hgive&Hn&Hn'&He&He'). rewrite Hm in Hman. rewrite Hp in Hid, Hn, Hn', He, He'.
  cbn [with_extraction partition_id nodes edges] in *. setoid_rewrite elem_of_cons.
  split_and!; [done| | | | | |].
  - intros x. rewrite Hman, elem_of_app, list_elem_of_singleton. split.
    + intros [[?| ->]|(e'&t'&q'&?&?&?)]; [by left|right; exists e, text, q; auto|right; exists e', t', q'; auto].
    + intros [?|(e'&t'&q'&[->|?]&Hg&->)]; [by left; left| |right; eauto 6].
      apply Hfun in Hg as [-> ->]. left. by right.
  - intros e' [->|Hin]; [by exists text, q|by apply Hgive].
  - intros k n Hk. apply Hn in Hk as [[Hk|[_ Hk]]%lookup_union_Some_raw|(e'&t'&q'&?&?&?)];
      [right; exists e, text, q; auto|by left|right; exists e', t', q'; auto].
  - intros k. rewrite Hn', lookup_union_is_Some. split.
    + intros [[Hk|Hk]|(e'&t'&q'&?&?&?)]; [right; exists e, text, q; auto|by left|right; exists e', t', q'; auto].
    + intros [Hk|(e'&t'&q'&[->|?]&Hg&Hk)]; [left; by right| |right; eauto 6].
      apply Hfun in Hg as [-> ->]. left. by left.
  - intros k n Hk. apply He in Hk as [[Hk|[_ Hk]]%lookup_union_Some_raw|(e'&t'&q'&?&?&?)];
      [right; exists e, text, q; auto|by left|right; exists e', t', q'; auto].
  - intros k. rewrite He', lookup_union_is_Some. split.
    + intros [[Hk|Hk]|(e'&t'&q'&?&?&?)]; [right; exists e, text, q; auto|by left|right; exists e', t', q'; auto].
    + intros [Hk|(e'&t'&q'&[->|?]&Hg&Hk)]; [left; by right| |right; eauto 6].
      apply Hfun in Hg as [-> ->]. left. by left.
Qed.

(** A partition has the facts of the files of a scope and no others. *)
Definition made_of (w : World) (scope : string) (p : GraphPartition) : Prop :=
  (∀ path meta text, w !! path = Some (meta, text) → scope_of path = scope →
     ∃ q, file_facts scope path text = Some q ∧ (∀ k, is_Some (nodes q !! k) → is_Some (nodes p !! k)) ∧
       (∀ k, is_Some (edges q !! k) → is_Some (edges p !! k))) ∧
  (∀ k n, nodes p !! k = Some n → ∃ path meta text q, w !! path = Some (meta, text) ∧ scope_of path = scope ∧
     file_facts scope path text = Some q ∧ nodes q !! k = Some n) ∧
  (∀ k e, edges p !! k = Some e → ∃ path meta text q, w !! path = Some (meta, text) ∧ scope_of path = scope ∧
     file_facts scope path text = Some q ∧ edges q !! k = Some e).

Definition stored_entry (t : CodeTables) (path : string) : option ManifestEntry :=
  row ← code_manifest t !! (project, path); json_decode (entry_json row).

(** The store holds the index of a world, as far as some scopes go: the manifest has
    the digest and the metadata of every file, and the partition of a scope has the
    facts of its files. *)
Record reflects (scopes : gset string) (w : World) (t : CodeTables) : Prop := {
  rf_manifest path e : stored_entry t path = Some e ↔
    ∃ meta text, w !! path = Some (meta, text) ∧
      e = {| content_hash := digest_of text; entry_metadata := meta; relative_path := path |};
  rf_made scope p : scope ∈ scopes → load_partition (partition_id_new project scope) t = Ok (Some p) →
    made_of w scope p;
  rf_present path : is_Some (w !! path) →
    ∃ p, load_partition (partition_id_new project (scope_of path)) t = Ok (Some p);
}.

Context (entries : list InventoryEntry) (timestamp : WorkflowTimestamp).
Context (Hjson_node : json_faithful GraphNode) (Hjson_edge : json_faithful GraphEdge).

(** What is stored of one scope that arrives. *)
Lemma receive_ok acc scope t t' acc' : tables_ok t →
  receive read project timestamp entries acc scope t = (t', Ok acc') →
  tables_ok t' ∧ other_tables t' = other_tables t ∧
  ∃ ix p, index_scope read project scope (scope_files entries scope) = Ok ix ∧
    acc'.2 = acc.2 ++ indexed_manifest ix ∧
    load_partition (partition_id_new project scope) t' = Ok (Some p) ∧
    nodes p = nodes (indexed_partition ix) ∧ edges p = edges (indexed_partition ix) ∧
    ∀ id, id ≠ partition_id_new project scope → load_partition id t' = load_partition id t.
Proof.
  intros Ht. destruct acc as [report manifest]. unfold receive. intros Hr.
  apply method_bind_ok in Hr as (t1&ix&Hix&Hr). apply m_lift_ok in Hix as [-> Hix].
  apply method_bind_ok in Hr as (t1&generation&Hb&Hr). injection Hr as <- <-.
  unfold index_call in Hb. destruct (batch_replace_partition _ _ t) as [t2 [g|e]] eqn:Hbatch; [|done].
  injection Hb as <- <-. unfold batch_replace_partition in Hbatch.
  apply method_bind_ok in Hbatch as (t1&[]&Hv&Hbatch). apply m_lift_ok in Hv as [-> Hv%map_err_ok%partition_validate_ok].
  pose proof (index_files_ok _ _ _ _ Hix) as (Hid&_). cbn [indexed_partition empty_partition partition_id] in Hid.
  destruct (load_replaced _ _ _ _ _ Hjson_node Hjson_edge Ht Hv Hbatch) as [Hload Helse].
  pose proof (replace_in_transaction_ok _ _ _ _ _ Ht Hv Hbatch) as (_&_&_&Hother&_).
  split; [by eapply replaced_tables_ok|]. split; [done|]. rewrite Hid in Hload, Helse.
  by exists ix, (stored (indexed_partition ix) t).
Qed.

Lemma receive_all_ok arrivals acc t t' acc' : tables_ok t →
  (∀ s s', s ∈ arrivals → s' ∈ arrivals → partition_id_new project s = partition_id_new project s' → s = s') →
  NoDup arrivals →
  receive_all read project timestamp entries acc arrivals t = (t', Ok acc') →
  tables_ok t' ∧ other_tables t' = other_tables t ∧
  (∀ x, x ∈ acc'.2 ↔ x ∈ acc.2 ∨ ∃ scope ix, scope ∈ arrivals ∧
     index_scope read project scope (scope_files entries scope) = Ok ix ∧ x ∈ indexed_manifest ix) ∧
  (∀ scope, scope ∈ arrivals → ∃ ix p, index_scope read project scope (scope_files entries scope) = Ok ix ∧
     load_partition (partition_id_new project scope) t' = Ok (Some p) ∧
     nodes p = nodes (indexed_partition ix) ∧ edges p = edges (indexed_partition ix)) ∧
  (∀ id, (∀ scope, scope ∈ arrivals → id ≠ partition_id_new project scope) → load_partition id t' = load_partition id t).
Proof.
  revert acc t. induction arrivals as [|scope arrivals IH]; intros acc t Ht Hinj Hnd.
  { intros [= <- <-]. setoid_rewrite elem_of_nil. split_and!; naive_solver. }
  cbn [receive_all]. intros (t1&acc1&Hs&Hl)%method_bind_ok. apply NoDup_cons in Hnd as [Hnew Hnd].
  apply receive_ok in Hs as (Ht1&Ho1&ix&p&Hix&Hacc&Hload&Hn&He&Helse); [|done].
  apply IH in Hl as (Ht'&Ho'&Hman&Hstored&Hother); [|done| |done].
  2:{ intros s s' Hin Hin'. apply Hinj; by right. }
  split; [done|]. split; [by rewrite Ho'|]. rewrite Hacc in Hman. setoid_rewrite elem_of_cons. split_and!.
  - intros x. rewrite Hman, elem_of_app. split.
    + intros [[?|?]|(s&ix'&?&?&?)]; [by left|right; exists scope, ix; auto|right; exists s, ix'; auto].
    + intros [?|(s&ix'&[->|?]&Hs&?)]; [by left; left| |right; eauto 6].
      assert (ix' = ix) as -> by congruence. left. by right.
  - intros s [->|Hin]; [|by apply Hstored]. exists ix, p. split; [done|]. split; [|done].
    rewrite Hother; [done|]. intros s' Hs' Heq. destruct Hnew.
    assert (scope = s') as ->; [apply Hinj; [left|by right|done]|done].
  - intros id Hid. rewrite Hother; [apply Helse, Hid; by left|]. intros s Hs. apply Hid. by right.
Qed.
End indexing.

(** * The scopes that are indexed again *)

Lemma current_lookup (l : list InventoryEntry) path meta : NoDup (found_path <$> l) →
  (foldl (λ m e, <[found_path e := found_metadata e]> m) ∅ l : gmap string FileMetadata) !! path = Some meta ↔
  ∃ e, e ∈ l ∧ found_path e = path ∧ found_metadata e = meta.
Proof.
  intros Hnd.
  assert (∀ m : gmap string InventoryEntry, foldl (λ m e, <[found_path e := found_metadata e]> m) (found_metadata <$> m) l =
            found_metadata <$> index_by found_path m l) as Hfold.
  { clear Hnd. induction l as [|e l IH]; intros m; [done|]. simpl. by rewrite <-fmap_insert, IH. }
  specialize (Hfold ∅). rewrite fmap_empty in Hfold. rewrite Hfold, lookup_fmap, fmap_Some.
  setoid_rewrite index_by_lookup; [|done]. naive_solver.
Qed.

Lemma elem_of_affected prior entries forced scope : NoDup (found_path <$> entries) →
  scope ∈ affected prior entries forced ↔
    (∃ e, e ∈ supported entries ∧ scope = scope_of (found_path e) ∧
       (entry_metadata <$> prior !! found_path e ≠ Some (found_metadata e) ∨ prior = ∅)) ∨
    (∃ path, is_Some (prior !! path) ∧ path ∉ found_path <$> supported entries ∧ scope = scope_of path) ∨
    (∃ path, path ∈ forced ∧ scope = scope_of path).
Proof.
  intros Hnd.
  assert (NoDup (found_path <$> supported entries)) as Hnds by (by apply NoDup_fmap_filter).
  unfold affected. generalize dependent (supported entries). intros files Hnds.
  rewrite !elem_of_union, !elem_of_list_to_set.
  assert (scope ∈ (if decide (prior = ∅) then list_to_set (scope_of ∘ found_path <$> files) else ∅ : gset string)
    ↔ prior = ∅ ∧ ∃ e, e ∈ files ∧ scope = scope_of (found_path e)) as ->.
  { case_decide; [|set_solver]. rewrite elem_of_list_to_set, list_elem_of_fmap. simpl. naive_solver. }
  rewrite !list_elem_of_fmap. setoid_rewrite list_elem_of_filter.
  assert (∀ path meta, (path, meta) ∈ map_to_list (foldl (λ m e, <[found_path e := found_metadata e]> m) ∅
      files : gmap string FileMetadata) ↔ ∃ e, e ∈ files ∧ found_path e = path ∧ found_metadata e = meta) as Hcur.
  { intros path meta. rewrite elem_of_map_to_list. by apply current_lookup. }
  assert (∀ path, (foldl (λ m e, <[found_path e := found_metadata e]> m) ∅
      files : gmap string FileMetadata) !! path = None ↔ path ∉ found_path <$> files) as Hnone.
  { intros path. rewrite eq_None_not_Some. unfold is_Some. setoid_rewrite (current_lookup _ path _ Hnds).
    rewrite list_elem_of_fmap. naive_solver. }
  setoid_rewrite Hnone. setoid_rewrite elem_of_btree_keys. split.
  - intros [[[([path meta]&->&Hch&(e&He&<-&<-)%Hcur)|(path&->&?&?)]|(f&->&?)]|(Hp&e&He&->)].
    + left. exists e. auto.
    + right; left. eauto.
    + right; right. eauto.
    + left. exists e. auto.
  - intros [(e&He&->&[Hch|Hp])|[(path&Hp&Hnot&->)|(f&Hf&->)]].
    + left; left; left. exists (found_path e, found_metadata e). split; [done|]. split; [done|]. apply Hcur. by exists e.
    + right. eauto.
    + left; left; right. eauto.
    + left; right. eauto.
Qed.

(** * An incremental index is a full one *)

Section incremental.
Context `{Sha256, UuidText, Grammars, Rfc3339, Persist GraphNode, Persist GraphEdge, Persist ManifestEntry}.

(** The manifest of a world, and the world an inventory sees when the files have a
    content. *)
Definition manifest_of (w : World) : Manifest :=
  map_imap (λ path f, Some {| content_hash := digest_of f.2; entry_metadata := f.1; relative_path := path |}) w.
Definition world_of (content : string → string) (entries : list InventoryEntry) : World :=
  list_to_map ((λ e, (found_path e, (found_metadata e, content (found_path e)))) <$> supported entries).

(** A run that reads what is there: the paths of the inventory are distinct, the
    scopes arrive in some order, what is read of a file is its content, and a file
    whose metadata is that of the manifest has the content it had. *)
Record run_reads (read : string → FileRead) (content : string → string) (old : World)
    (entries : list InventoryEntry) (arrivals : gset string → list string) : Prop := {
  rr_paths : NoDup (found_path <$> entries);
  rr_arrivals s : arrivals s ≡ₚ elements s;
  rr_read e text : e ∈ supported entries → read_source read e = Ok text → text = content (found_path e);
  rr_unchanged e text : e ∈ supported entries → old !! found_path e = Some (found_metadata e, text) →
    text = content (found_path e);
}.

(** The scopes of a run: those of the files before and after, and the forced ones. *)
Definition covers (scopes : gset string) (old : World) (entries : list InventoryEntry) (forced : list string) : Prop :=
  (∀ path, is_Some (old !! path) → scope_of path ∈ scopes) ∧
  (∀ e, e ∈ supported entries → scope_of (found_path e) ∈ scopes) ∧ (∀ path, path ∈ forced → scope_of path ∈ scopes).

(** The rows that are deleted are those of the scopes that are indexed again. *)
Definition deletes_its_scopes (old : World) (changed : gset string) : Prop :=
  ∀ path, is_Some (old !! path) →
    (∃ scope, scope ∈ changed ∧ deleted_for_scope scope path = true) ↔ scope_of path ∈ changed.

Lemma manifest_of_lookup w path e : manifest_of w !! path = Some e ↔
  ∃ meta text, w !! path = Some (meta, text) ∧
    e = {| content_hash := digest_of text; entry_metadata := meta; relative_path := path |}.
Proof.
  unfold manifest_of. rewrite map_lookup_imap. destruct (w !! path) as [[meta text]|]; simpl; naive_solver.
Qed.

Lemma reflected_manifest project scopes w t : manifest_ok t → reflects project scopes w t →
  load_manifest project t = Ok (manifest_of w).
Proof.
  intros Hok Hr. destruct (load_manifest_rows project t Hok) as (m&->&Hm). f_equal. apply map_eq. intros path.
  apply option_eq. intros e. rewrite Hm, manifest_of_lookup, <-(rf_manifest _ _ _ _ Hr). unfold stored_entry.
  rewrite bind_Some. done.
Qed.

Lemma world_of_lookup content entries path meta text : NoDup (found_path <$> entries) →
  world_of content entries !! path = Some (meta, text) ↔
  ∃ e, e ∈ supported entries ∧ found_path e = path ∧ found_metadata e = meta ∧ content path = text.
Proof.
  intros Hnd. unfold world_of. rewrite <-elem_of_list_to_map.
  - rewrite list_elem_of_fmap. naive_solver.
  - rewrite <-list_fmap_compose. by apply NoDup_fmap_filter.
Qed.

(** In a scope that is not indexed again the files are as they were. *)
Lemma unchanged_files read content old entries forced arrivals path :
  run_reads read content old entries arrivals →
  scope_of path ∉ affected (manifest_of old) entries forced →
  world_of content entries !! path = old !! path.
Proof.
  intros Hrun Hnot. rewrite elem_of_affected in Hnot by apply (rr_paths _ _ _ _ _ Hrun).
  apply option_eq. intros [meta text]. rewrite world_of_lookup by apply (rr_paths _ _ _ _ _ Hrun).
  assert (∀ e, e ∈ supported entries → found_path e = path →
            ∃ text', old !! path = Some (found_metadata e, text') ∧ text' = content path) as Hold.
  { intros e He <-. destruct (decide (entry_metadata <$> manifest_of old !! found_path e = Some (found_metadata e)))
      as [Hsame|Hch]; [|destruct Hnot; left; exists e; auto].
    apply fmap_Some in Hsame as (entry&Hentry&Hmeta). apply manifest_of_lookup in Hentry as (m&x&Hx&->).
    simpl in Hmeta. subst m. exists x. split; [done|]. by eapply rr_unchanged. }
  split.
  - intros (e&He&Hp&<-&<-). destruct (Hold e He Hp) as (x&->&->). done.
  - intros Hpath. destruct (decide (path ∈ found_path <$> supported entries)) as [Hin|Hout].
    + apply list_elem_of_fmap in Hin as (e&->&He). destruct (Hold e He eq_refl) as (x&Hx&->).
      exists e. rewrite Hpath in Hx. injection Hx as -> ->. done.
    + destruct Hnot. right; left. exists path. split; [|done]. eexists. apply manifest_of_lookup. eauto.
Qed.

Lemma load_partition_same id t t' : code_partitions t' = code_partitions t → code_nodes t' = code_nodes t →
  code_edges t' = code_edges t → load_partition id t' = load_partition id t.
Proof. unfold load_partition, node_rows, edge_rows. by intros -> -> ->. Qed.

Lemma affected_covered scopes old entries forced scope : NoDup (found_path <$> entries) →
  covers scopes old entries forced → scope ∈ affected (manifest_of old) entries forced → scope ∈ scopes.
Proof.
  intros Hnd (Hold&Hnew&Hforced). rewrite elem_of_affected by done.
  intros [(e&He&->&_)|[(path&[x Hx]&_&->)|(path&Hf&->)]]; [by apply Hnew| |by apply Hforced].
  apply manifest_of_lookup in Hx as (?&?&Hx&_). apply Hold. by eexists.
Qed.

Lemma elem_of_scope_files entries scope e :
  e ∈ scope_files entries scope ↔ e ∈ supported entries ∧ scope_of (found_path e) = scope.
Proof. unfold scope_files. rewrite list_elem_of_filter. tauto. Qed.

(** What a scope that is indexed again gives. *)
Lemma indexed_scope_made read project content old entries arrivals scope ix p :
  run_reads read content old entries arrivals →
  index_scope read project scope (scope_files entries scope) = Ok ix →
  nodes p = nodes (indexed_partition ix) → edges p = edges (indexed_partition ix) →
  made_of project (world_of content entries) scope p ∧
  ∀ x, x ∈ indexed_manifest ix ↔ ∃ e, e ∈ supported entries ∧ scope_of (found_path e) = scope ∧
    x = entry_for e (content (found_path e)).
Proof.
  intros Hrun Hix Hn He. pose proof (rr_paths _ _ _ _ _ Hrun) as Hnd.
  apply index_files_ok in Hix as (_&Hman&Hgive&Hns&Hns'&Hes&Hes').
  cbn [indexed_manifest indexed_partition empty_partition nodes edges] in Hman, Hns, Hns', Hes, Hes'.
  setoid_rewrite elem_of_scope_files in Hgive.
  assert (∀ e text q, e ∈ scope_files entries scope → file_gives read project scope e text q →
            text = content (found_path e) ∧ world_of content entries !! found_path e = Some (found_metadata e, text) ∧
            scope_of (found_path e) = scope ∧ file_facts project scope (found_path e) text = Some q) as Hfile.
  { intros e text q [Hin Hs]%elem_of_scope_files [Hread Hfacts].
    pose proof (rr_read _ _ _ _ _ Hrun _ _ Hin Hread) as Ht. split; [done|]. split; [|done].
    apply world_of_lookup; [done|]. by exists e. }
  split; [split_and!|].
  - intros path meta text (e&Hin&<-&<-&<-)%world_of_lookup Hs; [|done].
    destruct (Hgive e (conj Hin Hs)) as (text&q&Hg).
    destruct (Hfile e text q) as (->&_&_&Hfacts); [by apply elem_of_scope_files|done|].
    exists q. split; [done|]. rewrite Hn, He. split; intros k Hk; [apply Hns'|apply Hes']; right;
      exists e, (content (found_path e)), q; rewrite elem_of_scope_files; auto.
  - intros k n. rewrite Hn. intros [Hk|(e&text&q&Hin&Hg&Hk)]%Hns; [by rewrite lookup_empty in Hk|].
    destruct (Hfile e text q Hin Hg) as (_&Hw&Hs&Hfacts). exists (found_path e), (found_metadata e), text, q. auto.
  - intros k n. rewrite He. intros [Hk|(e&text&q&Hin&Hg&Hk)]%Hes; [by rewrite lookup_empty in Hk|].
    destruct (Hfile e text q Hin Hg) as (_&Hw&Hs&Hfacts). exists (found_path e), (found_metadata e), text, q. auto.
  - intros x. rewrite Hman. split.
    + intros [Hx|(e&text&q&Hin&Hg&->)]; [by apply elem_of_nil in Hx|].
      destruct (Hfile e text q Hin Hg) as (->&_). exists e. apply elem_of_scope_files in Hin as [? ?]. auto.
    + intros (e&Hin&Hs&->). right. destruct (Hgive e (conj Hin Hs)) as (text&q&Hg).
      destruct (Hfile e text q) as (->&_); [by apply elem_of_scope_files|done|].
      exists e, (content (found_path e)), q. by rewrite elem_of_scope_files.
Qed.

(** What the batch of a run leaves in the store. *)
Lemma run_stored read project content scopes old entries stats forced ts arrivals t t' report :
  json_faithful GraphNode → json_faithful GraphEdge → json_faithful ManifestEntry →
  tables_ok t → manifest_ok t → reflects project scopes old t → run_reads read content old entries arrivals →
  let changed := affected (manifest_of old) entries forced in
  (∀ s s', s ∈ changed → s' ∈ changed → partition_id_new project s = partition_id_new project s' → s = s') →
  index_project read project (Ok (entries, stats)) forced ts arrivals t = (t', Ok report) →
  tables_ok t' ∧ manifest_ok t' ∧
  (∀ path e, stored_entry project t' path = Some e ↔
     (stored_entry project t path = Some e ∧ ¬ ∃ scope, scope ∈ changed ∧ deleted_for_scope scope path = true) ∨
     ∃ x, x ∈ supported entries ∧ scope_of path ∈ changed ∧ found_path x = path ∧ e = entry_for x (content path)) ∧
  (∀ scope, scope ∈ changed → ∃ p, load_partition (partition_id_new project scope) t' = Ok (Some p) ∧
     made_of project (world_of content entries) scope p) ∧
  (∀ id, (∀ scope, scope ∈ changed → id ≠ partition_id_new project scope) → load_partition id t' = load_partition id t).
Proof.
  intros Hjn Hje Hjm Ht Hok Hr Hrun changed Hinj Hrunok. unfold index_project in Hrunok.
  cbn [map_err] in Hrunok. apply method_bind_ok in Hrunok as (t0&es&Hes&Hrunok). injection Hes as <- <-.
  apply method_bind_ok in Hrunok as (t0&t0'&Hget&Hrunok). injection Hget as <- <-.
  apply method_bind_ok in Hrunok as (t0&prior&Hprior&Hrunok). rewrite (reflected_manifest project scopes old t Hok Hr) in Hprior.
  injection Hprior as <- <-. cbv zeta in Hrunok. fold changed in Hrunok. unfold index_batch in Hrunok.
  match type of Hrunok with (match ?b t with _ => _ end) = _ => destruct (b t) as [t0 [r|e]] eqn:Hbody; [|done] end.
  injection Hrunok as <- <-. apply method_bind_ok in Hbody as (t1&[report' manifest]&Hall&Hbody).
  apply method_bind_ok in Hbody as (t2&[]&Hscopes&Hbody). injection Hbody as -> _.
  unfold index_call in Hscopes. destruct (replace_manifest_scopes_in_transaction project changed manifest t1)
    as [t3 [[]|]] eqn:Hreplace; [|done]. injection Hscopes as <-.
  assert (∀ s, s ∈ arrivals changed ↔ s ∈ changed) as Harr.
  { intros s. rewrite (rr_arrivals _ _ _ _ _ Hrun changed). by rewrite elem_of_elements. }
  apply receive_all_ok in Hall as (Ht1&Hother&Hman&Hstored&Helse); [|done..| |].
  2:{ intros s s' Hs%Harr Hs'%Harr. by apply Hinj. }
  2:{ rewrite (rr_arrivals _ _ _ _ _ Hrun changed). apply NoDup_elements. }
  injection Hother as Hmt _ _.
  pose proof (replace_scopes_ok _ _ _ _ _ Hreplace) as (Hp&Hn&He&Henc&Hrows).
  assert (∀ x, x ∈ manifest ↔ ∃ e, e ∈ supported entries ∧ scope_of (found_path e) ∈ changed ∧
            x = entry_for e (content (found_path e))) as Hfresh.
  { intros x. rewrite Hman. split.
    - intros [Hx|(s&ix&Hs%Harr&Hix&Hx)]; [by apply elem_of_nil in Hx|].
      destruct (Hstored s (proj2 (Harr s) Hs)) as (ix'&p&Hix'&_&Hnp&Hep). assert (ix' = ix) as -> by congruence.
      destruct (indexed_scope_made _ _ _ _ _ _ _ _ _ Hrun Hix Hnp Hep) as [_ Hm].
      apply Hm in Hx as (e&Hin&<-&->). eauto.
    - intros (e&Hin&Hs&->). right. destruct (Hstored _ (proj2 (Harr _) Hs)) as (ix&p&Hix&_&Hnp&Hep).
      destruct (indexed_scope_made _ _ _ _ _ _ _ _ _ Hrun Hix Hnp Hep) as [_ Hm].
      exists (scope_of (found_path e)), ix. split; [by apply Harr|]. split; [done|]. apply Hm. eauto. }
  assert (∀ x row, manifest_row x = Some row → json_decode (entry_json row) = Some x) as Hdecode.
  { intros x row Hrow. unfold manifest_row in Hrow. case_match; [|done].
    apply fmap_Some in Hrow as (json&Hj&->). by apply Hjm. }
  split; [by eapply replace_scopes_tables_ok|]. split.
  { eapply replace_scopes_manifest_ok; [done| |done]. intros q path row. rewrite Hmt. apply Hok. }
  split; [|split].
  - intros path e. unfold stored_entry. rewrite !bind_Some. setoid_rewrite Hrows. rewrite Hmt. split.
    + intros (row&[[Hrow Hnot]|(_&x&Hx&Hpath&Hrow)]&Hd).
      * left. split; [by exists row|]. intros Hdel. by apply Hnot.
      * right. apply Hfresh in Hx as (f&Hf&Hs&->). rewrite (Hdecode _ _ Hrow) in Hd. injection Hd as <-.
        cbn [relative_path entry_for] in Hpath. subst path. by exists f.
    + intros [[(row&Hrow&Hd) Hnot]|(f&Hf&Hs&<-&->)].
      * exists row. split; [|done]. left. split; [done|]. by intros [_ ?].
      * assert (entry_for f (content (found_path f)) ∈ manifest) as Hin by (apply Hfresh; eauto).
        destruct (Henc _ Hin) as [row Hrow]. exists row. split; [|by apply Hdecode]. right. split; [done|]. eauto.
  - intros scope Hs. destruct (Hstored scope (proj2 (Harr scope) Hs)) as (ix&p&Hix&Hload&Hnp&Hep). exists p.
    rewrite (load_partition_same _ t1) by done. split; [done|]. by eapply indexed_scope_made.
  - intros id Hid. rewrite (load_partition_same _ t1) by done. apply Helse. intros s Hs%Harr. by apply Hid.
Qed.

(** C29. Indexing again what changed gives the index of the whole project: after a
    successful run over the files as they are now, in whatever order the scopes
    arrive, the manifest has the digest and metadata of every supported file and
    the partition of every scope has the facts of its files and no others, if
    this was so for the files as they were. The paths of the inventory are
    distinct, what is read of a file is its content, and a file whose metadata
    (length and time of modification) is the recorded one is taken to have its
    recorded content, as the code does: a file rewritten with both unchanged is
    not covered and keeps its stale digest and facts. The rows that are deleted
    are those of the scopes that are indexed, the stored documents decode to what
    was encoded, and no two of the scopes have the same identifier, which is the
    first case. *)
Theorem incremental_index_is_full read project content scopes old entries stats forced ts arrivals t t' report :
  json_faithful GraphNode → json_faithful GraphEdge → json_faithful ManifestEntry →
  tables_ok t → manifest_ok t → reflects project scopes old t → run_reads read content old entries arrivals →
  covers scopes old entries forced → deletes_its_scopes old (affected (manifest_of old) entries forced) →
  index_project read project (Ok (entries, stats)) forced ts arrivals t = (t', Ok report) →
  (∃ s s', s ∈ scopes ∧ s' ∈ scopes ∧ s ≠ s' ∧ partition_id_new project s = partition_id_new project s') ∨
  (tables_ok t' ∧ manifest_ok t' ∧ reflects project scopes (world_of content entries) t').
Proof.
  intros Hjn Hje Hjm Ht Hok Hr Hrun Hcov Hdel Hrunok.
  destruct (decide (set_Exists (λ s, set_Exists (λ s', s ≠ s' ∧ partition_id_new project s = partition_id_new project s')
    scopes) scopes)) as [(s&Hs&s'&Hs'&?&?)|Hno]; [left; by exists s, s'|right].
  assert (∀ s s', s ∈ scopes → s' ∈ scopes → partition_id_new project s = partition_id_new project s' → s = s') as Hinj.
  { intros s s' Hs Hs' Heq. destruct (decide (s = s')) as [|Hne]; [done|]. destruct Hno. exists s. split; [done|].
    by exists s'. }
  set (changed := affected (manifest_of old) entries forced) in *.
  assert (∀ s, s ∈ changed → s ∈ scopes) as Hsub.
  { intros s. eapply affected_covered; [apply (rr_paths _ _ _ _ _ Hrun)|done]. }
  destruct (run_stored read project content scopes old entries stats forced ts arrivals t t' report)
    as (Ht'&Hok'&Hentries&Hmade&Hsame); [done..|by intros s s' ?%Hsub ?%Hsub; apply Hinj|done|].
  split; [done|]. split; [done|].
  assert (∀ path, scope_of path ∉ changed → world_of content entries !! path = old !! path) as Hunchanged.
  { intros path. by eapply unchanged_files. }
  assert (∀ scope, scope ∈ scopes → scope ∉ changed →
            load_partition (partition_id_new project scope) t' = load_partition (partition_id_new project scope) t) as Hkept.
  { intros scope Hs Hnot. apply Hsame. intros s Hs' Heq. apply Hinj in Heq; [|done|by apply Hsub]. by subst. }
  pose proof (rr_paths _ _ _ _ _ Hrun) as Hnd.
  split.
  - intros path e. rewrite Hentries. fold changed. destruct (decide (scope_of path ∈ changed)) as [Hin|Hout].
    + split.
      * intros [[Hold Hnot]|(x&Hx&_&<-&->)].
        -- apply (rf_manifest _ _ _ _ Hr) in Hold as (m&text&Hpath&_). destruct Hnot. apply Hdel; [by eexists|done].
        -- exists (found_metadata x), (content (found_path x)). split; [|done]. apply world_of_lookup; eauto.
      * intros (m&text&(x&Hx&<-&<-&<-)%world_of_lookup&->); [|done]. right. by exists x.
    + rewrite (Hunchanged path Hout), (rf_manifest _ _ _ _ Hr). split.
      * intros [[Hold _]|(x&_&Hin&_)]; done.
      * intros Hold. left. split; [done|]. intros Hdeleted. destruct Hold as (m&text&Hpath&_).
        apply Hout, (Hdel path); [by eexists|done].
  - intros scope p Hs Hload. destruct (decide (scope ∈ changed)) as [Hin|Hout].
    + destruct (Hmade scope Hin) as (p'&Hload'&Hp'). assert (p' = p) as -> by congruence. done.
    + rewrite Hkept in Hload by done. destruct (rf_made _ _ _ _ Hr scope p Hs Hload) as (Hfiles&Hn&He).
      assert (∀ path, scope_of path = scope → world_of content entries !! path = old !! path) as Heq.
      { intros path <-. by apply Hunchanged. }
      split_and!.
      * intros path m text Hpath Hsc. rewrite Heq in Hpath by done. by eapply Hfiles.
      * intros k n Hk. destruct (Hn k n Hk) as (path&m&text&q&Hpath&Hsc&?&?). exists path, m, text, q.
        by rewrite Heq.
      * intros k n Hk. destruct (He k n Hk) as (path&m&text&q&Hpath&Hsc&?&?). exists path, m, text, q.
        by rewrite Heq.
  - intros path Hpath. destruct (decide (scope_of path ∈ changed)) as [Hin|Hout].
    + destruct (Hmade _ Hin) as (p&Hp&_). by exists p.
    + rewrite Hunchanged in Hpath by done. destruct (rf_present _ _ _ _ Hr path Hpath) as [p Hp]. exists p.
      rewrite Hkept; [done| |done]. destruct Hcov as (Hold&_). by apply Hold.
Qed.

(** A run that fails leaves the store as it was. *)
Lemma failed_run_keeps read project inventoried forced ts arrivals t t' e :
  index_project read project inventoried forced ts arrivals t = (t', Err e) → t' = t.
Proof.
  unfold index_project, index_batch. run_method.
  destruct (map_err IndexInventory inventoried) as [[entries stats]|]; cbn; [|by intros [= <-]].
  destruct (map_err IndexGraph (load_manifest project t)) as [prior|]; cbn; [|by intros [= <-]].
  match goal with |- (match ?b with _ => _ end) = _ → _ => destruct b as [t0 [r|]] end; by intros [= <-].
Qed.
End incremental.

(** The rows of the scopes that are indexed are deleted and no others, when no file
    is below a directory called root and no indexed scope is, up to the case of its
    letters, a directory above one that is not indexed. *)
Lemma deletes_when_apart (old : World) (changed : gset string) :
  (∀ path rest, is_Some (old !! path) → path ≠ "root" +:+ String slash rest) →
  (∀ scope path first rest, scope ∈ changed → scope ≠ "root" → is_Some (old !! path) →
     path = first +:+ String slash rest → to_ascii_lowercase first = to_ascii_lowercase scope → scope_of path ∈ changed) →
  deletes_its_scopes old changed.
Proof.
  assert (∀ s before after, rsplit_once (is_char slash) s = Some (before, after) → s = before +:+ String slash after) as Hsplit.
  { intros s. induction s as [|a s IH]; intros before after; simpl; [done|].
    destruct (rsplit_once _ s) as [[b c]|] eqn:Hs.
    - intros [= <- <-]. rewrite str_app_cons. by rewrite <-(IH b c).
    - destruct (is_char slash a) eqn:Ha; [|done]. apply is_char_true in Ha as ->. by intros [= <- <-]. }
  assert (∀ s, rsplit_once (is_char slash) s = None ↔ contains_char slash s = false) as Hnone.
  { intros s. induction s as [|a s IH]; simpl; [done|]. destruct (rsplit_once _ s) as [[b c]|].
    - assert (contains_char slash s = true) as Hs by (destruct (contains_char slash s); [done|]; discriminate (proj2 IH eq_refl)).
      unfold contains_char in *. simpl. rewrite Hs, orb_true_r. done.
    - unfold contains_char in *. simpl. rewrite (proj1 IH eq_refl), orb_false_r. unfold is_char.
      destruct (ascii_dec slash a), (ascii_dec a slash); naive_solver. }
  intros Hroot Hapart path Hpath. split.
  - intros (scope&Hin&Hdel). destruct (decide (scope = "root")) as [->|Hne].
    + unfold deleted_for_scope in Hdel. rewrite decide_True in Hdel by done. apply negb_true_iff, Hnone in Hdel.
      unfold scope_of. by rewrite Hdel.
    + apply deleted_for_scope_iff in Hdel as (first&rest&Heq&Hlow); [|done]. by eapply Hapart.
  - intros Hin. exists (scope_of path). split; [done|]. unfold scope_of in *.
    destruct (rsplit_once _ path) as [[scope name]|] eqn:Hs.
    + apply Hsplit in Hs as ->. apply deleted_for_scope_iff; [|by exists scope, name].
      intros ->. by eapply Hroot.
    + unfold deleted_for_scope. rewrite decide_True by done. apply negb_true_iff. by apply Hnone.
Qed.

(** * The service *)

Section serving.
Context `{Sha256, UuidText, Grammars, Rfc3339, Persist GraphNode, Persist GraphEdge, Persist ManifestEntry,
          PathSearchEngine, UnicodeTables}.

(** An index is used again when the commit and the status text are those it was made
    at, whatever the files hold now. *)
Lemma reused_without_reading project env path fingerprint t :
  load_index_state project t = Some (path, fingerprint) →
  git_fingerprint (git_before env).1 (git_before env).2 = Some fingerprint →
  refresh project env path t = (t, Ok None).
Proof.
  intros Hstate Hgit. unfold refresh. run_method. rewrite Hstate, decide_True by done.
  rewrite Hgit, Hstate. by rewrite bool_decide_true.
Qed.

(** The context has at most 200 nodes, of at most 20 scopes. *)
Lemma collect_nodes_bounded project paths t acc scopes l :
  length acc ≤ 200 → collect_nodes project paths t acc scopes = Ok l → length l ≤ 200.
Proof.
  revert acc. induction scopes as [|scope scopes IH]; intros acc Hacc; cbn [collect_nodes]; [congruence|].
  intros (loaded&_&Hrest)%result_bind_ok. destruct loaded as [p|]; [|by eapply IH].
  assert (length (take 200 (acc ++ (shown <$> partition_nodes paths p))) ≤ 200) as Hle by (rewrite length_take; lia).
  case_decide; [congruence|by eapply IH].
Qed.
Lemma context_bounded project request env t t' c :
  index_and_context project request env t = (t', Ok c) →
  length (context_nodes c) ≤ 200 ∧ length (context_scopes c) ≤ 20 ∧ length (context_paths c) ≤ 128.
Proof.
  unfold index_and_context. intros (t1&path&_&Hr)%method_bind_ok. apply method_bind_ok in Hr as (t2&report&_&Hr).
  apply method_bind_ok in Hr as (t3&t3'&Hget&Hr). apply m_get_ok in Hget as [-> ->].
  cbv zeta in Hr. apply method_bind_ok in Hr as (t4&l&Hl&Hr). apply m_lift_ok in Hl as [-> Hl%map_err_ok].
  injection Hr as <- <-. cbn [context_nodes context_scopes context_paths]. split_and!.
  - eapply collect_nodes_bounded; [|done]. simpl. lia.
  - rewrite length_take. lia.
  - rewrite length_fmap. unfold search_paths. destruct (search_terms request); [simpl; lia|].
    rewrite length_take. lia.
Qed.
End serving.

(** * Examples *)

Section examples.
#[local] Instance index_sha256 : Sha256 := toy_sha256.
#[local] Instance index_uuid_text : UuidText := sample_uuid_text.
#[local] Instance index_rfc3339 : Rfc3339 := toy_rfc3339.
(** Every source is one named node without children, of a kind no adapter knows. *)
#[local] Instance index_grammars : Grammars := λ _ _ text, Parsed false (leaf "source_file" 0 (str_len text)).

Definition index_project_id : ProjectId := word_of 128 1.
Definition found_file (length : N) (path : string) : InventoryEntry :=
  {| found_metadata := from_std (regular length); found_path := path |}.
(** Reads of files that have a content, the same for all. *)
Definition read_as (text : string) (path : string) : FileRead :=
  let seen := Some (regular (str_len text)) in {| seen_before := seen; seen_content := Some text; seen_after := seen |}.
Definition entry_as (text path : string) : ManifestEntry := entry_for (found_file (str_len text) path) text.
Definition facts_as (text path : string) : GraphPartition :=
  default (empty_partition index_project_id (scope_of path)) (file_facts index_project_id (scope_of path) path text).
Definition known_files : list (string * string) :=
  [("one", "src/a.rs"); ("other", "src/a.rs"); ("one", "src/sub/b.rs"); ("one", "root/x.rs"); ("other", "root/x.rs")].
#[local] Instance index_node_persist : Persist GraphNode :=
  table_persist (known_files ≫= λ f, btree_values (nodes (facts_as f.1 f.2))).
#[local] Instance index_edge_persist : Persist GraphEdge := table_persist [].
#[local] Instance index_entry_persist : Persist ManifestEntry := table_persist ((λ f, entry_as f.1 f.2) <$> known_files).

Definition run (text : string) (files : list InventoryEntry) : method CodeTables IndexError IndexReport :=
  index_project (read_as text) index_project_id (Ok (files, {| Inventory.files := 0; skipped := 0 |})) [] 0%Z elements.
Definition state_after (runs : list (string * list InventoryEntry)) : CodeTables :=
  foldl (λ t r, (run r.1 r.2 t).1) empty_tables runs.
Definition paths_of (t : CodeTables) (scope : string) : list string :=
  match load_partition (partition_id_new index_project_id scope) t with
  | Ok (Some p) => node_path <$> btree_values (nodes p)
  | _ => []
  end.
Definition indexed_paths (t : CodeTables) : list string :=
  match load_manifest index_project_id t with Ok m => btree_keys m | Err _ => [] end.

(** A change in a directory drops the manifest rows of the directories below it; a
    file that is then removed below keeps its facts in the store. *)
Definition changing : list (string * list InventoryEntry) :=
  [("one", [found_file 3 "src/a.rs"; found_file 3 "src/sub/b.rs"]);
   ("other", [found_file 5 "src/a.rs"; found_file 3 "src/sub/b.rs"]);
   ("other", [found_file 5 "src/a.rs"])].
Example removed_file_stays :
  (indexed_paths (state_after (take 1 changing)), indexed_paths (state_after (take 2 changing)),
   indexed_paths (state_after changing), paths_of (state_after changing) "src", paths_of (state_after changing) "src/sub") =
  (["src/a.rs"; "src/sub/b.rs"], ["src/a.rs"], ["src/a.rs"], ["src/a.rs"], ["src/sub/b.rs"]).
Proof. vm_compute. reflexivity. Qed.

(** A project with a directory called root is indexed once; when a file of it
    changes every later run fails. *)
Example root_directory_wedges :
  let once := state_after [("one", [found_file 3 "root/x.rs"])] in
  (indexed_paths once, (run "other" [found_file 5 "root/x.rs"] once).2) =
  (["root/x.rs"], Err (IndexGraph GraphSqlite)).
Proof. vm_compute. reflexivity. Qed.

(** The same commit and the same status text for two contents of a modified file. *)
Example status_text_is_blind :
  let head := Some (true, "c0ffee") in
  let status := Some (true, " M src/a.rs") in
  is_Some (git_fingerprint head status) ∧
  digest_of "one" ≠ digest_of "other".
Proof. split; [vm_compute; by eexists|vm_compute; discriminate]. Qed.

Lemma read_as_content text e t : read_source (read_as text) e = Ok t → t = text.
Proof.
  unfold read_source, read_as. cbn [seen_before seen_content seen_after ok_or mbind result_bind regular is_file
    is_symlink negb orb reject_if]. destruct (_ || _); [done|]. cbn [reject_if mbind result_bind]. by intros [= ->].
Qed.

Lemma empty_manifest_ok : manifest_ok empty_tables.
Proof. intros q path row Hrow. simpl in Hrow. by rewrite lookup_empty in Hrow. Qed.
Lemma empty_reflects project scopes : reflects project scopes ∅ empty_tables.
Proof.
  split.
  - intros path e. split; [done|]. intros (m&text&Hpath&_). by rewrite lookup_empty in Hpath.
  - intros scope p _ Hload. done.
  - intros path [x Hpath]. by rewrite lookup_empty in Hpath.
Qed.
Lemma sample_run_reads : run_reads (read_as "one") (λ _, "one") ∅ [found_file 3 "src/a.rs"] elements.
Proof.
  split; [repeat constructor; apply not_elem_of_nil|done|by intros e text _ ?%read_as_content|].
  intros e text _ Hold. by rewrite lookup_empty in Hold.
Qed.
Lemma sample_covers : covers {["src"]} ∅ [found_file 3 "src/a.rs"] [].
Proof.
  split_and!.
  - intros path [x Hpath]. by rewrite lookup_empty in Hpath.
  - intros e He. unfold supported in He. apply list_elem_of_filter in He as [_ ->%list_elem_of_singleton].
    by apply elem_of_singleton.
  - by intros path ?%elem_of_nil.
Qed.
Lemma nothing_deleted changed : deletes_its_scopes ∅ changed.
Proof. intros path [x Hpath]. by rewrite lookup_empty in Hpath. Qed.
End examples.

Lemma incremental_index_is_full_witness :
  ∃ (S : Sha256) (U : UuidText) (G : Grammars) (R : Rfc3339) (N : Persist GraphNode) (E : Persist GraphEdge)
    (M : Persist ManifestEntry) (t : CodeTables) (report : IndexReport),
  index_project (read_as "one") index_project_id (Ok ([found_file 3 "src/a.rs"], {| Inventory.files := 0; skipped := 0 |}))
    [] 0%Z elements empty_tables = (t, Ok report) ∧ persisted_partitions report = 1%N ∧
  reflects index_project_id {["src"]} (world_of (λ _, "one") [found_file 3 "src/a.rs"]) t.
Proof.
  exists index_sha256, index_uuid_text, index_grammars, index_rfc3339, index_node_persist, index_edge_persist,
    index_entry_persist.
  set (r := @index_project index_sha256 index_uuid_text index_grammars index_rfc3339 index_node_persist
    index_edge_persist index_entry_persist (read_as "one") index_project_id
    (Ok ([found_file 3 "src/a.rs"], {| Inventory.files := 0; skipped := 0 |})) [] 0%Z elements empty_tables).
  assert (match r.2 with Ok report => persisted_partitions report | Err _ => 0%N end = 1%N) as Hok
    by (vm_compute; reflexivity).
  destruct r as [t [report|e]] eqn:Hr; [|discriminate Hok]. exists t, report. split; [exact eq_refl|]. split; [exact Hok|].
  destruct (@incremental_index_is_full index_sha256 index_uuid_text index_grammars index_rfc3339 index_node_persist
    index_edge_persist index_entry_persist (read_as "one") index_project_id (λ _, "one") {["src"]} ∅
    [found_file 3 "src/a.rs"] {| Inventory.files := 0; skipped := 0 |} [] 0%Z elements empty_tables t report)
    as [(s&s'&Hs&Hs'&Hne&_)|(_&_&Hreflects)]; [..|exact Hreflects].
  - apply table_persist_faithful.
  - apply table_persist_faithful.
  - apply table_persist_faithful.
  - apply empty_tables_ok.
  - apply empty_manifest_ok.
  - apply empty_reflects.
  - apply sample_run_reads.
  - apply sample_covers.
  - apply nothing_deleted.
  - exact Hr.
  - apply elem_of_singleton in Hs, Hs'. destruct (Hne (eq_trans Hs (eq_sym Hs'))).
Defined.
End CodeIndex.
