(* ===== verification/Memory.v ===== *)
(** The memory of a project: the entries of workflow-memory (model.rs), what is
    taken of them within a budget (retrieval.rs), the tables they are stored in
    (store.rs, migration 4), and the operations of workflowd on them (memory.rs,
    memory_policy.rs).

    A table is a map from its primary key, or a set where it has no other column; a
    column that holds the text of an identifier holds the identifier. The full-text
    search of SQLite is the class [FullTextSearch]. *)
From Stdlib Require Import Ascii String.
From S2P Require Import Prelude Text Ids Canonical Redaction CodeGraph Database.

Record FtsRow : Type := { fts_id : MemoryId; fts_title : string; fts_summary : string; fts_detail : string }.
#[export] Instance FtsRow_eq_dec : EqDecision FtsRow.
Proof. solve_decision. Defined.
(** [MATCH] and [bm25] over the rows of an index: a query is refused or gives the
    rank of each row that matches, the best the lowest. *)
Class FullTextSearch := fts_match : string → list FtsRow → option (FtsRow → option Z).

Module Memory.

(** * Entries *)

Inductive ConfidenceClass : Type := Inferred | UserAsserted | Verified.
#[export] Instance ConfidenceClass_eq_dec : EqDecision ConfidenceClass.
Proof. solve_decision. Defined.
Inductive MemoryKind : Type :=
| Approval | ArchitectureDecision | BugFix | Command | Constraint | Convention | FailedApproach.
#[export] Instance MemoryKind_eq_dec : EqDecision MemoryKind.
Proof. solve_decision. Defined.
Inductive MemoryState : Type := Current | Revoked | Superseded.
#[export] Instance MemoryState_eq_dec : EqDecision MemoryState.
Proof. solve_decision. Defined.

Record Provenance : Type := {
  provenance_candidate : option CandidateId;
  evidence_ids : gset EvidenceId;
  revision : option string;
  source_event_ids : gset EventId;
}.
Record MemoryEntry : Type := {
  actor : string;
  confidence : ConfidenceClass;
  created_at : WorkflowTimestamp;
  detail : string;
  memory_id : MemoryId;
  kind : MemoryKind;
  project_id : ProjectId;
  provenance : Provenance;
  scope : gset string;
  state : MemoryState;
  summary : string;
  superseded_by : option MemoryId;
  title : string;
}.
#[export] Instance Provenance_eq_dec : EqDecision Provenance.
Proof. solve_decision. Defined.
#[export] Instance MemoryEntry_eq_dec : EqDecision MemoryEntry.
Proof. solve_decision. Defined.

Inductive MemoryError : Type :=
| EmptyActor | EmptyContent | EmptyProvenance | EmptyScope | InferredRule | InvalidState
| SensitiveContent | UnverifiedClaim.

(** [MemoryEntry::validate]. *)
Definition memory_validate (e : MemoryEntry) : result MemoryError unit :=
  _ ← reject_if (is_blank (actor e)) EmptyActor;
  _ ← reject_if (existsb is_blank [title e; summary e; detail e]) EmptyContent;
  _ ← reject_if (bool_decide (scope e = ∅)) EmptyScope;
  _ ← reject_if (bool_decide (source_event_ids (provenance e) = ∅)) EmptyProvenance;
  _ ← reject_if (bool_decide (confidence e = Verified) && bool_decide (evidence_ids (provenance e) = ∅))
        UnverifiedClaim;
  _ ← reject_if (bool_decide (confidence e = Inferred)
                 && match kind e with Approval | Constraint => true | _ => false end) InferredRule;
  _ ← reject_if (negb (Bool.eqb (bool_decide (state e = Superseded)) (bool_decide (is_Some (superseded_by e)))))
        InvalidState;
  reject_if (existsb contains_sensitive ([actor e; title e; summary e; detail e] ++ bset_iter (scope e))
             || match revision (provenance e) with Some value => contains_sensitive value | None => false end)
    SensitiveContent.

Definition can_apply_as_rule (e : MemoryEntry) : bool :=
  bool_decide (state e = Current) && negb (bool_decide (confidence e = Inferred)).

(** An entry in a state, with its successor. *)
Definition with_state (s : MemoryState) (next : option MemoryId) (e : MemoryEntry) : MemoryEntry :=
  {| actor := actor e; confidence := confidence e; created_at := created_at e; detail := detail e;
     memory_id := memory_id e; kind := kind e; project_id := project_id e; provenance := provenance e;
     scope := scope e; state := s; summary := summary e; superseded_by := next; title := title e |}.
(** [MemoryEntry::revoke]. *)
Definition memory_revoke (e : MemoryEntry) : MemoryEntry := with_state Revoked None e.
(** [MemoryEntry::supersede]. *)
Definition memory_supersede (e replacement : MemoryEntry) : result MemoryError MemoryEntry :=
  _ ← memory_validate replacement;
  _ ← reject_if (negb (bool_decide (project_id e = project_id replacement))
                 || bool_decide (memory_id e = memory_id replacement)) InvalidState;
  Ok (with_state Superseded (Some (memory_id replacement)) e).

(** * Retrieval within a budget *)

Record RetrievalBudget : Type := { max_bytes : N; max_items : nat }.
Record CompactMemory : Type := {
  compact_confidence : ConfidenceClass;
  evidence_count : nat;
  compact_id : MemoryId;
  compact_kind : MemoryKind;
  compact_scope : gset string;
  source_count : nat;
  compact_summary : string;
  compact_title : string;
}.
Definition compact_entry (e : MemoryEntry) : CompactMemory :=
  {| compact_confidence := confidence e; evidence_count := size (evidence_ids (provenance e));
     compact_id := memory_id e; compact_kind := kind e; compact_scope := scope e;
     source_count := size (source_event_ids (provenance e)); compact_summary := summary e;
     compact_title := title e |}.
Definition json_size `{ToJson A} (a : A) : option N := str_len <$> to_vec a.
Definition compact `{ToJson CompactMemory} (entries : list MemoryEntry) (budget : RetrievalBudget)
    : list CompactMemory :=
  (take_within json_size (max_bytes budget) 0 (compact_entry <$> take (max_items budget) entries)).1.
Definition selected_details `{ToJson MemoryEntry} (entries : list MemoryEntry) (selected : gset MemoryId)
    (max_bytes : N) : list MemoryEntry :=
  (take_within json_size max_bytes 0 (filter (λ e, memory_id e ∈ selected) entries)).1.

(** * Tables *)

Record MemoryRow : Type := {
  row_project : ProjectId; row_confidence : string; row_kind : string; row_state : string;
  row_actor : string; row_title : string; row_summary : string; row_detail : string;
  row_created : string; row_superseded : option MemoryId; row_json : string;
}.
(** The tables of migration 4, and the event identifiers of the ledger, which the
    sources of an entry refer to. *)
Record MemoryTables : Type := {
  memory_entries : gmap MemoryId MemoryRow;
  memory_scopes : gset (MemoryId * string);
  memory_sources : gset (MemoryId * EventId);
  memory_fts : list FtsRow;
  ledger_events : gset EventId;
}.
Definition set_entries (rows : gmap MemoryId MemoryRow) (t : MemoryTables) : MemoryTables :=
  {| memory_entries := rows; memory_scopes := memory_scopes t; memory_sources := memory_sources t;
     memory_fts := memory_fts t; ledger_events := ledger_events t |}.
Definition add_scope (row : MemoryId * string) (t : MemoryTables) : MemoryTables :=
  {| memory_entries := memory_entries t; memory_scopes := memory_scopes t ∪ {[row]};
     memory_sources := memory_sources t; memory_fts := memory_fts t; ledger_events := ledger_events t |}.
Definition add_source (row : MemoryId * EventId) (t : MemoryTables) : MemoryTables :=
  {| memory_entries := memory_entries t; memory_scopes := memory_scopes t;
     memory_sources := memory_sources t ∪ {[row]}; memory_fts := memory_fts t; ledger_events := ledger_events t |}.
Definition add_fts (row : FtsRow) (t : MemoryTables) : MemoryTables :=
  {| memory_entries := memory_entries t; memory_scopes := memory_scopes t; memory_sources := memory_sources t;
     memory_fts := memory_fts t ++ [row]; ledger_events := ledger_events t |}.

Inductive MemoryStoreError : Type :=
| MemoryDomain (error : MemoryError) | MissingSchema | NotFound | MemorySerialization | MemorySqlite
| MemoryPanicked.

Abbreviation Statement := (method MemoryTables MemoryStoreError).
Definition memory_transaction {A} (body : Statement A) : Statement A := λ t,
  match body t with (t', Ok a) => (t', Ok a) | (_, Err e) => (t, Err e) end.
Definition memory_constraint (holds : bool) : Statement unit := m_lift (reject_if (negb holds) MemorySqlite).

(** [MemoryStore::open] on a database at a schema version. *)
Definition memory_store_open (user_version : N) : result MemoryStoreError unit :=
  reject_if (user_version <? 4)%N MissingSchema.

Definition confidence_name (value : ConfidenceClass) : string :=
  match value with Inferred => "inferred" | UserAsserted => "user_asserted" | Verified => "verified" end.
Definition memory_state_name (value : MemoryState) : string :=
  match value with Current => "current" | Revoked => "revoked" | Superseded => "superseded" end.
Definition quotation : ascii := "034".
Definition quoted (text : string) : string := String quotation (text +:+ String quotation "").
(** [json_name] of a kind: its name in JSON, without the quotation marks. *)
Definition kind_name (k : MemoryKind) : string :=
  match k with
  | Approval => "approval" | ArchitectureDecision => "architecture_decision" | BugFix => "bug_fix"
  | Command => "command" | Constraint => "constraint" | Convention => "convention"
  | FailedApproach => "failed_approach"
  end.
Definition json_name (k : MemoryKind) : string := trim_matches (is_char quotation) (quoted (kind_name k)).

(** * Words *)

(** [str::split_whitespace]; [word] is the word so far, reversed. *)
Fixpoint words_of (word l : list ascii) : list string :=
  let flush rest := match word with [] => rest | _ => chars_str (reverse word) :: rest end in
  match l with
  | [] => flush []
  | a :: l1 =>
      if ws1 a then flush (words_of [] l1) else
      match l1 with
      | [] => words_of (a :: word) l1
      | b :: l2 =>
          if ws2 a b then flush (words_of [] l2) else
          match l2 with
          | [] => words_of (a :: word) l1
          | c :: l3 => if ws3 a b c then flush (words_of [] l3) else words_of (a :: word) l1
          end
      end
  end.
Definition split_whitespace (s : string) : list string := words_of [] (str_chars s).
Definition fts_terms (value : string) : string :=
  String.concat " AND "
    ((λ term, quoted (replace_char quotation (String quotation (String quotation "")) term)) <$>
     filter (λ term, term ≠ "") (split_whitespace value)).

(** * The store *)

Record MemorySearch : Type := {
  search_confidence : option ConfidenceClass;
  search_from : option WorkflowTimestamp;
  include_inactive : bool;
  search_limit : nat;
  search_project : ProjectId;
  search_scope : option string;
  search_text : string;
  search_to : option WorkflowTimestamp;
}.

(** A row that a search finds, with its rank. *)
Record Hit : Type := { hit_rank : Z; hit_id : MemoryId; hit_row : MemoryRow }.

Section store.
Context `{UuidText, Rfc3339, Persist MemoryEntry}.

Definition memory_row (e : MemoryEntry) (time json : string) : MemoryRow :=
  {| row_project := project_id e; row_confidence := confidence_name (confidence e); row_kind := json_name (kind e);
     row_state := memory_state_name (state e); row_actor := actor e; row_title := title e; row_summary := summary e;
     row_detail := detail e; row_created := time; row_superseded := superseded_by e; row_json := json |}.
Definition fts_row (e : MemoryEntry) : FtsRow :=
  {| fts_id := memory_id e; fts_title := title e; fts_summary := summary e; fts_detail := detail e |}.

(** [INSERT INTO memory_entries]: a new identifier, and a successor that is there. *)
Definition insert_row (e : MemoryEntry) : Statement unit :=
  time ← m_lift (ok_or MemoryPanicked (timestamp_to_string (created_at e)));
  json ← m_lift (ok_or MemorySerialization (json_encode e));
  t ← m_get;
  _ ← memory_constraint (bool_decide (memory_entries t !! memory_id e = None));
  _ ← memory_constraint (match superseded_by e with
        | Some next => bool_decide (next = memory_id e ∨ is_Some (memory_entries t !! next))
        | None => true
        end);
  m_modify (set_entries (<[memory_id e := memory_row e time json]> (memory_entries t))).
Definition insert_scope (id : MemoryId) (s : string) : Statement unit :=
  t ← m_get;
  _ ← memory_constraint (bool_decide ((id, s) ∉ memory_scopes t));
  m_modify (add_scope (id, s)).
Definition insert_source (id : MemoryId) (event : EventId) : Statement unit :=
  t ← m_get;
  _ ← memory_constraint (bool_decide ((id, event) ∉ memory_sources t ∧ event ∈ ledger_events t));
  m_modify (add_source (id, event)).
(** [insert]. *)
Definition insert_memory (e : MemoryEntry) : Statement unit :=
  _ ← insert_row e;
  _ ← m_modify (add_fts (fts_row e));
  _ ← m_for_each (insert_scope (memory_id e)) (bset_iter (scope e));
  m_for_each (insert_source (memory_id e)) (bset_iter (source_event_ids (provenance e))).
(** [MemoryStore::insert]. *)
Definition memory_insert (e : MemoryEntry) : Statement unit :=
  _ ← m_lift (map_err MemoryDomain (memory_validate e));
  memory_transaction (insert_memory e).

(** The row of an entry of a project. *)
Definition project_row (project : ProjectId) (id : MemoryId) (t : MemoryTables) : option MemoryRow :=
  row ← memory_entries t !! id;
  if decide (row_project row = project) then Some row else None.
Definition decode_entry (json : string) : result MemoryStoreError MemoryEntry :=
  ok_or MemorySerialization (json_decode json).
(** [MemoryStore::get]. *)
Definition memory_get (project : ProjectId) (id : MemoryId) (t : MemoryTables)
    : result MemoryStoreError (option MemoryEntry) :=
  match project_row project id t with
  | None => Ok None
  | Some row => e ← decode_entry (row_json row); Ok (Some e)
  end.

(** [UPDATE memory_entries] of the state, the successor and the text of an entry. *)
Definition update_entry (project : ProjectId) (id : MemoryId) (s : MemoryState) (next : option MemoryId)
    (json : string) : Statement unit :=
  t ← m_get;
  match project_row project id t with
  | None => mret tt
  | Some row =>
      _ ← memory_constraint (match next with Some n => bool_decide (is_Some (memory_entries t !! n)) | None => true end);
      m_modify (set_entries (<[id :=
        {| row_project := row_project row; row_confidence := row_confidence row; row_kind := row_kind row;
           row_state := memory_state_name s; row_actor := row_actor row; row_title := row_title row;
           row_summary := row_summary row; row_detail := row_detail row; row_created := row_created row;
           row_superseded := next; row_json := json |}]> (memory_entries t)))
  end.

(** [MemoryStore::supersede]. *)
Definition memory_store_supersede (project : ProjectId) (current_id : MemoryId) (replacement : MemoryEntry)
    : Statement unit :=
  _ ← m_lift (map_err MemoryDomain (memory_validate replacement));
  memory_transaction (
    t ← m_get;
    row ← m_lift (ok_or NotFound (project_row project current_id t));
    current ← m_lift (decode_entry (row_json row));
    superseded ← m_lift (map_err MemoryDomain (memory_supersede current replacement));
    _ ← insert_memory replacement;
    json ← m_lift (ok_or MemorySerialization (json_encode superseded));
    update_entry project current_id Superseded (Some (memory_id replacement)) json).

(** [MemoryStore::revoke]: it reads the entry, and writes it in a statement of its
    own; another connection may change the tables in between. *)
Definition revoke_read (project : ProjectId) (id : MemoryId) (t : MemoryTables) : result MemoryStoreError MemoryEntry :=
  found ← memory_get project id t;
  ok_or NotFound found.
Definition revoke_write (project : ProjectId) (id : MemoryId) (read : MemoryEntry) : Statement unit :=
  json ← m_lift (ok_or MemorySerialization (json_encode (memory_revoke read)));
  update_entry project id Revoked None json.
Definition memory_store_revoke (project : ProjectId) (id : MemoryId) : Statement unit :=
  t ← m_get;
  read ← m_lift (revoke_read project id t);
  revoke_write project id read.

(** The conditions of a search's [WHERE], with its instants as texts. *)
Definition selects (q : MemorySearch) (from to : option string) (t : MemoryTables) (h : Hit) : bool :=
  bool_decide (row_project (hit_row h) = search_project q)
  && (include_inactive q || bool_decide (row_state (hit_row h) = "current"))
  && match search_confidence q with
     | Some c => bool_decide (row_confidence (hit_row h) = confidence_name c) | None => true end
  && match from with Some time => bool_decide (String.le time (row_created (hit_row h))) | None => true end
  && match to with Some time => bool_decide (String.le (row_created (hit_row h)) time) | None => true end
  && match search_scope q with Some s => bool_decide ((hit_id h, s) ∈ memory_scopes t) | None => true end.
(** The rows with the words of a search, or all of them when it has none. *)
Definition hits `{FullTextSearch} (terms : string) (t : MemoryTables) : option (list Hit) :=
  if decide (terms = "") then
    Some ((λ row : MemoryId * MemoryRow, {| hit_rank := 0; hit_id := row.1; hit_row := row.2 |}) <$>
          map_to_list (memory_entries t))
  else
    rank ← fts_match terms (memory_fts t);
    Some (omap (λ f, r ← rank f; row ← memory_entries t !! fts_id f;
                     Some {| hit_rank := r; hit_id := fts_id f; hit_row := row |}) (memory_fts t)).
(** [ORDER BY bm25, created_at DESC, id]. *)
Definition hit_before (a b : Hit) : Prop :=
  if decide (hit_rank a = hit_rank b) then
    if decide (row_created (hit_row a) = row_created (hit_row b))
    then String.le (uuid_text (hit_id a)) (uuid_text (hit_id b))
    else String.le (row_created (hit_row b)) (row_created (hit_row a))
  else (hit_rank a ≤ hit_rank b)%Z.
#[export] Instance hit_before_dec : RelDecision hit_before.
Proof. intros a b. unfold hit_before. repeat case_decide; apply _. Defined.

Definition instant_text (time : option WorkflowTimestamp) : result MemoryStoreError (option string) :=
  match time with
  | None => Ok None
  | Some time => text ← ok_or MemoryPanicked (timestamp_to_string time); Ok (Some text)
  end.
(** [MemoryStore::search]. *)
Definition memory_search `{FullTextSearch} (q : MemorySearch) (t : MemoryTables)
    : result MemoryStoreError (list MemoryEntry) :=
  from ← instant_text (search_from q);
  to ← instant_text (search_to q);
  found ← ok_or MemorySqlite (hits (fts_terms (search_text q)) t);
  let rows := take (Nat.max 1 (Nat.min 1000 (search_limit q)))
                (merge_sort hit_before (filter (λ h, Is_true (selects q from to t h)) found)) in
  try_map (λ h, decode_entry (row_json (hit_row h))) rows.
End store.

(** * What the daemon does *)

Inductive MemoryOperation : Type :=
| MemExplain (id : MemoryId)
| MemRemove (id : MemoryId)
| MemSearch (confidence : option string) (limit : nat) (scope : option string) (text : string).
Inductive MemoryCommandError : Type :=
  InvalidConfidence | InvalidProject | MemoryStoreFailure (error : MemoryStoreError).
Inductive MemoryAnswer : Type :=
| Found (entries : list CompactMemory) (truncated : bool)
| Explained (entry : option MemoryEntry)
| Removed (id : MemoryId) (state : string).

Definition parse_confidence (value : string) : result MemoryCommandError ConfidenceClass :=
  if decide (value = "inferred") then Ok Inferred
  else if decide (value = "user_asserted") then Ok UserAsserted
  else if decide (value = "verified") then Ok Verified
  else Err InvalidConfidence.

Section service.
Context `{Sha256, UuidText, Rfc3339, Persist MemoryEntry, FullTextSearch, ToJson CompactMemory}.

Definition memory_call {A} (m : Statement A) : method MemoryTables MemoryCommandError A := λ t,
  match m t with (t', Ok a) => (t', Ok a) | (t', Err e) => (t', Err (MemoryStoreFailure e)) end.

(** The search that an operation asks for. *)
Definition asked (project : ProjectId) (confidence : option ConfidenceClass) (limit : nat) (scope : option string)
    (text : string) : MemorySearch :=
  {| search_confidence := confidence; search_from := None; include_inactive := false;
     search_limit := S (Nat.max 1 (Nat.min 100 limit)); search_project := project; search_scope := scope;
     search_text := text; search_to := None |}.
(** [execute] on a database at a schema version. *)
Definition memory_execute (user_version : N) (project_key : string) (operation : MemoryOperation)
    : method MemoryTables MemoryCommandError MemoryAnswer :=
  _ ← m_lift (reject_if (is_blank project_key) InvalidProject);
  let project := from_stable_key project_key in
  _ ← m_lift (map_err MemoryStoreFailure (memory_store_open user_version));
  match operation with
  | MemSearch confidence limit scope text =>
      confidence ← m_lift (match confidence with
        | Some value => c ← parse_confidence value; Ok (Some c)
        | None => Ok None
        end);
      let item_limit := Nat.max 1 (Nat.min 100 limit) in
      t ← m_get;
      entries ← m_lift (map_err MemoryStoreFailure (memory_search (asked project confidence limit scope text) t));
      mret (Found (compact entries {| max_bytes := 32 * 1024; max_items := item_limit |})
              (item_limit <? length entries))
  | MemExplain id =>
      t ← m_get;
      entry ← m_lift (map_err MemoryStoreFailure (memory_get project id t));
      mret (Explained entry)
  | MemRemove id =>
      _ ← memory_call (memory_store_revoke project id);
      mret (Removed id "revoked")
  end.
End service.

(** [qualify] of memory_policy.rs, with the identifier it takes. *)
Record AutomaticMemoryCandidate : Type := {
  auto_actor : string; auto_candidate : CandidateId; auto_detail : string; auto_evidence : gset EvidenceId;
  auto_kind : MemoryKind; auto_project : ProjectId; auto_revision : option string; auto_scope : gset string;
  auto_sources : gset EventId; auto_summary : string; auto_title : string; verified_at : WorkflowTimestamp;
}.
Definition qualify (id : MemoryId) (c : AutomaticMemoryCandidate) : result MemoryError MemoryEntry :=
  let entry :=
    {| actor := auto_actor c; confidence := Verified; created_at := verified_at c; detail := auto_detail c;
       memory_id := id; kind := auto_kind c; project_id := auto_project c;
       provenance := {| provenance_candidate := Some (auto_candidate c); evidence_ids := auto_evidence c;
                        revision := auto_revision c; source_event_ids := auto_sources c |};
       scope := auto_scope c; state := Current; summary := auto_summary c; superseded_by := None;
       title := auto_title c |} in
  _ ← memory_validate entry;
  Ok entry.

(** * What the store promises *)

(** The memory as its callers know it: an entry for each identifier. *)
Abbreviation World := (gmap MemoryId MemoryEntry).

(** The calls of any connections, in the order in which SQLite serialises their
    statements. A revocation is a read and a write of what was read; [CallEvent] is
    another part of the daemon that records an event. *)
Inductive MemoryCall : Type :=
| CallInsert (e : MemoryEntry)
| CallSupersede (project : ProjectId) (current : MemoryId) (replacement : MemoryEntry)
| CallRead (project : ProjectId) (id : MemoryId)
| CallWrite (project : ProjectId) (id : MemoryId) (read : MemoryEntry)
| CallEvent (event : EventId).

(** The specification of a call that succeeds. *)
Definition memory_spec (w : World) (c : MemoryCall) : World :=
  match c with
  | CallInsert e => <[memory_id e := e]> w
  | CallSupersede _ current replacement =>
      alter (with_state Superseded (Some (memory_id replacement))) current (<[memory_id replacement := replacement]> w)
  | CallWrite _ id _ => alter memory_revoke id w
  | CallRead _ _ | CallEvent _ => w
  end.

Record Shared : Type := { tables : MemoryTables; pending : list (ProjectId * MemoryId * MemoryEntry) }.

Section runs.
Context `{UuidText, Rfc3339, Persist MemoryEntry}.

Definition memory_step (s : Shared) (c : MemoryCall) : Shared * result MemoryStoreError unit :=
  let run (m : Statement unit) :=
    let '(t, r) := m (tables s) in ({| tables := t; pending := pending s |}, r) in
  match c with
  | CallInsert e => run (memory_insert e)
  | CallSupersede project current replacement => run (memory_store_supersede project current replacement)
  | CallRead project id =>
      match revoke_read project id (tables s) with
      | Ok e => ({| tables := tables s; pending := (project, id, e) :: pending s |}, Ok tt)
      | Err e => (s, Err e)
      end
  | CallWrite project id read =>
      if decide ((project, id, read) ∈ pending s) then run (revoke_write project id read) else (s, Err NotFound)
  | CallEvent event =>
      ({| tables := {| memory_entries := memory_entries (tables s); memory_scopes := memory_scopes (tables s);
                       memory_sources := memory_sources (tables s); memory_fts := memory_fts (tables s);
                       ledger_events := ledger_events (tables s) ∪ {[event]} |};
          pending := pending s |}, Ok tt)
  end.
Definition memory_run (s : Shared) (calls : list MemoryCall) : Shared :=
  foldl (λ s c, (memory_step s c).1) s calls.
(** The calls of a run that succeed. *)
Fixpoint accepted (s : Shared) (calls : list MemoryCall) : list MemoryCall :=
  match calls with
  | [] => []
  | c :: calls =>
      let '(s', r) := memory_step s c in
      if is_ok r then c :: accepted s' calls else accepted s' calls
  end.
Definition no_memory (events : gset EventId) : Shared :=
  {| tables := {| memory_entries := ∅; memory_scopes := ∅; memory_sources := ∅; memory_fts := [];
                  ledger_events := events |};
     pending := [] |}.

(** The tables hold a memory: the row of each entry, its scopes, its sources, which
    are in the ledger, and its words. *)
Record represents (w : World) (t : MemoryTables) : Prop := {
  rp_row id e : w !! id = Some e → memory_id e = id ∧ memory_validate e = Ok tt ∧
    ∃ time json, memory_entries t !! id = Some (memory_row e time json) ∧ json_decode json = Some e ∧
      timestamp_to_string (created_at e) = Some time;
  rp_none id : w !! id = None → memory_entries t !! id = None;
  rp_scope id s : (id, s) ∈ memory_scopes t ↔ ∃ e, w !! id = Some e ∧ s ∈ scope e;
  rp_source id event : (id, event) ∈ memory_sources t ↔
    ∃ e, w !! id = Some e ∧ event ∈ source_event_ids (provenance e);
  rp_ledger id event : (id, event) ∈ memory_sources t → event ∈ ledger_events t;
  rp_words f : f ∈ memory_fts t ↔ ∃ e, w !! fts_id f = Some e ∧ f = fts_row e;
  rp_once : NoDup (fts_id <$> memory_fts t);
}.

Lemma no_memory_represents events : represents ∅ (tables (no_memory events)).
Proof. split; simpl; try set_solver; try constructor; set_solver. Qed.

Lemma validate_with_state s next e :
  memory_validate e = Ok tt → (s = Superseded ↔ is_Some next) → memory_validate (with_state s next e) = Ok tt.
Proof.
  unfold memory_validate. cbn [with_state actor title summary detail scope provenance confidence kind state superseded_by].
  rewrite !result_then_ok, !reject_if_ok. intros (?&?&?&?&?&?&_&?) Hs. split_and!; try done.
  apply negb_false_iff, eqb_true_iff. by apply bool_decide_ext.
Qed.

Lemma memory_constraint_ok b t t' u : memory_constraint b t = (t', Ok u) → t' = t ∧ b = true.
Proof. intros [-> Hb%reject_if_ok%negb_false_iff]%m_lift_ok. done. Qed.

(** The statements of an insertion. *)
Lemma insert_row_ok e t t' : insert_row e t = (t', Ok tt) →
  ∃ time json, timestamp_to_string (created_at e) = Some time ∧ json_encode e = Some json ∧
    memory_entries t !! memory_id e = None ∧
    t' = set_entries (<[memory_id e := memory_row e time json]> (memory_entries t)) t.
Proof.
  unfold insert_row. intros (t1&time&[-> Htime%ok_or_ok]%m_lift_ok&Hr)%method_bind_ok.
  apply method_bind_ok in Hr as (t1&json&[-> Hjson%ok_or_ok]%m_lift_ok&Hr).
  apply method_bind_ok in Hr as (t1&t2&[-> ->]%m_get_ok&Hr).
  apply method_bind_ok in Hr as (t1&[]&[-> Hnew]%memory_constraint_ok&Hr).
  apply method_bind_ok in Hr as (t1&[]&[-> _]%memory_constraint_ok&Hr). apply m_modify_ok in Hr as ->.
  to_prop. by exists time, json.
Qed.

Lemma insert_scopes_ok id l t t' : m_for_each (insert_scope id) l t = (t', Ok tt) →
  memory_entries t' = memory_entries t ∧ memory_sources t' = memory_sources t ∧ memory_fts t' = memory_fts t ∧
  ledger_events t' = ledger_events t ∧
  ∀ row, row ∈ memory_scopes t' ↔ row ∈ memory_scopes t ∨ row.1 = id ∧ row.2 ∈ l.
Proof.
  revert t. induction l as [|s l IH]; intros t; cbn [m_for_each].
  { intros [-> _]%method_ret_ok. split_and!; [done..|]. set_solver. }
  intros (t1&[]&Hs&Hl)%method_bind_ok. apply method_bind_ok in Hs as (t2&t3&[-> ->]%m_get_ok&Hs).
  apply method_bind_ok in Hs as (t2&[]&[-> _]%memory_constraint_ok&Hs). apply m_modify_ok in Hs as ->.
  apply IH in Hl as (?&?&?&?&Hrows). split_and!; [done..|]. intros [i s']. rewrite Hrows. simpl. set_solver.
Qed.
Lemma insert_sources_ok id l t t' : m_for_each (insert_source id) l t = (t', Ok tt) →
  memory_entries t' = memory_entries t ∧ memory_scopes t' = memory_scopes t ∧ memory_fts t' = memory_fts t ∧
  ledger_events t' = ledger_events t ∧ (∀ event, event ∈ l → event ∈ ledger_events t) ∧
  ∀ row, row ∈ memory_sources t' ↔ row ∈ memory_sources t ∨ row.1 = id ∧ row.2 ∈ l.
Proof.
  revert t. induction l as [|s l IH]; intros t; cbn [m_for_each].
  { intros [-> _]%method_ret_ok. split_and!; [done..|set_solver|set_solver]. }
  intros (t1&[]&Hs&Hl)%method_bind_ok. apply method_bind_ok in Hs as (t2&t3&[-> ->]%m_get_ok&Hs).
  apply method_bind_ok in Hs as (t2&[]&[-> Hev]%memory_constraint_ok&Hs). apply m_modify_ok in Hs as ->. to_prop.
  apply IH in Hl as (?&?&?&?&Hled&Hrows). simpl in Hled. split_and!; [done..|set_solver|].
  intros [i s']. rewrite Hrows. simpl. set_solver.
Qed.

Lemma insert_memory_ok w t t' e : json_faithful MemoryEntry → represents w t → memory_validate e = Ok tt →
  insert_memory e t = (t', Ok tt) → w !! memory_id e = None ∧ represents (<[memory_id e := e]> w) t'.
Proof.
  intros Hjson Hw He. unfold insert_memory. intros (t1&[]&Hrow&Hi)%method_bind_ok.
  apply insert_row_ok in Hrow as (time&json&Htime&Henc&Hnew&->).
  apply method_bind_ok in Hi as (t1&[]&->%m_modify_ok&Hi).
  apply method_bind_ok in Hi as (t1&[]&Hscopes&Hsources).
  apply insert_scopes_ok in Hscopes as (He1&Hs1&Hf1&Hl1&Hsc).
  apply insert_sources_ok in Hsources as (He2&Hs2&Hf2&Hl2&Hled&Hso). simpl in *.
  setoid_rewrite elem_of_bset_iter in Hsc. setoid_rewrite elem_of_bset_iter in Hled.
  setoid_rewrite elem_of_bset_iter in Hso.
  assert (w !! memory_id e = None) as Hfresh.
  { destruct (w !! memory_id e) as [e'|] eqn:Hw'; [|done].
    destruct (rp_row _ _ Hw _ _ Hw') as (_&_&time'&json'&Hrow&_). congruence. }
  split; [done|]. split.
  - intros id e'. rewrite lookup_insert_Some. intros [[<- <-]|[Hne Hw']].
    + split; [done|]. split; [done|]. exists time, json.
      rewrite He2, He1, lookup_insert_eq. split; [done|]. split; [by apply Hjson|done].
    + destruct (rp_row _ _ Hw _ _ Hw') as (?&?&time'&json'&Hrow&?). split; [done|]. split; [done|].
      exists time', json'. by rewrite He2, He1, lookup_insert_ne.
  - intros id [Hw' Hne]%lookup_insert_None. rewrite He2, He1, lookup_insert_ne by done. by apply (rp_none _ _ Hw).
  - intros id s. rewrite Hs2, Hsc, (rp_scope _ _ Hw). simpl. setoid_rewrite lookup_insert_Some.
    destruct (decide (memory_id e = id)) as [<-|]; naive_solver.
  - intros id event. rewrite Hso, Hs1, (rp_source _ _ Hw). simpl. setoid_rewrite lookup_insert_Some.
    destruct (decide (memory_id e = id)) as [<-|]; naive_solver.
  - intros id event. rewrite Hso, Hs1, Hl2, Hl1. intros [Hin|[_ Hin]]; [by eapply rp_ledger|].
    rewrite <-Hl1. by apply Hled.
  - intros f. rewrite Hf2, Hf1, elem_of_app, list_elem_of_singleton, (rp_words _ _ Hw).
    setoid_rewrite lookup_insert_Some. split.
    + intros [(e'&Hw'&->)| ->]; [|exists e; auto]. exists e'. split; [right|done]. split; [|done].
      intros Heq. simpl in *. congruence.
    + intros (e'&[[_ <-]|[_ ?]]&->); [by right|left; by exists e'].
  - rewrite Hf2, Hf1, fmap_app. apply NoDup_app. split; [apply (rp_once _ _ Hw)|]. split; [|apply NoDup_singleton].
    intros id (f&->&(e'&Hw'&->)%(rp_words _ _ Hw))%list_elem_of_fmap. simpl in *.
    intros Heq%list_elem_of_singleton. congruence.
Qed.

(** The change of the state of an entry. *)
Lemma project_row_some w t project id row : represents w t → project_row project id t = Some row →
  ∃ e time json, w !! id = Some e ∧ project_id e = project ∧ row = memory_row e time json ∧ json_decode json = Some e.
Proof.
  intros Hw (r&Hr&Hp)%bind_Some. case_decide as Hproject; simplify_eq.
  destruct (w !! id) as [e|] eqn:He; [|by rewrite (rp_none _ _ Hw _ He) in Hr].
  destruct (rp_row _ _ Hw _ _ He) as (_&_&time&json&Hrow&Hdec&_). rewrite Hrow in Hr. injection Hr as <-.
  by exists e, time, json.
Qed.
Lemma project_row_present w t id e : represents w t → w !! id = Some e → is_Some (project_row (project_id e) id t).
Proof.
  intros Hw He. destruct (rp_row _ _ Hw _ _ He) as (_&_&time&json&Hrow&_). unfold project_row. rewrite Hrow. simpl.
  rewrite decide_True by done. by eexists.
Qed.

Lemma update_entry_ok w t t' id e s next json : json_faithful MemoryEntry → represents w t →
  w !! id = Some e → (s = Superseded ↔ is_Some next) → json_encode (with_state s next e) = Some json →
  update_entry (project_id e) id s next json t = (t', Ok tt) → represents (<[id := with_state s next e]> w) t'.
Proof.
  intros Hjson Hw He Hs Henc. unfold update_entry. intros (t1&t2&[-> ->]%m_get_ok&Hu)%method_bind_ok.
  destruct (project_row_present _ _ _ _ Hw He) as [row Hrow]. rewrite Hrow in Hu.
  apply method_bind_ok in Hu as (t1&[]&[-> _]%memory_constraint_ok&->%m_modify_ok).
  destruct (rp_row _ _ Hw _ _ He) as (Hid&Hvalid&time&json0&Hentry&Hdec&Htime).
  assert (row = memory_row e time json0) as ->.
  { unfold project_row in Hrow. rewrite Hentry in Hrow. simpl in Hrow. rewrite decide_True in Hrow by done. congruence. }
  split; simpl.
  - intros i e'. rewrite !lookup_insert_Some. intros [[<- <-]|[Hne Hw']].
    + split; [done|]. split; [by apply validate_with_state|]. exists time, json.
      rewrite lookup_insert_eq. split; [done|]. split; [by apply Hjson|done].
    + destruct (rp_row _ _ Hw _ _ Hw') as (?&?&time'&json'&?&?). split; [done|]. split; [done|].
      exists time', json'. by rewrite lookup_insert_ne.
  - intros i [Hw' Hne]%lookup_insert_None. rewrite lookup_insert_ne by done. by apply (rp_none _ _ Hw).
  - intros i s'. rewrite (rp_scope _ _ Hw). setoid_rewrite lookup_insert_Some.
    destruct (decide (id = i)) as [<-|]; [|naive_solver]. rewrite He. naive_solver.
  - intros i ev. rewrite (rp_source _ _ Hw). setoid_rewrite lookup_insert_Some.
    destruct (decide (id = i)) as [<-|]; [|naive_solver]. rewrite He. naive_solver.
  - apply (rp_ledger _ _ Hw).
  - intros f. rewrite (rp_words _ _ Hw). setoid_rewrite lookup_insert_Some.
    destruct (decide (id = fts_id f)) as [->|]; [|naive_solver]. rewrite He. naive_solver.
  - apply (rp_once _ _ Hw).
Qed.

(** Entries stay, and change in their state only. *)
Definition evolves (w w' : World) : Prop :=
  ∀ id e, w !! id = Some e → ∃ e', w' !! id = Some e' ∧ project_id e' = project_id e ∧ memory_revoke e' = memory_revoke e.

(** The shared tables hold a memory, and what waits to be written back was read of
    it. *)
Record holds (w : World) (s : Shared) : Prop := {
  hl_tables : represents w (tables s);
  hl_pending project id read : (project, id, read) ∈ pending s →
    ∃ e, w !! id = Some e ∧ project_id e = project ∧ memory_revoke read = memory_revoke e;
}.

Lemma evolves_refl w : evolves w w.
Proof. intros id e He. by exists e. Qed.
Lemma evolves_insert w e : w !! memory_id e = None → evolves w (<[memory_id e := e]> w).
Proof. intros Hnew id e' He'. exists e'. by rewrite lookup_insert_ne by congruence. Qed.
Lemma evolves_state w s next id : evolves w (alter (with_state s next) id w).
Proof.
  intros i e He. destruct (decide (id = i)) as [<-|].
  - exists (with_state s next e). by rewrite lookup_alter_eq, He.
  - exists e. by rewrite lookup_alter_ne.
Qed.
Lemma evolves_trans w1 w2 w3 : evolves w1 w2 → evolves w2 w3 → evolves w1 w3.
Proof. intros H12 H23 id e (e2&(e3&?&?&?)%H23&?&?)%H12. exists e3. split_and!; congruence. Qed.

Lemma holds_evolves w w' s t : holds w s → evolves w w' → represents w' t →
  holds w' {| tables := t; pending := pending s |}.
Proof.
  intros [_ Hp] Hev Ht. split; [done|]. simpl. intros project id read (e&(e'&?&?&?)%Hev&?&?)%Hp.
  exists e'. split_and!; congruence.
Qed.

Lemma memory_alter_some (f : MemoryEntry → MemoryEntry) (w : World) id e : w !! id = Some e → alter f id w = <[id := f e]> w.
Proof.
  intros He. apply map_eq. intros i. destruct (decide (id = i)) as [<-|].
  - by rewrite lookup_alter_eq, lookup_insert_eq, He.
  - by rewrite lookup_alter_ne, lookup_insert_ne.
Qed.

Lemma memory_transaction_ok {A} (m : Statement A) t t' a : memory_transaction m t = (t', Ok a) → m t = (t', Ok a).
Proof. unfold memory_transaction. by destruct (m t) as [? []]. Qed.
Lemma memory_transaction_err {A} (m : Statement A) t t' e : memory_transaction m t = (t', Err e) → t' = t.
Proof. unfold memory_transaction. destruct (m t) as [? []]; [done|]. by intros [= -> _]. Qed.
Lemma checked_memory_err {A} (r : result MemoryError unit) (m : Statement A) t t' e :
  (_ ← m_lift (map_err MemoryDomain r); memory_transaction m) t = (t', Err e) → t' = t.
Proof.
  intros [[-> _]%pair_equal_spec|(t1&u&[-> _]%m_lift_ok&Ht%memory_transaction_err)]%method_bind_err; done.
Qed.

Lemma insert_refines w s e t : json_faithful MemoryEntry → holds w s → memory_insert e (tables s) = (t, Ok tt) →
  w !! memory_id e = None ∧ holds (<[memory_id e := e]> w) {| tables := t; pending := pending s |}.
Proof.
  intros Hjson Hw Hi. unfold memory_insert in Hi.
  apply method_bind_ok in Hi as (t1&[]&[-> Hv%map_err_ok]%m_lift_ok&Hi%memory_transaction_ok).
  destruct (insert_memory_ok w _ _ e Hjson (hl_tables _ _ Hw) Hv Hi) as [Hnew Ht].
  split; [done|]. eapply holds_evolves; [done|by apply evolves_insert|done].
Qed.

Lemma supersede_refines w s project current r t : json_faithful MemoryEntry → holds w s →
  memory_store_supersede project current r (tables s) = (t, Ok tt) →
  w !! memory_id r = None ∧ (∃ e, w !! current = Some e ∧ project_id e = project) ∧
  holds (memory_spec w (CallSupersede project current r)) {| tables := t; pending := pending s |}.
Proof.
  intros Hjson Hw Hs. unfold memory_store_supersede in Hs.
  apply method_bind_ok in Hs as (t1&[]&[-> Hv%map_err_ok]%m_lift_ok&Hs%memory_transaction_ok).
  apply method_bind_ok in Hs as (t1&t2&[-> ->]%m_get_ok&Hs).
  apply method_bind_ok in Hs as (t1&row&[-> Hrow%ok_or_ok]%m_lift_ok&Hs).
  destruct (project_row_some _ _ _ _ _ (hl_tables _ _ Hw) Hrow) as (e&time&json&He&<-&->&Hdec). simpl in Hs.
  apply method_bind_ok in Hs as (t1&e'&[-> He'%ok_or_ok]%m_lift_ok&Hs). rewrite Hdec in He'. injection He' as <-.
  apply method_bind_ok in Hs as (t1&se&[-> Hse%map_err_ok]%m_lift_ok&Hs).
  unfold memory_supersede in Hse. apply result_then_ok in Hse as [_ [_ [= <-]]%result_then_ok].
  apply method_bind_ok in Hs as (t1&[]&Hins&Hs).
  destruct (insert_memory_ok w _ _ r Hjson (hl_tables _ _ Hw) Hv Hins) as [Hnew Ht1].
  apply method_bind_ok in Hs as (t2&json'&[-> Henc%ok_or_ok]%m_lift_ok&Hs).
  assert (current ≠ memory_id r) as Hne by congruence.
  split; [done|]. split; [by exists e|].
  pose proof (evolves_trans _ _ _ (evolves_insert w r Hnew)
    (evolves_state (<[memory_id r := r]> w) Superseded (Some (memory_id r)) current)) as Hev.
  eapply holds_evolves; [done|exact Hev|]. simpl. rewrite (memory_alter_some _ _ _ e) by (by rewrite lookup_insert_ne).
  eapply update_entry_ok; [done|exact Ht1|by rewrite lookup_insert_ne|by split|exact Henc|exact Hs].
Qed.

Lemma revoke_read_ok w t project id e : represents w t → revoke_read project id t = Ok e →
  w !! id = Some e ∧ project_id e = project.
Proof.
  intros Hw (found&Hfound&Hsome%ok_or_ok)%result_bind_ok. unfold memory_get in Hfound.
  destruct (project_row project id t) as [row|] eqn:Hrow; [|congruence].
  destruct (project_row_some _ _ _ _ _ Hw Hrow) as (e'&time&json&He&Hp&->&Hdec). simpl in Hfound.
  unfold decode_entry in Hfound. rewrite Hdec in Hfound. simpl in Hfound. by simplify_eq.
Qed.

Lemma write_refines w s project id read t : json_faithful MemoryEntry → holds w s → (project, id, read) ∈ pending s →
  revoke_write project id read (tables s) = (t, Ok tt) →
  holds (alter memory_revoke id w) {| tables := t; pending := pending s |}.
Proof.
  intros Hjson Hw Hin Hr. destruct (hl_pending _ _ Hw _ _ _ Hin) as (e&He&<-&Hsame).
  apply method_bind_ok in Hr as (t1&json&[-> Henc%ok_or_ok]%m_lift_ok&Hr). rewrite Hsame in Henc.
  eapply holds_evolves; [done|apply (evolves_state w Revoked None)|]. rewrite (memory_alter_some _ _ _ e) by done.
  eapply update_entry_ok; [done|apply (hl_tables _ _ Hw)|done|split; [done|by intros []]|exact Henc|exact Hr].
Qed.
Lemma write_err project id read t t' e : revoke_write project id read t = (t', Err e) → t' = t.
Proof.
  intros [[-> _]%pair_equal_spec|(t1&json&[-> _]%m_lift_ok&Hu)]%method_bind_err; [done|].
  revert Hu. unfold update_entry, memory_constraint. run_method. case_match; by intros [= -> _].
Qed.

(** A call does what the specification says, or nothing. *)
Lemma memory_step_ok w s c s' r : json_faithful MemoryEntry → holds w s → memory_step s c = (s', r) →
  holds (if is_ok r then memory_spec w c else w) s' ∧
  match r, c with
  | Ok _, CallInsert e | Ok _, CallSupersede _ _ e => w !! memory_id e = None
  | _, _ => True
  end.
Proof.
  intros Hjson Hw. destruct s as [t p]. unfold memory_step. cbn [tables pending].
  destruct c as [e|project current e|project id|project id read|event].
  - destruct (memory_insert e t) as [t' [[]|er]] eqn:Hi; intros [= <- <-].
    + destruct (insert_refines _ _ _ _ Hjson Hw Hi). done.
    + unfold memory_insert in Hi. apply checked_memory_err in Hi as ->. done.
  - destruct (memory_store_supersede project current e t) as [t' [[]|er]] eqn:Hi; intros [= <- <-].
    + destruct (supersede_refines _ _ _ _ _ _ Hjson Hw Hi) as (?&_&?). done.
    + unfold memory_store_supersede in Hi. apply checked_memory_err in Hi as ->. done.
  - destruct (revoke_read project id t) as [e|er] eqn:Hr; intros [= <- <-]; [|done].
    split; [|done]. split; [apply (hl_tables _ _ Hw)|]. simpl.
    destruct (revoke_read_ok _ _ _ _ _ (hl_tables _ _ Hw) Hr) as [He Hp].
    intros project' id' read [[= -> -> ->]|Hin]%elem_of_cons; [by exists e|by apply (hl_pending _ _ Hw)].
  - case_decide as Hin; [|by intros [= <- <-]].
    destruct (revoke_write project id read t) as [t' [[]|er]] eqn:Hi; intros [= <- <-].
    + split; [|done]. by eapply (write_refines w {| tables := t; pending := p |}).
    + by apply write_err in Hi as ->.
  - intros [= <- <-]. split; [|done]. destruct Hw as [[] Hp]. split; [|done]. simpl in *.
    split; try done. intros. apply elem_of_union. left. eauto.
Qed.

Lemma memory_run_ok w s calls : json_faithful MemoryEntry → holds w s →
  holds (foldl memory_spec w (accepted s calls)) (memory_run s calls).
Proof.
  intros Hjson. revert w s. induction calls as [|c calls IH]; intros w s Hw; [done|].
  cbn [accepted memory_run foldl]. destruct (memory_step s c) as [s' r] eqn:Hs.
  destruct (memory_step_ok _ _ _ _ _ Hjson Hw Hs) as [Hw' _]. simpl.
  destruct r as [[]|e]; simpl in *; by apply IH.
Qed.

Lemma no_memory_holds events : holds ∅ (no_memory events).
Proof. split; [apply no_memory_represents|]. intros ??? Hin. by apply elem_of_nil in Hin. Qed.

(** C27. The memory refines its specification: after any sequence of insertions,
    supersessions, and revocations whose reads and writes interleave with other
    connections, the tables hold the map that the accepted calls give when each is
    done at once: a row, the scopes, the sources (all events of the ledger) and one
    line of the full-text index for every entry, and nothing else. *)
Theorem memory_refines_its_specification events calls :
  json_faithful MemoryEntry →
  represents (foldl memory_spec ∅ (accepted (no_memory events) calls)) (tables (memory_run (no_memory events) calls)).
Proof. intros Hjson. apply (memory_run_ok ∅); [done|apply no_memory_holds]. Qed.

(** * What a search finds *)

(** The entries a search asks for, in the terms of the specification; [from] and
    [to] are the texts of its instants. *)
Definition wanted (q : MemorySearch) (from to : option string) (e : MemoryEntry) : Prop :=
  project_id e = search_project q ∧ (include_inactive q = true ∨ state e = Current) ∧
  (∀ c, search_confidence q = Some c → confidence e = c) ∧
  (∀ a, from = Some a → ∃ b, timestamp_to_string (created_at e) = Some b ∧ String.le a b) ∧
  (∀ b, to = Some b → ∃ a, timestamp_to_string (created_at e) = Some a ∧ String.le a b) ∧
  (∀ s, search_scope q = Some s → s ∈ scope e).

#[export] Instance hit_before_total : Total hit_before.
Proof.
  intros a b. unfold hit_before.
  destruct (decide (hit_rank a = hit_rank b)) as [Hr|Hr]; [rewrite (decide_True _ _ (eq_sym Hr))|
    rewrite (decide_False (P := hit_rank b = hit_rank a)) by congruence; lia].
  destruct (decide (row_created (hit_row a) = row_created (hit_row b))) as [Hc|Hc];
    [rewrite (decide_True _ _ (eq_sym Hc))|rewrite (decide_False (P := row_created (hit_row b) = _)) by congruence];
    exact (total (key_le (K := string)) _ _).
Qed.
#[export] Instance hit_before_trans : Transitive hit_before.
Proof.
  intros a b c. unfold hit_before. intros Hab Hbc.
  destruct (decide (hit_rank a = hit_rank b)) as [Hr|Hr], (decide (hit_rank b = hit_rank c)) as [Hr'|Hr'].
  2-4: rewrite decide_False by lia; lia.
  rewrite decide_True by congruence.
  destruct (decide (row_created (hit_row a) = row_created (hit_row b))) as [Hc|Hc],
    (decide (row_created (hit_row b) = row_created (hit_row c))) as [Hc'|Hc'].
  - rewrite decide_True by congruence. by etrans.
  - rewrite decide_False by congruence. congruence.
  - rewrite decide_False by congruence. congruence.
  - rewrite decide_False; [by etrans|]. intros Heq. apply Hc. rewrite <-Heq in Hbc. exact (anti_symm (key_le (K := string)) _ _ Hbc Hab).
Qed.

(** A hit is a row of an entry. *)
Definition hit_of (w : World) (h : Hit) (e : MemoryEntry) : Prop :=
  w !! hit_id h = Some e ∧ memory_id e = hit_id h ∧
  ∃ time json, hit_row h = memory_row e time json ∧ json_decode json = Some e ∧
    timestamp_to_string (created_at e) = Some time.

Lemma entry_hit w t id row r : represents w t → memory_entries t !! id = Some row →
  ∃ e, hit_of w {| hit_rank := r; hit_id := id; hit_row := row |} e.
Proof.
  intros Hw Hrow. destruct (w !! id) as [e|] eqn:He; [|by rewrite (rp_none _ _ Hw _ He) in Hrow].
  destruct (rp_row _ _ Hw _ _ He) as (Hid&_&time&json&Hrow'&?&?). rewrite Hrow' in Hrow. injection Hrow as <-.
  exists e. split; [done|]. split; [done|]. by exists time, json.
Qed.

Lemma hits_ok `{FullTextSearch} w t terms l : represents w t → hits terms t = Some l →
  (∀ h, h ∈ l → ∃ e, hit_of w h e) ∧ NoDup (hit_id <$> l) ∧
  (terms = "" → ∀ id e, w !! id = Some e → ∃ h, h ∈ l ∧ hit_id h = id ∧ hit_rank h = 0%Z) ∧
  (terms = "" → ∀ h, h ∈ l → hit_rank h = 0%Z).
Proof.
  intros Hw. unfold hits. case_decide as Hterms.
  - intros [= <-]. split_and!.
    + intros h ([id row]&->&Hrow%elem_of_map_to_list)%list_elem_of_fmap. by eapply entry_hit.
    + rewrite <-list_fmap_compose. apply NoDup_fst_map_to_list.
    + intros _ id e He. destruct (rp_row _ _ Hw _ _ He) as (_&_&time&json&Hrow&_).
      eexists. split; [apply list_elem_of_fmap; exists (id, memory_row e time json); split; [done|]|done].
      by apply elem_of_map_to_list.
    + by intros _ h ([id row]&->&_)%list_elem_of_fmap.
  - intros (rank&_&[= <-])%bind_Some. split_and!; [| |done..].
    + intros h (f&_&(r&_&(row&Hrow&[= <-])%bind_Some)%bind_Some)%list_elem_of_omap. by eapply entry_hit.
    + pose proof (rp_once _ _ Hw) as Honce. induction (memory_fts t) as [|f fs IH]; [constructor|].
      apply NoDup_cons in Honce as [Hf Honce]. simpl.
      destruct (rank f) as [r|]; [|by apply IH]. simpl.
      destruct (memory_entries t !! fts_id f) as [row|]; [|by apply IH]. simpl. apply NoDup_cons.
      split; [|by apply IH].
      intros (h&Hid&(f'&Hf'&(r'&_&(row'&_&[= <-])%bind_Some)%bind_Some)%list_elem_of_omap)%list_elem_of_fmap.
      simpl in Hid. destruct Hf. rewrite Hid. by apply list_elem_of_fmap_2.
Qed.

#[export] Instance confidence_name_inj : Inj (=) (=) confidence_name.
Proof. by intros [] []. Qed.

Lemma option_condition {A} (o : option A) (f : A → bool) :
  Is_true (match o with Some x => f x | None => true end) ↔ ∀ x, o = Some x → Is_true (f x).
Proof. destruct o; naive_solver. Qed.

Lemma selects_wanted w t q from to h e : represents w t → hit_of w h e →
  Is_true (selects q from to t h) ↔ wanted q from to e.
Proof.
  intros Hw (He&Hid&time&json&Hrow&Hdec&Htime). unfold selects, wanted. rewrite Hrow, Htime.
  rewrite !andb_True, orb_True, !option_condition. cbn [memory_row row_project row_state row_confidence row_created].
  setoid_rewrite bool_decide_spec. setoid_rewrite (rp_scope _ _ Hw).
  assert (memory_state_name (state e) = "current" ↔ state e = Current) as -> by (destruct (state e); simpl; naive_solver).
  assert (∀ c, confidence_name (confidence e) = confidence_name c ↔ confidence e = c) as Hc
    by (intros c; split; [apply (inj confidence_name)|by intros ->]).
  setoid_rewrite Hc. rewrite Is_true_true. split.
  - intros (((((?&?)&?)&Hfrom)&Hto)&Hscope). split_and!; [done..| | |].
    + intros a Ha. exists time. split; [done|by apply Hfrom].
    + intros b Hb. exists time. split; [done|by apply Hto].
    + intros x Hx. destruct (Hscope x Hx) as (e'&He'&?). congruence.
  - intros (?&?&?&Hfrom&Hto&Hscope). split_and!; [done..| | |].
    + intros a Ha. destruct (Hfrom a Ha) as (b&[= ->]&?). done.
    + intros b Hb. destruct (Hto b Hb) as (a&[= ->]&?). done.
    + intros x Hx. exists e. split; [done|by apply Hscope].
Qed.

(** The newest first, in the order of the texts of their instants. *)
Definition newest_first (a b : MemoryEntry) : Prop :=
  ∃ ta tb, timestamp_to_string (created_at a) = Some ta ∧ timestamp_to_string (created_at b) = Some tb ∧
    String.le tb ta.

Lemma sorted_decoded (w : World) (rows : list Hit) found :
  Forall2 (λ h e, hit_of w h e) rows found → StronglySorted hit_before rows →
  (∀ h, h ∈ rows → hit_rank h = 0%Z) → StronglySorted newest_first found.
Proof.
  intros Hall. induction Hall as [|h e rows found Hhe Hall IH]; [constructor|].
  intros [Hsorted Hfirst]%StronglySorted_inv Hzero.
  constructor; [apply IH; [done|]; intros h' Hh'; apply Hzero; by right|].
  apply Forall_forall. intros e' He'. apply list_elem_of_lookup in He' as [i He'].
  destruct (Forall2_lookup_r _ _ _ _ _ Hall He') as (h'&Hh'&Hhe'). apply list_elem_of_lookup_2 in Hh'.
  rewrite Forall_forall in Hfirst. specialize (Hfirst _ Hh'). unfold hit_before in Hfirst.
  rewrite decide_True in Hfirst by (rewrite !Hzero; [done|by right|by left]).
  destruct Hhe as (_&_&time&json&Hrow&_&Ht), Hhe' as (_&_&time'&json'&Hrow'&_&Ht').
  exists time, time'. split; [done|]. split; [done|]. rewrite Hrow, Hrow' in Hfirst. simpl in Hfirst.
  case_decide as Heq; [by rewrite Heq|done].
Qed.

Lemma Forall2_impl_elem {A B} (P Q : A → B → Prop) (l : list A) (k : list B) :
  Forall2 P l k → (∀ x y, x ∈ l → P x y → Q x y) → Forall2 Q l k.
Proof.
  induction 1 as [|x y l k Hxy Hall IH]; intros HPQ; constructor; [apply HPQ; [left|done]|].
  apply IH. intros x' y' Hin. apply HPQ. by right.
Qed.

(** What a search gives. *)
Record search_result (w : World) (q : MemorySearch) (from to : option string) (found : list MemoryEntry) : Prop := {
  sr_found e : e ∈ found → w !! memory_id e = Some e ∧ wanted q from to e;
  sr_once : NoDup (memory_id <$> found);
  sr_limit : length found ≤ Nat.max 1 (Nat.min 1000 (search_limit q));
  sr_all id e : split_whitespace (search_text q) = [] → w !! id = Some e → wanted q from to e →
    length found < Nat.max 1 (Nat.min 1000 (search_limit q)) → e ∈ found;
  sr_order : split_whitespace (search_text q) = [] → StronglySorted newest_first found;
}.

Lemma memory_search_ok `{FullTextSearch} w t q found : represents w t → memory_search q t = Ok found →
  ∃ from to, instant_text (search_from q) = Ok from ∧ instant_text (search_to q) = Ok to ∧ search_result w q from to found.
Proof.
  intros Hw. unfold memory_search. intros (from&Hfrom&Hs)%result_bind_ok.
  apply result_bind_ok in Hs as (to&Hto&Hs). apply result_bind_ok in Hs as (l&Hl%ok_or_ok&Hs).
  exists from, to. split; [done|]. split; [done|].
  destruct (hits_ok _ _ _ _ Hw Hl) as (Hhits&Honce&Hall&Hzero).
  set (n := Nat.max 1 (Nat.min 1000 (search_limit q))) in *. set (chosen := filter _ l) in *.
  assert (Permutation (merge_sort hit_before chosen) chosen) as Hperm by apply merge_sort_Permutation.
  assert (∀ h, h ∈ take n (merge_sort hit_before chosen) → h ∈ l ∧ Is_true (selects q from to t h)) as Htaken.
  { intros h Hh%elem_of_take. destruct Hh as (i&Hh%list_elem_of_lookup_2&_). rewrite Hperm in Hh.
    by apply list_elem_of_filter in Hh as [??]. }
  assert (Forall2 (λ h e, hit_of w h e) (take n (merge_sort hit_before chosen)) found) as Hdecoded.
  { eapply Forall2_impl_elem; [exact (proj1 (try_map_ok _ _ _) Hs)|]. intros h e Hin Hdec%ok_or_ok.
    destruct (Hhits h (proj1 (Htaken h Hin))) as (e'&He'&Hid&time&json&Hrow&Hjson&?).
    rewrite Hrow in Hdec. simpl in Hdec. rewrite Hdec in Hjson. injection Hjson as ->.
    split; [done|]. split; [done|]. by exists time, json. }
  clear Hs. set (rows := take n _) in *.
  assert (∀ e, e ∈ found → ∃ h, h ∈ rows ∧ hit_of w h e) as Hfound.
  { intros e [i He]%list_elem_of_lookup. destruct (Forall2_lookup_r _ _ _ _ _ Hdecoded He) as (h&Hh&?).
    exists h. by apply list_elem_of_lookup_2 in Hh. }
  split; fold n.
  - intros e (h&Hh&Hhe)%Hfound. pose proof Hhe as (He&Hid&_). split; [by rewrite Hid|].
    by eapply selects_wanted, (proj2 (Htaken h Hh)).
  - assert (memory_id <$> found = hit_id <$> rows) as ->.
    { clear -Hdecoded. induction Hdecoded as [|h e rows found (_&Hid&_) _ IH]; [done|]. simpl. f_equal; [exact Hid|exact IH]. }
    eapply sublist_NoDup; [|apply fmap_sublist, sublist_take]. rewrite Hperm. by apply NoDup_fmap_filter.
  - rewrite <-(Forall2_length _ _ _ Hdecoded). unfold rows. rewrite length_take. lia.
  - intros id e Hwords He Hwanted Hlen.
    assert (fts_terms (search_text q) = "") as Hterms by (unfold fts_terms; by rewrite Hwords).
    destruct (Hall Hterms id e He) as (h&Hh&Hid&_). destruct (Hhits h Hh) as (e'&He').
    assert (e' = e) as -> by (destruct He' as (He'&_); congruence).
    assert (h ∈ rows) as Hin.
    { rewrite <-(Forall2_length _ _ _ Hdecoded) in Hlen. unfold rows in *. rewrite length_take in Hlen.
      rewrite take_ge by lia. rewrite Hperm. apply list_elem_of_filter. split; [by eapply selects_wanted|done]. }
    apply list_elem_of_lookup in Hin as [i Hi]. destruct (Forall2_lookup_l _ _ _ _ _ Hdecoded Hi) as (e'&Hi'&He'').
    assert (e' = e) as -> by (destruct He' as (?&_), He'' as (?&_); congruence). by eapply list_elem_of_lookup_2.
  - intros Hwords. assert (fts_terms (search_text q) = "") as Hterms by (unfold fts_terms; by rewrite Hwords).
    eapply sorted_decoded; [exact Hdecoded| |intros h Hh; by apply Hzero, Htaken].
    assert (StronglySorted hit_before (merge_sort hit_before chosen)) as Hsorted by (apply StronglySorted_merge_sort; apply _).
    rewrite <-(take_drop n) in Hsorted. by apply StronglySorted_app_1_l in Hsorted.
Qed.
End runs.

(** * What the daemon recalls *)

Section recall.
Context `{Sha256, UuidText, Rfc3339, Persist MemoryEntry, FullTextSearch, ToJson CompactMemory}.

(** The parts of a search by [execute]. *)
Lemma execute_search_ok version key asked_confidence limit s text t t' answers truncated :
  memory_execute version key (MemSearch asked_confidence limit s text) t = (t', Ok (Found answers truncated)) →
  t' = t ∧ ∃ c found, memory_search (asked (from_stable_key key) c limit s text) t = Ok found ∧
    asked_confidence = confidence_name <$> c ∧
    answers = compact found {| max_bytes := 32 * 1024; max_items := Nat.max 1 (Nat.min 100 limit) |} ∧
    truncated = (Nat.max 1 (Nat.min 100 limit) <? length found).
Proof.
  unfold memory_execute. intros (t1&u&[-> _]%m_lift_ok&Hr)%method_bind_ok.
  apply method_bind_ok in Hr as (t1&u'&[-> _]%m_lift_ok&Hr).
  apply method_bind_ok in Hr as (t1&c&[-> Hc]%m_lift_ok&Hr).
  apply method_bind_ok in Hr as (t1&t2&[-> ->]%m_get_ok&Hr).
  apply method_bind_ok in Hr as (t1&found&[-> Hfound%map_err_ok]%m_lift_ok&[-> [= -> ->]]%method_ret_ok).
  split; [done|]. exists c, found. split; [done|]. split; [|done].
  destruct asked_confidence as [value|]; [|by injection Hc as <-].
  apply result_bind_ok in Hc as (c'&Hc'&[= <-]). simpl. f_equal. revert Hc'. unfold parse_confidence.
  repeat case_decide; intros [= <-]; done.
Qed.

(** What [compact] takes is a beginning of what it is given, within its budget. *)
Lemma compact_ok found budget : (max_bytes budget < u64_max)%N →
  ∃ rest, compact_entry <$> take (max_items budget) found = compact found budget ++ rest ∧
    (foldr (λ c n, default u64_max (json_size c) + n) 0 (compact found budget) ≤ max_bytes budget)%N.
Proof.
  intros Hmax. unfold compact.
  pose proof (take_within_spec json_size (max_bytes budget) (compact_entry <$> take (max_items budget) found) 0
    ltac:(lia)) as Hspec.
  destruct (take_within _ _ _ _) as [taken total]. destruct Hspec as (rest&Hl&Hle&Htotal&_).
  exists rest. split; [done|]. simpl. lia.
Qed.

Lemma compact_found found budget c : c ∈ compact found budget → ∃ e, e ∈ found ∧ c = compact_entry e.
Proof.
  unfold compact. intros Hc.
  assert (∀ max bytes (l : list CompactMemory), (take_within json_size max bytes l).1 ⊆ l) as Hsub.
  { intros max bytes l. revert bytes. induction l as [|x l IH]; intros bytes; simpl; [done|].
    case_match; [set_solver|]. specialize (IH ((bytes + default u64_max (json_size x)) mod 2 ^ 64)%N).
    destruct (take_within _ _ _ l). simpl in *. set_solver. }
  apply Hsub in Hc. apply list_elem_of_fmap in Hc as (e&->&(i&He%list_elem_of_lookup_2&_)%elem_of_take). by exists e.
Qed.

(** An entry as the daemon may show it to a client that searches. *)
Definition recallable (project : ProjectId) (events : gset EventId) (e : MemoryEntry) : Prop :=
  project_id e = project ∧ state e = Current ∧ memory_validate e = Ok tt ∧
  source_event_ids (provenance e) ≠ ∅ ∧ source_event_ids (provenance e) ⊆ events ∧
  (confidence e = Verified → evidence_ids (provenance e) ≠ ∅) ∧
  Forall (λ value, contains_sensitive value = false) [actor e; title e; summary e; detail e].

Lemma validated_entry e : memory_validate e = Ok tt →
  source_event_ids (provenance e) ≠ ∅ ∧ (confidence e = Verified → evidence_ids (provenance e) ≠ ∅) ∧
  Forall (λ value, contains_sensitive value = false) [actor e; title e; summary e; detail e].
Proof.
  unfold memory_validate. rewrite !result_then_ok, !reject_if_ok.
  intros (_&_&_&Hsources&Hevidence&_&_&Hclean). to_prop. split; [done|]. split.
  - intros Hc. rewrite bool_decide_true in Hevidence by done. simpl in Hevidence. by to_prop.
  - rewrite existsb_app in *. to_prop. simpl in *. to_prop. by repeat constructor.
Qed.

(** C28. After any history of the memory, a search of the daemon changes nothing and
    gives, in the order found, the compact forms of distinct current entries of the
    project alone, each of which names events of the ledger, has evidence when it is
    called verified, and holds no sensitive text; they stay within the limits of
    items and bytes. A search without words that is not truncated finds every entry
    that it asks for, the newest first in the order of the texts of their times. *)
Theorem recalled_memory_is_sound events calls version key asked_confidence limit asked_scope text t' answers truncated :
  json_faithful MemoryEntry →
  let s := memory_run (no_memory events) calls in
  let w := foldl memory_spec ∅ (accepted (no_memory events) calls) in
  let n := Nat.max 1 (Nat.min 100 limit) in
  memory_execute version key (MemSearch asked_confidence limit asked_scope text) (tables s) =
    (t', Ok (Found answers truncated)) →
  t' = tables s ∧ ∃ found,
    (∀ e, e ∈ found → w !! memory_id e = Some e ∧ recallable (from_stable_key key) (ledger_events (tables s)) e ∧
       (∀ c, asked_confidence = Some c → confidence_name (confidence e) = c) ∧
       (∀ a, asked_scope = Some a → a ∈ scope e)) ∧
    NoDup (memory_id <$> found) ∧
    (∃ rest, compact_entry <$> take n found = answers ++ rest) ∧
    (foldr (λ c n, default u64_max (json_size c) + n) 0 answers ≤ 32 * 1024)%N ∧
    (truncated = true ↔ n < length found) ∧
    (split_whitespace text = [] → StronglySorted newest_first found ∧
       (truncated = false → ∀ id e, w !! id = Some e → project_id e = from_stable_key key → state e = Current →
          (∀ c, asked_confidence = Some c → confidence_name (confidence e) = c) →
          (∀ a, asked_scope = Some a → a ∈ scope e) → e ∈ found)).
Proof.
  intros Hjson s w n Hexecute. apply execute_search_ok in Hexecute as (->&c&found&Hfound&->&->&->).
  pose proof (memory_run_ok _ _ calls Hjson (no_memory_holds events)) as [Hw _].
  change (represents w (tables s)) in Hw.
  destruct (memory_search_ok _ _ _ _ Hw Hfound) as (from&to&[= <-]&[= <-]&[Hentries Honce Hlimit Hall Horder]).
  cbn [asked search_limit search_text] in *.
  split; [done|]. exists found. split_and!.
  - intros e He. destruct (Hentries e He) as (Hwe&Hp&[?|Hstate]&Hconfidence&_&_&Hscope); [done|].
    destruct (rp_row _ _ Hw _ _ Hwe) as (_&Hvalid&_). destruct (validated_entry _ Hvalid) as (?&?&?).
    split; [done|]. split; [|split; [|done]].
    + split_and!; try done. intros ev Hev. eapply (rp_ledger _ _ Hw (memory_id e)), (rp_source _ _ Hw). by exists e.
    + intros name (c'&Hc'&->)%fmap_Some. by rewrite (Hconfidence c' Hc').
  - done.
  - destruct (compact_ok found {| max_bytes := 32 * 1024; max_items := n |}) as (rest&?&_); [done|]. by exists rest.
  - by destruct (compact_ok found {| max_bytes := 32 * 1024; max_items := n |}) as (rest&_&?).
  - apply Nat.ltb_lt.
  - intros Hwords. split; [by apply Horder|]. intros Htrunc%Nat.ltb_ge id e Hwe Hp Hstate Hconfidence Hscope.
    apply (Hall id e Hwords Hwe); [|fold n in Htrunc; lia].
    split_and!; [done|by right| |done|done|done].
    intros c' Hc'. cbn [asked search_confidence] in Hc'. apply (inj confidence_name), Hconfidence. by rewrite Hc'.
Qed.

(** An entry that is not current never is again. *)
Lemma inactive_stays w s id e calls : json_faithful MemoryEntry → holds w s → w !! id = Some e → state e ≠ Current →
  ∃ e', foldl memory_spec w (accepted s calls) !! id = Some e' ∧ state e' ≠ Current.
Proof.
  intros Hjson. revert w s e. induction calls as [|c calls IH]; intros w s e Hw He Hstate; [by exists e|].
  cbn [accepted]. destruct (memory_step s c) as [s' r] eqn:Hs.
  destruct (memory_step_ok _ _ _ _ _ Hjson Hw Hs) as [Hw' Hfresh]. destruct r as [[]|er]; simpl in *; [|by eapply IH].
  assert (∃ e', memory_spec w c !! id = Some e' ∧ state e' ≠ Current) as (e'&He'&?); [|by eapply IH].
  destruct c as [x|project current x|project i|project i read|event]; simpl; [| |by exists e| |by exists e].
  - exists e. by rewrite lookup_insert_ne by congruence.
  - destruct (decide (current = id)) as [->|Hne].
    + rewrite lookup_alter_eq, lookup_insert_ne, He by congruence. by eexists.
    + exists e. by rewrite lookup_alter_ne, lookup_insert_ne by congruence.
  - destruct (decide (i = id)) as [->|Hne].
    + rewrite lookup_alter_eq, He. by eexists.
    + exists e. by rewrite lookup_alter_ne.
Qed.

Lemma removed_holds w s version key id t answer : json_faithful MemoryEntry → holds w s →
  memory_execute version key (MemRemove id) (tables s) = (t, Ok answer) →
  is_Some (w !! id) ∧ holds (alter memory_revoke id w) {| tables := t; pending := pending s |}.
Proof.
  intros Hjson Hw. unfold memory_execute. intros (t1&u&[-> _]%m_lift_ok&Hr)%method_bind_ok.
  apply method_bind_ok in Hr as (t1&u'&[-> _]%m_lift_ok&Hr).
  apply method_bind_ok in Hr as (t1&[]&Hr&[-> _]%method_ret_ok). unfold memory_call in Hr.
  destruct (memory_store_revoke _ id (tables s)) as [t2 [[]|e]] eqn:Hrevoke; [|done]. injection Hr as <-.
  unfold memory_store_revoke in Hrevoke. apply method_bind_ok in Hrevoke as (t3&t4&[-> ->]%m_get_ok&Hr).
  apply method_bind_ok in Hr as (t3&read&[-> Hread]%m_lift_ok&Hwrite).
  destruct (revoke_read_ok _ _ _ _ _ (hl_tables _ _ Hw) Hread) as [He _]. split; [by exists read|].
  pose proof (memory_step_ok w s (CallRead (from_stable_key key) id) _ _ Hjson Hw (surjective_pairing _)) as [Hw1 _].
  unfold memory_step in Hw1. rewrite Hread in Hw1. simpl in Hw1.
  apply (write_refines _ _ _ _ _ _ Hjson Hw1) in Hwrite as [Ht Hp]; [|by left].
  split; [done|]. intros project i e Hin. apply Hp. simpl in *. by right.
Qed.

(** C26. What a client removes is not recalled: once a removal is answered, no
    search by any client finds the entry, whatever is inserted, superseded or
    revoked later, and although revocations that read the memory before may still
    write to it. *)
Theorem removed_memory_is_not_recalled events calls version key id t answer later version' key' asked_confidence
    limit asked_scope text t' answers truncated :
  json_faithful MemoryEntry →
  let s := memory_run (no_memory events) calls in
  memory_execute version key (MemRemove id) (tables s) = (t, Ok answer) →
  memory_execute version' key' (MemSearch asked_confidence limit asked_scope text)
    (tables (memory_run {| tables := t; pending := pending s |} later)) = (t', Ok (Found answers truncated)) →
  id ∉ compact_id <$> answers.
Proof.
  intros Hjson s Hremove Hsearch.
  pose proof (memory_run_ok _ _ calls Hjson (no_memory_holds events)) as Hw.
  destruct (removed_holds _ _ _ _ _ _ _ Hjson Hw Hremove) as [[e He] Hw'].
  destruct (inactive_stays _ _ id (memory_revoke e) later Hjson Hw') as (e'&He'&Hstate);
    [by rewrite lookup_alter_eq, He|done|].
  pose proof (memory_run_ok _ _ later Hjson Hw') as [Hrep _].
  apply execute_search_ok in Hsearch as (_&c&found&Hfound&_&->&_).
  destruct (memory_search_ok _ _ _ _ Hrep Hfound) as (from&to&_&_&Hresult).
  intros (m&->&(x&Hx&->)%compact_found)%list_elem_of_fmap.
  destruct (sr_found _ _ _ _ _ Hresult x Hx) as (Hwx&_&[?|Hcurrent]&_); [done|].
  cbn [compact_entry compact_id] in *. congruence.
Qed.
End recall.

(** * Details and qualified entries *)

(** The selected entries come in their order, as many as fit. *)
Lemma selected_details_ok `{ToJson MemoryEntry} entries selected max : (max < u64_max)%N →
  ∃ rest, filter (λ e, memory_id e ∈ selected) entries = selected_details entries selected max ++ rest ∧
    (foldr (λ e n, default u64_max (json_size e) + n) 0 (selected_details entries selected max) ≤ max)%N ∧
    match rest with
    | [] => True
    | e :: _ => (max < foldr (λ e n, default u64_max (json_size e) + n) 0 (selected_details entries selected max)
                     + default u64_max (json_size e))%N
    end.
Proof.
  intros Hmax. unfold selected_details.
  pose proof (take_within_spec json_size max (filter (λ e, memory_id e ∈ selected) entries) 0 ltac:(lia)) as Hspec.
  destruct (take_within _ _ _ _) as [taken total]. destruct Hspec as (rest&Hl&Hle&Htotal&Hrest).
  exists rest. split; [done|]. simpl. split; [lia|]. destruct rest; [done|]. lia.
Qed.

(** What is qualified is a current rule with evidence. *)
Lemma qualified_is_a_rule id c e : qualify id c = Ok e →
  memory_validate e = Ok tt ∧ can_apply_as_rule e = true ∧ memory_id e = id ∧ evidence_ids (provenance e) ≠ ∅.
Proof.
  unfold qualify. intros [Hv [= <-]]%result_then_ok. split; [done|]. split; [done|]. split; [done|].
  destruct (validated_entry _ Hv) as (_&Hevidence&_). by apply Hevidence.
Qed.

Lemma json_name_kind k : json_name k = kind_name k.
Proof. by destruct k. Qed.

(** * Examples *)

Section examples.
#[local] Instance sample_sha : Sha256 := toy_sha256.
#[local] Instance sample_uuid : UuidText :=
  {| uuid_text u := uuid_bytes u; uuid_parse s := Some (word_of 128 (be_value s)) |}.
(** Two instants of the same second, as RFC 3339 writes them. *)
#[local] Instance sample_time : Rfc3339 :=
  {| rfc3339_format t := if decide (t = 0%Z) then Some "1970-01-01T00:00:00Z" else Some "1970-01-01T00:00:00.5Z";
     rfc3339_parse s := None |}.
#[local] Instance sample_search : FullTextSearch := λ _ _, Some (λ _, Some 0%Z).
(** An entry of 20,000 bytes. *)
#[local] Instance sample_json : ToJson CompactMemory := λ _, Some (chars_str (replicate (N.to_nat 20000) "x"%char)).

Definition learned (n : N) (time : WorkflowTimestamp) : MemoryEntry :=
  {| actor := "judge"; confidence := UserAsserted; created_at := time; detail := "detail"; memory_id := word_of 128 n;
     kind := Convention; project_id := from_stable_key "project";
     provenance := {| provenance_candidate := None; evidence_ids := ∅; revision := None;
                      source_event_ids := {[word_of 128 7]} |};
     scope := {["src"]}; state := Current; summary := "summary"; superseded_by := None; title := "title" |}.
Definition first_entry : MemoryEntry := learned 1 0%Z.
Definition second_entry : MemoryEntry := learned 2 500000000%Z.
#[local] Instance sample_entries : Persist MemoryEntry :=
  table_persist [first_entry; second_entry; memory_revoke first_entry; memory_revoke second_entry;
                 with_state Superseded (Some (memory_id second_entry)) first_entry].

Definition known_events : gset EventId := {[word_of 128 7]}.
Definition remembered (calls : list MemoryCall) : Shared := memory_run (no_memory known_events) calls.
Definition recall (s : Shared) : result MemoryCommandError MemoryAnswer :=
  (memory_execute 17 "project" (MemSearch None 5 None "") (tables s)).2.
Definition recalled (s : Shared) : option (list MemoryId * bool) :=
  match recall s with Ok (Found answers truncated) => Some (compact_id <$> answers, truncated) | _ => None end.
Definition states (s : Shared) : list (option string) :=
  (λ n, row_state <$> memory_entries (tables s) !! word_of 128 n) <$> [1%N; 2%N].

(** The later of two instants of a second comes last: a fraction sorts before the
    letter that ends the text. The second entry does not fit the budget of bytes,
    and the answer does not say that anything is missing. *)
Example text_order_and_silent_budget :
  recalled (remembered [CallInsert first_entry; CallInsert second_entry]) = Some ([word_of 128 1], false).
Proof. vm_compute. reflexivity. Qed.

(** A replacement that is not current is taken, which leaves no current entry. *)
Example revoked_replacement :
  states (remembered [CallInsert first_entry; CallSupersede (from_stable_key "project") (word_of 128 1)
                                                (memory_revoke second_entry)]) =
  [Some "superseded"; Some "revoked"].
Proof. vm_compute. reflexivity. Qed.

(** A revoked entry can be superseded, and is no longer a revoked one. *)
Example revocation_lost :
  states (remembered
    [CallInsert first_entry; CallRead (from_stable_key "project") (word_of 128 1);
     CallWrite (from_stable_key "project") (word_of 128 1) first_entry;
     CallSupersede (from_stable_key "project") (word_of 128 1) second_entry]) = [Some "superseded"; Some "current"].
Proof. vm_compute. reflexivity. Qed.

(** A revocation that was waiting undoes a supersession: the entry loses the link
    to its successor. *)
Definition overtaken : Shared := remembered
  [CallInsert first_entry; CallRead (from_stable_key "project") (word_of 128 1);
   CallSupersede (from_stable_key "project") (word_of 128 1) second_entry;
   CallWrite (from_stable_key "project") (word_of 128 1) first_entry].
Example successor_lost :
  (states overtaken, row_superseded <$> memory_entries (tables overtaken) !! word_of 128 1) =
  ([Some "revoked"; Some "current"], Some None).
Proof. vm_compute. reflexivity. Qed.

(** An entry without a source in the ledger is refused. *)
Example source_not_on_record :
  (memory_step (no_memory ∅) (CallInsert first_entry)).2 = Err MemorySqlite.
Proof. vm_compute. reflexivity. Qed.

Definition sample_calls : list MemoryCall :=
  [CallInsert first_entry; CallRead (from_stable_key "project") (word_of 128 1); CallInsert second_entry;
   CallWrite (from_stable_key "project") (word_of 128 1) first_entry].
Lemma memory_refines_its_specification_witness :
  length (accepted (no_memory known_events) sample_calls) = 4 ∧
  represents (foldl memory_spec ∅ (accepted (no_memory known_events) sample_calls)) (tables (remembered sample_calls)).
Proof.
  split; [vm_compute; reflexivity|].
  exact (memory_refines_its_specification known_events sample_calls (table_persist_faithful _)).
Defined.

Lemma recall_after calls answers truncated : recall (remembered calls) = Ok (Found answers truncated) →
  ∃ t, memory_execute 17 "project" (MemSearch None 5 None "") (tables (remembered calls)) = (t, Ok (Found answers truncated)).
Proof. unfold recall. destruct (memory_execute _ _ _ _) as [t r]. simpl. intros ->. by exists t. Qed.

Lemma recalled_memory_is_sound_witness :
  recall (remembered sample_calls) = Ok (Found [compact_entry second_entry] false) ∧
  ∃ found, (∀ e, e ∈ found → state e = Current) ∧
    ∃ rest, compact_entry <$> take 5 found = [compact_entry second_entry] ++ rest.
Proof.
  assert (recall (remembered sample_calls) = Ok (Found [compact_entry second_entry] false)) as Hr
    by (vm_compute; reflexivity).
  split; [exact Hr|]. destruct (recall_after _ _ _ Hr) as [t Ht].
  destruct (recalled_memory_is_sound known_events sample_calls 17 "project" None 5 None "" t
    [compact_entry second_entry] false (table_persist_faithful _) Ht) as (_&found&Hfound&_&Hrest&_).
  exists found. split; [|exact Hrest]. intros e He. destruct (Hfound e He) as (_&(_&Hstate&_)&_). exact Hstate.
Defined.

Definition removal_calls : list MemoryCall := take 3 sample_calls.
Definition removed_state : MemoryTables :=
  (memory_execute 17 "project" (MemRemove (word_of 128 1)) (tables (remembered removal_calls))).1.
Lemma removed_memory_is_not_recalled_witness :
  memory_execute 17 "project" (MemRemove (word_of 128 1)) (tables (remembered removal_calls)) =
    (removed_state, Ok (Removed (word_of 128 1) "revoked")) ∧
  word_of 128 1 ∉ compact_id <$> [compact_entry second_entry].
Proof.
  assert ((memory_execute 17 "project" (MemRemove (word_of 128 1)) (tables (remembered removal_calls))).2 =
    Ok (Removed (word_of 128 1) "revoked")) as Hr by (vm_compute; reflexivity).
  assert (memory_execute 17 "project" (MemRemove (word_of 128 1)) (tables (remembered removal_calls)) =
    (removed_state, Ok (Removed (word_of 128 1) "revoked"))) as Hremove.
  { rewrite <-Hr. apply surjective_pairing. }
  split; [exact Hremove|].
  assert ((memory_execute 17 "project" (MemSearch None 5 None "") (tables (memory_run
      {| tables := removed_state; pending := pending (remembered removal_calls) |} []))).2 =
    Ok (Found [compact_entry second_entry] false)) as Hsearch by (vm_compute; reflexivity).
  refine (removed_memory_is_not_recalled known_events removal_calls 17 "project" (word_of 128 1) removed_state _ [] 17
    "project" None 5 None "" _ _ false (table_persist_faithful _) Hremove _).
  exact (eq_trans (surjective_pairing _) (f_equal (pair _) Hsearch)).
Defined.
End examples.
End Memory.
