(* ===== verification/Intake.v ===== *)
(** The intake of workflowd (intake.rs): a request's exact bytes with the metadata
    of its attachments, its limits, and the check made when it is read back. *)
From Stdlib Require Import Ascii String.
From S2P Require Import Prelude Text Ids Canonical Requests.

Module Intake.
Import Request.

Definition MAX_ATTACHMENTS : nat := 256.
Definition MAX_MEDIA_TYPE_BYTES : N := 127.
Definition MAX_NAME_BYTES : N := 255.
Definition MAX_REQUEST_BYTES : N := 8 * 1024 * 1024.

Record AttachmentMetadata : Type := {
  content_digest : ContentDigest; display_name : option string; media_type : string; size_bytes : N;
}.
Record ImmutableIntake : Type := {
  attachments : list AttachmentMetadata; original_bytes : string; request : RequestRecord;
}.
#[export] Instance AttachmentMetadata_eq_dec : EqDecision AttachmentMetadata.
Proof. solve_decision. Defined.
#[export] Instance ImmutableIntake_eq_dec : EqDecision ImmutableIntake.
Proof. solve_decision. Defined.
(** The intake as it is read, before its check. *)
Record UncheckedIntake : Type := {
  u_attachments : list AttachmentMetadata; u_original_bytes : string; u_request : RequestRecord;
}.
Record ArbiterIntakeBundle : Type := {
  amendment_digests : list ContentDigest; bundle_attachments : list AttachmentMetadata;
  original_digest : ContentDigest; original_request : string; bundle_request_digest : ContentDigest;
}.
Inductive IntakeError : Type :=
| AttachmentMismatch | InvalidMediaType | InvalidUtf8 | IntakeRequest (error : RequestError) | RequestTooLarge
| TooManyAttachments | UnsafeAttachmentName.

(** [char::is_control] of some character: one byte below the space, DEL, or the two
    bytes of U+0080 to U+009F. *)
Fixpoint any_control (l : list ascii) : bool :=
  match l with
  | [] => false
  | a :: l' =>
      (code a <? 32)%N || (code a =? 127)%N
      || ((code a =? 194)%N && match l' with b :: _ => in_range 128 159 b | [] => false end)
      || any_control l'
  end.
Definition is_ascii_control (a : ascii) : bool := (code a <? 32)%N || (code a =? 127)%N.

(** [AttachmentMetadata::new]. *)
Definition attachment_new (content_digest : ContentDigest) (display_name : option string) (media_type : string)
    (size_bytes : N) : result IntakeError AttachmentMetadata :=
  _ ← reject_if (match display_name with
        | Some name => bool_decide (name = "") || (MAX_NAME_BYTES <? str_len name)%N
            || str_any (λ a, is_char slash a || is_char backslash a) name || any_control (str_chars name)
        | None => false
        end) UnsafeAttachmentName;
  _ ← reject_if (bool_decide (media_type = "") || (MAX_MEDIA_TYPE_BYTES <? str_len media_type)%N
                 || negb (str_all (λ a, code a <? 128)%N media_type) || str_any is_ascii_control media_type)
        InvalidMediaType;
  Ok {| content_digest := content_digest; display_name := display_name; media_type := media_type;
        size_bytes := size_bytes |}.

(** [ImmutableIntake::capture]. *)
Definition capture (original_bytes : string) (attachments : list AttachmentMetadata)
    : result IntakeError ImmutableIntake :=
  _ ← reject_if (MAX_REQUEST_BYTES <? str_len original_bytes)%N RequestTooLarge;
  _ ← reject_if (MAX_ATTACHMENTS <? length attachments) TooManyAttachments;
  original_text ← ok_or InvalidUtf8 (from_utf8 original_bytes);
  Ok {| attachments := attachments; original_bytes := original_bytes;
        request := request_new original_text (content_digest <$> attachments) |}.

(** [ImmutableIntake::append_amendment]. *)
Definition intake_append (text : string) (received_at : WorkflowTimestamp) : method ImmutableIntake IntakeError unit := λ i,
  let '(r, answer) := append_amendment text received_at (request i) in
  ({| attachments := attachments i; original_bytes := original_bytes i; request := r |}, map_err IntakeRequest answer).

(** [ImmutableIntake::arbiter_bundle]; [None] where an instant has no text. *)
Definition arbiter_bundle `{Sha256, Rfc3339} (i : ImmutableIntake) : option ArbiterIntakeBundle :=
  digests ← mapM amendment_digest (amendments (request i));
  digest ← request_digest (request i);
  Some {| amendment_digests := digests; bundle_attachments := attachments i;
          original_digest := digest_of (original_bytes i); original_request := original_text (request i);
          bundle_request_digest := digest |}.

(** One turn of the loop over the amendments that were read. *)
Definition append_read (i : ImmutableIntake) (a : RequestAmendment) : result IntakeError ImmutableIntake :=
  match intake_append (text a) (received_at a) i with (i', Ok _) => Ok i' | (_, Err e) => Err e end.
(** [TryFrom<UncheckedIntake>]. *)
Definition intake_try_from (value : UncheckedIntake) : result IntakeError ImmutableIntake :=
  intake ← capture (u_original_bytes value) (u_attachments value);
  _ ← reject_if (negb (bool_decide (original_text (request intake) = original_text (u_request value)))
                 || negb (bool_decide (attachment_hashes (request intake) = attachment_hashes (u_request value))))
        AttachmentMismatch;
  intake ← try_fold append_read intake (amendments (u_request value));
  _ ← reject_if (negb (bool_decide (request intake = u_request value))) AttachmentMismatch;
  Ok intake.

Definition unchecked_intake (i : ImmutableIntake) : UncheckedIntake :=
  {| u_attachments := attachments i; u_original_bytes := original_bytes i; u_request := request i |}.

(** An intake within the limits, whose request is the text of its bytes and the
    digests of its attachments. *)
Record intake_ok (i : ImmutableIntake) : Prop := {
  io_size : (str_len (original_bytes i) ≤ MAX_REQUEST_BYTES)%N;
  io_attachments : length (attachments i) ≤ MAX_ATTACHMENTS;
  io_text : valid_utf8 (str_chars (original_bytes i)) = true ∧ original_text (request i) = original_bytes i;
  io_digests : attachment_hashes (request i) = content_digest <$> attachments i;
  io_request : request_wf (request i);
}.

Lemma capture_ok bytes l i : capture bytes l = Ok i ↔
  (str_len bytes ≤ MAX_REQUEST_BYTES)%N ∧ length l ≤ MAX_ATTACHMENTS ∧ valid_utf8 (str_chars bytes) = true ∧
  i = {| attachments := l; original_bytes := bytes; request := request_new bytes (content_digest <$> l) |}.
Proof.
  unfold capture, from_utf8. rewrite !result_then_ok, !reject_if_ok, N.ltb_ge, Nat.ltb_ge, result_bind_ok.
  setoid_rewrite ok_or_ok. destruct (valid_utf8 _); naive_solver.
Qed.

Lemma captured_ok bytes l i : capture bytes l = Ok i → intake_ok i.
Proof. intros (?&?&?&->)%capture_ok. by split. Qed.

(** An amendment keeps an intake as it should be, and its bytes and attachments. *)
Lemma append_ok i t at_ i' r : intake_ok i → intake_append t at_ i = (i', r) →
  attachments i' = attachments i ∧ original_bytes i' = original_bytes i ∧ (r = Ok tt → intake_ok i').
Proof.
  intros [Hsize Hl [Hutf Ht] Hd Hr]. unfold intake_append.
  destruct (append_amendment t at_ (request i)) as [q answer] eqn:Ha. intros [= <- <-].
  split; [done|]. split; [done|]. intros Hok. destruct answer as [[]|]; [|done].
  pose proof (append_amendment_wf _ _ _ _ _ Hr Ha) as Hq.
  unfold append_amendment in Ha. apply method_bind_ok in Ha as (s1&r1&[-> ->]%m_get_ok&Ha).
  apply method_bind_ok in Ha as (s1&n&[-> _]%m_lift_ok&->%m_modify_ok). by split.
Qed.

Lemma append_read_ok i a i' : append_read i a = Ok i' ↔
  ∃ n, next_sequence (length (amendments (request i))) = Ok n ∧
    i' = {| attachments := attachments i; original_bytes := original_bytes i;
            request := {| original_text := original_text (request i); attachment_hashes := attachment_hashes (request i);
              amendments := amendments (request i) ++ [{| sequence := n; text := text a; received_at := received_at a |}] |} |}.
Proof.
  unfold append_read, intake_append, append_amendment. run_method.
  destruct (next_sequence _) as [n|e]; simpl; naive_solver.
Qed.

(** The amendments that were read are appended as they were, if they are numbered. *)
Lemma append_all_ok l i : numbered (amendments (request i) ++ l) →
  try_fold append_read i l =
    Ok {| attachments := attachments i; original_bytes := original_bytes i;
          request := {| original_text := original_text (request i); attachment_hashes := attachment_hashes (request i);
            amendments := amendments (request i) ++ l |} |}.
Proof.
  revert i. induction l as [|a l IH]; intros i Hn; cbn [try_fold].
  { rewrite app_nil_r. by destruct i as [? ? []]. }
  assert (append_read i a = Ok {| attachments := attachments i; original_bytes := original_bytes i;
    request := {| original_text := original_text (request i); attachment_hashes := attachment_hashes (request i);
      amendments := amendments (request i) ++ [a] |} |}) as ->.
  { apply append_read_ok. destruct (Hn (length (amendments (request i))) a) as [Hs Hle]; [by apply list_lookup_middle|].
    exists (sequence a). split; [by apply next_sequence_ok|]. by destruct a. }
  rewrite IH; simpl; by rewrite <-app_assoc.
Qed.

Lemma append_all_keeps l i i' : intake_ok i → try_fold append_read i l = Ok i' →
  intake_ok i' ∧ attachments i' = attachments i ∧ original_bytes i' = original_bytes i.
Proof.
  revert i. induction l as [|a l IH]; intros i Hi; cbn [try_fold]; [by intros [= <-]|].
  unfold append_read. destruct (intake_append _ _ i) as [i1 [[]|e]] eqn:Ha; [|done]. intros Hl.
  destruct (append_ok _ _ _ _ _ Hi Ha) as (Ea&Eb&Hok). apply IH in Hl as (?&?&?); [|by apply Hok].
  split; [done|]. split; congruence.
Qed.

(** An intake survives storage: what the check accepts is exactly what the intake
    writes of itself, unchanged, for the intakes within the limits whose request is
    the text of the bytes with the digests of the attachments and its amendments
    numbered from one. *)
Theorem intake_loads_iff_captured v i :
  intake_try_from v = Ok i ↔ v = unchecked_intake i ∧ intake_ok i.
Proof.
  unfold intake_try_from. split.
  - intros (i0&Hc&Hv)%result_bind_ok. pose proof (captured_ok _ _ _ Hc) as Hi0.
    apply capture_ok in Hc as (_&_&_&->). apply result_then_ok in Hv as [_ Hv].
    apply result_bind_ok in Hv as (i1&Hl&Hv). apply result_then_ok in Hv as [Hsame%reject_if_ok [= ->]]. to_prop.
    destruct (append_all_keeps _ _ _ Hi0 Hl) as (Hok&Ha&Hb). simpl in *. split; [|done].
    destruct v. unfold unchecked_intake. simpl in *. by rewrite Ha, Hb, Hsame.
  - intros [-> Hok]. destruct i as [l b [ot ah am]], Hok as [Hsize Hl [Hutf Ht] Hd Hr].
    cbn [attachments original_bytes request original_text attachment_hashes] in *. subst ot ah.
    unfold unchecked_intake. cbn [u_original_bytes u_attachments u_request attachments original_bytes request].
    apply result_bind_ok. eexists. split; [by apply capture_ok|].
    apply result_then_ok. split; [apply reject_if_ok; by rewrite !bool_decide_true|].
    apply result_bind_ok. eexists. split; [by apply append_all_ok|].
    apply result_then_ok. split; [|done]. apply reject_if_ok. by rewrite bool_decide_true.
Qed.

(** * Examples *)

(** The name of an attachment is checked when it is made, not when it is read: an
    unsafe one loads. *)
Example unsafe_name_loads :
  let attachment := {| content_digest := word_of 256 1; display_name := Some "../x"; media_type := "text/plain";
                       size_bytes := 1 |} in
  let value := {| u_attachments := [attachment]; u_original_bytes := "text";
                  u_request := request_new "text" [word_of 256 1] |} in
  attachment_new (word_of 256 1) (Some "../x") "text/plain" 1 = Err UnsafeAttachmentName ∧
  intake_try_from value = Ok {| attachments := [attachment]; original_bytes := "text"; request := u_request value |}.
Proof. split; vm_compute; reflexivity. Qed.

Example control_names :
  (any_control (str_chars "plan.md"), any_control ["a"; "010"]%char, any_control ["194"; "133"]%char) =
  (false, true, true).
Proof. vm_compute. reflexivity. Qed.
End Intake.
