(* ===== verification/Worktrees.v ===== *)
(** The worktrees of workflowd (worktree.rs), on Unix: which repository and directory
    a manager takes, and which Git commands it runs. The file system and Git are the
    class [Host]: a path's canonical form, what exists, what a command prints and
    how it changes the machine. *)
From Stdlib Require Import Ascii String.
From S2P Require Import Prelude Text Ids Paths CodeGraph.

Record GitOutput : Type := { git_success : bool; git_stdout : string; git_stderr : string }.
Class Host (W : Type) := {
  canonicalize : W → string → option string;
  create_dir_all : string → W → W * bool;
  path_exists : W → string → bool;
  path_is_file : W → string → bool;
  git_runs : string → list string → W → W * option GitOutput;
}.

Module Worktrees.

Record ManagedWorktree : Type := { base_revision : string; worktree_path : string }.
Inductive WorktreeError : Type :=
| GitFailed (message : string) | InvalidRepository | WorktreeIo | OutsideManagedRoot | UnsafeExistingTarget.
Record WorktreeManager : Type := { managed_root : string; repository : string }.

(** The components of an absolute path, [Path::starts_with] and [Path::join] of a
    name. *)
Definition components (path : string) : list string := filter (λ segment, segment ≠ "") (segments path).
Definition starts_with_path (path base : string) : bool :=
  bool_decide (take (length (components base)) (components path) = components base).
Definition join_name (path name : string) : string := path +:+ "/" +:+ name.

(** A machine, with the Git commands that ran on it: their directory and their
    arguments. *)
Record Machine (W : Type) : Type := { world : W; commands : list (string * list string) }.
Arguments world {W} _.
Arguments commands {W} _.

Section manager.
Context {W : Type} `{Host W, UuidText}.
Abbreviation Step := (method (Machine W) WorktreeError).

Definition canonical (path : string) : Step string :=
  s ← m_get; m_lift (ok_or WorktreeIo (canonicalize (world s) path)).
Definition create_directories (path : string) : Step unit := λ s,
  let '(w, ok) := create_dir_all path (world s) in
  ({| world := w; commands := commands s |}, reject_if (negb ok) WorktreeIo).
(** An output's text stands for its lossy decoding where an error shows it.
    [Command::new("git").arg("-C").arg(directory).args(arguments).output()?]. *)
Definition worktree_git (directory : string) (arguments : list string) : Step GitOutput := λ s,
  let '(w, output) := git_runs directory arguments (world s) in
  ({| world := w; commands := commands s ++ [(directory, arguments)] |}, ok_or WorktreeIo output).
Definition require_success (output : GitOutput) : result WorktreeError unit :=
  reject_if (negb (git_success output)) (GitFailed (trim (git_stderr output))).
Definition git (directory : string) (arguments : list string) : Step GitOutput :=
  output ← worktree_git directory arguments;
  _ ← m_lift (require_success output);
  mret output.
Definition git_text (output : GitOutput) : result WorktreeError string :=
  text ← ok_or (GitFailed "Git returned non-UTF-8 output") (from_utf8 (git_stdout output));
  if decide (trim text = "") then Err (GitFailed "Git returned empty output") else Ok (trim text).

(** [WorktreeManager::new]. *)
Definition manager_new (repository_path managed_path : string) : Step WorktreeManager :=
  repository ← canonical repository_path;
  _ ← create_directories managed_path;
  managed ← canonical managed_path;
  _ ← m_lift (reject_if (bool_decide (components repository = components managed)
                         || starts_with_path managed repository) OutsideManagedRoot);
  top_level ← git repository ["rev-parse"; "--show-toplevel"];
  text ← m_lift (git_text top_level);
  discovered ← canonical text;
  _ ← m_lift (reject_if (negb (bool_decide (components discovered = components repository))) InvalidRepository);
  mret {| managed_root := managed; repository := repository |}.

Definition validate_existing_path (m : WorktreeManager) (target_path : string) : Step string :=
  target ← canonical target_path;
  _ ← m_lift (reject_if (bool_decide (components target = components (managed_root m))
                         || negb (starts_with_path target (managed_root m))) OutsideManagedRoot);
  _ ← m_lift (reject_if (negb (length (components target) - length (components (managed_root m)) =? 2))
        OutsideManagedRoot);
  mret target.
Definition existing (m : WorktreeManager) (target_path : string) : Step ManagedWorktree :=
  target ← validate_existing_path m target_path;
  s ← m_get;
  _ ← m_lift (reject_if (negb (path_is_file (world s) (join_name target ".git"))) UnsafeExistingTarget);
  head ← git target ["rev-parse"; "HEAD"];
  revision ← m_lift (git_text head);
  mret {| base_revision := revision; worktree_path := target |}.

(** [WorktreeManager::create]. *)
Definition worktree_create (m : WorktreeManager) (project : ProjectId) (workflow : WorkflowId) : Step ManagedWorktree :=
  let requested := join_name (managed_root m) (uuid_text project) in
  _ ← create_directories requested;
  project_root ← canonical requested;
  _ ← m_lift (reject_if (negb (starts_with_path project_root (managed_root m))) OutsideManagedRoot);
  let target := join_name project_root (uuid_text workflow) in
  s ← m_get;
  if path_exists (world s) target then existing m target
  else
    head ← git (repository m) ["rev-parse"; "HEAD"];
    revision ← m_lift (git_text head);
    output ← worktree_git (repository m) ["worktree"; "add"; "--detach"; target; revision];
    _ ← m_lift (require_success output);
    managed ← existing m target;
    _ ← m_lift (reject_if (negb (bool_decide (base_revision managed = revision))) UnsafeExistingTarget);
    mret managed.
(** [WorktreeManager::remove]. *)
Definition worktree_remove (m : WorktreeManager) (worktree : ManagedWorktree) : Step unit :=
  found ← existing m (worktree_path worktree);
  _ ← m_lift (reject_if (negb (bool_decide (base_revision found = base_revision worktree))) UnsafeExistingTarget);
  output ← worktree_git (repository m) ["worktree"; "remove"; "--force"; worktree_path found];
  m_lift (require_success output).

(** * What a manager touches *)

(** A path of two names below the managed root. *)
Definition managed (m : WorktreeManager) (path : string) : Prop :=
  ∃ project workflow, components path = components (managed_root m) ++ [project; workflow].

(** The commands a call adds satisfy [P], however it ends. *)
Definition adds (P : string * list string → Prop) {A} (step : Step A) : Prop :=
  ∀ s, ∃ l, commands (step s).1 = commands s ++ l ∧ Forall P l.

Lemma adds_nothing {A} P (step : Step A) : (∀ s, commands (step s).1 = commands s) → adds P step.
Proof. intros Hs s. exists []. by rewrite Hs, app_nil_r. Qed.
Lemma adds_bind {A B} P (step : Step A) (k : A → Step B) :
  adds P step → (∀ s s' a, step s = (s', Ok a) → ∃ l, commands (k a s').1 = commands s' ++ l ∧ Forall P l) →
  adds P (step ≫= k).
Proof.
  intros Hstep Hk s. destruct (Hstep s) as (l&Hl&Hall). unfold mbind, method_bind.
  destruct (step s) as [s1 [a|e]] eqn:Hs; simpl in *; [|by exists l].
  destruct (Hk _ _ _ Hs) as (k'&Hk'&Hall'). exists (l ++ k'). rewrite Hk', Hl, app_assoc.
  split; [done|]. by apply Forall_app.
Qed.
Lemma adds_after {A B} P (step : Step A) (k : A → Step B) : adds P step → (∀ a, adds P (k a)) → adds P (step ≫= k).
Proof. intros Hs Hk. apply adds_bind; [done|]. intros. apply Hk. Qed.
Lemma adds_lift {A} P (r : result WorktreeError A) : adds P (m_lift r : Step A).
Proof. by apply adds_nothing. Qed.
Lemma adds_get P : adds P (m_get : Step (Machine W)).
Proof. by apply adds_nothing. Qed.
Lemma adds_ret {A} P (a : A) : adds P (mret a : Step A).
Proof. by apply adds_nothing. Qed.
Lemma adds_canonical P path : adds P (canonical path).
Proof. by apply adds_nothing. Qed.
Lemma adds_directories P path : adds P (create_directories path).
Proof. apply adds_nothing. intros s. unfold create_directories. by destruct (create_dir_all _ _). Qed.
Lemma adds_output (P : string * list string → Prop) directory arguments :
  P (directory, arguments) → adds P (worktree_git directory arguments).
Proof.
  intros HP s. exists [(directory, arguments)]. unfold worktree_git. destruct (git_runs _ _ _). by repeat constructor.
Qed.
Lemma adds_git (P : string * list string → Prop) directory arguments :
  P (directory, arguments) → adds P (git directory arguments).
Proof.
  intros HP. apply adds_after; [by apply adds_output|]. intros output.
  apply adds_after; [apply adds_lift|]. intros _. apply adds_ret.
Qed.

Lemma validate_existing_ok m path s s' target : validate_existing_path m path s = (s', Ok target) →
  s' = s ∧ canonicalize (world s) path = Some target ∧ managed m target.
Proof.
  unfold validate_existing_path, canonical. intros (s1&t&Hc&Hr)%method_bind_ok.
  apply method_bind_ok in Hc as (s2&s3&[-> ->]%m_get_ok&[-> Hc%ok_or_ok]%m_lift_ok).
  apply method_bind_ok in Hr as (s2&u&[-> Hroot%reject_if_ok]%m_lift_ok&Hr).
  apply method_bind_ok in Hr as (s2&u'&[-> Hlen%reject_if_ok]%m_lift_ok&[-> ->]%method_ret_ok).
  split; [done|]. split; [done|]. to_prop. apply Nat.eqb_eq in Hlen. unfold starts_with_path in *. to_prop.
  destruct (drop (length (components (managed_root m))) (components t)) as [|a [|b [|c l]]] eqn:Hd;
    apply (f_equal length) in Hd as Hd'; rewrite length_drop in Hd'; simpl in Hd'; try lia.
  exists a, b. rewrite <-(take_drop (length (components (managed_root m))) (components t)), Hd. by f_equal.
Qed.

(** A command that only asks Git for a revision. *)
Definition asks (c : string * list string) : Prop := ∃ what, c.2 = ["rev-parse"; what].

Lemma existing_ok m path s : ∃ l, commands (existing m path s).1 = commands s ++ l ∧ Forall asks l ∧
  ∀ s' w, existing m path s = (s', Ok w) →
    canonicalize (world s) path = Some (worktree_path w) ∧ managed m (worktree_path w) ∧
    path_is_file (world s) (join_name (worktree_path w) ".git") = true.
Proof.
  assert (adds asks (existing m path)) as Hadds.
  { unfold existing, validate_existing_path.
    repeat first [apply adds_lift | apply adds_ret | apply adds_get | apply adds_canonical |
                  apply adds_git; by eexists | apply adds_after; [|intros ?]]. }
  destruct (Hadds s) as (l&Hl&Hall). exists l. split; [done|]. split; [done|].
  intros s' w. unfold existing. intros (s1&target&Hv&Hr)%method_bind_ok.
  apply validate_existing_ok in Hv as (->&Hc&Hm).
  apply method_bind_ok in Hr as (s1&s2&[-> ->]%m_get_ok&Hr).
  apply method_bind_ok in Hr as (s1&u&[-> Hfile%reject_if_ok%negb_false_iff]%m_lift_ok&Hr).
  apply method_bind_ok in Hr as (s1&head&_&Hr).
  apply method_bind_ok in Hr as (s2&revision&_&[-> ->]%method_ret_ok). done.
Qed.

(** A removal runs no command but questions about revisions and the forced removal,
    in the repository, of the canonical path of the worktree, which is two names
    below the managed root and has the file of a linked worktree. *)
Theorem removal_is_managed m worktree :
  ∀ s, ∃ l, commands (worktree_remove m worktree s).1 = commands s ++ l ∧
    Forall (λ c, asks c ∨ ∃ target, c = (repository m, ["worktree"; "remove"; "--force"; target]) ∧
      managed m target ∧ canonicalize (world s) (worktree_path worktree) = Some target ∧
      path_is_file (world s) (join_name target ".git") = true) l.
Proof.
  intros s. destruct (existing_ok m (worktree_path worktree) s) as (l&Hl&Hasks&Hfound).
  unfold worktree_remove, mbind at 1, method_bind at 1.
  destruct (existing m (worktree_path worktree) s) as [s1 [w|e]]; simpl in *.
  2:{ exists l. split; [done|]. eapply Forall_impl; [exact Hasks|]. auto. }
  destruct (Hfound s1 w eq_refl) as (Hc&Hm&Hfile).
  set (P := λ c : string * list string, asks c ∨ _).
  assert (adds P ((_ ← m_lift (reject_if (negb (bool_decide (base_revision w = base_revision worktree)))
                     UnsafeExistingTarget);
      output ← worktree_git (repository m) ["worktree"; "remove"; "--force"; worktree_path w];
      m_lift (require_success output)) : Step unit)) as Hadds.
  { apply adds_after; [apply adds_lift|]. intros _. apply adds_after; [|intros; apply adds_lift].
    apply adds_output. right. by exists (worktree_path w). }
  destruct (Hadds s1) as (k&Hk&Hall). exists (l ++ k). rewrite Hk, Hl, app_assoc. split; [done|].
  apply Forall_app. split; [|done]. eapply Forall_impl; [exact Hasks|]. by left.
Qed.

(** A worktree that is given out is below the managed root. *)
Theorem created_is_managed m project workflow s s' w :
  worktree_create m project workflow s = (s', Ok w) → managed m (worktree_path w).
Proof.
  unfold worktree_create. intros (s1&[]&_&Hr)%method_bind_ok.
  apply method_bind_ok in Hr as (s2&root&_&Hr). apply method_bind_ok in Hr as (s3&[]&_&Hr).
  apply method_bind_ok in Hr as (s4&s5&_&Hr). destruct (path_exists _ _).
  - destruct (existing_ok m (join_name root (uuid_text workflow)) s4) as (_&_&_&Hfound). by eapply Hfound.
  - apply method_bind_ok in Hr as (s6&head&_&Hr). apply method_bind_ok in Hr as (s7&revision&_&Hr).
    apply method_bind_ok in Hr as (s8&output&_&Hr). apply method_bind_ok in Hr as (s9&[]&_&Hr).
    apply method_bind_ok in Hr as (s10&found&He&Hr). apply method_bind_ok in Hr as (s11&[]&_&[_ ->]%method_ret_ok).
    destruct (existing_ok m (join_name root (uuid_text workflow)) s9) as (_&_&_&Hfound). by eapply Hfound.
Qed.
End manager.

(** * Examples *)

Section examples.
(** A machine whose paths are canonical and whose Git prints one revision. *)
#[local] Instance sample_host : Host (gset string) :=
  {| canonicalize w path := Some path; create_dir_all path w := (w, true);
     path_exists w path := bool_decide (path ∈ w); path_is_file w path := true;
     git_runs directory arguments w :=
       (w, Some {| git_success := true; git_stderr := "";
                   git_stdout := if decide (arguments = ["rev-parse"; "--show-toplevel"]) then "/repo" else "abc" |}) |}.
#[local] Instance sample_uuid : UuidText :=
  {| uuid_text u := if decide (u = word_of 128 1) then "p" else "w"; uuid_parse s := None |}.
Definition sample_manager : WorktreeManager := {| managed_root := "/managed"; repository := "/repo" |}.
Definition machine : Machine (gset string) := {| world := ∅; commands := [] |}.

Example root_inside_repository :
  ((manager_new "/repo" "/repo/managed" machine).2, (manager_new "/repo/" "/managed" machine).2) =
  (Err OutsideManagedRoot, Ok {| managed_root := "/managed"; repository := "/repo/" |}).
Proof. vm_compute. reflexivity. Qed.
Example created_and_removed :
  let created := worktree_create sample_manager (word_of 128 1) (word_of 128 2) machine in
  created.2 = Ok {| base_revision := "abc"; worktree_path := "/managed/p/w" |} ∧
  last (commands (worktree_remove sample_manager {| base_revision := "abc"; worktree_path := "/managed/p/w" |}
                    created.1).1) = Some ("/repo", ["worktree"; "remove"; "--force"; "/managed/p/w"]).
Proof. split; vm_compute; reflexivity. Qed.
End examples.
End Worktrees.
